(* ===== verification/_CoqProject ===== *)
-Q . S2P
Prelude.v
Utils.v
Smoothsort.v
SmoothsortFacts.v
SmoothHeap.v
SmoothsortSpec.v
Alloc.v
AllocBins.v
AllocFacts.v
AllocInv.v
AllocSteps.v
AllocBin.v
AllocFree.v
AllocTrim.v
AllocGrow.v
AllocMapped.v
AllocSpec.v
AllocRealloc.v
AllocClient.v
AllocTheorems.v
Pager.v
PagerFacts.v
PagerCheck.v
PagerSpec.v
CodeBitmap.v
Dict.v
Graph.v
GraphFacts.v
Module.v
Table.v
McfiId.v
McfiNumbers.v
McfiFacts.v
Cfg.v
CfgFacts.v
StringPool.v
Vsprintf.v
VsprintfText.v
VsprintfFacts.v
VsprintfSpec.v
Runtime.v
Threads.v
GenCfg.v
CfgTables.v
Policy.v
TableTypes.v
Check.v
CheckFacts.v
Stats.v
Patch.v
PatchFacts.v
MemCalls.v
MemFacts.v
Verifier.v
CodeHeap.v
CodeHeapFacts.v
MetaParse.v
MetaFacts.v
FuncFacts.v
CodeMeta.v
CodeMetaFacts.v
Stack.v
StackFacts.v
Loader.v
LoaderFacts.v
ElfLoad.v
ElfFacts.v
Start.v
StartFacts.v
Entry.v
EntryFacts.v
EntryTheorems.v
EntryExit.v
Fork.v
ForkKernel.v
ForkLogic.v
ForkState.v
ForkRules.v
ForkFacts.v
ForkTheorems.v
