(* ===== verification/Prelude.v ===== *)
(** * MCFI/PICFI trusted runtime: a verification library

    MCFI and PICFI protect a program compiled by their toolchain: every
    indirect branch (call, jump, return) is preceded by a check that compares
    two words of a table region, one for the branch and one for its target.
    The trusted runtime under [src/runtime/] loads the program into a sandbox
    of 4 GB, parses the metadata the compiler left in each module, generates
    the control-flow graph, numbers its equivalence classes and fills the
    table, activates targets while the program runs (online patching), lets a
    just-in-time compiler install code after verifying it, and mediates the
    program's memory calls and its [fork].  This library models that runtime,
    which is the part of the repository that decides what a protected program
    may do, and the instructions of the check itself.

    ** How the model is made

    The definitions are a shallow embedding of the C code, translated function
    by function and executable.  A run is a value of [res] (this file): [Ok],
    [Exit] (the code ends the process: [quit(-1)], a failing [CHECK]),
    [Fault] (a NULL dereference, an access out of an array, a shift by too
    much: what the C machine gives no meaning to) or [NoFuel].  Machine
    integers are [Z] with the wrap written out ([u64], [s16], ...).  The global
    variables of [runtime.c] and [main.c] are one record, [Runtime.runtime],
    passed along; loops that the data do not bound by structure have fuel, and
    the theorem on a loop shows that the fuel given is enough.  What is not in
    the repository is a parameter: the answers of the kernel ([mmap], [munmap],
    [mprotect], [brk]), the contents of the control blocks that other threads
    change while the runtime waits.  The allocator is modelled down to its
    words; to the other components [malloc] is an oracle that succeeds or not
    and says where, and they do not model memory that the code only releases,
    nor messages.  What runs at the same time as something else is a system
    whose steps come in any order: the threads, a branch being checked while
    the tables change, and the two processes of [fork].

    ** The files, by component

    - Prelude: outcomes, machine integers, memory as lists of bytes, tactics.
    - Utils ([utils.c], [bsearch]): binary search, and [Qsort]/[QsortSpec], the
      interface of the sort.  Smoothsort ([utils.c], [qsort]): the smoothsort
      with its two words of bits; SmoothsortFacts: Leonardo numbers and bits;
      SmoothHeap: [sift] and [trinkle] on rows of heaps; SmoothsortSpec: the
      sort returns, with a sorted permutation, and so implements [QsortSpec].
    - Alloc ([mm/malloc.c]): [malloc], [realloc] and [free] on the words of
      memory, in a monad of their state.  AllocBins: the bin of a size;
      AllocFacts, AllocInv: runs, chunks, rings, and the invariant; AllocSteps,
      AllocBin, AllocFree, AllocTrim, AllocGrow, AllocMapped: each
      step keeps it; AllocSpec: what the allocator promises, with the interface
      [KernelSpec] of what it needs; AllocRealloc, AllocClient: a
      client's view of it and the refinement; AllocTheorems.
    - Pager ([pager.c], [pager.h]): the memory map as an array of regions;
      PagerFacts, PagerCheck, PagerSpec: each operation refines an operation on
      a page table ([page_lookup]) and keeps the map well-formed; the searches
      for space find the topmost and the lowest gap.
    - CodeBitmap ([count_bits] to [set_data] of [runtime.c]): the bitmap that
      tells code from data in a code heap.
    - Dict ([kv.h]), Graph ([graph.h]): dictionaries in insertion order and
      graphs as dictionaries of adjacencies; GraphFacts: breadth-first search,
      connected components, transitive closure.
    - Module ([cfggen.h], the structures), Table: byte-addressed memory.
    - McfiId ([cfggen.h], identifiers and table words); McfiNumbers: the usable
      numbers are an increasing sequence; McfiFacts: identifiers are equal
      exactly within a component.
    - Cfg ([cfggen.h], merging metadata, class hierarchy, call graph, return
      graph); CfgFacts: the graphs connect what they should.
    - StringPool ([stringpool.h], [string.h], [string.c]): interned names.
    - Vsprintf ([vsprintf.c], [report_error] of [error.c]): formatted printing;
      VsprintfText: what the loops put, without a buffer; VsprintfFacts: they
      put it; VsprintfSpec: formats and their text as the manual of [printf]
      describes them, the decoder, the digits and the padding against it,
      [vsnprintf] inside the buffer, and where its callers go wrong.
    - Runtime: the state.  Threads ([set_tcb] to [wait] of [runtime.c]): the list of control blocks and the escape
      map, [update_thesc], [safe], [wait].
    - GenCfg ([gen_cfg]); CfgTables: what the table holds afterwards; Policy:
      which branches are let through; TableTypes: what any word of the tables
      can be.
    - Check ([X86MCFI.cpp], [mcfi.s]): the check before an indirect branch, and
      the system of one check and one update; CheckFacts.
    - Patch ([patch_at], [patch_entry], [patch_call]); PatchFacts: patching
      keeps the policy.
    - MemCalls ([rock_mmap], [rock_mprotect], [rock_munmap], [rock_mremap],
      [rock_brk]); MemFacts: what they do to the page table.
    - Verifier ([verify], [verify_jitted_code]): the verifier of jitted code.
    - CodeHeap ([create_code_heap], [code_heap_fill], [delete_code],
      [move_code]); CodeHeapFacts.
    - MetaParse ([parse_icfs], [parse_functions], ... of [cfggen.h]);
      MetaFacts, FuncFacts: parsing inverts printing.
    - CodeMeta ([reg_cfg_metadata] and its queries); CodeMetaFacts.
    - Stack ([extract_elf_load_data], [build_stack] of [main.c]); StackFacts.
    - Loader ([load_mcfi_metadata] of [main.c]); LoaderFacts.
    - ElfLoad ([alloc_sandbox], [load_elf], [create_parallel_mapping] and the tables of types of [main.c]); ElfFacts.
    - Start ([runtime_init] of [main.c], [tcb.c], [trampolines.h] of libc): the
      table region, the trampolines, libc, the program; StartFacts.
    - Entry ([runtime_interface.S], [start.s], the stubs of [mcfi.s] and the
      trampolines of libc): the instructions between the sandbox and the C
      functions, for any number of threads at the lock; the C code is the
      interface [CCode].  EntryFacts: who has the lock, whole calls, one
      thread by itself, and a small runtime; EntryTheorems: the runtime as one
      object; EntryExit: what a thread comes back with.
    - Stats ([ibe_count], [collect_stat]): what a build with [COLLECT_STAT]
      reports of the policy.
    - Fork ([rock_fork]): the code of a process as a tree of system calls, loads
      and stores, and the system of the two processes.  ForkKernel: what the
      system calls do, as the laws of the interface [KernelLaws], and a small
      kernel that keeps them; ForkLogic: weakest preconditions under what the
      other process may do, and the two theorems on systems; ForkState,
      ForkRules: blocks of memory, and a rule for each call; ForkFacts: the
      functions; ForkTheorems.

    The components meet in the record of the state and through interfaces:
    the pager is proved against [QsortSpec], which [SmoothsortSpec] discharges;
    the loader and [reg_cfg_metadata] against [MallocSpec] of the string pool;
    the allocator against [Kernel] and [KernelSpec]; [fork] against [Kernel]
    and [KernelLaws]; the check against the tables [gen_cfg] leaves;
    [gen_cfg] calls the graphs, the identifiers, [wait] and [safe]; the memory
    calls, the code heaps and [load_elf] all go through the pager.

    ** What the theorems show

    - Memory map: [VmmapAddWithOverwrite_refines], [VmmapRemove_refines],
      [VmmapChangeProt_refines], [VmmapFindMapSpace_topmost]; unmapping the
      last region dereferences NULL ([VmmapRemove_all_faults]).
    - Sorting: [smoothsort_correct].
    - Allocator: [allocator_refines] and [allocator_session]: a client that
      keeps to its blocks sees a map from blocks to words, for ever;
      [malloc_refuses_when_full]; what happens to one that does not:
      [free_twice_crashes], [overrun_crashes], [malloc_without_heap].
    - Bitmap: [which_area_correct] for ranges below 128 bytes, beyond which
      the code is wrong.
    - Graphs and identifiers: [g_get_lcc_correct], [g_transitive_closure_correct],
      [gen_mcfi_id_correct].
    - Control-flow policy: [build_callgraph_complete] (indirect, virtual and
      pointer-to-method calls, and the class hierarchy),
      [build_retgraph_connects] (returns, through direct and indirect tail
      calls, and the sites they return to), [gen_cfg_policy], [gen_cfg_registers_inactive],
      [patching_keeps_policy], [patch_at_correct]: a branch passes its check
      exactly when its target is active and connected with it, after [gen_cfg]
      and after any sequence of patches.
    - The check: [gen_cfg_typed]: what the tables hold at any address;
      [check_sound], [check_atomic], [check_finishes]: a branch checked while
      the tables change is let through only as the tables of one moment allow,
      and the check ends once they are still.  Targets below the code, where the
      slots of the branches lie, are not covered ([slot_passes]).
    - Statistics: [ibe_count_edges]: the edges counted are the pairs that the
      check lets through, when the words after the last slot hold no
      identifier; [slots_overrun], [collect_stat_divides].
    - Threads: [threads_invariant] over every sequence of thread events,
      [wait_correct].
    - Memory calls: [rock_mmap_correct] (refused, in a code heap, or mapped and
      recorded), [rock_munmap_correct], and two ways
      the checks fail: [rock_brk_forgets_heap], [rock_mmap_fixed_unbounded].
    - Just-in-time compiled code: [verify_jitted_code_sound] and [_total],
      [code_heap_fill_safe] (and [code_heap_fill_overwrites_code] for data of 128
      bytes or more), [create_code_heap_correct], [delete_code_correct],
      [reg_cfg_metadata_confined], [reg_branch_correct].
    - Metadata: [sp_intern_string_correct], [parse_icfs_roundtrip],
      [parse_functions_roundtrip], [online_patching_undone].
    - Loading: [build_stack_correct], [load_elf_maps], [alloc_sandbox_correct],
      [runtime_init_correct].
    - Entry and exit: [runtime_serializable]: the transitions of the other
      components, each one C function, are what a program of many threads does
      to the state; [runtime_comes_to_rest]: the calls under way return or end
      the program ([runtime_calls]: the C functions of Threads and Patch behind
      the entry points); [patch_call_transparent],
      [trampoline_returns]; [start_registers].
    - Fork: [rock_fork_safe], [rock_fork_finishes]; [fork_of_reserved_pages].
    - Printing: [vsnprintf_prints_text], for decimals of at most five digits or
      an exact [do_div] ([do_div_garbage]); [vsnprintf_ends] and
      [print_long_reads_back] for an exact one; [c99_differs], [reports_write_beyond_the_buffer].

    ** Bounds and fuel

    Page numbers stay below [2^40] and arrays to sort below [2^40] elements,
    which no address space of 47 bits exceeds; with these bounds no shift of
    the sort reaches 64.  A breadth-first search has the number of vertices as
    fuel, a loop over code or metadata the number of its bytes, a loop over a
    16-bit counter [2^16 + 1], a loop over a format twice its length and two;
    widths and precisions are at most 30000 in [vsnprintf_prints_text], beyond
    which the 16-bit fields wrap ([width_wraps]).
    [wait] has as many turns as it is given contents of the control blocks.
    The loop of [malloc] has four rounds, of which two are enough; a check ends
    three loads after the tables are still; a thread that waits for the lock has
    no bound; the code of [fork] has no fuel, and
    its bound is part of the theorem.

    ** Not modelled

    The system call stubs ([io/], [mm/] but for the allocator, [syscall.h],
    [quit.c], [arch_prctl.c]), each of which is one system call; the
    dumps of the builds with [VERBOSE] and [PROFILING], and the increments of
    the counters in the other functions of a build with [COLLECT_STAT], which
    are arguments of Stats; the stubs of [dyn_code.c], which do nothing;
    [uthash.h] and [utlist.h], which are third-party code and are modelled by
    what they compute.  The pass that puts the check before each branch is C++
    of LLVM: the instructions it emits are modelled, not the pass.  The rest of the repository is the LLVM, binutils,
    musl, libc++ and libunwind distributions with the toolchain's changes, and
    patches and scripts. *)

From stdpp Require Export base list numbers option sorting.
From stdpp Require Export gmap strings.
From Stdlib Require Export ZArith Lia.

#[export] Set Default Goal Selector "!".
Open Scope Z_scope.

(** ** Outcomes of a run of C code

    [Ok a]: the code returns normally with [a].  [Exit]: the process is
    terminated on purpose, by [quit(-1)] or by a failing [CHECK]/[assert].
    [Fault]: the code does something the C abstract machine gives no
    meaning to (a NULL dereference, an array access out of range).
    [NoFuel]: the fuel given to a loop ran out; every theorem about a loop
    with fuel shows that the stated fuel is enough. *)
Inductive res (A : Type) : Type :=
  | Ok (a : A)
  | Exit
  | Fault
  | NoFuel.
Arguments Ok {_} _.
Arguments Exit {_}.
Arguments Fault {_}.
Arguments NoFuel {_}.

#[export] Instance res_ret : MRet res := fun A a => Ok a.
#[export] Instance res_bind : MBind res := fun A B f m =>
  match m with
  | Ok a => f a
  | Exit => Exit
  | Fault => Fault
  | NoFuel => NoFuel
  end.
#[export] Instance res_fmap : FMap res := fun A B f m =>
  match m with
  | Ok a => Ok (f a)
  | Exit => Exit
  | Fault => Fault
  | NoFuel => NoFuel
  end.

#[export] Instance res_eq_dec `{EqDecision A} : EqDecision (res A).
Proof. solve_decision. Defined.

(** [CHECK(cond)] and [assert(cond)]: terminate the process unless [cond]. *)
Definition CHECK (cond : bool) : res unit := if cond then Ok tt else Exit.

(** Dereferencing a pointer held in a slot: [None] is NULL, and a slot
    outside the array is no slot at all; both are faults. *)
Definition deref {A} (slot : option (option A)) : res A :=
  match slot with
  | Some (Some a) => Ok a
  | _ => Fault
  end.

(** Dereferencing every pointer of a list. *)
Fixpoint derefs {A} (slots : list (option A)) : res (list A) :=
  match slots with
  | [] => Ok []
  | s :: slots' => a ← deref (Some s); l ← derefs slots'; Ok (a :: l)
  end.

(** Reading element [i] of an array of plain values. *)
Definition fetch {A} (arr : list A) (i : nat) : res A :=
  match arr !! i with
  | Some a => Ok a
  | None => Fault
  end.

(** Writing element [i]; a C array does not grow. *)
Definition store {A} (arr : list A) (i : nat) (a : A) : res (list A) :=
  if (i <? length arr)%nat then Ok (<[i := a]> arr) else Fault.

(** Left fold of an effectful step over a list, the shape of the
    [DL_FOREACH] and [HASH_ITER] loops. *)
Fixpoint foldM {A S} (step : S -> A -> res S) (l : list A) (s : S) : res S :=
  match l with
  | [] => Ok s
  | a :: l' => s' ← step s a; foldM step l' s'
  end.

(** ** Machine integers

    A [w]-bit integer is a [Z]; unsigned arithmetic wraps modulo [2^w],
    and a signed view reads the top bit as the sign. *)
Definition wrap (w : Z) (x : Z) : Z := x mod 2 ^ w.
Definition swrap (w : Z) (x : Z) : Z := (x + 2 ^ (w - 1)) mod 2 ^ w - 2 ^ (w - 1).
Definition u64 (x : Z) : Z := wrap 64 x.
Definition u32 (x : Z) : Z := wrap 32 x.
Definition u16 (x : Z) : Z := wrap 16 x.
Definition u8 (x : Z) : Z := wrap 8 x.
Definition s64 (x : Z) : Z := swrap 64 x.
Definition s32 (x : Z) : Z := swrap 32 x.
Definition s16 (x : Z) : Z := swrap 16 x.
Definition s8 (x : Z) : Z := swrap 8 x.

(** [SixtyFourKB], [FourGB] and [PAGE_SIZE] of [def.h], [PAGESHIFT] of [pager.h]. *)
Definition PAGE_SIZE : Z := 4096.
Definition PAGESHIFT : Z := 12.
Definition SixtyFourKB : Z := Z.shiftl 1 16.
Definition FourGB : Z := Z.shiftl 1 32.
Definition CurPage (x : Z) : Z := u64 (Z.shiftl (Z.shiftr (u64 x) PAGESHIFT) PAGESHIFT).
Definition RoundToPage (x : Z) : Z := u64 (u64 (x + PAGE_SIZE - 1) / PAGE_SIZE * PAGE_SIZE).

(** ** Bytes and words in memory

    A memory region is the list of its bytes; words are little-endian. *)
Definition load8 (mem : list Z) (a : Z) : res Z :=
  if 0 <=? a then fetch mem (Z.to_nat a) else Fault.
Definition store8 (mem : list Z) (a v : Z) : res (list Z) :=
  if 0 <=? a then store mem (Z.to_nat a) (u8 v) else Fault.

(** [n] bytes from address [a], least significant first. *)
Fixpoint load_le (n : nat) (mem : list Z) (a : Z) : res Z :=
  match n with
  | O => Ok 0
  | S n' => b ← load8 mem a; w ← load_le n' mem (a + 1); Ok (b + 256 * w)
  end.
Fixpoint store_le (n : nat) (mem : list Z) (a v : Z) : res (list Z) :=
  match n with
  | O => Ok mem
  | S n' => mem ← store8 mem a v; store_le n' mem (a + 1) (v / 256)
  end.
Definition load64 (mem : list Z) (a : Z) : res Z := load_le 8 mem a.
Definition store64 (mem : list Z) (a v : Z) : res (list Z) := store_le 8 mem a v.
Definition load32 (mem : list Z) (a : Z) : res Z := load_le 4 mem a.
Definition store32 (mem : list Z) (a v : Z) : res (list Z) := store_le 4 mem a v.

(** ** Lemmas on outcomes *)
Lemma bind_Ok_inv {A B} (m : res A) (f : A -> res B) b :
  m ≫= f = Ok b -> exists a, m = Ok a /\ f a = Ok b.
Proof. destruct m; cbn; try discriminate. eauto. Qed.

Lemma bind_Ok {A B} (a : A) (f : A -> res B) : Ok a ≫= f = f a.
Proof. done. Qed.

Lemma bind_assoc {A B C} (m : res A) (f : A -> res B) (g : B -> res C) :
  (m ≫= f) ≫= g = m ≫= (fun a => f a ≫= g).
Proof. by destruct m. Qed.

Lemma CHECK_Ok (b : bool) u : CHECK b = Ok u <-> b = true.
Proof. destruct u, b; cbn; split; congruence. Qed.

Lemma deref_Ok {A} (slot : option (option A)) a : deref slot = Ok a <-> slot = Some (Some a).
Proof. destruct slot as [[?|]|]; cbn; split; congruence. Qed.

Lemma derefs_Some {A} (l : list A) : derefs (Some <$> l) = Ok l.
Proof. induction l as [|a l IH]; [done|]. rewrite fmap_cons. cbn. by rewrite IH. Qed.

Lemma fetch_Ok {A} (arr : list A) i a : fetch arr i = Ok a <-> arr !! i = Some a.
Proof. unfold fetch. destruct (arr !! i); split; congruence. Qed.

Lemma store_Ok {A} (arr arr' : list A) i a :
  store arr i a = Ok arr' <-> (i < length arr)%nat /\ arr' = <[i := a]> arr.
Proof.
  unfold store. destruct (Nat.ltb_spec i (length arr)); split; intros H1; try discriminate.
  - by injection H1 as <-.
  - destruct H1 as [_ ->]. done.
  - lia.
Qed.

Lemma foldM_cons {A S} (step : S -> A -> res S) a l s :
  foldM step (a :: l) s = step s a ≫= foldM step l.
Proof. done. Qed.

Lemma foldM_app {A S} (step : S -> A -> res S) l1 l2 s :
  foldM step (l1 ++ l2) s = foldM step l1 s ≫= foldM step l2.
Proof.
  revert s. induction l1 as [|a l1 IH]; intros s; cbn; [done|].
  destruct (step s a); cbn; auto.
Qed.

(** An invariant of the step is an invariant of the loop. *)
Lemma foldM_invariant {A S} (P : S -> Prop) (step : S -> A -> res S) l s s' :
  (forall s1 a s2, a ∈ l -> P s1 -> step s1 a = Ok s2 -> P s2) ->
  P s -> foldM step l s = Ok s' -> P s'.
Proof.
  revert s. induction l as [|a l IH]; intros s Hstep Hs; cbn; [congruence|].
  intros H. apply bind_Ok_inv in H as (s1 & H1 & H2).
  apply (IH s1); [|by eapply Hstep; [left|..]|done].
  intros s2 b s3 Hb. apply Hstep. by right.
Qed.

(** A run that neither faults nor runs out of fuel, and what holds of its
    result when it returns. *)
Definition answers {A} (m : res A) (P : A -> Prop) : Prop :=
  match m with
  | Ok a => P a
  | Exit => True
  | Fault | NoFuel => False
  end.

Lemma answers_bind {A B} (m : res A) (f : A -> res B) P Q :
  answers m P -> (forall a, P a -> answers (f a) Q) -> answers (m ≫= f) Q.
Proof. destruct m; cbn; auto. Qed.

Lemma answers_cases {A} (m : res A) P : answers m P -> (exists a, m = Ok a) \/ m = Exit.
Proof. destruct m; cbn; eauto; done. Qed.

(** ** Lemmas on machine integers *)
Lemma wrap_small w x : 0 <= x < 2 ^ w -> wrap w x = x.
Proof. apply Z.mod_small. Qed.

Lemma wrap_range w x : 0 <= w -> 0 <= wrap w x < 2 ^ w.
Proof. intros. apply Z.mod_pos_bound. lia. Qed.

Lemma u64_small x : 0 <= x < 2 ^ 64 -> u64 x = x.
Proof. apply wrap_small. Qed.
Lemma u32_small x : 0 <= x < 2 ^ 32 -> u32 x = x.
Proof. apply wrap_small. Qed.
Lemma u8_small x : 0 <= x < 2 ^ 8 -> u8 x = x.
Proof. apply wrap_small. Qed.
Lemma u64_range x : 0 <= u64 x < 2 ^ 64.
Proof. apply wrap_range. lia. Qed.
Lemma u32_range x : 0 <= u32 x < 2 ^ 32.
Proof. apply wrap_range. lia. Qed.
Lemma u8_range x : 0 <= u8 x < 2 ^ 8.
Proof. apply wrap_range. lia. Qed.

Lemma swrap_small w x : 0 < w -> - 2 ^ (w - 1) <= x < 2 ^ (w - 1) -> swrap w x = x.
Proof.
  intros Hw Hx. unfold swrap. rewrite Z.mod_small; [lia|].
  replace (2 ^ w) with (2 * 2 ^ (w - 1)); [lia|].
  rewrite <- (Z.pow_succ_r 2 (w - 1)) by lia. f_equal. lia.
Qed.

(** A disjunction of disjoint bit ranges is a sum. *)
Lemma land_shiftl_low a b k : 0 <= k -> 0 <= b < 2 ^ k -> Z.land (Z.shiftl a k) b = 0.
Proof.
  intros Hk Hb. apply Z.bits_inj'. intros i Hi. rewrite Z.land_spec, Z.shiftl_spec, Z.bits_0 by done.
  destruct (Z.ltb_spec i k); [by rewrite (Z.testbit_neg_r a) by lia|].
  rewrite <- (Z.mod_small b (2 ^ k)) by done. rewrite Z.mod_pow2_bits_high by lia. apply andb_false_r.
Qed.

Lemma lor_shiftl_add a b k : 0 <= k -> 0 <= b < 2 ^ k -> Z.lor (Z.shiftl a k) b = a * 2 ^ k + b.
Proof.
  intros Hk Hb. pose proof (land_shiftl_low a b k Hk Hb) as H.
  rewrite <- Z.lxor_lor, <- Z.add_nocarry_lxor by done. by rewrite Z.shiftl_mul_pow2.
Qed.

(** The bits of a word built from its low byte and the rest. *)
Lemma byte_word_bit b w i : 0 <= b < 256 -> 0 <= i ->
  Z.testbit (b + 256 * w) i = if i <? 8 then Z.testbit b i else Z.testbit w (i - 8).
Proof.
  intros Hb Hi. destruct (Z.ltb_spec i 8).
  - rewrite <- (Z.mod_pow2_bits_low (b + 256 * w) 8) by lia. f_equal.
    change (2 ^ 8) with 256. rewrite (Z.mul_comm 256), Z_mod_plus_full. by apply Z.mod_small.
  - replace i with ((i - 8) + 8) at 1 by lia. rewrite <- Z.div_pow2_bits by lia. f_equal.
    change (2 ^ 8) with 256. rewrite (Z.mul_comm 256), Z.div_add, Z.div_small by lia. lia.
Qed.

(** ** Automation

    [mcfi] collects the lemmas that rewrite the C-level arithmetic to plain
    integer arithmetic once ranges are known; [res_inv] decomposes a
    successful run. *)
Create HintDb mcfi.
Create Rewrite HintDb mcfi_arith.
#[export] Hint Resolve u64_range u32_range u8_range : mcfi.
#[export] Hint Rewrite u64_small u32_small u8_small using lia : mcfi_arith.

Ltac res_inv1 :=
  match goal with
  | H : Ok _ = Ok _ |- _ => injection H as H
  | H : Exit = Ok _ |- _ => discriminate H
  | H : Fault = Ok _ |- _ => discriminate H
  | H : NoFuel = Ok _ |- _ => discriminate H
  | H : mret _ = Ok _ |- _ => injection H as H
  | H : _ ≫= _ = Ok _ |- _ =>
      let a := fresh "r" in let H1 := fresh "Hr" in
      apply bind_Ok_inv in H as (a & H1 & H)
  | H : CHECK _ = Ok _ |- _ => apply CHECK_Ok in H
  | H : deref _ = Ok _ |- _ => apply deref_Ok in H
  | H : fetch _ _ = Ok _ |- _ => apply fetch_Ok in H
  | H : store _ _ _ = Ok _ |- _ => apply store_Ok in H as [? H]
  end.
Ltac res_inv := repeat (res_inv1; subst; cbn beta iota in * ).

(** Destruct the condition of the innermost [if] in the goal or a hypothesis. *)
Ltac case_if :=
  match goal with
  | |- context [if ?b then _ else _] =>
      match type of b with bool => destruct b eqn:? end
  | H : context [if ?b then _ else _] |- _ =>
      match type of b with bool => destruct b eqn:? end
  end.

(** Boolean comparisons to propositions. *)
Ltac bool_lia :=
  rewrite ?andb_true_iff, ?andb_false_iff, ?orb_true_iff, ?orb_false_iff,
    ?negb_true_iff, ?negb_false_iff, ?Z.eqb_eq, ?Z.eqb_neq, ?Z.ltb_lt, ?Z.ltb_ge,
    ?Z.leb_le, ?Z.leb_gt, ?Nat.ltb_lt, ?Nat.ltb_ge, ?Nat.leb_le, ?Nat.leb_gt,
    ?Nat.eqb_eq, ?Nat.eqb_neq in *; try lia.

(** Linear arithmetic with division and remainder by constants. *)
Ltac div_lia := Z.div_mod_to_equations; lia.
