(* ===== verification/Utils.v ===== *)
(** * Searching and the sorting interface ([runtime/src/utils.c])

    [bsearch] is translated in full and proved correct for every comparison
    whose sign is monotone along the array.  [Qsort] is the interface the
    other components use: what [qsort] promises its callers. *)

From S2P Require Import Prelude.

(** ** bsearch

    [base] and [nel] are the index of the first element and the number of
    elements of the range still searched.  [cmp i] is the result of
    comparing the key with element [i]; it can fault, since the elements
    are pointers that it dereferences. *)
Fixpoint bsearch_loop {A} (fuel : nat) (cmp : A -> res Z) (arr : list A)
    (base nel : nat) : res (option nat) :=
  match fuel with
  | O => NoFuel
  | S fuel' =>
    if (0 <? nel)%nat then
      let try := (base + Nat.div nel 2)%nat in
      e ← fetch arr try;
      sign ← cmp e;
      if sign =? 0 then Ok (Some try)
      else if (nel =? 1)%nat then Ok None
      else if sign <? 0 then bsearch_loop fuel' cmp arr base (Nat.div nel 2)
      else bsearch_loop fuel' cmp arr try (nel - Nat.div nel 2)
    else Ok None
  end.

Definition bsearch {A} (cmp : A -> res Z) (arr : list A) (nel : nat) : res (option nat) :=
  bsearch_loop (S nel) cmp arr 0 nel.

(** ** The sorting interface

    A comparison is an [int]-valued function; [cmp_le] is the order it
    decides. *)
Definition cmp_le {A} (cmp : A -> A -> Z) (a b : A) : Prop := cmp a b <= 0.

#[export] Instance cmp_le_dec {A} (cmp : A -> A -> Z) : RelDecision (cmp_le cmp) :=
  fun a b => Z.le_dec (cmp a b) 0.

Class TotalCmp {A} (cmp : A -> A -> Z) : Prop := {
  cmp_refl : forall a, cmp a a = 0;
  cmp_total : forall a b, cmp_le cmp a b \/ cmp_le cmp b a;
  cmp_trans : forall a b c, cmp_le cmp a b -> cmp_le cmp b c -> cmp_le cmp a c;
  cmp_opp : forall a b, cmp a b < 0 <-> 0 < cmp b a;
}.

(** What [qsort] promises: on a total comparison and an array of at most
    [2^40] elements it returns normally, with a permutation of its input in
    ascending order. *)
Class Qsort : Type := qsort : forall {A}, (A -> A -> Z) -> list A -> res (list A).
Class QsortSpec (Q : Qsort) : Prop :=
  qsort_spec : forall A (cmp : A -> A -> Z) `{!TotalCmp cmp} (l : list A),
    Z.of_nat (length l) <= 2 ^ 40 ->
    exists l', qsort cmp l = Ok l' /\ l' ≡ₚ l /\ StronglySorted (cmp_le cmp) l'.

(** ** Correctness of bsearch *)

(** The sign of the comparison never increases along the array, as it does
    when the array is sorted by what [cmp] looks at. *)
Definition sign_monotone {A} (cmp : A -> res Z) (arr : list A) (n : nat) : Prop :=
  exists c : nat -> Z,
    (forall i, (i < n)%nat -> exists e, arr !! i = Some e /\ cmp e = Ok (c i)) /\
    (forall i j, (i < j < n)%nat -> (c i = 0 -> c j <= 0) /\ (c i < 0 -> c j < 0)).

Section bsearch.
Context {A : Type} (cmp : A -> res Z) (arr : list A) (n : nat) (c : nat -> Z).
Hypothesis Hcmp : forall i, (i < n)%nat -> exists e, arr !! i = Some e /\ cmp e = Ok (c i).
Hypothesis Hmono : forall i j, (i < j < n)%nat -> (c i = 0 -> c j <= 0) /\ (c i < 0 -> c j < 0).

(** The loop keeps every match inside the searched range. *)
Lemma bsearch_loop_correct fuel base nel :
  (nel < fuel)%nat -> (base + nel <= n)%nat ->
  (forall i, (i < n)%nat -> c i = 0 -> (base <= i < base + nel)%nat) ->
  exists r, bsearch_loop fuel cmp arr base nel = Ok r /\
    match r with
    | Some i => (i < n)%nat /\ c i = 0
    | None => forall i, (i < n)%nat -> c i <> 0
    end.
Proof using Hcmp Hmono.
  revert base nel. induction fuel as [|fuel IH]; intros base nel Hf Hn Hin; [lia|].
  cbn [bsearch_loop]. destruct (Nat.ltb_spec 0 nel) as [Hpos|Hpos].
  2: { exists None. split; [done|]. intros i Hi H0. specialize (Hin i Hi H0). lia. }
  assert (Hd : (nel / 2 < nel)%nat) by (apply Nat.div_lt; lia).
  destruct (Hcmp (base + nel / 2)%nat ltac:(lia)) as (e & He & Hce).
  unfold fetch. rewrite He. cbn [mbind res_bind]. rewrite Hce. cbn [mbind res_bind].
  destruct (Z.eqb_spec (c (base + nel / 2)%nat) 0) as [E|E].
  { eexists (Some _). split; [done|]. split; [lia|done]. }
  destruct (Nat.eqb_spec nel 1) as [->|Hn1].
  { exists None. split; [done|]. intros i Hi H0. cbn in E. specialize (Hin i Hi H0).
    replace i with (base + 0)%nat in H0 by lia. done. }
  destruct (Z.ltb_spec (c (base + nel / 2)%nat) 0) as [L|L].
  - apply IH; [lia..|]. intros i Hi H0. specialize (Hin i Hi H0). split; [lia|].
    destruct (decide (i < base + nel / 2)%nat) as [?|Hge]; [done|].
    destruct (decide (i = base + nel / 2)%nat) as [->|?]; [done|].
    destruct (Hmono (base + nel / 2)%nat i) as [_ Hm]; [lia|]. specialize (Hm L). lia.
  - assert (Hd1 : (1 <= nel / 2)%nat) by (apply Nat.div_le_lower_bound; lia).
    apply IH; [lia..|]. intros i Hi H0. specialize (Hin i Hi H0). split; [|lia].
    destruct (decide (base + nel / 2 <= i)%nat) as [?|Hlt]; [done|].
    destruct (Hmono i (base + nel / 2)%nat) as [Hm _]; [lia|]. specialize (Hm H0). lia.
Qed.
End bsearch.

Lemma bsearch_correct {A} (cmp : A -> res Z) (arr : list A) (n : nat) :
  sign_monotone cmp arr n ->
  exists r, bsearch cmp arr n = Ok r /\
    match r with
    | Some i => (i < n)%nat /\ exists e, arr !! i = Some e /\ cmp e = Ok 0
    | None => forall i e, (i < n)%nat -> arr !! i = Some e -> cmp e <> Ok 0
    end.
Proof.
  intros (c & Hcmp & Hmono). unfold bsearch.
  destruct (bsearch_loop_correct cmp arr n c Hcmp Hmono (S n) 0 n) as (r & Hr & Hspec);
    [lia|lia|intros; lia|].
  exists r. split; [done|]. destruct r as [i|].
  - destruct Hspec as [Hi H0]. split; [done|].
    destruct (Hcmp i Hi) as (e & He & Hc). exists e. rewrite Hc, H0. done.
  - intros i e Hi He H. destruct (Hcmp i Hi) as (e' & He' & Hc). apply (Hspec i Hi).
    congruence.
Qed.
