(* ===== verification/Smoothsort.v ===== *)
(** * Sorting ([qsort] of [runtime/src/utils.c])

    The smoothsort of [utils.c].  The array is the list of its elements and
    a pointer into it is the index of an element: every pointer and every
    length of the code is a multiple of [width], and the model counts in that
    unit.  The 128 bits that say which trees exist stay two 64-bit words, with
    the shifts the code composes them of; a shift by 64 or more, an
    uninitialised entry of [lp], an element outside the array and a place
    outside [ar] are faults, as is [bsf] on 0, whose result is undefined. *)

From S2P Require Import Prelude Utils.

(** Element [i] of an array, the index being a C integer. *)
Definition get {A} (arr : list A) (i : Z) : res A :=
  if 0 <=? i then fetch arr (Z.to_nat i) else Fault.
Definition set {A} (arr : list A) (i : Z) (a : A) : res (list A) :=
  if 0 <=? i then store arr (Z.to_nat i) a else Fault.

(** ** The two words of bits *)

(** [a_ctz_l] of [atomic.h]: the instruction [bsf]. *)
Fixpoint ctz_pos (x : positive) : Z :=
  match x with
  | xO x' => 1 + ctz_pos x'
  | _ => 0
  end.
Definition a_ctz_l (x : Z) : res Z :=
  match x with
  | Zpos x' => Ok (ctz_pos x')
  | _ => Fault
  end.

Definition pntz (p : Z * Z) : res Z :=
  r ← a_ctz_l (u64 (p.1 - 1));
  if negb (r =? 0) then Ok r
  else
    c ← a_ctz_l p.2;
    if negb (64 + c =? 64) then Ok (64 + c) else Ok 0.

(** Shifts of a 64-bit word: the count must be below 64. *)
Definition shl64 (x n : Z) : res Z :=
  if (0 <=? n) && (n <? 64) then Ok (u64 (Z.shiftl x n)) else Fault.
Definition shr64 (x n : Z) : res Z :=
  if (0 <=? n) && (n <? 64) then Ok (Z.shiftr x n) else Fault.

Definition shl (p : Z * Z) (n : Z) : res (Z * Z) :=
  let '(p, n) := if 64 <=? u64 n then ((0, p.1), n - 64) else (p, n) in
  hi ← shl64 p.2 n;
  carry ← shr64 p.1 (64 - n);
  lo ← shl64 p.1 n;
  Ok (lo, Z.lor hi carry).

Definition shr (p : Z * Z) (n : Z) : res (Z * Z) :=
  let '(p, n) := if 64 <=? u64 n then ((p.2, 0), n - 64) else (p, n) in
  lo ← shr64 p.1 n;
  carry ← shl64 p.2 (64 - n);
  hi ← shr64 p.2 n;
  Ok (Z.lor lo carry, hi).

(** ** Rotating elements along a path *)

(** The places of [ar]: [14 * sizeof(size_t) + 1]. *)
Definition AR_SIZE : nat := 113.

(** [ar[i++] = x]. *)
Definition push (ar : list Z) (x : Z) : res (list Z) :=
  if (length ar <? AR_SIZE)%nat then Ok (ar ++ [x]) else Fault.

(** The copies of [cycle]: each place takes the element of the next one, the
    last place takes [tmp]. *)
Fixpoint cycle_loop {A} (arr : list A) (ar : list Z) (tmp : A) : res (list A) :=
  match ar with
  | [] => Ok arr
  | [q] => set arr q tmp
  | q :: (q' :: _) as ar' =>
    a ← get arr q';
    arr ← set arr q a;
    cycle_loop arr ar' tmp
  end.

Definition cycle {A} (arr : list A) (ar : list Z) : res (list A) :=
  if (length ar <? 2)%nat then Ok arr
  else if (length ar <? AR_SIZE)%nat then
    q ← fetch ar 0;
    tmp ← get arr q;
    cycle_loop arr ar tmp
  else Fault.

(** ** The heaps *)
Section heaps.
Context {A : Type} (cmp : A -> A -> Z) (lp : list Z).

Definition compare (arr : list A) (i j : Z) : res Z :=
  a ← get arr i;
  b ← get arr j;
  Ok (cmp a b).

(** The path of [sift], [head0] being [ar[0]]. *)
Fixpoint sift_loop (fuel : nat) (arr : list A) (head0 : Z) (ar : list Z) (head pshift : Z)
    : res (list Z) :=
  match fuel with
  | O => NoFuel
  | S fuel' =>
    if 1 <? pshift then
      let rt := head - 1 in
      l ← get lp (pshift - 2);
      let lf := head - 1 - l in
      c ← compare arr head0 lf;
      stop ← (if 0 <=? c then c ← compare arr head0 rt; Ok (0 <=? c) else Ok false);
      if stop : bool then Ok ar
      else
        c ← compare arr lf rt;
        if 0 <=? c then
          ar ← push ar lf;
          sift_loop fuel' arr head0 ar lf (pshift - 1)
        else
          ar ← push ar rt;
          sift_loop fuel' arr head0 ar rt (pshift - 2)
    else Ok ar
  end.

Definition sift (arr : list A) (head pshift : Z) : res (list A) :=
  ar ← sift_loop (S (Z.to_nat pshift)) arr head [head] head pshift;
  cycle arr ar.

(** The path of [trinkle]: the places passed, where it ends, and whether the
    tree there is still trusted.  [p] loses a bit at each turn. *)
Fixpoint trinkle_loop (fuel : nat) (arr : list A) (head0 : Z) (ar : list Z) (head : Z)
    (p : Z * Z) (pshift : Z) (trusty : bool) : res (list Z * Z * Z * bool) :=
  match fuel with
  | O => NoFuel
  | S fuel' =>
    if negb (p.1 =? 1) || negb (p.2 =? 0) then
      l ← get lp pshift;
      let stepson := head - l in
      c ← compare arr stepson head0;
      if c <=? 0 then Ok (ar, head, pshift, trusty)
      else
        stop ←
          (if negb trusty && (1 <? pshift) then
             let rt := head - 1 in
             l ← get lp (pshift - 2);
             let lf := head - 1 - l in
             c ← compare arr rt stepson;
             if 0 <=? c then Ok true
             else c ← compare arr lf stepson; Ok (0 <=? c)
           else Ok false);
        if stop : bool then Ok (ar, head, pshift, trusty)
        else
          ar ← push ar stepson;
          trail ← pntz p;
          p ← shr p trail;
          trinkle_loop fuel' arr head0 ar stepson p (pshift + trail) false
    else Ok (ar, head, pshift, trusty)
  end.

Definition trinkle (arr : list A) (head : Z) (pp : Z * Z) (pshift : Z) (trusty : bool)
    : res (list A) :=
  '(ar, head, pshift, trusty) ← trinkle_loop 129 arr head [head] head pp pshift trusty;
  if trusty : bool then Ok arr
  else
    arr ← cycle arr ar;
    sift arr head pshift.

(** ** The two passes *)

(** The first pass: [head] moves up to the last element. *)
Fixpoint build_loop (fuel : nat) (arr : list A) (p : Z * Z) (pshift head high : Z)
    : res (list A * (Z * Z) * Z) :=
  match fuel with
  | O => NoFuel
  | S fuel' =>
    if head <? high then
      '(arr, p, pshift) ←
        (if Z.land p.1 3 =? 3 then
           arr ← sift arr head pshift;
           p ← shr p 2;
           Ok (arr, p, pshift + 2)
         else
           l ← get lp (pshift - 1);
           arr ← (if high - head <=? l then trinkle arr head p pshift false
                  else sift arr head pshift);
           if pshift =? 1 then p ← shl p 1; Ok (arr, p, 0)
           else p ← shl p (pshift - 1); Ok (arr, p, 1));
      build_loop fuel' arr (Z.lor p.1 1, p.2) pshift (head + 1) high
    else Ok (arr, p, pshift)
  end.

(** The second pass: the last element is in its place, its tree falls apart. *)
Fixpoint drain_loop (fuel : nat) (arr : list A) (p : Z * Z) (pshift head : Z)
    : res (list A) :=
  match fuel with
  | O => NoFuel
  | S fuel' =>
    if negb (pshift =? 1) || negb (p.1 =? 1) || negb (p.2 =? 0) then
      '(arr, p, pshift) ←
        (if pshift <=? 1 then
           trail ← pntz p;
           p ← shr p trail;
           Ok (arr, p, pshift + trail)
         else
           p ← shl p 2;
           let pshift := pshift - 2 in
           p ← shr (Z.lxor p.1 7, p.2) 1;
           l ← get lp pshift;
           arr ← trinkle arr (head - l - 1) p (pshift + 1) true;
           p ← shl p 1;
           let p := (Z.lor p.1 1, p.2) in
           arr ← trinkle arr (head - 1) p pshift true;
           Ok (arr, p, pshift));
      drain_loop fuel' arr p pshift (head - 1)
    else Ok arr
  end.
End heaps.

(** ** The whole sort *)

(** The Leonardo numbers up to the first that is not below [size]. *)
Fixpoint leonardo_loop (fuel : nat) (lp : list Z) (size : Z) : res (list Z) :=
  match fuel with
  | O => NoFuel
  | S fuel' =>
    let i := Z.of_nat (length lp) in
    a ← get lp (i - 2);
    b ← get lp (i - 1);
    if i <? 96 then
      let v := a + b + 1 in
      if v <? size then leonardo_loop fuel' (lp ++ [v]) size else Ok (lp ++ [v])
    else Fault
  end.

Definition smoothsort {A} (cmp : A -> A -> Z) (arr : list A) : res (list A) :=
  let size := Z.of_nat (length arr) in
  if size =? 0 then Ok arr
  else
    let high := size - 1 in
    lp ← leonardo_loop 96 [1; 1] size;
    '(arr, p, pshift) ← build_loop cmp lp (S (length arr)) arr (1, 0) 1 0 high;
    arr ← trinkle cmp lp arr high p pshift false;
    drain_loop cmp lp (S (length arr)) arr p pshift high.

#[export] Instance utils_qsort : Qsort := fun A cmp l => smoothsort cmp l.
