(* ===== verification/SmoothsortFacts.v ===== *)
(** * Correctness of the sort

    The array is seen as a row of Leonardo trees: a tree of order [k] has
    [leo k] elements, its root last, a tree of order [k-2] just before the
    root and one of order [k-1] before that.  The words [p] and [pshift]
    encode the orders of the row, smallest (rightmost) first.  [sift] makes
    the rightmost tree a heap, [trinkle] in addition puts the roots in order;
    the first pass ends with a row of heaps whose roots ascend, the second
    takes the last root off at each turn. *)

From S2P Require Import Prelude Utils Smoothsort.

(** ** Leonardo numbers *)
Fixpoint leo (k : nat) : Z :=
  match k with
  | O => 1
  | S k' => match k' with O => 1 | S j => leo k' + leo j + 1 end
  end.

Lemma leo_SS k : leo (S (S k)) = leo (S k) + leo k + 1.
Proof. done. Qed.

Lemma leo_pos k : 1 <= leo k /\ 1 <= leo (S k).
Proof.
  induction k as [|k [IH1 IH2]]; [cbn; lia|]. split; [done|]. rewrite leo_SS. lia.
Qed.

Lemma leo_ge1 k : 1 <= leo k.
Proof. apply leo_pos. Qed.

Lemma leo_S k : leo k <= leo (S k).
Proof. destruct k as [|k]; [cbn; lia|]. rewrite leo_SS. pose proof (leo_ge1 k). lia. Qed.

Lemma leo_mono j k : (j <= k)%nat -> leo j <= leo k.
Proof. induction 1 as [|k _ IH]; [lia|]. pose proof (leo_S k). lia. Qed.

(** The pair of a number and its successor, to evaluate [leo] with. *)
Fixpoint leo2 (k : nat) : Z * Z :=
  match k with
  | O => (1, 1)
  | S k' => let '(a, b) := leo2 k' in (b, b + a + 1)
  end.

Lemma leo2_eq k : leo2 k = (leo k, leo (S k)).
Proof. induction k as [|k IH]; [done|]. cbn [leo2]. by rewrite IH, leo_SS. Qed.

(** The arrays considered: fewer than [2^40] elements. *)
Lemma leo_59 j : j = 59%nat -> 2 ^ 40 < leo j.
Proof.
  intros Hj. replace (leo j) with (leo2 j).1 by (by rewrite leo2_eq). rewrite Hj. by vm_compute.
Qed.

Lemma leo_bound k : leo k <= 2 ^ 40 -> (k <= 58)%nat.
Proof.
  intros H. destruct (decide (k <= 58)%nat) as [|Hk]; [done|exfalso].
  pose proof (leo_59 _ eq_refl). pose proof (leo_mono 59 k ltac:(lia)). lia.
Qed.

(** ** The orders as bits *)
Fixpoint enc (s : nat) (ks : list nat) : Z :=
  match ks with
  | [] => 0
  | k :: ks' => 2 ^ Z.of_nat (k - s) * (1 + 2 * enc (S k) ks')
  end.

Fixpoint incr (s : nat) (ks : list nat) : Prop :=
  match ks with
  | [] => True
  | k :: ks' => (s <= k <= 61)%nat /\ incr (S k) ks'
  end.

Lemma incr_weaken s s' ks : (s' <= s)%nat -> incr s ks -> incr s' ks.
Proof. destruct ks; cbn; [done|]. intros ? [? ?]. split; [lia|done]. Qed.

Lemma enc_hd k ks : enc k (k :: ks) = 1 + 2 * enc (S k) ks.
Proof. cbn [enc]. rewrite Nat.sub_diag. change (2 ^ Z.of_nat 0) with 1. lia. Qed.

Lemma enc_down s s' ks : (s' <= s)%nat -> incr s ks ->
  enc s' ks = 2 ^ Z.of_nat (s - s') * enc s ks.
Proof.
  destruct ks as [|k ks]; [intros; cbn; lia|]. intros Hs [Hk _]. cbn [enc].
  replace (k - s')%nat with ((s - s') + (k - s))%nat by lia.
  rewrite Nat2Z.inj_add, Z.pow_add_r by lia. lia.
Qed.

Lemma enc_down1 s ks : incr (S s) ks -> enc s ks = 2 * enc (S s) ks.
Proof.
  intros H. rewrite (enc_down (S s) s) by (done || lia).
  replace (S s - s)%nat with 1%nat by lia. done.
Qed.

Lemma enc_range s ks : incr s ks -> (s <= 62)%nat -> 0 <= enc s ks < 2 ^ Z.of_nat (62 - s).
Proof.
  revert s. induction ks as [|k ks IH]; intros s; [cbn; lia|].
  intros [Hk Hi] Hs. cbn [enc]. specialize (IH _ Hi ltac:(lia)).
  replace (62 - s)%nat with ((k - s) + (1 + (62 - S k)))%nat by lia.
  rewrite !Nat2Z.inj_add, !Z.pow_add_r by lia.
  change (2 ^ Z.of_nat 1) with 2. nia.
Qed.

Lemma enc_pos s k ks : incr s (k :: ks) -> 0 < enc s (k :: ks).
Proof.
  intros [Hk Hi]. cbn [enc]. pose proof (enc_range _ _ Hi ltac:(lia)).
  assert (0 < 2 ^ Z.of_nat (k - s)) by lia. nia.
Qed.

Lemma enc_small s ks : incr s ks -> (s <= 62)%nat -> 0 <= enc s ks < 2 ^ 62.
Proof.
  intros H Hs. pose proof (enc_range _ _ H Hs).
  assert (2 ^ Z.of_nat (62 - s) <= 2 ^ 62) by (apply Z.pow_le_mono_r; lia). lia.
Qed.

(** ** The words *)
Lemma ctz_pos_spec (n : nat) (m x : Z) (p : positive) :
  0 <= m -> Z.pos p = 2 ^ Z.of_nat n * (1 + 2 * m) -> ctz_pos p = Z.of_nat n.
Proof.
  intros Hm. revert p. induction n as [|n IH]; intros p Hp.
  - destruct p; cbn [ctz_pos]; try done. exfalso. cbn [Z.of_nat Z.pow] in Hp.
    rewrite Pos2Z.inj_xO in Hp. lia.
  - rewrite Nat2Z.inj_succ, Z.pow_succ_r in Hp by lia.
    destruct p as [p|p|]; cbn [ctz_pos].
    + rewrite Pos2Z.inj_xI in Hp. lia.
    + rewrite Pos2Z.inj_xO in Hp. rewrite (IH p) by lia. lia.
    + lia.
Qed.

Lemma shl_0 x n : 0 < n < 64 -> 0 <= x -> x * 2 ^ n < 2 ^ 64 -> shl (x, 0) n = Ok (x * 2 ^ n, 0).
Proof.
  intros Hn Hx Hb. unfold shl, shl64, shr64. rewrite (u64_small n) by lia.
  rewrite (proj2 (Z.leb_gt 64 n)) by lia. cbn [fst snd].
  rewrite !(proj2 (Z.leb_le 0 _)), !(proj2 (Z.ltb_lt _ 64)) by lia. cbn [andb mbind res_bind].
  rewrite Z.shiftl_0_l, Z.shiftl_mul_pow2, Z.shiftr_div_pow2 by lia.
  rewrite Z.div_small; [rewrite u64_small by nia; done|].
  split; [done|]. apply (Z.mul_lt_mono_pos_r (2 ^ n)); [lia|].
  rewrite <- Z.pow_add_r by lia. replace (64 - n + n) with 64 by lia. lia.
Qed.

Lemma shr_0 x n : 0 < n < 64 -> 0 <= x -> shr (x, 0) n = Ok (x / 2 ^ n, 0).
Proof.
  intros Hn Hx. unfold shr, shl64, shr64. rewrite (u64_small n) by lia.
  rewrite (proj2 (Z.leb_gt 64 n)) by lia. cbn [fst snd].
  rewrite !(proj2 (Z.leb_le 0 _)), !(proj2 (Z.ltb_lt _ 64)) by lia. cbn [andb mbind res_bind].
  rewrite Z.shiftl_0_l, Z.shiftr_0_l, Z.shiftr_div_pow2 by lia. change (u64 0) with 0.
  by rewrite Z.lor_0_r.
Qed.

(** Taking the first tree off the row. *)
Lemma pntz_enc k k' ks : incr k (k :: k' :: ks) ->
  pntz (enc k (k :: k' :: ks), 0) = Ok (Z.of_nat k' - Z.of_nat k).
Proof.
  intros [Hk [Hk' Hi]]. rewrite enc_hd.
  assert (Hi' : incr (S k) (k' :: ks)) by (split; [lia|done]).
  pose proof (enc_pos _ _ _ Hi'). pose proof (enc_small _ _ Hi' ltac:(lia)).
  assert (E : 2 * enc (S k) (k' :: ks) = 2 ^ Z.of_nat (k' - k) * (1 + 2 * enc (S k') ks)).
  { cbn [enc]. replace (k' - k)%nat with (S (k' - S k)) by lia.
    rewrite Nat2Z.inj_succ, Z.pow_succ_r by lia. lia. }
  unfold pntz. cbn [fst snd]. rewrite u64_small by lia.
  replace (1 + 2 * enc (S k) (k' :: ks) - 1) with (2 * enc (S k) (k' :: ks)) by lia.
  destruct (2 * enc (S k) (k' :: ks)) as [|q|q] eqn:Eq; [lia| |lia].
  cbn [a_ctz_l mbind res_bind].
  pose proof (enc_small _ _ Hi ltac:(lia)).
  rewrite (ctz_pos_spec (k' - k) (enc (S k') ks) 0 q) by lia.
  rewrite (proj2 (Z.eqb_neq _ 0)) by lia. cbn [negb]. f_equal. lia.
Qed.

Lemma shr_enc k k' ks : incr k (k :: k' :: ks) ->
  shr (enc k (k :: k' :: ks), 0) (Z.of_nat k' - Z.of_nat k) = Ok (enc k' (k' :: ks), 0).
Proof.
  intros Hi. pose proof (enc_small _ _ Hi ltac:(destruct Hi; lia)).
  destruct Hi as [Hk [Hk' Hi]]. rewrite shr_0 by lia. do 2 f_equal.
  rewrite enc_hd. replace (Z.of_nat k' - Z.of_nat k) with (1 + Z.of_nat (k' - S k)) by lia.
  rewrite Z.pow_add_r, <- Z.div_div by lia. change (2 ^ 1) with 2.
  replace ((1 + 2 * enc (S k) (k' :: ks)) / 2) with (enc (S k) (k' :: ks)) by div_lia.
  rewrite (enc_down k' (S k)) by (try split; (done || lia)).
  by rewrite Z.mul_comm, Z.div_mul by lia.
Qed.

Lemma shr_merge k ks : incr k (k :: S k :: ks) ->
  shr (enc k (k :: S k :: ks), 0) 2 = Ok (enc (S (S k)) ks, 0).
Proof.
  intros Hi. pose proof (enc_small _ _ Hi ltac:(destruct Hi; lia)).
  rewrite shr_0 by lia. do 2 f_equal. rewrite !enc_hd. change (2 ^ 2) with 4. div_lia.
Qed.

Lemma lor1_even x : 0 <= x -> Z.lor (2 * x) 1 = 1 + 2 * x.
Proof.
  intros Hx. replace (2 * x) with (Z.shiftl x 1) by (rewrite Z.shiftl_mul_pow2; lia).
  rewrite lor_shiftl_add by lia. rewrite Z.shiftl_mul_pow2; lia.
Qed.

(** The bit of a new rightmost tree. *)
Lemma lor1_enc s ks : incr (S s) ks -> Z.lor (enc s ks) 1 = enc s (s :: ks).
Proof.
  intros Hi. rewrite enc_down1 by done. rewrite enc_hd.
  destruct ks as [|k ks]; [done|]. pose proof (enc_pos _ _ _ Hi). apply lor1_even. lia.
Qed.

Lemma shl_enc s s' ks : (s' < s)%nat -> (s <= 61)%nat -> incr s ks ->
  shl (enc s ks, 0) (Z.of_nat s - Z.of_nat s') = Ok (enc s' ks, 0).
Proof.
  intros Hs Hs' Hi. pose proof (enc_range _ _ Hi ltac:(lia)) as Hr.
  assert (E : enc s' ks = enc s ks * 2 ^ (Z.of_nat s - Z.of_nat s')).
  { rewrite (enc_down s s') by (done || lia).
    replace (Z.of_nat (s - s')) with (Z.of_nat s - Z.of_nat s') by lia. lia. }
  assert (Hi' : incr s' ks) by (eapply incr_weaken, Hi; lia).
  pose proof (enc_small s' ks Hi' ltac:(lia)).
  rewrite E. apply shl_0; [lia..|]. rewrite <- E. lia.
Qed.

(** Taking the root off a tree of order [k+2]: the bits of its two trees. *)
Lemma split_enc k ks : incr (S (S k)) (S (S k) :: ks) ->
  shl (enc (S (S k)) (S (S k) :: ks), 0) 2 = Ok (4 + 8 * enc (S (S (S k))) ks, 0) /\
  shr (Z.lxor (4 + 8 * enc (S (S (S k))) ks) 7, 0) 1 = Ok (enc (S k) (S k :: ks), 0) /\
  shl (enc (S k) (S k :: ks), 0) 1 = Ok (enc k (S k :: ks), 0) /\
  Z.lor (enc k (S k :: ks)) 1 = enc k (k :: S k :: ks).
Proof.
  intros [Hk Hi]. set (m := enc (S (S (S k))) ks).
  assert (Hm : 0 <= m < 2 ^ 59).
  { pose proof (enc_range _ _ Hi ltac:(lia)) as Hr.
    assert (2 ^ Z.of_nat (62 - S (S (S k))) <= 2 ^ 59) by (apply Z.pow_le_mono_r; lia).
    unfold m. lia. }
  assert (E1 : enc (S k) (S k :: ks) = 1 + 4 * m) by (rewrite enc_hd, enc_down1 by done; lia).
  assert (E2 : enc (S (S k)) (S (S k) :: ks) = 1 + 2 * m) by (by rewrite enc_hd).
  assert (Hik : incr (S k) (S k :: ks)) by (split; [lia|by eapply incr_weaken, Hi; lia]).
  split; [|split; [|split]].
  - rewrite E2, shl_0 by (change (2 ^ 2) with 4; lia). do 2 f_equal. change (2 ^ 2) with 4. lia.
  - assert (Hx : Z.lxor (4 + 8 * m) 7 = 3 + 8 * m).
    { replace (4 + 8 * m) with (Z.lor (Z.shiftl m 3) 4)
        by (rewrite lor_shiftl_add by lia; change (2 ^ 3) with 8; lia).
      rewrite <- Z.lxor_lor by (apply land_shiftl_low; lia).
      rewrite Z.lxor_assoc. change (Z.lxor 4 7) with 3.
      rewrite Z.lxor_lor by (apply land_shiftl_low; lia).
      rewrite lor_shiftl_add by lia. change (2 ^ 3) with 8. lia. }
    rewrite Hx, shr_0, E1 by lia. do 2 f_equal. change (2 ^ 1) with 2. div_lia.
  - rewrite (enc_down1 k) by done. rewrite E1, shl_0 by (change (2 ^ 1) with 2; lia).
    do 2 f_equal. change (2 ^ 1) with 2. lia.
  - by apply lor1_enc.
Qed.

(** ** Permutations by writes *)
Lemma perm_write {A} (l : list A) i x y : l !! i = Some y -> x :: l ≡ₚ y :: <[i := x]> l.
Proof.
  revert i. induction l as [|a l IH]; intros [|i] H; try discriminate; cbn in *.
  - injection H as ->. apply Permutation_swap.
  - rewrite (Permutation_swap a x), (IH _ H). apply Permutation_swap.
Qed.

(** Moving the element of [j] to [i] and writing [x] to [j] is a permutation
    of writing [x] to [i]. *)
Lemma perm_move {A} (l : list A) i j x a : i <> j -> (i < length l)%nat -> l !! j = Some a ->
  <[j := x]> (<[i := a]> l) ≡ₚ <[i := x]> l.
Proof.
  intros Hij Hi Ha. destruct (lookup_lt_is_Some_2 l i Hi) as [b Hb].
  pose proof (perm_write l i x b Hb) as H1.
  pose proof (perm_write l i a b Hb) as H2.
  pose proof (perm_write (<[i := a]> l) j x a ltac:(by rewrite list_lookup_insert_ne)) as H3.
  apply (Permutation_cons_inv (a := b)), (Permutation_cons_inv (a := a)).
  rewrite <- H1, (Permutation_swap b a), <- H3, (Permutation_swap x b), <- H2.
  apply Permutation_swap.
Qed.
