(* ===== verification/SmoothHeap.v ===== *)
(** * Sifting and trinkling

    [sift] and [trinkle] of the sort: what each does to the rows of heaps of
    [SmoothsortFacts].  Both compute the path of one element first and move
    the elements along it afterwards; the induction on the path reads the
    array as it was and writes the array as it becomes. *)

From S2P Require Import Prelude Utils Smoothsort SmoothsortFacts.

Section heaps.
Context {A : Type} (cmp : A -> A -> Z) `{HT : !TotalCmp cmp} (d : A).
#[local] Notation "a ⊑ b" := (cmp_le cmp a b) (at level 70).

(** ** Elements by index *)
Definition el (arr : list A) (i : Z) : A := default d (arr !! Z.to_nat i).
Definition len (arr : list A) : Z := Z.of_nat (length arr).

Lemma get_el arr i : 0 <= i < len arr -> get arr i = Ok (el arr i).
Proof using.
  unfold len. intros Hi. unfold get, fetch, el. rewrite (proj2 (Z.leb_le 0 i)) by lia.
  destruct (lookup_lt_is_Some_2 arr (Z.to_nat i) ltac:(lia)) as [a ->]. done.
Qed.

Lemma set_el arr i a : 0 <= i < len arr -> set arr i a = Ok (<[Z.to_nat i := a]> arr).
Proof using.
  unfold len. intros Hi. unfold set, store. rewrite (proj2 (Z.leb_le 0 i)) by lia.
  by rewrite (proj2 (Nat.ltb_lt _ _)) by lia.
Qed.

Lemma len_insert arr i a : len (<[i := a]> arr) = len arr.
Proof using. unfold len. by rewrite length_insert. Qed.

Lemma el_insert arr i a : 0 <= i < len arr -> el (<[Z.to_nat i := a]> arr) i = a.
Proof using. unfold len. intros Hi. unfold el. by rewrite list_lookup_insert_eq by lia. Qed.

Lemma el_insert_ne arr i j a : 0 <= i -> 0 <= j -> i <> j ->
  el (<[Z.to_nat i := a]> arr) j = el arr j.
Proof using. intros. unfold el. by rewrite list_lookup_insert_ne by lia. Qed.

Lemma insert_el arr i : 0 <= i < len arr -> <[Z.to_nat i := el arr i]> arr = arr.
Proof using.
  unfold len. intros Hi. unfold el.
  destruct (lookup_lt_is_Some_2 arr (Z.to_nat i) ltac:(lia)) as [a Ha]. rewrite Ha.
  by apply list_insert_id.
Qed.

Lemma compare_el arr i j : 0 <= i < len arr -> 0 <= j < len arr ->
  compare cmp arr i j = Ok (cmp (el arr i) (el arr j)).
Proof using. intros. unfold compare. by rewrite !get_el by done. Qed.

(** ** The order *)
Lemma le_refl a : a ⊑ a.
Proof using HT. unfold cmp_le. by rewrite cmp_refl. Qed.

Lemma le_trans a b c : a ⊑ b -> b ⊑ c -> a ⊑ c.
Proof using HT. apply cmp_trans. Qed.

Lemma cmp_ge a b : 0 <= cmp a b <-> b ⊑ a.
Proof using HT. unfold cmp_le. pose proof (cmp_opp a b). lia. Qed.

Lemma cmp_lt a b : cmp a b < 0 -> a ⊑ b.
Proof using. unfold cmp_le. lia. Qed.

Lemma cmp_gt a b : 0 < cmp a b -> b ⊑ a.
Proof using HT. rewrite <- cmp_ge. lia. Qed.

#[local] Hint Resolve le_refl : core.

(** ** Heaps of order [k] with the root at [r] *)
Definition kid_le (k : nat) (f : Z -> A) (r : Z) (m : A) : Prop :=
  match k with
  | S (S j) => f (r - 1) ⊑ m /\ f (r - 1 - leo j) ⊑ m
  | _ => True
  end.

Fixpoint heap (k : nat) (f : Z -> A) (r : Z) : Prop :=
  match k with
  | O => True
  | S k' =>
    match k' with
    | O => True
    | S j => (f (r - 1) ⊑ f r /\ f (r - 1 - leo j) ⊑ f r) /\ heap j f (r - 1) /\ heap k' f (r - 1 - leo j)
    end
  end.

Definition kids_heap (k : nat) (f : Z -> A) (r : Z) : Prop :=
  match k with
  | S (S j) => heap j f (r - 1) /\ heap (S j) f (r - 1 - leo j)
  | _ => True
  end.

Lemma heap_SS k f r : heap (S (S k)) f r =
  ((f (r - 1) ⊑ f r /\ f (r - 1 - leo k) ⊑ f r) /\ heap k f (r - 1) /\ heap (S k) f (r - 1 - leo k)).
Proof using. done. Qed.

Lemma heap_eq k f r : heap k f r <-> kid_le k f r (f r) /\ kids_heap k f r.
Proof using. destruct k as [|[|k]]; [cbn; tauto..|]. by rewrite heap_SS. Qed.

Lemma kid_le_trans k f r m m' : kid_le k f r m -> m ⊑ m' -> kid_le k f r m'.
Proof using HT.
  destruct k as [|[|k]]; cbn; try done. intros [H1 H2] H. split; eapply le_trans; done.
Qed.

Lemma kid_le_ext k f g r m : (forall i, r + 1 - leo k <= i < r -> f i = g i) ->
  kid_le k f r m -> kid_le k g r m.
Proof using.
  destruct k as [|[|k]]; cbn [kid_le]; try done. rewrite leo_SS.
  pose proof (leo_ge1 k) as Hg1; pose proof (leo_ge1 (S k)) as Hg2. intros H. by rewrite !H by lia.
Qed.

Lemma heap_ext k f g r : (forall i, r + 1 - leo k <= i <= r -> f i = g i) ->
  heap k f r -> heap k g r.
Proof using.
  revert r. induction k as [k IH] using lt_wf_ind. intros r H.
  destruct k as [|[|k]]; [done..|]. rewrite !heap_SS. rewrite leo_SS in H.
  pose proof (leo_ge1 k) as Hg1; pose proof (leo_ge1 (S k)) as Hg2.
  intros (H1 & H2 & H3). rewrite <- !H by lia. split; [done|].
  split; [apply (IH k); [lia| |done]|apply (IH (S k)); [lia| |done]]; intros; apply H; lia.
Qed.

Lemma kids_heap_ext k f g r : (forall i, r + 1 - leo k <= i < r -> f i = g i) ->
  kids_heap k f r -> kids_heap k g r.
Proof using.
  destruct k as [|[|k]]; cbn [kids_heap]; try done. rewrite leo_SS.
  pose proof (leo_ge1 k) as Hg1; pose proof (leo_ge1 (S k)) as Hg2.
  intros H [H1 H2]. split; (eapply (heap_ext _ f); [|done]); intros; apply H; lia.
Qed.

Lemma heap_max k f r i : heap k f r -> r + 1 - leo k <= i <= r -> f i ⊑ f r.
Proof using HT.
  revert r i. induction k as [k IH] using lt_wf_ind. intros r i Hh Hi.
  destruct (decide (i = r)) as [->|Hne]; [done|].
  destruct k as [|[|k]]; [cbn in Hi; lia..|]. rewrite heap_SS in Hh. rewrite leo_SS in Hi.
  destruct Hh as ([H1 H2] & H3 & H4).
  destruct (decide (r - leo k <= i)).
  - eapply le_trans, H1. apply (IH k); [lia|done|lia].
  - eapply le_trans, H2. apply (IH (S k)); [lia|done|lia].
Qed.

(** ** Sifting *)

(** [arr2] comes from [arr1] by writing [x] to the root of a tree and
    letting it sink. *)
Record settled (k : nat) (r : Z) (x : A) (arr1 arr2 : list A) : Prop := {
  st_len : len arr2 = len arr1;
  st_heap : heap k (el arr2) r;
  st_frame : forall i, 0 <= i -> ~ (r + 1 - leo k <= i <= r) -> el arr2 i = el arr1 i;
  st_perm : arr2 ≡ₚ <[Z.to_nat r := x]> arr1;
  st_ub : forall m, x ⊑ m -> kid_le k (el arr1) r m -> el arr2 r ⊑ m;
  st_lb : x ⊑ el arr2 r;
  st_kids : kid_le k (el arr1) r (el arr2 r);
}.

Lemma settled_here k r x arr : 0 <= r < len arr -> leo k <= r + 1 ->
  kids_heap k (el arr) r -> kid_le k (el arr) r x ->
  settled k r x arr (<[Z.to_nat r := x]> arr).
Proof using HT.
  intros Hr Hk Hh Hx. pose proof (leo_ge1 k) as Hk1.
  assert (Hext : forall i, r + 1 - leo k <= i < r -> el arr i = el (<[Z.to_nat r := x]> arr) i).
  { intros i Hi. by rewrite el_insert_ne by lia. }
  constructor; rewrite ?len_insert, ?el_insert by done; try done.
  - apply heap_eq. rewrite el_insert by done.
    split; [eapply kid_le_ext|eapply kids_heap_ext]; done.
  - intros i Hi Hn. apply el_insert_ne; lia.
Qed.

(** The larger child [c], of order [kc], and the other one [s]. *)
Definition children (j : nat) (r c : Z) (kc : nat) (s : Z) (ks : nat) : Prop :=
  (c = r - 1 - leo j /\ kc = S j /\ s = r - 1 /\ ks = j) \/
  (c = r - 1 /\ kc = j /\ s = r - 1 - leo j /\ ks = S j).

Lemma children_kid_le j r c kc s ks f m : children j r c kc s ks ->
  kid_le (S (S j)) f r m <-> f c ⊑ m /\ f s ⊑ m.
Proof using. intros [(-> & -> & -> & ->)|(-> & -> & -> & ->)]; cbn; tauto. Qed.

Lemma children_kids_heap j r c kc s ks f : children j r c kc s ks ->
  kids_heap (S (S j)) f r <-> heap kc f c /\ heap ks f s.
Proof using. intros [(-> & -> & -> & ->)|(-> & -> & -> & ->)]; cbn [kids_heap]; tauto. Qed.

(** The subtrees of the children lie side by side below the root. *)
Lemma children_range j r c kc s ks : children j r c kc s ks ->
  r + 1 - leo (S (S j)) <= c < r /\ r + 1 - leo (S (S j)) <= s < r /\
  leo kc <= leo (S (S j)) /\
  r + 1 - leo (S (S j)) <= c + 1 - leo kc /\ r + 1 - leo (S (S j)) <= s + 1 - leo ks /\
  (s < c + 1 - leo kc \/ c < s + 1 - leo ks).
Proof using.
  rewrite leo_SS. pose proof (leo_ge1 j). pose proof (leo_ge1 (S j)).
  intros [(-> & -> & -> & ->)|(-> & -> & -> & ->)]; lia.
Qed.

Lemma settled_down j r x c kc s ks arr1 arr2 : children j r c kc s ks ->
  leo (S (S j)) <= r + 1 -> r < len arr1 ->
  x ⊑ el arr1 c -> el arr1 s ⊑ el arr1 c -> heap kc (el arr1) c -> heap ks (el arr1) s ->
  settled kc c x (<[Z.to_nat r := el arr1 c]> arr1) arr2 -> settled (S (S j)) r x arr1 arr2.
Proof using HT.
  intros Hc Hk Hr Hx Hs Hhc Hhs [L1 L2 L3 L4 L5 L6 L7].
  pose proof (children_range _ _ _ _ _ _ Hc) as (R1 & R2 & R3 & R4 & R5 & R6).
  pose proof (leo_ge1 kc) as Hg. pose proof (leo_ge1 ks) as Hg'. rewrite len_insert in L1.
  assert (Eroot : el arr2 r = el arr1 c) by (rewrite L3, el_insert by lia; done).
  assert (Ec : el arr2 c ⊑ el arr1 c).
  { apply L5; [done|]. eapply kid_le_ext; [|by eapply heap_eq]. intros i Hi.
    rewrite el_insert_ne by lia. done. }
  assert (Es : forall i, s + 1 - leo ks <= i <= s -> el arr1 i = el arr2 i).
  { intros i Hi. rewrite L3, el_insert_ne by lia. done. }
  constructor.
  - done.
  - apply heap_eq. rewrite Eroot. split.
    + apply (children_kid_le _ _ _ _ _ _ _ _ Hc). rewrite <- (Es s) by lia. done.
    + apply (children_kids_heap _ _ _ _ _ _ _ Hc). split; [done|]. by eapply heap_ext.
  - intros i Hi Hn. rewrite L3, el_insert_ne by lia. done.
  - rewrite L4. apply perm_move; [lia|unfold len in Hr; lia|].
    unfold el, len in *. destruct (lookup_lt_is_Some_2 arr1 (Z.to_nat c) ltac:(lia)) as [a Ha].
    by rewrite Ha.
  - intros m Hm Hkid. rewrite Eroot. by apply (children_kid_le _ _ _ _ _ _ _ _ Hc) in Hkid as [? _].
  - by rewrite Eroot.
  - rewrite Eroot. apply (children_kid_le _ _ _ _ _ _ _ _ Hc). done.
Qed.

(** The entries of [lp] that the trees of an array of [n] elements need. *)
Definition lp_ok (lp : list Z) (n : Z) : Prop := forall k, leo k < n -> get lp (Z.of_nat k) = Ok (leo k).

Lemma push_ok ar x : (length ar < AR_SIZE)%nat -> push ar x = Ok (ar ++ [x]).
Proof using. intros H. unfold push. by rewrite (proj2 (Nat.ltb_lt _ _)). Qed.

(** The moves along [head :: tl] let [x] sink into the tree of order [k] at
    [head], in every array that has the tree's elements below the root. *)
Definition sinks (k : nat) (head : Z) (x : A) (arr : list A) (tl : list Z) : Prop :=
  forall arr1, len arr1 = len arr ->
    (forall i, head + 1 - leo k <= i < head -> el arr i = el arr1 i) ->
    exists arr2, cycle_loop arr1 (head :: tl) x = Ok arr2 /\ settled k head x arr1 arr2.

Lemma sinks_here k head x arr : 0 <= head < len arr -> leo k <= head + 1 ->
  kids_heap k (el arr) head -> kid_le k (el arr) head x -> sinks k head x arr [].
Proof using HT.
  intros Hh Hk Hkids Hx arr1 Hl He. cbn [cycle_loop]. rewrite set_el by lia.
  eexists. split; [done|].
  apply settled_here; [lia|done|by eapply kids_heap_ext|by eapply kid_le_ext].
Qed.

Lemma sinks_down j head x arr c kc s ks tl : children j head c kc s ks ->
  0 <= head < len arr -> leo (S (S j)) <= head + 1 ->
  x ⊑ el arr c -> el arr s ⊑ el arr c -> heap kc (el arr) c -> heap ks (el arr) s ->
  sinks kc c x arr tl -> sinks (S (S j)) head x arr (c :: tl).
Proof using HT.
  intros Hc Hh Hk Hx Hs Hhc Hhs Hsink arr1 Hl He.
  pose proof (children_range _ _ _ _ _ _ Hc) as (R1 & R2 & R3 & R4 & R5 & R6).
  pose proof (leo_ge1 kc) as Hg. pose proof (leo_ge1 ks) as Hg'.
  cbn [cycle_loop]. rewrite get_el by lia. cbn [mbind res_bind].
  rewrite set_el by lia. cbn [mbind res_bind].
  destruct (Hsink (<[Z.to_nat head := el arr1 c]> arr1)) as (arr2 & Hrun & Hset).
  { by rewrite len_insert. }
  { intros i Hi. rewrite el_insert_ne by lia. apply He. lia. }
  exists arr2. split; [exact Hrun|].
  eapply (settled_down j head x c kc s ks); try done; rewrite <- ?(He c), <- ?(He s) by lia; try done.
  - lia.
  - eapply heap_ext, Hhc. intros i Hi. apply He. lia.
  - eapply heap_ext, Hhs. intros i Hi. apply He. lia.
Qed.

(** The path of [sift] from a tree of order [k] is one the element of
    [head0] sinks along. *)
Lemma sift_loop_spec lp arr head0 fuel k ar head : (k < fuel)%nat ->
  lp_ok lp (len arr) -> 0 <= head0 < len arr ->
  leo k <= head + 1 -> head < len arr -> (length ar + k < AR_SIZE)%nat ->
  kids_heap k (el arr) head ->
  exists tl, sift_loop cmp lp fuel arr head0 ar head (Z.of_nat k) = Ok (ar ++ tl) /\
    (length tl <= k)%nat /\ sinks k head (el arr head0) arr tl.
Proof using HT.
  intros Hf Hlp H0. revert k ar head Hf.
  induction fuel as [|fuel IH]; intros k ar head Hf Hk Hh Har Hkids; [lia|].
  pose proof (leo_ge1 k) as Hk1. set (x := el arr head0) in *.
  assert (Hstop : kid_le k (el arr) head x ->
    exists tl, Ok ar = Ok (ar ++ tl) /\ (length tl <= k)%nat /\ sinks k head x arr tl).
  { intros Hle. exists []. rewrite app_nil_r. split; [done|]. split; [cbn; lia|].
    apply sinks_here; done || lia. }
  cbn [sift_loop]. destruct k as [|[|j]]; [by apply Hstop..|].
  (* one step down, to a child that is at least [x] and its sibling *)
  assert (Hstep : forall c kc s ks, children j head c kc s ks -> (kc < S (S j))%nat ->
    x ⊑ el arr c -> el arr s ⊑ el arr c ->
    exists tl, (ar' ← push ar c; sift_loop cmp lp fuel arr head0 ar' c (Z.of_nat kc)) = Ok (ar ++ tl) /\
      (length tl <= S (S j))%nat /\ sinks (S (S j)) head x arr tl).
  { intros c kc s ks Hc Hkc Hxc Hsc.
    pose proof (children_range _ _ _ _ _ _ Hc) as (R1 & R2 & R3 & R4 & R5 & R6).
    apply (children_kids_heap _ _ _ _ _ _ _ Hc) in Hkids as [Hhc Hhs].
    rewrite push_ok by lia. cbn [mbind res_bind].
    destruct (IH kc (ar ++ [c]) c) as (tl & Hrun & Htl & Hres);
      [lia|lia|lia|rewrite length_app; cbn; lia|by eapply heap_eq|].
    exists (c :: tl). rewrite Hrun, <- app_assoc. split; [done|]. split; [cbn; lia|].
    eapply (sinks_down j head x arr c kc s ks); done || lia. }
  rewrite (proj2 (Z.ltb_lt 1 _)) by lia.
  replace (Z.of_nat (S (S j)) - 2) with (Z.of_nat j) by lia.
  replace (Z.of_nat (S (S j)) - 1) with (Z.of_nat (S j)) by lia.
  rewrite leo_SS in *. pose proof (leo_ge1 j) as Hj. pose proof (leo_ge1 (S j)) as Hj'.
  rewrite Hlp by lia. cbn [mbind res_bind]. rewrite !compare_el by lia. cbn [mbind res_bind].
  fold x. set (lf := head - 1 - leo j) in *.
  pose proof (cmp_ge x (el arr lf)) as G1. pose proof (cmp_ge x (el arr (head - 1))) as G2.
  pose proof (cmp_ge (el arr lf) (el arr (head - 1))) as G3.
  pose proof (cmp_lt x (el arr lf)) as T1. pose proof (cmp_lt x (el arr (head - 1))) as T2.
  pose proof (cmp_lt (el arr lf) (el arr (head - 1))) as T3.
  destruct (Z.leb_spec 0 (cmp x (el arr lf))) as [C1|C1]; cbn [mbind res_bind];
    [destruct (Z.leb_spec 0 (cmp x (el arr (head - 1)))) as [C2|C2]; cbn [mbind res_bind]|];
    [apply Hstop; cbn; tauto|..];
    destruct (Z.leb_spec 0 (cmp (el arr lf) (el arr (head - 1)))) as [C3|C3];
    [apply (Hstep lf (S j) (head - 1) j)|apply (Hstep (head - 1) j lf (S j))
    |apply (Hstep lf (S j) (head - 1) j)|apply (Hstep (head - 1) j lf (S j))];
    try lia; try (left; done); try (right; done); try tauto.
  - eapply le_trans; [by apply T2|by apply G3].
  - eapply le_trans; [by apply T1|by apply T3].
Qed.

Lemma cycle_path arr head tl : 0 <= head < len arr -> (S (length tl) < AR_SIZE)%nat ->
  cycle arr (head :: tl) = cycle_loop arr (head :: tl) (el arr head).
Proof using.
  intros Hh Htl. unfold cycle. rewrite (proj2 (Nat.ltb_lt _ AR_SIZE)) by (cbn [length]; lia).
  destruct tl as [|q tl].
  - cbn [length cycle_loop]. rewrite set_el, insert_el by lia. done.
  - rewrite (proj2 (Nat.ltb_ge _ 2)) by (cbn [length]; lia).
    unfold fetch. cbn [lookup list_lookup mbind res_bind]. by rewrite get_el.
Qed.

Context (lp : list Z).

Lemma sift_spec arr head k : lp_ok lp (len arr) -> 0 <= head < len arr ->
  leo k <= head + 1 -> (k <= 61)%nat -> kids_heap k (el arr) head ->
  exists arr', sift cmp lp arr head (Z.of_nat k) = Ok arr' /\ settled k head (el arr head) arr arr'.
Proof using HT.
  intros Hlp Hh Hk Hb Hkids. unfold sift.
  destruct (sift_loop_spec lp arr head (S (Z.to_nat (Z.of_nat k))) k [head] head)
    as (tl & -> & Htl & Hs); [lia|done|lia|done|lia|cbn; unfold AR_SIZE; lia|done|].
  cbn [mbind res_bind app]. rewrite cycle_path by (unfold AR_SIZE; lia).
  by apply Hs.
Qed.

(** ** Rows of trees *)
Fixpoint total (ks : list nat) : Z :=
  match ks with
  | [] => 0
  | k :: ks' => leo k + total ks'
  end.

(** Every tree of the row that ends at [h] is a heap. *)
Fixpoint forest (f : Z -> A) (ks : list nat) (h : Z) : Prop :=
  match ks with
  | [] => True
  | k :: ks' => heap k f h /\ forest f ks' (h - leo k)
  end.

(** The root at [h], when there is a tree left, is at most [m]. *)
Definition next_le (f : Z -> A) (ks : list nat) (h : Z) (m : A) : Prop :=
  match ks with
  | [] => True
  | _ :: _ => f h ⊑ m
  end.

(** The roots ascend to the right. *)
Fixpoint chain (f : Z -> A) (ks : list nat) (h : Z) : Prop :=
  match ks with
  | [] => True
  | k :: ks' => next_le f ks' (h - leo k) (f h) /\ chain f ks' (h - leo k)
  end.

Lemma total_nonneg ks : 0 <= total ks.
Proof using. induction ks as [|k ks IH]; cbn [total]; [lia|]. pose proof (leo_ge1 k). lia. Qed.

Lemma next_le_ext f g ks h m : (0 < total ks -> f h = g h) -> next_le f ks h m -> next_le g ks h m.
Proof using.
  destruct ks as [|k ks]; cbn [next_le total]; [done|]. intros H.
  pose proof (leo_ge1 k) as Hg1. pose proof (total_nonneg ks) as Hg2. by rewrite H by lia.
Qed.

Lemma next_le_trans f ks h m m' : next_le f ks h m -> m ⊑ m' -> next_le f ks h m'.
Proof using HT. destruct ks; cbn; [done|]. apply le_trans. Qed.

Lemma forest_ext f g ks h : (forall i, h + 1 - total ks <= i <= h -> f i = g i) ->
  forest f ks h -> forest g ks h.
Proof using.
  revert h. induction ks as [|k ks IH]; intros h H; cbn [forest total] in *; [done|].
  pose proof (leo_ge1 k) as Hg1. pose proof (total_nonneg ks) as Hg2. intros [H1 H2]. split.
  - eapply heap_ext, H1. intros. apply H. lia.
  - eapply IH, H2. intros. apply H. lia.
Qed.

Lemma chain_ext f g ks h : (forall i, h + 1 - total ks <= i <= h -> f i = g i) ->
  chain f ks h -> chain g ks h.
Proof using.
  revert h. induction ks as [|k ks IH]; intros h H; cbn [chain total] in *; [done|].
  pose proof (leo_ge1 k) as Hg1. pose proof (total_nonneg ks) as Hg2. intros [H1 H2].
  rewrite <- (H h) by lia. split.
  - eapply next_le_ext, H1. intros. apply H. lia.
  - eapply IH, H2. intros. apply H. lia.
Qed.

(** In a row of heaps whose roots ascend the last root is the greatest. *)
Lemma row_max f ks h i : forest f ks h -> chain f ks h -> h + 1 - total ks <= i <= h -> f i ⊑ f h.
Proof using HT.
  revert h. induction ks as [|k ks IH]; intros h; cbn [forest chain total]; [lia|].
  intros [H1 H2] [H3 H4] Hi. destruct (decide (h + 1 - leo k <= i)) as [Hk|Hk].
  - eapply heap_max; [done|lia].
  - destruct ks as [|k' ks]; [cbn [total] in Hi; lia|]. cbn [next_le] in H3.
    eapply le_trans, H3. apply IH; [done..|lia].
Qed.

(** [arr2] comes from [arr1] by writing [x] to the last root of the row
    [k :: ks] and putting the row in order. *)
Record rowed (k : nat) (ks : list nat) (head : Z) (x : A) (arr1 arr2 : list A) : Prop := {
  rw_len : len arr2 = len arr1;
  rw_perm : arr2 ≡ₚ <[Z.to_nat head := x]> arr1;
  rw_frame : forall i, head < i -> el arr2 i = el arr1 i;
  rw_forest : forest (el arr2) (k :: ks) head;
  rw_chain : chain (el arr2) (k :: ks) head;
  rw_ub : forall m, x ⊑ m -> kid_le k (el arr1) head m ->
    next_le (el arr1) ks (head - leo k) m -> el arr2 head ⊑ m;
}.

(** What the path [head :: tl] of [trinkle], ended at a tree of order [k']
    at [head'], is good for. *)
Definition lands (k : nat) (ks : list nat) (head : Z) (x : A) (arr : list A)
    (tl : list Z) (head' : Z) (k' : nat) (trusty : bool) : Prop :=
  forall arr1, len arr1 = len arr -> (forall i, 0 <= i < head -> el arr i = el arr1 i) ->
    if trusty then rowed k ks head x arr1 (<[Z.to_nat head := x]> arr1)
    else exists arr2 arr3, cycle_loop arr1 (head :: tl) x = Ok arr2 /\
      sift cmp lp arr2 head' (Z.of_nat k') = Ok arr3 /\ rowed k ks head x arr1 arr3.

Lemma settled_write k r x arr1 arr2 : 0 <= r < len arr1 -> leo k <= r + 1 ->
  settled k r x (<[Z.to_nat r := x]> arr1) arr2 -> settled k r x arr1 arr2.
Proof using.
  intros Hr Hk [L1 L2 L3 L4 L5 L6 L7]. rewrite len_insert in L1. pose proof (leo_ge1 k) as Hg.
  assert (He : forall i, r + 1 - leo k <= i < r ->
    el arr1 i = el (<[Z.to_nat r := x]> arr1) i) by (intros; by rewrite el_insert_ne by lia).
  constructor; try done.
  - intros i Hi Hn. rewrite L3, el_insert_ne by lia. done.
  - by rewrite list_insert_insert_eq in L4.
  - intros m Hm Hkid. apply L5; [done|]. by eapply kid_le_ext.
  - eapply kid_le_ext; [|exact L7]. intros. symmetry. by apply He.
Qed.

(** The row is in order once its last tree is settled, when whatever the new
    root can be is at least the next root. *)
Lemma rowed_settled k ks head x arr1 arr2 : total (k :: ks) = head + 1 ->
  settled k head x arr1 arr2 ->
  forest (el arr1) ks (head - leo k) -> chain (el arr1) ks (head - leo k) ->
  (forall m, x ⊑ m -> kid_le k (el arr1) head m -> next_le (el arr1) ks (head - leo k) m) ->
  rowed k ks head x arr1 arr2.
Proof using.
  intros Ht [L1 L2 L3 L4 L5 L6 L7] Hf Hc Hn. cbn [total] in Ht.
  pose proof (leo_ge1 k) as Hg1. pose proof (total_nonneg ks) as Hg2.
  assert (He : forall i, 0 <= i <= head - leo k -> el arr1 i = el arr2 i).
  { intros i Hi. symmetry. apply L3; lia. }
  constructor; try done.
  - intros i Hi. apply L3; lia.
  - split; [done|]. eapply forest_ext, Hf. intros. apply He. lia.
  - split; [|eapply chain_ext, Hc; intros; apply He; lia].
    eapply next_le_ext; [|apply Hn; done]. intros. apply He. lia.
  - intros m Hm Hkid _. by apply L5.
Qed.

Lemma lands_stop k ks head x arr trusty : 0 <= head < len arr -> total (k :: ks) = head + 1 ->
  (k <= 61)%nat -> lp_ok lp (len arr) ->
  kids_heap k (el arr) head -> (trusty = true -> kid_le k (el arr) head x) ->
  forest (el arr) ks (head - leo k) -> chain (el arr) ks (head - leo k) ->
  (forall m, x ⊑ m -> kid_le k (el arr) head m -> next_le (el arr) ks (head - leo k) m) ->
  lands k ks head x arr [] head k trusty.
Proof using HT.
  intros Hh Ht Hb Hlp Hkids Htr Hf Hc Hn arr1 Hl He. pose proof Ht as Ht'. cbn [total] in Ht'.
  pose proof (leo_ge1 k) as Hg1. pose proof (total_nonneg ks) as Hg2.
  assert (Hrow : forall arr2, settled k head x arr1 arr2 -> rowed k ks head x arr1 arr2).
  { intros arr2 Hs. apply rowed_settled; try done.
    - eapply forest_ext, Hf. intros. apply He. lia.
    - eapply chain_ext, Hc. intros. apply He. lia.
    - intros m Hm Hkid. eapply next_le_ext; [intros; apply He; lia|]. apply Hn; [done|].
      eapply kid_le_ext, Hkid. intros. symmetry. apply He. lia. }
  assert (Hkids1 : kids_heap k (el arr1) head).
  { eapply kids_heap_ext, Hkids. intros. apply He. lia. }
  destruct trusty.
  - apply Hrow, settled_here; [lia|lia|done|]. eapply kid_le_ext, Htr; [|done].
    intros. apply He. lia.
  - cbn [cycle_loop]. rewrite set_el by lia. set (arr2 := <[Z.to_nat head := x]> arr1).
    assert (Hl2 : len arr2 = len arr) by (unfold arr2; by rewrite len_insert).
    destruct (sift_spec arr2 head k) as (arr3 & Hrun & Hs); rewrite ?Hl2; try lia; try done.
    { eapply kids_heap_ext, Hkids1. intros. unfold arr2. rewrite el_insert_ne by lia. done. }
    exists arr2, arr3. split; [done|]. split; [done|]. apply Hrow.
    unfold arr2 in Hs. rewrite el_insert in Hs by lia. eapply settled_write; done || lia.
Qed.

Lemma lands_pass k k1 ks head x arr tl head' k' : 0 <= head < len arr ->
  total (k :: k1 :: ks) = head + 1 ->
  kids_heap k (el arr) head -> kid_le k (el arr) head (el arr (head - leo k)) ->
  forest (el arr) (k1 :: ks) (head - leo k) -> chain (el arr) (k1 :: ks) (head - leo k) ->
  x ⊑ el arr (head - leo k) ->
  lands k1 ks (head - leo k) x arr tl head' k' false ->
  lands k (k1 :: ks) head x arr ((head - leo k) :: tl) head' k' false.
Proof using HT.
  intros Hh Ht Hkids Hkid Hf Hc Hx Hland arr1 Hl He. cbn [total] in Ht.
  set (s := head - leo k) in *.
  pose proof (leo_ge1 k) as Hg1. pose proof (leo_ge1 k1) as Hg2.
  pose proof (total_nonneg ks) as Hg3.
  cbn [cycle_loop]. rewrite get_el by lia. cbn [mbind res_bind].
  rewrite set_el by lia. cbn [mbind res_bind]. rewrite <- (He s) by lia.
  set (arr1' := <[Z.to_nat head := el arr s]> arr1).
  assert (He' : forall i, 0 <= i < head -> el arr i = el arr1' i).
  { intros i Hi. unfold arr1'. rewrite el_insert_ne by lia. by apply He. }
  destruct (Hland arr1') as (arr2 & arr3 & Hrun & Hsift & [L1 L2 L3 L4 L5 L6]).
  { unfold arr1'. by rewrite len_insert. }
  { intros i Hi. apply He'. lia. }
  exists arr2, arr3. split; [exact Hrun|]. split; [done|].
  assert (Eh : el arr3 head = el arr s).
  { rewrite L3 by lia. unfold arr1'. rewrite el_insert by lia. done. }
  assert (Es : el arr3 s ⊑ el arr s).
  { cbn [forest chain] in Hf, Hc. destruct Hf as [Hf1 Hf2], Hc as [Hc1 Hc2].
    apply heap_eq in Hf1 as [Hf1 _]. apply L6; [done|..].
    - eapply kid_le_ext, Hf1. intros. apply He'. lia.
    - eapply next_le_ext, Hc1. intros. apply He'. lia. }
  assert (Em : forall i, s < i < head -> el arr i = el arr3 i).
  { intros i Hi. rewrite L3 by lia. apply He'. lia. }
  constructor.
  - rewrite L1. unfold arr1'. by rewrite len_insert.
  - rewrite L2. unfold arr1'. apply perm_move; [lia|unfold len in *; lia|].
    rewrite (He s) by lia. unfold el, len in *.
    destruct (lookup_lt_is_Some_2 arr1 (Z.to_nat s) ltac:(lia)) as [a Ha]. by rewrite Ha.
  - intros i Hi. rewrite L3 by lia. unfold arr1'. by rewrite el_insert_ne by lia.
  - split; [|exact L4]. apply heap_eq. rewrite Eh. split.
    + eapply kid_le_ext, Hkid. intros. apply Em. lia.
    + eapply kids_heap_ext, Hkids. intros. apply Em. lia.
  - split; [|exact L5]. cbn [next_le]. fold s. by rewrite Eh.
  - intros m Hm _ Hnx. cbn [next_le] in Hnx. fold s in Hnx. rewrite Eh, (He s) by lia. done.
Qed.

(** Whether the path of [trinkle] goes on, as the code decides it. *)
Lemma trinkle_stops arr head k (trusty : bool) s : lp_ok lp (len arr) ->
  0 <= s < len arr -> 0 <= head < len arr -> leo k <= head + 1 ->
  exists stop : bool,
    (if negb trusty && (1 <? Z.of_nat k) then
       l ← get lp (Z.of_nat k - 2);
       c ← compare cmp arr (head - 1) s;
       if 0 <=? c then Ok true else c ← compare cmp arr (head - 1 - l) s; Ok (0 <=? c)
     else Ok false) = Ok stop /\
    (stop = true -> forall m, kid_le k (el arr) head m -> el arr s ⊑ m) /\
    (stop = false -> trusty = false -> kid_le k (el arr) head (el arr s)).
Proof using HT.
  intros Hlp Hs Hh Hk. destruct trusty; cbn [negb andb]; [by exists false|].
  destruct k as [|[|j]]; [by exists false..|]. rewrite (proj2 (Z.ltb_lt 1 _)) by lia.
  replace (Z.of_nat (S (S j)) - 2) with (Z.of_nat j) by lia.
  rewrite leo_SS in Hk. pose proof (leo_ge1 j) as Hg1. pose proof (leo_ge1 (S j)) as Hg2.
  rewrite Hlp by lia. cbn [mbind res_bind]. rewrite !compare_el by lia. cbn [mbind res_bind].
  set (rt := el arr (head - 1)). set (lf := el arr (head - 1 - leo j)).
  pose proof (cmp_ge rt (el arr s)) as G1. pose proof (cmp_ge lf (el arr s)) as G2.
  destruct (Z.leb_spec 0 (cmp rt (el arr s))) as [C1|C1].
  { exists true. split; [done|]. split; [|done]. intros _ m [H1 _].
    eapply le_trans, H1. by apply G1. }
  exists (0 <=? cmp lf (el arr s)). split; [done|].
  destruct (Z.leb_spec 0 (cmp lf (el arr s))) as [C2|C2]; split; try done.
  - intros _ m [_ H2]. eapply le_trans, H2. by apply G2.
  - intros _ _. split; by apply cmp_lt.
Qed.

Lemma trinkle_loop_spec arr head0 fuel k ks ar head trusty : (length ks < fuel)%nat ->
  lp_ok lp (len arr) -> 0 <= head0 < len arr -> incr k (k :: ks) ->
  total (k :: ks) = head + 1 -> head < len arr -> (length ar + length ks < AR_SIZE)%nat ->
  kids_heap k (el arr) head -> (trusty = true -> kid_le k (el arr) head (el arr head0)) ->
  forest (el arr) ks (head - leo k) -> chain (el arr) ks (head - leo k) ->
  exists tl head' k' trusty',
    trinkle_loop cmp lp fuel arr head0 ar head (enc k (k :: ks), 0) (Z.of_nat k) trusty =
      Ok (ar ++ tl, head', Z.of_nat k', trusty') /\
    (length tl <= length ks)%nat /\ (trusty' = true -> trusty = true /\ tl = []) /\
    lands k ks head (el arr head0) arr tl head' k' trusty'.
Proof using HT.
  intros Hf Hlp H0. revert k ks ar head trusty Hf.
  induction fuel as [|fuel IH]; intros k ks ar head trusty Hf Hi Ht Hh Har Hkids Htr Hfo Hch; [lia|].
  set (x := el arr head0) in *. pose proof Ht as Ht'. cbn [total] in Ht'.
  pose proof (leo_ge1 k) as Hg1. pose proof (total_nonneg ks) as Hg2.
  assert (Hstop : (forall m, x ⊑ m -> kid_le k (el arr) head m ->
      next_le (el arr) ks (head - leo k) m) ->
    exists tl head' k' trusty', Ok (ar, head, Z.of_nat k, trusty) =
      Ok (ar ++ tl, head', Z.of_nat k', trusty') /\
    (length tl <= length ks)%nat /\ (trusty' = true -> trusty = true /\ tl = []) /\
    lands k ks head x arr tl head' k' trusty').
  { intros Hn. exists [], head, k, trusty. rewrite app_nil_r. split; [done|]. split; [cbn; lia|].
    split; [done|]. apply lands_stop; try done; destruct Hi; lia. }
  cbn [trinkle_loop fst snd]. rewrite Z.eqb_refl, orb_false_r. rewrite enc_hd.
  destruct ks as [|k1 ks]; [by apply Hstop|].
  pose proof Hi as (Hk & Hk1 & Hi'). assert (Hin : incr k1 (k1 :: ks)) by (split; [lia|done]).
  pose proof (enc_pos (S k) k1 ks ltac:(by split)) as Hpos.
  rewrite (proj2 (Z.eqb_neq _ 1)) by lia. cbn [negb]. cbn [total] in Ht', Hg2.
  pose proof (leo_ge1 k1) as Hg3. pose proof (total_nonneg ks) as Hg4.
  rewrite Hlp by lia. cbn [mbind res_bind]. set (s := head - leo k) in *.
  rewrite (compare_el arr s head0) by lia. fold x. cbn [mbind res_bind].
  destruct (Z.leb_spec (cmp (el arr s) x) 0) as [C|C].
  { apply Hstop. intros m Hm _. eapply le_trans, Hm. done. }
  apply cmp_gt in C.
  destruct (trinkle_stops arr head k trusty s) as (stop & -> & Hs1 & Hs2); [done|lia..|].
  cbn [mbind res_bind]. destruct stop.
  { apply Hstop. intros m _ Hkid. by apply Hs1. }
  assert (Hkid : kid_le k (el arr) head (el arr s)).
  { destruct trusty; [|by apply Hs2]. eapply kid_le_trans; [by apply Htr|done]. }
  rewrite push_ok by (cbn in Har; lia). cbn [mbind res_bind]. rewrite <- enc_hd.
  rewrite pntz_enc by done. cbn [mbind res_bind]. rewrite shr_enc by done. cbn [mbind res_bind].
  replace (Z.of_nat k + (Z.of_nat k1 - Z.of_nat k)) with (Z.of_nat k1) by lia.
  cbn [forest chain length total] in *. destruct Hfo as [Hf1 Hf2], Hch as [Hc1 Hc2].
  destruct (IH k1 ks (ar ++ [s]) s false) as (tl & head' & k' & tr & -> & Htl & Htr' & Hland);
    try done; try lia.
  { rewrite length_app. cbn. lia. }
  { by apply heap_eq in Hf1 as [_ ?]. }
  assert (tr = false) as -> by (destruct tr; [by destruct Htr'|done]).
  exists (s :: tl), head', k', false. rewrite <- app_assoc. split; [done|]. split; [cbn; lia|].
  split; [done|]. apply lands_pass; try done; cbn [total]; try lia; by split.
Qed.

Lemma trinkle_spec arr head k ks trusty : lp_ok lp (len arr) -> incr k (k :: ks) ->
  total (k :: ks) = head + 1 -> head < len arr ->
  kids_heap k (el arr) head -> (trusty = true -> kid_le k (el arr) head (el arr head)) ->
  forest (el arr) ks (head - leo k) -> chain (el arr) ks (head - leo k) ->
  exists arr', trinkle cmp lp arr head (enc k (k :: ks), 0) (Z.of_nat k) trusty = Ok arr' /\
    rowed k ks head (el arr head) arr arr'.
Proof using HT.
  intros Hlp Hi Ht Hh Hkids Htr Hf Hc. pose proof Ht as Ht'. cbn [total] in Ht'.
  pose proof (leo_ge1 k) as Hg1. pose proof (total_nonneg ks) as Hg2.
  assert (Hlen : forall s l, incr s l -> (length l + s <= 62)%nat \/ l = []).
  { intros s l. revert s. induction l as [|a l IHl]; intros s; [by right|].
    intros [? Hl]. left. destruct (IHl _ Hl) as [?| ->]; cbn; lia. }
  assert (Hlen' : (length ks <= 62)%nat).
  { destruct Hi as [_ Hi]. destruct (Hlen _ _ Hi) as [?| ->]; cbn; lia. }
  unfold trinkle.
  destruct (trinkle_loop_spec arr head 129 k ks [head] head trusty)
    as (tl & head' & k' & tr & -> & Htl & Htr' & Hland); try done; try lia.
  { unfold AR_SIZE. cbn. lia. }
  cbn [mbind res_bind app]. specialize (Hland arr eq_refl ltac:(done)). destruct tr.
  - exists arr. split; [done|]. rewrite insert_el in Hland by lia. done.
  - destruct Hland as (arr2 & arr3 & Hrun & Hsift & Hrow).
    rewrite cycle_path by (unfold AR_SIZE; lia). rewrite Hrun. cbn [mbind res_bind].
    exists arr3. rewrite Hsift. done.
Qed.
End heaps.
