(* ===== verification/SmoothsortSpec.v ===== *)
(** * The sort sorts

    The two passes of [qsort] over the rows of [SmoothHeap], and with them
    the promise [QsortSpec] that the memory map relies on. *)

From S2P Require Import Prelude Utils Smoothsort SmoothsortFacts SmoothHeap.

Section passes.
Context {A : Type} (cmp : A -> A -> Z) `{HT : !TotalCmp cmp} (d : A).
#[local] Notation "a ⊑ b" := (cmp_le cmp a b) (at level 70).
#[local] Notation el := (el d).
#[local] Notation forest := (forest cmp).
#[local] Notation chain := (chain cmp).
#[local] Notation next_le := (next_le cmp).
#[local] Notation kids_heap := (kids_heap cmp).

(** ** The table of Leonardo numbers *)
Lemma get_leo i k : (k < i)%nat -> get (leo <$> seq 0 i) (Z.of_nat k) = Ok (leo k).
Proof using.
  intros Hk. unfold get, fetch. rewrite (proj2 (Z.leb_le 0 _)), Nat2Z.id by lia.
  by rewrite list_lookup_fmap, lookup_seq_lt by done.
Qed.

Lemma leonardo_loop_ok fuel i n : n <= 2 ^ 40 -> (2 <= i <= 59)%nat -> (60 <= fuel + i)%nat ->
  exists lp, leonardo_loop fuel (leo <$> seq 0 i) n = Ok lp /\ lp_ok lp n.
Proof using.
  intros Hn. revert i. induction fuel as [|fuel IH]; intros i Hi Hf; [lia|].
  cbn [leonardo_loop]. rewrite length_fmap, length_seq.
  replace (Z.of_nat i - 2) with (Z.of_nat (i - 2)) by lia.
  replace (Z.of_nat i - 1) with (Z.of_nat (i - 1)) by lia.
  rewrite !get_leo by lia. cbn [mbind res_bind]. rewrite (proj2 (Z.ltb_lt _ 96)) by lia.
  assert (E : leo (i - 2) + leo (i - 1) + 1 = leo i).
  { replace i with (S (S (i - 2))) at 3 by lia. rewrite leo_SS.
    replace (S (i - 2)) with (i - 1)%nat by lia. lia. }
  assert (El : (leo <$> seq 0 i) ++ [leo i] = leo <$> seq 0 (S i)).
  { by rewrite seq_S, fmap_app. }
  rewrite E, El. destruct (Z.ltb_spec (leo i) n) as [Hlt|Hge].
  - pose proof (leo_bound i ltac:(lia)). apply IH; lia.
  - eexists. split; [done|]. intros k Hk. apply get_leo.
    destruct (decide (k < S i)%nat) as [|Hki]; [done|]. pose proof (leo_mono i k ltac:(lia)). lia.
Qed.

(** ** The shape of a row

    The orders of a row grow by two at least, but for the last two trees. *)
Fixpoint gaps (s : nat) (ks : list nat) : Prop :=
  match ks with
  | [] => True
  | k :: ks' => (s <= k)%nat /\ gaps (S (S k)) ks'
  end.

Lemma gaps_weaken s s' ks : (s' <= s)%nat -> gaps s ks -> gaps s' ks.
Proof using. destruct ks; cbn; [done|]. intros ? [? ?]. split; [lia|done]. Qed.

Lemma incr_gaps s ks : gaps s ks -> total ks <= 2 ^ 40 -> incr s ks.
Proof using.
  revert s. induction ks as [|k ks IH]; intros s; cbn; [done|]. intros [H1 H2] Ht.
  pose proof (leo_ge1 k) as Hg1. pose proof (total_nonneg ks) as Hg2.
  pose proof (leo_bound k ltac:(lia)). split; [lia|].
  eapply incr_weaken, IH; [|exact H2|]; lia.
Qed.

(** A tree of order 0 is there only before one of order 1. *)
Definition shape0 (k : nat) (ks : list nat) : Prop :=
  k = O -> match ks with k1 :: _ => k1 = 1%nat | [] => False end.

(** ** The first pass *)
Section build.
Context (high : Z).

(** Trees no later one will swallow have their roots in order. *)
Fixpoint fchain (f : Z -> A) (ks : list nat) (h : Z) : Prop :=
  match ks with
  | [] => True
  | k :: ks' =>
    (high - h <= leo (k - 1) -> next_le f ks' (h - leo k) (f h)) /\ fchain f ks' (h - leo k)
  end.

Lemma chain_fchain f ks h : chain f ks h -> fchain f ks h.
Proof using.
  revert h. induction ks as [|k ks IH]; intros h; cbn [SmoothHeap.chain fchain]; [done|].
  intros [H1 H2]. split; [done|by apply IH].
Qed.

Lemma fchain_chain f s ks h : gaps (S s) ks -> high - h <= leo s -> fchain f ks h -> chain f ks h.
Proof using.
  revert s h. induction ks as [|k ks IH]; intros s h; cbn [SmoothHeap.chain fchain gaps]; [done|].
  intros [Hk Hg] Hh [H1 H2]. destruct k as [|k]; [lia|]. rewrite Nat.sub_1_r in H1. cbn [pred] in H1.
  pose proof (leo_mono s k ltac:(lia)). split; [apply H1; lia|].
  eapply (IH (S (S k))); [done| |done]. rewrite leo_SS. lia.
Qed.

Lemma fchain_ext f g ks h : (forall i, h + 1 - total ks <= i <= h -> f i = g i) ->
  fchain f ks h -> fchain g ks h.
Proof using.
  revert h. induction ks as [|k ks IH]; intros h H; cbn [fchain total] in *; [done|].
  pose proof (leo_ge1 k) as Hg1. pose proof (total_nonneg ks) as Hg2. intros [H1 H2].
  rewrite <- (H h) by lia. split.
  - intros Hk. eapply next_le_ext, H1, Hk. intros. apply H. lia.
  - eapply IH, H2. intros. apply H. lia.
Qed.

(** The state of the first pass: a row that ends at [head], all its trees
    heaps but for the last root. *)
Record building (arr0 arr : list A) (k : nat) (ks : list nat) (head : Z) : Prop := {
  bu_perm : arr ≡ₚ arr0;
  bu_gaps : gaps (S k) ks;
  bu_shape : shape0 k ks;
  bu_total : total (k :: ks) = head + 1;
  bu_kids : kids_heap k (el arr) head;
  bu_forest : forest (el arr) ks (head - leo k);
  bu_fchain : fchain (el arr) ks (head - leo k);
}.

Lemma settled_perm k head arr arr' : 0 <= head < len arr ->
  settled cmp d k head (el arr head) arr arr' -> arr' ≡ₚ arr.
Proof using.
  intros Hh Hs. pose proof (st_perm _ _ _ _ _ _ _ Hs) as Hp. by rewrite insert_el in Hp.
Qed.

Lemma settled_below k ks head x arr arr' : total (k :: ks) = head + 1 ->
  settled cmp d k head x arr arr' ->
  forall i, head - leo k + 1 - total ks <= i <= head - leo k -> el arr i = el arr' i.
Proof using.
  intros Ht Hs i Hi. cbn [total] in Ht. symmetry. apply (st_frame _ _ _ _ _ _ _ Hs); lia.
Qed.

Lemma land3_enc k ks : incr k (k :: ks) ->
  (Z.land (enc k (k :: ks)) 3 =? 3) = match ks with k1 :: _ => (k1 =? S k)%nat | [] => false end.
Proof using.
  intros [Hk Hi]. rewrite enc_hd. change 3 with (Z.ones 2) at 1. rewrite Z.land_ones by lia.
  change (2 ^ 2) with 4. destruct ks as [|k1 ks]; [done|]. destruct Hi as [Hk1 Hi].
  destruct (Nat.eqb_spec k1 (S k)) as [->|Hne].
  - rewrite enc_hd. apply Z.eqb_eq. div_lia.
  - rewrite enc_down1 by (split; [lia|done]). apply Z.eqb_neq. div_lia.
Qed.

(** The trees at [head] and before it become one. *)
Lemma building_merge arr0 arr arr' k ks head : 0 <= head < len arr ->
  building arr0 arr k (S k :: ks) head -> settled cmp d k head (el arr head) arr arr' ->
  building arr0 arr' (S (S k)) ks (head + 1).
Proof using.
  intros Hh [B1 B2 B3 B4 B5 B6 B7] Hs. pose proof (settled_below _ _ _ _ _ _ B4 Hs) as He.
  pose proof (settled_perm _ _ _ _ Hh Hs) as Hp. pose proof (st_heap _ _ _ _ _ _ _ Hs) as Hheap.
  cbn [gaps total SmoothHeap.forest fchain] in *.
  pose proof (leo_ge1 (S k)) as Hg1. pose proof (total_nonneg ks) as Hg2.
  destruct B2 as [_ B2], B6 as [B6 B6'], B7 as [_ B7]. pose proof (leo_SS k) as E.
  assert (Eh : head + 1 - leo (S (S k)) = head - leo k - leo (S k)) by lia.
  constructor; rewrite ?Eh; try done.
  - by rewrite Hp.
  - cbn [total]. lia.
  - cbn [SmoothHeap.kids_heap]. replace (head + 1 - 1) with head by lia.
    split; [done|]. eapply heap_ext, B6. intros. apply He. lia.
  - eapply forest_ext, B6'. intros. apply He. lia.
  - eapply fchain_ext, B7. intros. apply He. lia.
Qed.

(** A new tree of one element after a row of heaps. *)
Lemma building_new arr0 arr k' k ks head : (k' <= 1)%nat -> arr ≡ₚ arr0 ->
  gaps (S k') (k :: ks) -> shape0 k' (k :: ks) -> total (k :: ks) = head + 1 ->
  forest (el arr) (k :: ks) head -> fchain (el arr) (k :: ks) head ->
  building arr0 arr k' (k :: ks) (head + 1).
Proof using.
  intros Hk' Hp Hg Hs Ht Hf Hc. assert (E : leo k' = 1) by (destruct k' as [|[|]]; lia || done).
  assert (Eh : head + 1 - leo k' = head) by lia.
  constructor; rewrite ?Eh; try done.
  - cbn [total] in *. lia.
  - destruct k' as [|[|]]; [done..|lia].
Qed.

Context (lp : list Z) (n : Z) (Hlp : lp_ok lp n) (Hn : n <= 2 ^ 40) (Hhigh : high = n - 1).

(** The last tree becomes a heap; in order with the others, when nothing
    will swallow it. *)
Lemma build_tree arr0 arr k ks head : len arr = n -> 0 <= head < high -> k <> O ->
  gaps (S (S k)) ks -> building arr0 arr k ks head ->
  exists arr',
    (l ← get lp (Z.of_nat k - 1);
     if high - head <=? l then trinkle cmp lp arr head (enc k (k :: ks), 0) (Z.of_nat k) false
     else sift cmp lp arr head (Z.of_nat k)) = Ok arr' /\ arr' ≡ₚ arr /\
    forest (el arr') (k :: ks) head /\ fchain (el arr') (k :: ks) head.
Proof using HT Hlp Hn Hhigh.
  intros Hl Hh Hk Hgap [B1 B2 B3 B4 B5 B6 B7]. pose proof B4 as Ht. cbn [total] in Ht.
  destruct k as [|k]; [done|].
  pose proof (leo_ge1 (S k)) as Hg1. pose proof (total_nonneg ks) as Hg2.
  pose proof (leo_S k) as Hm.
  replace (Z.of_nat (S k) - 1) with (Z.of_nat k) by lia. rewrite Hlp by lia. cbn [mbind res_bind].
  pose proof (leo_bound (S k) ltac:(lia)) as Hb.
  rewrite <- Hl in Hlp. destruct (Z.leb_spec (high - head) (leo k)) as [Hfin|Hfin].
  - assert (Hch : chain (el arr) ks (head - leo (S k))).
    { eapply fchain_chain; [exact Hgap| |exact B7]. rewrite leo_SS. lia. }
    assert (Hi : incr (S k) (S k :: ks)).
    { split; [lia|]. apply incr_gaps; [done|lia]. }
    destruct (trinkle_spec cmp d lp arr head (S k) ks false) as (arr' & -> & [R1 R2 R3 R4 R5 R6]);
      try done; try lia.
    exists arr'. rewrite insert_el in R2 by lia. split; [done|]. split; [done|].
    split; [done|by apply chain_fchain].
  - destruct (sift_spec cmp d lp arr head (S k)) as (arr' & -> & Hs); try done; try lia.
    pose proof (settled_below _ _ _ _ _ _ B4 Hs) as He.
    exists arr'. split; [done|]. split; [eapply settled_perm; [|done]; lia|]. split.
    + split; [by eapply st_heap|]. by eapply forest_ext, B6.
    + split; [|by eapply fchain_ext, B7]. rewrite Nat.sub_1_r. cbn [pred]. lia.
Qed.

Lemma gaps_strict k ks : gaps (S k) ks ->
  match ks with k1 :: _ => (k1 =? S k)%nat | [] => false end = false -> gaps (S (S k)) ks.
Proof using.
  destruct ks as [|k1 ks]; cbn [gaps]; [done|]. intros [H1 H2] Hne.
  apply Nat.eqb_neq in Hne. split; [lia|done].
Qed.

Lemma building_incr arr0 arr k ks head : building arr0 arr k ks head -> head < n -> incr k (k :: ks).
Proof using Hn.
  intros B Hh. pose proof (bu_total _ _ _ _ _ B) as Ht. cbn [total] in Ht.
  pose proof (leo_ge1 k) as Hg1. pose proof (total_nonneg ks) as Hg2.
  pose proof (leo_bound k ltac:(lia)). split; [lia|]. apply incr_gaps; [|lia].
  by apply bu_gaps in B.
Qed.

(** One turn of the first pass. *)
Lemma build_step arr0 arr k ks head : len arr = n -> 0 <= head < high ->
  building arr0 arr k ks head ->
  exists arr' e k' ks',
    (if Z.land (enc k (k :: ks)) 3 =? 3 then
       arr ← sift cmp lp arr head (Z.of_nat k);
       p ← shr (enc k (k :: ks), 0) 2;
       Ok (arr, p, Z.of_nat k + 2)
     else
       l ← get lp (Z.of_nat k - 1);
       arr ← (if high - head <=? l then trinkle cmp lp arr head (enc k (k :: ks), 0) (Z.of_nat k) false
              else sift cmp lp arr head (Z.of_nat k));
       if Z.of_nat k =? 1 then p ← shl (enc k (k :: ks), 0) 1; Ok (arr, p, 0)
       else p ← shl (enc k (k :: ks), 0) (Z.of_nat k - 1); Ok (arr, p, 1)) = Ok (arr', (e, 0), Z.of_nat k') /\
    Z.lor e 1 = enc k' (k' :: ks') /\ building arr0 arr' k' ks' (head + 1).
Proof using HT Hlp Hn Hhigh.
  intros Hl Hh B. pose proof (building_incr _ _ _ _ _ B ltac:(lia)) as Hi.
  rewrite land3_enc by done.
  destruct (match ks with k1 :: _ => (k1 =? S k)%nat | [] => false end) eqn:E.
  - destruct ks as [|k1 ks]; [done|]. apply Nat.eqb_eq in E as ->.
    pose proof (bu_total _ _ _ _ _ B) as Ht. cbn [total] in Ht.
    pose proof (leo_ge1 k) as Hg0. pose proof (leo_ge1 (S k)) as Hg1.
    pose proof (total_nonneg ks) as Hg2. rewrite <- Hl in Hlp.
    destruct (sift_spec cmp d lp arr head k) as (arr' & -> & Hs); [done|lia|lia|destruct Hi; lia| |].
    { by apply bu_kids in B. }
    cbn [mbind res_bind]. rewrite shr_merge by done. cbn [mbind res_bind].
    exists arr', (enc (S (S k)) ks), (S (S k)), ks. split; [do 2 f_equal; lia|].
    split; [|apply (building_merge arr0 arr); done || lia]. apply lor1_enc.
    apply incr_gaps; [|lia]. by destruct (bu_gaps _ _ _ _ _ B) as [_ ?].
  - pose proof (gaps_strict _ _ (bu_gaps _ _ _ _ _ B) E) as Hg.
    assert (Hk0 : k <> O).
    { intros ->. pose proof (bu_shape _ _ _ _ _ B eq_refl) as Hs. destruct ks; [done|].
      subst. done. }
    destruct (build_tree arr0 arr k ks head) as (arr' & Hrun & Hp & Hf & Hc); try done.
    rewrite <- bind_assoc, Hrun. cbn [mbind res_bind].
    pose proof (bu_perm _ _ _ _ _ B) as Hp0. rewrite <- Hp in Hp0.
    pose proof (bu_total _ _ _ _ _ B) as Ht.
    destruct (Z.eqb_spec (Z.of_nat k) 1) as [E1|E1].
    + assert (k = 1%nat) as -> by lia.
      pose proof (shl_enc 1 0 (1%nat :: ks) ltac:(lia) ltac:(lia) Hi) as Hsh.
      change (Z.of_nat 1 - Z.of_nat 0) with 1 in Hsh. rewrite Hsh. cbn [mbind res_bind].
      exists arr', (enc 0 (1%nat :: ks)), O, (1%nat :: ks). split; [done|].
      split; [by apply lor1_enc|]. apply building_new; try done; try lia.
    + pose proof (shl_enc k 1 (k :: ks) ltac:(lia) ltac:(destruct Hi; lia) Hi) as Hsh.
      change (Z.of_nat 1) with 1 in Hsh. rewrite Hsh. cbn [mbind res_bind].
      exists arr', (enc 1 (k :: ks)), 1%nat, (k :: ks). split; [done|].
      split; [apply lor1_enc; destruct Hi; split; [lia|done]|].
      apply building_new; try done; try lia. split; [lia|done].
Qed.

Lemma building_len arr0 arr k ks head : building arr0 arr k ks head -> len arr = len arr0.
Proof using. intros B. unfold len. by rewrite (bu_perm _ _ _ _ _ B). Qed.

Lemma build_loop_ok arr0 fuel arr k ks head : len arr0 = n -> 0 <= head <= high ->
  high - head < Z.of_nat fuel -> building arr0 arr k ks head ->
  exists arr' k' ks', build_loop cmp lp fuel arr (enc k (k :: ks), 0) (Z.of_nat k) head high =
      Ok (arr', (enc k' (k' :: ks'), 0), Z.of_nat k') /\ building arr0 arr' k' ks' high.
Proof using HT Hlp Hn Hhigh.
  intros Hl. revert arr k ks head. induction fuel as [|fuel IH]; intros arr k ks head Hh Hf B; [lia|].
  cbn [build_loop fst snd]. destruct (Z.ltb_spec head high) as [Hlt|Hge].
  - destruct (build_step arr0 arr k ks head) as (arr' & e & k' & ks' & -> & He & B').
    { by rewrite (building_len _ _ _ _ _ B). } { lia. } { done. }
    cbn [mbind res_bind fst snd]. rewrite He. apply IH; [lia..|done].
  - exists arr, k, ks. split; [done|]. by replace head with high in B by lia.
Qed.
End build.

(** ** The second pass *)

(** The elements after [h] are in their places. *)
Definition tail_sorted (arr : list A) (h : Z) : Prop :=
  forall i j, 0 <= i < j -> h < j < len arr -> el arr i ⊑ el arr j.

Lemma tail_sorted_down arr h : (forall i, 0 <= i <= h -> el arr i ⊑ el arr h) ->
  tail_sorted arr h -> tail_sorted arr (h - 1).
Proof using.
  intros Hmax Hs i j Hij Hj. destruct (decide (j = h)) as [->|Hne]; [apply Hmax; lia|].
  apply Hs; lia.
Qed.

(** An array that differs by a permutation of the first [h+1] elements. *)
Lemma perm_prefix arr arr' h i : arr' ≡ₚ arr -> (forall j, h < j -> el arr' j = el arr j) ->
  h < len arr -> 0 <= i <= h -> exists i', 0 <= i' <= h /\ el arr' i = el arr i'.
Proof using.
  intros Hp He Hh Hi. set (m := Z.to_nat (h + 1)).
  pose proof (Permutation_length Hp) as Hlen. unfold len in Hh.
  assert (Hd : drop m arr' = drop m arr).
  { apply list_eq. intros j. rewrite !lookup_drop.
    destruct (decide (m + j < length arr)%nat) as [Hj|Hj].
    - specialize (He (Z.of_nat (m + j)) ltac:(lia)). unfold SmoothHeap.el in He.
      rewrite Nat2Z.id in He.
      destruct (lookup_lt_is_Some_2 arr (m + j) Hj) as [a Ha].
      destruct (lookup_lt_is_Some_2 arr' (m + j) ltac:(lia)) as [a' Ha'].
      rewrite Ha, Ha' in *. cbn in He. by subst.
    - rewrite !lookup_ge_None_2 by lia. done. }
  assert (Ht : take m arr' ≡ₚ take m arr).
  { apply (Permutation_app_inv_r (drop m arr)). rewrite take_drop. rewrite <- Hd at 1.
    by rewrite take_drop. }
  destruct (lookup_lt_is_Some_2 arr' (Z.to_nat i) ltac:(lia)) as [a Ha].
  assert (Hin : a ∈ take m arr).
  { rewrite <- Ht. apply list_elem_of_lookup. exists (Z.to_nat i). by rewrite lookup_take_lt by lia. }
  apply list_elem_of_lookup in Hin as [i' Hi']. apply lookup_take_Some in Hi' as [Hi' Hlt].
  exists (Z.of_nat i'). split; [lia|]. unfold SmoothHeap.el. by rewrite Nat2Z.id, Ha, Hi'.
Qed.

Lemma tail_sorted_perm arr arr' h : arr' ≡ₚ arr -> (forall j, h < j -> el arr' j = el arr j) ->
  h < len arr -> tail_sorted arr h -> tail_sorted arr' h.
Proof using.
  intros Hp He Hh Hs i j Hij Hj. assert (Hl : len arr' = len arr) by (unfold len; by rewrite Hp).
  rewrite (He j) by lia. destruct (decide (i <= h)) as [Hi|Hi].
  - destruct (perm_prefix arr arr' h i) as (i' & Hi' & ->); try done; try lia. apply Hs; lia.
  - rewrite (He i) by lia. apply Hs; lia.
Qed.

Lemma tail_sorted_all arr : tail_sorted arr 0 -> StronglySorted (cmp_le cmp) arr.
Proof using.
  assert (Hgen : forall l : list A, (forall i j a b, (i < j)%nat -> l !! i = Some a ->
    l !! j = Some b -> a ⊑ b) -> StronglySorted (cmp_le cmp) l).
  { induction l as [|a l IH]; intros H; constructor.
    - apply IH. intros i j x y Hij Hx Hy. apply (H (S i) (S j)); [lia|done..].
    - apply Forall_lookup. intros i x Hx. apply (H 0%nat (S i)); [lia|done..]. }
  intros Hs. apply Hgen. intros i j a b Hij Ha Hb. apply lookup_lt_Some in Hb as Hj.
  specialize (Hs (Z.of_nat i) (Z.of_nat j) ltac:(lia) ltac:(unfold len; lia)).
  unfold SmoothHeap.el in Hs. by rewrite !Nat2Z.id, Ha, Hb in Hs.
Qed.

(** The state of the second pass. *)
Record draining (arr0 arr : list A) (k : nat) (ks : list nat) (head : Z) : Prop := {
  dr_perm : arr ≡ₚ arr0;
  dr_incr : incr k (k :: ks);
  dr_shape : shape0 k ks;
  dr_total : total (k :: ks) = head + 1;
  dr_forest : forest (el arr) (k :: ks) head;
  dr_chain : chain (el arr) (k :: ks) head;
  dr_tail : tail_sorted arr head;
}.

Context (lp : list Z) (n : Z) (Hlp : lp_ok lp n) (Hn : n <= 2 ^ 40).

Lemma draining_max arr0 arr k ks head i : draining arr0 arr k ks head -> 0 <= i <= head ->
  el arr i ⊑ el arr head.
Proof using HT.
  intros D Hi. pose proof (dr_total _ _ _ _ _ D).
  apply (row_max cmp (el arr) (k :: ks)); [apply D..|lia].
Qed.

(** A tree of one element is taken off. *)
Lemma drain_single arr0 arr k k1 ks head : (k <= 1)%nat -> draining arr0 arr k (k1 :: ks) head ->
  draining arr0 arr k1 ks (head - 1).
Proof using HT.
  intros Hk D. pose proof (tail_sorted_down arr head ltac:(intros; by eapply draining_max)) as Hs.
  destruct D as [D1 [D2 [D2' D2'']] D3 D4 D5 D6 D7]. cbn [total] in D4.
  assert (E : leo k = 1) by (destruct k as [|[|]]; lia || done).
  cbn [SmoothHeap.forest SmoothHeap.chain] in D5, D6. rewrite E in *.
  destruct D5 as [_ D5], D6 as [_ D6].
  constructor; [done| | |cbn [total]; lia|done|done|by apply Hs].
  - split; [lia|done].
  - intros ->. lia.
Qed.

(** The root of a larger tree is taken off and its two trees join the row. *)
Lemma drain_split arr0 arr j ks head : len arr = n -> head < n ->
  draining arr0 arr (S (S j)) ks head ->
  exists arr1 arr2,
    trinkle cmp lp arr (head - leo j - 1) (enc (S j) (S j :: ks), 0) (Z.of_nat (S j)) true = Ok arr1 /\
    trinkle cmp lp arr1 (head - 1) (enc j (j :: S j :: ks), 0) (Z.of_nat j) true = Ok arr2 /\
    draining arr0 arr2 j (S j :: ks) (head - 1).
Proof using HT Hlp.
  intros Hl Hh D. pose proof (tail_sorted_down arr head ltac:(intros; by eapply draining_max)) as Hs.
  destruct D as [D1 [D2 D2'] D3 D4 D5 D6 D7].
  cbn [total SmoothHeap.forest SmoothHeap.chain] in D4, D5, D6. rewrite leo_SS in *.
  destruct D5 as [D5 D5'], D6 as [_ D6]. rewrite heap_SS in D5. destruct D5 as (_ & Hr & Hlf).
  pose proof (leo_ge1 j) as Hg1. pose proof (leo_ge1 (S j)) as Hg2.
  pose proof (total_nonneg ks) as Hg3.
  replace (head - leo j - 1) with (head - 1 - leo j) by lia.
  assert (Eh : head - 1 - leo j - leo (S j) = head - (leo (S j) + leo j + 1)) by lia.
  assert (Hi1 : incr (S j) (S j :: ks)) by (split; [lia|eapply incr_weaken, D2'; lia]).
  assert (Hi2 : incr j (j :: S j :: ks)) by (split; [lia|done]).
  apply heap_eq in Hlf as [Hlf1 Hlf2].
  destruct (trinkle_spec cmp d lp arr (head - 1 - leo j) (S j) ks true)
    as (arr1 & Hrun1 & [R1 R2 R3 R4 R5 _]); rewrite ?Eh, ?Hl; try done; cbn [total]; try lia.
  rewrite insert_el in R2 by lia.
  assert (Hr1 : heap cmp j (el arr1) (head - 1)).
  { eapply heap_ext, Hr. intros. symmetry. apply R3. lia. }
  apply heap_eq in Hr1 as [Hr1 Hr2].
  destruct (trinkle_spec cmp d lp arr1 (head - 1) j (S j :: ks) true)
    as (arr2 & Hrun2 & [T1 T2 T3 T4 T5 _]); rewrite ?R1, ?Hl; try done; cbn [total]; try lia.
  rewrite insert_el in T2 by lia.
  exists arr1, arr2. split; [done|]. split; [done|].
  constructor; try done.
  - by rewrite T2, R2.
  - by intros ->.
  - cbn [total]. lia.
  - eapply (tail_sorted_perm arr); [by rewrite T2, R2| |lia|by apply Hs].
    intros i Hi. rewrite T3, R3 by lia. done.
Qed.

Lemma draining_len arr0 arr k ks head : draining arr0 arr k ks head -> len arr = len arr0.
Proof using. intros D. unfold len. by rewrite (dr_perm _ _ _ _ _ D). Qed.

Lemma drain_loop_ok arr0 fuel arr k ks head : len arr0 = n -> head < n ->
  head < Z.of_nat fuel -> draining arr0 arr k ks head ->
  exists arr', drain_loop cmp lp fuel arr (enc k (k :: ks), 0) (Z.of_nat k) head = Ok arr' /\
    arr' ≡ₚ arr0 /\ StronglySorted (cmp_le cmp) arr'.
Proof using HT Hlp.
  intros Hl. revert arr k ks head. induction fuel as [|fuel IH]; intros arr k ks head Hh Hf D;
    pose proof (dr_total _ _ _ _ _ D) as Ht; cbn [total] in Ht;
    pose proof (leo_ge1 k) as Hg1; pose proof (total_nonneg ks) as Hg2; [lia|].
  cbn [drain_loop fst snd]. rewrite orb_false_r. pose proof (dr_incr _ _ _ _ _ D) as Hi.
  destruct k as [|[|j]].
  - pose proof (dr_shape _ _ _ _ _ D eq_refl) as Hs. destruct ks as [|k1 ks]; [done|subst k1].
    change (Z.of_nat 0) with 0. cbn [Z.eqb negb orb Z.leb Z.compare]. rewrite pntz_enc by done.
    cbn [mbind res_bind]. rewrite shr_enc by done. cbn [mbind res_bind].
    apply (IH arr 1%nat); [lia..|]. by eapply (drain_single _ _ 0); [lia|].
  - change (Z.of_nat 1) with 1. cbn [Z.eqb Pos.eqb negb orb Z.leb Z.compare Pos.compare Pos.compare_cont].
    destruct ks as [|k1 ks].
    + rewrite enc_hd. cbn [enc Z.mul Z.add Z.eqb Pos.eqb negb].
      exists arr. split; [done|]. split; [apply D|]. apply tail_sorted_all.
      replace 0 with head by (cbn in Ht; lia). apply D.
    + rewrite enc_hd. pose proof (enc_pos 2 k1 ks ltac:(by destruct Hi)) as Hp.
      rewrite (proj2 (Z.eqb_neq _ 1)) by lia. cbn [negb]. rewrite <- enc_hd.
      pose proof (shr_enc 1 k1 ks Hi) as Hsh. change (Z.of_nat 1) with 1 in Hsh.
      rewrite pntz_enc by done. cbn [mbind res_bind]. change (Z.of_nat 1) with 1.
      rewrite Hsh. cbn [mbind res_bind].
      replace (1 + (Z.of_nat k1 - 1)) with (Z.of_nat k1) by lia.
      apply IH; [lia..|]. by eapply (drain_single _ _ 1); [lia|].
  - rewrite (proj2 (Z.eqb_neq (Z.of_nat (S (S j))) 1)), (proj2 (Z.leb_gt (Z.of_nat (S (S j))) 1)) by lia.
    cbn [negb orb]. destruct (split_enc j ks Hi) as (-> & E2 & E3 & E4).
    cbn [mbind res_bind fst snd]. rewrite E2. cbn [mbind res_bind].
    replace (Z.of_nat (S (S j)) - 2) with (Z.of_nat j) by lia.
    pose proof (leo_SS j). pose proof (leo_ge1 (S j)).
    rewrite Hlp by lia. cbn [mbind res_bind].
    destruct (drain_split arr0 arr j ks head) as (arr1 & arr2 & H1 & H2 & D').
    { by rewrite (draining_len _ _ _ _ _ D). } { done. } { done. }
    replace (Z.of_nat j + 1) with (Z.of_nat (S j)) by lia. rewrite H1. cbn [mbind res_bind].
    rewrite E3. cbn [mbind res_bind fst snd]. rewrite E4, H2. cbn [mbind res_bind].
    apply IH; [lia..|done].
Qed.
End passes.

(** ** The sort *)

Lemma smoothsort_sorts {A} (cmp : A -> A -> Z) (arr : list A) :
  TotalCmp cmp -> Z.of_nat (length arr) <= 2 ^ 40 ->
  exists arr', smoothsort cmp arr = Ok arr' /\ arr' ≡ₚ arr /\ StronglySorted (cmp_le cmp) arr'.
Proof.
  intros HT Hn. unfold smoothsort. destruct arr as [|d arr0]; [by exists []; repeat constructor|].
  set (arr := d :: arr0) in *. set (n := Z.of_nat (length arr)) in *.
  assert (Hpos : 1 <= n) by (unfold n, arr; cbn [length]; lia).
  rewrite (proj2 (Z.eqb_neq n 0)) by lia.
  destruct (leonardo_loop_ok 96 2 n) as (lp & Hlp & Hok); [done|lia|lia|].
  change (leo <$> seq 0 2) with [1; 1] in Hlp. rewrite Hlp. cbn [mbind res_bind].
  assert (B0 : building cmp d (n - 1) arr arr 1 [] 0) by (by constructor).
  destruct (build_loop_ok cmp d (n - 1) lp n Hok Hn eq_refl arr (S (length arr)) arr 1 [] 0)
    as (arr1 & k & ks & Hrun & B); [done|lia|unfold n; lia|done|].
  change (enc 1 [1%nat], 0) with (1, 0) in Hrun. change (Z.of_nat 1) with 1 in Hrun.
  rewrite Hrun. cbn [mbind res_bind].
  pose proof (building_len _ _ _ _ _ _ _ _ B) as Hl. pose proof (bu_total _ _ _ _ _ _ _ _ B) as Ht.
  pose proof (building_incr cmp d (n - 1) n Hn arr arr1 k ks (n - 1) B ltac:(lia)) as Hi.
  change (len arr) with n in Hl. cbn [total] in Ht. destruct B as [B1 B2 B3 B4 B5 B6 B7].
  destruct (trinkle_spec cmp d lp arr1 (n - 1) k ks false) as (arr2 & -> & [R1 R2 R3 R4 R5 _]);
    rewrite ?Hl; try done; try lia.
  { eapply fchain_chain; [exact B2| |exact B7]. lia. }
  pose proof (leo_ge1 k) as Hg1. pose proof (total_nonneg ks) as Hg2.
  cbn [mbind res_bind]. rewrite insert_el in R2 by lia.
  apply (drain_loop_ok cmp d lp n Hok arr); [done|lia|unfold len in *; lia|].
  constructor; try done; [by rewrite R2|].
  intros i j Hij Hj. rewrite R1, Hl in Hj. lia.
Qed.

(** The interface the memory map is proved against. *)
#[export] Instance utils_qsort_spec : QsortSpec utils_qsort.
Proof. intros A cmp HT l. by apply smoothsort_sorts. Qed.

(** C4.  [qsort] of [utils.c] sorts: for every total comparison and every
    array of at most [2^40] elements the call returns (no loop runs for
    ever, no shift is undefined, no access leaves the array, the table of
    Leonardo numbers or the list of places), and the array then holds the
    same elements in ascending order: the same array as every other sort,
    when equal elements are identical. *)
Theorem smoothsort_correct {A} (cmp : A -> A -> Z) (arr : list A) :
  TotalCmp cmp -> Z.of_nat (length arr) <= 2 ^ 40 ->
  exists arr', smoothsort cmp arr = Ok arr' /\ arr' ≡ₚ arr /\
    StronglySorted (cmp_le cmp) arr' /\
    ((forall a b, cmp a b = 0 -> a = b) -> arr' = merge_sort (cmp_le cmp) arr).
Proof.
  intros HT Hn. destruct (smoothsort_sorts cmp arr HT Hn) as (arr' & -> & Hp & Hs).
  exists arr'. split; [done|]. split; [done|]. split; [done|]. intros Hanti.
  assert (Htot : Total (cmp_le cmp)) by (intros a b; apply (cmp_total a b)).
  assert (Htr : Transitive (cmp_le cmp)) by (intros a b c; apply (cmp_trans a b c)).
  assert (Has : AntiSymm (=) (cmp_le cmp)).
  { intros a b Hab Hba. apply Hanti. pose proof (cmp_opp a b). unfold cmp_le in *. lia. }
  apply (StronglySorted_unique (cmp_le cmp)); [done| |by rewrite Hp, merge_sort_Permutation].
  apply Sorted_StronglySorted; [done|]. by apply Sorted_merge_sort.
Qed.

#[export] Instance Zsub_total : TotalCmp Z.sub.
Proof.
  constructor; unfold cmp_le; intros; lia.
Qed.

Lemma smoothsort_correct_witness :
  exists arr', smoothsort Z.sub [5; 3; 9; 1; 7; 2; 8; 8; 0; 4; 6; 3] = Ok arr' /\
    arr' ≡ₚ [5; 3; 9; 1; 7; 2; 8; 8; 0; 4; 6; 3] /\ StronglySorted (cmp_le Z.sub) arr' /\
    ((forall a b, a - b = 0 -> a = b) ->
      arr' = merge_sort (cmp_le Z.sub) [5; 3; 9; 1; 7; 2; 8; 8; 0; 4; 6; 3]).
Proof. apply smoothsort_correct; [exact Zsub_total|vm_compute; discriminate]. Defined.
