(* ===== verification/Alloc.v ===== *)
(** * The memory allocator ([runtime/src/mm/malloc.c], [mmap.c], [munmap.c], [mremap.c], [madvise.c])

    [malloc], [realloc] and [free] as the code performs them: on the words of
    the memory, with the headers of the chunks, the circular lists of the bins
    and the map of the bins in place.  Memory gives the 64-bit word at a
    byte address that is a multiple of eight, and nothing where no page is
    mapped; to read or write there is a fault.  The chunks lie at multiples
    of sixteen, so no access of the code straddles two words.  The kernel is a
    parameter. *)

From S2P Require Import Prelude Smoothsort.

(** ** The kernel

    The answers of the four system calls, given the mappings there are (pairs
    of an address and a length): an address or a code, or a negative error. *)
Class Kernel : Type := {
  sys_mmap : list (Z * Z) -> Z -> Z;
  sys_munmap : list (Z * Z) -> Z -> Z -> Z;
  sys_mremap : list (Z * Z) -> Z -> Z -> Z -> Z;
  sys_madvise : list (Z * Z) -> Z -> Z -> Z;
}.

(** Two ranges that share no byte. *)
Definition apart (r1 r2 : Z * Z) : Prop := r1.1 + r1.2 <= r2.1 \/ r2.1 + r2.2 <= r1.1.

(** A new mapping is a range of pages that touches none of the old ones, in
    the lower half of the address space; a moved one may overlap itself. *)
Definition fresh_range (maps : list (Z * Z)) (a len : Z) : Prop :=
  0 < a /\ a mod 4096 = 0 /\ a + len <= 2 ^ 47 /\ Forall (apart (a, len)) maps.

Class KernelSpec (K : Kernel) : Prop := {
  mmap_spec : forall maps len, 0 < len ->
    - 4096 < sys_mmap maps len < 0 \/ fresh_range maps (sys_mmap maps len) len;
  mremap_spec : forall maps a old len, 0 < len -> (a, old) ∈ maps ->
    - 4096 < sys_mremap maps a old len < 0 \/
    fresh_range (filter (fun r => r <> (a, old)) maps) (sys_mremap maps a old len) len;
}.

(** ** The state

    [mal], [errn] and the [init] of [init_malloc], the memory, and the kernel's
    table of mappings.  The bins of [mal] are in the memory, at [mal_bins]. *)
Record state : Type := State {
  memory : Z -> option Z;
  brk : Z;
  heap : Z;
  binmap : Z;
  brk0 : Z;
  init : bool;
  errn : Z;
  maps : list (Z * Z);
}.

Definition set_memory (f : (Z -> option Z) -> Z -> option Z) (s : state) : state :=
  State (f (memory s)) (brk s) (heap s) (binmap s) (brk0 s) (init s) (errn s) (maps s).
Definition set_brk (v : Z) (s : state) : state :=
  State (memory s) v (heap s) (binmap s) (brk0 s) (init s) (errn s) (maps s).
Definition set_heap (v : Z) (s : state) : state :=
  State (memory s) (brk s) v (binmap s) (brk0 s) (init s) (errn s) (maps s).
Definition set_binmap (v : Z) (s : state) : state :=
  State (memory s) (brk s) (heap s) v (brk0 s) (init s) (errn s) (maps s).
Definition set_brk0 (v : Z) (s : state) : state :=
  State (memory s) (brk s) (heap s) (binmap s) v (init s) (errn s) (maps s).
Definition set_init (v : bool) (s : state) : state :=
  State (memory s) (brk s) (heap s) (binmap s) (brk0 s) v (errn s) (maps s).
Definition set_errn (v : Z) (s : state) : state :=
  State (memory s) (brk s) (heap s) (binmap s) (brk0 s) (init s) v (maps s).
Definition set_maps (v : list (Z * Z)) (s : state) : state :=
  State (memory s) (brk s) (heap s) (binmap s) (brk0 s) (init s) (errn s) v.

(** ** Programs on the state *)
Definition M (A : Type) : Type := state -> res (A * state).
#[export] Instance M_ret : MRet M := fun A a s => Ok (a, s).
#[export] Instance M_bind : MBind M := fun A B f m s => '(a, s) ← m s; f a s.

Definition gets {A} (f : state -> A) : M A := fun s => Ok (f s, s).
Definition modify (f : state -> state) : M unit := fun s => Ok (tt, f s).
Definition lift {A} (m : res A) : M A := fun s => a ← m; Ok (a, s).
(** [a_crash]: the instruction [hlt]. *)
Definition a_crash {A} : M A := fun _ => Exit.
Definition no_fuel {A} : M A := fun _ => NoFuel.

Definition upd (a v : Z) (m : Z -> option Z) : Z -> option Z :=
  fun x => if x =? a then Some v else m x.

Definition rd (a : Z) : M Z := fun s =>
  match memory s a with Some v => Ok (v, s) | None => Fault end.
Definition wr (a v : Z) : M unit := fun s =>
  match memory s a with Some _ => Ok (tt, set_memory (upd a v) s) | None => Fault end.

(** The words of a range. *)
Definition within (a len x : Z) : bool := (a <=? x) && (x <? a + len) && (x mod 8 =? 0).
Definition zero_words (a len : Z) (m : Z -> option Z) : Z -> option Z :=
  fun x => if within a len x then Some 0 else m x.
Definition no_words (a len : Z) (m : Z -> option Z) : Z -> option Z :=
  fun x => if within a len x then None else m x.
Definition move_words (a old b len : Z) (m : Z -> option Z) : Z -> option Z :=
  fun x => if within b len x then (if x - b <? old then m (a + (x - b)) else Some 0)
           else no_words a old m x.

(** ** Constants *)
Definition SIZE_MAX : Z := 2 ^ 64 - 1.
Definition PTRDIFF_MAX : Z := 2 ^ 63 - 1.
Definition ENOMEM : Z := 12.
Definition BRKSIZE : Z := 0x40000000.
Definition SIZE_ALIGN : Z := 32.
Definition OVERHEAD : Z := 16.
Definition MMAP_THRESHOLD : Z := 0x1c00 * SIZE_ALIGN.
Definition DONTCARE : Z := 16.
Definition RECLAIM : Z := 163840.
Definition C_INUSE : Z := 1.
Definition MAP_FAILED : Z := u64 (-1).

(** ** The wrappers of the system calls *)
Section wrappers.
Context `{K : Kernel}.

Definition mmap (len : Z) : M Z :=
  ms ← gets maps;
  let rs := sys_mmap ms len in
  if rs <? 0 then modify (set_errn (- rs));; mret MAP_FAILED
  else modify (fun s => set_maps ((rs, len) :: ms) (set_memory (zero_words rs len) s));; mret rs.

Definition munmap (start len : Z) : M Z :=
  ms ← gets maps;
  let rc := sys_munmap ms start len in
  if rc <? 0 then modify (set_errn (- rc));; mret (-1)
  else modify (fun s => set_maps (filter (fun r => r <> (start, len)) ms)
                          (set_memory (no_words start len) s));; mret rc.

Definition mremap (old_addr old_len new_len : Z) : M Z :=
  ms ← gets maps;
  let rc := sys_mremap ms old_addr old_len new_len in
  if rc <? 0 then modify (set_errn (- rc));; mret MAP_FAILED
  else modify (fun s => set_maps ((rc, new_len) :: filter (fun r => r <> (old_addr, old_len)) ms)
                          (set_memory (move_words old_addr old_len rc new_len) s));; mret rc.

(** With [MADV_DONTNEED] the pages read as zeros afterwards. *)
Definition madvise (addr len : Z) : M Z :=
  ms ← gets maps;
  let rc := sys_madvise ms addr len in
  if rc <? 0 then modify (set_errn (- rc));; mret (-1)
  else modify (set_memory (zero_words addr len));; mret rc.

End wrappers.

(** ** Chunks: the offsets of [struct chunk] *)
Definition psize (c : Z) : Z := c.
Definition csize (c : Z) : Z := c + 8.
Definition next (c : Z) : Z := c + 16.
Definition prev (c : Z) : Z := c + 24.

Definition even (w : Z) : Z := Z.land w (-2).
Definition used (w : Z) : bool := negb (Z.land w C_INUSE =? 0).
Definition CHUNK_SIZE (c : Z) : M Z := w ← rd (csize c); mret (even w).
Definition CHUNK_PSIZE (c : Z) : M Z := w ← rd (psize c); mret (even w).
Definition PREV_CHUNK (c : Z) : M Z := n ← CHUNK_PSIZE c; mret (c - n).
Definition NEXT_CHUNK (c : Z) : M Z := n ← CHUNK_SIZE c; mret (c + n).
Definition MEM_TO_CHUNK (p : Z) : Z := p - OVERHEAD.
Definition CHUNK_TO_MEM (c : Z) : Z := c + OVERHEAD.
Definition IS_MMAPPED (c : Z) : M bool := w ← rd (csize c); mret (Z.land w C_INUSE =? 0).

(** ** Bins *)

(** The bits of the [float] nearest to a positive integer, ties to even. *)
Definition float_bits (x : Z) : Z :=
  let e := Z.log2 x in
  let m := if e <=? 23 then Z.shiftl x (23 - e)
           else let q := Z.shiftr x (e - 23) in
                let r := x - Z.shiftl q (e - 23) in
                let h := Z.shiftl 1 (e - 24) in
                if (h <? r) || ((r =? h) && Z.odd q) then q + 1 else q in
  Z.shiftl (127 + e) 23 + (m - 2 ^ 23).

Definition bin_index (x : Z) : Z :=
  let x := u64 (x / SIZE_ALIGN - 1) in
  if x <=? 32 then x
  else if 0x1c00 <? x then 63
  else Z.shiftr (float_bits x) 21 - 496.

Definition bin_index_up (x : Z) : Z :=
  let x := u64 (x / SIZE_ALIGN - 1) in
  if x <=? 32 then x
  else Z.shiftr (float_bits x + 0x1fffff) 21 - 496.

Definition a_ctz_64 (x : Z) : res Z := a_ctz_l x.
Definition first_set (x : Z) : M Z := lift (a_ctz_64 x).

(** Rounds of each retry loop; a round is repeated only when another thread
    interferes, except in [free] and [malloc], where two suffice. *)
Definition rounds : nat := 4.

(** The address of [mal.bins]: each bin is two [int]s and the two ends of its list. *)
Class Statics : Type := mal_bins : Z.

Section alloc.
Context `{K : Kernel} `{B : Statics}.

Definition bin_head (i : Z) : Z := mal_bins + 24 * i + 8.
Definition bin_tail (i : Z) : Z := mal_bins + 24 * i + 16.
(** The bin seen as a chunk: its [next] is [head] and its [prev] is [tail]. *)
Definition BIN_TO_CHUNK (i : Z) : Z := MEM_TO_CHUNK (bin_head i).

Definition lock_bin (i : Z) : M unit :=
  h ← rd (bin_head i);
  if h =? 0 then wr (bin_tail i) (BIN_TO_CHUNK i);; wr (bin_head i) (BIN_TO_CHUNK i)
  else mret tt.

(** ** The heap *)
Definition expand_heap (n : Z) : M Z :=
  b ← gets brk;
  b0 ← gets brk0;
  if u64 (SIZE_MAX - b - 2 * PAGE_SIZE) <? n then modify (set_errn ENOMEM);; mret 0 else
  let new := Z.land (u64 (b + n + SIZE_ALIGN + PAGE_SIZE - 1)) (- PAGE_SIZE) in
  let n := u64 (new - b) in
  if u64 (b0 + BRKSIZE) <? new then modify (set_errn ENOMEM);; mret 0 else
  let w := MEM_TO_CHUNK new in
  wr (psize w) (Z.lor n C_INUSE);;
  wr (csize w) (Z.lor 0 C_INUSE);;
  let w := MEM_TO_CHUNK b in
  wr (csize w) (Z.lor n C_INUSE);;
  modify (set_brk new);;
  mret w.

(** The result, and [*n] afterwards. *)
Definition adjust_size (n : Z) : M (Z * Z) :=
  if PTRDIFF_MAX - SIZE_ALIGN - PAGE_SIZE <? u64 (n - 1) then
    if negb (n =? 0) then modify (set_errn ENOMEM);; mret (-1, n)
    else mret (0, SIZE_ALIGN)
  else mret (0, Z.land (u64 (n + OVERHEAD + SIZE_ALIGN - 1)) (- SIZE_ALIGN)).

Definition unbin (c i : Z) : M unit :=
  p ← rd (prev c);
  n ← rd (next c);
  (if p =? n then modify (fun s => set_binmap (Z.land (binmap s) (Z.lnot (Z.shiftl 1 i))) s)
   else mret tt);;
  p ← rd (prev c); n ← rd (next c); wr (next p) n;;
  n ← rd (next c); p ← rd (prev c); wr (prev n) p;;
  w ← rd (csize c); wr (csize c) (Z.lor w C_INUSE);;
  x ← NEXT_CHUNK c;
  w ← rd (psize x); wr (psize x) (Z.lor w C_INUSE).

Fixpoint alloc_fwd_loop (fuel : nat) (c : Z) : M bool :=
  match fuel with
  | O => no_fuel
  | S fuel' =>
    k ← rd (csize c);
    if used k then mret false else
    let i := bin_index k in
    lock_bin i;;
    k' ← rd (csize c);
    if k' =? k then unbin c i;; mret true
    else alloc_fwd_loop fuel' c
  end.
Definition alloc_fwd (c : Z) : M bool := alloc_fwd_loop rounds c.

Fixpoint alloc_rev_loop (fuel : nat) (c : Z) : M bool :=
  match fuel with
  | O => no_fuel
  | S fuel' =>
    k ← rd (psize c);
    if used k then mret false else
    let i := bin_index k in
    lock_bin i;;
    k' ← rd (psize c);
    if k' =? k then p ← PREV_CHUNK c; unbin p i;; mret true
    else alloc_rev_loop fuel' c
  end.
Definition alloc_rev (c : Z) : M bool := alloc_rev_loop rounds c.

(** ** [free] *)

(** The test that decides to give the pages of a merged chunk back. *)
Definition reclaims (new_size size : Z) : bool :=
  (RECLAIM <? u64 (new_size + size)) && (size <? Z.lxor (u64 (new_size + size)) size).

(** Both neighbours are in use. *)
Definition enclosed (self nxt : Z) : M bool :=
  p ← rd (psize self); c ← rd (csize nxt); mret (used (Z.land p c)).

Definition reclaim_pages (self nxt : Z) : M unit :=
  let a := Z.land (u64 (self + SIZE_ALIGN + PAGE_SIZE - 1)) (- PAGE_SIZE) in
  let b := Z.land (u64 (nxt - SIZE_ALIGN)) (- PAGE_SIZE) in
  madvise a (u64 (b - a));; mret tt.

(** The result is [self], [next], [final_size] and the locked bin [i]. *)
Fixpoint free_loop (fuel : nat) (new_size self nxt final_size : Z) (reclaim : bool) :
    M (Z * Z * Z * Z) :=
  match fuel with
  | O => no_fuel
  | S fuel' =>
    e ← enclosed self nxt;
    (if reclaim && (e : bool) then reclaim_pages self nxt else mret tt);;
    e ← enclosed self nxt;
    let i := bin_index final_size in
    stop ← (if (e : bool) then
        wr (csize self) (Z.lor final_size C_INUSE);;
        wr (psize nxt) (Z.lor final_size C_INUSE);;
        lock_bin i;;
        enclosed self nxt
      else mret false);
    if (stop : bool) then mret (self, nxt, final_size, i) else
    r ← alloc_rev self;
    '(self, final_size, reclaim) ← (if (r : bool) then
        self ← PREV_CHUNK self;
        size ← CHUNK_SIZE self;
        mret (self, u64 (final_size + size), reclaim || reclaims new_size size)
      else mret (self, final_size, reclaim));
    f ← alloc_fwd nxt;
    '(nxt, final_size, reclaim) ← (if (f : bool) then
        size ← CHUNK_SIZE nxt;
        x ← NEXT_CHUNK nxt;
        mret (x, u64 (final_size + size), reclaim || reclaims new_size size)
      else mret (nxt, final_size, reclaim));
    free_loop fuel' new_size self nxt final_size reclaim
  end.

(** The end of [free]: the chunk becomes free, and the last of its bin. *)
Definition rebin (self nxt final_size i : Z) : M unit :=
  wr (csize self) final_size;;
  wr (psize nxt) final_size;;
  wr (next self) (BIN_TO_CHUNK i);;
  t ← rd (bin_tail i);
  wr (prev self) t;;
  n ← rd (next self); wr (prev n) self;;
  q ← rd (prev self); wr (next q) self;;
  m ← gets binmap;
  if Z.land m (Z.shiftl 1 i) =? 0 then modify (set_binmap (Z.lor m (Z.shiftl 1 i)))
  else mret tt.

Definition free (p : Z) : M unit :=
  let self := MEM_TO_CHUNK p in
  if p =? 0 then mret tt else
  m ← IS_MMAPPED self;
  if (m : bool) then
    extra ← rd (psize self);
    let base := self - extra in
    n ← CHUNK_SIZE self;
    let len := u64 (n + extra) in
    if negb (Z.land extra 1 =? 0) then a_crash else
    munmap base len;; mret tt
  else
  new_size ← CHUNK_SIZE self;
  nxt ← NEXT_CHUNK self;
  f ← rd (psize nxt);
  w ← rd (csize self);
  if negb (f =? w) then a_crash else
  '(self, nxt, final_size, i) ← free_loop rounds new_size self nxt new_size false;
  rebin self nxt final_size i.

(** ** [malloc] *)

(** Cut a chunk off the front of a free one that stays in its bin. *)
Definition pretrim (self n i j : Z) : M bool :=
  if j <? 40 then mret false else
  n1 ← CHUNK_SIZE self;
  if (j <? i + 3) && (negb (j =? 63) || (u64 (n1 - n) <=? MMAP_THRESHOLD)) then mret false else
  if negb (bin_index (u64 (n1 - n)) =? j) then mret false else
  nxt ← NEXT_CHUNK self;
  let split := self + n in
  v ← rd (prev self); wr (prev split) v;;
  v ← rd (next self); wr (next split) v;;
  q ← rd (prev split); wr (next q) split;;
  q ← rd (next split); wr (prev q) split;;
  wr (psize split) (Z.lor n C_INUSE);;
  wr (csize split) (u64 (n1 - n));;
  wr (psize nxt) (u64 (n1 - n));;
  wr (csize self) (Z.lor n C_INUSE);;
  mret true.

Definition trim (self n : Z) : M unit :=
  n1 ← CHUNK_SIZE self;
  if u64 (n1 - DONTCARE) <=? n then mret tt else
  nxt ← NEXT_CHUNK self;
  let split := self + n in
  wr (psize split) (Z.lor n C_INUSE);;
  wr (csize split) (Z.lor (u64 (n1 - n)) C_INUSE);;
  wr (psize nxt) (Z.lor (u64 (n1 - n)) C_INUSE);;
  wr (csize self) (Z.lor n C_INUSE);;
  free (CHUNK_TO_MEM split).

Definition init_malloc (n : Z) : M Z :=
  i ← gets init;
  if (i : bool) then mret 0 else
  b ← mmap BRKSIZE;
  modify (set_brk b);;
  if b =? MAP_FAILED then mret (-1) else
  modify (set_brk0 b);;
  modify (set_brk (Z.land (u64 (b + 2 * SIZE_ALIGN - 1)) (- SIZE_ALIGN)));;
  c ← expand_heap n;
  if c =? 0 then mret (-1) else
  modify (set_heap c);;
  wr (psize c) (Z.lor 0 C_INUSE);;
  free (CHUNK_TO_MEM c);;
  modify (set_init true);;
  mret 1.

(** The end of the loop: the heap grows, and its last chunk with it when it was
    free; [None] is [return 0]. *)
Definition grow (n : Z) : M (option Z) :=
  c ← expand_heap n;
  if c =? 0 then mret None else
  r ← alloc_rev c;
  if (r : bool) then
    let x := c in
    c ← PREV_CHUNK c;
    w ← rd (csize x);
    k ← CHUNK_SIZE c;
    let v := u64 (w + k) in
    y ← NEXT_CHUNK x;
    wr (csize c) v;;
    wr (psize y) v;;
    mret (Some c)
  else mret (Some c).

(** The loop of [malloc]: a chunk of at least [n] bytes, in use; [None] is the
    [return 0] inside the loop. *)
Fixpoint malloc_loop (fuel : nat) (n i : Z) : M (option Z) :=
  match fuel with
  | O => no_fuel
  | S fuel' =>
    m ← gets binmap;
    let mask := Z.land m (- Z.shiftl 1 i) in
    if mask =? 0 then
      r ← init_malloc n;
      if 0 <? r then malloc_loop fuel' n i else grow n
    else
      j ← first_set mask;
      lock_bin j;;
      c ← rd (bin_head j);
      found ← (if c =? BIN_TO_CHUNK j then mret false
               else w ← rd (csize c); mret (j =? bin_index w));
      if (found : bool) then
        t ← pretrim c n i j;
        (if (t : bool) then mret tt else unbin c j);;
        mret (Some c)
      else malloc_loop fuel' n i
  end.

Definition malloc_mapped (n : Z) : M Z :=
  let len := Z.land (u64 (n + OVERHEAD + PAGE_SIZE - 1)) (- PAGE_SIZE) in
  base ← mmap len;
  if base =? MAP_FAILED then mret 0 else
  let c := base + SIZE_ALIGN - OVERHEAD in
  wr (csize c) (u64 (len - (SIZE_ALIGN - OVERHEAD)));;
  wr (psize c) (SIZE_ALIGN - OVERHEAD);;
  mret (CHUNK_TO_MEM c).

Definition malloc (n : Z) : M Z :=
  '(rc, n) ← adjust_size n;
  if rc <? 0 then mret 0 else
  if MMAP_THRESHOLD <? n then malloc_mapped n else
  o ← malloc_loop rounds n (bin_index_up n);
  match o with
  | None => mret 0
  | Some c => trim c n;; mret (CHUNK_TO_MEM c)
  end.

(** ** [realloc] *)

(** [memcpy] of a whole number of words between blocks that do not overlap. *)
Fixpoint copy_words (k : nat) (dest src : Z) : M unit :=
  match k with
  | O => mret tt
  | S k' => v ← rd src; wr dest v;; copy_words k' (dest + 8) (src + 8)
  end.
Definition memcpy (dest src n : Z) : M unit := copy_words (Z.to_nat (n / 8)) dest src.

Definition realloc_mapped (p n self n0 : Z) : M Z :=
  extra ← rd (psize self);
  let base := self - extra in
  let oldlen := u64 (n0 + extra) in
  let newlen := u64 (n + extra) in
  if negb (Z.land extra 1 =? 0) then a_crash else
  new ← (if newlen <? PAGE_SIZE then malloc n else mret 0);
  if negb (new =? 0) then
    memcpy new p (u64 (n - OVERHEAD));;
    free p;;
    mret new
  else
  let newlen := Z.land (u64 (newlen + PAGE_SIZE - 1)) (- PAGE_SIZE) in
  if oldlen =? newlen then mret p else
  base ← mremap base oldlen newlen;
  if base =? MAP_FAILED then mret (if newlen <? oldlen then p else 0) else
  let self := base + extra in
  wr (csize self) (u64 (newlen - extra));;
  mret (CHUNK_TO_MEM self).

(** The chunk takes in the free chunk after it when it is too small; the result is [n1]. *)
Definition merge_next (self nxt n n0 : Z) : M Z :=
  r ← (if n0 <? n then alloc_fwd nxt else mret false);
  '(nxt, n1) ← (if (r : bool) then
      k ← CHUNK_SIZE nxt;
      x ← NEXT_CHUNK nxt;
      mret (x, u64 (n0 + k))
    else mret (nxt, n0));
  wr (csize self) (Z.lor n1 C_INUSE);;
  wr (psize nxt) (Z.lor n1 C_INUSE);;
  mret n1.

Definition realloc (p n : Z) : M Z :=
  if p =? 0 then malloc n else
  '(rc, n) ← adjust_size n;
  if rc <? 0 then mret 0 else
  let self := MEM_TO_CHUNK p in
  n0 ← CHUNK_SIZE self;
  m ← IS_MMAPPED self;
  if (m : bool) then realloc_mapped p n self n0 else
  nxt ← NEXT_CHUNK self;
  f ← rd (psize nxt);
  w ← rd (csize self);
  if negb (f =? w) then a_crash else
  n1 ← merge_next self nxt n n0;
  if n <=? n1 then trim self n;; mret (CHUNK_TO_MEM self) else
  new ← malloc (u64 (n - OVERHEAD));
  if new =? 0 then mret 0 else
  memcpy new p (u64 (n0 - OVERHEAD));;
  free (CHUNK_TO_MEM self);;
  mret new.

End alloc.
