(* ===== verification/AllocBins.v ===== *)
(** * Sizes and bins: which bin a chunk belongs to

    The two roundings of [malloc.c] from a size to one of the 64 bins, read off
    the bits of a [float], are monotone, and a chunk of a bin at or above
    [bin_index_up n] has at least [n] bytes.  The 7168 sizes below the
    threshold are checked by computation, the rest by monotonicity. *)

From S2P Require Import Prelude Alloc.

(** The two functions on the number of units of 32 bytes, less one. *)
Definition class_of (x : Z) : Z :=
  if x <=? 32 then x else if 0x1c00 <? x then 63 else Z.shiftr (float_bits x) 21 - 496.
Definition class_up (x : Z) : Z :=
  if x <=? 32 then x else Z.shiftr (float_bits x + 0x1fffff) 21 - 496.

Fixpoint check_below (P : Z -> bool) (k : nat) (x : Z) : bool :=
  match k with O => true | S k' => P x && check_below P k' (x + 1) end.

Lemma check_below_spec P k x : check_below P k x = true -> forall y, x <= y < x + Z.of_nat k -> P y = true.
Proof.
  revert x. induction k as [|k IH]; intros x H y Hy; [lia|]. cbn in H. apply andb_true_iff in H as [H1 H2].
  destruct (decide (y = x)) as [->|]; [done|]. apply (IH _ H2). lia.
Qed.

(** What is checked of each size below the threshold. *)
Definition good_class (x : Z) : bool :=
  (class_of x <=? class_of (x + 1)) && (class_of x <? class_up (x + 1)) && (class_of x <=? class_up x)
  && (0 <=? class_of x) && (class_up x <=? 63).

Lemma good_classes : check_below good_class 7168 0 = true.
Proof. vm_compute. reflexivity. Qed.

Lemma class_checked x : 0 <= x < 7168 ->
  class_of x <= class_of (x + 1) /\ class_of x < class_up (x + 1) /\ class_of x <= class_up x /\
  0 <= class_of x /\ class_up x <= 63.
Proof.
  intros Hx. pose proof (check_below_spec _ _ _ good_classes x) as H.
  change (0 + Z.of_nat 7168) with 7168 in H. specialize (H Hx). unfold good_class in H. bool_lia.
Qed.

Lemma class_of_big x : 7168 < x -> class_of x = 63.
Proof. intros. unfold class_of. by rewrite (proj2 (Z.leb_gt x 32)), (proj2 (Z.ltb_lt 0x1c00 x)) by lia. Qed.

Lemma class_of_7168 : class_of 7168 = 63.
Proof. vm_compute. reflexivity. Qed.

Lemma class_of_mono_small x y : 0 <= x <= y -> y <= 7168 -> class_of x <= class_of y.
Proof.
  intros Hxy Hy. replace y with (x + Z.of_nat (Z.to_nat (y - x))) in * by lia.
  generalize (Z.to_nat (y - x)) as k, Hxy, Hy. clear. intros k. induction k as [|k IH]; intros Hxy Hy.
  - by rewrite Z.add_0_r.
  - etrans; [apply IH; lia|]. replace (x + Z.of_nat (S k)) with (x + Z.of_nat k + 1) by lia.
    by apply class_checked; lia.
Qed.

Lemma class_of_range x : 0 <= x -> 0 <= class_of x <= 63.
Proof.
  intros Hx. destruct (Z_lt_le_dec 7168 x); [rewrite class_of_big; lia|].
  split; [change 0 with (class_of 0); by apply class_of_mono_small; lia|].
  rewrite <- class_of_7168. by apply class_of_mono_small; lia.
Qed.

Lemma class_of_mono x y : 0 <= x <= y -> class_of x <= class_of y.
Proof.
  intros Hxy. destruct (Z_lt_le_dec 7168 y) as [H|H]; [|by apply class_of_mono_small].
  rewrite (class_of_big y H). apply class_of_range; lia.
Qed.

(** A class at or above the rounded-up class of [x] holds only sizes from [x] on. *)
Lemma class_fits x y : 0 <= x < 7168 -> 0 <= y -> class_up x <= class_of y -> x <= y.
Proof.
  intros Hx Hy H. destruct (Z_le_gt_dec x y) as [|Hlt]; [done|exfalso].
  pose proof (class_of_mono y (x - 1) ltac:(lia)) as H1.
  destruct (class_checked (x - 1) ltac:(lia)) as (_ & H2 & _). rewrite Z.sub_add in H2. lia.
Qed.

(** ** Sizes *)

(** A chunk's size: a positive multiple of 32. *)
Definition unit_size (n : Z) : Prop := n mod 32 = 0 /\ 32 <= n < 2 ^ 62.

Lemma unit_size_index n : unit_size n -> u64 (n / SIZE_ALIGN - 1) = n / 32 - 1 /\ 0 <= n / 32 - 1.
Proof. intros [Hm Hr]. unfold SIZE_ALIGN. split; [apply u64_small|]; div_lia. Qed.

Lemma bin_index_class n : unit_size n -> bin_index n = class_of (n / 32 - 1).
Proof. intros H. unfold bin_index. by destruct (unit_size_index n H) as [-> _]. Qed.

Lemma bin_index_up_class n : unit_size n -> bin_index_up n = class_up (n / 32 - 1).
Proof. intros H. unfold bin_index_up. by destruct (unit_size_index n H) as [-> _]. Qed.

Lemma bin_index_range n : unit_size n -> 0 <= bin_index n < 64.
Proof.
  intros H. rewrite bin_index_class by done. pose proof (class_of_range (n / 32 - 1)).
  destruct (unit_size_index n H). lia.
Qed.

Lemma unit_small n : unit_size n -> n <= MMAP_THRESHOLD -> 0 <= n / 32 - 1 < 7168.
Proof. unfold unit_size, MMAP_THRESHOLD, SIZE_ALIGN. intros [Hm Hr] H. div_lia. Qed.

Lemma bin_index_up_range n : unit_size n -> n <= MMAP_THRESHOLD -> 0 <= bin_index_up n < 64.
Proof.
  intros H Hn. rewrite bin_index_up_class by done.
  destruct (class_checked _ (unit_small n H Hn)) as (_ & _ & H1 & H2 & H3). lia.
Qed.

Lemma bin_index_le_up n : unit_size n -> n <= MMAP_THRESHOLD -> bin_index n <= bin_index_up n.
Proof.
  intros H Hn. rewrite bin_index_up_class, bin_index_class by done.
  by apply class_checked, unit_small.
Qed.

Lemma bin_index_mono n k : unit_size n -> unit_size k -> n <= k -> bin_index n <= bin_index k.
Proof.
  intros Hn Hk H. rewrite !bin_index_class by done. apply class_of_mono.
  destruct (unit_size_index n Hn). split; [done|]. div_lia.
Qed.

Lemma bin_fits n k : unit_size n -> n <= MMAP_THRESHOLD -> unit_size k ->
  bin_index_up n <= bin_index k -> n <= k.
Proof.
  intros Hn Hle Hk. rewrite bin_index_up_class, bin_index_class by done. intros H.
  apply class_fits in H; [|by apply unit_small|by apply unit_size_index].
  destruct Hn, Hk. div_lia.
Qed.

(** ** Words of the headers *)
Lemma even_word n (u : bool) : n mod 2 = 0 -> even (n + Z.b2z u) = n.
Proof.
  intros Hn. unfold even. change (-2) with (Z.lnot (Z.ones 1)). rewrite <- Z.ldiff_land, Z.ldiff_ones_r by lia.
  rewrite Z.shiftr_div_pow2, Z.shiftl_mul_pow2 by lia. destruct u; cbn [Z.b2z]; change (2 ^ 1) with 2; div_lia.
Qed.

Lemma even_free n : n mod 2 = 0 -> even n = n.
Proof. intros Hn. rewrite <- (Z.add_0_r n) at 1. by apply (even_word n false). Qed.

Lemma land_1 n : Z.land n 1 = n mod 2.
Proof. change 1 with (Z.ones 1). by rewrite Z.land_ones by lia. Qed.

Lemma used_word n (u : bool) : n mod 2 = 0 -> used (n + Z.b2z u) = u.
Proof.
  intros Hn. unfold used, C_INUSE. rewrite land_1. destruct u; cbn [Z.b2z].
  - apply negb_true_iff, Z.eqb_neq. div_lia.
  - apply negb_false_iff, Z.eqb_eq. div_lia.
Qed.

Lemma used_land a b : used (Z.land a b) = used a && used b.
Proof.
  unfold used, C_INUSE. rewrite !land_1, <- !Z.bit0_mod, Z.land_spec.
  by destruct (Z.testbit a 0), (Z.testbit b 0).
Qed.

Lemma lor_inuse n (u : bool) : n mod 2 = 0 -> Z.lor (n + Z.b2z u) C_INUSE = n + Z.b2z true.
Proof.
  intros Hn. unfold C_INUSE. apply Z.bits_inj'. intros i Hi. rewrite Z.lor_spec.
  destruct (decide (i = 0)) as [->|Hi0].
  - rewrite !Z.bit0_odd, !Z.odd_add, orb_true_r.
    replace (Z.odd n) with false by (rewrite Zmod_odd in Hn; by destruct (Z.odd n)). done.
  - replace (Z.testbit 1 i) with false
      by (symmetry; change 1 with (2 ^ 0); rewrite Z.pow2_bits_false; lia). rewrite orb_false_r.
    replace i with (i - 1 + 1) by lia. rewrite <- !Z.div_pow2_bits by lia. f_equal.
    change (2 ^ 1) with 2. destruct u; cbn [Z.b2z]; div_lia.
Qed.

Lemma lor_inuse0 n : n mod 2 = 0 -> Z.lor n C_INUSE = n + Z.b2z true.
Proof. intros. by rewrite <- (lor_inuse n false), Z.add_0_r by done. Qed.

(** Rounding down to pages. *)
Lemma land_pages x k : 0 <= k -> Z.land x (- 2 ^ k) = x - x mod 2 ^ k.
Proof.
  intros Hk. replace (- 2 ^ k) with (Z.lnot (Z.ones k)) by (rewrite Z.ones_equiv; unfold Z.lnot; lia).
  rewrite <- Z.ldiff_land, Z.ldiff_ones_r by lia.
  rewrite Z.shiftr_div_pow2, Z.shiftl_mul_pow2 by lia.
  pose proof (Z.div_mod x (2 ^ k)). lia.
Qed.

Lemma land_PAGE_SIZE x : Z.land x (- PAGE_SIZE) = x - x mod 4096.
Proof. by apply (land_pages x 12). Qed.
Lemma land_SIZE_ALIGN x : Z.land x (- SIZE_ALIGN) = x - x mod 32.
Proof. by apply (land_pages x 5). Qed.

(** ** The map of the bins *)
Lemma shiftl_1_bit i j : 0 <= i -> 0 <= j -> Z.testbit (Z.shiftl 1 i) j = (j =? i).
Proof.
  intros Hi Hj. rewrite Z.shiftl_1_l. destruct (Z.eqb_spec j i) as [->|Hne].
  - by apply Z.pow2_bits_true.
  - by apply Z.pow2_bits_false; lia.
Qed.

Lemma clear_bit_bits bm i j : 0 <= i -> 0 <= j ->
  Z.testbit (Z.land bm (Z.lnot (Z.shiftl 1 i))) j = Z.testbit bm j && negb (j =? i).
Proof. intros Hi Hj. rewrite Z.land_spec, Z.lnot_spec by done. by rewrite shiftl_1_bit by done. Qed.

Lemma set_bit_bits bm i j : 0 <= i -> 0 <= j ->
  Z.testbit (Z.lor bm (Z.shiftl 1 i)) j = Z.testbit bm j || (j =? i).
Proof. intros Hi Hj. rewrite Z.lor_spec. by rewrite shiftl_1_bit by done. Qed.

(** A word is bounded by its highest bit. *)
Lemma bits_range x : 0 <= x -> (forall j, 64 <= j -> Z.testbit x j = false) -> 0 <= x < 2 ^ 64.
Proof.
  intros Hx Hj. split; [done|]. destruct (Z.eq_dec x 0) as [->|Hne]; [done|].
  apply Z.log2_lt_pow2; [lia|]. apply Z.nle_gt. intros H.
  pose proof (Z.bit_log2 x ltac:(lia)) as Hb. rewrite Hj in Hb by done. done.
Qed.

Lemma range_bits x j : 0 <= x < 2 ^ 64 -> 64 <= j -> Z.testbit x j = false.
Proof.
  intros Hx Hj. destruct (Z.eq_dec x 0) as [->|Hne]; [apply Z.bits_0|].
  apply Z.bits_above_log2; [lia|]. assert (Z.log2 x < 64) by (apply Z.log2_lt_pow2; lia). lia.
Qed.

Lemma clear_bit_range bm i : 0 <= bm < 2 ^ 64 -> 0 <= i -> 0 <= Z.land bm (Z.lnot (Z.shiftl 1 i)) < 2 ^ 64.
Proof.
  intros Hbm Hi. apply bits_range; [apply Z.land_nonneg; lia|]. intros j Hj.
  rewrite clear_bit_bits, range_bits by lia. done.
Qed.

Lemma set_bit_range bm i : 0 <= bm < 2 ^ 64 -> 0 <= i < 64 -> 0 <= Z.lor bm (Z.shiftl 1 i) < 2 ^ 64.
Proof.
  intros Hbm Hi. apply bits_range; [apply Z.lor_nonneg; split; [lia|apply Z.shiftl_nonneg; lia]|].
  intros j Hj. rewrite set_bit_bits, range_bits by lia. apply Z.eqb_neq. lia.
Qed.

(** The bins from [i] on that the map names, and the first of them. *)
Lemma mask_bits bm i j : 0 <= i -> 0 <= j ->
  Z.testbit (Z.land bm (- Z.shiftl 1 i)) j = Z.testbit bm j && (i <=? j).
Proof.
  intros Hi Hj. rewrite Z.land_spec. f_equal. rewrite Z.shiftl_1_l.
  replace (- 2 ^ i) with (Z.lnot (Z.ones i)) by (rewrite Z.ones_equiv; unfold Z.lnot; lia).
  rewrite Z.lnot_spec by done. destruct (Z.leb_spec i j).
  - by rewrite Z.ones_spec_high by lia.
  - by rewrite Z.ones_spec_low by lia.
Qed.

Lemma ctz_pos_bit p : Z.testbit (Z.pos p) (Smoothsort.ctz_pos p) = true /\ 0 <= Smoothsort.ctz_pos p.
Proof.
  induction p as [p _|p IH|]; cbn [Smoothsort.ctz_pos]; [done| |done].
  destruct IH as [IH H0]. split; [|lia]. change (Z.pos p~0) with (2 * Z.pos p). rewrite Z.add_comm, Z.add_1_r.
  by rewrite Z.double_bits_succ.
Qed.
