(* ===== verification/AllocFacts.v ===== *)
(** * Reasoning about the allocator: runs, chunks in a row, rings of chunks

    [runs m s Q]: the program [m] returns from [s], and [Q] holds of its result
    and of the state it leaves.  [chain]: the chunks tile a range of
    addresses.  [links]: the pointers of a list of nodes, forwards and
    backwards. *)

From S2P Require Import Prelude Alloc AllocBins.

(** ** Runs *)
Definition runs {A} (m : M A) (s : state) (Q : A -> state -> Prop) : Prop :=
  match m s with
  | Ok (a, s') => Q a s'
  | _ => False
  end.

Lemma runs_ret {A} (a : A) s (Q : A -> state -> Prop) : Q a s -> runs (mret a) s Q.
Proof. done. Qed.

Lemma runs_bind {A B} (m : M A) (f : A -> M B) s Q :
  runs m s (fun a s' => runs (f a) s' Q) -> runs (m ≫= f) s Q.
Proof. unfold runs, mbind, M_bind, mbind, res_bind. by destruct (m s) as [[a s']| | |]. Qed.

Lemma runs_mono {A} (m : M A) s (Q Q' : A -> state -> Prop) :
  runs m s Q -> (forall a s', Q a s' -> Q' a s') -> runs m s Q'.
Proof. unfold runs. destruct (m s) as [[a s']| | |]; auto. Qed.

Lemma runs_assoc {A B C} (m : M A) (f : A -> M B) (g : B -> M C) s Q :
  runs ((m ≫= f) ≫= g) s Q -> runs (m ≫= fun a => f a ≫= g) s Q.
Proof. unfold runs, mbind, M_bind, mbind, res_bind. by destruct (m s) as [[a s']| | |]. Qed.

Lemma runs_gets {A} (f : state -> A) s (Q : A -> state -> Prop) : Q (f s) s -> runs (gets f) s Q.
Proof. done. Qed.

Lemma runs_modify f s (Q : unit -> state -> Prop) : Q tt (f s) -> runs (modify f) s Q.
Proof. done. Qed.

Lemma runs_rd a v s (Q : Z -> state -> Prop) : memory s a = Some v -> Q v s -> runs (rd a) s Q.
Proof. intros H HQ. unfold runs, rd. by rewrite H. Qed.

Lemma runs_wr a v s (Q : unit -> state -> Prop) :
  is_Some (memory s a) -> Q tt (set_memory (upd a v) s) -> runs (wr a v) s Q.
Proof. intros [w H] HQ. unfold runs, wr. by rewrite H. Qed.

Lemma runs_Ok {A} (m : M A) s Q : runs m s Q <-> exists a s', m s = Ok (a, s') /\ Q a s'.
Proof.
  unfold runs. destruct (m s) as [[a s']| | |]; split; try done; try (intros (?&?&?&?); done).
  - eauto.
  - by intros (a1 & s1 & [= <- <-] & H).
Qed.

Lemma runs_at {A} (m : M A) s a s' (Q : A -> state -> Prop) : m s = Ok (a, s') -> runs m s Q -> Q a s'.
Proof. unfold runs. by intros ->. Qed.

(** One step at a time, also where the run does not return. *)
Lemma bind_runs {A B} (m : M A) (f : A -> M B) s a s' : m s = Ok (a, s') -> (m ≫= f) s = f a s'.
Proof. unfold mbind, M_bind, mbind, res_bind. by intros ->. Qed.

Lemma bind_Fault {A B} (m : M A) (f : A -> M B) s : m s = Fault -> (m ≫= f) s = Fault.
Proof. unfold mbind, M_bind, mbind, res_bind. by intros ->. Qed.

Lemma bind_Exit {A B} (m : M A) (f : A -> M B) s : m s = Exit -> (m ≫= f) s = Exit.
Proof. unfold mbind, M_bind, mbind, res_bind. by intros ->. Qed.

Lemma rd_Ok a v s : memory s a = Some v -> rd a s = Ok (v, s).
Proof. unfold rd. by intros ->. Qed.

Lemma wr_Fault a v s : memory s a = None -> wr a v s = Fault.
Proof. unfold wr. by intros ->. Qed.

Lemma upd_eq a v m : upd a v m a = Some v.
Proof. unfold upd. by rewrite Z.eqb_refl. Qed.

Lemma upd_ne a v m x : x <> a -> upd a v m x = m x.
Proof. intros. unfold upd. by rewrite (proj2 (Z.eqb_neq x a)). Qed.

Lemma upd_mapped a v m x : is_Some (m x) -> is_Some (upd a v m x).
Proof. unfold upd. intros. case_if; eauto. Qed.

Ltac run_step :=
  lazymatch goal with
  | |- runs (mbind _ _) _ _ => apply runs_bind
  | |- runs (mret _) _ _ => apply runs_ret
  | |- runs (gets _) _ _ => apply runs_gets; cbn beta
  | |- runs (modify _) _ _ => apply runs_modify
  | |- runs (rd _) _ _ => eapply runs_rd
  | |- runs (wr _ _) _ _ => apply runs_wr
  end.

(** Two fields at different addresses. *)
Ltac split_hyps := repeat match goal with H : _ /\ _ |- _ => destruct H end.
Lemma next_ne x y : x <> y -> next x <> next y.
Proof. unfold next. lia. Qed.
Lemma prev_ne x y : x <> y -> prev x <> prev y.
Proof. unfold prev. lia. Qed.
Lemma psize_ne x y : x <> y -> psize x <> psize y.
Proof. done. Qed.
Lemma csize_ne x y : x <> y -> csize x <> csize y.
Proof. unfold csize. lia. Qed.
Ltac known_ne := first [assumption | apply not_eq_sym; assumption].
(** [lia] splits on each disequality it is given; none is of use here. *)
Ltac lia_ne := repeat match goal with H : _ <> _ |- _ => clear H end; lia.
Ltac fields_ne := first [known_ne
  | lazymatch goal with
    | |- next _ <> next _ => apply next_ne; first [known_ne | lia_ne]
    | |- prev _ <> prev _ => apply prev_ne; first [known_ne | lia_ne]
    | |- psize _ <> psize _ => apply psize_ne; first [known_ne | lia_ne]
    | |- csize _ <> csize _ => apply csize_ne; first [known_ne | lia_ne]
    | |- _ => unfold next, prev, psize, csize; lia_ne
    end].

(** Read and write words of an updated memory. *)
Ltac upd_lia := repeat first [rewrite upd_eq | rewrite upd_ne by lia].

(** ** Chunks in a row *)
Record chunk : Type := Chunk { addr : Z; size : Z; inuse : bool }.

Definition word (c : chunk) : Z := size c + Z.b2z (inuse c).

Fixpoint chain (a : Z) (cs : list chunk) (e : Z) : Prop :=
  match cs with
  | [] => a = e
  | c :: cs' => addr c = a /\ unit_size (size c) /\ chain (a + size c) cs' e
  end.

Lemma unit_even n : unit_size n -> n mod 2 = 0.
Proof. intros [H _]. div_lia. Qed.

Lemma chain_app a l1 l2 e : chain a (l1 ++ l2) e <-> exists b, chain a l1 b /\ chain b l2 e.
Proof.
  revert a. induction l1 as [|c l1 IH]; intros a; cbn [app chain].
  - split; [eauto|]. by intros (b & -> & H).
  - rewrite IH. naive_solver.
Qed.

Lemma chain_le a l e : chain a l e -> a <= e.
Proof.
  revert a. induction l as [|c l IH]; intros a; cbn [chain]; [lia|].
  intros (_ & [_ Hs] & H). apply IH in H. lia.
Qed.

Lemma chain_unique a l e e' : chain a l e -> chain a l e' -> e = e'.
Proof.
  revert a. induction l as [|c l IH]; intros a; cbn [chain]; [congruence|].
  intros (_ & _ & H1) (_ & _ & H2). by eapply IH.
Qed.

Lemma chain_mod a l e : chain a l e -> e mod 32 = a mod 32.
Proof.
  revert a. induction l as [|c l IH]; intros a; cbn [chain]; [congruence|].
  intros (_ & [Hm _] & H). apply IH in H. rewrite H. div_lia.
Qed.

Lemma chain_in a l e c : chain a l e -> c ∈ l ->
  a <= addr c /\ addr c + size c <= e /\ unit_size (size c) /\ addr c mod 32 = a mod 32.
Proof.
  intros H Hc. apply list_elem_of_split in Hc as (l1 & l2 & ->).
  apply chain_app in H as (b & H1 & H2). cbn [chain] in H2. destruct H2 as (Ha & Hs & H2).
  pose proof (chain_le _ _ _ H1). pose proof (chain_le _ _ _ H2). pose proof (chain_mod _ _ _ H1).
  rewrite Ha. eauto with lia.
Qed.

Lemma chain_disjoint a l e x y : chain a l e -> x ∈ l -> y ∈ l ->
  x = y \/ addr x + size x <= addr y \/ addr y + size y <= addr x.
Proof.
  revert a. induction l as [|c l IH]; intros a H Hx Hy; [by apply not_elem_of_nil in Hx|].
  cbn [chain] in H. destruct H as (Ha & Hs & H). apply elem_of_cons in Hx, Hy.
  destruct Hx as [->|Hx], Hy as [->|Hy]; [by left| | |by eapply IH].
  - right. left. destruct (chain_in _ _ _ _ H Hy) as (? & _). lia.
  - right. right. destruct (chain_in _ _ _ _ H Hx) as (? & _). lia.
Qed.

Lemma chain_addr_inj a l e x y : chain a l e -> x ∈ l -> y ∈ l -> addr x = addr y -> x = y.
Proof.
  intros H Hx Hy Heq. destruct (chain_disjoint _ _ _ _ _ H Hx Hy) as [|Hd]; [done|exfalso].
  destruct (chain_in _ _ _ _ H Hx) as (_ & _ & [_ ?] & _), (chain_in _ _ _ _ H Hy) as (_ & _ & [_ ?] & _). lia.
Qed.

(** A chunk ends where no other ends. *)
Lemma chain_end_inj a l e x y : chain a l e -> x ∈ l -> y ∈ l -> addr x + size x = addr y + size y -> x = y.
Proof.
  intros H Hx Hy Heq. destruct (chain_disjoint _ _ _ _ _ H Hx Hy) as [|Hd]; [done|exfalso].
  destruct (chain_in _ _ _ _ H Hx) as (_ & _ & [_ ?] & _), (chain_in _ _ _ _ H Hy) as (_ & _ & [_ ?] & _). lia.
Qed.

(** The words that a chunk shares with its neighbours: the first chunk has
    none to its left, the last none to its right, and both read as in use. *)
Definition left_word (l : list chunk) : Z := from_option word C_INUSE (last l).
Definition right_word (l : list chunk) : Z := from_option word C_INUSE (head l).
Definition left_used (l : list chunk) : Prop := from_option inuse true (last l) = true.
Definition right_used (l : list chunk) : Prop := from_option inuse true (head l) = true.

Lemma word_used c : unit_size (size c) -> used (word c) = inuse c.
Proof. intros H. apply used_word. by apply unit_even. Qed.

Lemma left_word_used a l e : chain a l e -> used (left_word l) = from_option inuse true (last l).
Proof.
  intros H. unfold left_word. destruct l as [|x l _] using rev_ind; [done|]. rewrite last_snoc. cbn.
  apply word_used. by destruct (chain_in _ _ _ x H) as (_ & _ & ? & _); [set_solver +|].
Qed.

Lemma right_word_used a l e : chain a l e -> used (right_word l) = from_option inuse true (head l).
Proof. intros H. unfold right_word. destruct l as [|x l]; [done|]. cbn. apply word_used. apply H. Qed.

(** No two neighbours are free. *)
Fixpoint coalesced (cs : list chunk) : Prop :=
  match cs with
  | x :: (y :: _) as t => (inuse x = true \/ inuse y = true) /\ coalesced t
  | _ => True
  end.

Lemma coalesced_app l1 c l2 : coalesced (l1 ++ c :: l2) <-> coalesced (l1 ++ [c]) /\ coalesced (c :: l2).
Proof.
  induction l1 as [|x l1 IH]; [cbn; tauto|]. destruct l1 as [|y l1].
  - cbn. destruct l2; tauto.
  - cbn [app coalesced] in *. rewrite IH. tauto.
Qed.

Lemma coalesced_cons c l : coalesced (c :: l) <-> (inuse c = true \/ right_used l) /\ coalesced l.
Proof. unfold right_used. destruct l as [|y l]; cbn; intuition auto. Qed.

Lemma coalesced_snoc l c : coalesced (l ++ [c]) <-> coalesced l /\ (left_used l \/ inuse c = true).
Proof.
  induction l as [|x l _] using rev_ind; [unfold left_used; cbn; intuition auto|].
  rewrite <- app_assoc. cbn [app]. rewrite coalesced_app. unfold left_used. rewrite last_snoc. cbn. tauto.
Qed.

(** What coalescing says around one chunk. *)
Lemma coalesced_mid l1 c l2 : coalesced (l1 ++ c :: l2) <->
  coalesced l1 /\ coalesced l2 /\ (inuse c = true \/ (left_used l1 /\ right_used l2)).
Proof. rewrite coalesced_app, coalesced_snoc, coalesced_cons. tauto. Qed.

(** Only the fact that the middle is in use matters. *)
Lemma coalesced_used l1 mid l2 : coalesced (l1 ++ mid ++ l2) -> coalesced l1 /\ coalesced l2.
Proof.
  revert l1. induction mid as [|c mid IH]; intros l1 H.
  - cbn in H. destruct l2 as [|y l2]; [by rewrite app_nil_r in H|].
    apply coalesced_mid in H as (H1 & H2 & H3). split; [done|]. apply coalesced_cons. split; [|done]. tauto.
  - cbn [app] in H. apply coalesced_mid in H as (H1 & H2 & _). split; [done|]. by apply (IH []).
Qed.

Definition all_used (l : list chunk) : Prop := Forall (fun c => inuse c = true) l.

Lemma coalesced_replace l1 mid l2 : coalesced l1 -> coalesced l2 -> mid <> [] -> all_used mid ->
  coalesced (l1 ++ mid ++ l2).
Proof.
  intros H1 H2 Hne Hu. revert l1 H1 Hne. induction Hu as [|c mid Hc Hu IH]; intros l1 H1 Hne; [done|].
  cbn [app]. apply coalesced_mid. split_and!; [done| |by left].
  destruct mid as [|c' mid]; [done|]. by apply (IH []).
Qed.

Lemma chain_unit a l e : chain a l e -> l <> [] -> e - a < 2 ^ 62 -> unit_size (e - a).
Proof.
  intros H Hne Hlt. pose proof (chain_mod _ _ _ H) as Hm. destruct l as [|c l]; [done|].
  cbn [chain] in H. destruct H as (_ & [_ ?] & H). apply chain_le in H. unfold unit_size.
  split; [|lia]. clear -Hm. div_lia.
Qed.

(** ** Rings *)
Fixpoint links (m : Z -> option Z) (xs : list Z) : Prop :=
  match xs with
  | x :: (y :: _) as t => m (next x) = Some y /\ m (prev y) = Some x /\ links m t
  | _ => True
  end.

Lemma links_app m l1 x l2 : links m (l1 ++ x :: l2) <-> links m (l1 ++ [x]) /\ links m (x :: l2).
Proof.
  induction l1 as [|y l1 IH]; [cbn; tauto|]. destruct l1 as [|z l1].
  - cbn. destruct l2; tauto.
  - cbn [app links] in *. rewrite IH. tauto.
Qed.

(** Three neighbours in the middle. *)
Lemma links_mid m l1 x y l2 : links m (l1 ++ x :: y :: l2) <->
  links m (l1 ++ [x]) /\ m (next x) = Some y /\ m (prev y) = Some x /\ links m (y :: l2).
Proof. rewrite links_app. cbn [links]. tauto. Qed.

Lemma links_frame m m' xs :
  (forall x, x ∈ removelast xs -> m' (next x) = m (next x)) ->
  (forall x, x ∈ tail xs -> m' (prev x) = m (prev x)) -> links m xs -> links m' xs.
Proof.
  induction xs as [|x xs IH]; intros Hn Hp; [done|]. destruct xs as [|y xs]; [done|].
  intros (H1 & H2 & H3). split_and!.
  - rewrite Hn; [done|left].
  - rewrite Hp; [done|left].
  - apply IH; [|by intros z Hz; apply Hp; right|done].
    intros z Hz. apply Hn. by right.
Qed.

(** A node of a ring has a node before it and one after it. *)
Lemma ring_split (S c : Z) q1 q2 : NoDup (S :: q1 ++ c :: q2) -> exists p1 p n n2,
  S :: q1 = p1 ++ [p] /\ q2 ++ [S] = n :: n2 /\ p ∉ p1 /\ n ∉ q1 /\ p ∉ q2 /\ n ∉ n2 /\
  p ∈ S :: q1 /\ n ∈ S :: q2 /\ (p = n <-> q1 ++ q2 = []).
Proof.
  intros Hnd. assert (Hp : exists p1 p, S :: q1 = p1 ++ [p]).
  { destruct (exists_last (l := S :: q1)) as (p1 & p & ->); eauto. }
  assert (Hn : exists n n2, q2 ++ [S] = n :: n2) by (destruct q2; cbn; eauto).
  destruct Hp as (p1 & p & Hp), Hn as (n & n2 & Hn). exists p1, p, n, n2.
  apply NoDup_cons in Hnd as [HS Hnd]. apply NoDup_app in Hnd as (H1 & H12 & H2).
  apply NoDup_cons in H2 as [Hc H2].
  assert (Hnd1 : NoDup (p1 ++ [p])) by (rewrite <- Hp; apply NoDup_cons; set_solver).
  assert (Hnd2 : NoDup (n :: n2)) by (rewrite <- Hn; apply NoDup_app; split_and!; [done|set_solver|apply NoDup_singleton]).
  assert (Hpin : p ∈ S :: q1) by (rewrite Hp; set_solver).
  assert (Hnin : n ∈ S :: q2) by (assert (n ∈ q2 ++ [S]) by (rewrite Hn; left); set_solver).
  apply NoDup_app in Hnd1 as (_ & Hpp & _). apply NoDup_cons in Hnd2 as [Hnn _].
  split_and!; [done|done|set_solver|set_solver|set_solver|done|done|done|]. split.
  - intros <-. assert (p = S) as -> by set_solver. destruct q2 as [|y q2].
    + destruct q1 as [|x q1]; [done|exfalso]. destruct p1 as [|x1 p1]; [done|]. cbn in Hp. injection Hp as <- Hp.
      set_solver.
    + cbn in Hn. injection Hn as -> _. set_solver.
  - intros Hq. apply app_eq_nil in Hq as [-> ->]. cbn in Hn. injection Hn as <- _.
    destruct p1 as [|? [|? ?]]; cbn in Hp; congruence.
Qed.

(** Only the pointers of [p] forwards and of [n] backwards changed. *)
Definition relinked (m m' : Z -> option Z) (xs : list Z) (p n : Z) : Prop :=
  forall x, x ∈ xs -> (x <> p -> m' (next x) = m (next x)) /\ (x <> n -> m' (prev x) = m (prev x)).

Lemma links_splice m m' S q1 c q2 p1 p n n2 mid :
  S :: q1 = p1 ++ [p] -> q2 ++ [S] = n :: n2 -> p ∉ p1 -> n ∉ q1 -> p ∉ q2 -> n ∉ n2 ->
  links m (S :: (q1 ++ c :: q2) ++ [S]) -> relinked m m' (S :: q1 ++ q2) p n ->
  links m' (p :: mid ++ [n]) -> links m' (S :: (q1 ++ mid ++ q2) ++ [S]).
Proof.
  intros Hp Hn H1 H2 H3 H4 Hl Hr Hmid.
  replace (S :: (q1 ++ c :: q2) ++ [S]) with (p1 ++ p :: c :: n :: n2) in Hl
    by (rewrite <- app_assoc; cbn [app]; rewrite Hn, app_comm_cons, Hp, <- app_assoc; done).
  replace (S :: (q1 ++ mid ++ q2) ++ [S]) with (p1 ++ p :: mid ++ n :: n2)
    by (rewrite <- !app_assoc, Hn, (app_comm_cons q1), Hp, <- app_assoc; done).
  apply links_app in Hl as [Hl1 (_ & _ & _ & _ & Hl2)].
  apply links_app. split.
  - revert Hl1. apply links_frame; intros x Hx.
    + rewrite removelast_last in Hx. apply Hr; [|set_solver].
      assert (x ∈ S :: q1) by (rewrite Hp; set_solver). set_solver.
    + rewrite <- Hp in Hx. cbn [tail] in Hx. apply Hr; [set_solver|]. set_solver.
  - change (links m' ((p :: mid) ++ n :: n2)). apply links_app. split; [done|].
    revert Hl2. apply links_frame; intros x Hx.
    + rewrite <- Hn, removelast_last in Hx. apply Hr; [set_solver|set_solver].
    + cbn [tail] in Hx. apply Hr; [|set_solver].
      assert (x ∈ q2 ++ [S]) by (rewrite Hn; by right). set_solver.
Qed.

(** The neighbours of a node, and the ring with [mid] in its place. *)
Lemma ring_neighbours m S q1 c q2 : NoDup (S :: q1 ++ c :: q2) -> links m (S :: (q1 ++ c :: q2) ++ [S]) ->
  exists p n, m (prev c) = Some p /\ m (next c) = Some n /\ p ∈ S :: q1 /\ n ∈ S :: q2 /\
  (p = n <-> q1 ++ q2 = []) /\
  forall m' mid, relinked m m' (S :: q1 ++ q2) p n -> links m' (p :: mid ++ [n]) ->
    links m' (S :: (q1 ++ mid ++ q2) ++ [S]).
Proof.
  intros Hnd Hl. destruct (ring_split S c q1 q2 Hnd) as (p1 & p & n & n2 & Hp & Hn & ? & ? & ? & ? & Hpin & Hnin & Heq).
  exists p, n. pose proof Hl as Hl'.
  replace (S :: (q1 ++ c :: q2) ++ [S]) with (p1 ++ p :: c :: n :: n2) in Hl
    by (rewrite <- app_assoc; cbn [app]; rewrite Hn, app_comm_cons, Hp, <- app_assoc; done).
  apply links_app in Hl as [_ (_ & Hc1 & Hc2 & _)].
  split_and!; [done|done|done|done|exact Heq|]. intros m' mid. by eapply links_splice.
Qed.

(** A node put before the first of a ring. *)
Lemma ring_append m S l c : NoDup (S :: l) -> links m (S :: l ++ [S]) ->
  exists t, m (prev S) = Some t /\ t ∈ S :: l /\
  forall m', relinked m m' (S :: l) t S -> links m' [t; c; S] -> links m' (S :: (l ++ [c]) ++ [S]).
Proof.
  intros Hnd Hl. destruct (exists_last (l := S :: l)) as (p1 & t & Hp); [done|]. exists t.
  rewrite app_comm_cons, Hp, <- app_assoc in Hl. cbn [app] in Hl. apply links_app in Hl as [Hl1 (_ & Ht & _)]. pose proof Hnd as Hnd'. rewrite Hp in Hnd. apply NoDup_app in Hnd as (_ & Hd & _).
  apply NoDup_cons in Hnd' as [HS _].
  assert (Htin : t ∈ S :: l) by (rewrite Hp; set_solver). split_and!; [done|done|].
  intros m' Hr Hm.
  replace (S :: (l ++ [c]) ++ [S]) with (p1 ++ t :: c :: [S])
    by (rewrite <- app_assoc, app_comm_cons, Hp, <- app_assoc; done).
  apply links_app. split; [|done]. revert Hl1. apply links_frame; intros x Hx.
  - rewrite removelast_last in Hx. apply Hr; [rewrite Hp; set_solver|set_solver].
  - rewrite <- Hp in Hx. cbn [tail] in Hx. apply Hr; [by right|]. by intros ->.
Qed.
