(* ===== verification/AllocInv.v ===== *)
(** * The invariant of the allocator

    The heap is a row of chunks whose two headers agree; the free chunks are
    on the ring of their bin, and nowhere else; the map of the bins tells which
    rings are empty; no two neighbours are free; and each word that belongs to a
    block in use ([F] gives the words some user relies on) has its value. *)

From S2P Require Import Prelude Alloc AllocBins AllocFacts.

Section invariant.
Context `{B : Statics}.

Definition ring (m : Z -> option Z) (i : Z) (l : list Z) : Prop :=
  links m (BIN_TO_CHUNK i :: l ++ [BIN_TO_CHUNK i]).

(** A bin whose head is NULL was never locked. *)
Definition bin_ok (m : Z -> option Z) (i : Z) (l : list Z) : Prop :=
  (l = [] /\ m (bin_head i) = Some 0 /\ m (bin_tail i) = Some 0) \/ ring m i l.

Record bins_inv (m : Z -> option Z) (bm : Z) (cs : list chunk) (L : Z -> list Z) : Prop := {
  bi_ok : forall i, 0 <= i < 64 -> bin_ok m i (L i);
  bi_range : 0 <= bm < 2 ^ 64;
  bi_map : forall i, 0 <= i < 64 -> Z.testbit bm i = negb (bool_decide (L i = []));
  bi_nodup : forall i, 0 <= i < 64 -> NoDup (L i);
  bi_free : forall i a, 0 <= i < 64 -> a ∈ L i <-> exists n, Chunk a n false ∈ cs /\ bin_index n = i;
}.

(** [b0] and [b] are [mal.brk0] and [mal.brk]. *)
Record heap_inv (m : Z -> option Z) (b0 b : Z) (cs : list chunk) : Prop := {
  hi_chain : chain (b0 + 16) cs (b - 16);
  hi_first : m (psize (b0 + 16)) = Some C_INUSE;
  hi_last : m (csize (b - 16)) = Some C_INUSE;
  hi_headers : forall c, c ∈ cs ->
    m (csize (addr c)) = Some (word c) /\ m (psize (addr c + size c)) = Some (word c);
  hi_coalesced : coalesced cs;
}.

(** The words of the blocks in use: those of the chunks after their headers,
    and those of the blocks with a mapping of their own. *)
Definition owned (cs : list chunk) (bigs : list (Z * Z)) (x : Z) : Prop :=
  (exists c, c ∈ cs /\ inuse c = true /\ addr c + 16 <= x < addr c + size c) \/
  (exists r, r ∈ bigs /\ r.1 + 32 <= x < r.1 + r.2).

Definition mapping_ok (r : Z * Z) : Prop := 0 < r.1 /\ 0 < r.2 /\ r.1 + r.2 <= 2 ^ 47.

Record maps_inv (m : Z -> option Z) (ms bigs : list (Z * Z)) : Prop := {
  mi_bins : mal_bins mod 8 = 0 /\ 32 <= mal_bins /\ (mal_bins, 1536) ∈ ms;
  mi_ok : forall r, r ∈ ms -> mapping_ok r;
  mi_apart : forall r1 r2, r1 ∈ ms -> r2 ∈ ms -> r1 = r2 \/ apart r1 r2;
  mi_mapped : forall r x, r ∈ ms -> within r.1 r.2 x = true -> is_Some (m x);
  mi_nodup : NoDup bigs;
  mi_bigs : forall r, r ∈ bigs -> r ∈ ms /\ r.1 mod 4096 = 0 /\ r.2 mod 4096 = 0 /\
    m (psize (r.1 + 16)) = Some 16 /\ m (csize (r.1 + 16)) = Some (r.2 - 16);
}.

Record region_inv (b0 b : Z) (ms bigs : list (Z * Z)) : Prop := {
  ri_b0 : b0 mod 4096 = 0;
  ri_brk : b mod 32 = 0 /\ b0 + 32 <= b <= b0 + BRKSIZE;
  ri_mapped : (b0, BRKSIZE) ∈ ms;
  ri_bigs : (b0, BRKSIZE) ∉ bigs;
}.

Record data_inv (m : Z -> option Z) (cs : list chunk) (bigs : list (Z * Z)) (F : Z -> option Z) : Prop := {
  di_words : forall x v, F x = Some v -> m x = Some v;
  di_owned : forall x, is_Some (F x) -> owned cs bigs x;
}.

(** The state once the heap is there. *)
Record inv (s : state) (cs : list chunk) (bigs : list (Z * Z)) (F : Z -> option Z) : Prop := {
  inv_maps : maps_inv (memory s) (maps s) bigs;
  inv_region : region_inv (brk0 s) (brk s) (maps s) bigs;
  inv_heap : heap_inv (memory s) (brk0 s) (brk s) cs;
  inv_bins : exists L, bins_inv (memory s) (binmap s) cs L;
  inv_data : data_inv (memory s) cs bigs F;
}.

(** What a step on the chunks leaves alone. *)
Definition same_regions (s s' : state) : Prop :=
  brk s' = brk s /\ brk0 s' = brk0 s /\ heap s' = heap s /\ init s' = init s /\ maps s' = maps s.

#[export] Instance same_regions_preorder : PreOrder same_regions.
Proof using. unfold same_regions. split; [by intros s|]. intros a b c. naive_solver congruence. Qed.

(** ** Where things are *)

(** The bins and the region of the heap, with [mal_bins] aligned and apart. *)
Record layout (b0 b : Z) : Prop := {
  lay_bins : mal_bins mod 8 = 0 /\ 32 <= mal_bins;
  lay_b0 : b0 mod 32 = 0 /\ 0 < b0;
  lay_brk : b mod 32 = 0 /\ b0 + 32 <= b <= b0 + BRKSIZE;
  lay_apart : mal_bins + 1536 <= b0 \/ b0 + BRKSIZE <= mal_bins;
}.

(** Where headers are, and the nodes of the rings. *)
Definition boundary (b0 b c : Z) : Prop := c mod 32 = 16 /\ b0 + 16 <= c <= b - 16.
Definition node (b0 b x : Z) : Prop :=
  (exists i, 0 <= i < 64 /\ x = BIN_TO_CHUNK i) \/ (x mod 32 = 16 /\ b0 + 16 <= x <= b - 48).

Lemma inv_layout s cs bigs F : inv s cs bigs F -> layout (brk0 s) (brk s).
Proof using.
  intros [[(Hb1 & Hb3 & Hb2) Hok Hap _ _ _] [Hr1 Hr2 Hr3 _] _ _ _].
  destruct (Hok _ Hb2) as (H1 & _ & _), (Hok _ Hr3) as (H2 & _ & _). cbn in *.
  split; [lia|split; [div_lia|lia]|lia|].
  destruct (Hap _ _ Hb2 Hr3) as [Heq|H]; [|exact H]. injection Heq as _ Heq. done.
Qed.

Lemma inv_bounds s cs bigs F : inv s cs bigs F -> 0 < brk0 s /\ brk s <= 2 ^ 47.
Proof using.
  intros [[_ Hok _ _ _ _] [_ [_ Hb] Hr _] _ _ _]. destruct (Hok _ Hr) as (H1 & _ & H2). cbn in *. lia.
Qed.

Ltac layout_lia := unfold node, boundary, BIN_TO_CHUNK, bin_head, bin_tail, MEM_TO_CHUNK, OVERHEAD,
  BRKSIZE, next, prev, psize, csize in *; naive_solver div_lia.

Lemma node_next_prev b0 b x y : layout b0 b -> node b0 b x -> node b0 b y -> next x <> prev y.
Proof using. intros [] Hx Hy. unfold node in *. destruct Hx as [(i & ? & ->)|], Hy as [(j & ? & ->)|]; layout_lia. Qed.

Lemma node_header b0 b x c : layout b0 b -> node b0 b x -> boundary b0 b c ->
  next x <> psize c /\ next x <> csize c /\ prev x <> psize c /\ prev x <> csize c.
Proof using. intros [] Hx Hc. unfold node in *. destruct Hx as [(i & ? & ->)|]; layout_lia. Qed.

Lemma psize_csize b0 b c d : boundary b0 b c -> boundary b0 b d -> psize c <> csize d.
Proof using. layout_lia. Qed.

Lemma node_pos b0 b x : layout b0 b -> node b0 b x -> 0 < x.
Proof using. intros [] Hx. destruct Hx as [(i & ? & ->)|]; layout_lia. Qed.

Lemma bin_node b0 b i : 0 <= i < 64 -> node b0 b (BIN_TO_CHUNK i).
Proof using. intros. left. eauto. Qed.

Lemma bin_inj i j : BIN_TO_CHUNK i = BIN_TO_CHUNK j -> i = j.
Proof using. unfold BIN_TO_CHUNK, bin_head, MEM_TO_CHUNK. lia. Qed.

Lemma next_bin i : next (BIN_TO_CHUNK i) = bin_head i.
Proof using. unfold next, BIN_TO_CHUNK, MEM_TO_CHUNK, OVERHEAD. lia. Qed.

Lemma prev_bin i : prev (BIN_TO_CHUNK i) = bin_tail i.
Proof using. unfold prev, BIN_TO_CHUNK, MEM_TO_CHUNK, OVERHEAD, bin_head, bin_tail. lia. Qed.

Lemma chunk_node b0 b cs c : layout b0 b -> chain (b0 + 16) cs (b - 16) -> c ∈ cs -> node b0 b (addr c).
Proof using.
  intros [] Hch Hc. destruct (chain_in _ _ _ _ Hch Hc) as (H1 & H2 & [_ H3] & H4). right.
  rewrite H4. split; [div_lia|lia].
Qed.

Lemma chunk_boundary b0 b cs c : layout b0 b -> chain (b0 + 16) cs (b - 16) -> c ∈ cs ->
  boundary b0 b (addr c) /\ boundary b0 b (addr c + size c).
Proof using.
  intros [] Hch Hc. destruct (chain_in _ _ _ _ Hch Hc) as (H1 & H2 & [H5 H3] & H4).
  unfold boundary. split; split; try lia; [rewrite H4|]; div_lia.
Qed.

Lemma split_boundary b0 b l1 l2 a : layout b0 b -> chain (b0 + 16) l1 a -> chain a l2 (b - 16) -> boundary b0 b a.
Proof using.
  intros [] H1 H2. pose proof (chain_le _ _ _ H1). pose proof (chain_le _ _ _ H2).
  unfold boundary. rewrite (chain_mod _ _ _ H1). split; [div_lia|lia].
Qed.

(** ** What a change of the heap and the bins leaves alone *)
Definition in_region (b0 x : Z) : Prop :=
  b0 <= x < b0 + BRKSIZE \/ mal_bins <= x < mal_bins + 1536.

(** Only words of [P] change, and all of them stay mapped. *)
Definition changes (P : Z -> Prop) (m m' : Z -> option Z) : Prop :=
  forall x, m' x = m x \/ (is_Some (m' x) /\ P x).

Lemma changes_refl P m : changes P m m.
Proof using. by left. Qed.

Lemma changes_upd (P : Z -> Prop) m m' a v : changes P m m' -> P a -> changes P m (upd a v m').
Proof using.
  intros H Ha x. destruct (decide (x = a)) as [->|Hx]; [right; rewrite upd_eq; eauto|].
  rewrite upd_ne by done. apply H.
Qed.

Lemma changes_mono (P P' : Z -> Prop) m m' : changes P m m' -> (forall x, P x -> P' x) -> changes P' m m'.
Proof using. intros H HP x. destruct (H x) as [|[? ?]]; auto. Qed.

Lemma changes_out P m m' x : changes P m m' -> ~ P x -> m' x = m x.
Proof using. intros H Hx. by destruct (H x) as [|[_ ?]]. Qed.

Lemma within_iff a n x : within a n x = true <-> a <= x < a + n /\ x mod 8 = 0.
Proof using. unfold within. split; bool_lia. Qed.

Lemma big_apart b0 b m ms bigs r x : maps_inv m ms bigs -> region_inv b0 b ms bigs -> r ∈ bigs ->
  in_region b0 x -> x < r.1 \/ r.1 + r.2 <= x.
Proof using.
  intros [(_ & _ & Hs) Hok Hap _ _ Hb] [_ _ Hr Hnr] Hin Hx. destruct (Hb _ Hin) as (Hms & _ & Hl & _).
  destruct Hx as [Hx|Hx].
  - destruct (Hap _ _ Hms Hr) as [->|[H|H]]; [done| |]; cbn in H; lia.
  - destruct (Hap _ _ Hms Hs) as [->|[H|H]]; [cbn in Hl; done| |]; cbn in H; lia.
Qed.

Lemma big_bounds m ms bigs r : maps_inv m ms bigs -> r ∈ bigs -> 0 < r.1 /\ 4096 <= r.2 /\ r.1 + r.2 <= 2 ^ 47.
Proof using.
  intros [_ Hok _ _ _ Hb] Hr. destruct (Hb _ Hr) as (Hms & _ & Hl & _). destruct (Hok _ Hms) as (?&?&?).
  split_and!; [done|div_lia|done].
Qed.

Lemma maps_frame b0 b m m' ms bigs : region_inv b0 b ms bigs -> changes (in_region b0) m m' ->
  maps_inv m ms bigs -> maps_inv m' ms bigs.
Proof using.
  intros Hr Ht Hm. pose proof (fun r x => big_apart b0 b m ms bigs r x Hm Hr) as Hbig.
  pose proof (fun r => big_bounds m ms bigs r Hm) as Hbnd. destruct Hm as [? ? ? Hmap ? Hb]. split; try done.
  - intros r x Hin Hx. destruct (Ht x) as [->|[? _]]; eauto.
  - intros r Hin. destruct (Hb _ Hin) as (H1 & H2 & H3 & H4 & H5). specialize (Hbnd r Hin).
    unfold psize, csize in *. split_and!; try done.
    + destruct (Ht (r.1 + 16)) as [->|[_ Hx]]; [done|]. apply (Hbig r) in Hx; [lia|done].
    + destruct (Ht (r.1 + 16 + 8)) as [->|[_ Hx]]; [done|]. apply (Hbig r) in Hx; [lia|done].
Qed.

Lemma region_mapped b0 b m ms bigs x : maps_inv m ms bigs -> region_inv b0 b ms bigs ->
  in_region b0 x -> x mod 8 = 0 -> is_Some (m x).
Proof using.
  intros [(_ & _ & Hs) _ _ Hmap _ _] [_ _ Hr _] [Hx|Hx] H8.
  - apply (Hmap _ x Hr). by apply within_iff.
  - apply (Hmap _ x Hs). by apply within_iff.
Qed.

Lemma node_region b0 b x : layout b0 b -> node b0 b x -> in_region b0 (next x) /\ in_region b0 (prev x).
Proof using. intros [] Hx. unfold in_region. destruct Hx as [(i & ? & ->)|]; layout_lia. Qed.

Lemma boundary_region b0 b c : layout b0 b -> boundary b0 b c -> in_region b0 (psize c) /\ in_region b0 (csize c).
Proof using. intros [] Hc. unfold in_region. layout_lia. Qed.

Lemma node_aligned b0 b x : layout b0 b -> node b0 b x -> next x mod 8 = 0 /\ prev x mod 8 = 0.
Proof using. intros [] Hx. destruct Hx as [(i & ? & ->)|]; layout_lia. Qed.

(** ** The user's words lie in no header, no free chunk and no bin *)
Definition clear (F : Z -> option Z) (a e : Z) : Prop := forall x, a <= x < e -> F x = None.

Lemma owned_region b0 b m ms bigs cs x : maps_inv m ms bigs -> region_inv b0 b ms bigs ->
  owned cs bigs x -> in_region b0 x ->
  exists c, c ∈ cs /\ inuse c = true /\ addr c + 16 <= x < addr c + size c.
Proof using.
  intros Hm Hr [Ho|(r & Hin & Hx)] Hreg; [done|].
  pose proof (big_apart _ _ _ _ _ _ _ Hm Hr Hin Hreg). pose proof (big_bounds _ _ _ _ Hm Hin). lia.
Qed.

Lemma not_owned (F : Z -> option Z) cs bigs x : (is_Some (F x) -> owned cs bigs x) -> ~ owned cs bigs x -> F x = None.
Proof using. intros H Hn. destruct (F x) eqn:HF; [|done]. destruct Hn. eauto. Qed.

Section clear.
Context (s : state) (cs : list chunk) (bigs : list (Z * Z)) (F : Z -> option Z).
Hypothesis (HI : inv s cs bigs F).

Lemma clear_boundary l1 l2 a : cs = l1 ++ l2 -> chain (brk0 s + 16) l1 a -> clear F a (a + 16).
Proof using HI.
  intros -> H1 x Hx. pose proof (inv_layout _ _ _ _ HI) as HL. destruct HI as [Hm Hr Hh _ [_ Ho]].
  apply (not_owned F (l1 ++ l2) bigs); [apply Ho|]. intros Hown.
  destruct Hh as [Hch _ _ _ _]. pose proof Hch as Hch'. apply chain_app in Hch' as (a' & H1' & H2).
  rewrite (chain_unique _ _ _ _ H1' H1) in H2.
  pose proof (chain_le _ _ _ H1) as Ha1. pose proof (chain_le _ _ _ H2) as Ha2.
  eapply owned_region in Hown as (c & Hc & _ & Hcx); [|done..|].
  - apply elem_of_app in Hc as [Hc|Hc].
    + destruct (chain_in _ _ _ _ H1 Hc). lia.
    + destruct (chain_in _ _ _ _ H2 Hc). lia.
  - left. destruct Hr as [_ [_ ?] _ _]. lia.
Qed.

Lemma clear_free a n : Chunk a n false ∈ cs -> clear F a (a + n).
Proof using HI.
  intros Hin x Hx. pose proof (inv_layout _ _ _ _ HI) as HL. destruct HI as [Hm Hr Hh _ [_ Ho]].
  apply (not_owned F _ _ _ (Ho x)). intros Hown.
  destruct Hh as [Hch _ _ _ _]. destruct (chain_in _ _ _ _ Hch Hin) as (H1 & H2 & _ & _). cbn in *.
  eapply owned_region in Hown as (c & Hc & Hu & Hcx); [|done..|].
  - destruct (chain_disjoint _ _ _ _ _ Hch Hin Hc) as [<-|Hd]; [done|]. cbn in Hd. lia.
  - left. destruct Hr as [_ [_ ?] _ _]. lia.
Qed.

Lemma clear_bins : clear F mal_bins (mal_bins + 1536).
Proof using HI.
  intros x Hx. pose proof (inv_layout _ _ _ _ HI) as HL. destruct HI as [Hm Hr Hh _ [_ Ho]].
  apply (not_owned F _ _ _ (Ho x)). intros Hown.
  eapply owned_region in Hown as (c & Hc & Hu & Hcx); [|done..|by right].
  destruct Hh as [Hch _ _ _ _]. destruct (chain_in _ _ _ _ Hch Hc) as (H1 & H2 & _ & _).
  destruct HL as [_ _ [_ Hb] Hap]. lia.
Qed.

Lemma bin_members L i x : bins_inv (memory s) (binmap s) cs L -> 0 <= i < 64 -> x ∈ L i ->
  exists n, Chunk x n false ∈ cs /\ bin_index n = i.
Proof using. intros HB Hi Hx. by apply HB. Qed.

Lemma ring_node L i x : bins_inv (memory s) (binmap s) cs L -> 0 <= i < 64 ->
  x ∈ BIN_TO_CHUNK i :: L i -> node (brk0 s) (brk s) x.
Proof using HI.
  intros HB Hi Hx. apply elem_of_cons in Hx as [->|Hx]; [by apply bin_node|].
  destruct (bin_members L i x HB Hi Hx) as (n & Hc & _).
  apply (chunk_node _ _ cs (Chunk x n false)); [by eapply inv_layout|apply HI|done].
Qed.

Lemma ring_clear L i x : bins_inv (memory s) (binmap s) cs L -> 0 <= i < 64 ->
  x ∈ BIN_TO_CHUNK i :: L i -> F (next x) = None /\ F (prev x) = None.
Proof using HI.
  intros HB Hi Hx. apply elem_of_cons in Hx as [->|Hx].
  - rewrite next_bin, prev_bin. unfold bin_head, bin_tail. split; apply clear_bins; lia.
  - destruct (bin_members L i x HB Hi Hx) as (n & Hc & _).
    assert (32 <= n).
    { destruct HI as [_ _ [Hch _ _ _ _] _ _]. by destruct (chain_in _ _ _ _ Hch Hc) as (_ & _ & [_ ?] & _); cbn in *; lia. }
    pose proof (clear_free _ _ Hc) as Hcl. unfold next, prev. split; apply Hcl; lia.
Qed.

(** The words of the headers of the chunks, and of the ring of bin [i]. *)
Definition header (x : Z) : Prop := exists l1 l2 c,
  cs = l1 ++ l2 /\ chain (brk0 s + 16) l1 c /\ (x = psize c \/ x = csize c).
Definition ring_field (L : Z -> list Z) (i x : Z) : Prop := exists y,
  y ∈ BIN_TO_CHUNK i :: L i /\ (x = next y \/ x = prev y).
Definition ring_or_header (L : Z -> list Z) (i x : Z) : Prop := ring_field L i x \/ header x.

Lemma header_boundary l1 l2 c : cs = l1 ++ l2 -> chain (brk0 s + 16) l1 c -> boundary (brk0 s) (brk s) c.
Proof using HI.
  intros Heq H1. pose proof (hi_chain _ _ _ _ (inv_heap _ _ _ _ HI)) as Hch. rewrite Heq in Hch.
  apply chain_app in Hch as (c' & H1' & H2). rewrite (chain_unique _ _ _ _ H1' H1) in H2.
  by eapply split_boundary; [eapply inv_layout| |].
Qed.

Lemma footprint_region L i x : bins_inv (memory s) (binmap s) cs L -> 0 <= i < 64 ->
  ring_or_header L i x -> in_region (brk0 s) x.
Proof using HI.
  intros HB Hi [(y & Hy & Hx)|(l1 & l2 & c & Heq & H1 & Hx)].
  - pose proof (node_region _ _ _ (inv_layout _ _ _ _ HI) (ring_node L i y HB Hi Hy)). naive_solver.
  - pose proof (boundary_region _ _ _ (inv_layout _ _ _ _ HI) (header_boundary _ _ _ Heq H1)). naive_solver.
Qed.

Lemma footprint_clear L i x : bins_inv (memory s) (binmap s) cs L -> 0 <= i < 64 ->
  ring_or_header L i x -> F x = None.
Proof using HI.
  intros HB Hi [(y & Hy & Hx)|(l1 & l2 & c & Heq & H1 & Hx)].
  - pose proof (ring_clear L i y HB Hi Hy). naive_solver.
  - pose proof (clear_boundary _ _ _ Heq H1) as Hc. unfold psize, csize in Hx.
    destruct Hx as [-> | ->]; apply Hc; lia.
Qed.

(** The nodes of two rings differ. *)
Lemma ring_apart L i j x y : bins_inv (memory s) (binmap s) cs L -> 0 <= i < 64 -> 0 <= j < 64 -> i <> j ->
  x ∈ BIN_TO_CHUNK i :: L i -> y ∈ BIN_TO_CHUNK j :: L j -> x <> y.
Proof using HI.
  intros HB Hi Hj Hij Hx Hy. pose proof (inv_layout _ _ _ _ HI) as [Hl1 Hl2 Hl3 Hl4].
  pose proof (hi_chain _ _ _ _ (inv_heap _ _ _ _ HI)) as Hch.
  assert (Hch' : forall k z n, 0 <= k < 64 -> Chunk z n false ∈ cs -> z <> BIN_TO_CHUNK k).
  { intros k z n Hk Hn. destruct (chain_in _ _ _ _ Hch Hn) as (? & ? & [_ ?] & _). cbn in *.
    unfold BIN_TO_CHUNK, bin_head, MEM_TO_CHUNK, OVERHEAD. lia. }
  apply elem_of_cons in Hx as [->|Hx], Hy as [->|Hy].
  - intros Heq. by apply bin_inj in Heq.
  - destruct (bin_members L j y HB Hj Hy) as (n & Hn & _). intros Heq. by apply (Hch' i y n).
  - destruct (bin_members L i x HB Hi Hx) as (n & Hn & _). by apply (Hch' j x n).
  - destruct (bin_members L j y HB Hj Hy) as (n & Hn & Hb), (bin_members L i x HB Hi Hx) as (n' & Hn' & Hb').
    intros ->. pose proof (chain_addr_inj _ _ _ _ _ Hch Hn Hn' eq_refl) as [= ->]. congruence.
Qed.

Lemma footprint_other L i j m' : bins_inv (memory s) (binmap s) cs L -> 0 <= i < 64 -> 0 <= j < 64 -> j <> i ->
  changes (ring_or_header L i) (memory s) m' ->
  forall x, x ∈ BIN_TO_CHUNK j :: L j -> m' (next x) = memory s (next x) /\ m' (prev x) = memory s (prev x).
Proof using HI.
  intros HB Hi Hj Hij Hch x Hx. pose proof (inv_layout _ _ _ _ HI) as HL.
  pose proof (ring_node L j x HB Hj Hx) as Hn.
  split; apply (changes_out _ _ _ _ Hch); (intros [(y & Hy & He)|(l1 & l2 & c & Heq & H1 & He)];
    [ pose proof (ring_node L i y HB Hi Hy) as Hny; pose proof (ring_apart L j i x y HB Hj Hi Hij Hx Hy);
      pose proof (node_next_prev _ _ _ _ HL Hn Hny); pose proof (node_next_prev _ _ _ _ HL Hny Hn);
      unfold next, prev in *; lia
    | pose proof (node_header _ _ _ _ HL Hn (header_boundary _ _ _ Heq H1)); naive_solver ]).
Qed.

End clear.

(** ** Reading the headers at a boundary *)
Section boundaries.
Context (s : state) (bigs : list (Z * Z)) (F : Z -> option Z) (l1 l2 : list chunk) (a : Z).
Hypothesis (HI : inv s (l1 ++ l2) bigs F) (H1 : chain (brk0 s + 16) l1 a).

Lemma chain_rest : chain a l2 (brk s - 16).
Proof using HI H1.
  pose proof (hi_chain _ _ _ _ (inv_heap _ _ _ _ HI)) as Hch. apply chain_app in Hch as (a' & H1' & H2).
  by rewrite (chain_unique _ _ _ _ H1' H1) in H2.
Qed.

Lemma left_header : memory s (psize a) = Some (left_word l1).
Proof using HI H1.
  pose proof (inv_heap _ _ _ _ HI) as [Hch Hf Hl Hh _]. unfold left_word.
  destruct l1 as [|x l] using rev_ind; [cbn in H1; subst; exact Hf|].
  rewrite last_snoc. cbn. destruct (Hh x) as [_ Hx]; [set_solver +|].
  apply chain_app in H1 as (b & _ & Hb). cbn in Hb. destruct Hb as (<- & _ & Hb). by rewrite <- Hb.
Qed.

Lemma right_header : memory s (csize a) = Some (right_word l2).
Proof using HI H1.
  pose proof (inv_heap _ _ _ _ HI) as [Hch Hf Hl Hh _]. unfold right_word. pose proof chain_rest as H2.
  destruct l2 as [|x l]; [cbn in *; by subst|]. cbn. destruct (Hh x) as [Hx _]; [set_solver +|].
  destruct H2 as (<- & _). exact Hx.
Qed.

Lemma boundary_at : boundary (brk0 s) (brk s) a.
Proof using HI H1. by apply (header_boundary s _ _ _ HI l1 l2). Qed.

End boundaries.

(** ** Changes of the heap, of a bin and of the words *)
Definition headers (m : Z -> option Z) (cs : list chunk) : Prop :=
  forall c, c ∈ cs -> m (csize (addr c)) = Some (word c) /\ m (psize (addr c + size c)) = Some (word c).

(** The headers outside a range of chunks. *)
Definition same_outside (b0 b a e : Z) (m m' : Z -> option Z) : Prop :=
  forall c, boundary b0 b c ->
    (c <= a \/ e < c -> m' (psize c) = m (psize c)) /\ (c < a \/ e <= c -> m' (csize c) = m (csize c)).

Lemma heap_replace b0 b m m' l1 mid mid' l2 a e :
  layout b0 b -> heap_inv m b0 b (l1 ++ mid ++ l2) -> chain (b0 + 16) l1 a -> chain a mid e -> chain a mid' e ->
  same_outside b0 b a e m m' -> headers m' mid' -> coalesced (l1 ++ mid' ++ l2) ->
  heap_inv m' b0 b (l1 ++ mid' ++ l2).
Proof using.
  intros HL [Hch Hf Hl Hh Hc] H1 Hm Hm' Hout Hhm Hco.
  apply chain_app in Hch as (a' & H1' & Hch). rewrite (chain_unique _ _ _ _ H1' H1) in Hch. clear a' H1'.
  apply chain_app in Hch as (e' & He' & H2). rewrite (chain_unique _ _ _ _ He' Hm) in H2. clear e' He'.
  assert (Hch' : chain (b0 + 16) (l1 ++ mid' ++ l2) (b - 16)).
  { apply chain_app. exists a. split; [done|]. apply chain_app. eauto. }
  pose proof (chain_le _ _ _ H1). pose proof (chain_le _ _ _ H2). pose proof (chain_le _ _ _ Hm).
  split; [done| | | |done].
  - rewrite (proj1 (Hout _ (split_boundary _ _ [] _ _ HL eq_refl Hch'))); [done|lia].
  - assert (Hb : boundary b0 b (b - 16)).
    { apply (split_boundary _ _ (l1 ++ mid' ++ l2) [] _ HL); [done|done]. }
    rewrite (proj2 (Hout _ Hb)); [done|lia].
  - intros c Hin. destruct (chunk_boundary _ _ _ _ HL Hch' Hin) as [Hb1 Hb2].
    rewrite !elem_of_app in Hin. destruct Hin as [Hin|[Hin|Hin]]; [|by apply Hhm|].
    + destruct (Hh c ltac:(set_solver)) as [Hh1 Hh2]. destruct (chain_in _ _ _ _ H1 Hin) as (_ & ? & [_ ?] & _).
      rewrite (proj2 (Hout _ Hb1)), (proj1 (Hout _ Hb2)) by lia. done.
    + destruct (Hh c ltac:(set_solver)) as [Hh1 Hh2]. destruct (chain_in _ _ _ _ H2 Hin) as (? & _ & [_ ?] & _).
      rewrite (proj2 (Hout _ Hb1)), (proj1 (Hout _ Hb2)) by lia. done.
Qed.

Lemma heap_same b0 b m m' cs : layout b0 b -> heap_inv m b0 b cs ->
  (forall c, boundary b0 b c -> m' (psize c) = m (psize c) /\ m' (csize c) = m (csize c)) -> heap_inv m' b0 b cs.
Proof using.
  intros HL [Hch Hf Hl Hhd Hco] Hb. split; try done.
  - rewrite (proj1 (Hb _ (split_boundary _ _ [] _ _ HL eq_refl Hch))). done.
  - assert (Hbe : boundary b0 b (b - 16)) by (eapply (split_boundary _ _ cs []); done).
    by rewrite (proj2 (Hb _ Hbe)).
  - intros c Hc. destruct (chunk_boundary _ _ _ _ HL Hch Hc) as [Hb1 Hb2].
    rewrite (proj2 (Hb _ Hb1)), (proj1 (Hb _ Hb2)). auto.
Qed.

(** Pointers of the nodes of bin [i]. *)
Definition same_links (m m' : Z -> option Z) (L : Z -> list Z) (i : Z) : Prop :=
  forall x, x ∈ BIN_TO_CHUNK i :: L i -> m' (next x) = m (next x) /\ m' (prev x) = m (prev x).

Lemma bin_ok_frame m m' L i : same_links m m' L i -> bin_ok m i (L i) -> bin_ok m' i (L i).
Proof using.
  intros Hs [(H1 & H2 & H3)|H].
  - left. destruct (Hs (BIN_TO_CHUNK i) ltac:(left)) as [Hn Hp].
    rewrite next_bin, prev_bin in *. by rewrite Hn, Hp.
  - right. unfold ring in *. revert H. apply links_frame; intros x Hx; apply Hs.
    + rewrite app_comm_cons, removelast_last in Hx. done.
    + cbn [tail] in Hx. apply elem_of_app in Hx as [Hx|Hx]; [by right|].
      apply list_elem_of_singleton in Hx as ->. left.
Qed.

Lemma bins_frame m m' bm cs cs' L : bins_inv m bm cs L ->
  (forall i, 0 <= i < 64 -> same_links m m' L i) ->
  (forall a n, Chunk a n false ∈ cs' <-> Chunk a n false ∈ cs) -> bins_inv m' bm cs' L.
Proof using.
  intros [H1 H2 H3 H4 H5] Hs Hc. split; try done.
  - intros i Hi. apply (bin_ok_frame m); auto.
  - intros i a Hi. rewrite H5 by done. by setoid_rewrite Hc.
Qed.

(** One bin changes. *)
Lemma bins_change m m' bm bm' cs cs' L i l : bins_inv m bm cs L -> 0 <= i < 64 ->
  (forall j, 0 <= j < 64 -> j <> i -> same_links m m' L j) ->
  ring m' i l -> NoDup l -> 0 <= bm' < 2 ^ 64 ->
  (forall j, 0 <= j < 64 -> j <> i -> Z.testbit bm' j = Z.testbit bm j) ->
  Z.testbit bm' i = negb (bool_decide (l = [])) ->
  (forall a, a ∈ l <-> exists n, Chunk a n false ∈ cs' /\ bin_index n = i) ->
  (forall a n, bin_index n <> i -> Chunk a n false ∈ cs' <-> Chunk a n false ∈ cs) ->
  bins_inv m' bm' cs' (fun j => if decide (j = i) then l else L j).
Proof using.
  intros [H1 H2 H3 H4 H5] Hi Hs Hr Hnd Hbm Hbit Hbi Hl Hc. split; try done.
  - intros j Hj. case_decide as Hji; [subst; by right|]. apply (bin_ok_frame m); auto.
  - intros j Hj. case_decide as Hji; [by subst|]. by rewrite Hbit, H3 by done.
  - intros j Hj. case_decide; auto.
  - intros j a Hj. case_decide as Hji; [by subst|]. rewrite H5 by done.
    split; intros (n & Hn & <-); exists n; (split; [|done]); by apply Hc.
Qed.

(** The user's words stay. *)
Definition keeps (F m m' : Z -> option Z) : Prop := forall x, is_Some (F x) -> m' x = m x.

Lemma changes_keeps (P : Z -> Prop) F m m' : changes P m m' -> (forall x, P x -> F x = None) -> keeps F m m'.
Proof using. intros H HP x Hx. apply (changes_out _ _ _ _ H). intros HPx. rewrite (HP x HPx) in Hx. by destruct Hx. Qed.

Lemma data_frame F m m' cs cs' bigs : data_inv m cs bigs F -> keeps F m m' ->
  (forall x, is_Some (F x) -> owned cs bigs x -> owned cs' bigs x) -> data_inv m' cs' bigs F.
Proof using.
  intros [H1 H2] Hk Ho. split; [|auto]. intros x v Hx. rewrite Hk; eauto.
Qed.

Lemma owned_used F cs cs' bigs :
  (forall c, c ∈ cs -> inuse c = true -> c ∈ cs' \/ clear F (addr c) (addr c + size c)) ->
  forall x, is_Some (F x) -> owned cs bigs x -> owned cs' bigs x.
Proof using.
  intros Hc x Hx [(c & Hin & Hu & Hr)|Hb]; [|by right]. left.
  destruct (Hc c Hin Hu) as [Hin'|Hcl]; [eauto|]. rewrite Hcl in Hx by lia. by destruct Hx.
Qed.

End invariant.
