(* ===== verification/AllocSteps.v ===== *)
(** * The steps on the chunks keep the invariant

    Locking a bin, taking a chunk off its ring ([unbin], [alloc_fwd],
    [alloc_rev]), merging chunks in use, cutting one in two, and putting a
    chunk back on a ring. *)

From S2P Require Import Prelude Alloc AllocBins AllocFacts AllocInv.

Section steps.
Context `{K : Kernel} `{B : Statics}.

(** ** [lock_bin] *)
Lemma ring_head m i l : ring m i l -> exists x, m (bin_head i) = Some x /\ x ∈ BIN_TO_CHUNK i :: l.
Proof using.
  unfold ring. rewrite <- next_bin. destruct l as [|y l]; cbn; intros (H & _).
  - exists (BIN_TO_CHUNK i). split; [done|left].
  - exists y. split; [done|right; left].
Qed.

Definition locked (s : state) (i : Z) : Prop := exists h, memory s (bin_head i) = Some h /\ h <> 0.

Lemma lock_noop s i (Q : unit -> state -> Prop) : locked s i -> Q tt s -> runs (lock_bin i) s Q.
Proof using.
  intros (h & Hh & Hne) HQ. unfold lock_bin. run_step. eapply runs_rd; [done|].
  rewrite (proj2 (Z.eqb_neq h 0) Hne). by apply runs_ret.
Qed.

Section lock.
Context (s : state) (cs : list chunk) (bigs : list (Z * Z)) (F : Z -> option Z).
Hypothesis (HI : inv s cs bigs F).

Lemma ring_locked L i : bins_inv (memory s) (binmap s) cs L -> 0 <= i < 64 -> ring (memory s) i (L i) -> locked s i.
Proof using HI.
  intros HB Hi Hr. destruct (ring_head _ _ _ Hr) as (x & Hx & Hin). exists x. split; [done|].
  pose proof (node_pos _ _ _ (inv_layout _ _ _ _ HI) (ring_node _ _ _ _ HI L i x HB Hi Hin)). lia.
Qed.

Lemma locked_ring L i : bins_inv (memory s) (binmap s) cs L -> 0 <= i < 64 -> locked s i -> ring (memory s) i (L i).
Proof using.
  intros HB Hi (h & Hh & Hne). destruct (bi_ok _ _ _ _ HB i Hi) as [(_ & H0 & _)|]; [congruence|done].
Qed.

Lemma lock_bin_runs i : 0 <= i < 64 -> runs (lock_bin i) s (fun _ s' =>
  inv s' cs bigs F /\ same_regions s s' /\ locked s' i /\
  forall x, brk0 s <= x < brk0 s + BRKSIZE -> memory s' x = memory s x).
Proof using HI.
  intros Hi. pose proof (inv_layout _ _ _ _ HI) as HL. destruct (inv_bins _ _ _ _ HI) as (L & HB).
  destruct (bi_ok _ _ _ _ HB i Hi) as [(HLi & Hh & Ht)|Hr].
  2: { apply lock_noop; [by eapply ring_locked|]. split; [done|]. split; [done|]. split; [by eapply ring_locked|done]. }
  unfold lock_bin. run_step. eapply runs_rd; [done|]. rewrite Z.eqb_refl.
  run_step. apply runs_wr; [by eexists|]. apply runs_wr; [apply upd_mapped; by eexists|].
  set (m' := upd (bin_head i) (BIN_TO_CHUNK i) (upd (bin_tail i) (BIN_TO_CHUNK i) (memory s))).
  change (inv (set_memory (fun _ => m') s) cs bigs F /\ same_regions s s /\ locked (set_memory (fun _ => m') s) i /\
    forall x, brk0 s <= x < brk0 s + BRKSIZE -> m' x = memory s x).
  assert (Hpos : 0 < BIN_TO_CHUNK i) by (apply (node_pos (brk0 s) (brk s)); [done|by apply bin_node]).
  assert (Hfield : ring_field L i (bin_head i) /\ ring_field L i (bin_tail i)).
  { rewrite <- next_bin, <- prev_bin. split; exists (BIN_TO_CHUNK i); (split; [left|tauto]). }
  assert (Hc : changes (ring_field L i) (memory s) m').
  { apply changes_upd; [apply changes_upd; [apply changes_refl|tauto]|tauto]. }
  assert (Hc' : changes (ring_or_header s cs L i) (memory s) m') by (eapply changes_mono; [exact Hc|by left]).
  split_and!; [|done| |].
  - destruct HI as [Hm Hrg Hh' _ Hd]. split; cbn [memory brk brk0 binmap maps set_memory].
    + eapply maps_frame; [done| |done]. eapply changes_mono; [exact Hc'|]. intros x. by eapply footprint_region.
    + done.
    + apply (heap_same _ _ (memory s)); [done|done|]. intros c Hbc.
      split; apply (changes_out _ _ _ _ Hc); intros (y & Hy & He);
        pose proof (node_header _ _ _ _ HL (ring_node _ _ _ _ HI L i y HB Hi Hy) Hbc); naive_solver.
    + exists (fun j => if decide (j = i) then [] else L j).
      apply (bins_change (memory s) m' (binmap s) (binmap s) cs cs L i []); try done.
      * intros j Hj Hji x. by apply (footprint_other _ _ _ _ HI L i j m').
      * unfold ring. cbn [app links]. rewrite next_bin, prev_bin. unfold m'. 
        rewrite upd_eq, upd_ne, upd_eq; [done|]. unfold bin_head, bin_tail. lia.
      * constructor.
      * apply HB.
      * rewrite (bi_map _ _ _ _ HB) by done. by rewrite HLi.
      * intros a. rewrite <- HLi. by apply HB.
    + eapply data_frame; [done| |by intros]. eapply changes_keeps; [exact Hc'|]. intros x. by eapply footprint_clear.
  - exists (BIN_TO_CHUNK i). cbn [memory set_memory]. split; [apply upd_eq|lia].
  - intros x Hx. unfold m'. rewrite !upd_ne; [done|..]; destruct HL; unfold bin_head, bin_tail; lia.
Qed.
End lock.

(** ** [unbin] *)

(** The words that [unbin] writes, [p] and [q] the neighbours of [c] on its ring. *)
Definition unbin_words (c n p q : Z) (m : Z -> option Z) : Z -> option Z :=
  upd (psize (c + n)) (n + 1) (upd (csize c) (n + 1) (upd (prev q) p (upd (next p) q m))).

Lemma unbin_exec s c n p q i : n mod 2 = 0 ->
  memory s (prev c) = Some p -> memory s (next c) = Some q -> p <> c -> q <> c ->
  memory s (csize c) = Some n -> memory s (psize (c + n)) = Some n ->
  is_Some (memory s (next p)) -> is_Some (memory s (prev q)) -> csize c <> psize (c + n) ->
  next p <> prev c -> prev q <> next c ->
  next p <> csize c -> prev q <> csize c -> next p <> psize (c + n) -> prev q <> psize (c + n) ->
  runs (unbin c i) s (fun _ s' => s' = set_memory (unbin_words c n p q)
    (if p =? q then set_binmap (Z.land (binmap s) (Z.lnot (Z.shiftl 1 i))) s else s)).
Proof using.
  intros Hn Hp Hq Hpc Hqc Hcs Hps Hmp Hmq Hne Hf1 Hf2 Hf3 Hf4 Hf5 Hf6. unfold unbin.
  assert (Hpc' : next p <> next c) by (unfold next; lia). assert (Hqc' : prev q <> prev c) by (unfold prev; lia).
  do 2 (run_step; run_step; [done|]). run_step.
  apply (runs_mono _ _ (fun _ s' => s' = if p =? q then set_binmap (Z.land (binmap s) (Z.lnot (Z.shiftl 1 i))) s else s)).
  { by case_if. }
  intros _ s1 Hs1. assert (Hm1 : memory s1 = memory s) by (subst s1; by case_if). rewrite <- Hs1. clear Hs1.
  run_step. run_step; [by rewrite Hm1|]. run_step. run_step; [by rewrite Hm1|]. run_step. run_step; [by rewrite Hm1|].
  run_step. run_step; [cbn [memory set_memory]; rewrite Hm1; by upd_lia|].
  run_step. run_step; [cbn [memory set_memory]; rewrite Hm1; by upd_lia|].
  run_step. run_step; [cbn [memory set_memory]; by apply upd_mapped; rewrite Hm1|].
  run_step. run_step; [cbn [memory set_memory]; rewrite Hm1; by upd_lia|].
  run_step. run_step; [cbn [memory set_memory]; do 2 apply upd_mapped; rewrite Hm1; by eexists|].
  unfold NEXT_CHUNK, CHUNK_SIZE. do 3 run_step.
  run_step; [cbn [memory set_memory]; rewrite Hm1; by upd_lia|]. do 2 run_step.
  rewrite (lor_inuse0 n Hn), (even_word n true Hn).
  run_step. run_step; [cbn [memory set_memory]; rewrite Hm1; by upd_lia|].
  run_step; [cbn [memory set_memory]; do 3 apply upd_mapped; rewrite Hm1; by eexists|].
  rewrite (lor_inuse0 n Hn). done.
Qed.

Section unbin.
Context (s : state) (bigs : list (Z * Z)) (F : Z -> option Z) (l1 l2 : list chunk) (c n : Z).
Let cs := l1 ++ Chunk c n false :: l2.
Let i := bin_index n.
Hypothesis (HI : inv s cs bigs F).

Lemma free_chunk_in : Chunk c n false ∈ cs.
Proof using. apply elem_of_app. right. left. Qed.

Lemma free_chunk_facts : unit_size n /\ 0 <= i < 64 /\ chain (brk0 s + 16) l1 c /\ chain c [Chunk c n false] (c + n) /\
  memory s (csize c) = Some n /\ memory s (psize (c + n)) = Some n.
Proof using HI.
  destruct HI as [_ _ [Hch _ _ Hh _] _ _]. destruct (Hh _ free_chunk_in) as [H1 H2]. cbn in H1, H2.
  unfold word in *. cbn [size inuse Z.b2z] in *. rewrite Z.add_0_r in *.
  destruct (chain_in _ _ _ _ Hch free_chunk_in) as (_ & _ & Hu & _). cbn in Hu.
  apply chain_app in Hch as (b & Hb & Ha & _). cbn in Ha. subst b.
  split_and!; try done; by apply bin_index_range.
Qed.

(** The free chunk on its ring, between [p] and [q]. *)
Record on_ring (L : Z -> list Z) (q1 q2 : list Z) (p q : Z) : Prop := {
  or_split : L i = q1 ++ c :: q2;
  or_nodup : NoDup (BIN_TO_CHUNK i :: q1 ++ c :: q2);
  or_prev : memory s (prev c) = Some p /\ p ∈ BIN_TO_CHUNK i :: L i /\ node (brk0 s) (brk s) p /\ p <> c;
  or_next : memory s (next c) = Some q /\ q ∈ BIN_TO_CHUNK i :: L i /\ node (brk0 s) (brk s) q /\ q <> c;
  or_node : node (brk0 s) (brk s) c;
  or_alone : p = q <-> q1 ++ q2 = [];
  or_splice : forall m' mid, relinked (memory s) m' (BIN_TO_CHUNK i :: q1 ++ q2) p q -> links m' (p :: mid ++ [q]) ->
    ring m' i (q1 ++ mid ++ q2);
}.

Lemma free_chunk_ring L : bins_inv (memory s) (binmap s) cs L -> exists q1 q2 p q, on_ring L q1 q2 p q.
Proof using HI.
  intros HB. destruct free_chunk_facts as (Hu & Hi & _).
  assert (Hin : c ∈ L i) by (apply (bi_free _ _ _ _ HB); [done|]; exists n; by split; [apply free_chunk_in|]).
  pose proof (fun x => ring_node _ _ _ _ HI L i x HB Hi) as Hnode.
  assert (Hcn : node (brk0 s) (brk s) c) by (apply Hnode; by right).
  apply list_elem_of_split in Hin as (q1 & q2 & Hq).
  assert (Hnd : NoDup (BIN_TO_CHUNK i :: q1 ++ c :: q2)).
  { rewrite <- Hq. apply NoDup_cons. split; [|by apply HB]. intros Hin.
    destruct (bin_members _ _ L i _ HB Hi Hin) as (k & Hk & _).
    destruct HI as [_ _ [Hch _ _ _ _] _ _]. pose proof (inv_layout _ _ _ _ HI) as HL.
    destruct (chain_in _ _ _ _ Hch Hk) as (? & ? & [_ ?] & _). destruct HL. cbn in *.
    unfold BIN_TO_CHUNK, bin_head, MEM_TO_CHUNK, OVERHEAD in *. lia. }
  destruct (bi_ok _ _ _ _ HB i Hi) as [(H0 & _)|Hr]; [rewrite Hq in H0; by destruct q1|].
  unfold ring in Hr. rewrite Hq in Hr.
  destruct (ring_neighbours _ _ _ _ _ Hnd Hr) as (p & q & Hp & Hn & Hpin & Hqin & Hpq & Hs).
  apply NoDup_cons in Hnd as Hnd'. destruct Hnd' as [HS Hnd']. apply NoDup_app in Hnd' as (_ & Hd1 & Hd2).
  apply NoDup_cons in Hd2 as [Hd2 _].
  assert (Hpin' : p ∈ BIN_TO_CHUNK i :: L i) by (rewrite Hq; set_solver +Hpin).
  assert (Hqin' : q ∈ BIN_TO_CHUNK i :: L i) by (rewrite Hq; set_solver +Hqin).
  exists q1, q2, p, q. split; auto.
  - split_and!; auto. intros ->. set_solver +Hpin HS Hd1.
  - split_and!; auto. intros ->. set_solver +Hqin HS Hd2.
Qed.

(** The bits of the map after [unbin]. *)
Lemma unbin_map L bm q1 q2 p q : bins_inv (memory s) bm cs L -> 0 <= i < 64 ->
  L i = q1 ++ c :: q2 -> (p = q <-> q1 ++ q2 = []) ->
  let bm' := if p =? q then Z.land bm (Z.lnot (Z.shiftl 1 i)) else bm in
  0 <= bm' < 2 ^ 64 /\ (forall j, 0 <= j < 64 -> j <> i -> Z.testbit bm' j = Z.testbit bm j) /\
  Z.testbit bm' i = negb (bool_decide (q1 ++ q2 = [])).
Proof using.
  intros HB Hi HL Hpq. pose proof (bi_range _ _ _ _ HB) as Hr.
  destruct (Z.eqb_spec p q) as [Heq|Hne]; cbv zeta.
  - split; [apply clear_bit_range; [done|lia]|]. split.
    + intros j Hj Hji. rewrite clear_bit_bits, (proj2 (Z.eqb_neq j i)) by lia. apply andb_true_r.
    + rewrite clear_bit_bits, Z.eqb_refl, bool_decide_eq_true_2 by (tauto || lia). apply andb_false_r.
  - split; [done|]. split; [done|]. rewrite (bi_map _ _ _ _ HB) by done.
    rewrite !bool_decide_eq_false_2; [done|tauto|]. rewrite HL. by destruct q1.
Qed.

(** Which chunks are free once [c] is not. *)
Lemma unbin_free L a : bins_inv (memory s) (binmap s) cs L -> 0 <= i < 64 ->
  chain (brk0 s + 16) (l1 ++ Chunk c n true :: l2) (brk s - 16) -> forall q1 q2, L i = q1 ++ c :: q2 -> NoDup (q1 ++ c :: q2) ->
  a ∈ q1 ++ q2 <-> exists k, Chunk a k false ∈ l1 ++ Chunk c n true :: l2 /\ bin_index k = i.
Proof using.
  intros HB Hi Hch q1 q2 HL Hnd. split.
  - intros Ha. assert (Hac : a <> c).
    { intros ->. apply NoDup_app in Hnd as (_ & Hd & Hnd). apply NoDup_cons in Hnd as [Hc _].
      apply elem_of_app in Ha as [Ha|Ha]; [|done]. apply (Hd c Ha). left. }
    assert (HaL : a ∈ L i) by (rewrite HL; apply elem_of_app; apply elem_of_app in Ha as [|]; [by left|right; by right]).
    apply (bi_free _ _ _ _ HB) in HaL as (k & Hk & Hki); [|done]. exists k. split; [|done].
    apply elem_of_app. apply elem_of_app in Hk as [Hk|Hk]; [by left|].
    apply elem_of_cons in Hk as [Hk|Hk]; [congruence|]. right. by right.
  - intros (k & Hk & Hki). assert (Hac : a <> c).
    { intros ->. assert (Hin : Chunk c n true ∈ l1 ++ Chunk c n true :: l2) by (apply elem_of_app; right; left).
      by pose proof (chain_addr_inj _ _ _ _ _ Hch Hk Hin eq_refl) as [=]. }
    assert (HaL : a ∈ L i).
    { apply (bi_free _ _ _ _ HB); [done|]. exists k. split; [|done]. apply elem_of_app.
      apply elem_of_app in Hk as [Hk|Hk]; [by left|]. apply elem_of_cons in Hk as [Hk|Hk]; [done|]. right. by right. }
    rewrite HL in HaL. apply elem_of_app. apply elem_of_app in HaL as [|HaL]; [by left|].
    apply elem_of_cons in HaL as [|]; [done|]. by right.
Qed.

Lemma free_chunk_boundaries : boundary (brk0 s) (brk s) c /\ boundary (brk0 s) (brk s) (c + n) /\
  header s cs (csize c) /\ header s cs (psize (c + n)).
Proof using HI.
  destruct free_chunk_facts as (Hu & _ & H1 & H2 & _).
  assert (H12 : chain (brk0 s + 16) (l1 ++ [Chunk c n false]) (c + n)) by (apply chain_app; eauto).
  assert (Heq : cs = (l1 ++ [Chunk c n false]) ++ l2) by (unfold cs; by rewrite <- app_assoc).
  split_and!.
  - by apply (header_boundary _ _ _ _ HI l1 (Chunk c n false :: l2)).
  - by apply (header_boundary _ _ _ _ HI (l1 ++ [Chunk c n false]) l2).
  - exists l1, (Chunk c n false :: l2), c. tauto.
  - exists (l1 ++ [Chunk c n false]), l2, (c + n). tauto.
Qed.

Lemma node_mapped x : node (brk0 s) (brk s) x -> is_Some (memory s (next x)) /\ is_Some (memory s (prev x)).
Proof using HI.
  intros Hx. pose proof (inv_layout _ _ _ _ HI) as HL.
  destruct (node_region _ _ _ HL Hx), (node_aligned _ _ _ HL Hx). destruct HI as [Hm Hr _ _ _].
  split; by eapply region_mapped.
Qed.

Section unbin_inv.
Context (L : Z -> list Z) (q1 q2 : list Z) (p q : Z).
Hypothesis (HB : bins_inv (memory s) (binmap s) cs L) (HR : on_ring L q1 q2 p q).
Let m' := unbin_words c n p q (memory s).

Lemma unbin_changes : changes (ring_or_header s cs L i) (memory s) m'.
Proof using HI HR.
  destruct free_chunk_boundaries as (_ & _ & Hh1 & Hh2). destruct HR as [_ _ (_ & Hp & _) (_ & Hq & _) _ _ _].
  unfold m', unbin_words. repeat apply changes_upd; try (by right); [apply changes_refl|left|left]; eexists; eauto.
Qed.

Lemma unbin_heap : heap_inv m' (brk0 s) (brk s) (l1 ++ Chunk c n true :: l2).
Proof using HI HR.
  pose proof (inv_layout _ _ _ _ HI) as HL. destruct free_chunk_facts as (Hu & Hi & H1 & H2 & Hcs & Hps).
  destruct free_chunk_boundaries as (Hb1 & Hb2 & _ & _). destruct HR as [_ _ (_ & _ & Hnp & _) (_ & _ & Hnq & _) _ _ _].
  pose proof (inv_heap _ _ _ _ HI) as HH.
  apply (heap_replace _ _ (memory s) m' l1 [Chunk c n false] [Chunk c n true] l2 c (c + n)); try done.
  - pose proof (proj2 Hu) as Hn32. intros d Hd. pose proof (node_header _ _ _ _ HL Hnp Hd). pose proof (node_header _ _ _ _ HL Hnq Hd).
    pose proof (psize_csize _ _ _ _ Hd Hb1). pose proof (psize_csize _ _ _ _ Hb2 Hd).
    split_hyps. unfold m', unbin_words. split; intros Hdo; rewrite !upd_ne; first [done|fields_ne].
  - intros x Hx. apply list_elem_of_singleton in Hx as ->. cbn [addr size]. unfold word. cbn [size inuse Z.b2z].
    unfold m', unbin_words. pose proof (psize_csize _ _ _ _ Hb2 Hb1).
    by rewrite upd_ne, upd_eq, upd_eq by (by apply not_eq_sym).
  - pose proof (hi_coalesced _ _ _ _ HH) as Hc. cbn [app]. apply coalesced_mid.
    apply coalesced_mid in Hc as (Hc1 & Hc2 & _). tauto.
Qed.

Lemma unbin_bins bm' : 0 <= bm' < 2 ^ 64 -> (forall j, 0 <= j < 64 -> j <> i -> Z.testbit bm' j = Z.testbit (binmap s) j) ->
  Z.testbit bm' i = negb (bool_decide (q1 ++ q2 = [])) ->
  exists L', bins_inv m' bm' (l1 ++ Chunk c n true :: l2) L'.
Proof using HI HR HB.
  intros Hb1 Hb2 Hb3. destruct free_chunk_facts as (Hu & Hi & _ & _).
  destruct free_chunk_boundaries as (Hbc & Hbn & _ & _).
  pose proof (inv_layout _ _ _ _ HI) as HL. pose proof unbin_heap as Hh. pose proof unbin_changes as Hch.
  destruct HR as [HLi Hnd (_ & Hpin & Hnp & _) (_ & Hqin & Hnq & _) Hcn Hpq Hs].
  pose proof (proj2 (proj1 (NoDup_cons _ _) Hnd)) as Hnd'.
  exists (fun j => if decide (j = i) then q1 ++ q2 else L j).
  apply (bins_change (memory s) m' (binmap s) bm' cs); try done.
  - intros j Hj Hji x. by apply (footprint_other _ _ _ _ HI L i j m').
  - apply (Hs m' []).
    + assert (Hsub : forall x, x ∈ BIN_TO_CHUNK i :: q1 ++ q2 -> node (brk0 s) (brk s) x).
      { intros x Hx. apply (ring_node _ _ _ _ HI L i x HB Hi). rewrite HLi. set_solver +Hx. }
      intros x Hx. apply Hsub in Hx. pose proof (node_header _ _ _ _ HL Hx Hbc). pose proof (node_header _ _ _ _ HL Hx Hbn).
      pose proof (node_next_prev _ _ _ _ HL Hx Hnq). pose proof (node_next_prev _ _ _ _ HL Hnp Hx).
      split_hyps. unfold m', unbin_words. split; intros Hxe; rewrite !upd_ne; first [done|fields_ne].
    + cbn [app links]. pose proof (node_header _ _ _ _ HL Hnp Hbc). pose proof (node_header _ _ _ _ HL Hnp Hbn).
      pose proof (node_header _ _ _ _ HL Hnq Hbc). pose proof (node_header _ _ _ _ HL Hnq Hbn).
      pose proof (node_next_prev _ _ _ _ HL Hnp Hnq). split_hyps. unfold m', unbin_words.
      split_and!; [|by rewrite 2!upd_ne, upd_eq by fields_ne|done].
      by rewrite 3!upd_ne, upd_eq by fields_ne.
  - apply NoDup_app in Hnd' as (Hn1 & Hn12 & Hn2). apply NoDup_cons in Hn2 as [_ Hn2].
    apply NoDup_app. split_and!; [done| |done]. intros x Hx Hx2. apply (Hn12 x Hx). by right.
  - intros a. apply (unbin_free L a HB Hi (hi_chain _ _ _ _ Hh) q1 q2 HLi Hnd').
  - intros a k Hk. unfold cs. rewrite !elem_of_app, !elem_of_cons. split; intros [?|[[=]|?]]; auto.
    subst. done.
Qed.

Lemma unbin_inv : inv (set_memory (unbin_words c n p q)
    (if p =? q then set_binmap (Z.land (binmap s) (Z.lnot (Z.shiftl 1 i))) s else s))
  (l1 ++ Chunk c n true :: l2) bigs F.
Proof using HI HR HB.
  destruct free_chunk_facts as (Hu & Hi & _ & _). pose proof unbin_changes as Hch.
  pose proof (unbin_map L _ q1 q2 p q HB Hi (or_split _ _ _ _ _ HR) (or_alone _ _ _ _ _ HR)) as (Hm1 & Hm2 & Hm3).
  pose proof (unbin_bins _ Hm1 Hm2 Hm3) as HB'. pose proof unbin_heap as HH'.
  destruct HI as [Hm Hr Hh _ Hd].
  assert (Hmaps : maps_inv m' (maps s) bigs).
  { eapply maps_frame; [done| |done]. eapply changes_mono; [exact Hch|]. intros x. by eapply footprint_region. }
  assert (Hdata : data_inv m' (l1 ++ Chunk c n true :: l2) bigs F).
  { eapply data_frame; [done|eapply changes_keeps; [exact Hch|]; intros x; by eapply footprint_clear|].
    apply owned_used. intros x Hx Hxu. left. unfold cs in Hx. rewrite elem_of_app, elem_of_cons in *.
    destruct Hx as [?|[->|?]]; [by left|done|by right; right]. }
  by case_if; split.
Qed.
End unbin_inv.

(** The chunk is taken off its ring and marked in use. *)
Lemma unbin_runs : runs (unbin c i) s (fun _ s' =>
  inv s' (l1 ++ Chunk c n true :: l2) bigs F /\ same_regions s s').
Proof using HI.
  pose proof (inv_layout _ _ _ _ HI) as HL. destruct (inv_bins _ _ _ _ HI) as (L & HB).
  destruct free_chunk_facts as (Hu & Hi & H1 & H2 & Hcs & Hps). pose proof (unit_even n Hu) as Hev.
  destruct free_chunk_boundaries as (Hb1 & Hb2 & _ & _).
  destruct (free_chunk_ring L HB) as (q1 & q2 & p & q & HR).
  pose proof (unbin_inv L q1 q2 p q HB HR) as HI'. destruct HR as [_ _ (Hp & _ & Hnp & Hpc) (Hq & _ & Hnq & Hqc) Hcn _ _].
  pose proof (node_header _ _ _ _ HL Hnp Hb1). pose proof (node_header _ _ _ _ HL Hnp Hb2).
  pose proof (node_header _ _ _ _ HL Hnq Hb1). pose proof (node_header _ _ _ _ HL Hnq Hb2).
  pose proof (node_next_prev _ _ _ _ HL Hnp Hcn). pose proof (node_next_prev _ _ _ _ HL Hcn Hnq).
  pose proof (psize_csize _ _ _ _ Hb2 Hb1).
  split_hyps. eapply runs_mono; [apply (unbin_exec s c n p q i); first [done|fields_ne|by apply node_mapped]|].
  intros _ s' ->. split; [done|]. by case_if.
Qed.

End unbin.

(** ** [alloc_rev] and [alloc_fwd] *)
Section alloc.
Context (s : state) (bigs : list (Z * Z)) (F : Z -> option Z) (l1 l2 : list chunk) (a : Z).
Hypothesis (HI : inv s (l1 ++ l2) bigs F) (H1 : chain (brk0 s + 16) l1 a).

Lemma alloc_rev_runs : runs (alloc_rev a) s (fun r s' => same_regions s s' /\
  ((r = false /\ left_used l1 /\ s' = s) \/
   (r = true /\ exists l p k, l1 = l ++ [Chunk p k false] /\ a = p + k /\ inv s' (l ++ Chunk p k true :: l2) bigs F))).
Proof using HI H1.
  pose proof (left_header _ _ _ _ _ _ HI H1) as Hw. pose proof (left_word_used _ _ _ H1) as Hu.
  unfold alloc_rev, rounds, alloc_rev_loop. run_step. run_step; [done|]. rewrite Hu.
  destruct (from_option inuse true (last l1)) eqn:Hlu.
  { run_step. split; [done|]. by left. }
  destruct l1 as [|x l _] using rev_ind; [done|]. rewrite last_snoc in Hlu. cbn in Hlu.
  destruct x as [p k u]. cbn in Hlu. subst u. rewrite <- app_assoc in HI. cbn [app] in HI.
  pose proof (free_chunk_facts _ _ _ _ _ _ _ HI) as (Hk & Hi & H1' & _ & Hcs & _).
  apply chain_app in H1 as (p' & Hp' & Hp). rewrite (chain_unique _ _ _ _ Hp' H1') in Hp.
  destruct Hp as (_ & _ & Ha). cbn in Ha. pose proof (unit_even _ Hk) as Hev.
  unfold left_word in *. rewrite last_snoc in *. cbn in Hw |- *. unfold word in *. cbn [size inuse Z.b2z] in *.
  rewrite Z.add_0_r in *. run_step. eapply runs_mono; [apply (lock_bin_runs _ _ _ _ HI _ Hi)|].
  intros _ s1 (HI1 & Hs1 & _ & Hm). pose proof Hs1 as (Hb & Hb0 & _).
  assert (Hin : forall x, boundary (brk0 s) (brk s) x -> memory s1 (psize x) = memory s (psize x)).
  { intros x Hx. apply Hm. destruct (inv_layout _ _ _ _ HI) as [_ _ Hbr _]. unfold boundary, psize in *. lia. }
  assert (Hps : memory s1 (psize a) = Some k).
  { rewrite Hin; [by rewrite Hw|]. subst a. by destruct (free_chunk_boundaries _ _ _ _ _ _ _ HI) as (_ & ? & _). }
  run_step. run_step; [done|]. rewrite Z.eqb_refl. run_step. unfold PREV_CHUNK, CHUNK_PSIZE.
  do 3 run_step. { exact Hps. } do 2 run_step. rewrite (even_free k Hev).
  replace (a - k) with p by lia. run_step. eapply runs_mono; [apply (unbin_runs _ _ _ _ _ _ _ HI1)|].
  intros _ s2 (HI2 & Hs2). run_step. split; [by etrans|]. right. split; [done|]. exists l, p, k. auto.
Qed.

Lemma alloc_fwd_runs : runs (alloc_fwd a) s (fun r s' => same_regions s s' /\
  ((r = false /\ right_used l2 /\ s' = s) \/
   (r = true /\ exists l k, l2 = Chunk a k false :: l /\ inv s' (l1 ++ Chunk a k true :: l) bigs F))).
Proof using HI H1.
  pose proof (right_header _ _ _ _ _ _ HI H1) as Hw. pose proof (chain_rest _ _ _ _ _ _ HI H1) as H2.
  pose proof (right_word_used _ _ _ H2) as Hu.
  unfold alloc_fwd, rounds, alloc_fwd_loop. run_step. run_step; [done|]. rewrite Hu.
  destruct (from_option inuse true (head l2)) eqn:Hlu.
  { run_step. split; [done|]. by left. }
  destruct l2 as [|[c k u] l]; [done|]. cbn in Hlu. subst u. destruct H2 as (Hc & _). cbn in Hc. subst c.
  pose proof (free_chunk_facts _ _ _ _ _ _ _ HI) as (Hk & Hi & _ & _ & Hcs & _).
  unfold right_word in *. cbn in Hw |- *. unfold word in *. cbn [size inuse Z.b2z] in *.
  rewrite Z.add_0_r in *. run_step. eapply runs_mono; [apply (lock_bin_runs _ _ _ _ HI _ Hi)|].
  intros _ s1 (HI1 & Hs1 & _ & Hm).
  pose proof (free_chunk_facts _ _ _ _ _ _ _ HI1) as (_ & _ & _ & _ & Hcs1 & _).
  run_step. run_step; [done|]. rewrite Z.eqb_refl. run_step.
  eapply runs_mono; [apply (unbin_runs _ _ _ _ _ _ _ HI1)|].
  intros _ s2 (HI2 & Hs2). run_step. split; [by etrans|]. right. split; [done|]. exists l, k. auto.
Qed.
End alloc.

(** ** Chunks in use change their boundaries *)
Section remid.
Context (s : state) (bigs : list (Z * Z)) (F : Z -> option Z) (l1 mid mid' l2 : list chunk) (a e : Z) (m' : Z -> option Z).
Hypothesis (HI : inv s (l1 ++ mid ++ l2) bigs F) (H1 : chain (brk0 s + 16) l1 a)
  (Hmid : chain a mid e) (Hmid' : chain a mid' e) (Hne : mid' <> []) (Hu : all_used mid) (Hu' : all_used mid')
  (Hh : headers m' mid')
  (Hch : changes (fun x => a + 8 <= x <= e /\ F x = None) (memory s) m')
  (Hown : forall x, is_Some (F x) -> owned mid [] x -> owned mid' [] x).

Lemma remid_bounds : brk0 s + 16 <= a /\ a <= e /\ e <= brk s - 16 /\ chain e l2 (brk s - 16).
Proof using HI H1 Hmid.
  pose proof (chain_rest _ _ _ _ _ _ HI H1) as H2. apply chain_app in H2 as (e' & He & H2).
  rewrite (chain_unique _ _ _ _ He Hmid) in H2. pose proof (chain_le _ _ _ H1). pose proof (chain_le _ _ _ H2).
  pose proof (chain_le _ _ _ Hmid). done.
Qed.

Lemma remid_free c k : Chunk c k false ∈ l1 ++ mid' ++ l2 <-> Chunk c k false ∈ l1 ++ mid ++ l2.
Proof using Hu Hu'.
  rewrite !elem_of_app. unfold all_used in *. rewrite Forall_forall in Hu, Hu'.
  split; intros [?|[Hin|?]]; auto; [apply Hu' in Hin|apply Hu in Hin]; done.
Qed.

(** No field of a ring lies between [a] and [e]. *)
Lemma remid_links L i : bins_inv (memory s) (binmap s) (l1 ++ mid ++ l2) L -> 0 <= i < 64 -> same_links (memory s) m' L i.
Proof using HI H1 Hmid Hu Hch.
  intros HB Hi x Hx. destruct remid_bounds as (Ha & _ & He & H2).
  assert (Hx' : x + 32 <= a \/ e <= x \/ exists j, 0 <= j < 64 /\ x = BIN_TO_CHUNK j).
  { apply elem_of_cons in Hx as [->|Hx]; [eauto|].
    destruct (bin_members _ _ L i x HB Hi Hx) as (k & Hk & _). rewrite !elem_of_app in Hk. destruct Hk as [Hk|[Hk|Hk]].
    - destruct (chain_in _ _ _ _ H1 Hk) as (_ & ? & [_ ?] & _). cbn in *. lia.
    - unfold all_used in Hu. rewrite Forall_forall in Hu. by apply Hu in Hk.
    - destruct (chain_in _ _ _ _ H2 Hk) as (? & _). cbn in *. lia. }
  destruct (inv_layout _ _ _ _ HI) as [Hl1 Hl2 Hl3 Hl4].
  split; apply (changes_out _ _ _ _ Hch); intros [? _]; unfold next, prev in *;
    (destruct Hx' as [?|[?|(j & ? & ->)]]; [lia|lia|]);
    unfold BIN_TO_CHUNK, bin_head, MEM_TO_CHUNK, OVERHEAD in *; lia.
Qed.

Lemma inv_remid : inv (set_memory (fun _ => m') s) (l1 ++ mid' ++ l2) bigs F.
Proof using HI H1 Hmid Hmid' Hne Hu Hu' Hh Hch Hown.
  pose proof (inv_layout _ _ _ _ HI) as HL. destruct remid_bounds as (Ha & _ & He & H2).
  pose proof remid_links as Hlinks. destruct HI as [Hm Hr HH (L & HB) Hd]. split; cbn [memory set_memory brk brk0 binmap maps].
  - eapply maps_frame; [done| |done]. eapply changes_mono; [exact Hch|]. cbn. intros x [Hx _]. left.
    destruct HL as [_ _ [_ ?] _]. lia.
  - done.
  - apply (heap_replace _ _ (memory s) m' l1 mid mid' l2 a e); try done.
    { intros d _. split; intros Hdo; apply (changes_out _ _ _ _ Hch); unfold psize, csize; lia. }
    destruct (coalesced_used _ _ _ (hi_coalesced _ _ _ _ HH)). by apply coalesced_replace.
  - exists L. apply (bins_frame (memory s) m' _ (l1 ++ mid ++ l2)); [done| |intros; apply remid_free].
    intros i Hi. by apply Hlinks.
  - eapply data_frame; [done|eapply changes_keeps; [exact Hch|by intros x [_ ?]]|].
    intros x Hx [(c & Hc & Hcu & Hcx)|Hb]; [|by right]. rewrite !elem_of_app in Hc. destruct Hc as [Hc|[Hc|Hc]].
    + left. exists c. rewrite elem_of_app. auto.
    + destruct (Hown x Hx) as [(c' & Hc' & ?)|(? & Hr' & _)]; [left; eauto| |by apply not_elem_of_nil in Hr'].
      left. exists c'. rewrite !elem_of_app. auto.
    + left. exists c. rewrite !elem_of_app. auto.
Qed.
End remid.

(** A run of chunks in use becomes one. *)
Lemma inv_merge s bigs F l1 mid l2 a e m' :
  inv s (l1 ++ mid ++ l2) bigs F -> chain (brk0 s + 16) l1 a -> chain a mid e -> mid <> [] -> all_used mid ->
  m' (csize a) = Some (e - a + 1) -> m' (psize e) = Some (e - a + 1) ->
  changes (fun x => a + 8 <= x <= e /\ F x = None) (memory s) m' ->
  inv (set_memory (fun _ => m') s) (l1 ++ Chunk a (e - a) true :: l2) bigs F.
Proof using.
  intros HI H1 Hmid Hne Hu Hc Hp Hch.
  destruct (remid_bounds _ _ _ _ _ _ _ _ HI H1 Hmid) as (Ha & Hae & He & _).
  assert (Hsz : unit_size (e - a)).
  { apply (chain_unit a mid); [done|done|]. destruct (inv_layout _ _ _ _ HI) as [_ _ [_ ?] _]. unfold BRKSIZE in *. lia. }
  apply (inv_remid s bigs F l1 mid [Chunk a (e - a) true] l2 a e m'); try done.
  - cbn. split_and!; [done|done|lia].
  - by repeat constructor.
  - intros c Hcin. apply list_elem_of_singleton in Hcin as ->. cbn [addr size]. unfold word. cbn [size inuse Z.b2z].
    replace (a + (e - a)) with e by lia. done.
  - intros x _ [(c & Hcin & _ & Hx)|(r & Hr & _)]; [|by apply not_elem_of_nil in Hr]. left.
    exists (Chunk a (e - a) true). cbn. split_and!; [left|done|..]; destruct (chain_in _ _ _ _ Hmid Hcin); lia.
Qed.

(** A chunk in use is cut in two. *)
Definition split_words (a n n1 : Z) (m : Z -> option Z) : Z -> option Z :=
  upd (csize a) (n + 1) (upd (psize (a + n1)) (n1 - n + 1)
    (upd (csize (a + n)) (n1 - n + 1) (upd (psize (a + n)) (n + 1) m))).

Lemma inv_split s bigs F l1 l2 a n n1 :
  inv s (l1 ++ Chunk a n1 true :: l2) bigs F -> chain (brk0 s + 16) l1 a -> unit_size n -> n < n1 ->
  clear F (a + n) (a + n1) ->
  inv (set_memory (split_words a n n1) s) (l1 ++ Chunk a n true :: Chunk (a + n) (n1 - n) true :: l2) bigs F.
Proof using.
  intros HI H1 Hn Hlt Hcl. pose proof (chain_rest _ _ _ _ _ _ HI H1) as H2. cbn [chain addr size] in H2.
  destruct H2 as (_ & Hn1 & H2).
  assert (Hdiff : unit_size (n1 - n)) by (clear -Hn Hn1 Hlt; unfold unit_size in *; div_lia).
  assert (He : F (a + n1) = None).
  { apply (clear_boundary _ _ _ _ HI (l1 ++ [Chunk a n1 true]) l2 (a + n1)); [by rewrite <- app_assoc| |lia].
    apply chain_app. exists a. cbn. auto. }
  assert (Ha : F (a + 8) = None) by (apply (clear_boundary _ _ _ _ HI l1 _ a eq_refl H1); lia).
  pose proof (proj2 Hn). pose proof (proj2 Hdiff).
  apply (inv_remid s bigs F l1 [Chunk a n1 true] [Chunk a n true; Chunk (a + n) (n1 - n) true] l2 a (a + n1)
    (split_words a n n1 (memory s))); try done.
  - cbn. split_and!; try done. lia.
  - by repeat constructor.
  - by repeat constructor.
  - intros c Hc. unfold word, split_words, psize, csize. apply elem_of_cons in Hc as [->|Hc]; [|apply list_elem_of_singleton in Hc as ->];
      cbn [addr size inuse Z.b2z]; [by upd_lia|]. replace (a + n + (n1 - n)) with (a + n1) by lia. by upd_lia.
  - unfold split_words.
    repeat apply changes_upd; [apply changes_refl|..]; unfold psize, csize; (split; [lia|]); first [done|apply Hcl; lia].
  - intros x Hx [(c & Hc & _ & Hcx)|(r & Hr & _)]; [|by apply not_elem_of_nil in Hr].
    apply list_elem_of_singleton in Hc as ->. cbn in Hcx.
    destruct (Z_lt_le_dec x (a + n)); [|rewrite Hcl in Hx by lia; by destruct Hx].
    left. exists (Chunk a n true). cbn. split_and!; [left|done|lia|lia].
Qed.

End steps.
