(* ===== verification/AllocBin.v ===== *)
(** * Putting a chunk on the ring of its bin (the end of [free]) *)

From S2P Require Import Prelude Alloc AllocBins AllocFacts AllocInv AllocSteps.

Section rebin.
Context `{K : Kernel} `{B : Statics}.
Context (s : state) (bigs : list (Z * Z)) (F : Z -> option Z) (l1 l2 : list chunk) (a k : Z).
Let cs := l1 ++ Chunk a k true :: l2.
Let cs' := l1 ++ Chunk a k false :: l2.
Let i := bin_index k.
Hypothesis (HI : inv s cs bigs F) (Hl : left_used l1) (Hr : right_used l2) (Hcl : clear F a (a + k)) (Hlk : locked s i).

Lemma used_chunk_facts : unit_size k /\ 0 <= i < 64 /\ chain (brk0 s + 16) l1 a /\ chain (a + k) l2 (brk s - 16).
Proof using HI.
  pose proof (hi_chain _ _ _ _ (inv_heap _ _ _ _ HI)) as Hch. apply chain_app in Hch as (b & Hb & Ha & Hu & H2).
  cbn in Ha, Hu, H2. subst b. split_and!; try done; by apply bin_index_range.
Qed.

Lemma used_chunk_boundaries : boundary (brk0 s) (brk s) a /\ boundary (brk0 s) (brk s) (a + k) /\ F (a + k) = None /\
  node (brk0 s) (brk s) a.
Proof using HI.
  destruct used_chunk_facts as (Hu & Hi & H1 & H2).
  assert (H12 : chain (brk0 s + 16) (l1 ++ [Chunk a k true]) (a + k)) by (apply chain_app; exists a; by split).
  assert (Heq : cs = (l1 ++ [Chunk a k true]) ++ l2) by (unfold cs; by rewrite <- app_assoc).
  split_and!.
  - by apply (header_boundary _ _ _ _ HI l1 (Chunk a k true :: l2)).
  - by apply (header_boundary _ _ _ _ HI (l1 ++ [Chunk a k true]) l2).
  - apply (clear_boundary _ _ _ _ HI _ _ _ Heq H12). lia.
  - apply (chunk_node _ _ cs (Chunk a k true)); [by eapply inv_layout|apply HI|]. apply elem_of_app. right. left.
Qed.

(** The words that [rebin] writes, [t] the last of the ring. *)
Definition rebin_words (t : Z) (m : Z -> option Z) : Z -> option Z :=
  upd (next t) a (upd (prev (BIN_TO_CHUNK i)) a (upd (prev a) t (upd (next a) (BIN_TO_CHUNK i)
    (upd (psize (a + k)) k (upd (csize a) k m))))).

(** No node of a ring is the chunk. *)
Lemma ring_other L j x : bins_inv (memory s) (binmap s) cs L -> 0 <= j < 64 -> x ∈ BIN_TO_CHUNK j :: L j -> x <> a.
Proof using HI.
  intros HB Hj Hx ->. destruct used_chunk_facts as ([_ Hu] & _ & H1 & H2). destruct (inv_layout _ _ _ _ HI) as [Hl1 Hl2 Hl3 Hl4].
  pose proof (chain_le _ _ _ H1). pose proof (chain_le _ _ _ H2).
  apply elem_of_cons in Hx as [Hx|Hx].
  - unfold BIN_TO_CHUNK, bin_head, MEM_TO_CHUNK, OVERHEAD in *. lia.
  - destruct (bin_members _ _ L j a HB Hj Hx) as (n & Hn & _).
    assert (Hin : Chunk a k true ∈ cs) by (apply elem_of_app; right; left).
    by pose proof (chain_addr_inj _ _ _ _ _ (hi_chain _ _ _ _ (inv_heap _ _ _ _ HI)) Hn Hin eq_refl) as [=].
Qed.

Section on_ring.
Context (L : Z -> list Z) (t : Z).
Hypothesis (HB : bins_inv (memory s) (binmap s) cs L) (Ht : t ∈ BIN_TO_CHUNK i :: L i).
Hypothesis (Happ : forall m', relinked (memory s) m' (BIN_TO_CHUNK i :: L i) t (BIN_TO_CHUNK i) ->
  links m' [t; a; BIN_TO_CHUNK i] -> ring m' i (L i ++ [a])).
Let m' := rebin_words t (memory s).

Lemma rebin_nodes : node (brk0 s) (brk s) t /\ node (brk0 s) (brk s) (BIN_TO_CHUNK i) /\ t <> a /\ BIN_TO_CHUNK i <> a.
Proof using HI HB Ht.
  destruct used_chunk_facts as (_ & Hi & _). split_and!.
  - by apply (ring_node _ _ _ _ HI L i).
  - by apply bin_node.
  - by apply (ring_other L i).
  - apply (ring_other L i); [done|done|left].
Qed.

(** The words that change. *)
Definition rebin_footprint (x : Z) : Prop :=
  ring_or_header s cs L i x \/ x = next a \/ x = prev a.

Lemma rebin_changes : changes rebin_footprint (memory s) m'.
Proof using HI Ht.
  destruct used_chunk_facts as (Hu & Hi & H1 & H2).
  assert (Hh1 : header s cs (csize a)) by (exists l1, (Chunk a k true :: l2), a; tauto).
  assert (Hh2 : header s cs (psize (a + k))).
  { exists (l1 ++ [Chunk a k true]), l2, (a + k). split_and!; [unfold cs; by rewrite <- app_assoc| |tauto].
    apply chain_app. exists a. by split. }
  unfold m', rebin_words, rebin_footprint. repeat apply changes_upd; try tauto.
  - apply changes_refl.
  - left. by right.
  - left. by right.
  - left. left. exists (BIN_TO_CHUNK i). split; [left|tauto].
  - left. left. exists t. tauto.
Qed.

Lemma rebin_footprint_ok x : rebin_footprint x -> in_region (brk0 s) x /\ F x = None.
Proof using HI HB Hcl.
  destruct used_chunk_facts as ([_ Hu] & Hi & _). destruct used_chunk_boundaries as (_ & _ & _ & Hn).
  pose proof (node_region _ _ _ (inv_layout _ _ _ _ HI) Hn) as [? ?].
  intros [Hx|[-> | ->]].
  - split; [by eapply footprint_region|by eapply footprint_clear].
  - split; [done|]. apply Hcl. unfold next. lia.
  - split; [done|]. apply Hcl. unfold prev. lia.
Qed.

Lemma rebin_others j : 0 <= j < 64 -> j <> i -> same_links (memory s) m' L j.
Proof using HI HB Ht.
  intros Hj Hji x Hx. destruct used_chunk_facts as (_ & Hi & _). destruct used_chunk_boundaries as (Hb1 & Hb2 & _ & Hn).
  pose proof (inv_layout _ _ _ _ HI) as HL. pose proof (ring_node _ _ _ _ HI L j x HB Hj Hx) as Hnx.
  pose proof (ring_other L j x HB Hj Hx) as Hxa. destruct rebin_nodes as (Hnt & Hns & _ & _).
  pose proof (ring_apart _ _ _ _ HI L j i x t HB Hj Hi Hji Hx Ht) as Hxt.
  assert (Hxs : x <> BIN_TO_CHUNK i) by (apply (ring_apart _ _ _ _ HI L j i); [done..|left]).
  pose proof (node_header _ _ _ _ HL Hnx Hb1). pose proof (node_header _ _ _ _ HL Hnx Hb2).
  pose proof (node_next_prev _ _ _ _ HL Hnx Hn). pose proof (node_next_prev _ _ _ _ HL Hn Hnx).
  pose proof (node_next_prev _ _ _ _ HL Hnx Hns). pose proof (node_next_prev _ _ _ _ HL Hnt Hnx).
  split_hyps. unfold m', rebin_words. split; rewrite !upd_ne; first [done|fields_ne].
Qed.

Lemma rebin_heap : heap_inv m' (brk0 s) (brk s) cs'.
Proof using HI HB Ht Hl Hr.
  pose proof (inv_layout _ _ _ _ HI) as HL. destruct used_chunk_facts as (Hu & Hi & H1 & H2).
  destruct used_chunk_boundaries as (Hb1 & Hb2 & _ & Hn). destruct rebin_nodes as (Hnt & Hns & _ & _).
  pose proof (inv_heap _ _ _ _ HI) as HH. pose proof (proj2 Hu) as Hk32.
  apply (heap_replace _ _ (memory s) m' l1 [Chunk a k true] [Chunk a k false] l2 a (a + k)); try done.
  - intros d Hd. pose proof (node_header _ _ _ _ HL Hnt Hd). pose proof (node_header _ _ _ _ HL Hns Hd).
    pose proof (node_header _ _ _ _ HL Hn Hd).
    pose proof (psize_csize _ _ _ _ Hd Hb1). pose proof (psize_csize _ _ _ _ Hb2 Hd).
    split_hyps. unfold m', rebin_words. split; intros Hdo; rewrite !upd_ne; first [done|fields_ne].
  - intros x Hx. apply list_elem_of_singleton in Hx as ->. cbn [addr size]. unfold word. cbn [size inuse Z.b2z].
    rewrite Z.add_0_r. pose proof (psize_csize _ _ _ _ Hb2 Hb1).
    pose proof (node_header _ _ _ _ HL Hnt Hb1). pose proof (node_header _ _ _ _ HL Hns Hb1). pose proof (node_header _ _ _ _ HL Hn Hb1).
    pose proof (node_header _ _ _ _ HL Hnt Hb2). pose proof (node_header _ _ _ _ HL Hns Hb2). pose proof (node_header _ _ _ _ HL Hn Hb2).
    split_hyps. unfold m', rebin_words. split; repeat first [rewrite upd_eq; done | rewrite upd_ne by fields_ne].
  - pose proof (hi_coalesced _ _ _ _ HH) as Hc. cbn [app]. apply coalesced_mid.
    apply coalesced_mid in Hc as (Hc1 & Hc2 & _). tauto.
Qed.

Lemma rebin_ring : ring m' i (L i ++ [a]).
Proof using HI HB Ht Happ.
  pose proof (inv_layout _ _ _ _ HI) as HL. destruct used_chunk_facts as (_ & Hi & _).
  destruct used_chunk_boundaries as (Hb1 & Hb2 & _ & Hn). destruct rebin_nodes as (Hnt & Hns & Hta & Hsa).
  apply Happ.
  - intros x Hx. pose proof (ring_node _ _ _ _ HI L i x HB Hi Hx) as Hnx. pose proof (ring_other L i x HB Hi Hx) as Hxa.
    pose proof (node_header _ _ _ _ HL Hnx Hb1). pose proof (node_header _ _ _ _ HL Hnx Hb2).
    pose proof (node_next_prev _ _ _ _ HL Hnx Hn). pose proof (node_next_prev _ _ _ _ HL Hn Hnx).
    pose proof (node_next_prev _ _ _ _ HL Hnx Hns). pose proof (node_next_prev _ _ _ _ HL Hnt Hnx).
    split_hyps. unfold m', rebin_words. split; intros Hxe; rewrite !upd_ne; first [done|fields_ne].
  - pose proof (node_next_prev _ _ _ _ HL Hnt Hn). pose proof (node_next_prev _ _ _ _ HL Hnt Hns).
    pose proof (node_next_prev _ _ _ _ HL Hn Hns). pose proof (node_next_prev _ _ _ _ HL Hn Hn).
    unfold m', rebin_words. cbn [links].
    split_and!; try done; repeat first [rewrite upd_eq; done | rewrite upd_ne by fields_ne].
Qed.

Lemma rebin_free x : x ∈ L i ++ [a] <-> exists n, Chunk x n false ∈ cs' /\ bin_index n = i.
Proof using HI HB Ht Hl Hr.
  destruct used_chunk_facts as (_ & Hi & _). pose proof (bi_free _ _ _ _ HB i x Hi) as HL.
  rewrite elem_of_app, HL, list_elem_of_singleton. unfold cs, cs'. split.
  - intros [(n & Hn & Hni)| ->].
    + exists n. split; [|done]. rewrite elem_of_app, elem_of_cons in *. destruct Hn as [?|[[=]|?]]; auto.
    + exists k. split; [|done]. apply elem_of_app. right. left.
  - intros (n & Hn & Hni). rewrite elem_of_app, elem_of_cons in Hn. destruct Hn as [?|[[=]|?]]; [left|by right|left];
      exists n; (split; [|done]); rewrite elem_of_app, elem_of_cons; auto.
Qed.

Lemma rebin_inv bm' : 0 <= bm' < 2 ^ 64 -> (forall j, 0 <= j < 64 -> Z.testbit bm' j = Z.testbit (binmap s) j || (j =? i)) ->
  inv (set_binmap bm' (set_memory (fun _ => m') s)) cs' bigs F.
Proof using HI HB Ht Happ Hl Hr Hcl.
  intros Hbm Hbits. destruct used_chunk_facts as (Hu & Hi & _). pose proof rebin_changes as Hch.
  pose proof rebin_heap as Hh'. pose proof rebin_ring as Hring. pose proof rebin_free as Hfree.
  pose proof rebin_footprint_ok as Hfp. pose proof rebin_others as Ho. pose proof (ring_other L i a HB Hi) as Hra.
  destruct HI as [Hm Hrg HH _ Hd]. split; cbn [memory set_memory set_binmap brk brk0 binmap maps].
  - eapply maps_frame; [done| |done]. eapply changes_mono; [exact Hch|]. intros x Hx. by apply Hfp.
  - done.
  - done.
  - exists (fun j => if decide (j = i) then L i ++ [a] else L j).
    apply (bins_change (memory s) m' (binmap s) bm' cs); try done.
    + apply NoDup_app. split_and!; [by apply HB| |apply NoDup_singleton]. intros x Hx Hxa.
      apply list_elem_of_singleton in Hxa as ->. apply Hra; [by right|done].
    + intros j Hj Hji. rewrite Hbits by done. rewrite (proj2 (Z.eqb_neq j i)) by done. apply orb_false_r.
    + rewrite Hbits by done. rewrite Z.eqb_refl, orb_true_r. rewrite bool_decide_eq_false_2; [done|]. by destruct (L i).
    + intros x n Hn. unfold cs, cs'. rewrite !elem_of_app, !elem_of_cons. split; intros [?|[[=]|?]]; auto. by subst n.
  - eapply data_frame; [done|eapply changes_keeps; [exact Hch|]; intros x Hx; by apply Hfp|].
    apply owned_used. intros x Hx Hxu. unfold cs in Hx. rewrite elem_of_app, elem_of_cons in Hx.
    destruct Hx as [?|[->|?]]; [left|by right|left]; unfold cs'; rewrite elem_of_app, elem_of_cons; auto.
Qed.
End on_ring.

(** The chunk, enclosed by chunks in use, becomes free. *)
Lemma rebin_runs : runs (rebin a (a + k) k i) s (fun _ s' => inv s' cs' bigs F /\ same_regions s s').
Proof using HI Hl Hr Hcl Hlk.
  pose proof (inv_layout _ _ _ _ HI) as HL. destruct (inv_bins _ _ _ _ HI) as (L & HB).
  destruct used_chunk_facts as (Hu & Hi & H1 & H2). destruct used_chunk_boundaries as (Hb1 & Hb2 & _ & Hn).
  pose proof (locked_ring _ _ L i HB Hi Hlk) as Hring.
  assert (Hnd : NoDup (BIN_TO_CHUNK i :: L i)).
  { apply NoDup_cons. split; [|by apply HB]. intros Hin. destruct (bin_members _ _ L i _ HB Hi Hin) as (n & Hc & _).
    pose proof (hi_chain _ _ _ _ (inv_heap _ _ _ _ HI)) as Hch. destruct (chain_in _ _ _ _ Hch Hc) as (? & ? & [_ ?] & _).
    destruct HL. cbn in *. unfold BIN_TO_CHUNK, bin_head, MEM_TO_CHUNK, OVERHEAD in *. lia. }
  destruct (ring_append _ _ _ a Hnd Hring) as (t & Htm & Htin & Happ).
  pose proof (rebin_inv L t HB Htin Happ) as Hfinal. destruct (rebin_nodes L t HB Htin) as (Hnt & Hns & Hta & Hsa).
  pose proof (node_next_prev _ _ _ _ HL Hnt Hn). pose proof (node_next_prev _ _ _ _ HL Hn Hns).
  pose proof (node_next_prev _ _ _ _ HL Hn Hn). pose proof (node_next_prev _ _ _ _ HL Hns Hn).
  pose proof (node_header _ _ _ _ HL Hns Hb1). pose proof (node_header _ _ _ _ HL Hns Hb2).
  assert (Hmap : forall x, node (brk0 s) (brk s) x -> is_Some (memory s (next x)) /\ is_Some (memory s (prev x))).
  { intros x Hx. destruct (node_region _ _ _ HL Hx), (node_aligned _ _ _ HL Hx). destruct HI as [Hm Hrg _ _ _].
    split; by eapply region_mapped. }
  destruct (Hmap _ Hn), (Hmap _ Hnt), (Hmap _ Hns).
  assert (Hmh : is_Some (memory s (csize a)) /\ is_Some (memory s (psize (a + k)))).
  { destruct (hi_headers _ _ _ _ (inv_heap _ _ _ _ HI) (Chunk a k true)) as [Hh1 Hh2];
      [apply elem_of_app; right; left|]. cbn in Hh1, Hh2. eauto. }
  split_hyps. unfold rebin. rewrite <- prev_bin.
  run_step. run_step; [done|]. run_step. run_step; [by apply upd_mapped|].
  run_step. run_step; [by do 2 apply upd_mapped|].
  run_step. run_step. { cbn [memory set_memory]. rewrite !upd_ne by fields_ne. exact Htm. }
  run_step. run_step; [by do 3 apply upd_mapped|].
  run_step. run_step. { cbn [memory set_memory]. rewrite upd_ne, upd_eq by fields_ne. done. }
  run_step. run_step; [by do 4 apply upd_mapped|].
  run_step. run_step. { cbn [memory set_memory]. rewrite upd_ne, upd_eq by fields_ne. done. }
  run_step. run_step; [by do 5 apply upd_mapped|].
  run_step. run_step. cbn [binmap set_memory].
  pose proof (bi_range _ _ _ _ HB) as Hbm. destruct (Z.eqb_spec (Z.land (binmap s) (Z.shiftl 1 i)) 0) as [Hz|Hnz].
  - run_step. split; [|done].
    apply (Hfinal (Z.lor (binmap s) (Z.shiftl 1 i))); [by apply set_bit_range|]. intros j Hj. apply set_bit_bits; lia.
  - run_step. split; [|done]. assert (Hbit : Z.testbit (binmap s) i = true).
    { destruct (Z.testbit (binmap s) i) eqn:Hb; [done|]. destruct Hnz. apply Z.bits_inj'. intros j Hj.
      rewrite Z.land_spec, shiftl_1_bit, Z.bits_0 by lia. destruct (Z.eqb_spec j i) as [->|]; [by rewrite Hb|apply andb_false_r]. }
    apply (Hfinal (binmap s)); [done|]. intros j Hj. destruct (Z.eqb_spec j i) as [->|]; [by rewrite Hbit|by rewrite orb_false_r].
Qed.
End rebin.
