(* ===== verification/AllocFree.v ===== *)
(** * [free]: merging with the free neighbours

    The chunk to free grows over its free neighbours, which are at most two
    since no two free chunks are neighbours; then it is put on the ring of its
    bin.  Pages given back lie inside the chunk. *)

From S2P Require Import Prelude Alloc AllocBins AllocFacts AllocInv AllocSteps AllocBin.

Section free.
Context `{K : Kernel} `{B : Statics}.

Definition all_free (l : list chunk) : Prop := Forall (fun c => inuse c = false) l.

(** ** One round of the loop, in the middle of the chunks in use [mid] *)
Section round.
Context (s : state) (bigs : list (Z * Z)) (F : Z -> option Z) (l1 mid l2 : list chunk) (a e : Z).
Hypothesis (HI : inv s (l1 ++ mid ++ l2) bigs F) (H1 : chain (brk0 s + 16) l1 a) (Hmid : chain a mid e)
  (Hne : mid <> []) (Hu : all_used mid) (Hcl : clear F a e).

Lemma round_bounds : brk0 s + 16 <= a /\ a + 32 <= e /\ e <= brk s - 16 /\ chain e l2 (brk s - 16) /\
  unit_size (e - a) /\ a mod 32 = 16 /\ 0 < brk0 s /\ brk s < 2 ^ 48.
Proof using HI H1 Hmid Hne.
  destruct (remid_bounds _ _ _ _ _ _ _ _ HI H1 Hmid) as (Ha & Hae & He & H2).
  destruct (inv_layout _ _ _ _ HI) as [_ [Hm0 H0] [_ Hb] _].
  assert (Hsz : unit_size (e - a)).
  { apply (chain_unit a mid); [done|done|]. unfold BRKSIZE in *. lia. }
  pose proof (chain_mod _ _ _ H1) as Hm.
  destruct HI as [[_ Hok _ _ _ _] [_ _ Hrm _] _ _ _]. apply Hok in Hrm as (_ & _ & Hmax). cbn in Hmax.
  unfold unit_size in *. split_and!; try done; try lia. rewrite Hm. clear -Hm0. div_lia.
Qed.

Lemma end_boundary : boundary (brk0 s) (brk s) a /\ boundary (brk0 s) (brk s) e /\ F e = None.
Proof using HI H1 Hmid.
  assert (Hcs : l1 ++ mid ++ l2 = (l1 ++ mid) ++ l2) by (by rewrite <- app_assoc).
  assert (He : chain (brk0 s + 16) (l1 ++ mid) e) by (apply chain_app; eauto). split_and!.
  - by eapply (header_boundary _ _ _ _ HI l1).
  - by eapply (header_boundary _ _ _ _ HI (l1 ++ mid)).
  - apply (clear_boundary _ _ _ _ HI _ _ _ Hcs He). lia.
Qed.

Lemma right_at_end : memory s (csize e) = Some (right_word l2).
Proof using HI H1 Hmid.
  apply (right_header s bigs F (l1 ++ mid) l2); [by rewrite <- app_assoc|apply chain_app; eauto].
Qed.

Lemma enclosed_words (s' : state) (Q : bool -> state -> Prop) :
  memory s' (psize a) = memory s (psize a) -> memory s' (csize e) = memory s (csize e) ->
  Q (from_option inuse true (last l1) && from_option inuse true (head l2)) s' -> runs (enclosed a e) s' Q.
Proof using HI H1 Hmid Hne.
  intros Hp Hc HQ. unfold enclosed. run_step. run_step; [rewrite Hp; by eapply left_header|].
  run_step. run_step; [rewrite Hc; by apply right_at_end|]. run_step.
  destruct round_bounds as (_ & _ & _ & H2 & _). rewrite used_land, (left_word_used _ _ _ H1), (right_word_used _ _ _ H2). done.
Qed.

(** The pages given back lie strictly inside. *)
Lemma reclaim_pages_runs : RECLAIM < e - a -> runs (reclaim_pages a e) s (fun _ s' =>
  exists er m', s' = set_errn er (set_memory (fun _ => m') s) /\
    changes (fun x => a + 32 <= x < e - 16 /\ F x = None) (memory s) m').
Proof using HI H1 Hmid Hne Hcl.
  intros Hlt. destruct round_bounds as (Ha & Hae & He & _ & [Hsm _] & Hm & H0 & Hb). unfold RECLAIM in Hlt.
  unfold reclaim_pages. rewrite !land_PAGE_SIZE. unfold SIZE_ALIGN, PAGE_SIZE. rewrite (u64_small (a + 32 + 4096 - 1)), (u64_small (e - 32)) by lia.
  set (x := a + 32 + 4096 - 1). set (y := e - 32).
  pose proof (Z.mod_pos_bound x 4096 ltac:(lia)) as Hx. pose proof (Z.mod_pos_bound y 4096 ltac:(lia)) as Hy.
  rewrite u64_small by (unfold x, y in *; lia). run_step. unfold madvise. run_step. run_step.
  destruct (sys_madvise _ _ _ <? 0).
  - run_step. run_step. run_step. run_step. exists (- sys_madvise (maps s) (x - x mod 4096) (y - y mod 4096 - (x - x mod 4096))), (memory s).
    split; [by destruct s|apply changes_refl].
  - run_step. run_step. run_step. run_step.
    exists (errn s), (zero_words (x - x mod 4096) (y - y mod 4096 - (x - x mod 4096)) (memory s)).
    split; [by destruct s|]. intros z. unfold zero_words.
    destruct (within _ _ z) eqn:Hw; [right|by left]. apply within_iff in Hw as [Hw _]. split; [by eexists|].
    split; [unfold x, y in *; lia|]. apply Hcl. unfold x, y in *. lia.
Qed.

End round.

Lemma inv_errn s cs bigs F er : inv s cs bigs F -> inv (set_errn er s) cs bigs F.
Proof using. intros []. by split. Qed.

Section stop.
Context (s : state) (bigs : list (Z * Z)) (F : Z -> option Z) (l1 mid l2 : list chunk) (a e : Z).
Hypothesis (HI : inv s (l1 ++ mid ++ l2) bigs F) (H1 : chain (brk0 s + 16) l1 a) (Hmid : chain a mid e)
  (Hne : mid <> []) (Hu : all_used mid) (Hcl : clear F a e).

(** Enclosed by chunks in use, the run of chunks becomes one and its bin is locked. *)
Lemma free_stop fuel nw reclaim : left_used l1 -> right_used l2 -> (reclaim = true -> RECLAIM < e - a) ->
  runs (free_loop (S fuel) nw a e (e - a) reclaim) s (fun r s' => r = (a, e, e - a, bin_index (e - a)) /\
    inv s' (l1 ++ Chunk a (e - a) true :: l2) bigs F /\ same_regions s s' /\ locked s' (bin_index (e - a))).
Proof using HI H1 Hmid Hne Hu Hcl.
  intros Hl Hr Hrec. unfold left_used, right_used in *.
  destruct (round_bounds _ _ _ _ _ _ _ _ HI H1 Hmid Hne) as (Ha & Hae & He & H2 & Hsz & _).
  destruct (end_boundary _ _ _ _ _ _ _ _ HI H1 Hmid) as (Hba & Hbe & HFe). pose proof (unit_even _ Hsz) as Hev.
  cbn [free_loop]. run_step. apply (enclosed_words _ _ _ _ _ _ _ _ HI H1 Hmid Hne); [done|done|]. rewrite Hl, Hr. cbn [andb]. rewrite andb_true_r. run_step.
  apply (runs_mono _ _ (fun _ s' => exists er m', s' = set_errn er (set_memory (fun _ => m') s) /\
    changes (fun x => a + 32 <= x < e - 16 /\ F x = None) (memory s) m')).
  { destruct reclaim; [by eapply reclaim_pages_runs; [..|apply Hrec]|]. run_step. exists (errn s), (memory s).
    split; [by destruct s|apply changes_refl]. }
  intros _ s1 (er & m1 & -> & Hm1). run_step.
  apply (enclosed_words _ _ _ _ _ _ _ _ HI H1 Hmid Hne); [apply (changes_out _ _ _ _ Hm1); unfold psize; lia
    |apply (changes_out _ _ _ _ Hm1); unfold csize; lia|]. rewrite Hl, Hr. cbn [andb]. run_step. run_step.
  assert (Hmap : forall x, in_region (brk0 s) x -> x mod 8 = 0 -> is_Some (m1 x)).
  { intros x Hx H8. destruct (Hm1 x) as [->|[? _]]; [|done]. destruct HI as [Hm Hrg _ _ _]. by eapply region_mapped. }
  destruct (boundary_region _ _ _ (inv_layout _ _ _ _ HI) Hba) as [_ Hra].
  destruct (boundary_region _ _ _ (inv_layout _ _ _ _ HI) Hbe) as [Hre _].
  rewrite (lor_inuse0 _ Hev). unfold boundary, psize, csize in *.
  run_step. { apply Hmap; [done|]. clear -Hba. destruct Hba. div_lia. }
  run_step. run_step. { apply upd_mapped, Hmap; [done|]. clear -Hbe. destruct Hbe. div_lia. }
  assert (HI2 : inv (set_memory (fun _ => upd e (e - a + 1) (upd (a + 8) (e - a + 1) m1)) s)
    (l1 ++ Chunk a (e - a) true :: l2) bigs F).
  { apply (inv_merge s bigs F l1 mid l2 a e); try done; unfold psize, csize.
    - rewrite upd_ne by lia. apply upd_eq.
    - apply upd_eq.
    - apply changes_upd; [apply changes_upd|]; [|split; [lia|]; apply Hcl; lia|split; [lia|done]].
      eapply changes_mono; [exact Hm1|]. cbn. intros x [? ?]. split; [lia|done]. }
  apply (inv_errn _ _ _ _ er) in HI2. run_step.
  eapply runs_mono; [apply (lock_bin_runs _ _ _ _ HI2); by apply bin_index_range|].
  intros _ s3 (HI3 & Hs3 & Hlk & _).
  assert (Hmid' : chain a [Chunk a (e - a) true] e) by (cbn; split_and!; [done|done|lia]).
  destruct Hs3 as (Hb & Hb0 & Hrest). cbn in Hb, Hb0.
  apply (enclosed_words s3 bigs F l1 [Chunk a (e - a) true] l2 a e); try done; [by rewrite Hb0|].
  rewrite Hl, Hr. cbn [andb]. run_step. unfold same_regions. naive_solver.
Qed.
End stop.

(** ** Taking in the free neighbours *)
Lemma reclaims_large nw k : 0 <= nw -> 0 <= k -> reclaims nw k = true -> RECLAIM < nw + k.
Proof using.
  unfold reclaims. intros Hn Hk H. apply andb_true_iff in H as [H _]. apply Z.ltb_lt in H.
  unfold u64, wrap in H. pose proof (Z.mod_le (nw + k) (2 ^ 64)). lia.
Qed.

Section absorb.
Context (s : state) (bigs : list (Z * Z)) (F : Z -> option Z) (l1 mid l2 : list chunk) (a e nw : Z) (reclaim : bool).
Hypothesis (HI : inv s (l1 ++ mid ++ l2) bigs F) (H1 : chain (brk0 s + 16) l1 a) (Hmid : chain a mid e)
  (Hne : mid <> []) (Hu : all_used mid) (Hcl : clear F a e) (Hnw : 0 <= nw <= e - a)
  (Hrec : reclaim = true -> RECLAIM < e - a).

(** A middle that has grown to [a'] on the left and to [e'] on the right. *)
Record grown (a' e' n' : Z) (reclaim' : bool) (s' : state) (l1' mid' l2' : list chunk) : Prop := {
  gr_inv : inv s' (l1' ++ mid' ++ l2') bigs F;
  gr_left : chain (brk0 s' + 16) l1' a';
  gr_mid : chain a' mid' e';
  gr_ne : mid' <> [];
  gr_used : all_used mid';
  gr_clear : clear F a' e';
  gr_size : n' = e' - a';
  gr_nw : 0 <= nw <= e' - a';
  gr_reclaim : reclaim' = true -> RECLAIM < e' - a';
  gr_same : same_regions s s';
}.

Lemma absorb_left : runs (r ← alloc_rev a;
    if (r : bool) then
      self ← PREV_CHUNK a;
      k ← CHUNK_SIZE self;
      mret (self, u64 ((e - a) + k), reclaim || reclaims nw k)
    else mret (a, e - a, reclaim)) s
  (fun r s' => exists l1' pre mid', l1 = l1' ++ pre /\ all_free pre /\ left_used l1' /\
    grown r.1.1 e r.1.2 r.2 s' l1' mid' l2).
Proof using HI H1 Hmid Hne Hu Hcl Hnw Hrec.
  run_step. eapply runs_mono; [by apply (alloc_rev_runs s bigs F l1 (mid ++ l2))|].
  intros r s' (Hs & [(-> & Hl & ->)|(-> & l & p & k & -> & -> & HI')]).
  { run_step. exists l1, [], mid. rewrite app_nil_r. split_and!; [done|constructor|done|]. by split. }
  rewrite <- app_assoc in HI. cbn [app] in HI.
  destruct Hs as (Hs1 & Hs2 & Hs3).
  pose proof (free_chunk_facts _ _ _ _ _ _ _ HI) as (Hk & _ & Hp & _). pose proof (unit_even _ Hk) as Hev. pose proof (proj2 Hk).
  assert (Hp' : chain (brk0 s' + 16) (l ++ [Chunk p k true]) (p + k)).
  { apply chain_app. exists p. rewrite Hs2. cbn. auto. }
  assert (HI2 : inv s' ((l ++ [Chunk p k true]) ++ mid ++ l2) bigs F) by (by rewrite <- app_assoc).
  pose proof (left_header _ _ _ _ _ _ HI2 Hp') as Hw. unfold left_word in Hw. rewrite last_snoc in Hw. cbn in Hw.
  pose proof (right_header _ _ _ l (Chunk p k true :: mid ++ l2) p HI') as Hw'. 
  rewrite Hs2 in Hw'. specialize (Hw' Hp). cbn in Hw'. unfold word in *. cbn [size inuse] in *.
  unfold PREV_CHUNK, CHUNK_PSIZE, CHUNK_SIZE.
  do 4 run_step; [exact Hw|]. do 2 run_step. rewrite (even_word k true Hev). replace (p + k - k) with p by lia.
  do 3 run_step; [exact Hw'|]. do 2 run_step. rewrite (even_word k true Hev).
  exists l, [Chunk p k false], (Chunk p k true :: mid). cbn [fst snd].
  pose proof (chain_le _ _ _ Hmid) as Hle. pose proof (chain_le _ _ _ Hp) as Hle'.
  destruct (inv_bounds _ _ _ _ HI) as [Hlo Hhi]. destruct (remid_bounds _ _ _ _ _ _ _ _ HI2 Hp' Hmid) as (_ & _ & He & _).
  assert (Hsum : e - (p + k) + k = e - p) by lia. rewrite Hsum.
  pose proof (hi_coalesced _ _ _ _ (inv_heap _ _ _ _ HI)) as Hc. apply coalesced_mid in Hc as (_ & _ & Hc).
  split_and!; [done|by repeat constructor|by destruct Hc as [|[? _]]|].
  split; try done.
  - by rewrite Hs2.
  - by constructor.
  - intros x Hx. destruct (Z_lt_le_dec x (p + k)); [|apply Hcl; lia]. eapply (clear_free _ _ _ _ HI p k); [|lia].
    apply elem_of_app. right. left.
  - rewrite u64_small; [done|]. lia.
  - lia.
  - intros Hr. apply orb_true_iff in Hr as [Hr|Hr]; [apply Hrec in Hr; lia|]. apply reclaims_large in Hr; lia.
Qed.

Lemma absorb_right : runs (f ← alloc_fwd e;
    if (f : bool) then
      k ← CHUNK_SIZE e;
      x ← NEXT_CHUNK e;
      mret (x, u64 ((e - a) + k), reclaim || reclaims nw k)
    else mret (e, e - a, reclaim)) s
  (fun r s' => exists l2' post mid', l2 = post ++ l2' /\ all_free post /\ right_used l2' /\
    grown a r.1.1 r.1.2 r.2 s' l1 mid' l2').
Proof using HI H1 Hmid Hne Hu Hcl Hnw Hrec.
  assert (HIe : inv s ((l1 ++ mid) ++ l2) bigs F) by (by rewrite <- app_assoc).
  assert (He : chain (brk0 s + 16) (l1 ++ mid) e) by (apply chain_app; eauto).
  run_step. eapply runs_mono; [by apply (alloc_fwd_runs s bigs F (l1 ++ mid) l2)|].
  intros r s' (Hs & [(-> & Hl & ->)|(-> & l & k & -> & HI')]).
  { run_step. exists l2, [], mid. split_and!; [done|constructor|done|]. by split. }
  pose proof (free_chunk_facts _ _ _ _ _ _ _ HIe) as (Hk & _). pose proof (unit_even _ Hk) as Hev. pose proof (proj2 Hk).
  pose proof (hi_coalesced _ _ _ _ (inv_heap _ _ _ _ HIe)) as Hc. apply coalesced_mid in Hc as (_ & _ & Hc).
  assert (He' : chain (brk0 s' + 16) (l1 ++ mid) e) by (destruct Hs as (_ & -> & _); done).
  pose proof (right_header _ _ _ _ _ _ HI' He') as Hw. cbn in Hw. unfold word in Hw. cbn [size inuse] in Hw.
  destruct (inv_bounds _ _ _ _ HI') as [Hlo Hhi]. pose proof (chain_rest _ _ _ _ _ _ HI' He') as (_ & _ & Hrest).
  pose proof (chain_le _ _ _ Hrest) as Hle. cbn in Hle. pose proof (chain_le _ _ _ Hmid). pose proof (chain_le _ _ _ H1).
  unfold NEXT_CHUNK, CHUNK_SIZE.
  do 3 run_step; [exact Hw|]. do 2 run_step. rewrite (even_word k true Hev).
  do 3 run_step; [exact Hw|]. do 3 run_step. rewrite (even_word k true Hev).
  exists l, [Chunk e k false], (mid ++ [Chunk e k true]). cbn [fst snd].
  assert (Hsum : e - a + k = e + k - a) by lia. rewrite Hsum. destruct Hs as (Hs1 & Hs2 & Hs3).
  split_and!; [done|by repeat constructor|by destruct Hc as [|[_ ?]]|].
  split; try done.
  - by rewrite <- !app_assoc in *.
  - by rewrite Hs2.
  - apply chain_app. exists e. split; [done|]. cbn. auto.
  - by destruct mid.
  - apply Forall_app. split; [done|]. by repeat constructor.
  - intros x Hx. destruct (Z_lt_le_dec x e); [apply Hcl; lia|]. eapply (clear_free _ _ _ _ HIe e k); [|lia].
    apply elem_of_app. right. left.
  - rewrite u64_small; [done|]. lia.
  - lia.
  - intros Hr. apply orb_true_iff in Hr as [Hr|Hr]; [apply Hrec in Hr; lia|]. apply reclaims_large in Hr; lia.
Qed.
End absorb.

(** ** The loop *)
Record loop_done (s : state) (bigs : list (Z * Z)) (F : Z -> option Z) (l1 l2 : list chunk)
    (r : Z * Z * Z * Z) (s' : state) (l1' pre post l2' : list chunk) : Prop := {
  ld_left : l1 = l1' ++ pre /\ all_free pre /\ left_used l1';
  ld_right : l2 = post ++ l2' /\ all_free post /\ right_used l2';
  ld_end : r.1.1.2 = r.1.1.1 + r.1.2;
  ld_bin : r.2 = bin_index r.1.2;
  ld_inv : inv s' (l1' ++ Chunk r.1.1.1 r.1.2 true :: l2') bigs F;
  ld_clear : clear F r.1.1.1 (r.1.1.1 + r.1.2);
  ld_locked : locked s' r.2;
  ld_same : same_regions s s';
}.

Section loop.
Context (s : state) (bigs : list (Z * Z)) (F : Z -> option Z) (l1 mid l2 : list chunk) (a e nw : Z) (reclaim : bool).
Hypothesis (HI : inv s (l1 ++ mid ++ l2) bigs F) (H1 : chain (brk0 s + 16) l1 a) (Hmid : chain a mid e)
  (Hne : mid <> []) (Hu : all_used mid) (Hcl : clear F a e) (Hnw : 0 <= nw <= e - a)
  (Hrec : reclaim = true -> RECLAIM < e - a).

(** Two rounds suffice. *)
Lemma free_loop_runs fuel : runs (free_loop (S (S fuel)) nw a e (e - a) reclaim) s
  (fun r s' => exists l1' pre post l2', loop_done s bigs F l1 l2 r s' l1' pre post l2').
Proof using HI H1 Hmid Hne Hu Hcl Hnw Hrec.
  destruct (decide (left_used l1 /\ right_used l2)) as [[Hl Hr]|Hnot].
  { eapply runs_mono; [by eapply free_stop|]. intros r s' (-> & HI' & Hs & Hlk).
    exists l1, [], [], l2. assert (Hlen : a + (e - a) = e) by lia. split; cbn; rewrite ?Hlen; try done.
    - split_and!; [by rewrite app_nil_r|constructor|done].
    - split_and!; [done|constructor|done]. }
  assert (Hb : from_option inuse true (last l1) && from_option inuse true (head l2) = false).
  { unfold left_used, right_used in Hnot. apply not_true_iff_false. by rewrite andb_true_iff. }
  remember (S fuel) as fuel' eqn:Hfuel. cbn [free_loop]. run_step.
  apply (enclosed_words _ _ _ _ _ _ _ _ HI H1 Hmid Hne); [done|done|]. rewrite Hb, andb_false_r. run_step. run_step. run_step.
  apply (enclosed_words _ _ _ _ _ _ _ _ HI H1 Hmid Hne); [done|done|]. rewrite Hb. run_step. run_step.
  apply runs_assoc, runs_bind. eapply runs_mono; [by eapply absorb_left|].
  intros [[a' n'] reclaim'] s1 (l1' & pre & mid1 & -> & Hpre & Hl & []). cbn [fst snd] in *. subst n'.
  apply runs_assoc, runs_bind. eapply runs_mono; [by eapply absorb_right|].
  intros [[e' n'] reclaim''] s2 (l2' & post & mid2 & -> & Hpost & Hr & []). cbn [fst snd] in *. subst n' fuel'.
  eapply runs_mono; [by eapply free_stop|]. intros r s3 (-> & HI3 & Hs & Hlk).
  exists l1', pre, post, l2'. assert (Hlen : a' + (e' - a') = e') by lia. split; cbn; rewrite ?Hlen; try done.
  by do 2 (etrans; [done|]).
Qed.
End loop.

(** ** [free] of a chunk in use *)
Lemma free_chunk_runs s bigs F l1 l2 a k : inv s (l1 ++ Chunk a k true :: l2) bigs F -> clear F a (a + k) ->
  runs (free (CHUNK_TO_MEM a)) s (fun _ s' => exists l1' pre post l2' a' k',
    l1 = l1' ++ pre /\ l2 = post ++ l2' /\ all_free pre /\ all_free post /\
    inv s' (l1' ++ Chunk a' k' false :: l2') bigs F /\ same_regions s s').
Proof using.
  intros HI Hcl. destruct (used_chunk_facts _ _ _ _ _ _ _ HI) as (Hk & _ & H1 & H2). pose proof (unit_even _ Hk) as Hev.
  pose proof (right_header _ _ _ l1 (Chunk a k true :: l2) a HI H1) as Hw. cbn in Hw. unfold word in Hw. cbn [size inuse] in Hw.
  assert (Hmid : chain a [Chunk a k true] (a + k)) by (by cbn).
  assert (Hw' : memory s (psize (a + k)) = Some (k + Z.b2z true)).
  { destruct (hi_headers _ _ _ _ (inv_heap _ _ _ _ HI) (Chunk a k true)) as [_ Hh]; [|exact Hh].
    apply elem_of_app. right. left. }
  unfold free, CHUNK_TO_MEM, MEM_TO_CHUNK. replace (a + OVERHEAD - OVERHEAD) with a by lia.
  destruct (inv_bounds _ _ _ _ HI) as [Hlo _]. pose proof (chain_le _ _ _ H1) as Hle.
  rewrite (proj2 (Z.eqb_neq (a + OVERHEAD) 0)) by (unfold OVERHEAD; lia).
  unfold IS_MMAPPED, NEXT_CHUNK, CHUNK_SIZE. do 2 run_step. run_step; [exact Hw|]. run_step.
  pose proof (used_word k true Hev) as Hused. unfold used in Hused. apply negb_true_iff in Hused. rewrite Hused.
  do 2 run_step. run_step; [exact Hw|]. do 4 run_step. run_step; [exact Hw|]. do 2 run_step. rewrite (even_word k true Hev).
  run_step. run_step; [exact Hw'|]. run_step. run_step; [exact Hw|]. rewrite Z.eqb_refl. cbn [negb]. run_step.
  assert (Hgo : runs (free_loop rounds k a (a + k) ((a + k) - a) false) s
    (fun r s' => exists l1' pre post l2', loop_done s bigs F l1 l2 r s' l1' pre post l2')).
  { apply (free_loop_runs s bigs F l1 [Chunk a k true] l2); try done; [by repeat constructor|]. destruct Hk. lia. }
  replace (a + k - a) with k in Hgo by lia. eapply runs_mono; [exact Hgo|].
  intros [[[a' e'] k'] i] s1 (l1' & pre & post & l2' & [(-> & Hpre & Hl) (-> & Hpost & Hr) He Hi HI1 Hcl1 Hlk Hs]).
  cbn [fst snd] in *. subst e' i. eapply runs_mono; [by eapply rebin_runs|].
  intros _ s2 (HI2 & Hs2). exists l1', pre, post, l2', a', k'. split_and!; try done. by etrans.
Qed.

End free.
