(* ===== verification/AllocTrim.v ===== *)
(** * Cutting chunks to size: [trim] and [pretrim] *)

From S2P Require Import Prelude Alloc AllocBins AllocFacts AllocInv AllocSteps AllocBin AllocFree.

Section trim.
Context `{K : Kernel} `{B : Statics}.

(** The blocks of the chunks in use: address and number of bytes. *)
Definition block (c : chunk) : Z * Z := (addr c + 16, size c - 16).
Definition used_blocks (cs : list chunk) : list (Z * Z) := block <$> filter (fun c => inuse c = true) cs.

Lemma used_blocks_app l1 l2 : used_blocks (l1 ++ l2) = used_blocks l1 ++ used_blocks l2.
Proof using. unfold used_blocks. by rewrite filter_app, fmap_app. Qed.

Lemma used_blocks_free l : all_free l -> used_blocks l = [].
Proof using.
  unfold used_blocks. induction 1 as [|c l Hc _ IH]; [done|]. rewrite filter_cons_False; [done|by rewrite Hc].
Qed.

Lemma used_blocks_cons c l : used_blocks (c :: l) = (if inuse c then [block c] else []) ++ used_blocks l.
Proof using.
  unfold used_blocks. destruct (inuse c) eqn:Hu.
  - by rewrite filter_cons_True.
  - rewrite filter_cons_False; [done|by rewrite Hu].
Qed.

Lemma app_used_free l1 c l pre : l1 ++ [c] = l ++ pre -> inuse c = true -> all_free pre -> pre = [].
Proof using.
  intros Heq Hu Hp. destruct pre as [|x pre _] using rev_ind; [done|exfalso].
  rewrite app_assoc in Heq. apply app_inj_tail in Heq as [_ ->].
  apply Forall_app in Hp as [_ Hp]. apply Forall_cons in Hp as [Hp _]. congruence.
Qed.

(** A chunk in use is cut to exactly [n] bytes. *)
Lemma trim_runs s bigs F l1 l2 a n k : inv s (l1 ++ Chunk a k true :: l2) bigs F -> clear F (a + n) (a + k) ->
  unit_size n -> n <= k -> runs (trim a n) s (fun _ s' => exists l1' l2',
    inv s' (l1' ++ Chunk a n true :: l2') bigs F /\ same_regions s s' /\
    used_blocks l1' = used_blocks l1 /\ used_blocks l2' = used_blocks l2).
Proof using.
  intros HI Hcl Hn Hle. destruct (used_chunk_facts _ _ _ _ _ _ _ HI) as (Hk & _ & H1 & H2).
  pose proof (unit_even _ Hk) as Hev. pose proof (unit_even _ Hn) as Hevn.
  pose proof (right_header _ _ _ l1 (Chunk a k true :: l2) a HI H1) as Hw. cbn in Hw. unfold word in Hw. cbn [size inuse] in Hw.
  unfold trim, CHUNK_SIZE at 1. do 2 run_step. run_step; [exact Hw|]. run_step. rewrite (even_word k true Hev).
  assert (Hu : u64 (k - DONTCARE) = k - 16) by (apply u64_small; unfold DONTCARE, unit_size in *; lia). rewrite Hu.
  destruct (Z.leb_spec (k - 16) n) as [Hge|Hlt].
  { run_step. assert (k = n) as -> by (clear -Hn Hk Hge Hle; unfold unit_size in *; div_lia). by exists l1, l2. }
  assert (Hlt' : n < k) by lia. pose proof (inv_split _ _ _ _ _ _ _ _ HI H1 Hn Hlt' Hcl) as HI'.
  unfold NEXT_CHUNK, CHUNK_SIZE. do 3 run_step. run_step; [exact Hw|]. do 2 run_step. rewrite (even_word k true Hev).
  rewrite (u64_small (k - n)) by (unfold unit_size in *; lia).
  assert (Hd : (k - n) mod 2 = 0) by (clear -Hev Hevn; div_lia). rewrite (lor_inuse0 _ Hd), (lor_inuse0 _ Hevn).
  assert (Hmap : forall x, a <= x <= a + k -> x mod 8 = 0 -> is_Some (memory s x)).
  { intros x Hx H8. pose proof (inv_layout _ _ _ _ HI) as [_ _ [_ Hb] _]. pose proof (chain_le _ _ _ H1). pose proof (chain_le _ _ _ H2).
    destruct HI as [Hm Hr _ _ _]. eapply region_mapped; [done|done|left|done]. unfold BRKSIZE in *. lia. }
  destruct (used_chunk_boundaries _ _ _ _ _ _ _ HI) as ([Hma _] & _). pose proof (proj1 Hn) as Hmn. pose proof (proj1 Hk) as Hmk.
  pose proof (proj2 Hn). unfold psize, csize in *.
  run_step. run_step; [apply Hmap; [lia|clear -Hma Hmn; div_lia]|].
  run_step. run_step; [apply upd_mapped, Hmap; [lia|clear -Hma Hmn; div_lia]|].
  run_step. run_step; [do 2 apply upd_mapped; apply Hmap; [lia|clear -Hma Hmk; div_lia]|].
  run_step. run_step; [do 3 apply upd_mapped; apply Hmap; [lia|clear -Hma Hmk; div_lia]|].
  eapply runs_mono; [apply (free_chunk_runs _ bigs F (l1 ++ [Chunk a n true]) l2 (a + n) (k - n))|].
  - rewrite <- app_assoc. exact HI'.
  - intros x Hx. apply Hcl. lia.
  - intros _ s' (l1' & pre & post & l2' & a' & k' & Heq & -> & Hpre & Hpost & HI2 & Hs).
    pose proof (app_used_free _ _ _ _ Heq eq_refl Hpre) as ->. rewrite app_nil_r in Heq. subst l1'.
    exists l1, (Chunk a' k' false :: l2'). rewrite <- app_assoc in HI2. split_and!; [done|exact Hs|done|].
    by rewrite used_blocks_cons, used_blocks_app, (used_blocks_free post).
Qed.

(** ** [pretrim]: the rest takes the place of the chunk on its ring *)
Section pretrim.
Context (s : state) (bigs : list (Z * Z)) (F : Z -> option Z) (l1 l2 : list chunk) (c k n : Z).
Let cs := l1 ++ Chunk c k false :: l2.
Let cs' := l1 ++ Chunk c n true :: Chunk (c + n) (k - n) false :: l2.
Let j := bin_index k.
Hypothesis (HI : inv s cs bigs F) (Hn : unit_size n) (Hnk : n < k) (Hj : bin_index (k - n) = j).

Definition pretrim_words (p q : Z) (m : Z -> option Z) : Z -> option Z :=
  upd (csize c) (n + 1) (upd (psize (c + k)) (k - n) (upd (csize (c + n)) (k - n) (upd (psize (c + n)) (n + 1)
    (upd (prev q) (c + n) (upd (next p) (c + n) (upd (next (c + n)) q (upd (prev (c + n)) p m))))))).

Lemma rest_facts : unit_size k /\ unit_size (k - n) /\ 0 <= j < 64 /\ chain (brk0 s + 16) l1 c /\
  chain c [Chunk c k false] (c + k) /\ chain c [Chunk c n true; Chunk (c + n) (k - n) false] (c + k).
Proof using HI Hn Hnk.
  destruct (free_chunk_facts _ _ _ _ _ _ _ HI) as (Hk & Hi & H1 & H2 & _).
  assert (Hr : unit_size (k - n)) by (clear -Hn Hk Hnk; unfold unit_size in *; div_lia).
  destruct Hi. split_and!; try done. cbn. destruct Hn, Hr. split_and!; first [done|lia].
Qed.

(** Inside the chunk. *)
Definition inside (x : Z) : Prop := c <= x < c + k.

Lemma inside_ok x : inside x -> in_region (brk0 s) x /\ F x = None.
Proof using HI.
  intros Hx. destruct (free_chunk_facts _ _ _ _ _ _ _ HI) as (Hk & _ & H1 & _).
  pose proof (free_chunk_in l1 l2 c k) as Hin. pose proof (inv_layout _ _ _ _ HI) as [_ _ [_ Hb] _].
  destruct (chain_in _ _ _ _ (hi_chain _ _ _ _ (inv_heap _ _ _ _ HI)) Hin) as (? & ? & _). cbn in *. unfold inside in Hx.
  split; [left; lia|]. apply (clear_free _ _ _ _ HI c k Hin). lia.
Qed.

(** The node in the middle of the chunk: its fields are those of no other node, and no header. *)
Lemma node_inside x : node (brk0 s) (brk s) x -> (x + 32 <= c \/ c + k <= x \/ exists i, 0 <= i < 64 /\ x = BIN_TO_CHUNK i) ->
  ~ inside (next x) /\ ~ inside (prev x).
Proof using HI.
  intros _ Hx. destruct (free_chunk_facts _ _ _ _ _ _ _ HI) as (Hk & _ & H1 & _).
  pose proof (free_chunk_in l1 l2 c k) as Hin. pose proof (inv_layout _ _ _ _ HI) as [Hl1 _ [_ Hb] Hl4].
  destruct (chain_in _ _ _ _ (hi_chain _ _ _ _ (inv_heap _ _ _ _ HI)) Hin) as (? & ? & _). cbn in *.
  unfold inside, next, prev. destruct Hx as [?|[?|(i & ? & ->)]]; [lia|lia|].
  unfold BIN_TO_CHUNK, bin_head, MEM_TO_CHUNK, OVERHEAD. lia.
Qed.

Lemma ring_outside L i x : bins_inv (memory s) (binmap s) cs L -> 0 <= i < 64 -> x ∈ BIN_TO_CHUNK i :: L i -> x <> c ->
  ~ inside (next x) /\ ~ inside (prev x).
Proof using HI.
  intros HB Hi Hx Hxc. apply node_inside; [by apply (ring_node _ _ _ _ HI L i)|].
  apply elem_of_cons in Hx as [->|Hx]; [right; right; eauto|].
  destruct (bin_members _ _ L i x HB Hi Hx) as (m & Hm & _).
  pose proof (hi_chain _ _ _ _ (inv_heap _ _ _ _ HI)) as Hch.
  destruct (chain_disjoint _ _ _ _ _ Hch Hm (free_chunk_in l1 l2 c k)) as [[=]|Hd]; [done|].
  destruct (chain_in _ _ _ _ Hch Hm) as (_ & _ & [_ ?] & _). cbn in *. lia.
Qed.

Section on_ring.
Context (L : Z -> list Z) (q1 q2 : list Z) (p q : Z).
Hypothesis (HB : bins_inv (memory s) (binmap s) cs L) (HR : on_ring s c k L q1 q2 p q).
Let m' := pretrim_words p q (memory s).

Definition pretrim_footprint (x : Z) : Prop := ring_or_header s cs L j x \/ inside x.

Lemma pretrim_changes : changes pretrim_footprint (memory s) m'.
Proof using HI HR Hn Hnk.
  destruct (free_chunk_boundaries _ _ _ _ _ _ _ HI) as (_ & _ & Hh1 & Hh2).
  destruct rest_facts as ([_ Hk] & [_ Hr] & _). pose proof (proj2 Hn).
  destruct HR as [_ _ (_ & Hp & _) (_ & Hq & _) _ _ _].
  unfold m', pretrim_words, pretrim_footprint. repeat apply changes_upd.
  - apply changes_refl.
  - right. unfold inside, prev. lia.
  - right. unfold inside, next. lia.
  - left. left. exists p. tauto.
  - left. left. exists q. tauto.
  - right. unfold inside, psize. lia.
  - right. unfold inside, csize. lia.
  - left. by right.
  - left. by right.
Qed.

Lemma pretrim_footprint_ok x : pretrim_footprint x -> in_region (brk0 s) x /\ F x = None.
Proof using HI HB Hn Hnk.
  destruct rest_facts as (_ & _ & Hi & _). intros [Hx|Hx]; [|by apply inside_ok].
  split; [by eapply footprint_region|by eapply footprint_clear].
Qed.

Lemma split_node : node (brk0 s) (brk s) (c + n) /\ boundary (brk0 s) (brk s) (c + n).
Proof using HI Hn Hnk.
  destruct rest_facts as (_ & [_ Hr] & _ & H1 & _). destruct (free_chunk_boundaries _ _ _ _ _ _ _ HI) as ([Hm Hb] & [_ Hb'] & _).
  assert (Hmod : (c + n) mod 32 = 16) by (destruct Hn as [Hn' _]; clear -Hm Hn'; div_lia). pose proof (proj2 Hn).
  split; [right; split; [done|lia]|split; [done|lia]].
Qed.

Lemma pretrim_heap : heap_inv m' (brk0 s) (brk s) cs'.
Proof using HI HR Hn Hnk.
  pose proof (inv_layout _ _ _ _ HI) as HL. destruct rest_facts as (Hk & Hr & Hi & H1 & H2 & H3).
  destruct (free_chunk_boundaries _ _ _ _ _ _ _ HI) as (Hb1 & Hb2 & _ & _).
  destruct split_node as [Hns Hbs].
  destruct HR as [_ _ (_ & _ & Hnp & _) (_ & _ & Hnq & _) _ _ _].
  pose proof (inv_heap _ _ _ _ HI) as HH. pose proof (proj2 Hn) as Hn32. pose proof (proj2 Hr) as Hr32.
  apply (heap_replace _ _ (memory s) m' l1 [Chunk c k false] [Chunk c n true; Chunk (c + n) (k - n) false] l2 c (c + k)); try done.
  - intros d Hd. pose proof (node_header _ _ _ _ HL Hnp Hd). pose proof (node_header _ _ _ _ HL Hnq Hd).
    pose proof (node_header _ _ _ _ HL Hns Hd). pose proof (psize_csize _ _ _ _ Hd Hbs). pose proof (psize_csize _ _ _ _ Hbs Hd).
    pose proof (psize_csize _ _ _ _ Hd Hb1). pose proof (psize_csize _ _ _ _ Hb2 Hd).
    split_hyps. unfold m', pretrim_words. split; intros Hdo; rewrite !upd_ne; first [done|fields_ne].
  - intros x Hx. apply elem_of_cons in Hx as [->|Hx]; [|apply list_elem_of_singleton in Hx as ->]; cbn [addr size];
      unfold word; cbn [size inuse Z.b2z]; unfold m', pretrim_words; rewrite ?Z.add_0_r.
    + pose proof (psize_csize _ _ _ _ Hbs Hb1). split; repeat first [rewrite upd_eq; done | rewrite upd_ne by fields_ne].
    + replace (c + n + (k - n)) with (c + k) by lia. pose proof (psize_csize _ _ _ _ Hb2 Hb1). pose proof (psize_csize _ _ _ _ Hb2 Hbs).
      split; repeat first [rewrite upd_eq; done | rewrite upd_ne by fields_ne].
  - pose proof (hi_coalesced _ _ _ _ HH) as Hc. apply coalesced_mid in Hc as (Hc1 & Hc2 & [Hc|[Hc3 Hc4]]); [done|].
    cbn [app]. apply coalesced_mid. split_and!; [done| |by left]. apply coalesced_cons. split; [by right|done].
Qed.

Lemma pretrim_ring : ring m' j (q1 ++ [c + n] ++ q2).
Proof using HI HB HR Hn Hnk.
  pose proof (inv_layout _ _ _ _ HI) as HL. destruct rest_facts as (_ & [_ Hr] & Hi & _).
  destruct (free_chunk_boundaries _ _ _ _ _ _ _ HI) as (Hb1 & Hb2 & _ & _). destruct split_node as [Hns Hbs]. pose proof (proj2 Hn) as Hn32.
  pose proof (ring_outside L j) as Hout. pose proof (ring_node _ _ _ _ HI L j) as Hrn.
  destruct HR as [HLi Hnd (_ & Hpin & Hnp & Hpc) (_ & Hqin & Hnq & Hqc) Hcn Hpq Hs].
  pose proof (Hout p HB Hi Hpin Hpc) as Hop. pose proof (Hout q HB Hi Hqin Hqc) as Hoq.
  assert (Hps : p <> c + n) by (intros ->; unfold inside, next in Hop; lia).
  assert (Hqs : q <> c + n) by (intros ->; unfold inside, next in Hoq; lia).
  pose proof (node_next_prev _ _ _ _ HL Hnp Hns). pose proof (node_next_prev _ _ _ _ HL Hns Hnq).
  pose proof (node_next_prev _ _ _ _ HL Hns Hns). pose proof (node_next_prev _ _ _ _ HL Hnp Hnq).
  apply Hs.
  - intros x Hx. assert (Hxc : x <> c).
    { intros ->. apply NoDup_cons in Hnd as [HS Hnd]. apply NoDup_app in Hnd as (_ & Hd1 & Hd2). apply NoDup_cons in Hd2 as [Hd2 _].
      set_solver +Hx HS Hd1 Hd2. }
    assert (Hxin : x ∈ BIN_TO_CHUNK j :: L j) by (unfold j; rewrite HLi; set_solver +Hx).
    pose proof (Hrn x HB Hi Hxin) as Hnx. pose proof (Hout x HB Hi Hxin Hxc) as Hox.
    assert (Hxs : x <> c + n) by (intros ->; unfold inside, next in Hox; lia).
    pose proof (node_header _ _ _ _ HL Hnx Hb1). pose proof (node_header _ _ _ _ HL Hnx Hb2). pose proof (node_header _ _ _ _ HL Hnx Hbs).
    pose proof (node_next_prev _ _ _ _ HL Hnx Hnq). pose proof (node_next_prev _ _ _ _ HL Hnp Hnx).
    pose proof (node_next_prev _ _ _ _ HL Hnx Hns). pose proof (node_next_prev _ _ _ _ HL Hns Hnx).
    split_hyps. unfold m', pretrim_words. split; intros Hxe; rewrite !upd_ne; first [done|fields_ne].
  - pose proof (node_header _ _ _ _ HL Hnp Hb1). pose proof (node_header _ _ _ _ HL Hnp Hb2). pose proof (node_header _ _ _ _ HL Hnp Hbs).
    pose proof (node_header _ _ _ _ HL Hnq Hb1). pose proof (node_header _ _ _ _ HL Hnq Hb2). pose proof (node_header _ _ _ _ HL Hnq Hbs).
    pose proof (node_header _ _ _ _ HL Hns Hb1). pose proof (node_header _ _ _ _ HL Hns Hb2). pose proof (node_header _ _ _ _ HL Hns Hbs).
    split_hyps. cbn [app links]. unfold m', pretrim_words.
    split_and!; try done; repeat first [rewrite upd_eq; done | rewrite upd_ne by fields_ne].
Qed.

Lemma pretrim_others i : 0 <= i < 64 -> i <> j -> same_links (memory s) m' L i.
Proof using HI HB HR Hn Hnk.
  intros Hi Hij x Hx. pose proof (inv_layout _ _ _ _ HI) as HL. destruct rest_facts as (_ & _ & Hjr & _).
  pose proof pretrim_changes as Hch. pose proof (or_node _ _ _ _ _ _ _ _ HR) as Hcn.
  assert (Hcin : c ∈ BIN_TO_CHUNK j :: L j) by (unfold j; rewrite (or_split _ _ _ _ _ _ _ _ HR); set_solver +).
  pose proof (ring_apart _ _ _ _ HI L i j x c HB Hi Hjr Hij Hx Hcin) as Hxc.
  destruct (ring_outside L i x HB Hi Hx Hxc) as [Ho1 Ho2]. pose proof (ring_node _ _ _ _ HI L i x HB Hi Hx) as Hnx.
  split; apply (changes_out _ _ _ _ Hch); (intros [[(y & Hy & He)|(m1 & m2 & d & Heq & Hd & He)]|Hin]; [| |done]).
  1,3: pose proof (ring_node _ _ _ _ HI L j y HB Hjr Hy) as Hny;
    pose proof (ring_apart _ _ _ _ HI L i j x y HB Hi Hjr Hij Hx Hy) as Hxy;
    pose proof (node_next_prev _ _ _ _ HL Hnx Hny); pose proof (node_next_prev _ _ _ _ HL Hny Hnx);
    unfold next, prev in *; lia.
  all: pose proof (node_header _ _ _ _ HL Hnx (header_boundary _ _ _ _ HI _ _ _ Heq Hd)); naive_solver.
Qed.

Lemma pretrim_free x : x ∈ q1 ++ [c + n] ++ q2 <-> exists r, Chunk x r false ∈ cs' /\ bin_index r = j.
Proof using HI HB HR Hn Hnk Hj.
  destruct rest_facts as (Hk & Hr & Hjr & _). pose proof (hi_chain _ _ _ _ pretrim_heap) as Hch'.
  pose proof (hi_chain _ _ _ _ (inv_heap _ _ _ _ HI)) as Hch. pose proof (bi_free _ _ _ _ HB j x Hjr) as HL.
  pose proof (or_split _ _ _ _ _ _ _ _ HR) as HLi. fold j in HLi. rewrite HLi in HL.
  pose proof (or_nodup _ _ _ _ _ _ _ _ HR) as Hnd. apply NoDup_cons in Hnd as [_ Hnd].
  assert (Hmem : x <> c -> (x ∈ q1 ++ c :: q2 <-> x ∈ q1 ++ q2)) by (rewrite !elem_of_app, elem_of_cons; tauto).
  assert (Hc : c ∉ q1 ++ q2).
  { apply NoDup_app in Hnd as (_ & Hd1 & Hd2). apply NoDup_cons in Hd2 as [Hd2 _]. set_solver +Hd1 Hd2. }
  rewrite !elem_of_app, list_elem_of_singleton. split.
  - intros Hx. assert (Hx' : x ∈ q1 ++ q2 \/ x = c + n) by (rewrite elem_of_app; tauto). destruct Hx' as [Hx'| ->].
    + assert (Hxc : x <> c) by (intros ->; done). apply Hmem in Hx'; [|done]. apply HL in Hx' as (r & Hr' & Hrj).
      exists r. split; [|done]. unfold cs, cs' in *. rewrite !elem_of_app, !elem_of_cons in *.
      destruct Hr' as [?|[[=]|?]]; first [done|auto].
    + exists (k - n). split; [|done]. unfold cs'. rewrite elem_of_app, !elem_of_cons. auto.
  - intros (r & Hr' & Hrj). unfold cs' in Hr'. rewrite elem_of_app, !elem_of_cons in Hr'.
    assert (Hold : Chunk x r false ∈ l1 \/ Chunk x r false ∈ l2 -> x ∈ q1 \/ x ∈ q2).
    { intros Ho. assert (Hin : Chunk x r false ∈ cs') by (unfold cs'; rewrite elem_of_app, !elem_of_cons; tauto).
      assert (Hxc : x <> c).
      { intros ->. assert (Hc' : Chunk c n true ∈ cs') by (apply elem_of_app; right; left).
        by pose proof (chain_addr_inj _ _ _ _ _ Hch' Hin Hc' eq_refl) as [=]. }
      apply elem_of_app, Hmem; [done|]. apply HL. exists r. split; [|done].
      unfold cs. rewrite elem_of_app, elem_of_cons. tauto. }
    destruct Hr' as [?|[[=]|[[=]|?]]]; tauto.
Qed.

Lemma pretrim_inv : inv (set_memory (fun _ => m') s) cs' bigs F.
Proof using HI HB HR Hn Hnk Hj.
  destruct rest_facts as (Hk & Hr & Hjr & _). pose proof pretrim_changes as Hch.
  pose proof pretrim_heap as Hh'. pose proof pretrim_ring as Hring. pose proof pretrim_free as Hfree.
  pose proof pretrim_footprint_ok as Hfp. pose proof pretrim_others as Ho.
  pose proof (or_split _ _ _ _ _ _ _ _ HR) as HLi. fold j in HLi.
  destruct HI as [Hm Hrg HH _ Hd]. split; cbn [memory set_memory brk brk0 binmap maps].
  - eapply maps_frame; [done| |done]. eapply changes_mono; [exact Hch|]. intros x Hx. by apply Hfp.
  - done.
  - done.
  - exists (fun i => if decide (i = j) then q1 ++ [c + n] ++ q2 else L i).
    apply (bins_change (memory s) m' (binmap s) (binmap s) cs); try done.
    + assert (Hin : c + n ∉ q1 ++ c :: q2).
      { intros Hin. assert (Hin' : c + n ∈ BIN_TO_CHUNK j :: L j) by (rewrite HLi; by right).
        destruct (ring_outside L j (c + n) HB Hjr Hin') as [Hout _]; [destruct Hn; lia|]. apply Hout.
        unfold inside, next. destruct Hn, Hr. lia. }
      pose proof (or_nodup _ _ _ _ _ _ _ _ HR) as Hnd. apply NoDup_cons in Hnd as [_ Hnd].
      apply NoDup_app in Hnd as (Hd1 & Hd12 & Hd2). apply NoDup_cons in Hd2 as [Hd2 Hd3].
      apply NoDup_app. split_and!; [done|set_solver +Hd12 Hin|]. apply NoDup_cons. split; [set_solver +Hin|done].
    + apply HB.
    + rewrite (bi_map _ _ _ _ HB) by done. rewrite HLi. rewrite !bool_decide_eq_false_2; [done| |]; by destruct q1.
    + intros x r Hrj. unfold cs, cs'. rewrite !elem_of_app, !elem_of_cons.
      split; [intros [?|[[=]|[[=]|?]]]; auto; by subst|intros [?|[[=]|?]]; auto; by subst].
  - eapply data_frame; [done|eapply changes_keeps; [exact Hch|]; intros x Hx; by apply Hfp|].
    apply owned_used. intros x Hx Hxu. left. unfold cs, cs' in *. rewrite elem_of_app, !elem_of_cons in *.
    destruct Hx as [?|[->|?]]; [by left|done|right; auto].
Qed.
End on_ring.

Lemma pretrim_run : exists s', inv s' cs' bigs F /\ same_regions s s' /\ forall (i : Z) (Q : bool -> state -> Prop),
  40 <= j -> (i + 3 <= j \/ (j = 63 /\ MMAP_THRESHOLD < k - n)) -> Q true s' -> runs (pretrim c n i j) s Q.
Proof using HI Hn Hnk Hj.
  pose proof (inv_layout _ _ _ _ HI) as HL. destruct (inv_bins _ _ _ _ HI) as (L & HB).
  destruct rest_facts as (Hk & Hr & Hjr & H1 & _). pose proof (unit_even _ Hk) as Hev. pose proof (unit_even _ Hn) as Hevn.
  destruct (free_chunk_facts _ _ _ _ _ _ _ HI) as (_ & _ & _ & _ & Hcs & Hps).
  destruct (free_chunk_boundaries _ _ _ _ _ _ _ HI) as (Hb1 & Hb2 & _ & _). destruct split_node as [Hns Hbs].
  destruct (free_chunk_ring _ _ _ _ _ _ _ HI L HB) as (q1 & q2 & p & q & HR).
  exists (set_memory (fun _ => pretrim_words p q (memory s)) s).
  split; [by apply (pretrim_inv L q1 q2)|]. split; [done|]. intros i Q H40 Hij HQ.
  pose proof (ring_outside L j) as Hout. destruct HR as [HLi Hnd (Hp & Hpin & Hnp & Hpc) (Hq & Hqin & Hnq & Hqc) Hcn Hpq _].
  pose proof (Hout p HB Hjr Hpin Hpc) as Hop. pose proof (Hout q HB Hjr Hqin Hqc) as Hoq.
  pose proof (proj2 Hn) as Hn32. pose proof (proj2 Hr) as Hr32.
  assert (Hps' : p <> c + n) by (intros ->; unfold inside, next in Hop; lia).
  assert (Hqs' : q <> c + n) by (intros ->; unfold inside, next in Hoq; lia).
  assert (Hcn' : c <> c + n) by lia.
  pose proof (node_mapped _ _ _ l1 l2 c k HI) as Hmap. destruct (Hmap _ Hns), (Hmap _ Hnp), (Hmap _ Hnq).
  assert (Hmb : forall d, boundary (brk0 s) (brk s) d -> is_Some (memory s (psize d)) /\ is_Some (memory s (csize d))).
  { intros d Hd. destruct (boundary_region _ _ _ HL Hd). destruct HI as [Hm Hrg _ _ _]. destruct Hd as [Hd _].
    split; eapply region_mapped; try done; unfold psize, csize; clear -Hd; div_lia. }
  destruct (Hmb _ Hbs), (Hmb _ Hb1), (Hmb _ Hb2).
  pose proof (node_next_prev _ _ _ _ HL Hcn Hns). pose proof (node_next_prev _ _ _ _ HL Hns Hns).
  pose proof (node_next_prev _ _ _ _ HL Hnp Hns). pose proof (node_next_prev _ _ _ _ HL Hnp Hcn).
  pose proof (node_header _ _ _ _ HL Hns Hb1). pose proof (node_header _ _ _ _ HL Hnp Hb1). pose proof (node_header _ _ _ _ HL Hnq Hb1).
  pose proof (psize_csize _ _ _ _ Hbs Hb1). pose proof (psize_csize _ _ _ _ Hb2 Hb1). split_hyps.
  unfold pretrim. rewrite (proj2 (Z.ltb_ge j 40)) by done.
  unfold CHUNK_SIZE at 1. do 2 run_step. run_step; [exact Hcs|]. run_step. rewrite (even_free k Hev).
  rewrite (u64_small (k - n)) by lia.
  assert (Hcond : (j <? i + 3) && (negb (j =? 63) || (k - n <=? MMAP_THRESHOLD)) = false).
  { apply andb_false_iff. destruct Hij as [?|[-> ?]]; [left; by apply Z.ltb_ge|right]. cbn. by apply Z.leb_gt. }
  rewrite Hcond, Hj, Z.eqb_refl. cbn [negb].
  unfold NEXT_CHUNK, CHUNK_SIZE. do 3 run_step. run_step; [exact Hcs|]. do 2 run_step. rewrite (even_free k Hev).
  rewrite (lor_inuse0 _ Hevn).
  run_step. run_step; [exact Hp|]. run_step. run_step; [done|].
  run_step. run_step. { cbn [memory set_memory]. rewrite upd_ne by fields_ne. exact Hq. }
  run_step. run_step; [by apply upd_mapped|].
  run_step. run_step. { cbn [memory set_memory]. rewrite upd_ne, upd_eq by fields_ne. done. }
  run_step. run_step; [by do 2 apply upd_mapped|].
  run_step. run_step. { cbn [memory set_memory]. rewrite upd_ne, upd_eq by fields_ne. done. }
  run_step. run_step; [by do 3 apply upd_mapped|].
  run_step. run_step; [by do 4 apply upd_mapped|].
  run_step. run_step; [by do 5 apply upd_mapped|].
  run_step. run_step; [by do 6 apply upd_mapped|].
  run_step. run_step; [by do 7 apply upd_mapped|].
  run_step. exact HQ.
Qed.
End pretrim.

Lemma pretrim_runs s bigs F l1 l2 c k n i : inv s (l1 ++ Chunk c k false :: l2) bigs F -> unit_size n -> n <= k ->
  bin_index n <= i -> runs (pretrim c n i (bin_index k)) s (fun r s' => (r = false /\ s' = s) \/
    (r = true /\ n < k /\ inv s' (l1 ++ Chunk c n true :: Chunk (c + n) (k - n) false :: l2) bigs F /\ same_regions s s')).
Proof using.
  intros HI Hn Hle Hi. destruct (free_chunk_facts _ _ _ _ _ _ _ HI) as (Hk & Hjr & _ & _ & Hcs & _).
  pose proof (unit_even _ Hk) as Hev.
  destruct (decide (40 <= bin_index k /\ (i + 3 <= bin_index k \/ (bin_index k = 63 /\ MMAP_THRESHOLD < k - n)) /\
    bin_index (k - n) = bin_index k)) as [(H40 & Hij & Hb)|Hno].
  - assert (Hlt : n < k).
    { destruct (Z.eq_dec n k) as [->|]; [exfalso|lia]. unfold MMAP_THRESHOLD, SIZE_ALIGN in Hij. lia. }
    destruct (pretrim_run _ _ _ _ _ _ _ _ HI Hn Hlt Hb) as (s' & HI' & Hs & Hrun). apply Hrun; [done|done|]. auto.
  - unfold pretrim. destruct (Z.ltb_spec (bin_index k) 40) as [|H40]; [run_step; auto|].
    unfold CHUNK_SIZE at 1. do 2 run_step. run_step; [exact Hcs|]. run_step. rewrite (even_free k Hev).
    rewrite (u64_small (k - n)) by (unfold unit_size in *; lia).
    destruct ((bin_index k <? i + 3) && _) eqn:Hc; [run_step; auto|].
    destruct (Z.eqb_spec (bin_index (k - n)) (bin_index k)) as [Hb|Hb]; [exfalso|cbn [negb]; run_step; auto].
    apply Hno. split; [done|]. split; [|done]. apply andb_false_iff in Hc as [Hc|Hc]; [left; by apply Z.ltb_ge in Hc|right].
    apply orb_false_iff in Hc as [Hc1 Hc2]. apply negb_false_iff, Z.eqb_eq in Hc1. apply Z.leb_gt in Hc2. done.
Qed.

End trim.
