(* ===== verification/AllocGrow.v ===== *)
(** * Growing the heap ([expand_heap], [init_malloc]), and [malloc] of a block in it

    The loop of [malloc] finds a chunk of at least the size asked for: on the
    ring of a bin whose chunks are large enough, or at the end of the grown
    heap; one round is enough, or two when the heap is made first. *)

From S2P Require Import Prelude Alloc AllocBins AllocFacts AllocInv AllocSteps AllocBin AllocFree AllocTrim.

Section grow.
Context `{K : Kernel} `{B : Statics}.

(** ** [expand_heap] *)

(** The words that [expand_heap] writes when the heap grows from [b] by [d]. *)
Definition expand_words (b d : Z) (m : Z -> option Z) : Z -> option Z :=
  upd (csize (b - 16)) (d + 1) (upd (csize (b + d - 16)) 1 (upd (psize (b + d - 16)) (d + 1) m)).

(** Where the heap ends, in its region. *)
Record can_grow (s : state) : Prop := {
  cg_b0 : 0 < brk0 s /\ brk0 s mod 4096 = 0 /\ brk0 s + BRKSIZE <= 2 ^ 47;
  cg_b : brk s mod 32 = 0 /\ brk0 s + 32 <= brk s <= brk0 s + BRKSIZE;
  cg_mapped : forall x, brk0 s <= x < brk0 s + BRKSIZE -> x mod 8 = 0 -> is_Some (memory s x);
}.

Lemma inv_can_grow s cs bigs F : inv s cs bigs F -> can_grow s.
Proof using.
  intros [Hm Hr _ _ _]. pose proof Hm as [_ Hok _ _ _ _]. pose proof Hr as [Hb0 Hb Hrm _].
  destruct (Hok _ Hrm) as (H1 & _ & H2). cbn in *. split; [done|done|].
  intros x Hx H8. eapply region_mapped; [done|done|by left|done].
Qed.

Lemma expand_runs s n : can_grow s -> unit_size n -> n <= MMAP_THRESHOLD ->
  runs (expand_heap n) s (fun c s' =>
    (c = 0 /\ s' = set_errn ENOMEM s /\ brk0 s + BRKSIZE < brk s + n + SIZE_ALIGN + PAGE_SIZE) \/
    (exists d, c = brk s - 16 /\ n <= d /\ unit_size d /\ brk s + d <= brk0 s + BRKSIZE /\
       s' = set_brk (brk s + d) (set_memory (expand_words (brk s) d) s))).
Proof using.
  intros [(H0 & Hm0 & Hmax) (Hmb & Hb) Hmap] [Hmn Hn] Hle.
  unfold MMAP_THRESHOLD, SIZE_ALIGN in Hle. unfold expand_heap, SIZE_MAX, SIZE_ALIGN, PAGE_SIZE. run_step. run_step. run_step. run_step.
  rewrite (u64_small (2 ^ 64 - 1 - brk s - 2 * 4096)) by (unfold BRKSIZE in *; lia).
  rewrite (proj2 (Z.ltb_ge _ n)) by (unfold BRKSIZE in *; lia).
  change 4096 with PAGE_SIZE. rewrite land_PAGE_SIZE. unfold PAGE_SIZE. rewrite (u64_small (brk s + n + 32 + 4096 - 1)) by (unfold BRKSIZE in *; lia).
  set (x := brk s + n + 32 + 4096 - 1). pose proof (Z.mod_pos_bound x 4096 ltac:(lia)) as Hx.
  rewrite (u64_small (brk0 s + BRKSIZE)) by (unfold BRKSIZE in *; lia).
  destruct (Z.ltb_spec (brk0 s + BRKSIZE) (x - x mod 4096)) as [Hfull|Hfits].
  { do 3 run_step. left. split_and!; [done|done|]. unfold x in *. lia. }
  set (d := x - x mod 4096 - brk s). assert (Hnew : x - x mod 4096 = brk s + d) by (unfold d; lia). rewrite Hnew in *.
  assert (Hdn : n + 32 <= d) by (unfold d, x in *; lia).
  assert (Hdm : d mod 32 = 0) by (unfold d; clear -Hmb; div_lia).
  assert (Hd : unit_size d) by (split; [done|unfold BRKSIZE in *; lia]). pose proof (unit_even _ Hd) as Hev.
  rewrite (u64_small d) by lia.
  unfold MEM_TO_CHUNK, OVERHEAD. rewrite (lor_inuse0 _ Hev).
  assert (H8 : forall z, (brk s + d - 16 = z \/ brk s + d - 16 + 8 = z \/ brk s - 16 + 8 = z) -> is_Some (memory s z)).
  { intros z Hz. apply Hmap; [lia|]. clear -Hz Hmb Hdm. div_lia. }
  run_step. run_step; [apply H8; unfold psize; auto|].
  run_step. run_step; [apply upd_mapped, H8; unfold csize; auto|].
  run_step. run_step; [do 2 apply upd_mapped; apply H8; unfold csize; auto|].
  do 3 run_step. right. exists d. split_and!; try done. lia.
Qed.

(** The new chunk is in use and no word of it belongs to a block. *)
Section expand.
Context (s : state) (cs : list chunk) (bigs : list (Z * Z)) (F : Z -> option Z) (d : Z).
Hypothesis (HI : inv s cs bigs F) (Hd : unit_size d) (Hfits : brk s + d <= brk0 s + BRKSIZE).
Let m' := expand_words (brk s) d (memory s).

Lemma beyond_clear : clear F (brk s - 16) (brk0 s + BRKSIZE).
Proof using HI.
  intros x Hx. destruct HI as [Hm Hr Hh _ [_ Ho]]. apply (not_owned F _ _ _ (Ho x)). intros Hown.
  pose proof (ri_brk _ _ _ _ Hr). eapply owned_region in Hown as (c & Hc & _ & Hcx); [|done..|left; lia].
  destruct (chain_in _ _ _ _ (hi_chain _ _ _ _ Hh) Hc). lia.
Qed.

Lemma expand_changes : changes (fun x => brk s - 8 <= x < brk0 s + BRKSIZE) (memory s) m'.
Proof using Hd Hfits. destruct Hd. unfold m', expand_words, csize, psize. repeat apply changes_upd; [apply changes_refl|lia..]. Qed.

Lemma expand_heap_inv : heap_inv m' (brk0 s) (brk s + d) (cs ++ [Chunk (brk s - 16) d true]).
Proof using HI Hd Hfits.
  pose proof (inv_layout _ _ _ _ HI) as HL. pose proof (inv_heap _ _ _ _ HI) as [Hch Hf Hl Hh Hc]. pose proof (proj2 Hd).
  pose proof expand_changes as Hcg. pose proof (chain_le _ _ _ Hch).
  assert (Hchain : chain (brk0 s + 16) (cs ++ [Chunk (brk s - 16) d true]) (brk s + d - 16)).
  { apply chain_app. exists (brk s - 16). split; [done|]. cbn. split_and!; [done|done|lia]. }
  split; [done| | | |].
  - rewrite (changes_out _ _ _ _ Hcg); [done|]. unfold psize. lia.
  - unfold m', expand_words. rewrite upd_ne by (unfold csize; lia). by rewrite upd_eq.
  - intros c Hcin. apply elem_of_app in Hcin as [Hcin|Hcin].
    + destruct (chain_in _ _ _ _ Hch Hcin) as (? & ? & [_ ?] & _). split; [rewrite <- (proj1 (Hh c Hcin))|rewrite <- (proj2 (Hh c Hcin))];
        apply (changes_out _ _ _ _ Hcg); unfold csize, psize; lia.
    + apply list_elem_of_singleton in Hcin as ->. unfold word. cbn [addr size inuse Z.b2z].
      replace (brk s - 16 + d) with (brk s + d - 16) by lia. unfold m', expand_words.
      split; [apply upd_eq|]. rewrite !upd_ne by (unfold csize, psize; lia). by rewrite upd_eq.
  - apply coalesced_snoc. split; [done|by right].
Qed.

Lemma expand_inv : inv (set_brk (brk s + d) (set_memory (expand_words (brk s) d) s))
  (cs ++ [Chunk (brk s - 16) d true]) bigs F.
Proof using HI Hd Hfits.
  pose proof expand_heap_inv as HH. pose proof expand_changes as Hcg. pose proof beyond_clear as Hcl.
  pose proof (inv_layout _ _ _ _ HI) as HL. pose proof (ring_node _ _ _ _ HI) as Hrn. pose proof Hd as [Hdm Hd32].
  destruct HI as [Hm Hr _ (L & HB) Hdt]. pose proof Hr as [Hb0 (Hbm & Hb) Hrm Hnb].
  split; cbn [memory set_memory set_brk brk brk0 binmap maps].
  - eapply maps_frame; [exact Hr| |done]. eapply changes_mono; [exact Hcg|]. cbn. intros x Hx. left. lia.
  - split; try done. split; [clear -Hbm Hdm; div_lia|lia].
  - exact HH.
  - exists L. apply (bins_frame (memory s) m' _ cs); [done| |].
    + intros i Hi x Hx. apply Hrn in Hx; [|done|done]. destruct HL as [Hl1 _ _ Hl4].
      split; apply (changes_out _ _ _ _ Hcg); cbv beta; (destruct Hx as [(k & ? & ->)|[_ ?]];
        unfold next, prev, BIN_TO_CHUNK, bin_head, MEM_TO_CHUNK, OVERHEAD in *; lia).
    + intros a n. rewrite elem_of_app, list_elem_of_singleton. split; [by intros [?|[=]]|by left].
  - eapply data_frame; [done|eapply changes_keeps; [exact Hcg|]; intros x Hx; cbv beta in Hx; apply Hcl; lia|].
    apply owned_used. intros c Hc _. left. apply elem_of_app. by left.
Qed.
End expand.

(** ** A new mapping *)
Lemma zero_words_out a len m x : ~ (a <= x < a + len) -> zero_words a len m x = m x.
Proof using.
  intros H. unfold zero_words. destruct (within a len x) eqn:Hw; [|done]. by apply within_iff in Hw as [? _].
Qed.

Lemma fresh_out ms a len r x : fresh_range ms a len -> r ∈ ms -> r.1 <= x < r.1 + r.2 -> ~ (a <= x < a + len).
Proof using.
  intros (_ & _ & _ & Hf) Hr Hx. rewrite Forall_forall in Hf. destruct (Hf r Hr) as [H|H]; cbn in H; lia.
Qed.

Lemma mmap_maps_inv m ms bigs a len : maps_inv m ms bigs -> fresh_range ms a len -> 0 < len ->
  maps_inv (zero_words a len m) ((a, len) :: ms) bigs.
Proof using.
  intros Hm Hf Hlen. pose proof (fun r x => fresh_out ms a len r x Hf) as Hout. pose proof (fun r => big_bounds m ms bigs r Hm) as Hbb.
  destruct Hf as (Ha & Ham & Hmax & Hap). rewrite Forall_forall in Hap.
  destruct Hm as [[Hb1 [Hb2 Hb3]] Hok Hapt Hmap Hnd Hbig]. split.
  - split_and!; [done|done|by right].
  - intros r Hr. apply elem_of_cons in Hr as [->|Hr]; [|auto]. unfold mapping_ok. cbn. lia.
  - intros r1 r2 H1 H2. apply elem_of_cons in H1, H2. destruct H1 as [->|H1], H2 as [->|H2]; auto.
    right. destruct (Hap r1 H1); [by right|by left].
  - intros r x Hr Hx. unfold zero_words. case_if; [eauto|].
    apply elem_of_cons in Hr as [->|Hr]; [|eauto]. cbn in Hx. congruence.
  - done.
  - intros r Hr. destruct (Hbig r Hr) as (H1 & H2 & H3 & H4 & H5). specialize (Hbb r Hr). unfold psize, csize in *.
    split_and!; [by right|done|done|..]; rewrite zero_words_out; try done; eapply Hout; try done; lia.
Qed.

(** The words of the blocks are not in it. *)
Lemma owned_mapped m b0 ms cs bigs x : maps_inv m ms bigs ->
  (forall c, c ∈ cs -> b0 <= addr c /\ addr c + size c <= b0 + BRKSIZE) -> (cs <> [] -> (b0, BRKSIZE) ∈ ms) ->
  owned cs bigs x -> exists r, r ∈ ms /\ r.1 <= x < r.1 + r.2.
Proof using.
  intros Hm Hc Hr [(c & Hin & _ & Hx)|(r & Hin & Hx)].
  - exists (b0, BRKSIZE). cbn. specialize (Hc c Hin). split; [|lia]. apply Hr. intros ->. by apply not_elem_of_nil in Hin.
  - exists r. pose proof (big_bounds _ _ _ _ Hm Hin). split; [|lia]. by apply (mi_bigs _ _ _ Hm).
Qed.

(** ** The state before the first small block *)
Record uninit (s : state) (bigs : list (Z * Z)) (F : Z -> option Z) : Prop := {
  un_init : init s = false;
  un_maps : maps_inv (memory s) (maps s) bigs;
  un_bins : exists L, bins_inv (memory s) (binmap s) [] L;
  un_data : data_inv (memory s) [] bigs F;
}.

Context `{KS : !KernelSpec K}.

Section first.
Context (s : state) (bigs : list (Z * Z)) (F : Z -> option Z) (b d : Z).
Hypothesis (HU : uninit s bigs F) (Hb : fresh_range (maps s) b BRKSIZE) (Hd : unit_size d) (Hfits : 32 + d <= BRKSIZE).
Let m' := upd (psize (b + 16)) 1 (expand_words (b + 32) d (zero_words b BRKSIZE (memory s))).

Lemma first_changes : changes (fun x => b <= x < b + BRKSIZE) (memory s) m'.
Proof using Hd Hfits.
  destruct Hd. unfold m', expand_words, csize, psize. repeat apply changes_upd; try lia.
  intros x. unfold zero_words. destruct (within _ _ x) eqn:Hw; [right|by left]. apply within_iff in Hw as [? _]. eauto.
Qed.

Lemma first_clear : clear F b (b + BRKSIZE).
Proof using HU Hb.
  intros x Hx. destruct HU as [_ Hm _ [_ Ho]]. apply (not_owned F _ _ _ (Ho x)). intros Hown.
  apply (owned_mapped _ 0 _ _ _ _ Hm) in Hown as (r & Hr & Hrx); [|by intros c Hc; apply not_elem_of_nil in Hc|done].
  by eapply fresh_out.
Qed.

Lemma first_inv s' : memory s' = m' -> brk s' = b + 32 + d -> brk0 s' = b -> binmap s' = binmap s ->
  maps s' = (b, BRKSIZE) :: maps s -> inv s' [Chunk (b + 16) d true] bigs F.
Proof using HU Hb Hd Hfits.
  intros Hm' Hbrk Hbrk0 Hbm Hms. pose proof first_changes as Hcg. pose proof first_clear as Hcl.
  destruct HU as [_ Hm (L & HB) Hdt]. pose proof Hd as [Hdm Hd32]. pose proof Hb as (Hb1 & Hb2 & Hb3 & Hb4).
  assert (Hnb : (b, BRKSIZE) ∉ bigs).
  { intros Hin. apply (mi_bigs _ _ _ Hm) in Hin as [Hin _]. rewrite Forall_forall in Hb4.
    destruct (Hb4 _ Hin) as [H|H]; cbn in H; unfold BRKSIZE in H; lia. }
  assert (Hr : region_inv b (b + 32 + d) ((b, BRKSIZE) :: maps s) bigs).
  { split; [done| |left|done]. split; [|lia]. clear -Hb2 Hdm. div_lia. }
  assert (Hm1 : maps_inv m' ((b, BRKSIZE) :: maps s) bigs).
  { eapply (maps_frame b _ (zero_words b BRKSIZE (memory s))); [exact Hr| |by apply mmap_maps_inv].
    unfold m', expand_words, csize, psize. repeat apply changes_upd; [apply changes_refl|left; lia..]. }
  split; rewrite ?Hm', ?Hbrk, ?Hbrk0, ?Hbm, ?Hms; [done|done| |exists L|].
  - split.
    + cbn. split_and!; [done|done|lia].
    + apply upd_eq.
    + unfold m', expand_words. rewrite upd_ne, upd_ne by (unfold csize, psize; lia).
      replace (b + 32 + d - 16) with (b + 32 + d - 16) by lia. apply upd_eq.
    + intros c Hc. apply list_elem_of_singleton in Hc as ->. unfold word. cbn [addr size inuse Z.b2z]. unfold m', expand_words.
      replace (b + 32 - 16) with (b + 16) by lia. replace (b + 32 + d - 16) with (b + 16 + d) by lia.
      split; [rewrite upd_ne by (unfold csize, psize; lia); apply upd_eq|].
      rewrite !upd_ne by (unfold csize, psize; lia). apply upd_eq.
    + done.
  - apply (bins_frame (memory s) m' _ []); [done| |].
    + intros i Hi x Hx. apply elem_of_cons in Hx as [->|Hx];
        [|apply (bi_free _ _ _ _ HB) in Hx as (n & Hn & _); [by apply not_elem_of_nil in Hn|done]].
      destruct (mi_bins _ _ _ Hm) as (_ & _ & Hs). rewrite Forall_forall in Hb4.
      destruct (Hb4 _ Hs) as [H|H]; cbn in H;
      split; apply (changes_out _ _ _ _ Hcg); unfold next, prev, BIN_TO_CHUNK, bin_head, MEM_TO_CHUNK, OVERHEAD; lia.
    + intros a n. rewrite list_elem_of_singleton. split; [done|intros Hin; by apply not_elem_of_nil in Hin].
  - eapply data_frame; [done|eapply changes_keeps; [exact Hcg|]; intros x Hx; by apply Hcl|].
    apply owned_used. intros c Hc. by apply not_elem_of_nil in Hc.
Qed.
End first.

Lemma init_malloc_runs s bigs F n : uninit s bigs F -> unit_size n -> n <= MMAP_THRESHOLD -> 0 <= sys_mmap (maps s) BRKSIZE ->
  runs (init_malloc n) s (fun r s' => r = 1 /\ init s' = true /\ exists cs, inv s' cs bigs F /\ used_blocks cs = []).
Proof using KS.
  intros HU Hn Hle Hmm. destruct (mmap_spec (maps s) BRKSIZE) as [|Hb]; [done|lia|].
  set (b := sys_mmap (maps s) BRKSIZE) in *. pose proof Hb as (Hb1 & Hb2 & Hb3 & Hb4).
  assert (Hb5 : b + 1073741824 <= 2 ^ 47) by exact Hb3. unfold init_malloc. run_step. run_step. rewrite (un_init _ _ _ HU). run_step. unfold mmap. do 2 run_step. fold b.
  rewrite (proj2 (Z.ltb_ge b 0)) by lia. do 3 run_step. run_step. run_step.
  unfold MAP_FAILED. change (u64 (-1)) with (2 ^ 64 - 1). rewrite (proj2 (Z.eqb_neq b (2 ^ 64 - 1))) by lia.
  do 4 run_step. rewrite land_SIZE_ALIGN. unfold SIZE_ALIGN.
  rewrite (u64_small (b + 2 * 32 - 1)) by (unfold BRKSIZE in *; lia).
  assert (Hbrk : b + 2 * 32 - 1 - (b + 2 * 32 - 1) mod 32 = b + 32) by (clear -Hb2; div_lia). rewrite Hbrk. run_step.
  eapply runs_mono; [apply expand_runs; [|done|done]|].
  { split; cbn [brk brk0 memory set_brk set_brk0 set_maps set_memory].
    - lia.
    - split; [clear -Hb2; div_lia|unfold BRKSIZE; lia].
    - intros x Hx H8. unfold zero_words. rewrite (proj2 (within_iff b BRKSIZE x)); [by eexists|done]. }
  intros c s1 [(-> & _ & Hfull)|(d & -> & Hd1 & Hd & Hfits & ->)]; cbn [brk brk0 set_brk set_brk0] in *.
  { exfalso. unfold MMAP_THRESHOLD, BRKSIZE, SIZE_ALIGN, PAGE_SIZE in *. lia. }
  replace (b + 32 - 16) with (b + 16) by lia. rewrite (proj2 (Z.eqb_neq (b + 16) 0)) by lia. do 3 run_step.
  run_step. { cbn [memory set_heap set_brk set_memory set_brk0 set_maps]. unfold expand_words. do 3 apply upd_mapped.
    unfold zero_words. rewrite (proj2 (within_iff _ _ _)); [by eexists|]. unfold psize, BRKSIZE. split; [lia|]. clear -Hb2. div_lia. }
  run_step. change (Z.lor 0 C_INUSE) with 1. eapply runs_mono.
  { apply (free_chunk_runs _ bigs F [] [] (b + 16) d).
    - by apply (first_inv s bigs F b d); try done; [lia..].
    - intros x Hx. eapply first_clear; [done|done|]. lia. }
  intros _ s2 (l1 & pre & post & l2 & a & k & Hl & Hl' & _ & _ & HI & Hs). do 3 run_step. split; [done|]. split; [done|].
  symmetry in Hl, Hl'. apply app_eq_nil in Hl as [-> _]. apply app_eq_nil in Hl' as [_ ->].
  exists [Chunk a k false]. split; [|done]. destruct HI. by split.
Qed.

End grow.

(** ** The loop of [malloc] *)
Section malloc.
Context `{K : Kernel} `{B : Statics}.

Lemma first_set_runs x s (Q : Z -> state -> Prop) : 0 < x ->
  (forall j, Z.testbit x j = true -> 0 <= j -> Q j s) -> runs (first_set x) s Q.
Proof using.
  intros Hx HQ. destruct x as [|p|p]; [done| |done]. destruct (ctz_pos_bit p) as [Hb H0].
  unfold runs, first_set, lift, a_ctz_64, Smoothsort.a_ctz_l. cbn. auto.
Qed.

(** What [malloc] has found: a chunk in use, of at least [n] bytes, that holds no block. *)
Record found (s : state) (cs : list chunk) (bigs : list (Z * Z)) (F : Z -> option Z) (n c : Z) (s' : state)
    (l1 l2 : list chunk) (k : Z) : Prop := {
  fo_inv : inv s' (l1 ++ Chunk c k true :: l2) bigs F;
  fo_size : n <= k;
  fo_clear : clear F c (c + k);
  fo_rest : used_blocks l1 ++ used_blocks l2 = used_blocks cs;
  fo_init : init s' = init s;
}.

Section inited.
Context (s : state) (cs : list chunk) (bigs : list (Z * Z)) (F : Z -> option Z).
Hypothesis (HI : inv s cs bigs F).

(** The first chunk of a bin that is not empty. *)
Lemma bin_first j : 0 <= j < 64 -> Z.testbit (binmap s) j = true ->
  locked s j /\ exists c l1 k l2, cs = l1 ++ Chunk c k false :: l2 /\ bin_index k = j /\
    memory s (bin_head j) = Some c /\ c <> BIN_TO_CHUNK j.
Proof using HI.
  intros Hj Hb. destruct (inv_bins _ _ _ _ HI) as (L & HB). rewrite (bi_map _ _ _ _ HB) in Hb by done.
  apply negb_true_iff, bool_decide_eq_false in Hb.
  destruct (bi_ok _ _ _ _ HB j Hj) as [(H0 & _)|Hr]; [done|].
  split; [by eapply ring_locked|]. destruct (L j) as [|c q] eqn:HL; [done|].
  assert (Hin : c ∈ L j) by (rewrite HL; left). destruct (bin_members _ _ L j c HB Hj Hin) as (k & Hk & Hkj).
  pose proof Hk as Hk'. apply list_elem_of_split in Hk as (l1 & l2 & ->). exists c, l1, k, l2.
  unfold ring in Hr. cbn in Hr. destruct Hr as (Hr & _). rewrite next_bin in Hr.
  split_and!; try done. intros ->. destruct (inv_layout _ _ _ _ HI) as [Hl1 Hl2 Hl3 Hl4].
  destruct (chain_in _ _ _ _ (hi_chain _ _ _ _ (inv_heap _ _ _ _ HI)) Hk') as (? & ? & [_ ?] & _). cbn in *.
  unfold BIN_TO_CHUNK, bin_head, MEM_TO_CHUNK, OVERHEAD in *. lia.
Qed.

Context (n : Z).
Hypothesis (Hn : unit_size n) (Hle : n <= MMAP_THRESHOLD).
Let i := bin_index_up n.

(** The chunk is taken off its ring, whole or its front only. *)
Lemma take_runs l1 c k l2 : cs = l1 ++ Chunk c k false :: l2 -> i <= bin_index k ->
  runs (t ← pretrim c n i (bin_index k);
    (if (t : bool) then mret tt else unbin c (bin_index k));; mret (Some c)) s
  (fun o s' => o = Some c /\ exists l1' l2' k', found s cs bigs F n c s' l1' l2' k').
Proof using HI Hn Hle.
  intros -> Hi. pose proof (free_chunk_facts _ _ _ _ _ _ _ HI) as (Hk & Hkr & _).
  assert (Hnk : n <= k) by (by apply bin_fits). pose proof (free_chunk_in l1 l2 c k) as Hin.
  pose proof (clear_free _ _ _ _ HI c k Hin) as Hcl.
  run_step. eapply runs_mono; [apply (pretrim_runs _ _ _ _ _ _ _ _ _ HI Hn Hnk); by apply bin_index_le_up|].
  intros t s1 [(-> & ->)|(-> & Hlt & HI1 & Hs)].
  - run_step. eapply runs_mono; [by apply (unbin_runs _ _ _ _ _ _ _ HI)|]. intros _ s2 (HI2 & Hs). run_step.
    split; [done|]. exists l1, l2, k. split; try done; [|apply Hs]. by rewrite used_blocks_app, used_blocks_cons.
  - do 3 run_step. split; [done|]. exists l1, (Chunk (c + n) (k - n) false :: l2), n. split; try done; [|  |apply Hs].
    + intros x Hx. apply Hcl. lia.
    + by rewrite used_blocks_app, !used_blocks_cons.
Qed.

End inited.

Lemma grow_runs s cs bigs F n : inv s cs bigs F -> unit_size n -> n <= MMAP_THRESHOLD ->
  runs (grow n) s (fun o s' => (o = None /\ s' = set_errn ENOMEM s /\ brk0 s + BRKSIZE < brk s + n + SIZE_ALIGN + PAGE_SIZE) \/
    (exists c l1 l2 k, o = Some c /\ found s cs bigs F n c s' l1 l2 k)).
Proof using.
  intros HI Hn Hle. unfold grow. run_step. eapply runs_mono; [apply expand_runs; [by eapply inv_can_grow|done|done]|].
  intros c0 s1 [(-> & -> & Hfull)|(d & -> & Hd1 & Hd & Hfits & ->)]; [rewrite Z.eqb_refl; run_step; auto|].
  pose proof (expand_inv _ _ _ _ _ HI Hd Hfits) as HI1. pose proof (beyond_clear _ _ _ _ HI) as Hbc.
  destruct (inv_layout _ _ _ _ HI) as [_ [_ H0] [_ Hb] _]. destruct (inv_bounds _ _ _ _ HI) as [_ Hmax].
  set (c := brk s - 16) in *. rewrite (proj2 (Z.eqb_neq c 0)) by (unfold c; lia).
  pose proof (hi_chain _ _ _ _ (inv_heap _ _ _ _ HI)) as Hch. set (s1 := set_brk _ _) in *.
  pose proof (unit_even _ Hd) as Hev. pose proof (proj2 Hd) as Hd32.
  run_step. eapply runs_mono; [apply (alloc_rev_runs s1 bigs F cs [Chunk c d true] c); [done|exact Hch]|].
  intros r s2 (Hs2 & [(-> & Hl & ->)|(-> & l & p & k & -> & Hpc & HI2)]).
  { run_step. right. exists c, cs, [], d. split; [done|]. split; try done.
    - intros x Hx. apply Hbc. unfold c in *. lia.
    - by rewrite app_nil_r. }
  pose proof (free_chunk_facts _ _ _ l [] p k HI) as (Hk & _ & Hp & _). pose proof (unit_even _ Hk) as Hevk.
  pose proof (proj2 Hk) as Hk32. pose proof (chain_le _ _ _ Hp) as Hple.
  destruct Hs2 as (Hs21 & Hs22 & _ & Hs23 & _). cbn in Hs21, Hs22, Hs23.
  assert (HI2' : inv s2 ((l ++ [Chunk p k true]) ++ [Chunk c d true]) bigs F) by (by rewrite <- app_assoc).
  assert (Hp2 : chain (brk0 s2 + 16) l p) by (by rewrite Hs22).
  assert (Hc2 : chain (brk0 s2 + 16) (l ++ [Chunk p k true]) c) by (apply chain_app; exists p; cbn; auto).
  pose proof (left_header _ _ _ _ _ _ HI2' Hc2) as Hw1. unfold left_word in Hw1. rewrite last_snoc in Hw1. cbn in Hw1.
  pose proof (right_header _ _ _ _ _ _ HI2' Hc2) as Hw2. cbn in Hw2.
  pose proof (right_header _ _ _ _ _ _ HI2 Hp2) as Hw3. cbn in Hw3. unfold word in Hw1, Hw2, Hw3. cbn [size inuse] in *.
  unfold PREV_CHUNK, CHUNK_PSIZE, NEXT_CHUNK, CHUNK_SIZE. do 3 run_step. run_step; [exact Hw1|]. do 2 run_step.
  rewrite (even_word k true Hevk). replace (c - k) with p by lia.
  run_step. run_step; [exact Hw2|]. do 2 run_step. run_step; [exact Hw3|]. run_step. rewrite (even_word k true Hevk).
  do 3 run_step. run_step; [exact Hw2|]. do 2 run_step. rewrite (even_word d true Hev). cbn [Z.b2z].
  rewrite (u64_small (d + 1 + k)) by (unfold c in *; lia).
  assert (Hmid : chain p [Chunk p k true; Chunk c d true] (c + d)) by (cbn; rewrite <- Hpc; destruct Hk, Hd; split_and!; done).
  assert (Hend : boundary (brk0 s2) (brk s2) (c + d)).
  { apply (header_boundary _ _ _ _ HI2' (l ++ [Chunk p k true] ++ [Chunk c d true]) []).
    - by rewrite app_nil_r, <- app_assoc.
    - apply chain_app. eauto. }
  assert (Hmap : is_Some (memory s2 (csize p)) /\ is_Some (memory s2 (psize (c + d)))).
  { split; [by rewrite Hw3|]. destruct (boundary_region _ _ _ (inv_layout _ _ _ _ HI2) Hend) as [Hr _].
    destruct HI2 as [Hm Hrg _ _ _]. eapply region_mapped; [done|done|done|]. destruct Hend as [He _]. unfold psize. clear -He. div_lia. }
  destruct Hmap as [Hmap1 Hmap2].
  run_step. run_step; [done|]. run_step. run_step; [by apply upd_mapped|]. run_step.
  right. exists p, l, [], (c + d - p). split; [done|].
  assert (Hclear : clear F p (c + d)).
  { intros x Hx. destruct (Z_lt_le_dec x c); [|apply Hbc; unfold c in *; lia].
    apply (clear_free _ _ _ _ HI p k); [apply elem_of_app; right; left|lia]. }
  assert (HFe : F (c + d) = None).
  { apply (clear_boundary _ _ _ _ HI2' (l ++ [Chunk p k true] ++ [Chunk c d true]) [] (c + d)); [| |lia].
    - by rewrite app_nil_r, <- app_assoc.
    - apply chain_app. eauto. }
  split; try done.
  - apply (inv_merge s2 bigs F l [Chunk p k true; Chunk c d true] [] p (c + d)
      (upd (psize (c + d)) (d + 1 + k) (upd (csize p) (d + 1 + k) (memory s2)))); try done.
    + by repeat constructor.
    + rewrite upd_ne, upd_eq by (unfold psize, csize; lia). f_equal. lia.
    + rewrite upd_eq. f_equal. lia.
    + apply changes_upd; [apply changes_upd; [apply changes_refl|]|]; unfold psize, csize; (split; [lia|]); [apply Hclear; lia|done].
  - lia.
  - replace (p + (c + d - p)) with (c + d) by lia. done.
  - by rewrite app_nil_r, used_blocks_app, used_blocks_cons, app_nil_r.
Qed.

(** What the search ends with: no memory, or a chunk. *)
Definition searched (s : state) (cs : list chunk) (bigs : list (Z * Z)) (F : Z -> option Z) (n : Z) (o : option Z) (s' : state) : Prop :=
  (o = None /\ s' = set_errn ENOMEM s /\ brk0 s + BRKSIZE < brk s + n + SIZE_ALIGN + PAGE_SIZE /\
    Z.land (binmap s) (- Z.shiftl 1 (bin_index_up n)) = 0) \/
  (exists c l1 l2 k, o = Some c /\ found s cs bigs F n c s' l1 l2 k).

(** One round is enough once the heap is there. *)
Lemma malloc_loop_runs fuel s cs bigs F n : inv s cs bigs F -> init s = true -> unit_size n -> n <= MMAP_THRESHOLD ->
  runs (malloc_loop (S fuel) n (bin_index_up n)) s (searched s cs bigs F n).
Proof using.
  intros HI Hin Hn Hle. pose proof (bin_index_up_range n Hn Hle) as Hi.
  cbn [malloc_loop]. run_step. run_step. set (mask := Z.land _ _).
  destruct (inv_bins _ _ _ _ HI) as (L & HB). pose proof (bi_range _ _ _ _ HB) as Hbm.
  destruct (Z.eqb_spec mask 0) as [Hz|Hnz].
  { run_step. unfold init_malloc. run_step. run_step. rewrite Hin. run_step. cbn [Z.ltb Z.compare].
    eapply runs_mono; [by apply (grow_runs s cs bigs F n)|].
    intros o s' [(-> & -> & Hfull)|Hf]; [by left|by right]. }
  assert (Hpos : 0 < mask) by (assert (0 <= mask) by (apply Z.land_nonneg; lia); lia).
  run_step. apply first_set_runs; [done|]. intros j Hj Hj0. unfold mask in Hj. rewrite mask_bits in Hj by lia.
  apply andb_true_iff in Hj as [Hj Hij]. apply Z.leb_le in Hij.
  assert (Hj64 : j < 64) by (apply Z.nle_gt; intros H; rewrite range_bits in Hj by done; done).
  destruct (bin_first _ _ _ _ HI j) as (Hlk & c & l1 & k & l2 & -> & Hkj & Hc & Hcs); [lia|done|].
  run_step. apply lock_noop; [done|]. run_step. run_step; [exact Hc|]. run_step.
  rewrite (proj2 (Z.eqb_neq c (BIN_TO_CHUNK j))) by done.
  destruct (free_chunk_facts _ _ _ _ _ _ _ HI) as (_ & _ & _ & _ & Hcsz & _).
  run_step. run_step; [exact Hcsz|]. run_step. rewrite Hkj, Z.eqb_refl. subst j.
  eapply runs_mono; [by apply (take_runs s _ bigs F HI n Hn Hle l1 c k l2)|].
  intros o s' (-> & l1' & l2' & k' & Hf). right. exists c, l1', l2', k'. done.
Qed.

Context `{KS : !KernelSpec K}.

(** No bin has a chunk before there is a heap. *)
Lemma uninit_mask s bigs F i : uninit s bigs F -> 0 <= i -> Z.land (binmap s) (- Z.shiftl 1 i) = 0.
Proof using.
  intros HU Hi. destruct (un_bins _ _ _ HU) as (L & HB). apply Z.bits_inj'. intros j Hj. rewrite mask_bits, Z.bits_0 by lia.
  destruct (Z.testbit (binmap s) j) eqn:Hb; [exfalso|done]. pose proof (bi_range _ _ _ _ HB) as Hbm.
  assert (Hj64 : j < 64) by (apply Z.nle_gt; intros H; rewrite range_bits in Hb by done; done).
  rewrite (bi_map _ _ _ _ HB) in Hb by lia. apply negb_true_iff, bool_decide_eq_false in Hb.
  destruct (L j) as [|c q] eqn:HL; [done|]. assert (Hc : c ∈ L j) by (rewrite HL; left).
  apply (bi_free _ _ _ _ HB) in Hc as (k & Hk & _); [by apply not_elem_of_nil in Hk|lia].
Qed.

(** The heap is made first. *)
Lemma malloc_loop_first fuel s bigs F n : uninit s bigs F -> 0 <= sys_mmap (maps s) BRKSIZE -> unit_size n -> n <= MMAP_THRESHOLD ->
  runs (malloc_loop (S (S fuel)) n (bin_index_up n)) s (fun o s' => exists s1 cs, inv s1 cs bigs F /\ init s1 = true /\
    used_blocks cs = [] /\ searched s1 cs bigs F n o s').
Proof using KS.
  intros HU Hmm Hn Hle. pose proof (bin_index_up_range n Hn Hle) as Hi.
  remember (S fuel) as fuel' eqn:Hf. cbn [malloc_loop]. run_step. run_step.
  pose proof (uninit_mask s bigs F _ HU (proj1 Hi)) as Hz.
  rewrite Hz. cbn [Z.eqb]. run_step. eapply runs_mono; [by apply (init_malloc_runs s bigs F n)|].
  intros r s1 (-> & Hin & cs & HI & Hub). cbn [Z.ltb Z.compare]. subst fuel'.
  eapply runs_mono; [by apply (malloc_loop_runs fuel s1 cs bigs F n)|]. intros o s' Ho. exists s1, cs. done.
Qed.

End malloc.
