(* ===== verification/AllocMapped.v ===== *)
(** * Blocks with a mapping of their own

    A block above the threshold is a mapping of whole pages that begins with
    a header; making, giving back and moving one leaves the heap alone. *)

From S2P Require Import Prelude Alloc AllocBins AllocFacts AllocInv AllocSteps AllocBin AllocFree AllocTrim AllocGrow.

Section mapped.
Context `{K : Kernel} `{B : Statics}.

(** The allocator at rest. *)
Definition good (s : state) (cs : list chunk) (bigs : list (Z * Z)) (F : Z -> option Z) : Prop :=
  (init s = true /\ inv s cs bigs F) \/ (uninit s bigs F /\ cs = []).

Lemma good_maps s cs bigs F : good s cs bigs F -> maps_inv (memory s) (maps s) bigs.
Proof using. intros [(_ & [])|([] & _)]; done. Qed.

Lemma good_data s cs bigs F : good s cs bigs F -> data_inv (memory s) cs bigs F.
Proof using. intros [(_ & [])|([] & ->)]; done. Qed.

(** Every address of the heap or of a big block is in a mapping. *)
Lemma good_chunk s cs bigs F c : good s cs bigs F -> c ∈ cs ->
  exists r, r ∈ maps s /\ r ∉ bigs /\ r.1 + 16 <= addr c /\ addr c + size c <= r.1 + r.2 /\ addr c mod 32 = 16 /\ unit_size (size c).
Proof using.
  intros [(_ & HI)|(_ & ->)] Hc; [|by apply not_elem_of_nil in Hc].
  destruct (inv_layout _ _ _ _ HI) as [_ [Hm0 _] [_ Hb] _]. destruct HI as [_ [_ _ Hr Hnb] [Hch _ _ _ _] _ _].
  destruct (chain_in _ _ _ _ Hch Hc) as (H1 & H2 & Hu & Hm). exists (brk0 s, BRKSIZE). cbn. split_and!; try done; try lia; try apply Hu.
  rewrite Hm. clear -Hm0. div_lia.
Qed.

Lemma owned_in_maps s cs bigs F x : good s cs bigs F -> owned cs bigs x ->
  exists r, r ∈ maps s /\ r.1 <= x < r.1 + r.2 /\ (r ∈ bigs -> r.1 + 32 <= x).
Proof using.
  intros HG [(c & Hc & _ & Hx)|(r & Hr & Hx)].
  - destruct (good_chunk _ _ _ _ _ HG Hc) as (r & Hr & Hnb & H1 & H2 & _). exists r. split_and!; [done|lia|lia|done].
  - exists r. split_and!; [by apply (mi_bigs _ _ _ (good_maps _ _ _ _ HG))|lia|lia|lia].
Qed.

(** A change outside the heap and the bins. *)
Definition same_inside (s : state) (m' : Z -> option Z) : Prop :=
  (forall x, mal_bins <= x < mal_bins + 1536 -> m' x = memory s x) /\
  (init s = true -> forall x, brk0 s <= x < brk0 s + BRKSIZE -> m' x = memory s x).

Lemma good_outside s cs bigs bigs' F ms' m' : good s cs bigs F -> same_inside s m' ->
  maps_inv m' ms' bigs' -> (init s = true -> (brk0 s, BRKSIZE) ∈ ms' /\ (brk0 s, BRKSIZE) ∉ bigs') ->
  data_inv m' cs bigs' F -> forall s', memory s' = m' -> maps s' = ms' -> brk s' = brk s -> brk0 s' = brk0 s ->
  binmap s' = binmap s -> init s' = init s -> good s' cs bigs' F.
Proof using.
  intros [(Hin & HI)|(HU & ->)] [Hs Hh] Hm Hr Hd s' E1 E2 E3 E4 E5 E6.
  - left. split; [congruence|]. pose proof (inv_layout _ _ _ _ HI) as HL. pose proof (ring_node _ _ _ _ HI) as Hrn.
    destruct HI as [_ Hrg HH (L & HB) _]. destruct (Hr Hin) as [Hr1 Hr2]. specialize (Hh Hin).
    split; rewrite ?E1, ?E2, ?E3, ?E4, ?E5; [done| | |exists L|done].
    + by destruct Hrg.
    + apply (heap_same _ _ (memory s)); [done|done|]. intros c Hc. destruct HL as [_ _ Hbr _]. unfold boundary, psize, csize in *.
      split; apply Hh; lia.
    + apply (bins_frame (memory s) m' _ cs); [done| |done]. intros i Hi x Hx. apply Hrn in Hx; [|done|done].
      destruct (node_region _ _ _ HL Hx) as [H1 H2]. split; [destruct H1|destruct H2]; auto.
  - right. split; [|done]. destruct HU as [Hi _ (L & HB) _]. split; [congruence|by rewrite E1, E2| |by rewrite E1].
    exists L. rewrite E1, E5. apply (bins_frame (memory s) m' _ []); [done| |done]. intros i Hi' x Hx.
    apply elem_of_cons in Hx as [->|Hx]; [|apply (bi_free _ _ _ _ HB) in Hx as (n & Hn & _); [by apply not_elem_of_nil in Hn|done]].
    split; apply Hs; unfold next, prev, BIN_TO_CHUNK, bin_head, MEM_TO_CHUNK, OVERHEAD; lia.
Qed.

(** Nothing inside changes when only a range outside every other mapping does. *)
Lemma same_inside_range s cs bigs F m' a len : good s cs bigs F -> (forall x, ~ (a <= x < a + len) -> m' x = memory s x) ->
  (forall r, r ∈ maps s -> r ∉ bigs -> apart (a, len) r) -> same_inside s m'.
Proof using.
  intros HG Hm Hap. pose proof (good_maps _ _ _ _ HG) as Hmi. split.
  - intros x Hx. apply Hm. destruct (mi_bins _ _ _ Hmi) as (_ & _ & Hs).
    destruct (Hap (mal_bins, 1536) Hs) as [H|H]; [|cbn in H; lia..].
    intros Hin. apply (mi_bigs _ _ _ Hmi) in Hin as (_ & _ & Hl & _). done.
  - intros Hin x Hx. apply Hm. destruct HG as [(_ & HI)|([] & _)]; [|congruence].
    destruct HI as [_ [_ _ Hr Hnb] _ _ _]. destruct (Hap _ Hr Hnb) as [H|H]; cbn in H; lia.
Qed.

(** ** Making one *)
Section map.
Context (s : state) (cs : list chunk) (bigs : list (Z * Z)) (F : Z -> option Z) (a len : Z) (m' : Z -> option Z).
Hypothesis (HG : good s cs bigs F) (Hf : fresh_range (maps s) a len) (Hlen : 4096 <= len) (Hlm : len mod 4096 = 0)
  (Hout : forall x, ~ (a <= x < a + len) -> m' x = memory s x) (Hin : forall x, within a len x = true -> is_Some (m' x))
  (Hps : m' (psize (a + 16)) = Some 16) (Hcs : m' (csize (a + 16)) = Some (len - 16)).

Lemma map_maps_inv : maps_inv m' ((a, len) :: maps s) ((a, len) :: bigs).
Proof using All.
  pose proof (good_maps _ _ _ _ HG) as Hm. pose proof (fun r => big_bounds _ _ _ r Hm) as Hbb.
  pose proof (mmap_maps_inv _ _ _ _ _ Hm Hf ltac:(lia)) as [Hb Hok Hapt _ Hnd _].
  destruct Hf as (Ha & Ham & Hmax & Hap). rewrite Forall_forall in Hap. destruct Hm as [_ _ _ Hmap _ Hbig]. split; try done.
  - intros r x Hr Hx. apply elem_of_cons in Hr as [->|Hr]; [by apply Hin|].
    destruct (within a len x) eqn:Hw; [by apply Hin|]. rewrite Hout; [by eapply Hmap|].
    intros Hr'. apply within_iff in Hx as [Hx H8]. destruct (Hap r Hr) as [H|H]; cbn in H; lia.
  - apply NoDup_cons. split; [|done]. intros Hi. destruct (Hap (a, len)) as [H|H]; [by apply Hbig| |]; cbn in H; lia.
  - intros r Hr. apply elem_of_cons in Hr as [->|Hr]; [by split_and!; [left|..]|].
    destruct (Hbig r Hr) as (H1 & H2 & H3 & H4 & H5). specialize (Hbb r Hr). unfold psize, csize in *.
    split_and!; [by right|done|done|..]; rewrite Hout; try done; destruct (Hap r H1) as [H|H]; cbn in H; lia.
Qed.

Lemma map_good s' : memory s' = m' -> maps s' = (a, len) :: maps s -> brk s' = brk s ->
  brk0 s' = brk0 s -> binmap s' = binmap s -> init s' = init s -> good s' cs ((a, len) :: bigs) F.
Proof using All.
  intros E1 E2 E3 E4 E5 E6. pose proof (good_maps _ _ _ _ HG) as Hm. pose proof map_maps_inv as Hm'.
  pose proof Hf as (_ & _ & _ & Hap). rewrite Forall_forall in Hap.
  assert (Hnew : (a, len) ∉ maps s) by (intros Hi; destruct (Hap _ Hi) as [H|H]; cbn in H; lia).
  eapply (good_outside s cs bigs ((a, len) :: bigs) F ((a, len) :: maps s) m'); try done.
  - eapply (same_inside_range _ _ bigs); [done|exact Hout|]. intros r Hr _. auto.
  - intros Hi. destruct HG as [(_ & HI)|([] & _)]; [|congruence]. destruct HI as [_ [_ _ Hr Hnr] _ _ _].
    split; [by right|]. intros Hx. apply elem_of_cons in Hx as [Hx|]; [|done]. apply Hnew. by rewrite <- Hx.
  - destruct (good_data _ _ _ _ HG) as [Hw Ho]. split.
    + intros x v Hx. rewrite Hout; [by apply Hw|]. destruct (owned_in_maps _ _ _ _ x HG) as (r & Hr & Hxr & _); [eauto|].
      destruct (Hap r Hr) as [H|H]; cbn in H; lia.
    + intros x Hx. destruct (Ho x Hx) as [Hc|(r & Hr & Hxr)]; [by left|right]. exists r. split; [by right|done].
Qed.
End map.

(** ** Giving one up, and giving its pages back *)
Lemma maps_inv_bigs m ms bigs bigs' : maps_inv m ms bigs -> NoDup bigs' -> (forall r, r ∈ bigs' -> r ∈ bigs) -> maps_inv m ms bigs'.
Proof using. intros [] Hnd Hsub. split; auto. Qed.

Lemma drop_big s cs b1 b2 a len F : good s cs (b1 ++ (a, len) :: b2) F -> clear F (a + 32) (a + len) -> good s cs (b1 ++ b2) F.
Proof using.
  intros HG Hcl. pose proof (good_maps _ _ _ _ HG) as Hm. pose proof (mi_nodup _ _ _ Hm) as Hnd.
  assert (Hsub : forall r, r ∈ b1 ++ b2 -> r ∈ b1 ++ (a, len) :: b2) by (intros r; rewrite !elem_of_app, elem_of_cons; tauto).
  assert (Hnd' : NoDup (b1 ++ b2)).
  { apply NoDup_app in Hnd as (H1 & H12 & H2). apply NoDup_cons in H2 as [_ H2]. apply NoDup_app. split_and!; [done| |done].
    intros r Hr Hr2. apply (H12 r Hr). by right. }
  assert (Hd : data_inv (memory s) cs (b1 ++ b2) F).
  { destruct (good_data _ _ _ _ HG) as [Hw Ho]. split; [done|]. intros x Hx.
    destruct (Ho x Hx) as [Hc|(r & Hr & Hxr)]; [by left|]. rewrite elem_of_app, elem_of_cons in Hr.
    destruct Hr as [Hr|[->|Hr]]; [right; exists r; rewrite elem_of_app; tauto| |right; exists r; rewrite elem_of_app; tauto].
    cbn in Hxr. rewrite Hcl in Hx by done. by destruct Hx. }
  destruct HG as [(Hin & HI)|(HU & ->)]; [left|right]; (split; [done|]) || (split; [|done]).
  - destruct HI as [Hm' [Hr1 Hr2 Hr3 Hr4] HH HB _]. split; [by eapply maps_inv_bigs|split; auto|done|done|done].
  - destruct HU as [Hi Hm' HB _]. split; [done|by eapply maps_inv_bigs|done|done].
Qed.

(** The mapping of a block given up. *)
Definition spare (s : state) (bigs : list (Z * Z)) (r : Z * Z) : Prop :=
  r ∈ maps s /\ r ∉ bigs /\ r <> (mal_bins, 1536) /\ (init s = true -> r <> (brk0 s, BRKSIZE)).

Lemma drop_spare s cs b1 b2 r F : good s cs (b1 ++ r :: b2) F -> spare s (b1 ++ b2) r.
Proof using.
  intros HG. pose proof (good_maps _ _ _ _ HG) as Hm. pose proof (mi_nodup _ _ _ Hm) as Hnd.
  assert (Hr : r ∈ b1 ++ r :: b2) by (apply elem_of_app; right; left). destruct (mi_bigs _ _ _ Hm r Hr) as (H1 & _ & H2 & _).
  split_and!; [done| |by intros ->|].
  - apply NoDup_app in Hnd as (_ & H12 & H3). apply NoDup_cons in H3 as [H3 _]. intros Hi. apply elem_of_app in Hi as [Hi|Hi]; [|done].
    apply (H12 r Hi). left.
  - intros Hin ->. destruct HG as [(_ & HI)|([] & _)]; [|congruence]. by apply (ri_bigs _ _ _ _ (inv_region _ _ _ _ HI)).
Qed.

Lemma unmap_good s cs bigs F a len m' s' : good s cs bigs F -> spare s bigs (a, len) ->
  (forall x, ~ (a <= x < a + len) -> m' x = memory s x) ->
  memory s' = m' -> maps s' = filter (fun r => r <> (a, len)) (maps s) -> brk s' = brk s ->
  brk0 s' = brk0 s -> binmap s' = binmap s -> init s' = init s -> good s' cs bigs F.
Proof using.
  intros HG (H1 & H2 & H3 & H4) Hout E1 E2 E3 E4 E5 E6. pose proof (good_maps _ _ _ _ HG) as Hm.
  pose proof (fun r => big_bounds _ _ _ r Hm) as Hbb.
  assert (Hap : forall r, r ∈ maps s -> r <> (a, len) -> apart (a, len) r).
  { intros r Hr Hne. by destruct (mi_apart _ _ _ Hm _ _ H1 Hr). }
  assert (Hsame : forall r x, r ∈ maps s -> r <> (a, len) -> r.1 <= x < r.1 + r.2 -> m' x = memory s x).
  { intros r x Hr Hne Hx. apply Hout. destruct (Hap r Hr Hne) as [H|H]; cbn in H; lia. }
  assert (Hbne : forall r, r ∈ bigs -> r <> (a, len)) by (intros r Hr ->; done).
  eapply (good_outside s cs bigs bigs F (filter (fun r => r <> (a, len)) (maps s)) m'); try done.
  - destruct Hm as [(Hb1 & Hb2 & Hb3) _ _ _ _ _]. split.
    + intros x Hx. apply (Hsame _ x Hb3); [by apply not_eq_sym|done].
    + intros Hi x Hx. destruct HG as [(_ & HI)|([] & _)]; [|congruence].
      apply (Hsame _ x (ri_mapped _ _ _ _ (inv_region _ _ _ _ HI))); [by apply not_eq_sym, H4|done].
  - destruct Hm as [(Hb1 & Hb2 & Hb3) Hok Hapt Hmap Hnd Hbig]. split.
    + split_and!; [done|done|]. apply list_elem_of_filter. by split; [apply not_eq_sym|].
    + intros r Hr. apply list_elem_of_filter in Hr as [_ Hr]. auto.
    + intros r1 r2 Hr1 Hr2. apply list_elem_of_filter in Hr1 as [_ Hr1], Hr2 as [_ Hr2]. auto.
    + intros r x Hr Hx. apply list_elem_of_filter in Hr as [Hne Hr]. pose proof Hx as Hx'. apply within_iff in Hx' as [Hx' _].
      rewrite (Hsame r x); eauto.
    + done.
    + intros r Hr. destruct (Hbig r Hr) as (G1 & G2 & G3 & G4 & G5). specialize (Hbb r Hr). pose proof (Hbne r Hr) as Hne.
      unfold psize, csize in *. split_and!; try done; [by apply list_elem_of_filter|..];
        (erewrite Hsame; [done|exact G1|done|lia]).
  - intros Hi. destruct HG as [(_ & HI)|([] & _)]; [|congruence]. destruct (inv_region _ _ _ _ HI) as [_ _ Hr Hnr].
    split; [|done]. apply list_elem_of_filter. split; [by apply not_eq_sym, H4|done].
  - destruct (good_data _ _ _ _ HG) as [Hw Ho]. split; [|done]. intros x v Hx.
    destruct (Ho x) as [Hc|(r & Hr & Hxr)]; [by eauto| |].
    + destruct HG as [(Hi & HI)|(_ & ->)]; [|destruct Hc as (c & Hc & _); by apply not_elem_of_nil in Hc].
      destruct Hc as (c & Hc & _ & Hcx). destruct HI as [_ [_ [_ Hb] Hr _] [Hch _ _ _ _] _ _].
      destruct (chain_in _ _ _ _ Hch Hc) as (G1 & G2 & _).
      rewrite (Hsame _ x Hr); [by apply Hw|by apply not_eq_sym, H4|cbn; lia].
    + specialize (Hbb r Hr). rewrite (Hsame r x); [by apply Hw|by apply (mi_bigs _ _ _ Hm)|by apply Hbne|lia].
Qed.

End mapped.
