(* ===== verification/AllocSpec.v ===== *)
(** * What the allocator promises

    [valid s bl F]: the state [s] is one of the allocator with the blocks [bl]
    in use (address and number of bytes), in which the words [F] of those
    blocks have their values.  [malloc] and [free] are shown against this
    view alone: a new block is apart from every other, large enough, and no
    word of another block changes. *)

From S2P Require Import Prelude Alloc AllocBins AllocFacts AllocInv AllocSteps AllocBin AllocFree AllocTrim AllocGrow AllocMapped.

(** ** Blocks that share no byte *)
Fixpoint separate (bl : list (Z * Z)) : Prop :=
  match bl with
  | [] => True
  | b :: bl' => Forall (apart b) bl' /\ separate bl'
  end.

#[export] Instance apart_symmetric : Symmetric apart.
Proof. intros r1 r2 [H|H]; [by right|by left]. Qed.

#[export] Instance separate_perm : Proper ((≡ₚ) ==> iff) separate.
Proof.
  assert (Hp : forall l1 l2 : list (Z * Z), l1 ≡ₚ l2 -> separate l1 -> separate l2).
  { induction 1 as [|b l1 l2 Hl IH|b1 b2 l|l1 l2 l3 _ IH1 _ IH2]; cbn; auto.
    - intros [H1 H2]. split; [by rewrite <- Hl|auto].
    - rewrite !Forall_cons. intros ([H1 H2] & H3 & H4). split_and!; try done. }
  intros l1 l2 Hl. split; apply Hp; [done|by symmetry].
Qed.

Lemma separate_app l1 l2 : separate (l1 ++ l2) <-> separate l1 /\ separate l2 /\ Forall (fun b => Forall (apart b) l2) l1.
Proof.
  induction l1 as [|b l1 IH]; cbn; [split; [by intros H; split_and!; [done|done|constructor]|by intros (_ & ? & _)]|].
  rewrite IH, Forall_app, Forall_cons. tauto.
Qed.

Section spec.
Context `{K : Kernel} `{B : Statics}.

Definition big_block (r : Z * Z) : Z * Z := (r.1 + 32, r.2 - 32).
Definition blocks (cs : list chunk) (bigs : list (Z * Z)) : list (Z * Z) := used_blocks cs ++ (big_block <$> bigs).

Definition valid (s : state) (bl : list (Z * Z)) (F : Z -> option Z) : Prop :=
  exists cs bigs, good s cs bigs F /\ bl ≡ₚ blocks cs bigs.

(** ** What [valid] says of the blocks *)
Lemma used_block_in cs b : b ∈ used_blocks cs -> exists c, c ∈ cs /\ inuse c = true /\ b = block c.
Proof using.
  unfold used_blocks. intros Hb. apply list_elem_of_fmap in Hb as (c & -> & Hc). apply list_elem_of_filter in Hc as [Hu Hc]. eauto.
Qed.

Lemma separate_chain a cs e : chain a cs e -> separate (used_blocks cs).
Proof using.
  revert a. induction cs as [|c cs IH]; intros a; [done|]. cbn [chain]. intros (Ha & [_ Hs] & Hch). rewrite used_blocks_cons.
  destruct (inuse c); cbn; [split|]; [|by eapply IH..]. apply Forall_forall. intros b Hb.
  apply used_block_in in Hb as (d & Hd & _ & ->). destruct (chain_in _ _ _ _ Hch Hd) as (H1 & _). left. cbn. lia.
Qed.

Lemma separate_bigs m ms bigs : maps_inv m ms bigs -> separate (big_block <$> bigs).
Proof using.
  intros Hm. pose proof (mi_nodup _ _ _ Hm) as Hnd. pose proof (fun r => mi_bigs _ _ _ Hm r) as Hb. pose proof (mi_apart _ _ _ Hm) as Hap.
  clear Hm. induction Hnd as [|r l Hr Hnd IH]; cbn; [done|]. split; [|apply IH; intros; apply Hb; by right].
  apply Forall_forall. intros b Hbl. apply list_elem_of_fmap in Hbl as (r' & -> & Hr').
  destruct (Hap r r') as [->|[H|H]]; [apply Hb; left|apply Hb; by right|done|..]; [left|right]; unfold big_block; cbn; lia.
Qed.

Definition sane_block (b : Z * Z) : Prop := b.1 mod 16 = 0 /\ 16 <= b.2 /\ 0 < b.1 /\ b.1 + b.2 <= 2 ^ 47.

Lemma good_blocks s cs bigs F : good s cs bigs F -> separate (blocks cs bigs) /\ Forall sane_block (blocks cs bigs).
Proof using.
  intros HG. pose proof (good_maps _ _ _ _ HG) as Hm. split.
  - apply separate_app. split_and!; [|by eapply separate_bigs|].
    + destruct HG as [(_ & [_ _ [Hch _ _ _ _] _ _])|(_ & ->)]; [by eapply separate_chain|done].
    + apply Forall_forall. intros b Hb. apply used_block_in in Hb as (c & Hc & _ & ->). apply Forall_forall.
      intros b Hb. apply list_elem_of_fmap in Hb as (r' & -> & Hr').
      destruct (good_chunk _ _ _ _ _ HG Hc) as (r & Hr & Hnb & H1 & H2 & _).
      destruct (mi_bigs _ _ _ Hm r' Hr') as (Hr1 & _).
      destruct (mi_apart _ _ _ Hm r r' Hr Hr1) as [->|[H|H]]; [done|left|right]; unfold block, big_block; cbn; lia.
  - apply Forall_app. split; apply Forall_forall; intros b Hb.
    + apply used_block_in in Hb as (c & Hc & _ & ->). destruct (good_chunk _ _ _ _ _ HG Hc) as (r & Hr & _ & H1 & H2 & H3 & [_ H4]).
      destruct (mi_ok _ _ _ Hm r Hr) as (H5 & H6 & H7). unfold sane_block, block. cbn. split_and!; try lia. clear -H3. div_lia.
    + apply list_elem_of_fmap in Hb as (r & -> & Hr). destruct (mi_bigs _ _ _ Hm r Hr) as (_ & H2 & _).
      destruct (big_bounds _ _ _ _ Hm Hr) as (H3 & H4 & H5). unfold sane_block, big_block. cbn. split_and!; try lia. clear -H2. div_lia.
Qed.

Lemma valid_blocks s bl F : valid s bl F -> separate bl /\ Forall sane_block bl.
Proof using. intros (cs & bigs & HG & Hbl). rewrite Hbl. by eapply good_blocks. Qed.

Lemma valid_perm s bl bl' F : bl ≡ₚ bl' -> valid s bl F -> valid s bl' F.
Proof using. intros Hp (cs & bigs & HG & Hbl). exists cs, bigs. split; [done|]. by rewrite <- Hp. Qed.

Lemma good_errn s cs bigs F er : good s cs bigs F -> good (set_errn er s) cs bigs F.
Proof using. intros [(Hin & HI)|([] & ->)]; [left; split; [done|by apply inv_errn]|right; by split]. Qed.

(** ** [malloc] *)
Definition PTRDIFF_LIMIT : Z := PTRDIFF_MAX - SIZE_ALIGN - PAGE_SIZE.

Lemma adjust_runs n s (Q : Z * Z -> state -> Prop) : 0 <= n < 2 ^ 64 ->
  (PTRDIFF_LIMIT < n - 1 -> Q (-1, n) (set_errn ENOMEM s)) ->
  (forall m, m mod 32 = 0 -> 32 <= m <= 2 ^ 63 - 4096 -> n + 16 <= m <= Z.max n 1 + 47 -> Q (0, m) s) -> runs (adjust_size n) s Q.
Proof using.
  intros Hn Hbig Hok. unfold adjust_size. unfold PTRDIFF_LIMIT, PTRDIFF_MAX, SIZE_ALIGN, PAGE_SIZE in *.
  destruct (Z.eq_dec n 0) as [->|Hn0].
  { change (_ <? u64 (0 - 1)) with true. cbn [Z.eqb negb]. run_step. apply Hok; [done|lia|lia]. }
  rewrite u64_small by lia. destruct (Z.ltb_spec (2 ^ 63 - 1 - 32 - 4096) (n - 1)) as [H|H].
  - rewrite (proj2 (Z.eqb_neq n 0)) by done. cbn [negb]. do 3 run_step. auto.
  - run_step. change 32 with SIZE_ALIGN. rewrite land_SIZE_ALIGN. unfold SIZE_ALIGN, OVERHEAD. rewrite u64_small by lia.
    pose proof (Z.mod_pos_bound (n + 16 + 32 - 1) 32 ltac:(lia)). apply Hok; [div_lia|div_lia|lia].
Qed.

Context `{KS : !KernelSpec K}.

(** The kernel grants the region of the heap when it is first asked for. *)
Definition heap_granted (s : state) : Prop := init s = true \/ 0 <= sys_mmap (maps s) BRKSIZE.

(** The block asked for, or no memory. *)
Definition allocated (bl bigs : list (Z * Z)) (F : Z -> option Z) (n p : Z) (s' : state) : Prop :=
  (p = 0 /\ exists cs, good s' cs bigs F /\ bl ≡ₚ blocks cs bigs) \/ (exists k, n <= k /\ Forall (apart (p, k)) bl /\ valid s' ((p, k) :: bl) F).

Lemma allocated_intro s' bl F n p k cs bigs bigs0 : good s' cs bigs F -> blocks cs bigs ≡ₚ (p, k) :: bl -> n <= k ->
  allocated bl bigs0 F n p s'.
Proof using.
  intros HG Hbl Hn. right. exists k. split; [done|]. assert (HV : valid s' ((p, k) :: bl) F) by (exists cs, bigs; by split).
  split; [|done]. by destruct (valid_blocks _ _ _ HV) as [[Hs _] _].
Qed.

Lemma malloc_mapped_runs s bl cs bigs F n m : good s cs bigs F -> bl ≡ₚ blocks cs bigs -> m mod 32 = 0 -> MMAP_THRESHOLD < m <= 2 ^ 63 - 4096 -> n + 16 <= m ->
  runs (malloc_mapped m) s (allocated bl bigs F n).
Proof using KS.
  intros HG Hbl Hm Hr Hn. unfold malloc_mapped. rewrite land_PAGE_SIZE. unfold OVERHEAD, PAGE_SIZE.
  unfold MMAP_THRESHOLD, SIZE_ALIGN in Hr. rewrite (u64_small (m + 16 + 4096 - 1)) by lia.
  set (x := m + 16 + 4096 - 1). set (len := x - x mod 4096). pose proof (Z.mod_pos_bound x 4096 ltac:(lia)) as Hx.
  assert (Hl1 : m + 16 <= len <= 2 ^ 63) by (unfold len, x in *; clear -Hr; div_lia). assert (Hl2 : len mod 4096 = 0) by (unfold len; clear; div_lia).
  run_step. unfold mmap. run_step. run_step.
  destruct (mmap_spec (maps s) len) as [Hneg|Hf]; [lia|..].
  { rewrite (proj2 (Z.ltb_lt (sys_mmap (maps s) len) 0)) by lia. do 3 run_step. rewrite Z.eqb_refl. run_step. left. split; [done|].
    exists cs. split; [by apply good_errn|done]. }
  pose proof Hf as (Ha & Ham & Hmax & _). set (a := sys_mmap (maps s) len) in *.
  rewrite (proj2 (Z.ltb_ge a 0)) by lia. do 3 run_step.
  unfold MAP_FAILED. change (u64 (-1)) with (2 ^ 64 - 1). rewrite (proj2 (Z.eqb_neq a (2 ^ 64 - 1))) by lia.
  unfold SIZE_ALIGN. replace (a + 32 - 16) with (a + 16) by lia. change (32 - 16) with 16. rewrite (u64_small (len - 16)) by lia.
  assert (Hmap : forall z, z = a + 16 \/ z = a + 16 + 8 -> is_Some (zero_words a len (memory s) z)).
  { intros z Hz. unfold zero_words. rewrite (proj2 (within_iff a len z)); [by eexists|]. split; [lia|]. clear -Hz Ham. div_lia. }
  run_step. run_step; [apply Hmap; unfold csize; auto|]. run_step. run_step; [apply upd_mapped, Hmap; unfold psize; auto|]. run_step.
  eapply (allocated_intro _ _ _ _ _ (len - 32) cs ((a, len) :: bigs)); [| |lia].
  - apply (map_good s cs bigs F a len (upd (psize (a + 16)) 16 (upd (csize (a + 16)) (len - 16) (zero_words a len (memory s)))));
      try done; [lia|..].
    + intros z Hz. unfold psize, csize. rewrite !upd_ne by lia. by apply zero_words_out.
    + intros z Hz. do 2 apply upd_mapped. unfold zero_words. rewrite Hz. by eexists.
    + apply upd_eq.
    + rewrite upd_ne by (unfold psize, csize; lia). apply upd_eq.
  - unfold blocks. cbn [fmap list_fmap]. rewrite <- Permutation_middle. unfold big_block at 1. cbn [fst snd].
    unfold CHUNK_TO_MEM, OVERHEAD. replace (a + 16 + 16) with (a + 32) by lia. by rewrite Hbl.
Qed.

(** A chunk found is cut to size. *)
Lemma found_runs s cs bigs F n c s1 l1 l2 k : found s cs bigs F n c s1 l1 l2 k -> unit_size n ->
  runs (trim c n;; mret (CHUNK_TO_MEM c)) s1 (fun p s' => p = c + 16 /\ init s' = init s /\
    exists l1' l2', inv s' (l1' ++ Chunk c n true :: l2') bigs F /\ used_blocks l1' ++ used_blocks l2' = used_blocks cs).
Proof using.
  intros [HI Hk Hcl Hrest Hin] Hn. run_step. eapply runs_mono.
  { eapply trim_runs; [exact HI| |done|done]. intros x Hx. apply Hcl. unfold unit_size in Hn. lia. }
  intros _ s2 (l1' & l2' & HI2 & Hs & E1 & E2). run_step. split; [done|]. split; [destruct Hs as (_ & _ & _ & -> & _); done|].
  exists l1', l2'. split; [done|]. by rewrite E1, E2.
Qed.

Lemma searched_runs s bl cs bigs F n m s0 o s1 : searched s cs bigs F m o s1 -> inv s cs bigs F -> init s = true -> unit_size m ->
  n + 16 <= m -> bl ≡ₚ blocks cs bigs -> s0 = s1 ->
  runs (match o with None => mret 0 | Some c => trim c m;; mret (CHUNK_TO_MEM c) end) s0 (allocated bl bigs F n).
Proof using.
  intros [(-> & -> & _)|(c & l1 & l2 & k & -> & Hf)] HI Hin Hm Hn Hbl ->.
  - run_step. left. split; [done|]. exists cs. split; [left; split; [done|by apply inv_errn]|done].
  - eapply runs_mono; [by eapply found_runs|]. intros p s' (-> & Hi & l1' & l2' & HI' & Hu).
    eapply (allocated_intro _ _ _ _ _ (m - 16) (l1' ++ Chunk c m true :: l2') bigs); [left; split; [congruence|done]| |lia].
    unfold blocks. rewrite used_blocks_app, used_blocks_cons. cbn [inuse app]. unfold block. cbn [addr size].
    rewrite Hbl. unfold blocks. rewrite <- Hu. rewrite <- !app_assoc. cbn [app].
    by rewrite <- Permutation_middle.
Qed.

(** [malloc] returns, with NULL or with a block of at least [n] bytes that touches no other. *)
Lemma malloc_runs s bl cs bigs F n : good s cs bigs F -> bl ≡ₚ blocks cs bigs -> 0 <= n < 2 ^ 64 -> heap_granted s ->
  runs (malloc n) s (allocated bl bigs F n).
Proof using KS.
  intros HG Hbl Hn Hgr. unfold malloc. run_step. apply adjust_runs; [done|..].
  { intros _. cbn [Z.ltb Z.compare]. run_step. left. split; [done|]. exists cs. split; [by apply good_errn|done]. }
  intros m Hm Hr Hnm. cbn [Z.ltb Z.compare]. destruct (Z.ltb_spec MMAP_THRESHOLD m) as [Hbig|Hsmall].
  { eapply malloc_mapped_runs; [done|done|done|lia|lia]. }
  assert (Hu : unit_size m) by (unfold unit_size, MMAP_THRESHOLD, SIZE_ALIGN in *; lia). run_step. unfold rounds.
  destruct HG as [(Hin & HI)|(HU & ->)].
  - eapply runs_mono; [by apply malloc_loop_runs|]. intros o s1 Ho. eapply searched_runs; try done. lia.
  - destruct Hgr as [Hin|Hgr]; [by rewrite (un_init _ _ _ HU) in Hin|].
    eapply runs_mono; [by apply malloc_loop_first|]. intros o s1 (s2 & cs & HI & Hin & Hub & Ho).
    eapply searched_runs; try done; [lia..|]. rewrite Hbl. unfold blocks. by rewrite Hub.
Qed.

(** ** [free] *)
Lemma block_chunk cs p k bl bigs : (p, k) ∈ used_blocks cs -> (p, k) :: bl ≡ₚ blocks cs bigs ->
  exists l1 l2, cs = l1 ++ Chunk (p - 16) (k + 16) true :: l2 /\ bl ≡ₚ used_blocks l1 ++ used_blocks l2 ++ (big_block <$> bigs).
Proof using.
  intros Hin Hbl. apply used_block_in in Hin as (c & Hc & Hu & Heq). destruct c as [a z u]. cbn in Hu. subst u.
  unfold block in Heq. cbn in Heq. injection Heq as -> ->. apply list_elem_of_split in Hc as (l1 & l2 & ->).
  exists l1, l2. replace (a + 16 - 16) with a by lia. replace (z - 16 + 16) with z by lia. split; [done|].
  unfold blocks in Hbl. rewrite used_blocks_app, used_blocks_cons in Hbl. cbn [inuse app] in Hbl. unfold block in Hbl. cbn [addr size] in Hbl.
  rewrite <- app_assoc in Hbl. cbn [app] in Hbl. by apply Permutation_cons_app_inv in Hbl.
Qed.

Lemma block_big cs p k bl bigs : (p, k) ∈ (big_block <$> bigs) -> (p, k) :: bl ≡ₚ blocks cs bigs ->
  exists b1 b2, bigs = b1 ++ (p - 32, k + 32) :: b2 /\ bl ≡ₚ blocks cs (b1 ++ b2).
Proof using.
  intros Hin Hbl. apply list_elem_of_fmap in Hin as ([a len] & Heq & Hr). unfold big_block in Heq. cbn in Heq. injection Heq as -> ->.
  apply list_elem_of_split in Hr as (b1 & b2 & ->). exists b1, b2.
  replace (a + 32 - 32) with a by lia. replace (len - 32 + 32) with len by lia. split; [done|].
  unfold blocks in *. rewrite fmap_app, fmap_cons, app_assoc in Hbl. unfold big_block at 2 in Hbl. cbn [fst snd] in Hbl.
  apply Permutation_cons_app_inv in Hbl. by rewrite Hbl, fmap_app, app_assoc.
Qed.

(** A chunk's words before its block are its header. *)
Lemma clear_chunk s bigs F l1 l2 p k : inv s (l1 ++ Chunk (p - 16) (k + 16) true :: l2) bigs F -> clear F p (p + k) ->
  clear F (p - 16) (p - 16 + (k + 16)).
Proof using.
  intros HI Hcl x Hx. destruct (used_chunk_facts _ _ _ _ _ _ _ HI) as (_ & _ & H1 & _).
  destruct (Z_lt_le_dec x p); [|apply Hcl; lia]. apply (clear_boundary _ _ _ _ HI l1 _ (p - 16) eq_refl H1). lia.
Qed.

Lemma free_runs s p k bl F : valid s ((p, k) :: bl) F -> clear F p (p + k) -> runs (free p) s (fun _ s' => valid s' bl F).
Proof using.
  intros (cs & bigs & HG & Hbl) Hcl.
  assert (Hin : (p, k) ∈ blocks cs bigs) by (rewrite <- Hbl; left). apply elem_of_app in Hin as [Hin|Hin].
  - destruct (block_chunk _ _ _ _ _ Hin Hbl) as (l1 & l2 & -> & Hbl').
    destruct HG as [(Hi & HI)|(_ & Heq)]; [|by destruct l1]. replace p with (CHUNK_TO_MEM (p - 16)) by (unfold CHUNK_TO_MEM, OVERHEAD; lia).
    eapply runs_mono; [eapply free_chunk_runs; [exact HI|by eapply clear_chunk]|].
    intros _ s' (l1' & pre & post & l2' & a & z & -> & -> & Hpre & Hpost & HI' & Hs).
    exists (l1' ++ Chunk a z false :: l2'), bigs. split; [left; split; [destruct Hs as (_ & _ & _ & -> & _); done|done]|].
    rewrite Hbl'. unfold blocks. rewrite !used_blocks_app, used_blocks_cons, (used_blocks_free pre), (used_blocks_free post) by done.
    cbn [inuse app]. by rewrite app_nil_r, <- app_assoc.
  - destruct (block_big _ _ _ _ _ Hin Hbl) as (b1 & b2 & -> & Hbl').
    pose proof (good_maps _ _ _ _ HG) as Hm. set (a := p - 32) in *. set (len := k + 32) in *.
    assert (Hr : (a, len) ∈ b1 ++ (a, len) :: b2) by (apply elem_of_app; right; left).
    destruct (mi_bigs _ _ _ Hm _ Hr) as (_ & _ & Hl & Hps & Hcs). destruct (big_bounds _ _ _ _ Hm Hr) as (Ha & Hlen & Hmax). cbn [fst snd] in *.
    assert (HG' : good s cs (b1 ++ b2) F) by (eapply drop_big; [exact HG|]; intros x Hx; apply Hcl; unfold a, len in *; lia).
    pose proof (drop_spare _ _ _ _ _ _ HG) as Hsp.
    assert (Hev : (len - 16) mod 2 = 0) by (clear -Hl; div_lia).
    unfold free, MEM_TO_CHUNK, OVERHEAD. replace (p - 16) with (a + 16) by (unfold a; lia).
    rewrite (proj2 (Z.eqb_neq p 0)) by (unfold a in *; lia). unfold IS_MMAPPED, CHUNK_SIZE.
    do 2 run_step. run_step; [exact Hcs|]. run_step.
    pose proof (used_word (len - 16) false Hev) as Hus. cbn [Z.b2z] in Hus. rewrite Z.add_0_r in Hus. unfold used in Hus.
    apply negb_false_iff in Hus. rewrite Hus. run_step. run_step; [exact Hps|]. do 2 run_step. run_step; [exact Hcs|]. run_step.
    rewrite (even_free _ Hev). change (Z.land 16 1) with 0. cbn [Z.eqb negb]. replace (a + 16 - 16) with a by lia.
    rewrite (u64_small (len - 16 + 16)) by lia. replace (len - 16 + 16) with len by lia.
    run_step. unfold munmap. run_step. run_step. destruct (sys_munmap _ _ _ <? 0).
    + do 4 run_step. exists cs, (b1 ++ b2). split; [by apply good_errn|done].
    + do 4 run_step. exists cs, (b1 ++ b2). split; [|done].
      eapply (unmap_good s cs (b1 ++ b2) F a len (no_words a len (memory s))); try done.
      intros x Hx. unfold no_words. destruct (within a len x) eqn:Hw; [|done]. by apply within_iff in Hw as [? _].
Qed.

End spec.
