(* ===== verification/AllocRealloc.v ===== *)
(** * [realloc]: the contents of the block move with it *)

From S2P Require Import Prelude Alloc AllocBins AllocFacts AllocInv AllocSteps AllocBin AllocFree AllocTrim AllocGrow AllocMapped AllocSpec.

(** The test of [IS_MMAPPED]. *)
Lemma mmapped_word n (u : bool) : n mod 2 = 0 -> (Z.land (n + Z.b2z u) C_INUSE =? 0) = negb u.
Proof. intros Hn. pose proof (used_word n u Hn) as Hu. unfold used in Hu. by destruct (_ =? 0), u. Qed.

Section realloc.
Context `{K : Kernel} `{B : Statics}.

(** ** The words of one block *)

(** [F] and the words of the block at [p]. *)
Definition with_block (m : Z -> option Z) (p k : Z) (F : Z -> option Z) : Z -> option Z :=
  fun x => if (p <=? x) && (x <? p + k) then m x else F x.

Lemma with_block_in m p k F x : p <= x < p + k -> with_block m p k F x = m x.
Proof using. intros H. unfold with_block. by rewrite (proj2 (Z.leb_le p x)), (proj2 (Z.ltb_lt x (p + k))) by lia. Qed.

Lemma with_block_out m p k F x : ~ (p <= x < p + k) -> with_block m p k F x = F x.
Proof using.
  intros H. unfold with_block. destruct (Z.leb_spec p x); [|done]. destruct (Z.ltb_spec x (p + k)); [lia|done].
Qed.

Lemma owned_block cs bigs x : owned cs bigs x <-> exists b, b ∈ blocks cs bigs /\ b.1 <= x < b.1 + b.2.
Proof using.
  unfold blocks. split.
  - intros [(c & Hc & Hu & Hx)|(r & Hr & Hx)].
    + exists (block c). unfold block. cbn. split; [|lia]. apply elem_of_app. left. unfold used_blocks.
      apply (list_elem_of_fmap_2 block). by apply list_elem_of_filter.
    + exists (big_block r). unfold big_block. cbn. split; [|lia]. apply elem_of_app. right.
      by apply (list_elem_of_fmap_2 big_block).
  - intros (b & Hb & Hx). apply elem_of_app in Hb as [Hb|Hb].
    + left. apply used_block_in in Hb as (c & Hc & Hu & ->). unfold block in Hx. cbn in Hx. exists c. split_and!; [done|done|lia|lia].
    + right. apply list_elem_of_fmap in Hb as (r & -> & Hr). unfold big_block in Hx. cbn in Hx. exists r. split_and!; [done|lia|lia].
Qed.

Lemma good_replace_data s cs bigs F F' : good s cs bigs F -> data_inv (memory s) cs bigs F' -> good s cs bigs F'.
Proof using.
  intros [(Hin & [])|([] & ->)] Hd; [left; split; [done|by split]|right; by split].
Qed.

Lemma good_weaken s cs bigs F F' : good s cs bigs F -> (forall x v, F' x = Some v -> F x = Some v) -> good s cs bigs F'.
Proof using.
  intros HG Hsub. eapply good_replace_data; [done|]. destruct (good_data _ _ _ _ HG) as [Hw Ho].
  split; [auto|]. intros x [v Hx]. eauto.
Qed.

Lemma good_with_block s cs bigs F p k : good s cs bigs F -> (p, k) ∈ blocks cs bigs -> good s cs bigs (with_block (memory s) p k F).
Proof using.
  intros HG Hin. eapply good_replace_data; [done|]. destruct (good_data _ _ _ _ HG) as [Hw Ho]. split.
  - intros x v Hx. destruct (decide (p <= x < p + k)); [by rewrite with_block_in in Hx|rewrite with_block_out in Hx; auto].
  - intros x Hx. destruct (decide (p <= x < p + k)); [apply owned_block; by exists (p, k)|rewrite with_block_out in Hx; auto].
Qed.

Lemma valid_weaken s bl F F' : valid s bl F -> (forall x v, F' x = Some v -> F x = Some v) -> valid s bl F'.
Proof using. intros (cs & bigs & HG & Hbl) Hsub. exists cs, bigs. split; [by eapply good_weaken|done]. Qed.

Lemma valid_with_block s bl F p k : valid s bl F -> (p, k) ∈ bl -> valid s bl (with_block (memory s) p k F).
Proof using. intros (cs & bigs & HG & Hbl) Hin. exists cs, bigs. split; [apply good_with_block; [done|by rewrite <- Hbl]|done]. Qed.

Lemma valid_words s bl F x v : valid s bl F -> F x = Some v -> memory s x = Some v.
Proof using. intros (cs & bigs & HG & _). by apply (di_words _ _ _ _ (good_data _ _ _ _ HG)). Qed.

(** [F] is about the other blocks. *)
Lemma valid_others s b bl F : valid s (b :: bl) F -> clear F b.1 (b.1 + b.2) ->
  forall x, is_Some (F x) -> exists b', b' ∈ bl /\ b'.1 <= x < b'.1 + b'.2.
Proof using.
  intros (cs & bigs & HG & Hbl) Hcl x Hx. pose proof (di_owned _ _ _ _ (good_data _ _ _ _ HG) x Hx) as Ho. apply owned_block in Ho.
  destruct Ho as (b' & Hb' & Hbx). rewrite <- Hbl in Hb'. apply elem_of_cons in Hb' as [->|Hb']; [|eauto].
  rewrite Hcl in Hx by done. by destruct Hx.
Qed.

(** ** Writing into a block *)
Lemma good_mapped s cs bigs F p k x : good s cs bigs F -> (p, k) ∈ blocks cs bigs -> p <= x < p + k -> x mod 8 = 0 -> is_Some (memory s x).
Proof using.
  intros HG Hin Hx H8. assert (Ho : owned cs bigs x) by (apply owned_block; by exists (p, k)).
  destruct (owned_in_maps _ _ _ _ _ HG Ho) as (r & Hr & Hrx & _).
  apply (mi_mapped _ _ _ (good_maps _ _ _ _ HG) r); [done|]. by apply within_iff.
Qed.

Lemma good_write s cs bigs F p k m' : good s cs bigs F -> (p, k) ∈ blocks cs bigs ->
  changes (fun x => p <= x < p + k /\ F x = None) (memory s) m' -> good (set_memory (fun _ => m') s) cs bigs F.
Proof using.
  intros HG Hin Hch. apply elem_of_app in Hin as [Hin|Hin].
  - apply used_block_in in Hin as ([a z u] & Hc & Hu & Heq). cbn in Hu. subst u. unfold block in Heq. cbn in Heq. injection Heq as -> ->.
    destruct HG as [(Hi & HI)|(_ & ->)]; [|by apply not_elem_of_nil in Hc]. left. split; [done|].
    apply list_elem_of_split in Hc as (l1 & l2 & ->). destruct (used_chunk_facts _ _ _ _ _ _ _ HI) as (Hz & _ & H1 & _).
    destruct (hi_headers _ _ _ _ (inv_heap _ _ _ _ HI) (Chunk a z true)) as [Hh1 Hh2]; [apply elem_of_app; right; left|].
    cbn in Hh1, Hh2. pose proof (proj2 Hz).
    apply (inv_remid s bigs F l1 [Chunk a z true] [Chunk a z true] l2 a (a + z)); try done; try (by repeat constructor); try (by cbn).
    + intros c Hc. apply list_elem_of_singleton in Hc as ->. cbn [addr size]. rewrite <- Hh1, <- Hh2 at 1. rewrite Hh1.
      split; [rewrite <- Hh1|]; apply (changes_out _ _ _ _ Hch); unfold csize, psize; lia.
    + eapply changes_mono; [exact Hch|]. cbn. intros x [? ?]. split; [lia|done].
  - apply list_elem_of_fmap in Hin as ([a len] & Heq & Hr). unfold big_block in Heq. cbn in Heq. injection Heq as -> ->.
    pose proof (good_maps _ _ _ _ HG) as Hm. destruct (mi_bigs _ _ _ Hm _ Hr) as (Hr1 & _).
    assert (Hsame : forall x, ~ (a <= x < a + len) -> m' x = memory s x).
    { intros x Hx. apply (changes_out _ _ _ _ Hch). lia. }
    eapply (good_outside s cs bigs bigs F (maps s) m'); try done.
    + eapply (same_inside_range _ _ bigs); [done|exact Hsame|]. intros r Hr' Hnb.
      destruct (mi_apart _ _ _ Hm _ _ Hr1 Hr') as [<-|]; done.
    + pose proof (fun r => big_bounds _ _ _ r Hm) as Hbb. destruct Hm as [Hb Hok Hap Hmap Hnd Hbig]. split; try done.
      * intros r x Hr' Hx. destruct (Hch x) as [->|[? _]]; [by eapply Hmap|done].
      * intros r Hr'. destruct (Hbig r Hr') as (G1 & G2 & G3 & G4 & G5). specialize (Hbb r Hr').
        assert (Hout : forall x, r.1 <= x < r.1 + 32 -> m' x = memory s x).
        { intros x Hx. apply (changes_out _ _ _ _ Hch). intros [Hx' _].
          destruct (Hap r (a, len) G1 Hr1) as [->|[H|H]]; cbn in *; lia. }
        unfold psize, csize in *. split_and!; try done; rewrite Hout; try done; lia.
    + intros Hi. destruct HG as [(_ & HI)|([] & _)]; [|congruence]. by destruct (inv_region _ _ _ _ HI).
    + destruct (good_data _ _ _ _ HG) as [Hw Ho]. split; [|done]. intros x v Hx.
      rewrite (changes_out _ _ _ _ Hch); [auto|]. intros [_ HF]. congruence.
Qed.

(** ** [memcpy] *)
Lemma copy_words_runs n d p s :
  (forall x, d <= x < d + 8 * Z.of_nat n -> x mod 8 = 0 -> is_Some (memory s x)) ->
  (forall x, p <= x < p + 8 * Z.of_nat n -> x mod 8 = 0 -> is_Some (memory s x)) ->
  d mod 8 = 0 -> p mod 8 = 0 -> apart (d, 8 * Z.of_nat n) (p, 8 * Z.of_nat n) ->
  runs (copy_words n d p) s (fun _ s' => exists m', s' = set_memory (fun _ => m') s /\
    changes (fun x => d <= x < d + 8 * Z.of_nat n) (memory s) m' /\
    forall i, 0 <= i < 8 * Z.of_nat n -> i mod 8 = 0 -> m' (d + i) = memory s (p + i)).
Proof using.
  revert d p s. induction n as [|n IH]; intros d p s Hd Hp Hd8 Hp8 Hap; cbn [copy_words].
  { run_step. exists (memory s). split; [by destruct s|]. split; [apply changes_refl|]. intros; lia. }
  assert (Hap' : d + 8 * Z.of_nat n + 8 <= p \/ p + 8 * Z.of_nat n + 8 <= d) by (unfold apart in Hap; cbn [fst snd] in Hap; lia).
  clear Hap. destruct (Hp p) as [v Hv]; [lia|done|]. run_step. run_step; [exact Hv|].
  run_step. run_step; [apply Hd; [lia|done]|].
  eapply runs_mono; [apply (IH (d + 8) (p + 8))|].
  - intros x Hx H8. apply upd_mapped, Hd; [lia|done].
  - intros x Hx H8. apply upd_mapped, Hp; [lia|done].
  - clear -Hd8. div_lia.
  - clear -Hp8. div_lia.
  - unfold apart. cbn [fst snd]. lia.
  - intros _ s' (m' & -> & Hch & Hcopy). cbn [memory set_memory] in *. exists m'. split; [done|]. split.
    + intros x. destruct (Hch x) as [Hx|[Hx Hr]]; [|right; split; [done|lia]].
      destruct (decide (x = d)) as [->|Hne]; [right; split; [rewrite Hx, upd_eq; by eexists|lia]|].
      left. by rewrite Hx, upd_ne.
    + intros i Hi H8. destruct (decide (i = 0)) as [->|Hi0].
      * rewrite !Z.add_0_r. rewrite (changes_out _ _ _ _ Hch), upd_eq by lia. done.
      * replace (d + i) with (d + 8 + (i - 8)) by lia.
        assert (8 <= i) by (clear -Hi H8 Hi0; div_lia). rewrite Hcopy; [|lia|clear -H8; div_lia].
        rewrite upd_ne by lia. f_equal. lia.
Qed.

(** ** Moving a block *)
Section move.
Context (s s1 : state) (bl : list (Z * Z)) (F : Z -> option Z) (p k k1 new k2 c : Z).
Hypothesis (HV : valid s1 ((new, k2) :: (p, k1) :: bl) (with_block (memory s) p k F))
  (Hk : k <= k1) (Hc : 0 <= c <= k) (Hc2 : c <= k2) (Hc8 : c mod 8 = 0)
  (HF : forall x, is_Some (F x) -> exists b, b ∈ bl /\ b.1 <= x < b.1 + b.2)
  (Hmap : forall x, p <= x < p + k -> x mod 8 = 0 -> is_Some (memory s x)).

Lemma move_apart : apart (new, k2) (p, k1) /\ clear F new (new + k2) /\ clear F p (p + k1) /\
  new mod 16 = 0 /\ p mod 16 = 0 /\ 0 < new /\ 0 < p.
Proof using HV HF.
  destruct (valid_blocks _ _ _ HV) as [Hs Hsane]. cbn [separate] in Hs. destruct Hs as (Hn & Hp & _).
  apply Forall_cons in Hn as [Hn1 Hn2]. apply Forall_cons in Hsane as [(G1 & _ & G2 & _) Hsane].
  apply Forall_cons in Hsane as [(G3 & _ & G4 & _) _]. cbn in *. rewrite Forall_forall in Hn2, Hp. split_and!; try done.
  - intros x Hx. destruct (F x) eqn:HFx; [exfalso|done]. destruct (HF x) as (b & Hb & Hbx); [by eexists|].
    destruct (Hn2 b Hb) as [H|H]; cbn in H; lia.
  - intros x Hx. destruct (F x) eqn:HFx; [exfalso|done]. destruct (HF x) as (b & Hb & Hbx); [by eexists|].
    destruct (Hp b Hb) as [H|H]; cbn in H; lia.
Qed.

(** The old words are still there. *)
Lemma move_words_same x : p <= x < p + k -> x mod 8 = 0 -> memory s1 x = memory s x.
Proof using HV Hmap.
  intros Hx H8. destruct (Hmap x Hx H8) as [v Hv]. rewrite Hv. apply (valid_words _ _ _ _ _ HV). by rewrite with_block_in.
Qed.

Lemma move_runs : runs (memcpy new p c;; free p;; mret new) s1 (fun p' s' => p' = new /\ valid s' ((new, k2) :: bl) F /\
  forall i, 0 <= i < c -> i mod 8 = 0 -> memory s' (new + i) = memory s (p + i)).
Proof using All.
  destruct move_apart as (Hap & Hcn & Hcp & Hn16 & Hp16 & Hn0 & Hp0). pose proof move_words_same as Hsame.
  pose proof HV as (cs & bigs & HG & Hbl).
  assert (Hin1 : (new, k2) ∈ blocks cs bigs) by (rewrite <- Hbl; left).
  assert (Hin2 : (p, k1) ∈ blocks cs bigs) by (rewrite <- Hbl; right; left).
  assert (Hlen : 8 * Z.of_nat (Z.to_nat (c / 8)) = c) by (clear -Hc Hc8; rewrite Z2Nat.id; div_lia).
  unfold apart in Hap. cbn [fst snd] in Hap. run_step. unfold memcpy.
  eapply runs_mono; [apply (copy_words_runs _ new p s1); rewrite ?Hlen|].
  - intros x Hx H8. apply (good_mapped _ _ _ _ _ _ _ HG Hin1); [lia|done].
  - intros x Hx H8. apply (good_mapped _ _ _ _ _ _ _ HG Hin2); [lia|done].
  - clear -Hn16. div_lia.
  - clear -Hp16. div_lia.
  - unfold apart. cbn [fst snd]. lia.
  - rewrite Hlen. intros _ s2 (m' & -> & Hch & Hcopy). run_step.
    assert (HGc : good (set_memory (fun _ => m') s1) cs bigs (with_block (memory s) p k F)).
    { eapply good_write; [exact HG|exact Hin1|]. eapply changes_mono; [exact Hch|]. cbn. intros x Hx. split; [lia|].
      rewrite with_block_out by lia. apply Hcn. lia. }
    assert (HGF : good (set_memory (fun _ => m') s1) cs bigs F).
    { eapply good_replace_data; [exact HGc|]. destruct (good_data _ _ _ _ HGc) as [Hw Ho]. split.
      - intros x v Hx. apply Hw. rewrite with_block_out; [done|]. intros Hpx. by rewrite Hcp in Hx by lia.
      - intros x Hx. apply Ho. rewrite with_block_out; [done|]. intros Hpx. rewrite Hcp in Hx by lia. by destruct Hx. }
    pose proof (good_with_block _ _ _ _ _ _ HGF Hin1) as HGn. cbn [memory set_memory] in HGn.
    eapply runs_mono; [apply (free_runs _ p k1 ((new, k2) :: bl) (with_block m' new k2 F))|].
    + exists cs, bigs. split; [exact HGn|]. rewrite <- Hbl. apply Permutation_swap.
    + intros x Hx. rewrite with_block_out by lia. by apply Hcp.
    + intros ? s3 HV3. cbv beta in HV3. run_step. split; [done|]. split.
      * eapply valid_weaken; [exact HV3|]. intros x v Hx. rewrite with_block_out; [done|]. intros Hnx. by rewrite Hcn in Hx.
      * intros i Hi H8. assert (Hp8 : (p + i) mod 8 = 0) by (clear -Hp16 H8; div_lia).
        destruct (Hmap (p + i)) as [v Hv]; [lia|done|]. rewrite Hv.
        apply (valid_words _ _ _ _ _ HV3). rewrite with_block_in by lia. rewrite Hcopy by done. rewrite Hsame by (done || lia). done.
Qed.
End move.

(** ** A block in the heap *)

(** The run of chunks in use that begins with the block becomes one chunk. *)
Lemma mark_used_runs s bigs F l1 l2 mid a z n1 : inv s (l1 ++ (Chunk a z true :: mid) ++ l2) bigs F ->
  chain (brk0 s + 16) l1 a -> all_used mid -> chain (a + z) mid (a + n1) ->
  runs (wr (csize a) (Z.lor n1 C_INUSE);; wr (psize (a + n1)) (Z.lor n1 C_INUSE);; mret n1) s (fun n s' => n = n1 /\
    inv s' (l1 ++ Chunk a n1 true :: l2) bigs F /\ init s' = init s).
Proof using.
  intros HI H1 Hu Hch.
  assert (Hz : unit_size z) by (eapply (chain_in _ _ _ (Chunk a z true) (hi_chain _ _ _ _ (inv_heap _ _ _ _ HI))); apply elem_of_app; right; left).
  assert (Hmid : chain a (Chunk a z true :: mid) (a + n1)) by (cbn; destruct Hz; split_and!; done).
  destruct (round_bounds _ _ _ _ _ _ _ _ HI H1 Hmid) as (G1 & G2 & G3 & _ & G4 & G5 & _); [done|].
  destruct (end_boundary _ _ _ _ _ _ _ _ HI H1 Hmid) as (Hb1 & Hb2 & HFe).
  assert (Hn1 : a + n1 - a = n1) by lia. rewrite Hn1 in G4. rewrite (lor_inuse0 _ (unit_even _ G4)).
  assert (HFa : F (a + 8) = None) by (apply (clear_boundary _ _ _ _ HI l1 _ a eq_refl H1); lia).
  pose proof (inv_layout _ _ _ _ HI) as HL. destruct (boundary_region _ _ _ HL Hb1) as [_ Hr1], (boundary_region _ _ _ HL Hb2) as [Hr2 _].
  assert (Hmap : forall x, in_region (brk0 s) x -> x mod 8 = 0 -> is_Some (memory s x)).
  { intros x Hx H8. destruct HI as [Hm Hr _ _ _]. by eapply region_mapped. }
  destruct Hb1 as [Hb1 _], Hb2 as [Hb2 _].
  run_step. run_step; [apply Hmap; [done|]; unfold csize; clear -Hb1; div_lia|].
  run_step. run_step; [apply upd_mapped, Hmap; [done|]; unfold psize; clear -Hb2; div_lia|]. run_step.
  split; [done|]. split; [|done].
  assert (HM : inv (set_memory (fun _ => upd (psize (a + n1)) (n1 + 1) (upd (csize a) (n1 + 1) (memory s))) s)
    (l1 ++ Chunk a (a + n1 - a) true :: l2) bigs F).
  { apply (inv_merge s bigs F l1 (Chunk a z true :: mid) l2 a (a + n1)); try done; rewrite ?Hn1.
    - by constructor.
    - by rewrite upd_ne, upd_eq by (unfold psize, csize; lia).
    - by rewrite upd_eq.
    - apply changes_upd; [apply changes_upd; [apply changes_refl|]|]; unfold psize, csize; (split; [lia|done]). }
  by rewrite Hn1 in HM.
Qed.

Lemma merge_next_runs s bigs F l1 l2 a z m : inv s (l1 ++ Chunk a z true :: l2) bigs F ->
  runs (merge_next a (a + z) m z) s (fun n1 s' => exists l2',
    inv s' (l1 ++ Chunk a n1 true :: l2') bigs F /\ z <= n1 /\ used_blocks l2' = used_blocks l2 /\ init s' = init s).
Proof using.
  intros HI. destruct (used_chunk_facts _ _ _ _ _ _ _ HI) as (Hz & _ & H1 & H2). pose proof (proj2 Hz) as Hz32.
  assert (Hkeep : runs (wr (csize a) (Z.lor z C_INUSE);; wr (psize (a + z)) (Z.lor z C_INUSE);; mret z) s (fun n1 s' => exists l2',
    inv s' (l1 ++ Chunk a n1 true :: l2') bigs F /\ z <= n1 /\ used_blocks l2' = used_blocks l2 /\ init s' = init s)).
  { eapply runs_mono; [apply (mark_used_runs s bigs F l1 l2 [] a z z); try done; constructor|].
    intros n1 s' (-> & HI' & Hi). exists l2. done. }
  unfold merge_next. run_step. destruct (Z.ltb_spec z m) as [Hlt|Hge].
  2: { do 3 run_step. exact Hkeep. }
  assert (HI' : inv s ((l1 ++ [Chunk a z true]) ++ l2) bigs F) by (by rewrite <- app_assoc).
  assert (Hend : chain (brk0 s + 16) (l1 ++ [Chunk a z true]) (a + z)) by (apply chain_app; exists a; cbn; destruct Hz; split_and!; done).
  eapply runs_mono; [by eapply alloc_fwd_runs|].
  intros r s1 (Hs & [(-> & _ & ->)|(-> & l & k & -> & HI1)]).
  { do 2 run_step. exact Hkeep. }
  assert (Hend1 : chain (brk0 s1 + 16) (l1 ++ [Chunk a z true]) (a + z)) by (destruct Hs as (_ & -> & _); done).
  pose proof (right_header _ _ _ _ _ _ HI1 Hend1) as Hw. cbn in Hw. unfold word in Hw. cbn [size inuse] in Hw.
  pose proof (chain_rest _ _ _ _ _ _ HI1 Hend1) as (_ & Hk & Hrest). cbn [size addr] in Hk, Hrest. pose proof (unit_even _ Hk) as Hev.
  pose proof (proj2 Hk). destruct (inv_bounds _ _ _ _ HI1). pose proof (chain_le _ _ _ Hrest). pose proof (chain_le _ _ _ H1).
  assert (Hb0 : brk0 s1 = brk0 s) by apply Hs.
  unfold NEXT_CHUNK, CHUNK_SIZE. do 3 run_step. run_step; [exact Hw|]. do 4 run_step. run_step; [exact Hw|]. do 3 run_step.
  rewrite (even_word k true Hev), (u64_small (z + k)) by lia. replace (a + z + k) with (a + (z + k)) by lia.
  eapply runs_mono; [apply (mark_used_runs s1 bigs F l1 l [Chunk (a + z) k true] a z (z + k))|].
  - by rewrite <- app_assoc in HI1.
  - by rewrite Hb0.
  - by repeat constructor.
  - cbn. destruct Hk. split_and!; try done. lia.
  - intros n1 s' (-> & HI2 & Hi). exists l. split_and!; [done|lia|done|]. rewrite Hi. apply Hs.
Qed.

(** ** The result of [realloc]

    NULL, and the block is still there, perhaps larger, with its words; or a
    block of at least [n] bytes, with the words of the old one as far as it goes. *)
Definition reallocated (s : state) (bl : list (Z * Z)) (F : Z -> option Z) (p k n p' : Z) (s' : state) : Prop :=
  (p' = 0 /\ exists k', k <= k' /\ valid s' ((p, k') :: bl) (with_block (memory s) p k F)) \/
  (exists k', n <= k' /\ valid s' ((p', k') :: bl) F /\
     forall i, 0 <= i < Z.min k n -> i mod 8 = 0 -> memory s' (p' + i) = memory s (p + i)).

(** No other user's word is in a block, whatever its length has become. *)
Lemma clear_grown s p k bl F G : valid s ((p, k) :: bl) G -> (forall x, is_Some (F x) -> exists b, b ∈ bl /\ b.1 <= x < b.1 + b.2) ->
  clear F p (p + k).
Proof using.
  intros HV HF x Hx. destruct (valid_blocks _ _ _ HV) as [[Hs _] _]. rewrite Forall_forall in Hs.
  destruct (F x) eqn:HFx; [exfalso|done]. destruct (HF x) as (b & Hb & Hbx); [by eexists|].
  destruct (Hs b Hb) as [H|H]; cbn in H; lia.
Qed.

Context `{KS : !KernelSpec K}.

Section run.
Context (s : state) (bl : list (Z * Z)) (F : Z -> option Z) (p k n m : Z) (cs : list chunk) (bigs : list (Z * Z)).
Hypothesis (HG : good s cs bigs F) (Hbl : (p, k) :: bl ≡ₚ blocks cs bigs) (Hcl : clear F p (p + k)) (Hgr : heap_granted s)
  (Hm : m mod 32 = 0) (Hmr : 32 <= m <= 2 ^ 63 - 4096) (Hnm : n + 16 <= m).

Lemma run_facts : (forall x, is_Some (F x) -> exists b, b ∈ bl /\ b.1 <= x < b.1 + b.2) /\
  (forall x, p <= x < p + k -> x mod 8 = 0 -> is_Some (memory s x)) /\ good s cs bigs (with_block (memory s) p k F) /\ 0 < p /\ p mod 16 = 0.
Proof using HG Hbl Hcl.
  assert (HV : valid s ((p, k) :: bl) F) by (exists cs, bigs; done).
  assert (Hin : (p, k) ∈ blocks cs bigs) by (rewrite <- Hbl; left).
  destruct (valid_blocks _ _ _ HV) as [_ Hs]. apply Forall_cons in Hs as [(? & _ & ? & _) _]. split_and!; try done.
  - by eapply valid_others.
  - intros x. by eapply good_mapped.
  - by apply good_with_block.
Qed.

(** From [merge_next] on: the chunk has grown to [n1] bytes. *)
Lemma realloc_rest s2 l1 l2 n1 z : inv s2 (l1 ++ Chunk (p - 16) n1 true :: l2) bigs (with_block (memory s) p k F) -> init s2 = true ->
  z = k + 16 -> z mod 32 = 0 -> 32 <= z <= n1 -> bl ≡ₚ used_blocks l1 ++ used_blocks l2 ++ (big_block <$> bigs) ->
  runs (if m <=? n1 then trim (p - 16) m;; mret (CHUNK_TO_MEM (p - 16)) else
    new ← malloc (u64 (m - OVERHEAD));
    if new =? 0 then mret 0 else
    memcpy new p (u64 (z - OVERHEAD));;
    free (CHUNK_TO_MEM (p - 16));;
    mret new) s2 (reallocated s bl F p k n).
Proof using HG Hbl Hcl Hm Hmr Hnm KS.
  intros HI2 Hin -> Hz8 Hz Hbl2. destruct run_facts as (HF & Hmap & _ & Hp0 & Hp16).
  assert (HG2 : good s2 (l1 ++ Chunk (p - 16) n1 true :: l2) bigs (with_block (memory s) p k F)) by (by left).
  assert (Hb2 : forall n l l', used_blocks l = used_blocks l1 -> used_blocks l' = used_blocks l2 ->
    (p, n - 16) :: bl ≡ₚ blocks (l ++ Chunk (p - 16) n true :: l') bigs).
  { intros n' l l' E1 E2. unfold blocks. rewrite used_blocks_app, used_blocks_cons, E1, E2. cbn [inuse app]. unfold block. cbn [addr size].
    replace (p - 16 + 16) with p by lia. rewrite Hbl2, <- !app_assoc. cbn [app]. by rewrite <- Permutation_middle. }
  assert (HV2 : valid s2 ((p, n1 - 16) :: bl) (with_block (memory s) p k F)) by (exists (l1 ++ Chunk (p - 16) n1 true :: l2), bigs; auto).
  pose proof (clear_grown _ _ _ _ _ _ HV2 HF) as Hcl2. unfold CHUNK_TO_MEM, OVERHEAD. replace (p - 16 + 16) with p by lia.
  destruct (Z.leb_spec m n1) as [Hfit|Hsmall].
  - destruct (used_chunk_facts _ _ _ _ _ _ _ HI2) as (Hn1 & _). assert (Hu : unit_size m) by (unfold unit_size in *; lia).
    set (G := with_block (memory s) p (Z.min k (m - 16)) F).
    assert (HIG : inv s2 (l1 ++ Chunk (p - 16) n1 true :: l2) bigs G).
    { assert (HGG : good s2 (l1 ++ Chunk (p - 16) n1 true :: l2) bigs G).
      { eapply good_weaken; [exact HG2|]. unfold G. intros x v Hx. destruct (decide (p <= x < p + Z.min k (m - 16))) as [Hxp|Hxp].
        - rewrite with_block_in in Hx by done. by rewrite with_block_in by lia.
        - rewrite with_block_out in Hx by done. rewrite with_block_out; [done|]. intros Hxp'. by rewrite Hcl in Hx. }
      destruct HGG as [[_ ?]|[_ Heq]]; [done|by destruct l1]. }
    run_step. eapply runs_mono; [eapply trim_runs; [exact HIG| |done|done]|].
    + intros x Hx. unfold G. rewrite with_block_out by lia. apply Hcl2. lia.
    + intros _ s3 (l1' & l2' & HI3 & Hs & E1 & E2). run_step. right. exists (m - 16). split; [lia|].
      assert (HV3 : valid s3 ((p, m - 16) :: bl) G).
      { exists (l1' ++ Chunk (p - 16) m true :: l2'), bigs. split; [left; split; [|done]|by apply Hb2].
        destruct Hs as (_ & _ & _ & -> & _). done. }
      split; [eapply valid_weaken; [exact HV3|]; intros x v Hx; unfold G; rewrite with_block_out; [done|]; intros Hxp; by rewrite Hcl in Hx by lia|].
      intros i Hi H8. destruct (Hmap (p + i)) as [v Hv]; [lia|clear -Hp16 H8; div_lia|]. rewrite Hv.
      apply (valid_words _ _ _ _ _ HV3). unfold G. by rewrite with_block_in by lia.
  - rewrite (u64_small (m - 16)) by lia. run_step.
    eapply runs_mono; [eapply malloc_runs; [exact HG2|by apply Hb2|lia|by left]|].
    intros new s3 [(-> & cs' & HG3 & Hbl3)|(k' & Hk' & Hap & HV3)].
    + rewrite Z.eqb_refl. run_step. left. split; [done|]. exists (n1 - 16). split; [lia|]. by exists cs', bigs.
    + destruct (valid_blocks _ _ _ HV3) as [_ Hs3]. apply Forall_cons in Hs3 as [(_ & _ & Hn0 & _) _]. cbn in Hn0.
      rewrite (proj2 (Z.eqb_neq new 0)) by lia.
      assert (Hz64 : k + 16 < 2 ^ 62) by (destruct (used_chunk_facts _ _ _ _ _ _ _ HI2) as ([_ ?] & _); lia).
      rewrite u64_small by lia. replace (k + 16 - 16) with k by lia.
      eapply runs_mono; [apply (move_runs s s3 bl F p k (n1 - 16) new k' k); try done; try lia; clear -Hz8; div_lia|].
      intros p' s4 (-> & HV4 & Hcopy). right. exists k'. split; [lia|]. split; [done|]. intros i Hi. apply Hcopy. lia.
Qed.

(** ** A block with a mapping of its own *)
Section big.
Context (a len : Z) (b1 b2 : list (Z * Z)).
Hypothesis (Ea : a = p - 32) (El : len = k + 32) (Eb : bigs = b1 ++ (a, len) :: b2) (Ebl : bl ≡ₚ blocks cs (b1 ++ b2)).

Lemma big_facts : a mod 4096 = 0 /\ len mod 4096 = 0 /\ 0 < a /\ 4096 <= len /\ a + len <= 2 ^ 47 /\
  forall s' cs' G, good s' cs' bigs G -> memory s' (psize (a + 16)) = Some 16 /\ memory s' (csize (a + 16)) = Some (len - 16).
Proof using HG Eb.
  assert (Hr : (a, len) ∈ bigs) by (rewrite Eb; apply elem_of_app; right; left).
  pose proof (good_maps _ _ _ _ HG) as Hm'. destruct (mi_bigs _ _ _ Hm' _ Hr) as (_ & H2 & H3 & _).
  destruct (big_bounds _ _ _ _ Hm' Hr) as (H4 & H5 & H6). cbn in *. split_and!; try done.
  intros s' cs' G HG'. by destruct (mi_bigs _ _ _ (good_maps _ _ _ _ HG') _ Hr) as (_ & _ & _ & ? & ?).
Qed.

(** Without the block, the others. *)
Lemma big_dropped s1 cs1 : good s1 cs1 bigs (with_block (memory s) p k F) -> (p, k) :: bl ≡ₚ blocks cs1 bigs ->
  good s1 cs1 (b1 ++ b2) F /\ bl ≡ₚ blocks cs1 (b1 ++ b2) /\ spare s1 (b1 ++ b2) (a, len).
Proof using Hcl Ea El Eb.
  intros HG1 Hbl1. pose proof HG1 as HG1'. rewrite Eb in HG1'. split_and!; [| |by eapply drop_spare].
  - apply (drop_big s1 cs1 b1 b2 a len F); [|intros x Hx; apply Hcl; lia]. eapply good_weaken; [exact HG1'|].
    intros x v Hx. rewrite with_block_out; [done|]. intros Hxp. by rewrite Hcl in Hx.
  - unfold blocks in Hbl1 |- *. rewrite Eb, fmap_app, fmap_cons, app_assoc in Hbl1. unfold big_block at 2 in Hbl1. cbn [fst snd] in Hbl1.
    replace (a + 32) with p in Hbl1 by lia. replace (len - 32) with k in Hbl1 by lia.
    apply Permutation_cons_app_inv in Hbl1. by rewrite Hbl1, fmap_app, app_assoc.
Qed.

(** The words after the move. *)
Lemma moved_words s1 cs1 b new : good s1 cs1 bigs (with_block (memory s) p k F) -> b mod 4096 = 0 ->
  (forall i, 0 <= i < Z.min len new -> i mod 8 = 0 -> move_words a len b new (memory s1) (b + i) = memory s1 (a + i)) /\
  (forall x, within b new x = true -> is_Some (move_words a len b new (memory s1) x)).
Proof using HG Eb.
  intros HG1 Hbm. destruct big_facts as (Ham & _). split.
  - intros i Hi H8. unfold move_words. rewrite (proj2 (within_iff b new (b + i))) by (split; [lia|clear -Hbm H8; div_lia]).
    rewrite (proj2 (Z.ltb_lt _ _)) by lia. f_equal. lia.
  - intros x Hx. unfold move_words. rewrite Hx. apply within_iff in Hx as [Hx H8]. destruct (Z.ltb_spec (x - b) len); [|by eexists].
    assert (Hr : (a, len) ∈ bigs) by (rewrite Eb; apply elem_of_app; right; left).
    pose proof (good_maps _ _ _ _ HG1) as Hm1. apply (mi_mapped _ _ _ Hm1 (a, len)); [by apply (mi_bigs _ _ _ Hm1)|].
    apply within_iff. cbn. split; [lia|]. clear -H8 Hbm Ham. div_lia.
Qed.

(** The block is still there with its words. *)
Lemma kept s1 cs1 : good s1 cs1 bigs (with_block (memory s) p k F) -> (p, k) :: bl ≡ₚ blocks cs1 bigs -> n <= k ->
  exists k', n <= k' /\ valid s1 ((p, k') :: bl) F /\ forall i, 0 <= i < Z.min k n -> i mod 8 = 0 -> memory s1 (p + i) = memory s (p + i).
Proof using HG Hbl Hcl.
  intros HG1 Hbl1 Hnk. destruct run_facts as (_ & Hmap & _ & _ & Hp16). exists k. split; [done|]. split.
  - exists cs1, bigs. split; [|done]. eapply good_weaken; [exact HG1|].
    intros x v Hx. rewrite with_block_out; [done|]. intros Hxp. by rewrite Hcl in Hx.
  - intros i Hi H8. destruct (Hmap (p + i)) as [v Hv]; [lia|clear -Hp16 H8; div_lia|]. rewrite Hv.
    apply (di_words _ _ _ _ (good_data _ _ _ _ HG1)). by rewrite with_block_in by lia.
Qed.

(** The kernel moves the pages. *)
Lemma remap_runs s1 cs1 new : good s1 cs1 bigs (with_block (memory s) p k F) -> (p, k) :: bl ≡ₚ blocks cs1 bigs ->
  new mod 4096 = 0 -> m + 16 <= new < 2 ^ 64 -> len <> new ->
  runs (base ← mremap a len new;
    if base =? MAP_FAILED then mret (if new <? len then p else 0) else
    let self := base + 16 in
    wr (csize self) (u64 (new - 16));;
    mret (CHUNK_TO_MEM self)) s1 (reallocated s bl F p k n).
Proof using HG Hbl Hcl Hm Hmr Hnm KS Ea El Eb.
  intros HG1 Hbl1 Hnew8 Hnew Hne. destruct run_facts as (_ & Hmap & _ & _ & Hp16).
  destruct big_facts as (Ham & Hlm & Ha & Hlen & Hmax & _).
  destruct (big_dropped _ _ HG1 Hbl1) as (HG2 & Hbl2 & Hsp).
  run_step. unfold mremap. run_step. run_step. destruct Hsp as (Hsp1 & Hsp2 & Hsp3 & Hsp4).
  destruct (mremap_spec (maps s1) a len new) as [Hneg|Hf]; [lia|done|..].
  { rewrite (proj2 (Z.ltb_lt (sys_mremap _ _ _ _) 0)) by lia. do 3 run_step. rewrite Z.eqb_refl. run_step.
    destruct (Z.ltb_spec new len) as [Hlt|Hge].
    - right. apply (kept (set_errn _ s1) cs1); [by apply good_errn|done|lia].
    - left. split; [done|]. exists k. split; [lia|]. exists cs1, bigs. split; [by apply good_errn|done]. }
  set (b := sys_mremap _ _ _ _) in *. pose proof Hf as (Hb & Hbm & Hbmax & _).
  rewrite (proj2 (Z.ltb_ge b 0)) by lia. do 3 run_step. unfold MAP_FAILED. change (u64 (-1)) with (2 ^ 64 - 1).
  rewrite (proj2 (Z.eqb_neq b (2 ^ 64 - 1))) by lia. rewrite (u64_small (new - 16)) by lia.
  destruct (moved_words s1 cs1 b new HG1 Hbm) as [Hword Hw].
  destruct big_facts as (_ & _ & _ & _ & _ & Hhead). destruct (Hhead _ _ _ HG1) as [Hh1 _]. unfold psize in Hh1.
  run_step. run_step; [apply Hw, within_iff; unfold csize; split; [lia|clear -Hbm; div_lia]|]. run_step.
  set (s2 := set_maps (filter (fun r => r <> (a, len)) (maps s1)) (set_memory (no_words a len) s1)).
  assert (HG3 : good s2 cs1 (b1 ++ b2) F).
  { apply (unmap_good s1 cs1 (b1 ++ b2) F a len (no_words a len (memory s1))); try done.
    intros x Hx. unfold no_words. destruct (within a len x) eqn:Hx'; [|done]. by apply within_iff in Hx' as [? _]. }
  right. exists (new - 32). split; [lia|].
  assert (Hfin : forall s3, memory s3 = upd (csize (b + 16)) (new - 16) (move_words a len b new (memory s1)) ->
    maps s3 = (b, new) :: maps s2 -> brk s3 = brk s2 -> brk0 s3 = brk0 s2 -> binmap s3 = binmap s2 -> init s3 = init s2 ->
    good s3 cs1 ((b, new) :: b1 ++ b2) F).
  { intros s3. apply (map_good s2 cs1 (b1 ++ b2) F b new); try done; [clear -Hnew8 Hnew Hmr; div_lia|..].
    - intros x Hx. rewrite upd_ne by (unfold csize; lia). unfold move_words, s2. cbn [memory set_maps set_memory].
      destruct (within b new x) eqn:Hx'; [|done]. by apply within_iff in Hx' as [? _].
    - intros x Hx. by apply upd_mapped, Hw.
    - rewrite upd_ne by (unfold psize, csize; lia). unfold psize. rewrite Hword by (lia || done). exact Hh1.
    - apply upd_eq. }
  split.
  - exists cs1, ((b, new) :: b1 ++ b2). split; [by apply Hfin|]. unfold blocks. rewrite fmap_cons, <- Permutation_middle.
    unfold big_block at 1, CHUNK_TO_MEM, OVERHEAD. cbn [fst snd]. replace (b + 16 + 16) with (b + 32) by lia. by rewrite Hbl2.
  - intros i Hi H8. cbn [memory set_memory set_maps]. unfold CHUNK_TO_MEM, OVERHEAD. rewrite upd_ne by (unfold csize; lia).
    replace (b + 16 + 16 + i) with (b + (32 + i)) by lia. rewrite Hword; [|lia|clear -H8; div_lia].
    replace (a + (32 + i)) with (p + i) by lia.
    destruct (Hmap (p + i)) as [v Hv]; [lia|clear -Hp16 H8; div_lia|]. rewrite Hv.
    apply (di_words _ _ _ _ (good_data _ _ _ _ HG1)). by rewrite with_block_in by lia.
Qed.

Lemma realloc_mapped_runs : runs (realloc_mapped p m (p - 16) (k + 16)) s (reallocated s bl F p k n).
Proof using HG Hbl Hcl Hgr Hm Hmr Hnm KS Ea El Eb.
  destruct run_facts as (HF & Hmap & HGw & _). destruct big_facts as (_ & Hlm & Ha & Hlen & Hmax & Hhead).
  destruct (Hhead _ _ _ HG) as [Hh1 _]. unfold realloc_mapped.
  run_step. run_step; [replace (p - 16) with (a + 16) by lia; exact Hh1|].
  change (Z.land 16 1) with 0. cbn [Z.eqb negb].
  rewrite !(u64_small (m + 16)), (u64_small (k + 16 + 16)) by lia. replace (k + 16 + 16) with len by lia. replace (p - 16 - 16) with a by lia.
  assert (Hrest : forall s1 cs1, good s1 cs1 bigs (with_block (memory s) p k F) -> (p, k) :: bl ≡ₚ blocks cs1 bigs ->
    runs (let newlen := Z.land (u64 (m + 16 + PAGE_SIZE - 1)) (- PAGE_SIZE) in
      if len =? newlen then mret p else
      base ← mremap a len newlen;
      if base =? MAP_FAILED then mret (if newlen <? len then p else 0) else
      let self := base + 16 in
      wr (csize self) (u64 (newlen - 16));;
      mret (CHUNK_TO_MEM self)) s1 (reallocated s bl F p k n)).
  { intros s1 cs1 HG1 Hbl1. cbv zeta. rewrite land_PAGE_SIZE. unfold PAGE_SIZE. rewrite (u64_small (m + 16 + 4096 - 1)) by lia.
    set (x := m + 16 + 4096 - 1). set (newlen := x - x mod 4096).
    assert (Hn1 : m + 16 <= newlen < 2 ^ 64) by (unfold newlen, x; clear -Hmr; div_lia).
    assert (Hn2 : newlen mod 4096 = 0) by (unfold newlen; clear; div_lia).
    destruct (Z.eqb_spec len newlen) as [He|Hne]; [|by apply (remap_runs s1 cs1)].
    run_step. right. apply (kept s1 cs1); [done|done|lia]. }
  destruct (Z.ltb_spec (m + 16) PAGE_SIZE) as [Hlt|Hge]; unfold PAGE_SIZE in *.
  2: { do 2 run_step. cbn [Z.eqb negb]. by apply (Hrest s cs). }
  run_step. eapply runs_mono; [eapply malloc_runs; [exact HGw|exact Hbl|lia|exact Hgr]|].
  intros new s1 [(-> & cs1 & HG1 & Hbl1)|(k2 & Hk2 & _ & HV1)]; [cbn [Z.eqb negb]; by apply (Hrest s1 cs1)|].
  destruct (valid_blocks _ _ _ HV1) as [_ Hs]. apply Forall_cons in Hs as [(_ & _ & Hn0 & _) _]. cbn in Hn0.
  rewrite (proj2 (Z.eqb_neq new 0)) by lia. cbn [negb]. unfold OVERHEAD. rewrite (u64_small (m - 16)) by lia.
  eapply runs_mono; [apply (move_runs s s1 bl F p k k new k2 (m - 16)); try done; try lia; clear -Hm; div_lia|].
  intros p' s4 (-> & HV4 & Hcopy). right. exists k2. split; [lia|]. split; [done|]. intros i Hi. apply Hcopy. lia.
Qed.
End big.

(** ** A block of the heap *)
Lemma realloc_chunk_runs : (p, k) ∈ used_blocks cs ->
  runs (
    let self := MEM_TO_CHUNK p in
    n0 ← CHUNK_SIZE self;
    b ← IS_MMAPPED self;
    if (b : bool) then realloc_mapped p m self n0 else
    nxt ← NEXT_CHUNK self;
    f ← rd (psize nxt);
    w ← rd (csize self);
    if negb (f =? w) then a_crash else
    n1 ← merge_next self nxt m n0;
    if m <=? n1 then trim self m;; mret (CHUNK_TO_MEM self) else
    new ← malloc (u64 (m - OVERHEAD));
    if new =? 0 then mret 0 else
    memcpy new p (u64 (n0 - OVERHEAD));;
    free (CHUNK_TO_MEM self);;
    mret new) s (reallocated s bl F p k n).
Proof using HG Hbl Hcl Hm Hmr Hnm KS.
  intros Hin. destruct run_facts as (_ & _ & HGw & _).
  destruct (block_chunk _ _ _ _ _ Hin Hbl) as (l1 & l2 & Ecs & Hbl'). rewrite Ecs in HGw.
  destruct HGw as [(Hi & HI)|(_ & Heq)]; [|by destruct l1].
  destruct (used_chunk_facts _ _ _ _ _ _ _ HI) as (Hk & _ & H1 & H2). pose proof (unit_even _ Hk) as Hev.
  destruct (hi_headers _ _ _ _ (inv_heap _ _ _ _ HI) (Chunk (p - 16) (k + 16) true)) as [Hw Hw']; [apply elem_of_app; right; left|].
  cbn [addr size inuse] in Hw, Hw'. unfold word in Hw, Hw'. cbn [size inuse] in Hw, Hw'.
  cbv zeta. unfold MEM_TO_CHUNK, IS_MMAPPED, NEXT_CHUNK, CHUNK_SIZE. change (p - OVERHEAD) with (p - 16).
  do 2 run_step. run_step; [exact Hw|]. do 3 run_step. run_step; [exact Hw|]. run_step. rewrite (mmapped_word _ true Hev). cbn [negb].
  do 3 run_step. run_step; [exact Hw|]. do 2 run_step. rewrite !(even_word (k + 16) true Hev).
  run_step. run_step; [exact Hw'|]. run_step. run_step; [exact Hw|]. rewrite Z.eqb_refl. cbn [negb].
  run_step. eapply runs_mono; [by eapply merge_next_runs|].
  intros n1 s2 (l2' & HI2 & Hn1 & Hu & Hi2). destruct Hk. eapply (realloc_rest s2 l1 l2'); try done; [congruence|lia|by rewrite Hu].
Qed.
End run.

(** [realloc] returns, with NULL and the block as it was, or with the block at its new size. *)
Lemma realloc_runs s bl F p k n : valid s ((p, k) :: bl) F -> clear F p (p + k) -> 0 <= n < 2 ^ 64 -> heap_granted s ->
  runs (realloc p n) s (reallocated s bl F p k n).
Proof using KS.
  intros HV Hcl Hn Hgr. pose proof HV as (cs & bigs & HG & Hbl). destruct (valid_blocks _ _ _ HV) as [_ Hs].
  apply Forall_cons in Hs as [(_ & _ & Hp & _) _]. cbn in Hp. unfold realloc. rewrite (proj2 (Z.eqb_neq p 0)) by lia.
  assert (Hin : (p, k) ∈ blocks cs bigs) by (rewrite <- Hbl; left).
  run_step. apply adjust_runs; [done|..].
  { intros _. cbn [Z.ltb Z.compare]. run_step. left. split; [done|]. exists k. split; [lia|].
    exists cs, bigs. split; [by apply good_errn, good_with_block|done]. }
  intros m Hm Hmr Hnm. cbn [Z.ltb Z.compare]. apply elem_of_app in Hin as [Hin|Hin].
  { eapply realloc_chunk_runs; try done; lia. }
  destruct (block_big _ _ _ _ _ Hin Hbl) as (b1 & b2 & Eb & Hbl').
  destruct (big_facts s F cs bigs HG (p - 32) (k + 32) b1 b2 Eb) as (_ & Hlm & Ha & Hlen & Hmax & Hhead).
  destruct (Hhead _ _ _ HG) as [_ Hh2]. replace (p - 32 + 16) with (p - 16) in Hh2 by lia. replace (k + 32 - 16) with (k + 16) in Hh2 by lia.
  assert (Hev : (k + 16) mod 2 = 0) by (clear -Hlm; div_lia).
  cbv zeta. unfold MEM_TO_CHUNK, IS_MMAPPED, CHUNK_SIZE. change (p - OVERHEAD) with (p - 16).
  do 2 run_step. run_step; [exact Hh2|]. do 3 run_step. run_step; [exact Hh2|]. run_step.
  pose proof (mmapped_word (k + 16) false Hev) as Hu. cbn [Z.b2z negb] in Hu. rewrite Z.add_0_r in Hu. rewrite Hu.
  rewrite (even_free _ Hev). eapply (realloc_mapped_runs s bl F p k n m cs bigs); try done; lia.
Qed.

End realloc.
