(* ===== verification/AllocClient.v ===== *)
(** * A client of the allocator

    The allocator as its callers see it: a map from the blocks held to the
    bytes asked for, and the words stored in them ([view]); [answers] is what
    each request may do to that view.  [perform] is what the code does, and
    [holds] says that a state of the code shows a view.  Each request
    refines [answers] ([perform_answers]), and so does a whole session of a
    client that asks for nothing but what it may. *)

From S2P Require Import Prelude Alloc AllocBins AllocFacts AllocInv AllocTrim AllocMapped AllocSpec AllocRealloc.

(** ** Requests *)
Inductive request : Type :=
  | Malloc (n : Z)
  | Free (p : Z)
  | Realloc (p n : Z)
  | Load (x : Z)
  | Store (x v : Z).

Definition perform `{K : Kernel} `{B : Statics} (r : request) : M Z :=
  match r with
  | Malloc n => malloc n
  | Free p => free p;; mret 0
  | Realloc p n => realloc p n
  | Load x => rd x
  | Store x v => wr x v;; mret 0
  end.

(** ** What the client sees *)
Record view : Type := View { held : gmap Z Z; words : Z -> option Z }.

Definition nothing : view := View ∅ (fun _ => None).

(** A block of [n] bytes may lie at [p]. *)
Definition room (h : gmap Z Z) (p n : Z) : Prop :=
  0 < p /\ p mod 16 = 0 /\ p + n <= 2 ^ 47 /\
  forall q m, h !! q = Some m -> apart (p, Z.max n 1) (q, Z.max m 1).

Definition cut (p n : Z) (w : Z -> option Z) : Z -> option Z :=
  fun x => if (p <=? x) && (x <? p + n) then None else w x.

(** The first [c] of the [m] bytes at [p] are now at [q]. *)
Definition carry (p m q c : Z) (w : Z -> option Z) : Z -> option Z :=
  fun x => if (q <=? x) && (x + 8 <=? q + c) then w (p + (x - q)) else cut p m w x.

Inductive answers : view -> request -> Z -> view -> Prop :=
  | malloc_null v n : answers v (Malloc n) 0 v
  | malloc_block h w n p : room h p n -> answers (View h w) (Malloc n) p (View (<[p:=n]> h) w)
  | free_null v : answers v (Free 0) 0 v
  | free_block h w p n : h !! p = Some n -> answers (View h w) (Free p) 0 (View (delete p h) (cut p n w))
  | realloc_new v n p v' : answers v (Malloc n) p v' -> answers v (Realloc 0 n) p v'
  | realloc_null v p n : answers v (Realloc p n) 0 v
  | realloc_block h w p m n q : h !! p = Some m -> room (delete p h) q n ->
      answers (View h w) (Realloc p n) q (View (<[q:=n]> (delete p h)) (carry p m q (Z.min m n) w))
  | load_word v x d : words v x = Some d -> answers v (Load x) d v
  | store_word h w x d : answers (View h w) (Store x d) 0 (View h (upd x d w)).

(** What a client may ask. *)
Definition permitted (v : view) (r : request) : Prop :=
  match r with
  | Malloc n => 0 <= n < 2 ^ 64
  | Free p => p = 0 \/ is_Some (held v !! p)
  | Realloc p n => (p = 0 \/ is_Some (held v !! p)) /\ 0 <= n < 2 ^ 64
  | Load x => is_Some (words v x)
  | Store x d => x mod 8 = 0 /\ 0 <= d < 2 ^ 64 /\ exists p n, held v !! p = Some n /\ p <= x /\ x + 8 <= p + n
  end.

(** ** States that show a view *)

(** The words stored are whole words of the blocks held. *)
Definition stored (v : view) : Prop :=
  forall x, is_Some (words v x) -> x mod 8 = 0 /\ exists p n, held v !! p = Some n /\ p <= x /\ x + 8 <= p + n.

(** The blocks, by their addresses, with the bytes they have. *)
Definition blocks_for (ks h : gmap Z Z) : Prop :=
  forall p, match h !! p, ks !! p with
            | Some n, Some k => n <= k
            | None, None => True
            | _, _ => False
            end.

Definition holds `{B : Statics} (s : state) (v : view) : Prop :=
  stored v /\ exists ks, blocks_for ks (held v) /\ valid s (map_to_list ks) (words v).

Lemma blocks_for_held ks h p n : blocks_for ks h -> h !! p = Some n -> exists k, ks !! p = Some k /\ n <= k.
Proof. intros Hb Hp. specialize (Hb p). rewrite Hp in Hb. destruct (ks !! p); [eauto|done]. Qed.

Lemma blocks_for_insert ks h p n k : blocks_for ks h -> n <= k -> blocks_for (<[p:=k]> ks) (<[p:=n]> h).
Proof.
  intros Hb Hn q. destruct (decide (p = q)) as [->|Hne]; [by rewrite !lookup_insert_eq|].
  rewrite !lookup_insert_ne by done. apply Hb.
Qed.

Lemma blocks_for_delete ks h p : blocks_for ks h -> blocks_for (delete p ks) (delete p h).
Proof.
  intros Hb q. destruct (decide (p = q)) as [->|Hne]; [by rewrite !lookup_delete_eq|].
  rewrite !lookup_delete_ne by done. apply Hb.
Qed.

(** A block may grow behind the client's back. *)
Lemma blocks_for_grow ks h p k k' : blocks_for ks h -> ks !! p = Some k -> k <= k' -> blocks_for (<[p:=k']> ks) h.
Proof.
  intros Hb Hk Hle q. specialize (Hb q). destruct (decide (p = q)) as [->|Hne]; [|by rewrite lookup_insert_ne].
  rewrite lookup_insert_eq. rewrite Hk in Hb. destruct (h !! q); [lia|done].
Qed.

Section client.
Context `{K : Kernel} `{B : Statics}.

(** ** Blocks as a map *)
Lemma valid_sane s ks F p k : valid s (map_to_list ks) F -> ks !! p = Some k -> sane_block (p, k).
Proof using.
  intros HV Hp. destruct (valid_blocks _ _ _ HV) as [_ Hs]. rewrite Forall_forall in Hs. apply Hs. by apply elem_of_map_to_list.
Qed.

Lemma valid_take s ks F p k : valid s (map_to_list ks) F -> ks !! p = Some k -> valid s ((p, k) :: map_to_list (delete p ks)) F.
Proof using. intros HV Hp. eapply valid_perm; [|exact HV]. symmetry. by apply map_to_list_delete. Qed.

Lemma valid_put s ks F p k : valid s ((p, k) :: map_to_list ks) F -> valid s (map_to_list (<[p:=k]> ks)) F.
Proof using.
  intros HV. eapply valid_perm; [|exact HV]. symmetry. apply map_to_list_insert. destruct (ks !! p) as [k'|] eqn:Hp; [exfalso|done].
  destruct (valid_blocks _ _ _ HV) as [[Hap _] Hs]. apply Forall_cons in Hs as [(_ & Hk & _) Hs]. rewrite Forall_forall in Hap, Hs.
  apply elem_of_map_to_list in Hp. destruct (Hs _ Hp) as (_ & Hk' & _). destruct (Hap _ Hp) as [H|H]; cbn in *; lia.
Qed.

Lemma valid_room s ks F p k h n : valid s ((p, k) :: map_to_list ks) F -> blocks_for ks h -> n <= k -> room h p n.
Proof using.
  intros HV Hb Hn. destruct (valid_blocks _ _ _ HV) as [[Hap _] Hs]. apply Forall_cons in Hs as [(H1 & H2 & H3 & H4) Hs].
  rewrite Forall_forall in Hap, Hs. cbn in *. split_and!; [done|done|lia|]. intros q m Hq.
  destruct (blocks_for_held _ _ _ _ Hb Hq) as (k' & Hk' & Hm). apply elem_of_map_to_list in Hk'.
  destruct (Hs _ Hk') as (_ & G & _). destruct (Hap _ Hk') as [H|H]; unfold apart in *; cbn in *; lia.
Qed.

(** A word of the client lies in one block only. *)
Lemma stored_in s v ks p k x : stored v -> blocks_for ks (held v) -> valid s ((p, k) :: map_to_list (delete p ks)) (words v) ->
  is_Some (words v x) -> p <= x < p + k -> exists n, held v !! p = Some n /\ x + 8 <= p + n.
Proof using.
  intros Hst Hb HV Hx Hxp. destruct (Hst x Hx) as (_ & q & n & Hq & H1 & H2).
  destruct (decide (q = p)) as [->|Hne]; [eauto|exfalso]. destruct (blocks_for_held _ _ _ _ Hb Hq) as (k' & Hk' & Hn).
  destruct (valid_blocks _ _ _ HV) as [[Hap _] _]. rewrite Forall_forall in Hap.
  assert (Hin : (q, k') ∈ map_to_list (delete p ks)) by (apply elem_of_map_to_list; by rewrite lookup_delete_ne).
  destruct (Hap _ Hin) as [H|H]; cbn in H; lia.
Qed.

Lemma cut_in p n w x : p <= x < p + n -> cut p n w x = None.
Proof using. intros H. unfold cut. by rewrite (proj2 (Z.leb_le p x)), (proj2 (Z.ltb_lt x (p + n))) by lia. Qed.

Lemma cut_out p n w x : ~ (p <= x < p + n) -> cut p n w x = w x.
Proof using. intros H. unfold cut. destruct (Z.leb_spec p x); [|done]. destruct (Z.ltb_spec x (p + n)); [lia|done]. Qed.

Lemma cut_sub p n w x v : cut p n w x = Some v -> w x = Some v.
Proof using. unfold cut. by destruct (_ && _). Qed.

(** Without the words of a block, none is left between its ends. *)
Lemma cut_clear s v ks p k n : stored v -> blocks_for ks (held v) -> valid s ((p, k) :: map_to_list (delete p ks)) (words v) ->
  held v !! p = Some n -> clear (cut p n (words v)) p (p + k).
Proof using.
  intros Hst Hb HV Hp x Hx. destruct (cut p n (words v) x) eqn:Hc; [exfalso|done].
  pose proof (cut_sub _ _ _ _ _ Hc) as Hw. destruct (stored_in _ _ _ _ _ x Hst Hb HV) as (n' & Hp' & Hn'); [by eexists|done|].
  rewrite Hp in Hp'. injection Hp' as <-. rewrite cut_in in Hc by lia. done.
Qed.

Lemma stored_cut v p n : stored v -> held v !! p = Some n -> stored (View (delete p (held v)) (cut p n (words v))).
Proof using.
  intros Hst Hp x Hx. cbn [held words] in *. destruct (decide (p <= x < p + n)) as [Hin|Hout]; [rewrite cut_in in Hx by done; by destruct Hx|].
  rewrite cut_out in Hx by done. destruct (Hst x Hx) as (H8 & q & m & Hq & H1 & H2). split; [done|]. exists q, m.
  split; [|done]. rewrite lookup_delete_ne; [done|]. intros <-. rewrite Hp in Hq. injection Hq as <-. lia.
Qed.

Lemma stored_insert v p n : stored v -> held v !! p = None -> stored (View (<[p:=n]> (held v)) (words v)).
Proof using.
  intros Hst Hp x Hx. destruct (Hst x Hx) as (H8 & q & m & Hq & Hqx). split; [done|]. exists q, m. cbn. split; [|done].
  rewrite lookup_insert_ne; [done|]. intros <-. by rewrite Hp in Hq.
Qed.

Lemma room_fresh h p n : room h p n -> h !! p = None.
Proof using.
  intros (_ & _ & _ & Hap). destruct (h !! p) as [m|] eqn:Hp; [exfalso|done]. destruct (Hap _ _ Hp) as [H|H]; cbn in H; lia.
Qed.

(** More words may be relied on, when they are there. *)
Lemma valid_more s bl F F' p k : valid s bl F -> (p, k) ∈ bl ->
  (forall x v, F' x = Some v -> F x = Some v \/ (p <= x < p + k /\ memory s x = Some v)) -> valid s bl F'.
Proof using.
  intros HV Hin HF. eapply valid_weaken; [by eapply valid_with_block|]. intros x v Hx.
  destruct (decide (p <= x < p + k)) as [Hp|Hp]; [rewrite with_block_in by done|rewrite with_block_out by done].
  - destruct (HF x v Hx) as [H|[_ H]]; [by eapply valid_words|done].
  - destruct (HF x v Hx) as [H|[? _]]; done.
Qed.

(** ** A store *)
Lemma valid_store s bl F p k x d : valid s bl F -> (p, k) ∈ bl -> p <= x < p + k -> x mod 8 = 0 ->
  is_Some (memory s x) /\ valid (set_memory (upd x d) s) bl (upd x d F).
Proof using.
  intros HV Hin Hx H8. set (F0 := cut x 1 F).
  assert (HV0 : valid s bl F0) by (eapply valid_weaken; [exact HV|]; intros y v; apply cut_sub).
  pose proof HV0 as (cs & bigs & HG & Hbl). assert (Hin' : (p, k) ∈ blocks cs bigs) by (by rewrite <- Hbl).
  split; [by eapply good_mapped|]. apply (valid_more _ _ F0 _ p k); [|done|].
  - exists cs, bigs. split; [|done]. apply (good_write s cs bigs F0 p k); [done|done|].
    apply changes_upd; [apply changes_refl|]. split; [done|]. unfold F0. by rewrite cut_in by lia.
  - intros y v. cbn [memory set_memory]. destruct (decide (y = x)) as [->|Hne].
    + rewrite !upd_eq. auto.
    + rewrite !upd_ne by done. intros Hy. left. unfold F0. by rewrite cut_out by lia.
Qed.

End client.

(** ** Sessions *)
Section session.
Context `{K : Kernel} `{B : Statics} `{KS : !KernelSpec K}.

Definition answered (v : view) (r : request) (a : Z) (s : state) : Prop := exists v', answers v r a v' /\ holds s v'.

Lemma perform_malloc s v n : holds s v -> 0 <= n < 2 ^ 64 -> heap_granted s -> runs (malloc n) s (answered v (Malloc n)).
Proof using KS.
  intros (Hst & ks & Hb & HV) Hn Hgr. pose proof HV as (cs & bigs & HG & Hbl). destruct v as [h w]. cbn [held words] in *.
  eapply runs_mono; [by eapply malloc_runs|]. intros p s' [(-> & cs' & HG' & Hbl')|(k & Hk & _ & HV')].
  - eexists. split; [apply malloc_null|]. split; [done|]. exists ks. split; [done|]. by exists cs', bigs.
  - pose proof (valid_room _ _ _ _ _ _ _ HV' Hb Hk) as Hr. eexists. split; [by apply malloc_block|]. split.
    + apply (stored_insert (View h w)); [done|]. by eapply room_fresh.
    + exists (<[p:=k]> ks). split; [by apply blocks_for_insert|]. by apply valid_put.
Qed.

Lemma perform_free s v p : holds s v -> p = 0 \/ is_Some (held v !! p) ->
  runs (free p;; mret 0) s (answered v (Free p)).
Proof using KS.
  intros (Hst & ks & Hb & HV) [->|[n Hp]].
  { run_step. unfold free. rewrite Z.eqb_refl. do 2 run_step. eexists. split; [apply free_null|]. split; [done|]. by exists ks. }
  destruct (blocks_for_held _ _ _ _ Hb Hp) as (k & Hk & Hnk). pose proof (valid_take _ _ _ _ _ HV Hk) as HVt.
  pose proof (cut_clear _ _ _ _ _ _ Hst Hb HVt Hp) as Hcl. run_step.
  eapply runs_mono; [apply (free_runs _ p k _ _ (valid_weaken _ _ _ _ HVt (cut_sub p n _)) Hcl)|].
  intros ? s' HV'. cbv beta in HV'. run_step. pose proof (stored_cut _ _ _ Hst Hp) as Hst'. destruct v as [h w]. cbn [held words] in *.
  eexists. split; [by apply free_block|]. split; [done|]. exists (delete p ks). split; [by apply blocks_for_delete|done].
Qed.

(** The words of the block before and after. *)
Lemma carry_words s s' h w p m k q n k' ks' : valid s' ((q, k') :: map_to_list ks') (cut p m w) -> n <= k' -> m <= k ->
  (forall x v, w x = Some v -> memory s x = Some v) -> (forall x, is_Some (w x) -> x mod 8 = 0) -> p mod 8 = 0 ->
  (forall i, 0 <= i < Z.min k n -> i mod 8 = 0 -> memory s' (q + i) = memory s (p + i)) ->
  blocks_for ks' h -> valid s' (map_to_list (<[q:=k']> ks')) (carry p m q (Z.min m n) w).
Proof using.
  intros HV Hn Hm Hw H8 Hp8 Hcopy Hb. apply valid_put. eapply (valid_more _ _ _ _ q k'); [exact HV|left|].
  intros x v. unfold carry. destruct (Z.leb_spec q x) as [Hqx|]; cbn [andb]; [|auto].
  destruct (Z.leb_spec (x + 8) (q + Z.min m n)) as [Hxq|]; [|auto]. intros Hx. right. split; [lia|].
  pose proof (H8 _ (ltac:(by eexists) : is_Some (w (p + (x - q))))) as Hx8.
  replace x with (q + (x - q)) at 1 by lia. rewrite Hcopy; [by apply Hw|lia|clear -Hx8 Hp8; div_lia].
Qed.

Lemma carry_stored v p m q n : stored v -> held v !! p = Some m -> room (delete p (held v)) q n -> (p - q) mod 8 = 0 ->
  stored (View (<[q:=n]> (delete p (held v))) (carry p m q (Z.min m n) (words v))).
Proof using.
  intros Hst Hp Hr Hpq x Hx. cbn [held words] in *. pose proof (room_fresh _ _ _ Hr) as Hq. unfold carry in Hx.
  destruct ((q <=? x) && (x + 8 <=? q + Z.min m n)) eqn:Hc.
  - apply andb_true_iff in Hc as [Hc1%Z.leb_le Hc2%Z.leb_le]. destruct (Hst _ Hx) as (H8 & _).
    split; [clear -H8 Hpq; div_lia|]. exists q, n. rewrite lookup_insert_eq. split; [done|]. lia.
  - by apply (stored_insert _ q n (stored_cut _ _ _ Hst Hp)).
Qed.

Lemma perform_realloc s v p n : holds s v -> p = 0 \/ is_Some (held v !! p) -> 0 <= n < 2 ^ 64 -> heap_granted s ->
  runs (realloc p n) s (answered v (Realloc p n)).
Proof using KS.
  intros Hh [->|[m Hp]] Hn Hgr.
  { eapply runs_mono; [by apply (perform_malloc s v n)|]. intros a s' (v' & Ha & Hv'). exists v'. split; [by apply realloc_new|done]. }
  destruct Hh as (Hst & ks & Hb & HV).
  destruct (blocks_for_held _ _ _ _ Hb Hp) as (k & Hk & Hmk). pose proof (valid_take _ _ _ _ _ HV Hk) as HVt.
  pose proof (cut_clear _ _ _ _ _ _ Hst Hb HVt Hp) as Hcl. destruct (valid_sane _ _ _ _ _ HV Hk) as (Hp16 & _ & Hp0 & _). cbn in Hp16, Hp0.
  assert (Hp8 : p mod 8 = 0) by (clear -Hp16; div_lia).
  eapply runs_mono; [apply (realloc_runs _ _ _ p k n (valid_weaken _ _ _ _ HVt (cut_sub p m _)) Hcl Hn Hgr)|].
  intros q s' [(-> & k' & Hk' & HV')|(k' & Hk' & HV' & Hcopy)].
  - exists v. split; [apply realloc_null|]. split; [done|]. exists (<[p:=k']> ks). split; [by eapply blocks_for_grow|].
    rewrite <- (insert_delete_eq ks p k'). apply valid_put. eapply valid_weaken; [exact HV'|]. intros x d Hx.
    destruct (decide (p <= x < p + k)) as [Hxp|Hxp]; [rewrite with_block_in by done; by eapply valid_words|].
    rewrite with_block_out by done. rewrite cut_out by lia. done.
  - pose proof (valid_room _ _ _ _ _ (delete p (held v)) n HV' (blocks_for_delete _ _ p Hb) Hk') as Hr.
    assert (Hpq : (p - q) mod 8 = 0) by (destruct Hr as (_ & Hq16 & _); clear -Hq16 Hp16; div_lia).
    pose proof (carry_stored _ _ _ _ _ Hst Hp Hr Hpq) as Hst'.
    destruct v as [h w]. cbn [held words] in *. eexists. split; [by apply realloc_block|]. split; [done|]. exists (<[q:=k']> (delete p ks)).
    split; [apply blocks_for_insert; [by apply blocks_for_delete|done]|].
    eapply (carry_words s s' (delete p h)); try done; [intros x d; by apply (valid_words _ _ _ x d HVt)|intros x Hx; by apply (Hst x)|by apply blocks_for_delete].
Qed.

Lemma perform_access s v r : holds s v -> permitted v r -> (exists x, r = Load x) \/ (exists x d, r = Store x d) ->
  runs (perform r) s (answered v r).
Proof using.
  intros (Hst & ks & Hb & HV) Hpm [(x & ->)|(x & d & ->)]; cbn in *.
  - destruct Hpm as [d Hd]. eapply runs_rd; [by eapply valid_words|]. exists v. split; [by apply load_word|]. split; [done|]. by exists ks.
  - destruct Hpm as (H8 & _ & p & n & Hp & H1 & H2). destruct (blocks_for_held _ _ _ _ Hb Hp) as (k & Hk & Hnk).
    destruct (valid_store s _ _ p k x d HV) as [Hmap HV']; [by apply elem_of_map_to_list|lia|done|].
    run_step. run_step; [done|]. run_step. destruct v as [h w]. cbn [held words] in *. eexists. split; [apply store_word|].
    split; [|by exists ks]. intros y. cbn [held words]. destruct (decide (y = x)) as [->|Hne]; [eauto 6|].
    rewrite upd_ne by done. apply Hst.
Qed.

Lemma perform_answers s v r : holds s v -> permitted v r -> heap_granted s -> runs (perform r) s (answered v r).
Proof using KS.
  intros Hh Hpm Hgr. destruct r as [n|p|p n|x|x d].
  - by apply perform_malloc.
  - by apply perform_free.
  - destruct Hpm. by apply perform_realloc.
  - apply perform_access; eauto.
  - apply perform_access; eauto.
Qed.

(** ** Sessions

    A client decides on its next request from the requests and answers so far. *)
Definition history : Type := list (request * Z).
Definition caller : Type := history -> option request.

(** At most [k] more requests. *)
Fixpoint session (c : caller) (k : nat) (h : history) : M history :=
  match k with
  | O => mret h
  | S k' =>
    match c h with
    | None => mret h
    | Some r => a ← perform r; session c k' (h ++ [(r, a)])
    end
  end.

(** The client's course against the specification alone. *)
Inductive course (c : caller) : history -> view -> Prop :=
  | course_nil : course c [] nothing
  | course_snoc h v r a v' : course c h v -> c h = Some r -> answers v r a v' -> course c (h ++ [(r, a)]) v'.

Lemma course_nil_inv c v : course c [] v -> v = nothing.
Proof using.
  intros H. remember [] as h eqn:Hh. destruct H as [|h v r a v' ? ? ?]; [done|]. by apply app_nil in Hh as [_ ?].
Qed.

Lemma course_snoc_inv c h r a v : course c (h ++ [(r, a)]) v -> exists v0, course c h v0 /\ c h = Some r /\ answers v0 r a v.
Proof using.
  intros H. remember (h ++ [(r, a)]) as h' eqn:Hh. destruct H as [|h0 v0 r0 a0 v' ? ? ?]; [by apply app_cons_not_nil in Hh|].
  apply app_inj_tail in Hh as [-> [= -> ->]]. eauto.
Qed.

(** A client that frees, resizes and touches nothing but what it holds. *)
Definition respectful (c : caller) : Prop :=
  forall h v r, course c h v -> c h = Some r -> permitted v r.

Lemma session_runs c k h v s : respectful c -> course c h v -> holds s v ->
  (forall j h' s', session c j h s = Ok (h', s') -> heap_granted s') ->
  runs (session c k h) s (fun h' s' => exists v', course c h' v' /\ holds s' v').
Proof using KS.
  intros Hc. revert h v s. induction k as [|k IH]; intros h v s Hh Hv Hgr; cbn [session]; [run_step; eauto|].
  destruct (c h) as [r|] eqn:Hr; [|run_step; eauto]. pose proof (Hgr O h s eq_refl) as Hg.
  pose proof (perform_answers s v r Hv (Hc _ _ _ Hh Hr) Hg) as Hp. apply runs_Ok in Hp as (a & s' & Hp & v' & Ha & Hv').
  apply runs_bind. unfold runs at 1. rewrite Hp. apply (IH _ v'); [by eapply course_snoc|done|].
  intros j h' s'' Hj. apply (Hgr (S j) h'). cbn [session]. rewrite Hr. unfold mbind, M_bind, mbind, res_bind. by rewrite Hp.
Qed.

End session.
