(* ===== verification/AllocTheorems.v ===== *)
(** * The theorems of the allocator, with a kernel to run it on *)

From S2P Require Import Prelude Alloc AllocBins AllocFacts AllocInv AllocSteps AllocBin AllocFree AllocTrim AllocGrow AllocMapped AllocSpec AllocRealloc AllocClient.

(** ** A kernel that maps above everything mapped *)
Definition next_area (ms : list (Z * Z)) (len : Z) : Z :=
  let top := foldr (fun r t => Z.max t (r.1 + r.2)) 0x100000 ms in
  let a := (top + 4095) / 4096 * 4096 in
  if a + len <=? 2 ^ 47 then a else - ENOMEM.

#[export] Instance K0 : Kernel := {|
  sys_mmap := next_area;
  sys_munmap _ _ _ := 0;
  sys_mremap ms a old len := next_area (filter (fun r => r <> (a, old)) ms) len;
  sys_madvise _ _ _ := 0;
|}.

Lemma top_above (ms : list (Z * Z)) : 0x100000 <= foldr (fun r t => Z.max t (r.1 + r.2)) 0x100000 ms /\
  forall r, r ∈ ms -> r.1 + r.2 <= foldr (fun r t => Z.max t (r.1 + r.2)) 0x100000 ms.
Proof.
  induction ms as [|q ms [IH1 IH2]]; cbn; [split; [lia|by intros r Hr%not_elem_of_nil]|]. split; [lia|].
  intros r [->|Hr]%elem_of_cons; [lia|]. specialize (IH2 r Hr). lia.
Qed.

Lemma next_area_fresh ms len : - 4096 < next_area ms len < 0 \/ fresh_range ms (next_area ms len) len.
Proof.
  unfold next_area. destruct (top_above ms) as [Ht Hm]. set (top := foldr _ _ _) in *.
  destruct (Z.leb_spec ((top + 4095) / 4096 * 4096 + len) (2 ^ 47)) as [Hl|]; [right|left; unfold ENOMEM; lia].
  split_and!; [div_lia|div_lia|done|]. apply Forall_forall. intros r Hr. right. cbn. specialize (Hm r Hr). div_lia.
Qed.

#[export] Instance K0_spec : KernelSpec K0.
Proof. split; intros; apply next_area_fresh. Qed.

#[export] Instance B0 : Statics := 0x60000.

(** The process when the runtime starts: the data segment has the bins. *)
Definition start : state := State (zero_words 0x60000 1536 (fun _ => None)) 0 0 0 0 false 0 [(0x60000, 1536)].

Lemma start_holds : holds start nothing.
Proof.
  split; [by intros x [? ?]|]. exists ∅. split; [by intros p; rewrite !lookup_empty|]. rewrite map_to_list_empty.
  exists [], []. split; [|done]. right. split; [|done]. split; [done|..].
  - split; try done.
    + split_and!; [done|unfold mal_bins, B0; lia|left].
    + intros r Hr. apply list_elem_of_singleton in Hr as ->. unfold mapping_ok. cbn. lia.
    + intros r1 r2 H1 H2. left. apply list_elem_of_singleton in H1 as ->. by apply list_elem_of_singleton in H2 as ->.
    + intros r x Hr Hx. apply list_elem_of_singleton in Hr as ->. cbn in Hx. cbn [memory start]. unfold zero_words. rewrite Hx. by eexists.
    + constructor.
    + intros r Hr. by apply not_elem_of_nil in Hr.
  - exists (fun _ => []). split; try done.
    + intros i Hi. left. split; [done|]. cbn [memory start]. unfold zero_words, bin_head, bin_tail, mal_bins, B0.
      rewrite !(proj2 (within_iff 0x60000 1536 _)); [done|..]; (split; [lia|div_lia]).
    + intros i Hi. cbn. by rewrite Z.bits_0.
    + intros; constructor.
    + intros i a Hi. split; [by intros H%not_elem_of_nil|]. intros (n & H & _). by apply not_elem_of_nil in H.
  - split; [done|]. by intros x [? ?].
Qed.

Lemma start_granted : heap_granted start.
Proof. right. by vm_compute. Qed.

(** ** The contract *)
Section theorems.
Context `{K : Kernel} `{B : Statics}.

Lemma adjusted n s : 0 <= n <= MMAP_THRESHOLD - 47 -> exists m, adjust_size n s = Ok (0, m, s) /\ unit_size m /\ m <= MMAP_THRESHOLD.
Proof using.
  intros Hn. unfold MMAP_THRESHOLD, SIZE_ALIGN in Hn. assert (H : runs (adjust_size n) s (fun r s' => exists m, r = (0, m) /\ s' = s /\ unit_size m /\ m <= MMAP_THRESHOLD)).
  { apply adjust_runs; [lia|unfold PTRDIFF_LIMIT, PTRDIFF_MAX, SIZE_ALIGN, PAGE_SIZE; lia|].
    intros m Hm Hr Hnm. exists m. unfold unit_size, MMAP_THRESHOLD, SIZE_ALIGN. split_and!; try done; lia. }
  apply runs_Ok in H as (r & s' & H & m & -> & -> & Hm). eauto.
Qed.

(** [expand_heap] after a failed [mmap] writes to the first pages. *)
Lemma expand_from_failure s m : brk s = MAP_FAILED -> brk0 s = 0 -> unit_size m -> m <= MMAP_THRESHOLD ->
  (forall x, 0 <= x < 2 ^ 18 -> memory s x = None) -> expand_heap m s = Fault.
Proof using.
  intros Hb Hb0 [Hm8 Hm] Hle Hnone. unfold MMAP_THRESHOLD, SIZE_ALIGN in Hle. unfold expand_heap.
  rewrite (bind_runs (gets brk) _ s (brk s) s eq_refl), (bind_runs (gets brk0) _ s (brk0 s) s eq_refl), Hb, Hb0.
  change (u64 (SIZE_MAX - MAP_FAILED - 2 * PAGE_SIZE)) with (2 ^ 64 - 8192). rewrite (proj2 (Z.ltb_ge _ m)) by lia.
  assert (Hw : u64 (MAP_FAILED + m + SIZE_ALIGN + PAGE_SIZE - 1) = m + 4126).
  { unfold MAP_FAILED, SIZE_ALIGN, PAGE_SIZE. change (u64 (-1)) with (2 ^ 64 - 1). unfold u64, wrap.
    replace (2 ^ 64 - 1 + m + 32 + 4096 - 1) with (m + 4126 + 1 * 2 ^ 64) by lia. rewrite Z.mod_add by lia. apply Z.mod_small. lia. }
  rewrite Hw, land_PAGE_SIZE. pose proof (Z.mod_pos_bound (m + 4126) 4096 ltac:(lia)) as Hmod.
  change (u64 (0 + BRKSIZE)) with BRKSIZE. rewrite (proj2 (Z.ltb_ge BRKSIZE _)) by (unfold BRKSIZE; lia).
  apply bind_Fault, wr_Fault, Hnone. unfold psize, MEM_TO_CHUNK, OVERHEAD. lia.
Qed.

(** C18.  Every request of a client that frees, resizes, reads and writes only
    what it holds returns, and with an answer that the specification allows:
    [malloc] and [realloc] give NULL, with every block and word as it was, or
    a block of the size asked for, aligned, apart from all others; the words
    stored stay, and [realloc] carries those of its block along.  The state
    again shows the client's view. *)
Theorem allocator_refines `{KS : !KernelSpec K} s v r : holds s v -> permitted v r -> heap_granted s ->
  exists a s' v', perform r s = Ok (a, s') /\ answers v r a v' /\ holds s' v'.
Proof using.
  intros Hh Hp Hgr. pose proof (perform_answers s v r Hh Hp Hgr) as H. apply runs_Ok in H as (a & s' & H & v' & Ha & Hv).
  by exists a, s', v'.
Qed.

(** C19.  A session of any length of such a client runs to its end without a
    fault or a crash, and its answers are those of a course of the specification;
    the state shows the client's view at its end, and so at every point. *)
Theorem allocator_session `{KS : !KernelSpec K} c k s : respectful c -> holds s nothing ->
  (forall j h s', session c j [] s = Ok (h, s') -> heap_granted s') ->
  exists h s' v, session c k [] s = Ok (h, s') /\ course c h v /\ holds s' v.
Proof using.
  intros Hc Hs Hgr. pose proof (session_runs c k [] nothing s Hc (course_nil c) Hs Hgr) as H.
  apply runs_Ok in H as (h & s' & H & v & Ha & Hv). by exists h, s', v.
Qed.

(** ** Running out of memory *)

(** C20.  Once the heap is there, a request of up to the threshold is refused
    only when no bin that surely holds a large enough chunk has one, and the
    region of 1 GB has no room to grow by the bytes it takes and a page; and
    then nothing has changed but [errn]. *)
Theorem malloc_refuses_when_full `{KS : !KernelSpec K} s v n s' : holds s v -> init s = true -> 0 <= n <= MMAP_THRESHOLD - 47 ->
  malloc n s = Ok (0, s') ->
  exists m, adjust_size n s = Ok (0, m, s) /\ Z.land (binmap s) (- Z.shiftl 1 (bin_index_up m)) = 0 /\
    brk0 s + BRKSIZE < brk s + m + SIZE_ALIGN + PAGE_SIZE /\ s' = set_errn ENOMEM s.
Proof using.
  intros (_ & ks & _ & cs & bigs & HG & _) Hin Hn Hr.
  destruct HG as [(_ & HI)|(HU & _)]; [|by rewrite (un_init _ _ _ HU) in Hin].
  destruct (adjusted n s Hn) as (m & Ham & Hu & Hle). exists m. split; [done|]. revert Hr.
  unfold malloc. rewrite (bind_runs _ _ _ _ _ Ham). cbn [Z.ltb Z.compare].
  rewrite (proj2 (Z.ltb_ge MMAP_THRESHOLD m)) by done.
  pose proof (malloc_loop_runs 3 s cs bigs _ m HI Hin Hu Hle) as Hl. apply runs_Ok in Hl as (o & s1 & Hl & Ho).
  unfold rounds. rewrite (bind_runs _ _ _ _ _ Hl).
  destruct Ho as [(-> & -> & Hfull & Hmask)|(c & l1 & l2 & k & -> & Hf)].
  - by intros [= ->].
  - pose proof (found_runs _ _ _ _ _ _ _ _ _ _ Hf Hu) as Ht. apply runs_Ok in Ht as (p & s2 & Ht & -> & _). rewrite Ht. intros [= Hc _].
    destruct (used_chunk_facts _ _ _ _ _ _ _ (fo_inv _ _ _ _ _ _ _ _ _ _ Hf)) as (_ & _ & H1 & _). apply chain_le in H1.
    destruct (inv_bounds _ _ _ _ (fo_inv _ _ _ _ _ _ _ _ _ _ Hf)). lia.
Qed.

(** When the kernel refuses the region of the heap, the first small request does not
    return NULL: [mal.brk] keeps the error value -1, the loop goes on to
    [expand_heap], and that writes a chunk's header just above address 0. *)
Theorem malloc_without_heap s v n : holds s v -> init s = false -> brk0 s = 0 -> sys_mmap (maps s) BRKSIZE < 0 ->
  (forall x, 0 <= x < 2 ^ 18 -> memory s x = None) -> 0 <= n <= MMAP_THRESHOLD - 47 ->
  malloc n s = Fault.
Proof using.
  intros (_ & ks & _ & cs & bigs & HG & _) Hin Hb0 Hmm Hnone Hn.
  destruct HG as [(Hi & _)|(HU & _)]; [by rewrite Hi in Hin|]. destruct (adjusted n s Hn) as (m & Ham & Hu & Hle).
  pose proof (bin_index_up_range m Hu Hle) as Hup. pose proof (uninit_mask s bigs _ _ HU (proj1 Hup)) as Hmask.
  unfold malloc. rewrite (bind_runs _ _ _ _ _ Ham). cbn [Z.ltb Z.compare]. rewrite (proj2 (Z.ltb_ge MMAP_THRESHOLD m)) by done.
  apply bind_Fault. unfold rounds. cbn [malloc_loop]. rewrite (bind_runs (gets binmap) _ s (binmap s) s eq_refl). rewrite Hmask. cbn [Z.eqb].
  rewrite (bind_runs (init_malloc m) _ s (-1) (set_brk MAP_FAILED (set_errn (- sys_mmap (maps s) BRKSIZE) s))).
  - cbn [Z.ltb Z.compare]. unfold grow. apply bind_Fault. by apply expand_from_failure.
  - unfold init_malloc. rewrite (bind_runs (gets init) _ s (init s) s eq_refl). rewrite Hin.
    rewrite (bind_runs (mmap BRKSIZE) _ s MAP_FAILED (set_errn (- sys_mmap (maps s) BRKSIZE) s)); [done|].
    unfold mmap. rewrite (bind_runs (gets maps) _ s (maps s) s eq_refl). by rewrite (proj2 (Z.ltb_lt _ 0)).
Qed.

(** ** What the checks of [free] and [realloc] catch *)
Definition crashes (p : Z) (s : state) : Prop :=
  free p s = Exit /\ forall n, 0 <= n < 2 ^ 62 -> realloc p n s = Exit.

Lemma adjust_small n s : 0 <= n < 2 ^ 62 -> exists m, adjust_size n s = Ok (0, m, s).
Proof using.
  intros Hn. assert (H : runs (adjust_size n) s (fun r s' => exists m, r = (0, m) /\ s' = s)).
  { apply adjust_runs; [lia|unfold PTRDIFF_LIMIT, PTRDIFF_MAX, SIZE_ALIGN, PAGE_SIZE; lia|]. intros m _ _ _. by exists m. }
  apply runs_Ok in H as (r & s' & H & m & -> & ->). eauto.
Qed.

(** A header without the mark, after one with it: a free chunk, not a mapping. *)
Lemma crash_free s p w x : p <> 0 -> memory s (p - 8) = Some w -> used w = false -> memory s (p - 16) = Some x -> used x = true ->
  crashes p s.
Proof using.
  intros Hp Hw Hu Hx Hux. unfold used, C_INUSE in Hu, Hux. apply negb_false_iff in Hu.
  assert (Hc : rd (csize (MEM_TO_CHUNK p)) s = Ok (w, s)) by (apply rd_Ok; unfold csize, MEM_TO_CHUNK, OVERHEAD; by replace (p - 16 + 8) with (p - 8) by lia).
  assert (Hs : CHUNK_SIZE (MEM_TO_CHUNK p) s = Ok (even w, s)) by (unfold CHUNK_SIZE; by rewrite (bind_runs _ _ _ _ _ Hc)).
  assert (Hm : IS_MMAPPED (MEM_TO_CHUNK p) s = Ok (true, s)) by (unfold IS_MMAPPED; rewrite (bind_runs _ _ _ _ _ Hc); by unfold C_INUSE; rewrite Hu).
  assert (Hr : rd (psize (MEM_TO_CHUNK p)) s = Ok (x, s)) by (by apply rd_Ok). split.
  - unfold free. rewrite (proj2 (Z.eqb_neq p 0)) by done. rewrite (bind_runs _ _ _ _ _ Hm), (bind_runs _ _ _ _ _ Hr), (bind_runs _ _ _ _ _ Hs).
    by rewrite Hux.
  - intros n Hn. unfold realloc. rewrite (proj2 (Z.eqb_neq p 0)) by done. destruct (adjust_small n s Hn) as (m & Ha).
    rewrite (bind_runs _ _ _ _ _ Ha). cbn [Z.ltb Z.compare]. rewrite (bind_runs _ _ _ _ _ Hs), (bind_runs _ _ _ _ _ Hm).
    unfold realloc_mapped. rewrite (bind_runs _ _ _ _ _ Hr). by rewrite Hux.
Qed.

(** A header that its copy in the next chunk does not match. *)
Lemma crash_footer s p w f : p <> 0 -> memory s (p - 8) = Some w -> used w = true -> memory s (p - 16 + even w) = Some f -> f <> w ->
  crashes p s.
Proof using.
  intros Hp Hw Hu Hf Hne. unfold used, C_INUSE in Hu. apply negb_true_iff in Hu.
  assert (Hc : rd (csize (MEM_TO_CHUNK p)) s = Ok (w, s)) by (apply rd_Ok; unfold csize, MEM_TO_CHUNK, OVERHEAD; by replace (p - 16 + 8) with (p - 8) by lia).
  assert (Hs : CHUNK_SIZE (MEM_TO_CHUNK p) s = Ok (even w, s)) by (unfold CHUNK_SIZE; by rewrite (bind_runs _ _ _ _ _ Hc)).
  assert (Hm : IS_MMAPPED (MEM_TO_CHUNK p) s = Ok (false, s)) by (unfold IS_MMAPPED; rewrite (bind_runs _ _ _ _ _ Hc); by unfold C_INUSE; rewrite Hu).
  assert (Hx : NEXT_CHUNK (MEM_TO_CHUNK p) s = Ok (p - 16 + even w, s)) by (unfold NEXT_CHUNK; by rewrite (bind_runs _ _ _ _ _ Hs)).
  assert (Hr : rd (psize (p - 16 + even w)) s = Ok (f, s)) by (by apply rd_Ok). split.
  - unfold free. rewrite (proj2 (Z.eqb_neq p 0)) by done.
    rewrite (bind_runs _ _ _ _ _ Hm), (bind_runs _ _ _ _ _ Hs), (bind_runs _ _ _ _ _ Hx), (bind_runs _ _ _ _ _ Hr), (bind_runs _ _ _ _ _ Hc).
    by rewrite (proj2 (Z.eqb_neq f w)).
  - intros n Hn. unfold realloc. rewrite (proj2 (Z.eqb_neq p 0)) by done. destruct (adjust_small n s Hn) as (m & Ha).
    rewrite (bind_runs _ _ _ _ _ Ha). cbn [Z.ltb Z.compare].
    rewrite (bind_runs _ _ _ _ _ Hs), (bind_runs _ _ _ _ _ Hm), (bind_runs _ _ _ _ _ Hx), (bind_runs _ _ _ _ _ Hr), (bind_runs _ _ _ _ _ Hc).
    by rewrite (proj2 (Z.eqb_neq f w)).
Qed.

(** The chunk of a block whose header has the mark. *)
Lemma heap_block s v p n w : holds s v -> held v !! p = Some n -> memory s (p - 8) = Some w -> used w = true ->
  exists k bigs l1 l2, w = k + 1 /\ unit_size k /\ n + 16 <= k /\ 16 < p /\ inv s (l1 ++ Chunk (p - 16) k true :: l2) bigs (words v).
Proof using.
  intros (Hst & ks & Hb & HV) Hp Hw Hu. destruct (blocks_for_held _ _ _ _ Hb Hp) as (k & Hk & Hnk).
  pose proof (valid_take _ _ _ _ _ HV Hk) as (cs & bigs & HG & Hbl). assert (Hin : (p, k) ∈ blocks cs bigs) by (rewrite <- Hbl; left).
  apply elem_of_app in Hin as [Hin|Hin].
  - destruct (block_chunk _ _ _ _ _ Hin Hbl) as (l1 & l2 & -> & _). destruct HG as [(_ & HI)|(_ & Heq)]; [|by destruct l1].
    destruct (used_chunk_facts _ _ _ _ _ _ _ HI) as (Hu2 & _ & H1 & _). apply chain_le in H1. destruct (inv_bounds _ _ _ _ HI).
    exists (k + 16), bigs, l1, l2. split_and!; try done; try lia.
    destruct (hi_headers _ _ _ _ (inv_heap _ _ _ _ HI) (Chunk (p - 16) (k + 16) true)) as [Hh _]; [apply elem_of_app; right; left|].
    unfold csize in Hh. cbn [addr] in Hh. replace (p - 16 + 8) with (p - 8) in Hh by lia. rewrite Hw in Hh. by injection Hh.
  - destruct (block_big _ _ _ _ _ Hin Hbl) as (b1 & b2 & -> & _). pose proof (good_maps _ _ _ _ HG) as Hm.
    destruct (mi_bigs _ _ _ Hm (p - 32, k + 32)) as (_ & _ & Hl & _ & Hcs); [apply elem_of_app; right; left|]. cbn [fst snd] in *.
    unfold csize in Hcs. replace (p - 32 + 16 + 8) with (p - 8) in Hcs by lia. rewrite Hw in Hcs. injection Hcs as ->.
    assert (Hev : (k + 32 - 16) mod 2 = 0) by (clear -Hl; div_lia).
    pose proof (used_word _ false Hev) as Hf. cbn [Z.b2z] in Hf. rewrite Z.add_0_r in Hf. congruence.
Qed.

(** After a chunk in use no free one ends. *)
Lemma left_used_free b l pre a : chain b (l ++ pre) a -> all_free pre -> used (left_word (l ++ pre)) = true -> pre = [].
Proof using.
  intros Hch Hpre Hu. destruct pre as [|c pre _] using rev_ind; [done|exfalso]. apply Forall_app in Hpre as [_ Hc].
  apply Forall_cons in Hc as [Hc _]. rewrite app_assoc in Hch, Hu. unfold left_word in Hu. rewrite last_snoc in Hu. cbn in Hu.
  assert (Hin : c ∈ (l ++ pre) ++ [c]) by (apply elem_of_app; right; left). destruct (chain_in _ _ _ _ Hch Hin) as (_ & _ & Hs & _).
  rewrite word_used in Hu by done. congruence.
Qed.

(** C21.  A block of the heap whose neighbour before is in use cannot be freed
    twice, nor resized once it is free: the second call crashes at once, by
    design. *)
Theorem free_twice_crashes `{KS : !KernelSpec K} s v p n w x : holds s v -> held v !! p = Some n ->
  memory s (p - 8) = Some w -> used w = true -> memory s (p - 16) = Some x -> used x = true ->
  exists s', free p s = Ok (tt, s') /\ crashes p s'.
Proof using.
  intros Hh Hp Hw Hu Hx Hux. destruct (heap_block _ _ _ _ _ Hh Hp Hw Hu) as (k & bigs & l1 & l2 & -> & Hk & Hnk & Hp16 & HI).
  assert (HI0 : inv s (l1 ++ Chunk (p - 16) k true :: l2) bigs (fun _ => None)).
  { destruct HI as [H1 H2 H3 H4 _]. split; try done; split; try done; by intros y [? ?]. }
  destruct (used_chunk_facts _ _ _ _ _ _ _ HI0) as (_ & _ & H1 & _).
  pose proof (free_chunk_runs s bigs _ l1 l2 (p - 16) k HI0 ltac:(done)) as Hf. unfold CHUNK_TO_MEM, OVERHEAD in Hf.
  replace (p - 16 + 16) with p in Hf by lia. apply runs_Ok in Hf as ([] & s' & Hf & l1' & pre & post & l2' & a & z & -> & -> & Hpre & _ & HI' & Hs).
  exists s'. split; [done|]. pose proof (left_header _ _ _ _ _ _ HI0 H1) as Hl. unfold psize in Hl. rewrite Hx in Hl. injection Hl as ->.
  destruct (free_chunk_facts _ _ _ _ _ _ _ HI') as (Hz & _ & H1' & _). pose proof (unit_even _ Hz) as Hev.
  pose proof (left_used_free _ _ _ _ H1 Hpre Hux) as ->.
  rewrite app_nil_r in *. assert (Hb0 : brk0 s' = brk0 s) by apply Hs. rewrite Hb0 in H1'. pose proof (chain_unique _ _ _ _ H1' H1) as ->.
  destruct (hi_headers _ _ _ _ (inv_heap _ _ _ _ HI') (Chunk (p - 16) z false)) as [Hcz _]; [apply elem_of_app; right; left|].
  unfold csize, word in Hcz. cbn [addr size inuse Z.b2z] in Hcz. replace (p - 16 + 8) with (p - 8) in Hcz by lia.
  apply (crash_free s' p (z + 0) (left_word l1')); [lia|exact Hcz|by apply (used_word z false)| |done].
  rewrite <- Hb0 in H1'. by apply (left_header _ _ _ _ _ _ HI' H1').
Qed.

(** C22.  Overwriting the word after a block of the heap is found out when
    the block is freed or resized, before anything is changed. *)
Theorem overrun_crashes s v p n w d : holds s v -> held v !! p = Some n -> memory s (p - 8) = Some w -> used w = true -> d <> w ->
  p + n <= p - 16 + even w /\ crashes p (set_memory (upd (p - 16 + even w) d) s).
Proof using.
  intros Hh Hp Hw Hu Hd. destruct (heap_block _ _ _ _ _ Hh Hp Hw Hu) as (k & bigs & l1 & l2 & -> & Hk & Hnk & Hp16 & _).
  pose proof (even_word k true (unit_even _ Hk)) as He. cbn [Z.b2z] in He. destruct Hk as [_ Hk]. split; [lia|].
  apply (crash_footer _ _ (k + 1) d); [lia| |done| |done]; cbn [memory set_memory]; [by rewrite upd_ne by lia|by rewrite upd_eq].
Qed.

End theorems.

(** ** The theorems on the kernel above *)

(** A client that asks for 100 bytes, stores a word in them, resizes them and
    reads the word back. *)
Definition client : caller := fun h =>
  match h with
  | [] => Some (Malloc 100)
  | [(Malloc _, p)] => if p =? 0 then None else Some (Store p 7)
  | [(Malloc _, p); _] => Some (Realloc p 300000)
  | [(Malloc _, p); _; (Realloc _ _, q)] => if q =? 0 then None else Some (Load q)
  | _ => None
  end.

(** What it holds and has stored, along its course. *)
Lemma client_first r p v : course client [(r, p)] v -> p <> 0 -> held v !! p = Some 100 /\ p mod 16 = 0.
Proof.
  intros H Hp. apply (course_snoc_inv client []) in H as (v0 & H0 & [= <-] & Ha). apply course_nil_inv in H0 as ->.
  inversion Ha as [|h w n q Hr| | | | | | |]; subst; [done|]. cbn. rewrite lookup_insert_eq. split; [done|]. by destruct Hr as (_ & ? & _).
Qed.

Lemma client_second n p x v : course client [(Malloc n, p); x] v -> p <> 0 /\ held v !! p = Some 100 /\ words v p = Some 7.
Proof.
  destruct x as [r a]. intros H. apply (course_snoc_inv client [(Malloc n, p)]) in H as (v0 & H0 & Hr & Ha). cbn in Hr.
  destruct (Z.eqb_spec p 0) as [|Hp]; [done|]. injection Hr as <-. destruct (client_first _ _ _ H0 Hp) as [H1 _].
  inversion Ha; subst. cbn in *. by rewrite upd_eq.
Qed.

Lemma client_third n p x p' m q v : course client [(Malloc n, p); x; (Realloc p' m, q)] v -> q <> 0 -> words v q = Some 7.
Proof.
  intros H Hq. apply (course_snoc_inv client [(Malloc n, p); x]) in H as (v0 & H0 & [= <- <-] & Ha).
  destruct (client_second _ _ _ _ H0) as (Hp & H1 & H3). inversion Ha as [| | | |? ? ? ? Hn| |h w p0 k n0 q0 Hk Hr| |]; subst; cbn in *; [done..|].
  rewrite H1 in Hk. injection Hk as <-. unfold carry. rewrite Z.leb_refl, (proj2 (Z.leb_le (q + 8) _)) by lia. cbn [andb].
  by replace (p + (q - q)) with p by lia.
Qed.

Lemma client_respectful : respectful client.
Proof.
  intros h v r Hc. destruct h as [|[[n| | | |] p] [|x [|[[| |p' m| |] q] [|]]]]; cbn [client]; try done.
  - intros [= <-]. cbn. lia.
  - destruct (Z.eqb_spec p 0) as [|Hp]; [done|]. intros [= <-]. destruct (client_first _ _ _ Hc Hp) as [H1 H2]. cbn.
    split; [div_lia|]. split; [lia|]. exists p, 100. split; [done|]. lia.
  - intros [= <-]. destruct (client_second _ _ _ _ Hc) as (_ & H1 & _). cbn. split; [right; by eexists|lia].
  - destruct (Z.eqb_spec q 0) as [|Hq]; [done|]. intros [= <-]. cbn. rewrite (client_third _ _ _ _ _ _ _ Hc Hq). by eexists.
Qed.

(** The kernel grants the heap at its first request. *)
Lemma client_granted j h s : session client j [] start = Ok (h, s) -> heap_granted s.
Proof.
  intros H. assert (Hb : match session client j [] start with Ok (_, s) => init s || (0 <=? sys_mmap (maps s) BRKSIZE) | _ => true end = true).
  { clear. do 5 (destruct j as [|j]; [by vm_compute|]). by vm_compute. }
  rewrite H in Hb. apply orb_true_iff in Hb as [Hb|Hb]; [by left|right; by apply Z.leb_le].
Qed.

Lemma allocator_session_witness :
  exists h s v, session client 4 [] start = Ok (h, s) /\ course client h v /\ holds s v.
Proof. apply (allocator_session client 4 start client_respectful start_holds client_granted). Defined.

Lemma allocator_refines_witness :
  exists a s v, perform (Malloc 100) start = Ok (a, s) /\ answers nothing (Malloc 100) a v /\ holds s v.
Proof. apply (allocator_refines start nothing (Malloc 100)); [apply start_holds|cbn; lia|apply start_granted]. Defined.

(** A block of 100 bytes. *)
Definition one_block : view := View {[1048608 := 100]} (fun _ => None).
Definition after_malloc : state := match malloc 100 start with Ok (_, s) => s | _ => start end.

Lemma after_malloc_run : malloc 100 start = Ok (1048608, after_malloc).
Proof.
  assert (Hp : match malloc 100 start with Ok (p, _) => p =? 1048608 | _ => false end = true) by (by vm_compute).
  unfold after_malloc. destruct (malloc 100 start) as [[p s]| | |]; [|done..]. by apply Z.eqb_eq in Hp as ->.
Qed.

Lemma after_malloc_holds : holds after_malloc one_block.
Proof.
  pose proof (perform_malloc start nothing 100 start_holds ltac:(lia) start_granted) as H.
  apply (runs_at _ _ _ _ _ after_malloc_run) in H as (v & Ha & Hv). by inversion Ha; subst.
Qed.

Lemma free_twice_crashes_witness : exists s, free 1048608 after_malloc = Ok (tt, s) /\ crashes 1048608 s.
Proof.
  apply (free_twice_crashes after_malloc one_block 1048608 100 129 1); [apply after_malloc_holds|reflexivity|by vm_compute..].
Defined.

Lemma overrun_crashes_witness : 1048708 <= 1048720 /\ crashes 1048608 (set_memory (upd 1048720 0x4141) after_malloc).
Proof.
  apply (overrun_crashes after_malloc one_block 1048608 100 129 0x4141); [apply after_malloc_holds|reflexivity|by vm_compute..|done].
Defined.

(** A kernel that has no memory to give. *)
Definition no_memory : Kernel := {|
  sys_mmap _ _ := - ENOMEM; sys_munmap _ _ _ := 0; sys_mremap _ _ _ _ := - ENOMEM; sys_madvise _ _ _ := 0 |}.

Lemma malloc_without_heap_witness : malloc (K := no_memory) 100 start = Fault.
Proof.
  apply (malloc_without_heap (K := no_memory) start nothing 100); [apply start_holds|reflexivity|reflexivity|by vm_compute| |].
  - intros x Hx. cbn [memory start]. unfold zero_words. destruct (within 0x60000 1536 x) eqn:Hw; [|done].
    apply within_iff in Hw. lia.
  - unfold MMAP_THRESHOLD, SIZE_ALIGN. lia.
Defined.

(** A heap whose 1 GB is one block. *)
Definition full_memory : Z -> option Z :=
  upd 0x100010 1 (upd 0x100018 0x3fffffe1 (upd 0x400ffff0 0x3fffffe1 (upd 0x400ffff8 1
    (zero_words 0x100000 BRKSIZE (zero_words 0x60000 1536 (fun _ => None)))))).
Definition full : state := State full_memory 0x40100000 0x100010 0 0x100000 true 0 [(0x100000, BRKSIZE); (0x60000, 1536)].
Definition full_block : view := View {[0x100020 := 0x3fffffd0]} (fun _ => None).

Lemma full_zero x : 0x60000 <= x < 0x60000 + 1536 -> x mod 8 = 0 -> full_memory x = Some 0.
Proof.
  intros Hx H8. unfold full_memory. rewrite !upd_ne by lia. unfold zero_words at 1. destruct (within _ _ _); [done|].
  unfold zero_words. by rewrite (proj2 (within_iff 0x60000 1536 x)).
Qed.

Lemma full_maps : maps_inv full_memory (maps full) [].
Proof.
  unfold full, BRKSIZE. cbn [maps]. split.
  - split_and!; [done|unfold mal_bins, B0; lia|right; left].
  - repeat (intros r [->|Hr]%elem_of_cons; [unfold mapping_ok; cbn; lia|revert r Hr]). by intros r Hr%not_elem_of_nil.
  - intros r1 r2 [->|[->|H1%not_elem_of_nil]%elem_of_cons]%elem_of_cons [->|[->|H2%not_elem_of_nil]%elem_of_cons]%elem_of_cons;
      try done; unfold apart; cbn; auto; right; lia.
  - intros r x Hr Hx. unfold full_memory. do 4 apply upd_mapped. unfold zero_words, BRKSIZE.
    apply elem_of_cons in Hr as [->|[->|Hr%not_elem_of_nil]%elem_of_cons]; [cbn in Hx; by rewrite Hx; eexists| |done].
    destruct (within 0x100000 _ x); [by eexists|]. cbn in Hx. rewrite Hx. by eexists.
  - constructor.
  - by intros r Hr%not_elem_of_nil.
Qed.

Lemma full_inv : inv full [Chunk 0x100010 0x3fffffe0 true] [] (fun _ => None).
Proof.
  split.
  - apply full_maps.
  - split; [done|unfold BRKSIZE; cbn; split; [done|lia]|left|by intros Hr%not_elem_of_nil].
  - split; [by cbn|by vm_compute|by vm_compute| |by cbn].
    intros c Hc. apply list_elem_of_singleton in Hc as ->. by vm_compute.
  - exists (fun _ => []). split; try done.
    + intros i Hi. left. split; [done|]. unfold bin_head, bin_tail, mal_bins, B0.
      split; apply full_zero; try lia; div_lia.
    + intros i Hi. cbn. by rewrite Z.bits_0.
    + intros; constructor.
    + intros i a Hi. split; [by intros H%not_elem_of_nil|]. intros (n & H & _). by apply list_elem_of_singleton in H.
  - split; [done|]. by intros x [? ?].
Qed.

Lemma full_holds : holds full full_block.
Proof.
  split; [by intros x [? ?]|]. exists {[0x100020 := 0x3fffffd0]}. split.
  - intros p. cbn [held full_block]. by destruct (_ !! p).
  - rewrite map_to_list_singleton. exists [Chunk 0x100010 0x3fffffe0 true], []. split; [|done].
    left. split; [done|apply full_inv].
Qed.

Lemma full_run : malloc 100 full = Ok (0, set_errn ENOMEM full).
Proof. unfold full. generalize full_memory. intros m. by vm_compute. Qed.

Lemma malloc_refuses_when_full_witness :
  exists m, adjust_size 100 full = Ok (0, m, full) /\ Z.land (binmap full) (- Z.shiftl 1 (bin_index_up m)) = 0 /\
    brk0 full + BRKSIZE < brk full + m + SIZE_ALIGN + PAGE_SIZE /\ set_errn ENOMEM full = set_errn ENOMEM full.
Proof.
  apply (malloc_refuses_when_full full full_block 100); [apply full_holds|reflexivity|unfold MMAP_THRESHOLD, SIZE_ALIGN; lia|apply full_run].
Defined.
