(* ===== verification/Pager.v ===== *)
(** * The memory map of the sandbox ([runtime/src/pager.c], [pager.h])

    A [Vmmap] is an array of pointers to regions.  The first [nvalid]
    slots are in use; the others are NULL or uninitialised ([None]).
    Each slot points to a region of its own, so a region is modelled by
    its value in its slot.  Page numbers are 64-bit unsigned integers.

    Parameters: [Qsort] (the sort of [utils.c], through its interface) and
    [mem], which says whether the allocator has memory left (when it is
    [false], each [malloc] and [realloc] of the call fails).  The printing
    routines [VmentryPrint] and [VmmapDebug] are left out. *)

From S2P Require Import Prelude Utils.

(** ** Data *)
Inductive VmmapEntryType : Type := VMMAP_ENTRY_ANONYMOUS | VMMAP_ENTRY_MAPPED.

Record VmmapEntry : Type := mkEntry {
  page_num : Z;
  npages : Z;
  prot : Z;
  max_prot : Z;
  vmmap_type : VmmapEntryType;
  removed : bool;
}.

Record Vmmap : Type := mkVmmap {
  vmentry : list (option VmmapEntry);
  nvalid : nat;
  size : nat;
  is_sorted : bool;
}.

Record VmmapIter : Type := mkIter { iter_vmmap : Vmmap; entry_ix : nat }.

#[export] Instance VmmapEntryType_eq_dec : EqDecision VmmapEntryType.
Proof. solve_decision. Defined.
#[export] Instance VmmapEntry_eq_dec : EqDecision VmmapEntry.
Proof. solve_decision. Defined.
#[export] Instance Vmmap_eq_dec : EqDecision Vmmap.
Proof. solve_decision. Defined.

(** Assignments to the fields of a region. *)
Definition set_page_num (e : VmmapEntry) (x : Z) : VmmapEntry :=
  mkEntry x (npages e) (prot e) (max_prot e) (vmmap_type e) (removed e).
Definition set_npages (e : VmmapEntry) (x : Z) : VmmapEntry :=
  mkEntry (page_num e) x (prot e) (max_prot e) (vmmap_type e) (removed e).
Definition set_prot (e : VmmapEntry) (x : Z) : VmmapEntry :=
  mkEntry (page_num e) (npages e) x (max_prot e) (vmmap_type e) (removed e).
Definition set_removed (e : VmmapEntry) : VmmapEntry :=
  mkEntry (page_num e) (npages e) (prot e) (max_prot e) (vmmap_type e) true.

Definition set_vmentry (self : Vmmap) (arr : list (option VmmapEntry)) : Vmmap :=
  mkVmmap arr (nvalid self) (size self) (is_sorted self).

(** [self->vmentry[i]->... = ...] through the pointer in slot [i]. *)
Definition write_slot (self : Vmmap) (i : nat) (e : VmmapEntry) : res Vmmap :=
  arr ← store (vmentry self) i (Some e); Ok (set_vmentry self arr).

Definition START_ENTRIES : nat := 2.

Section Pager.
Context `{Q : Qsort} (mem : bool).

(** ** Construction *)
Definition VmmapEntryMake (page_num npages prot max_prot : Z) (vmmap_type : VmmapEntryType)
    : option VmmapEntry :=
  if mem then Some (mkEntry page_num npages prot max_prot vmmap_type false) else None.

Definition VmmapCtor : option Vmmap :=
  if mem then Some (mkVmmap (replicate START_ENTRIES None) 0 START_ENTRIES true) else None.

(** ** Removing marked entries *)

(** [for (last = nvalid; last > 0 && vmentry[--last]->removed; )] *)
Fixpoint remove_tail (last : nat) (arr : list (option VmmapEntry))
    : res (nat * list (option VmmapEntry)) :=
  match last with
  | O => Ok (O, arr)
  | S last' =>
    e ← deref (arr !! last');
    if removed e then
      arr ← store arr last' None;
      remove_tail last' arr
    else Ok (last', arr)
  end.

(** [while (--last > i && vmentry[last]->removed)]; returns the new [last]. *)
Fixpoint retreat (i last : nat) (arr : list (option VmmapEntry))
    : res (nat * list (option VmmapEntry)) :=
  match last with
  | O => Fault
  | S last' =>
    if (i <? last')%nat then
      e ← deref (arr !! last');
      if removed e then
        arr ← store arr last' None;
        retreat i last' arr
      else Ok (last', arr)
    else Ok (last', arr)
  end.

(** [for (i = 0; i < last; ++i)]: move entries from the end into the holes. *)
Fixpoint fill_holes (fuel i last : nat) (arr : list (option VmmapEntry))
    : res (nat * list (option VmmapEntry)) :=
  match fuel with
  | O => NoFuel
  | S fuel' =>
    if (i <? last)%nat then
      e ← deref (arr !! i);
      if negb (removed e) then fill_holes fuel' (S i) last arr
      else
        moved ← fetch arr last;
        arr ← store arr i moved;
        arr ← store arr last None;
        '(last, arr) ← retreat i last arr;
        fill_holes fuel' (S i) last arr
    else Ok (last, arr)
  end.

Definition VmmapRemoveMarked (self : Vmmap) : res Vmmap :=
  if (nvalid self =? 0)%nat then Ok self
  else
    '(last, arr) ← remove_tail (nvalid self) (vmentry self);
    _ ← (if (last =? 0)%nat then e ← deref (arr !! O); if removed e then Exit else Ok tt
         else Ok tt);
    _ ← CHECK (last <? nvalid self)%nat;
    e ← deref (arr !! last);
    _ ← CHECK (negb (removed e));
    '(last, arr) ← fill_holes (S last) 0 last arr;
    Ok (mkVmmap arr (S last) (size self) false).

(** ** Sorting *)
Definition VmmapCmpEntries (left right : VmmapEntry) : Z :=
  if page_num left <? page_num right then -1
  else if page_num left =? page_num right then 0
  else 1.

(** [qsort] permutes the first [nvalid] slots. *)
Definition sort_slots (arr : list (option VmmapEntry)) (n : nat)
    : res (list (option VmmapEntry)) :=
  es ← derefs (take n arr);
  es ← qsort VmmapCmpEntries es;
  Ok ((Some <$> es) ++ drop n arr).

Definition VmmapMakeSorted (self : Vmmap) : res Vmmap :=
  if is_sorted self then Ok self
  else
    self ← VmmapRemoveMarked self;
    arr ← sort_slots (vmentry self) (nvalid self);
    Ok (mkVmmap arr (nvalid self) (size self) true).

(** ** Adding a region *)
Definition VmmapAdd (self : Vmmap) (page_num npages prot max_prot : Z)
    (vmmap_type : VmmapEntryType) : res Vmmap :=
  self ← (if (nvalid self =? size self)%nat then
            if mem then
              Ok (mkVmmap (vmentry self ++ replicate (size self) None) (nvalid self)
                    (2 * size self) (is_sorted self))
            else Exit
          else Ok self);
  let entry := VmmapEntryMake page_num npages prot max_prot vmmap_type in
  arr ← store (vmentry self) (nvalid self) entry;
  Ok (mkVmmap arr (S (nvalid self)) (size self) false).

(** ** Updating the map *)

(** The loop of [VmmapUpdate]; [self->nvalid] is read again at each turn. *)
Fixpoint VmmapUpdate_loop (fuel i : nat) (self : Vmmap) (pnum new_region_end_page : Z)
    : res Vmmap :=
  match fuel with
  | O => NoFuel
  | S fuel' =>
    if (i <? nvalid self)%nat then
      ent ← deref (vmentry self !! i);
      let ent_end_page := u64 (page_num ent + npages ent) in
      if (page_num ent <? pnum) && (new_region_end_page <? ent_end_page) then
        self ← VmmapAdd self new_region_end_page (u64 (ent_end_page - new_region_end_page))
                 (prot ent) (max_prot ent) (vmmap_type ent);
        write_slot self i (set_npages ent (u64 (pnum - page_num ent)))
      else if (page_num ent <? pnum) && (pnum <? ent_end_page) then
        self ← write_slot self i (set_npages ent (u64 (pnum - page_num ent)));
        VmmapUpdate_loop fuel' (S i) self pnum new_region_end_page
      else if (page_num ent <? new_region_end_page) && (new_region_end_page <? ent_end_page) then
        write_slot self i
          (set_npages (set_page_num ent new_region_end_page)
             (u64 (ent_end_page - new_region_end_page)))
      else if (pnum <=? page_num ent) && (ent_end_page <=? new_region_end_page) then
        self ← write_slot self i (set_removed ent);
        VmmapUpdate_loop fuel' (S i) self pnum new_region_end_page
      else
        _ ← CHECK ((new_region_end_page <=? page_num ent) || (ent_end_page <=? pnum));
        VmmapUpdate_loop fuel' (S i) self pnum new_region_end_page
    else Ok self
  end.

Definition VmmapUpdate (self : Vmmap) (pnum np pr maxpr : Z) (ty : VmmapEntryType)
    (remove : bool) : res Vmmap :=
  let new_region_end_page := u64 (pnum + np) in
  self ← VmmapMakeSorted self;
  _ ← CHECK (0 <? np);
  self ← VmmapUpdate_loop (S (nvalid self)) 0 self pnum new_region_end_page;
  self ← (if remove then Ok self else VmmapAdd self pnum np pr maxpr ty);
  VmmapRemoveMarked self.

Definition VmmapAddWithOverwrite (self : Vmmap) (pnum np pr maxpr : Z) (ty : VmmapEntryType)
    : res Vmmap :=
  VmmapUpdate self pnum np pr maxpr ty false.

Definition VmmapRemove (self : Vmmap) (pnum np : Z) (ty : VmmapEntryType) : res Vmmap :=
  VmmapUpdate self pnum np 0 0 ty true.

(** ** Checking and changing protections *)
Fixpoint check_loop (fuel i : nat) (self : Vmmap) (pnum region_end_page pr : Z) : res bool :=
  match fuel with
  | O => NoFuel
  | S fuel' =>
    if (i <? nvalid self)%nat then
      ent ← deref (vmentry self !! i);
      let ent_end_page := u64 (page_num ent + npages ent) in
      let allowed := Z.land pr (Z.lnot (max_prot ent)) =? 0 in
      if (page_num ent <=? pnum) && (region_end_page <=? ent_end_page) then Ok allowed
      else if (page_num ent <=? pnum) && (pnum <? ent_end_page) then
        if negb allowed then Ok false
        else check_loop fuel' (S i) self ent_end_page region_end_page pr
      else if pnum <? page_num ent then Ok false
      else check_loop fuel' (S i) self pnum region_end_page pr
    else Ok false
  end.

Definition VmmapCheckExistingMapping (self : Vmmap) (pnum np pr : Z) : res (Vmmap * bool) :=
  let region_end_page := u64 (pnum + np) in
  if (nvalid self =? 0)%nat then Ok (self, false)
  else
    self ← VmmapMakeSorted self;
    r ← check_loop (S (nvalid self)) 0 self pnum region_end_page pr;
    Ok (self, r).

(** The loop of [VmmapChangeProt]; its bound [nval] is read once. *)
Fixpoint ChangeProt_loop (fuel i nval : nat) (self : Vmmap)
    (pnum np new_region_end_page pr : Z) : res Vmmap :=
  match fuel with
  | O => NoFuel
  | S fuel' =>
    if (i <? nval)%nat && (0 <? np) then
      ent ← deref (vmentry self !! i);
      let ent_end_page := u64 (page_num ent + npages ent) in
      if (page_num ent <? pnum) && (new_region_end_page <? ent_end_page) then
        self ← VmmapAdd self new_region_end_page (u64 (ent_end_page - new_region_end_page))
                 (prot ent) (max_prot ent) (vmmap_type ent);
        self ← write_slot self i (set_npages ent (u64 (pnum - page_num ent)));
        VmmapAdd self pnum np pr (max_prot ent) (vmmap_type ent)
      else if (page_num ent <? pnum) && (pnum <? ent_end_page) then
        self ← write_slot self i (set_npages ent (u64 (pnum - page_num ent)));
        self ← VmmapAdd self pnum (u64 (ent_end_page - pnum)) pr (max_prot ent) (vmmap_type ent);
        ChangeProt_loop fuel' (S i) nval self ent_end_page
          (u64 (new_region_end_page - ent_end_page)) new_region_end_page pr
      else if (page_num ent <? new_region_end_page) && (new_region_end_page <? ent_end_page) then
        self ← VmmapAdd self pnum np pr (max_prot ent) (vmmap_type ent);
        write_slot self i
          (set_npages (set_page_num ent new_region_end_page)
             (u64 (ent_end_page - new_region_end_page)))
      else if (pnum <=? page_num ent) && (ent_end_page <=? new_region_end_page) then
        self ← write_slot self i (set_prot ent pr);
        ChangeProt_loop fuel' (S i) nval self ent_end_page
          (u64 (new_region_end_page - ent_end_page)) new_region_end_page pr
      else
        _ ← CHECK ((new_region_end_page <=? page_num ent) || (ent_end_page <=? pnum));
        ChangeProt_loop fuel' (S i) nval self pnum np new_region_end_page pr
    else Ok self
  end.

Definition VmmapChangeProt (self : Vmmap) (pnum np pr : Z) : res (Vmmap * bool) :=
  let new_region_end_page := u64 (pnum + np) in
  '(self, ok) ← VmmapCheckExistingMapping self pnum np pr;
  if negb ok then Ok (self, false)
  else
    self ← VmmapMakeSorted self;
    self ← ChangeProt_loop (S (nvalid self)) 0 (nvalid self) self pnum np new_region_end_page pr;
    Ok (self, true).

(** ** Looking pages up *)
Definition VmmapContainCmpEntries (key : Z) (slot : option VmmapEntry) : res Z :=
  ent ← deref (Some slot);
  if key <? page_num ent then Ok (-1)
  else if key <? u64 (page_num ent + npages ent) then Ok 0
  else Ok 1.

Definition VmmapFindPage (self : Vmmap) (pnum : Z) : res (Vmmap * option VmmapEntry) :=
  self ← VmmapMakeSorted self;
  r ← bsearch (VmmapContainCmpEntries pnum) (vmentry self) (nvalid self);
  match r with
  | Some i => e ← deref (vmentry self !! i); Ok (self, Some e)
  | None => Ok (self, None)
  end.

Definition VmmapFindPageIter (self : Vmmap) (pnum : Z) : res VmmapIter :=
  self ← VmmapMakeSorted self;
  r ← bsearch (VmmapContainCmpEntries pnum) (vmentry self) (nvalid self);
  match r with
  | None => Ok (mkIter self (nvalid self))
  | Some i => Ok (mkIter self i)
  end.

Definition VmmapIterAtEnd (it : VmmapIter) : bool :=
  (nvalid (iter_vmmap it) <=? entry_ix it)%nat.

Definition VmmapIterStar (it : VmmapIter) : res VmmapEntry :=
  deref (vmentry (iter_vmmap it) !! entry_ix it).

Definition VmmapIterIncr (it : VmmapIter) : VmmapIter :=
  mkIter (iter_vmmap it) (S (entry_ix it)).

Definition VmmapIterErase (it : VmmapIter) : res VmmapIter :=
  let nvp := iter_vmmap it in
  _ ← (if (nvalid nvp =? 0)%nat then Fault else Ok tt);
  last ← fetch (vmentry nvp) (nvalid nvp - 1);
  arr ← store (vmentry nvp) (entry_ix it) last;
  Ok (mkIter (mkVmmap arr (nvalid nvp - 1) (size nvp) false) (entry_ix it)).

(** [fn] may change the state and the entry it is given. *)
Definition VmmapVisit {S} (self : Vmmap) (fn : S -> VmmapEntry -> res (S * VmmapEntry)) (state : S)
    : res (Vmmap * S) :=
  self ← VmmapMakeSorted self;
  foldM (fun '(self, state) i =>
    e ← deref (vmentry self !! i);
    '(state, e) ← fn state e;
    self ← write_slot self i e;
    Ok (self, state)) (seq 0 (nvalid self)) (self, state).

(** ** Looking for space *)

(** [for (i = nvalid; --i > 0; )], from high addresses down. *)
Fixpoint find_down (i : nat) (self : Vmmap) (num_pages : Z) : res Z :=
  match i with
  | O => Ok 0
  | S i' =>
    if (0 <? i')%nat then
      vmep ← deref (vmentry self !! (i' - 1)%nat);
      let end_page := u64 (page_num vmep + npages vmep) in
      cur ← deref (vmentry self !! i');
      let start_page := page_num cur in
      if num_pages <=? u64 (start_page - end_page) then Ok (u64 (start_page - num_pages))
      else find_down i' self num_pages
    else Ok 0
  end.

Definition VmmapFindSpace (self : Vmmap) (num_pages : Z) : res (Vmmap * Z) :=
  if (nvalid self =? 0)%nat then Ok (self, 0)
  else
    self ← VmmapMakeSorted self;
    r ← find_down (nvalid self) self num_pages;
    Ok (self, r).

Definition VmmapFindMapSpace (self : Vmmap) (num_pages : Z) : res (Vmmap * Z) :=
  if (nvalid self =? 0)%nat then Ok (self, 0)
  else
    self ← VmmapMakeSorted self;
    r ← find_down (nvalid self) self num_pages;
    Ok (self, r).

(** [for (i = 1; i < nvalid; ++i)], from the hint up. *)
Fixpoint find_up (fuel i : nat) (self : Vmmap) (usr_page num_pages : Z) : res Z :=
  match fuel with
  | O => NoFuel
  | S fuel' =>
    if (i <? nvalid self)%nat then
      vmep ← deref (vmentry self !! (i - 1)%nat);
      let end_page := u64 (page_num vmep + npages vmep) in
      cur ← deref (vmentry self !! i);
      let start_page := page_num cur in
      let end_page := if (end_page <=? usr_page) && (usr_page <? start_page)
                      then usr_page else end_page in
      if (usr_page <=? end_page) && (num_pages <=? u64 (start_page - end_page)) then Ok end_page
      else find_up fuel' (S i) self usr_page num_pages
    else Ok 0
  end.

Definition VmmapFindMapSpaceAboveHint (self : Vmmap) (uaddr num_pages : Z) : res (Vmmap * Z) :=
  self ← VmmapMakeSorted self;
  r ← find_up (S (nvalid self)) 1 self (Z.shiftr uaddr PAGESHIFT) num_pages;
  Ok (self, r).

End Pager.
