(* ===== verification/PagerFacts.v ===== *)
(** * The memory map refines a page table

    Abstraction: the page table of a map gives each page the attributes
    (protection, maximal protection, type) of the region that covers it.
    The theorems say what each operation of [Pager] does to it. *)

From S2P Require Import Prelude Utils Pager.

(** ** Representation *)

(** The regions a map holds, in array order. *)
Definition entries (m : Vmmap) : list VmmapEntry :=
  omap id (take (nvalid m) (vmentry m)).

(** The array of [m] starts with pointers to exactly the regions [es]. *)
Record repr (m : Vmmap) (es : list VmmapEntry) : Prop := {
  repr_size : length (vmentry m) = size m;
  repr_pos : (0 < size m)%nat;
  repr_nvalid : nvalid m = length es;
  repr_slots : take (nvalid m) (vmentry m) = Some <$> es;
}.

(** ** Pages

    Page numbers stay below [2^40]: user space has [2^35] pages. *)
Definition PAGES : Z := 2 ^ 40.

Definition end_page (e : VmmapEntry) : Z := page_num e + npages e.

(** A region whose arithmetic does not wrap around, with at least a page. *)
Definition wf_entry (e : VmmapEntry) : Prop :=
  0 <= page_num e /\ 0 < npages e /\ end_page e <= PAGES.

Definition covers (p : Z) (e : VmmapEntry) : bool :=
  negb (removed e) && (page_num e <=? p) && (p <? end_page e).

Definition attr (e : VmmapEntry) : Z * Z * VmmapEntryType :=
  (prot e, max_prot e, vmmap_type e).

(** The attributes of the regions that cover page [p]. *)
Definition attrs_at (p : Z) (es : list VmmapEntry) : list (Z * Z * VmmapEntryType) :=
  attr <$> filter (fun e => covers p e = true) es.

#[global] Arguments attrs_at : simpl never.

(** The page table of a map. *)
Definition page_lookup (m : Vmmap) (p : Z) : option (Z * Z * VmmapEntryType) :=
  head (attrs_at p (entries m)).

Definition in_region (pn ne p : Z) : bool := (pn <=? p) && (p <? ne).

(** ** Well-formed maps

    Regions do not overlap: no page is covered twice.  When the map is
    flagged as sorted, the array is in address order. *)
Definition before (e1 e2 : VmmapEntry) : Prop := end_page e1 <= page_num e2.

Record wf_entries (es : list VmmapEntry) : Prop := {
  wf_each : Forall wf_entry es;
  wf_disjoint : forall p, (length (attrs_at p es) <= 1)%nat;
}.

Definition live (es : list VmmapEntry) : Prop := Forall (fun e => removed e = false) es.

Record wf_map (m : Vmmap) : Prop := {
  wf_repr : repr m (entries m);
  wf_live : live (entries m);
  wf_ents : wf_entries (entries m);
  wf_sorted : is_sorted m = true -> StronglySorted before (entries m);
}.

(** ** The effect of an update on a list of regions

    [carve1] is one turn of the loop of [VmmapUpdate]: the region after the
    turn, the regions it appends, and whether the loop is left. *)
Definition carve1 (pn ne : Z) (e : VmmapEntry) : VmmapEntry * list VmmapEntry * bool :=
  if (page_num e <? pn) && (ne <? end_page e) then
    (set_npages e (pn - page_num e),
     [mkEntry ne (end_page e - ne) (prot e) (max_prot e) (vmmap_type e) false], true)
  else if (page_num e <? pn) && (pn <? end_page e) then
    (set_npages e (pn - page_num e), [], false)
  else if (page_num e <? ne) && (ne <? end_page e) then
    (set_npages (set_page_num e ne) (end_page e - ne), [], true)
  else if (pn <=? page_num e) && (end_page e <=? ne) then
    (set_removed e, [], false)
  else (e, [], false).

Fixpoint carve (pn ne : Z) (es : list VmmapEntry) : list VmmapEntry * list VmmapEntry :=
  match es with
  | [] => ([], [])
  | e :: es' =>
    let '(e', extra, stop) := carve1 pn ne e in
    if stop then (e' :: es', extra)
    else let '(r, x) := carve pn ne es' in (e' :: r, extra ++ x)
  end.

(** [reprot] is the loop of [VmmapChangeProt] on a list of regions. *)
Fixpoint reprot (pn np ne pr : Z) (es : list VmmapEntry) : list VmmapEntry * list VmmapEntry :=
  match es with
  | [] => ([], [])
  | e :: es' =>
    if negb (0 <? np) then (es, [])
    else if (page_num e <? pn) && (ne <? end_page e) then
      (set_npages e (pn - page_num e) :: es',
       [mkEntry ne (end_page e - ne) (prot e) (max_prot e) (vmmap_type e) false;
        mkEntry pn np pr (max_prot e) (vmmap_type e) false])
    else if (page_num e <? pn) && (pn <? end_page e) then
      let '(r, x) := reprot (end_page e) (u64 (ne - end_page e)) ne pr es' in
      (set_npages e (pn - page_num e) :: r,
       mkEntry pn (end_page e - pn) pr (max_prot e) (vmmap_type e) false :: x)
    else if (page_num e <? ne) && (ne <? end_page e) then
      (set_npages (set_page_num e ne) (end_page e - ne) :: es',
       [mkEntry pn np pr (max_prot e) (vmmap_type e) false])
    else if (pn <=? page_num e) && (end_page e <=? ne) then
      let '(r, x) := reprot (end_page e) (u64 (ne - end_page e)) ne pr es' in
      (set_prot e pr :: r, x)
    else let '(r, x) := reprot pn np ne pr es' in (e :: r, x)
  end.

(** The slots of [arr] start with pointers to [es]. *)
Definition holds (arr : list (option VmmapEntry)) (es : list VmmapEntry) : Prop :=
  take (length es) arr = Some <$> es.

(** ** Representation lemmas *)
Lemma holds_app_l arr es1 es2 : holds arr (es1 ++ es2) -> holds arr es1.
Proof.
  unfold holds. intros H. apply (f_equal (take (length es1))) in H.
  rewrite take_take, length_app, Nat.min_l in H by lia.
  rewrite H, fmap_app, take_app_le, take_ge; rewrite ?length_fmap; auto.
Qed.

Lemma holds_length arr es : holds arr es -> (length es <= length arr)%nat.
Proof.
  intros H. apply (f_equal length) in H. rewrite length_take, length_fmap in H. lia.
Qed.

Lemma holds_lookup arr es i : holds arr es -> (i < length es)%nat ->
  arr !! i = Some <$> es !! i.
Proof.
  intros H Hi. rewrite <- (lookup_take_lt _ (length es)) by lia.
  rewrite H. by rewrite list_lookup_fmap.
Qed.

Lemma holds_snoc_lookup arr es e : holds arr (es ++ [e]) -> arr !! length es = Some (Some e).
Proof.
  intros H. rewrite (holds_lookup _ _ (length es) H) by (rewrite length_app; cbn; lia).
  by rewrite list_lookup_middle.
Qed.

Lemma holds_insert_ge arr es i x : (length es <= i)%nat -> holds arr es -> holds (<[i := x]> arr) es.
Proof. unfold holds. intros Hi H. by rewrite take_insert_ge. Qed.

Lemma holds_insert arr es i e : holds arr es -> (i < length es)%nat ->
  holds (<[i := Some e]> arr) (<[i := e]> es).
Proof.
  unfold holds. intros H Hi. rewrite length_insert, take_insert_lt, H by done.
  by rewrite list_fmap_insert.
Qed.

Lemma repr_entries m es : repr m es -> entries m = es.
Proof.
  intros H. unfold entries. rewrite (repr_slots _ _ H).
  clear H. induction es as [|e es IH]; cbn; [done|]. f_equal. exact IH.
Qed.

Lemma repr_le m es : repr m es -> (length es <= size m)%nat.
Proof.
  intros [Hs Hp Hn Hl]. apply (f_equal length) in Hl.
  rewrite length_take, length_fmap in Hl. lia.
Qed.

Lemma repr_lookup m es i : repr m es -> (i < length es)%nat ->
  vmentry m !! i = Some <$> es !! i.
Proof.
  intros [Hs Hp Hn Hl] Hi.
  rewrite <- (lookup_take_lt _ (nvalid m)) by lia. rewrite Hl. by rewrite list_lookup_fmap.
Qed.

Lemma repr_deref m es i e : repr m es -> es !! i = Some e -> deref (vmentry m !! i) = Ok e.
Proof.
  intros H He. rewrite (repr_lookup m es i H), He; [done|].
  by apply lookup_lt_Some in He.
Qed.

Lemma repr_write m es i e : repr m es -> (i < length es)%nat ->
  exists m', write_slot m i e = Ok m' /\ repr m' (<[i := e]> es) /\
    nvalid m' = nvalid m /\ is_sorted m' = is_sorted m.
Proof.
  intros H Hi. pose proof (repr_le _ _ H) as Hle. destruct H as [Hs Hp Hn Hl].
  unfold write_slot, store. rewrite (proj2 (Nat.ltb_lt _ _)) by lia. cbn.
  eexists. split; [done|]. split; [|done].
  constructor; cbn; [by rewrite length_insert|done|by rewrite length_insert|].
  rewrite take_insert_lt, Hl, list_fmap_insert by lia. done.
Qed.

(** ** Removing marked entries *)
Definition is_live (e : VmmapEntry) : Prop := removed e = false.
#[export] Instance is_live_dec e : Decision (is_live e).
Proof. unfold is_live. apply _. Defined.

Lemma filter_removed es : Forall (fun e => removed e = true) es -> filter is_live es = [].
Proof.
  induction 1 as [|e es He _ IH]; [done|].
  rewrite filter_cons_False; [done|]. unfold is_live. congruence.
Qed.

Lemma filter_live es : live es -> filter is_live es = es.
Proof.
  induction 1 as [|e es He _ IH]; [done|]. rewrite filter_cons_True by done. by f_equal.
Qed.

Lemma store_ok {A} (arr : list A) i a : (i < length arr)%nat -> store arr i a = Ok (<[i := a]> arr).
Proof. intros H. unfold store. by rewrite (proj2 (Nat.ltb_lt _ _)) by done. Qed.

(** The first loop drops a maximal suffix of marked entries; when it drops
    them all it leaves NULL in slot 0. *)
Lemma remove_tail_spec es arr : holds arr es ->
  (exists pre x rem arr', es = pre ++ x :: rem /\ is_live x /\
    Forall (fun e => removed e = true) rem /\
    remove_tail (length es) arr = Ok (length pre, arr') /\
    holds arr' (pre ++ [x]) /\ length arr' = length arr) \/
  (Forall (fun e => removed e = true) es /\
   exists arr', remove_tail (length es) arr = Ok (O, arr') /\
     (es <> [] -> arr' !! O = Some None)).
Proof.
  revert arr. induction es as [|x es IH] using rev_ind; intros arr H.
  { right. split; [done|]. exists arr. done. }
  rewrite length_app, Nat.add_1_r. cbn [remove_tail].
  rewrite (holds_snoc_lookup _ _ _ H). cbn.
  pose proof (holds_length _ _ H) as Hlen. rewrite length_app in Hlen. cbn in Hlen.
  destruct (removed x) eqn:Hx.
  2: { left. exists es, x, [], arr. split_and!; auto. }
  rewrite store_ok by lia. cbn.
  destruct (IH (<[length es := None]> arr)) as [(pre & y & rem & arr' & -> & Hy & Hr & Hrun & Ha & Hl)
    |(Hall & arr' & Hrun & H0)].
  { apply holds_insert_ge; [done|]. by eapply holds_app_l. }
  - left. exists pre, y, (rem ++ [x]), arr'.
    rewrite Hl, length_insert, <- app_assoc, Forall_app. cbn. split_and!; auto.
  - right. split; [by rewrite Forall_app; auto|]. exists arr'. split; [done|].
    intros _. destruct es as [|e es]; [|by apply H0].
    cbn in Hrun. injection Hrun as <-. apply list_lookup_insert_eq. lia.
Qed.

(** Moving [last] down over marked entries. *)
Lemma retreat_spec (i : nat) P B arr : length P = S i -> holds arr (P ++ B) ->
  exists B1 R arr', B = B1 ++ R /\ Forall (fun e => removed e = true) R /\
    (B1 = [] \/ exists B2 y, B1 = B2 ++ [y] /\ is_live y) /\
    retreat i (S i + length B) arr = Ok ((i + length B1)%nat, arr') /\
    holds arr' (P ++ B1) /\ length arr' = length arr.
Proof.
  intros HP. revert arr. induction B as [|x B IH] using rev_ind; intros arr H.
  { exists [], [], arr. rewrite Nat.add_0_r in *. cbn [retreat]. rewrite Nat.ltb_irrefl.
    cbn. rewrite Nat.add_0_r. split_and!; auto. }
  rewrite length_app, Nat.add_1_r, Nat.add_succ_r. cbn [retreat].
  rewrite app_assoc in H. pose proof (holds_snoc_lookup _ _ _ H) as Hlk.
  rewrite length_app, HP in Hlk. cbn [Nat.add] in *.
  pose proof (holds_length _ _ H) as Hlen. rewrite !length_app in Hlen. cbn in Hlen.
  rewrite (proj2 (Nat.ltb_lt i (S (i + length B)))) by lia. rewrite Hlk. cbn.
  destruct (removed x) eqn:Hx.
  - rewrite store_ok by lia. cbn.
    destruct (IH (<[S (i + length B) := None]> arr)) as (B1 & R & arr' & -> & HR & HB1 & Hrun & Hh & Hl).
    { apply holds_insert_ge; [rewrite length_app; lia|]. by eapply holds_app_l. }
    exists B1, (R ++ [x]), arr'. rewrite Hl, length_insert, app_assoc, Forall_app. split_and!; auto.
  - exists (B ++ [x]), [], arr. rewrite app_nil_r, app_assoc, length_app. cbn.
    rewrite Nat.add_1_r, Nat.add_succ_r. split; [done|]. split; [done|].
    split; [right; eauto|]. split_and!; auto.
Qed.

(** The second loop fills each hole with the last live entry. *)
Lemma fill_holes_spec fuel A B x arr : live A -> is_live x -> holds arr (A ++ B ++ [x]) ->
  (length B < fuel)%nat ->
  exists es' arr', fill_holes fuel (length A) (length A + length B) arr =
      Ok ((length es' - 1)%nat, arr') /\ es' <> [] /\
    es' ≡ₚ filter is_live (A ++ B ++ [x]) /\ holds arr' es' /\ length arr' = length arr.
Proof.
  revert A B x arr. induction fuel as [|fuel IH]; intros A B x arr HA Hx Hh Hf; [lia|].
  cbn [fill_holes]. destruct B as [|e B].
  { rewrite Nat.add_0_r, Nat.ltb_irrefl. exists (A ++ [x]), arr.
    rewrite length_app. cbn. rewrite Nat.add_sub. split; [done|]. split; [by destruct A|].
    split; [|done]. rewrite filter_live; [done|]. unfold live. rewrite Forall_app. auto. }
  rewrite (proj2 (Nat.ltb_lt _ _)) by (cbn; lia).
  pose proof (holds_length _ _ Hh) as Hlen. rewrite !length_app in Hlen. cbn in Hlen.
  rewrite (holds_lookup _ _ (length A) Hh) by (rewrite !length_app; cbn; lia).
  change ((e :: B) ++ [x]) with (e :: (B ++ [x])) at 1.
  rewrite list_lookup_middle by done. cbn [fmap option_fmap option_map deref mbind res_bind].
  destruct (removed e) eqn:He; cbn [negb].
  - (* hole at [length A] *)
    unfold fetch. replace (length A + length (e :: B))%nat with (length (A ++ e :: B)) by
      (rewrite length_app; done).
    change ((e :: B) ++ [x]) with ([e] ++ B ++ [x]) in Hh.
    replace (A ++ [e] ++ B ++ [x]) with ((A ++ e :: B) ++ [x]) in Hh by
      (rewrite <- app_assoc; done).
    rewrite (holds_snoc_lookup _ _ _ Hh). cbn [mbind res_bind].
    rewrite store_ok by lia. cbn [mbind res_bind].
    rewrite store_ok by (rewrite length_insert, length_app; cbn; lia). cbn [mbind res_bind].
    destruct (retreat_spec (length A) (A ++ [x]) B (<[length (A ++ e :: B) := None]>
      (<[length A := Some x]> arr))) as (B1 & R & arr' & -> & HR & HB1 & Hrun & Hh' & Hl).
    { rewrite length_app. cbn. lia. }
    { apply holds_insert_ge; [rewrite !length_app; cbn; lia|].
      replace ((A ++ [x]) ++ B) with (<[length A := x]> (A ++ e :: B)).
      - apply holds_insert; [by eapply holds_app_l|rewrite length_app; cbn; lia].
      - rewrite insert_app_r_alt, Nat.sub_diag by lia. cbn. by rewrite <- app_assoc. }
    assert (E : length (A ++ e :: B1 ++ R) = (S (length A) + length (B1 ++ R))%nat) by
      (rewrite (length_app A); cbn [length]; lia).
    rewrite E in Hrun, Hl |- *. rewrite Hrun. cbn [mbind res_bind].
    assert (Hperm : filter is_live (A ++ (e :: B1 ++ R) ++ [x]) ≡ₚ filter is_live (A ++ x :: B1)).
    { rewrite !filter_app, !(filter_cons_True _ x), filter_nil by done.
      rewrite filter_cons_False by (unfold is_live; congruence).
      rewrite filter_app, (filter_removed R), app_nil_r by done.
      apply Permutation_app_head. symmetry. apply Permutation_cons_append. }
    destruct HB1 as [->|(B2 & y & -> & Hy)].
    + rewrite Nat.add_0_r. cbn [fill_holes]. destruct fuel as [|fuel]; [cbn in Hf; lia|].
      cbn [fill_holes]. rewrite (proj2 (Nat.ltb_ge (S (length A)) _)) by lia.
      exists (A ++ [x]), arr'. rewrite app_nil_r in Hh'. rewrite Hl, !length_insert, length_app.
      cbn. rewrite Nat.add_sub. split; [done|]. split; [by destruct A|]. split; [|done].
      cbn in Hperm. rewrite Hperm, filter_live; [done|]. unfold live. rewrite Forall_app. auto.
    + destruct (IH (A ++ [x]) B2 y arr') as (es' & arr'' & Hrun' & Hne & Hp & Hh'' & Hl').
      * unfold live in *. rewrite Forall_app. auto.
      * done.
      * done.
      * cbn [length] in Hf. rewrite !length_app in Hf. lia.
      * exists es', arr''. rewrite length_app in Hrun'. cbn in Hrun'.
        rewrite length_app. cbn. replace (length A + (length B2 + 1))%nat with
          (length A + 1 + length B2)%nat by lia.
        rewrite <- Hrun'. rewrite Nat.add_1_r. split; [done|]. split; [done|].
        rewrite Hl', Hl, !length_insert. split; [|done].
        rewrite <- app_assoc in Hp. cbn [app] in Hp. by rewrite Hp, Hperm.
  - (* not marked *)
    destruct (IH (A ++ [e]) B x arr) as (es' & arr' & Hrun & Hne & Hp & Hh' & Hl).
    + unfold live in *. rewrite Forall_app. auto.
    + done.
    + by rewrite <- app_assoc.
    + cbn in Hf. lia.
    + exists es', arr'. rewrite length_app in Hrun. cbn in Hrun.
      rewrite Nat.add_1_r in Hrun. cbn [length Nat.add] in *. rewrite Nat.add_succ_r. rewrite Hrun.
      split; [done|]. split; [done|]. split; [by rewrite Hp, <- app_assoc|done].
Qed.

Lemma RemoveMarked_live m es : repr m es -> Exists is_live es ->
  exists m' es', VmmapRemoveMarked m = Ok m' /\ repr m' es' /\
    es' ≡ₚ filter is_live es /\ is_sorted m' = false.
Proof.
  intros H Hex. pose proof (repr_le _ _ H) as Hle. destruct H as [Hs Hp Hn Hl].
  assert (Hh : holds (vmentry m) es) by (unfold holds; congruence).
  destruct (remove_tail_spec es (vmentry m) Hh) as
    [(pre & x & rem & arr & -> & Hx & Hr & Hrun & Ha & Hlen)|(Hall & _)].
  2: { exfalso. apply Exists_exists in Hex as (y & Hy & Hlive).
       rewrite Forall_forall in Hall. specialize (Hall y Hy). unfold is_live in Hlive. congruence. }
  unfold VmmapRemoveMarked. rewrite Hn, Hrun.
  rewrite (proj2 (Nat.eqb_neq _ 0)) by (rewrite length_app; cbn; lia). cbn [mbind res_bind].
  pose proof (holds_snoc_lookup _ _ _ Ha) as Hlast.
  assert (H0 : (if (length pre =? 0)%nat then e ← deref (arr !! O); if removed e then Exit else Ok tt
    else Ok tt) = Ok tt).
  { destruct (Nat.eqb_spec (length pre) 0) as [E|]; [|done].
    rewrite E in Hlast. rewrite Hlast. cbn. by rewrite Hx. }
  rewrite H0. cbn [mbind res_bind].
  rewrite (proj2 (Nat.ltb_lt _ _)) by (rewrite length_app; cbn; lia). cbn [CHECK mbind res_bind].
  rewrite Hlast. cbn [deref mbind res_bind]. rewrite Hx. cbn [negb CHECK mbind res_bind].
  destruct (fill_holes_spec (S (length pre)) [] pre x arr) as (es' & arr' & Hrun' & Hne & Hperm & Hh' & Hl');
    [constructor|done|done|lia|].
  cbn [length Nat.add] in Hrun'. rewrite Hrun'. cbn [mbind res_bind].
  assert (Hpos : (0 < length es')%nat) by (destruct es'; [done|cbn; lia]).
  eexists _, es'. split; [done|]. split; [|split; [|done]].
  - constructor; cbn [vmentry nvalid size]; [congruence|done|lia|].
    replace (S (length es' - 1)) with (length es') by lia. exact Hh'.
  - rewrite Hperm. cbn. rewrite !filter_app, !filter_cons_True by done.
    by rewrite (filter_removed rem).
Qed.

Lemma RemoveMarked_none m : repr m [] -> VmmapRemoveMarked m = Ok m.
Proof. intros H. unfold VmmapRemoveMarked. by rewrite (repr_nvalid _ _ H). Qed.

(** When every region is marked, the guard meant to stop the process reads
    through the pointer the loop before it has just set to NULL. *)
Lemma RemoveMarked_all m es : repr m es -> es <> [] ->
  Forall (fun e => removed e = true) es -> VmmapRemoveMarked m = Fault.
Proof.
  intros H Hne Hall. destruct H as [Hs Hp Hn Hl].
  assert (Hh : holds (vmentry m) es) by (unfold holds; congruence).
  unfold VmmapRemoveMarked. rewrite Hn.
  rewrite (proj2 (Nat.eqb_neq _ 0)) by (destruct es; cbn; [done|lia]).
  destruct (remove_tail_spec es (vmentry m) Hh) as
    [(pre & x & rem & arr & -> & Hx & _)|(_ & arr & Hrun & H0)].
  - exfalso. rewrite Forall_app, Forall_cons in Hall. unfold is_live in Hx.
    destruct Hall as (_ & ? & _). congruence.
  - rewrite Hrun. cbn. by rewrite (H0 Hne).
Qed.

(** ** Attributes *)
Definition cov (p : Z) (e : VmmapEntry) : list (Z * Z * VmmapEntryType) :=
  if covers p e then [attr e] else [].

Lemma attrs_at_cons p e es : attrs_at p (e :: es) = cov p e ++ attrs_at p es.
Proof.
  unfold attrs_at, cov. destruct (covers p e) eqn:E.
  - by rewrite filter_cons_True.
  - by rewrite filter_cons_False by congruence.
Qed.

Lemma attrs_at_app p es1 es2 : attrs_at p (es1 ++ es2) = attrs_at p es1 ++ attrs_at p es2.
Proof. unfold attrs_at. by rewrite filter_app, fmap_app. Qed.

#[export] Instance attrs_at_perm p : Proper (Permutation ==> Permutation) (attrs_at p).
Proof. intros es1 es2 H. unfold attrs_at. by rewrite H. Qed.

Lemma attrs_at_live p es : attrs_at p (filter is_live es) = attrs_at p es.
Proof.
  induction es as [|e es IH]; [done|]. rewrite attrs_at_cons.
  destruct (decide (is_live e)) as [L|L].
  - by rewrite filter_cons_True, attrs_at_cons, IH.
  - rewrite filter_cons_False, IH by done. unfold cov, covers.
    unfold is_live in L. by destruct (removed e).
Qed.

Lemma attrs_at_before p e es : Forall (before e) es -> p < end_page e -> attrs_at p es = [].
Proof.
  intros H Hp. induction H as [|e' es He _ IH]; [done|].
  rewrite attrs_at_cons, IH, app_nil_r. unfold cov, covers, before in *.
  rewrite (proj2 (Z.leb_gt (page_num e') p)) by lia. by rewrite andb_false_r.
Qed.

Lemma attrs_at_pos p e es : e ∈ es -> covers p e = true -> (0 < length (attrs_at p es))%nat.
Proof.
  intros He Hc. unfold attrs_at. rewrite length_fmap.
  assert (Hin : e ∈ filter (fun e => covers p e = true) es) by (by apply list_elem_of_filter).
  destruct (filter _ es); [by apply not_elem_of_nil in Hin|cbn; lia].
Qed.

Lemma cov_length p e : (length (cov p e) <= 1)%nat.
Proof. unfold cov. destruct (covers p e); cbn; lia. Qed.

(** Two permutations of a list of at most one element are equal. *)
Lemma perm_head {A} (l1 l2 : list A) : l1 ≡ₚ l2 -> (length l2 <= 1)%nat -> l1 = l2.
Proof.
  intros H Hl. destruct l2 as [|x [|y l2]].
  - by apply Permutation_nil_r.
  - by apply Permutation_singleton_r.
  - cbn in Hl. lia.
Qed.

(** Decide every comparison in a goal about [covers], then arithmetic. *)
Ltac solve_cov :=
  unfold cov, covers, in_region, attr, end_page, wf_entry, before in *; cbn in *;
  repeat match goal with
  | |- context [?a <=? ?b] => destruct (Z.leb_spec a b)
  | |- context [?a <? ?b] => destruct (Z.ltb_spec a b)
  | |- context [removed ?e] => destruct (removed e) eqn:?
  end; cbn in *; try done; try lia.

(** Splits every boolean comparison of the goal and closes the impossible cases. *)
Ltac split_cmp :=
  repeat (match goal with
  | |- context [?a <=? ?b] => destruct (Z.leb_spec a b)
  | |- context [?a <? ?b] => destruct (Z.ltb_spec a b)
  end; cbn [andb orb negb]; try lia).

Lemma carve1_cov pn ne e p : wf_entry e -> removed e = false -> pn < ne ->
  cov p (carve1 pn ne e).1.1 ++ attrs_at p (carve1 pn ne e).1.2 =
    (if in_region pn ne p then [] else cov p e) /\
  ((carve1 pn ne e).2 = true -> ne < end_page e).
Proof.
  intros (H1 & H2 & H3) Hr Hlt. unfold carve1, in_region, end_page in *.
  split_cmp; cbn [fst snd]; (split; [|try done; try lia]); rewrite ?attrs_at_cons;
    unfold cov, covers, end_page, attrs_at, attr; cbn; rewrite ?Hr; cbn; split_cmp; try done.
Qed.

Lemma carve1_wf pn ne e : wf_entry e -> 0 <= pn < ne -> ne <= PAGES ->
  wf_entry (carve1 pn ne e).1.1 /\ Forall wf_entry (carve1 pn ne e).1.2.
Proof.
  intros (H1 & H2 & H3) Hlt Hne. unfold carve1, end_page in *.
  split_cmp; cbn [fst snd]; (split; [|repeat constructor]); unfold wf_entry, end_page; cbn; lia.
Qed.

Lemma carve_attrs pn ne es p : Forall wf_entry es -> live es -> StronglySorted before es ->
  pn < ne ->
  attrs_at p ((carve pn ne es).1 ++ (carve pn ne es).2) ≡ₚ
    (if in_region pn ne p then [] else attrs_at p es).
Proof.
  intros Hwf Hlive Hs Hlt. induction Hs as [|e es Hs IH Hb]; cbn.
  { by destruct (in_region pn ne p). }
  apply Forall_cons in Hwf as [He Hwf]. apply Forall_cons in Hlive as [Hl Hlive].
  specialize (IH Hwf Hlive). destruct (carve1_cov pn ne e p He Hl Hlt) as [Hc Hstop].
  destruct (carve1 pn ne e) as [[e' x] stop]. cbn [fst snd] in *.
  rewrite attrs_at_cons. destruct stop; cbn [fst snd app].
  - rewrite attrs_at_cons, attrs_at_app, (Permutation_app_comm (attrs_at p es)), app_assoc, Hc.
    unfold in_region in *. destruct (Z.leb_spec pn p), (Z.ltb_spec p ne); cbn [andb] in *; try done.
    rewrite (attrs_at_before p e es) by (done || specialize (Hstop eq_refl); lia). done.
  - destruct (carve pn ne es) as [r y]. cbn [fst snd app] in *.
    rewrite attrs_at_cons, !attrs_at_app in *.
    rewrite (Permutation_app_swap_app (attrs_at p r)), app_assoc, Hc, IH.
    by destruct (in_region pn ne p).
Qed.

Lemma carve_wf pn ne es : Forall wf_entry es -> 0 <= pn < ne -> ne <= PAGES ->
  Forall wf_entry ((carve pn ne es).1 ++ (carve pn ne es).2).
Proof.
  intros Hwf H0 Hne. induction Hwf as [|e es He Hwf IH]; cbn; [done|].
  destruct (carve1_wf pn ne e He H0 Hne) as [H1 H2].
  destruct (carve1 pn ne e) as [[e' x] stop]. cbn [fst snd] in *.
  destruct stop; cbn [fst snd app].
  - constructor; [done|]. by rewrite Forall_app.
  - destruct (carve pn ne es) as [r y]. cbn [fst snd app] in *.
    rewrite Forall_app in IH. constructor; [done|]. rewrite !Forall_app. tauto.
Qed.

(** ** The pieces of the loops *)
Section facts.
Context `{QS : QsortSpec}.

Lemma repr_add m es pn np pr mp ty : repr m es ->
  exists m', VmmapAdd true m pn np pr mp ty = Ok m' /\
    repr m' (es ++ [mkEntry pn np pr mp ty false]) /\ is_sorted m' = false.
Proof using.
  intros H. pose proof (repr_le _ _ H) as Hle. destruct H as [Hs Hp Hn Hl].
  assert (Hgen : forall arr (sz : nat), length arr = sz -> (length es < sz)%nat ->
    take (nvalid m) arr = Some <$> es ->
    repr (mkVmmap (<[nvalid m := Some (mkEntry pn np pr mp ty false)]> arr) (S (nvalid m)) sz false)
      (es ++ [mkEntry pn np pr mp ty false])).
  { intros arr sz Ha Hsz Ht. constructor; cbn.
    - by rewrite length_insert.
    - lia.
    - rewrite length_app. cbn. lia.
    - rewrite (take_S_r _ _ (Some (mkEntry pn np pr mp ty false))).
      + rewrite take_insert_ge, fmap_app, Ht by lia. done.
      + apply list_lookup_insert_eq. lia. }
  unfold VmmapAdd. destruct (Nat.eqb_spec (nvalid m) (size m)) as [E|E]; cbn -[Nat.mul].
  - rewrite store_ok by (rewrite length_app, length_replicate; lia). cbn -[Nat.mul].
    eexists. split; [done|]. split; [|done]. apply Hgen.
    + rewrite length_app, length_replicate. lia.
    + lia.
    + rewrite take_app_le by lia. exact Hl.
  - rewrite store_ok by lia. cbn. eexists. split; [done|]. split; [|done].
    apply Hgen; [done|lia|done].
Qed.

(** A turn of [VmmapUpdate]'s loop is [carve1], the loop is [carve]. *)
Lemma VmmapUpdate_loop_spec fuel don todo m pn ne :
  repr m (don ++ todo) -> (length todo < fuel)%nat -> Forall wf_entry todo ->
  0 <= pn < ne -> ne <= PAGES ->
  exists m', VmmapUpdate_loop true fuel (length don) m pn ne = Ok m' /\
    repr m' (don ++ (carve pn ne todo).1 ++ (carve pn ne todo).2).
Proof using.
  revert don todo m. induction fuel as [|fuel IH]; intros don todo m H Hf Hwf Hpn Hne; [lia|].
  cbn [VmmapUpdate_loop]. rewrite (repr_nvalid _ _ H), length_app.
  destruct todo as [|e todo].
  { rewrite (proj2 (Nat.ltb_ge _ _)) by (cbn; lia). cbn. eauto. }
  rewrite (proj2 (Nat.ltb_lt _ _)) by (cbn; lia).
  assert (Hlk : (don ++ e :: todo) !! length don = Some e) by (by rewrite list_lookup_middle).
  rewrite (repr_deref _ _ _ _ H Hlk). cbn [mbind res_bind].
  apply Forall_cons in Hwf as [He Hwf]. pose proof He as (H1 & H2 & H3).
  unfold end_page, PAGES in *. rewrite (u64_small (page_num e + npages e)) by lia.
  cbn [carve]. unfold carve1, end_page.
  assert (Hlen : (length don < length (don ++ e :: todo))%nat) by (rewrite length_app; cbn; lia).
  assert (Hins : forall e', <[length don := e']> (don ++ e :: todo) = (don ++ [e']) ++ todo).
  { intros e'. rewrite insert_app_r_alt, Nat.sub_diag, <- app_assoc by lia. done. }
  assert (Hw : forall e', exists m1, write_slot m (length don) e' = Ok m1 /\
    repr m1 ((don ++ [e']) ++ todo)).
  { intros e'. destruct (repr_write m _ (length don) e' H Hlen) as (m1 & Hw & Hm1 & _).
    rewrite Hins in Hm1. eauto. }
  assert (Hsplit : exists m', (self ← VmmapAdd true m ne (page_num e + npages e - ne)
      (prot e) (max_prot e) (vmmap_type e);
      write_slot self (length don) (set_npages e (pn - page_num e))) = Ok m' /\
    repr m' (don ++ (set_npages e (pn - page_num e) :: todo) ++
      [mkEntry ne (page_num e + npages e - ne) (prot e) (max_prot e) (vmmap_type e) false])).
  { destruct (repr_add _ _ ne (page_num e + npages e - ne) (prot e) (max_prot e) (vmmap_type e) H)
      as (m1 & -> & Hm1 & _). cbn [mbind res_bind].
    destruct (repr_write m1 _ (length don) (set_npages e (pn - page_num e)) Hm1)
      as (m2 & Hw2 & Hm2 & _); [rewrite length_app; cbn; lia|].
    exists m2. split; [exact Hw2|].
    rewrite insert_app_l, Hins in Hm2 by lia. rewrite <- !app_assoc in Hm2. exact Hm2. }
  split_cmp; cbn [fst snd CHECK mbind res_bind].
  all: rewrite ?u64_small by lia.
  all: match goal with
  | |- context [VmmapAdd] => exact Hsplit
  | |- exists _, write_slot _ _ ?e' = _ /\ _ =>
      destruct (Hw e') as (m1 & Hw1 & Hm1); exists m1; split; [exact Hw1|];
      rewrite app_nil_r; rewrite <- app_assoc in Hm1; exact Hm1
  | |- context [write_slot _ _ ?e'] =>
      destruct (Hw e') as (m1 & -> & Hm1); cbn [mbind res_bind];
      destruct (IH _ _ _ Hm1) as (m' & Hrun & Hm'); [cbn in Hf; lia|done|lia|lia|]
  | |- _ =>
      replace (don ++ e :: todo) with ((don ++ [e]) ++ todo) in H by (by rewrite <- app_assoc);
      destruct (IH _ _ _ H) as (m' & Hrun & Hm'); [cbn in Hf; lia|done|lia|lia|]
  end.
  all: rewrite length_app, Nat.add_1_r in Hrun; exists m'; split; [exact Hrun|];
    destruct (carve pn ne todo) as [r x]; cbn [fst snd] in *; rewrite <- app_assoc in Hm'; exact Hm'.
Qed.

(** ** Sorting *)
#[export] Instance VmmapCmpEntries_total : TotalCmp VmmapCmpEntries.
Proof using.
  assert (Hle : forall a b, cmp_le VmmapCmpEntries a b <-> page_num a <= page_num b).
  { intros a b. unfold cmp_le, VmmapCmpEntries.
    destruct (Z.ltb_spec (page_num a) (page_num b)), (Z.eqb_spec (page_num a) (page_num b)); lia. }
  constructor.
  - intros a. unfold VmmapCmpEntries. by rewrite Z.ltb_irrefl, Z.eqb_refl.
  - intros a b. rewrite !Hle. lia.
  - intros a b c. rewrite !Hle. lia.
  - intros a b. unfold VmmapCmpEntries.
    destruct (Z.ltb_spec (page_num a) (page_num b)), (Z.eqb_spec (page_num a) (page_num b)),
      (Z.ltb_spec (page_num b) (page_num a)), (Z.eqb_spec (page_num b) (page_num a)); lia.
Qed.

Lemma wf_entries_perm es es' : es ≡ₚ es' -> wf_entries es -> wf_entries es'.
Proof using.
  intros Hp [H1 H2]. constructor; [by rewrite <- Hp|]. intros p. by rewrite <- Hp.
Qed.

Lemma wf_entries_cons e es : wf_entries (e :: es) -> wf_entry e /\ wf_entries es.
Proof using.
  intros [H1 H2]. apply Forall_cons in H1 as [He Hes]. split; [done|].
  constructor; [done|]. intros p. specialize (H2 p). rewrite attrs_at_cons, length_app in H2. lia.
Qed.

(** In a list without overlaps the order of the addresses is the order of
    the regions. *)
Lemma sorted_before es : wf_entries es -> live es ->
  StronglySorted (cmp_le VmmapCmpEntries) es -> StronglySorted before es.
Proof using.
  intros Hwf Hlive Hs. induction Hs as [|e es Hs IH Hle]; [constructor|].
  pose proof (wf_disjoint _ Hwf) as Hd.
  apply wf_entries_cons in Hwf as [He Hwf]. apply Forall_cons in Hlive as [Hr Hlive].
  constructor; [by apply IH|]. rewrite Forall_forall in *. intros e' He'.
  pose proof (Hle e' He') as Hcmp. unfold cmp_le, VmmapCmpEntries in Hcmp.
  assert (Hwe : wf_entry e') by (pose proof (wf_each _ Hwf) as Hf; rewrite Forall_forall in Hf; auto).
  destruct He as (H1 & H2 & H3), Hwe as (H1' & H2' & H3').
  destruct (Z.ltb_spec (page_num e) (page_num e')), (Z.eqb_spec (page_num e) (page_num e')); try lia.
  all: unfold before; destruct (decide (end_page e <= page_num e')) as [|Hn]; [done|exfalso].
  all: specialize (Hd (page_num e')); rewrite attrs_at_cons, length_app in Hd.
  all: pose proof (attrs_at_pos (page_num e') e' es He') as Hpos.
  all: unfold cov, covers in *; rewrite Hr, ?Hlive in * by done; unfold end_page in *; cbn in Hd.
  all: rewrite (proj2 (Z.leb_le (page_num e) _)), (proj2 (Z.ltb_lt _ (page_num e + _))) in Hd by lia.
  all: cbn in Hd; rewrite Z.leb_refl, (proj2 (Z.ltb_lt _ (page_num e' + _))) in Hpos by lia.
  all: specialize (Hpos eq_refl); lia.
Qed.

(** A live region covers some page. *)
Lemma live_covers e : wf_entry e -> is_live e -> covers (page_num e) e = true.
Proof using.
  intros (H1 & H2 & H3) Hl. unfold covers, end_page in *. rewrite Hl. cbn.
  rewrite Z.leb_refl, (proj2 (Z.ltb_lt _ _)) by lia. done.
Qed.

(** Regions that do not overlap are at most as many as the pages. *)
Lemma wf_entries_length es : wf_entries es -> live es -> Z.of_nat (length es) <= PAGES.
Proof using.
  intros Hwf Hl. assert (Hnd : NoDup (page_num <$> es)).
  { induction es as [|e es IH]; [constructor|].
    pose proof (wf_disjoint _ Hwf (page_num e)) as Hd.
    apply wf_entries_cons in Hwf as [He Hwf]. apply Forall_cons in Hl as [Hr Hl].
    cbn [fmap list_fmap]. constructor; [|by apply IH]. intros Hin.
    apply list_elem_of_fmap in Hin as (e' & Hpn & He').
    rewrite attrs_at_cons, length_app in Hd. unfold cov in Hd. rewrite live_covers in Hd by done.
    pose proof (wf_each _ Hwf) as Hf. unfold live in Hl. rewrite Forall_forall in Hf, Hl.
    pose proof (attrs_at_pos (page_num e) e' es He') as Hpos. rewrite Hpn in Hpos at 1.
    specialize (Hpos (live_covers e' (Hf _ He') (Hl _ He'))). cbn [length] in Hd. lia. }
  rewrite <- (length_fmap page_num). rewrite <- (Z2Nat.id PAGES) by done.
  rewrite <- (length_seqZ 0 PAGES). apply inj_le, submseteq_length, NoDup_submseteq; [done|].
  intros p Hp. apply list_elem_of_fmap in Hp as (e & -> & He). apply elem_of_seqZ.
  pose proof (wf_each _ Hwf) as Hf. rewrite Forall_forall in Hf.
  destruct (Hf _ He) as (H1 & H2 & H3). unfold end_page in H3. lia.
Qed.

Lemma sort_slots_ok arr es : holds arr es -> wf_entries es -> live es ->
  exists es', sort_slots arr (length es) = Ok ((Some <$> es') ++ drop (length es) arr) /\
    es' ≡ₚ es /\ StronglySorted (cmp_le VmmapCmpEntries) es'.
Proof using QS.
  intros H Hw Hl. unfold sort_slots. rewrite H. rewrite derefs_Some. cbn.
  destruct (qsort_spec _ VmmapCmpEntries es) as (es' & -> & Hp & Hs).
  { apply (wf_entries_length _ Hw Hl). }
  cbn. eauto.
Qed.

(** [VmmapMakeSorted] reorders a well-formed map and changes no page. *)
Lemma MakeSorted_spec m : wf_map m ->
  exists m', VmmapMakeSorted m = Ok m' /\ wf_map m' /\ is_sorted m' = true /\
    entries m' ≡ₚ entries m /\ StronglySorted before (entries m').
Proof using QS.
  intros [Hr Hl Hw Hs]. unfold VmmapMakeSorted. destruct (is_sorted m) eqn:Es.
  { exists m. split; [done|]. split; [by constructor; auto|]. auto. }
  assert (H1 : exists m1 es1, VmmapRemoveMarked m = Ok m1 /\ repr m1 es1 /\ es1 ≡ₚ entries m).
  { destruct (entries m) as [|e es] eqn:E.
    - exists m, []. rewrite RemoveMarked_none by done. auto.
    - destruct (RemoveMarked_live m (e :: es)) as (m1 & es1 & H1 & H2 & H3 & _); [done| |].
      + apply Exists_cons_hd. by apply Forall_cons in Hl as [? _].
      + exists m1, es1. rewrite (filter_live _ Hl) in H3. auto. }
  destruct H1 as (m1 & es1 & -> & Hr1 & Hp1). cbn [mbind res_bind].
  pose proof Hr1 as [Hsz Hpos Hn Hsl].
  destruct (sort_slots_ok (vmentry m1) es1) as (es' & Hrun & Hp & Hss).
  { unfold holds. by rewrite <- Hn. }
  { by eapply wf_entries_perm; [symmetry; done|]. }
  { unfold live. by rewrite Hp1. }
  rewrite Hn, Hrun. cbn [mbind res_bind].
  assert (Hlen : length es' = length es1) by (by rewrite Hp).
  assert (Hr' : repr (mkVmmap ((Some <$> es') ++ drop (length es1) (vmentry m1)) (length es1)
    (size m1) true) es').
  { pose proof (repr_le _ _ Hr1). constructor; cbn.
    - rewrite length_app, length_fmap, length_drop, <- Hsz. lia.
    - done.
    - done.
    - rewrite take_app_le, take_ge by (rewrite length_fmap; lia). done. }
  eexists. split; [done|].
  assert (Hperm : es' ≡ₚ entries m) by (by rewrite Hp).
  assert (Hb : StronglySorted before es').
  { apply sorted_before; [by eapply wf_entries_perm; [symmetry; done|]| |done].
    unfold live. by rewrite Hperm. }
  rewrite (repr_entries _ _ Hr'). split; [|by auto].
  constructor; rewrite ?(repr_entries _ _ Hr'); [done| | |done].
  - unfold live. by rewrite Hperm.
  - by eapply wf_entries_perm; [symmetry; done|].
Qed.

Lemma page_lookup_perm m m' : wf_map m -> entries m' ≡ₚ entries m ->
  forall p, page_lookup m' p = page_lookup m p.
Proof using.
  intros Hw Hp p. unfold page_lookup. f_equal. apply perm_head; [by rewrite Hp|].
  apply (wf_disjoint _ (wf_ents _ Hw)).
Qed.

(** ** The update as a whole *)

Lemma attrs_at_exists p es : attrs_at p es <> [] -> exists e, e ∈ es /\ covers p e = true.
Proof using.
  unfold attrs_at. intros H.
  destruct (filter (fun e => covers p e = true) es) as [|e l] eqn:E; [done|].
  exists e. assert (He : e ∈ filter (fun e => covers p e = true) es) by (rewrite E; left).
  by apply list_elem_of_filter in He as [? ?].
Qed.

Lemma covers_live p e : covers p e = true -> is_live e.
Proof using. unfold covers, is_live. by destruct (removed e). Qed.

Lemma page_lookup_None m p : page_lookup m p = None <-> attrs_at p (entries m) = [].
Proof using. unfold page_lookup. by destruct (attrs_at p (entries m)). Qed.

(** The list the update is left with before the marked entries are dropped. *)
Definition updated (pn ne pr mp : Z) (ty : VmmapEntryType) (remove : bool) (es : list VmmapEntry)
    : list VmmapEntry :=
  ((carve pn ne es).1 ++ (carve pn ne es).2) ++
    (if remove then [] else [mkEntry pn (ne - pn) pr mp ty false]).

Lemma updated_attrs pn ne pr mp ty remove es p :
  wf_entries es -> live es -> StronglySorted before es -> pn < ne ->
  attrs_at p (updated pn ne pr mp ty remove es) ≡ₚ
    (if in_region pn ne p then (if remove then [] else [(pr, mp, ty)]) else attrs_at p es).
Proof using.
  intros Hw Hl Hs Hlt. unfold updated.
  rewrite attrs_at_app, (carve_attrs pn ne es p (wf_each _ Hw) Hl Hs Hlt).
  destruct remove.
  - rewrite app_nil_r. done.
  - rewrite attrs_at_cons. unfold cov, covers, in_region, end_page, attr, attrs_at. cbn.
    replace (pn + (ne - pn)) with ne by lia.
    destruct (Z.leb_spec pn p), (Z.ltb_spec p ne); cbn; by rewrite ?app_nil_r.
Qed.

Lemma updated_wf pn ne pr mp ty remove es : wf_entries es -> 0 <= pn < ne -> ne <= PAGES ->
  Forall wf_entry (updated pn ne pr mp ty remove es).
Proof using.
  intros Hw Hpn Hne. unfold updated. apply Forall_app. split.
  - by apply carve_wf; [apply wf_each|..].
  - destruct remove; repeat constructor; cbn; unfold end_page; cbn; lia.
Qed.

(** Everything [VmmapUpdate] does before its last step. *)
Lemma VmmapUpdate_run m pn np pr mp ty remove :
  wf_map m -> 0 <= pn -> 0 < np -> pn + np <= PAGES ->
  exists es m3, es ≡ₚ entries m /\ StronglySorted before es /\
    VmmapUpdate true m pn np pr mp ty remove = VmmapRemoveMarked m3 /\
    repr m3 (updated pn (pn + np) pr mp ty remove es).
Proof using QS.
  intros Hm Hpn Hnp Hend. unfold VmmapUpdate, PAGES in *.
  destruct (MakeSorted_spec m Hm) as (m1 & -> & Hm1 & _ & Hp & Hss). cbn [mbind res_bind].
  rewrite (proj2 (Z.ltb_lt 0 np)) by done. cbn [CHECK mbind res_bind].
  rewrite u64_small by lia. destruct Hm1 as [Hr1 Hl1 Hw1 _].
  destruct (VmmapUpdate_loop_spec (S (nvalid m1)) [] (entries m1) m1 pn (pn + np)) as (m2 & Hrun & Hr2);
    [done|rewrite (repr_nvalid _ _ Hr1); lia|apply Hw1|lia|unfold PAGES; lia|].
  cbn [length app] in *. rewrite Hrun. cbn [mbind res_bind].
  exists (entries m1). destruct remove.
  - exists m2. split; [done|]. split; [done|]. split; [done|].
    unfold updated. by rewrite app_nil_r.
  - destruct (repr_add m2 _ pn np pr mp ty Hr2) as (m3 & -> & Hr3 & _).
    exists m3. split; [done|]. split; [done|]. split; [done|]. unfold updated.
    by replace (pn + np - pn) with np by lia.
Qed.

(** Dropping the marked entries keeps the page table. *)
Lemma RemoveMarked_page m3 es3 : repr m3 es3 -> Forall wf_entry es3 ->
  (forall p, (length (attrs_at p es3) <= 1)%nat) ->
  es3 = [] /\ is_sorted m3 = false \/ (exists p, attrs_at p es3 <> []) ->
  exists m', VmmapRemoveMarked m3 = Ok m' /\ wf_map m' /\
    forall p, page_lookup m' p = head (attrs_at p es3).
Proof using.
  intros Hr Hwf Hd [[-> Hs]|(p & Hp)].
  - exists m3. rewrite RemoveMarked_none by done. split; [done|].
    pose proof (repr_entries _ _ Hr) as E.
    split; [|intros p; unfold page_lookup; by rewrite E].
    constructor; rewrite ?E; [done|constructor|by constructor|congruence].
  - destruct (RemoveMarked_live m3 es3 Hr) as (m' & es' & Hrun & Hr' & Hp' & Hs').
    { apply attrs_at_exists in Hp as (e & He & Hcov). apply Exists_exists.
      exists e. split; [done|]. by eapply covers_live. }
    exists m'. split; [done|]. pose proof (repr_entries _ _ Hr') as E.
    assert (Hat : forall q, attrs_at q es' ≡ₚ attrs_at q es3).
    { intros q. rewrite Hp'. by rewrite attrs_at_live. }
    split.
    + constructor; rewrite ?E; [done| | |congruence].
      * unfold live. rewrite Hp'. apply Forall_forall. intros e He.
        by apply list_elem_of_filter in He as [? _].
      * constructor.
        -- rewrite Hp'. apply Forall_forall. intros e He. rewrite Forall_forall in Hwf.
           apply list_elem_of_filter in He as [_ He]. auto.
        -- intros q. by rewrite Hat.
    + intros q. unfold page_lookup. rewrite E. f_equal. by apply perm_head.
Qed.

(** The two ways for an update to leave some region behind. *)
Definition leaves (m : Vmmap) (pn np : Z) : Prop :=
  exists p, in_region pn (pn + np) p = false /\ page_lookup m p <> None.

Lemma VmmapUpdate_spec m pn np pr mp ty remove :
  wf_map m -> 0 <= pn -> 0 < np -> pn + np <= PAGES ->
  remove = false \/ leaves m pn np ->
  exists m', VmmapUpdate true m pn np pr mp ty remove = Ok m' /\ wf_map m' /\
    forall p, page_lookup m' p =
      if in_region pn (pn + np) p then (if remove then None else Some (pr, mp, ty))
      else page_lookup m p.
Proof using QS.
  intros Hm Hpn Hnp Hend Hrem.
  destruct (VmmapUpdate_run m pn np pr mp ty remove Hm Hpn Hnp Hend) as (es & m3 & Hp & Hs & Hrun & Hr3).
  pose proof Hm as [Hr Hl Hw _].
  assert (Hw' : wf_entries es) by (by eapply wf_entries_perm).
  assert (Hl' : live es) by (unfold live; by rewrite Hp).
  assert (Hat := fun p => updated_attrs pn (pn + np) pr mp ty remove es p Hw' Hl' Hs ltac:(lia)).
  assert (Hhead : forall p, head (attrs_at p es) = page_lookup m p).
  { intros p. unfold page_lookup. f_equal. apply perm_head; [by rewrite Hp|]. rewrite <- Hp. apply (wf_disjoint _ Hw'). }
  destruct (RemoveMarked_page m3 _ Hr3) as (m' & Hrun' & Hm' & Hlk).
  - apply updated_wf; [done|lia|done].
  - intros p. rewrite Hat. pose proof (wf_disjoint _ Hw' p).
    destruct (in_region _ _ _), remove; cbn; lia.
  - right. destruct Hrem as [->|(p & Hp1 & Hp2)].
    + exists pn. intros E. specialize (Hat pn). rewrite E in Hat.
      unfold in_region in Hat. rewrite Z.leb_refl, (proj2 (Z.ltb_lt pn _)) in Hat by lia.
      by apply Permutation_nil_cons in Hat.
    + exists p. intros E. specialize (Hat p). rewrite E, Hp1 in Hat.
      apply Hp2. rewrite <- Hhead. apply Permutation_nil in Hat. by rewrite Hat.
  - exists m'. rewrite Hrun. split; [done|]. split; [done|]. intros p. rewrite Hlk, <- Hhead.
    rewrite (perm_head _ _ (Hat p)).
    + by destruct (in_region _ _ _), remove.
    + pose proof (wf_disjoint _ Hw' p). destruct (in_region _ _ _), remove; cbn; lia.
Qed.
End facts.
