(* ===== verification/PagerCheck.v ===== *)
(** * Protections: checking and changing them

    The loops of [VmmapCheckExistingMapping] and [VmmapChangeProt] against
    the page table of [PagerFacts]. *)

From S2P Require Import Prelude Utils Pager PagerFacts.

(** ** The loops on lists of regions *)

(** Is every bit of [pr] within the maximal protection? *)
Definition permits (pr : Z) (a : Z * Z * VmmapEntryType) : bool :=
  Z.land pr (Z.lnot a.1.2) =? 0.

(** The loop of [VmmapCheckExistingMapping] on a list of regions. *)
Fixpoint checked (pn re pr : Z) (es : list VmmapEntry) : bool :=
  match es with
  | [] => false
  | e :: es' =>
    if (page_num e <=? pn) && (re <=? end_page e) then permits pr (attr e)
    else if (page_num e <=? pn) && (pn <? end_page e) then
      if negb (permits pr (attr e)) then false else checked (end_page e) re pr es'
    else if pn <? page_num e then false
    else checked pn re pr es'
  end.

(** Every page of the range is mapped with a sufficient maximal protection. *)
Definition all_permit (lookup : Z -> option (Z * Z * VmmapEntryType)) (pn re pr : Z) : Prop :=
  forall p, pn <= p < re -> exists a, lookup p = Some a /\ permits pr a = true.

(** What [VmmapChangeProt] does to the attributes of a page. *)
Definition with_prot (pr : Z) (a : Z * Z * VmmapEntryType) : Z * Z * VmmapEntryType :=
  (pr, a.1.2, a.2).

Definition same_range (e e' : VmmapEntry) : Prop :=
  page_num e' = page_num e /\ npages e' = npages e.

(** ** Checking *)
Lemma check_loop_spec fuel don todo m pn re pr :
  repr m (don ++ todo) -> (length todo < fuel)%nat -> Forall wf_entry todo ->
  check_loop fuel (length don) m pn re pr = Ok (checked pn re pr todo).
Proof.
  revert don todo pn. induction fuel as [|fuel IH]; intros don todo pn H Hf Hwf; [lia|].
  cbn [check_loop]. rewrite (repr_nvalid _ _ H), length_app.
  destruct todo as [|e todo].
  { rewrite (proj2 (Nat.ltb_ge _ _)) by (cbn; lia). done. }
  rewrite (proj2 (Nat.ltb_lt _ _)) by (cbn; lia).
  assert (Hlk : (don ++ e :: todo) !! length don = Some e) by (by rewrite list_lookup_middle).
  rewrite (repr_deref _ _ _ _ H Hlk). cbn [mbind res_bind].
  apply Forall_cons in Hwf as [He Hwf]. pose proof He as (H1 & H2 & H3).
  unfold end_page, PAGES in *. rewrite (u64_small (page_num e + npages e)) by lia.
  cbn [checked]. unfold end_page. change (Z.land pr (Z.lnot (max_prot e)) =? 0) with
    (permits pr (attr e)).
  assert (Hstep : forall q, check_loop fuel (S (length don)) m q re pr = Ok (checked q re pr todo)).
  { intros q. replace (S (length don)) with (length (don ++ [e])) by (rewrite length_app; cbn; lia).
    apply IH; [by rewrite <- app_assoc|cbn in Hf; lia|done]. }
  rewrite !Hstep. by repeat case_if.
Qed.

Lemma all_permit_ext f g pn re pr : (forall p, pn <= p < re -> f p = g p) ->
  all_permit f pn re pr <-> all_permit g pn re pr.
Proof.
  intros H. unfold all_permit. split; intros Ha p Hp; destruct (Ha p Hp) as (a & E & Hpa);
    exists a; split; try done; rewrite <- E; [by rewrite H|by rewrite H].
Qed.

(** On an ordered list only the first region matters below its end. *)
Lemma head_attrs_cons p e es : is_live e -> Forall (before e) es -> wf_entry e ->
  head (attrs_at p (e :: es)) =
    if p <? page_num e then None else if p <? end_page e then Some (attr e)
    else head (attrs_at p es).
Proof.
  intros Hl Hb (H1 & H2 & H3). rewrite attrs_at_cons. unfold cov, covers. rewrite Hl. cbn.
  destruct (Z.ltb_spec p (page_num e)), (Z.leb_spec (page_num e) p), (Z.ltb_spec p (end_page e));
    cbn; try lia; try done.
  all: rewrite (attrs_at_before p e es) by (done || unfold end_page in *; lia); done.
Qed.

Lemma checked_iff es pn re pr : Forall wf_entry es -> live es -> StronglySorted before es ->
  pn < re ->
  checked pn re pr es = true <-> all_permit (fun p => head (attrs_at p es)) pn re pr.
Proof.
  intros Hwf Hlive Hs. revert pn. induction Hs as [|e es Hs IH Hb]; intros pn Hlt; cbn [checked].
  { split; [done|]. intros H. destruct (H pn ltac:(lia)) as (a & Ha & _). done. }
  apply Forall_cons in Hwf as [He Hwf]. apply Forall_cons in Hlive as [Hl Hlive].
  specialize (IH Hwf Hlive). unfold all_permit. pose proof He as (H1 & H2 & H3).
  assert (Hh : forall p, head (attrs_at p (e :: es)) = _) by
    (intros p; exact (head_attrs_cons p e es Hl Hb He)).
  setoid_rewrite Hh.
  destruct (Z.leb_spec (page_num e) pn) as [C1|C1], (Z.leb_spec re (end_page e)) as [C2|C2],
    (Z.ltb_spec pn (end_page e)) as [C3|C3]; cbn [andb negb]; try (unfold end_page in *; lia).
  - (* within one region *)
    split.
    + intros H p Hp. rewrite (proj2 (Z.ltb_ge p _)), (proj2 (Z.ltb_lt p _)) by lia. eauto.
    + intros H. destruct (H pn ltac:(lia)) as (a & Ha & Hpa).
      rewrite (proj2 (Z.ltb_ge pn _)), (proj2 (Z.ltb_lt pn _)) in Ha by lia. by injection Ha as <-.
  - (* the range goes on past the region *)
    destruct (permits pr (attr e)) eqn:Hpe; cbn [negb].
    + rewrite IH by lia. unfold all_permit. split; intros H p Hp.
      * destruct (Z.ltb_spec p (page_num e)), (Z.ltb_spec p (end_page e)); try lia; [by eauto|].
        apply H. lia.
      * destruct (H p ltac:(lia)) as (a & Ha & Hpa). exists a.
        rewrite (proj2 (Z.ltb_ge p (page_num e))), (proj2 (Z.ltb_ge p (end_page e))) in Ha
          by (unfold end_page in *; lia). done.
    + split; [done|]. intros H. destruct (H pn ltac:(lia)) as (a & Ha & Hpa).
      rewrite (proj2 (Z.ltb_ge pn _)), (proj2 (Z.ltb_lt pn _)) in Ha by lia.
      injection Ha as <-. congruence.
  - (* the region lies before the range *)
    rewrite (proj2 (Z.ltb_ge pn _)) by lia. rewrite IH by lia. unfold all_permit.
    split; intros H p Hp; specialize (H p Hp);
      rewrite ?(proj2 (Z.ltb_ge p (page_num e))), ?(proj2 (Z.ltb_ge p (end_page e))) in * by lia; done.
  - (* the first page is not mapped *)
    rewrite (proj2 (Z.ltb_lt pn _)) by lia. split; [done|]. intros H.
    destruct (H pn ltac:(lia)) as (a & Ha & _). by rewrite (proj2 (Z.ltb_lt pn _)) in Ha by lia.
  - rewrite (proj2 (Z.ltb_lt pn _)) by lia. split; [done|]. intros H.
    destruct (H pn ltac:(lia)) as (a & Ha & _). by rewrite (proj2 (Z.ltb_lt pn _)) in Ha by lia.
Qed.

(** ** Changing protections *)

(** A turn of the loop that writes region [i] in place. *)
Lemma repr_write_at m don e todo e' : repr m (don ++ e :: todo) ->
  exists m', write_slot m (length don) e' = Ok m' /\ repr m' (don ++ e' :: todo) /\
    is_sorted m' = is_sorted m.
Proof.
  intros H. destruct (repr_write m _ (length don) e' H) as (m' & Hw & Hm' & _ & Hs).
  { rewrite length_app. cbn. lia. }
  exists m'. split; [done|]. split; [|done].
  by rewrite insert_app_r_alt, Nat.sub_diag in Hm' by lia.
Qed.

Lemma ChangeProt_loop_spec fuel don todo xs m pn ne pr :
  repr m (don ++ todo ++ xs) -> (length todo < fuel)%nat -> Forall wf_entry todo ->
  0 <= pn <= ne -> ne <= PAGES ->
  exists m', ChangeProt_loop true fuel (length don) (length don + length todo) m pn (ne - pn) ne pr
      = Ok m' /\
    repr m' (don ++ (reprot pn (ne - pn) ne pr todo).1 ++ xs ++ (reprot pn (ne - pn) ne pr todo).2) /\
    is_sorted m' = (match (reprot pn (ne - pn) ne pr todo).2 with [] => is_sorted m | _ => false end).
Proof.
  revert don todo xs m pn. induction fuel as [|fuel IH]; intros don todo xs m pn H Hf Hwf Hpn Hne; [lia|].
  cbn [ChangeProt_loop]. destruct todo as [|e todo].
  { rewrite (proj2 (Nat.ltb_ge _ _)) by (cbn; lia). cbn. rewrite app_nil_r. eauto. }
  rewrite (proj2 (Nat.ltb_lt (length don) _)) by (cbn; lia). cbn [andb reprot].
  destruct (Z.ltb_spec 0 (ne - pn)) as [Hlt|Hge]; cbn [negb].
  2: { cbn. rewrite app_nil_r. eauto. }
  cbn [length app] in H, Hf.
  assert (Hlk : (don ++ e :: todo ++ xs) !! length don = Some e) by (by rewrite list_lookup_middle).
  rewrite (repr_deref _ _ _ _ H Hlk). cbn [mbind res_bind].
  apply Forall_cons in Hwf as [He Hwf]. pose proof He as (H1 & H2 & H3).
  unfold end_page, PAGES in *. rewrite (u64_small (page_num e + npages e)) by lia.
  cbn [length]. rewrite Nat.add_succ_r.
  (* the recursive call, whatever was appended *)
  assert (Hrec : forall m1 e' ys q, repr m1 (don ++ e' :: todo ++ (xs ++ ys)) ->
    0 <= q <= ne ->
    exists m', ChangeProt_loop true fuel (S (length don)) (S (length don + length todo)) m1 q (ne - q) ne pr
      = Ok m' /\
    repr m' (don ++ (e' :: (reprot q (ne - q) ne pr todo).1) ++ xs ++ ys ++ (reprot q (ne - q) ne pr todo).2) /\
    is_sorted m' = (match (reprot q (ne - q) ne pr todo).2 with [] => is_sorted m1 | _ => false end)).
  { intros m1 e' ys q Hm1 Hq. destruct (IH (don ++ [e']) todo (xs ++ ys) m1 q) as (m' & Hr & Hm' & Hs);
      [by rewrite <- app_assoc|lia|done|done|done|].
    exists m'. rewrite length_app in Hr. cbn in Hr. rewrite Nat.add_1_r in Hr. split; [exact Hr|].
    split; [|done]. rewrite <- !app_assoc in Hm'. exact Hm'. }
  split_cmp; cbn [fst snd CHECK mbind res_bind]; rewrite ?u64_small by lia.
  - (* the region is inside the range *)
    destruct (repr_write_at _ _ _ _ (set_prot e pr) H) as (m1 & -> & Hm1 & Hs1). cbn [mbind res_bind].
    rewrite <- (app_nil_r xs) in Hm1.
    destruct (Hrec _ _ [] (page_num e + npages e) Hm1) as (m2 & Hr & Hm2 & Hs2); [lia|].
    exists m2. split; [exact Hr|].
    destruct (reprot (page_num e + npages e) _ ne pr todo) as [r x]. cbn [fst snd] in *.
    split; [exact Hm2|]. by rewrite Hs2, Hs1.
  - (* the region is after the range *)
    rewrite <- (app_nil_r xs) in H.
    destruct (Hrec _ _ [] pn H) as (m2 & Hr & Hm2 & Hs2); [lia|]. exists m2. split; [exact Hr|].
    destruct (reprot pn (ne - pn) ne pr todo) as [r x]. cbn [fst snd] in *. auto.
  - (* the range ends inside the region *)
    destruct (repr_add _ _ pn (ne - pn) pr (max_prot e) (vmmap_type e) H) as (m1 & -> & Hm1 & Hs1).
    cbn [mbind res_bind]. rewrite <- app_assoc in Hm1. cbn [app] in Hm1.
    destruct (repr_write_at _ _ _ _ (set_npages (set_page_num e ne) (page_num e + npages e - ne)) Hm1)
      as (m2 & Hw & Hm2 & Hs2).
    exists m2. split; [exact Hw|]. rewrite <- app_assoc in Hm2. split; [exact Hm2|congruence].
  - rewrite <- (app_nil_r xs) in H.
    destruct (Hrec _ _ [] pn H) as (m2 & Hr & Hm2 & Hs2); [lia|]. exists m2. split; [exact Hr|].
    destruct (reprot pn (ne - pn) ne pr todo) as [r x]. cbn [fst snd] in *. auto.
  - (* the range is inside the region *)
    destruct (repr_add _ _ ne (page_num e + npages e - ne) (prot e) (max_prot e) (vmmap_type e) H)
      as (m1 & -> & Hm1 & _). cbn [mbind res_bind]. rewrite <- app_assoc in Hm1. cbn [app] in Hm1.
    destruct (repr_write_at _ _ _ _ (set_npages e (pn - page_num e)) Hm1) as (m2 & -> & Hm2 & _).
    cbn [mbind res_bind].
    destruct (repr_add _ _ pn (ne - pn) pr (max_prot e) (vmmap_type e) Hm2) as (m3 & -> & Hm3 & Hs3).
    exists m3. split; [done|]. split; [|done]. rewrite <- !app_assoc in Hm3. cbn in Hm3.
    rewrite <- !app_assoc in Hm3. exact Hm3.
  - (* the region ends inside the range *)
    destruct (repr_write_at _ _ _ _ (set_npages e (pn - page_num e)) H) as (m1 & -> & Hm1 & _).
    cbn [mbind res_bind].
    destruct (repr_add _ _ pn (page_num e + npages e - pn) pr (max_prot e) (vmmap_type e) Hm1)
      as (m2 & -> & Hm2 & Hs2). cbn [mbind res_bind].
    rewrite <- app_assoc in Hm2. cbn [app] in Hm2. rewrite <- app_assoc in Hm2.
    destruct (Hrec _ _ _ (page_num e + npages e) Hm2) as (m3 & Hr & Hm3 & Hs3); [lia|].
    exists m3. split; [exact Hr|].
    destruct (reprot (page_num e + npages e) _ ne pr todo) as [r x]. cbn [fst snd] in *.
    split; [exact Hm3|]. rewrite Hs3. destruct x; congruence.
Qed.

(** Every page of the range is covered. *)
Definition covered (pn ne : Z) (es : list VmmapEntry) : Prop :=
  forall p, pn <= p < ne -> attrs_at p es <> [].

Lemma covered_tail pn q ne e es : covered pn ne (e :: es) -> pn <= q -> end_page e <= q ->
  covered q ne es.
Proof.
  intros H Hq He p Hp Hn. apply (H p ltac:(lia)). rewrite attrs_at_cons, Hn, app_nil_r.
  unfold cov, covers. by rewrite (proj2 (Z.ltb_ge p _)), andb_false_r by lia.
Qed.

(** The first page of a covered range lies at or after the first region. *)
Lemma covered_head pn ne e es : covered pn ne (e :: es) -> pn < ne -> Forall (before e) es ->
  wf_entry e -> page_num e <= pn.
Proof.
  intros H Hlt Hb (H1 & H2 & H3). destruct (decide (page_num e <= pn)) as [|Hn]; [done|].
  exfalso. apply (H pn ltac:(lia)). rewrite attrs_at_cons.
  rewrite (attrs_at_before pn e es) by (done || unfold end_page in *; lia). unfold cov, covers.
  by rewrite (proj2 (Z.leb_gt _ _)), andb_false_r by lia.
Qed.

Lemma attrs_at_mid p e r ys x :
  attrs_at p ((e :: r) ++ ys ++ x) ≡ₚ cov p e ++ attrs_at p ys ++ attrs_at p (r ++ x).
Proof.
  rewrite !attrs_at_app, attrs_at_cons, <- app_assoc. f_equiv.
  apply Permutation_app_swap_app.
Qed.

Lemma attrs_at_nil p : attrs_at p [] = [].
Proof. done. Qed.

(** Compare the attributes of a page around one region: either the page lies
    outside the region or the rest [L] of the map says nothing about it. *)
Ltac solve_mid e p pn ne Hat Hl :=
  rewrite ?attrs_at_cons, ?attrs_at_nil, ?app_nil_r;
  revert Hat; generalize (attrs_at p); intros at' Hat;
  unfold in_region, cov, covers, end_page, attr, with_prot in *; cbn in *; rewrite ?Hl; cbn;
  destruct (Z.leb_spec pn p), (Z.ltb_spec p ne), (Z.leb_spec (page_num e) p),
    (Z.ltb_spec p (page_num e + npages e)); cbn [andb negb]; try lia;
  rewrite ?Hat by lia; split_cmp; cbn; try done; try lia.

Lemma reprot_attrs es pn ne pr p : Forall wf_entry es -> live es -> StronglySorted before es ->
  0 <= pn <= ne -> ne <= PAGES -> covered pn ne es ->
  attrs_at p ((reprot pn (ne - pn) ne pr es).1 ++ (reprot pn (ne - pn) ne pr es).2) ≡ₚ
    (if in_region pn ne p then with_prot pr <$> attrs_at p es else attrs_at p es).
Proof.
  intros Hwf Hlive Hs. revert pn.
  induction Hs as [|e es Hs IH Hb]; intros pn Hpn Hne Hcov; cbn [reprot].
  { cbn. by destruct (in_region pn ne p). }
  destruct (Z.ltb_spec 0 (ne - pn)) as [Hlt|Hge]; cbn [negb fst snd].
  2: { rewrite app_nil_r. unfold in_region.
       destruct (Z.leb_spec pn p), (Z.ltb_spec p ne); cbn; try done; lia. }
  apply Forall_cons in Hwf as [He Hwf]. apply Forall_cons in Hlive as [Hl Hlive].
  specialize (IH Hwf Hlive). pose proof He as (H1 & H2 & H3).
  pose proof (covered_head _ _ _ _ Hcov ltac:(lia) Hb He) as Hpn'.
  assert (Hat : p < end_page e -> attrs_at p es = []) by (by apply attrs_at_before).
  assert (Hnext : end_page e <= ne -> pn <= end_page e ->
    attrs_at p ((reprot (end_page e) (ne - end_page e) ne pr es).1 ++
                (reprot (end_page e) (ne - end_page e) ne pr es).2) ≡ₚ
    (if in_region (end_page e) ne p then with_prot pr <$> attrs_at p es else attrs_at p es)).
  { intros ??. apply IH; [unfold end_page in *; lia|done|]. by eapply covered_tail. }
  assert (Hskip : end_page e <= pn ->
    attrs_at p ((reprot pn (ne - pn) ne pr es).1 ++ (reprot pn (ne - pn) ne pr es).2) ≡ₚ
    (if in_region pn ne p then with_prot pr <$> attrs_at p es else attrs_at p es)).
  { intros ?. apply IH; [lia|done|]. by eapply covered_tail. }
  clear IH Hcov.
  destruct (Z.ltb_spec (page_num e) pn), (Z.ltb_spec ne (end_page e)), (Z.ltb_spec pn (end_page e)),
    (Z.ltb_spec (page_num e) ne), (Z.leb_spec (end_page e) ne), (Z.leb_spec pn (page_num e));
    cbn [andb fst snd]; try lia; try (unfold end_page in *; lia);
    rewrite ?u64_small by (unfold end_page, PAGES in *; lia).
  - match goal with |- attrs_at p (_ ++ ?x) ≡ₚ _ => rewrite <- (app_nil_r x) end.
    rewrite attrs_at_mid. solve_mid e p pn ne Hat Hl.
  - destruct (reprot (end_page e) (ne - end_page e) ne pr es) as [r x]. cbn [fst snd] in *.
    match goal with |- attrs_at p ((_ :: r) ++ ?y :: x) ≡ₚ _ => change (y :: x) with ([y] ++ x) end.
    rewrite attrs_at_mid, Hnext by lia. solve_mid e p pn ne Hat Hl.
  - destruct (reprot pn (ne - pn) ne pr es) as [r x]. cbn [fst snd] in *.
    rewrite (attrs_at_mid p _ r [] x : attrs_at p ((_ :: r) ++ x) ≡ₚ _), Hskip by lia. solve_mid e p pn ne Hat Hl.
  - match goal with |- attrs_at p (_ ++ ?x) ≡ₚ _ => rewrite <- (app_nil_r x) end.
    rewrite attrs_at_mid. solve_mid e p pn ne Hat Hl.
  - destruct (reprot (end_page e) (ne - end_page e) ne pr es) as [r x]. cbn [fst snd] in *.
    rewrite (attrs_at_mid p _ r [] x : attrs_at p ((_ :: r) ++ x) ≡ₚ _), Hnext by lia. solve_mid e p pn ne Hat Hl.
Qed.

Lemma reprot_wf es pn ne pr : Forall wf_entry es -> 0 <= pn <= ne -> ne <= PAGES ->
  Forall wf_entry (reprot pn (ne - pn) ne pr es).1 /\
  Forall wf_entry (reprot pn (ne - pn) ne pr es).2.
Proof.
  intros Hwf. revert pn. induction Hwf as [|e es He Hwf IH]; intros pn Hpn Hne; cbn [reprot].
  { auto. }
  pose proof He as (H1 & H2 & H3). unfold end_page, PAGES in H3, Hne |- *.
  destruct (Z.ltb_spec 0 (ne - pn)) as [Hlt|Hge]; cbn [negb fst snd].
  2: { split; constructor; auto. }
  split_cmp; rewrite ?u64_small by lia; cbn [fst snd];
    try (destruct (IH (page_num e + npages e)) as [IH1 IH2]; [lia|done|]);
    try (destruct (IH pn) as [IH3 IH4]; [lia|done|]);
    repeat match goal with |- context [let '(_, _) := ?t in _] => destruct t; cbn [fst snd] in * end;
    (split; repeat constructor); auto; unfold wf_entry, end_page, PAGES; cbn; lia.
Qed.

Lemma reprot_live es pn ne pr np : live es ->
  live (reprot pn np ne pr es).1 /\ live (reprot pn np ne pr es).2.
Proof.
  intros Hl. revert pn np. induction Hl as [|e es He Hl IH]; intros pn np; cbn [reprot].
  { split; constructor. }
  destruct (IH (end_page e) (u64 (ne - end_page e))) as [IH1 IH2]. destruct (IH pn np) as [IH3 IH4].
  repeat case_if; cbn [fst snd];
    repeat match goal with |- context [let '(_, _) := ?t in _] => destruct t; cbn [fst snd] in * end;
    split; repeat constructor; auto.
Qed.

(** When nothing was split off, the regions are where they were. *)
Lemma reprot_same_ranges es pn ne pr np : (reprot pn np ne pr es).2 = [] ->
  Forall2 same_range es (reprot pn np ne pr es).1.
Proof.
  assert (Hrefl : forall l, Forall2 same_range l l) by (induction l; constructor; done).
  revert pn np. induction es as [|e es IH]; intros pn np; cbn [reprot]; [done|].
  pose proof (IH (end_page e) (u64 (ne - end_page e))) as IH1. pose proof (IH pn np) as IH2.
  repeat case_if; cbn [fst snd]; try done;
    repeat match goal with |- context [let '(_, _) := ?t in _] => destruct t; cbn [fst snd] in * end;
    try done; intros ->; constructor; auto; done.
Qed.

Lemma same_ranges_sorted es es' : Forall2 same_range es es' -> StronglySorted before es ->
  StronglySorted before es'.
Proof.
  intros H Hs. revert es' H. induction Hs as [|e es Hs IH Hb]; intros es' H; inversion H; subst.
  { constructor. }
  constructor; [auto|]. clear H Hs IH. rename H2 into He, H4 into Hes.
  apply Forall_forall. intros e2 He2.
  apply list_elem_of_lookup in He2 as (i & Hi).
  destruct (Forall2_lookup_r _ _ _ _ _ Hes Hi) as (e1 & Hi1 & Hr).
  rewrite Forall_forall in Hb. assert (Hb1 : before e e1) by (eapply Hb, list_elem_of_lookup_2; done).
  unfold before, end_page, same_range in *. lia.
Qed.
