(* ===== verification/PagerSpec.v ===== *)
(** * What the memory map promises

    The operations of [pager.c] as operations on a page table
    [page_lookup m : Z -> option (protection, maximal protection, type)].
    A well-formed map stays well-formed through each of them. *)

From S2P Require Import Prelude Utils Smoothsort SmoothsortSpec Pager PagerFacts PagerCheck.

(** A map with three regions and a hole between the last two. *)
Definition sample_map : Vmmap :=
  mkVmmap [Some (mkEntry 32 4 1 3 VMMAP_ENTRY_MAPPED false);
           Some (mkEntry 16 8 3 3 VMMAP_ENTRY_ANONYMOUS false);
           Some (mkEntry 24 2 5 7 VMMAP_ENTRY_MAPPED false); None] 3 4 false.

(** No page of [s, s+n) is mapped. *)
Definition free (m : Vmmap) (s n : Z) : Prop :=
  forall p, s <= p < s + n -> page_lookup m p = None.

(** [s, s+n) is free and lies between two mapped pages. *)
Definition gap (m : Vmmap) (s n : Z) : Prop :=
  free m s n /\ (exists p, p < s /\ page_lookup m p <> None) /\
  (exists p, s + n <= p /\ page_lookup m p <> None).

(** ** Gaps of an ordered list *)
Definition mapped (es : list VmmapEntry) (p : Z) : Prop := attrs_at p es <> [].

Definition gap_at (es : list VmmapEntry) (i : nat) (lo hi : Z) : Prop :=
  exists e1 e2, es !! i = Some e1 /\ es !! S i = Some e2 /\ lo = end_page e1 /\ hi = page_num e2.

Lemma wf_entries_dec_lemma (es : list VmmapEntry) : Forall wf_entry es -> live es ->
  StronglySorted before es -> wf_entries es.
Proof.
  intros Hwf Hl Hs. constructor; [done|]. intros p.
  induction Hs as [|e es Hs IH Hb]; [rewrite attrs_at_nil; cbn; lia|].
  apply Forall_cons in Hwf as [He Hwf]. apply Forall_cons in Hl as [Hr Hl].
  rewrite attrs_at_cons, length_app. specialize (IH Hwf Hl).
  destruct (decide (p < end_page e)) as [Hp|Hp].
  - rewrite (attrs_at_before p e es) by done. pose proof (cov_length p e). cbn [length]. lia.
  - unfold cov, covers. rewrite (proj2 (Z.ltb_ge p (end_page e))), andb_false_r by lia. done.
Qed.

Lemma sample_map_wf : wf_map sample_map.
Proof.
  constructor; cbn.
  - constructor; cbn; [done|lia|done|done].
  - repeat constructor.
  - apply (wf_entries_perm [mkEntry 16 8 3 3 VMMAP_ENTRY_ANONYMOUS false;
      mkEntry 24 2 5 7 VMMAP_ENTRY_MAPPED false; mkEntry 32 4 1 3 VMMAP_ENTRY_MAPPED false]).
    + symmetry. apply (Permutation_app_comm [_] [_; _]).
    + apply wf_entries_dec_lemma.
      * repeat (apply Forall_cons; split; [unfold wf_entry, end_page, PAGES; cbn; lia|]). by apply Forall_nil.
      * repeat constructor.
      * repeat constructor; unfold before, end_page; cbn; lia.
  - done.
Qed.

Lemma sorted_lookup es i j e1 e2 : StronglySorted before es -> (i < j)%nat ->
  es !! i = Some e1 -> es !! j = Some e2 -> before e1 e2.
Proof.
  intros Hs. revert i j. induction Hs as [|e es Hs IH Hb]; intros i j Hij H1 H2; [done|].
  destruct j as [|j]; [lia|]. cbn in H2. destruct i as [|i]; cbn in H1.
  - injection H1 as <-. rewrite Forall_forall in Hb. by eapply Hb, list_elem_of_lookup_2.
  - apply (IH i j); [lia|done|done].
Qed.

Section gaps.
Context (es : list VmmapEntry).
Hypothesis Hwf : Forall wf_entry es.
Hypothesis Hlive : live es.

Lemma lookup_wf i e : es !! i = Some e -> wf_entry e /\ is_live e.
Proof using Hwf Hlive.
  intros H. apply list_elem_of_lookup_2 in H. unfold live in Hlive.
  split; [by eapply Forall_forall in Hwf|by eapply Forall_forall in Hlive].
Qed.

Lemma mapped_lookup p : mapped es p <->
  exists i e, es !! i = Some e /\ page_num e <= p < end_page e.
Proof using Hwf Hlive.
  split.
  - intros H. apply attrs_at_exists in H as (e & He & Hc).
    apply list_elem_of_lookup in He as (i & Hi). exists i, e. split; [done|].
    unfold covers in Hc. bool_lia.
  - intros (i & e & Hi & Hp). destruct (lookup_wf _ _ Hi) as [_ Hl].
    intros Hn. pose proof (attrs_at_pos p e es ltac:(by eapply list_elem_of_lookup_2)) as H.
    unfold covers in H. rewrite Hl, Hn in H. cbn in H.
    rewrite (proj2 (Z.leb_le _ _)), (proj2 (Z.ltb_lt _ _)) in H by lia. specialize (H eq_refl). lia.
Qed.

(** Between consecutive regions nothing is mapped. *)
Lemma gap_at_free i lo hi p : StronglySorted before es -> gap_at es i lo hi -> lo <= p < hi ->
  ~ mapped es p.
Proof using Hwf Hlive.
  intros Hs (e1 & e2 & H1 & H2 & -> & ->) Hp Hm.
  apply mapped_lookup in Hm as (j & e & Hj & Hpe).
  destruct (lookup_wf _ _ H1) as [(?&?&?) _], (lookup_wf _ _ H2) as [(?&?&?) _].
  destruct (lt_eq_lt_dec j i) as [[Hlt| ->]|Hlt].
  - pose proof (sorted_lookup _ _ _ _ _ Hs Hlt Hj H1). unfold before, end_page in *. lia.
  - rewrite H1 in Hj. injection Hj as <-. lia.
  - destruct (decide (j = S i)) as [->|Hne].
    + rewrite H2 in Hj. injection Hj as <-. lia.
    + assert (Hlt2 : (S i < j)%nat) by lia.
      pose proof (sorted_lookup _ _ _ _ _ Hs Hlt2 H2 Hj). unfold before, end_page in *. lia.
Qed.

Lemma mapped_start i e : es !! i = Some e -> mapped es (page_num e).
Proof using Hwf Hlive.
  intros H. destruct (lookup_wf _ _ H) as [(?&?&?) _]. apply mapped_lookup.
  exists i, e. unfold end_page. split; [done|lia].
Qed.

Lemma mapped_last i e : es !! i = Some e -> mapped es (end_page e - 1).
Proof using Hwf Hlive.
  intros H. destruct (lookup_wf _ _ H) as [(?&?&?) _]. apply mapped_lookup.
  exists i, e. unfold end_page. split; [done|lia].
Qed.
End gaps.

(** Every free window between two mapped pages lies between two
    consecutive regions. *)
Lemma gap_between es s n p q : Forall wf_entry es -> live es -> StronglySorted before es ->
  0 < n -> (forall x, s <= x < s + n -> ~ mapped es x) -> mapped es p -> p < s ->
  mapped es q -> s + n <= q ->
  exists i lo hi, gap_at es i lo hi /\ lo <= s /\ s + n <= hi.
Proof.
  intros Hwf Hl Hs Hn. revert p. induction Hs as [|e es Hs IH Hb]; intros p Hfree Hp Hps Hq Hqs.
  { by apply (mapped_lookup [] Hwf Hl) in Hp as (i & e & ? & _). }
  pose proof (mapped_lookup _ Hwf Hl) as Hm.
  assert (Hnot : ~ (page_num e <= s < end_page e)).
  { intros H. apply (Hfree s); [lia|]. apply Hm. by exists 0%nat, e. }
  apply Hm in Hp as (i & e1 & Hi & Hpe), Hq as (j & e2 & Hj & Hqe).
  apply Forall_cons in Hwf as [He Hwf'], Hl as [Hle Hl'].
  destruct es as [|e' es].
  { destruct i, j; cbn in Hi, Hj; try done. injection Hi as <-. injection Hj as <-. lia. }
  assert (Hee : before e e') by (by apply Forall_cons in Hb as [? _]). unfold before in Hee.
  pose proof (mapped_start _ Hwf' Hl' 0 e' eq_refl) as Hm'.
  assert (Hlow : forall k ek, (e' :: es) !! k = Some ek -> page_num e' <= page_num ek).
  { intros [|k] ek Hk; [by injection Hk as <-|].
    pose proof (sorted_lookup _ 0 (S k) e' ek Hs ltac:(lia) eq_refl Hk) as Hbe.
    destruct (lookup_wf _ Hwf' Hl' 0 e' eq_refl) as [(?&?&?) _]. unfold before, end_page in *. lia. }
  assert (Hlift : forall x, mapped (e' :: es) x -> mapped (e :: e' :: es) x).
  { intros x (k & ek & Hk & Hx)%(mapped_lookup _ Hwf' Hl'). apply Hm. by exists (S k), ek. }
  destruct (decide (s + n <= page_num e')) as [Hc|Hc].
  - exists 0%nat, (end_page e), (page_num e'). split; [by exists e, e'|]. split; [|done].
    destruct i as [|i]; cbn in Hi; [injection Hi as <-; lia|]. specialize (Hlow _ _ Hi). lia.
  - assert (Hlt : page_num e' < s).
    { destruct (decide (page_num e' < s)); [done|]. exfalso.
      apply (Hfree (page_num e')); [lia|]. by apply Hlift. }
    destruct (IH Hwf' Hl' (page_num e')) as (k & lo & hi & Hg & Hb1); try done.
    + intros x Hx Hmx. by apply (Hfree x Hx), Hlift.
    + destruct j as [|j]; cbn in Hj; [injection Hj as <-; lia|].
      apply (mapped_lookup _ Hwf' Hl'). by exists j, e2.
    + exists (S k), lo, hi. done.
Qed.

(** ** The searches *)
Lemma gap_at_bounds es i lo hi : Forall wf_entry es -> live es -> gap_at es i lo hi ->
  StronglySorted before es -> 0 < lo <= hi /\ hi < PAGES /\ (S i < length es)%nat.
Proof.
  intros Hwf Hl (e1 & e2 & H1 & H2 & -> & ->) Hs.
  pose proof (sorted_lookup _ i (S i) e1 e2 Hs ltac:(lia) H1 H2).
  destruct (lookup_wf _ Hwf Hl _ _ H1) as [(?&?&?) _], (lookup_wf _ Hwf Hl _ _ H2) as [(?&?&?) _].
  apply lookup_lt_Some in H2. unfold before, end_page in *. lia.
Qed.

Lemma gap_at_exists es i : (S i < length es)%nat -> exists lo hi, gap_at es i lo hi.
Proof.
  intros H. destruct (lookup_lt_is_Some_2 es i ltac:(lia)) as (e1 & H1).
  destruct (lookup_lt_is_Some_2 es (S i) H) as (e2 & H2).
  exists (end_page e1), (page_num e2), e1, e2. done.
Qed.

Lemma gap_at_fun es i lo hi lo' hi' : gap_at es i lo hi -> gap_at es i lo' hi' ->
  lo' = lo /\ hi' = hi.
Proof. intros (e1 & e2 & H1 & H2 & -> & ->) (e3 & e4 & H3 & H4 & -> & ->). by simplify_eq. Qed.

(** Downwards: the last gap that is wide enough. *)
Lemma find_down_spec m es n i : repr m es -> Forall wf_entry es -> live es ->
  StronglySorted before es -> 0 < n < 2 ^ 64 -> (i <= length es)%nat ->
  exists r, find_down i m n = Ok r /\
   ((r = 0 /\ forall j lo hi, (S j < i)%nat -> gap_at es j lo hi -> hi - lo < n) \/
    (exists j lo hi, (S j < i)%nat /\ gap_at es j lo hi /\ n <= hi - lo /\ r = hi - n /\
      forall k lo hi, (j < k)%nat -> (S k < i)%nat -> gap_at es k lo hi -> hi - lo < n)).
Proof.
  intros Hr Hwf Hl Hs Hn. induction i as [|i IH]; intros Hi; cbn [find_down].
  { exists 0. split; [done|]. left. split; [done|]. intros; lia. }
  destruct (Nat.ltb_spec 0 i) as [Hpos|Hpos].
  2: { exists 0. split; [done|]. left. split; [done|]. intros; lia. }
  destruct i as [|i]; [lia|]. cbn [Nat.sub]. rewrite Nat.sub_0_r.
  destruct (gap_at_exists es i ltac:(lia)) as (lo & hi & Hg).
  pose proof (gap_at_bounds _ _ _ _ Hwf Hl Hg Hs) as (Hb1 & Hb2 & _).
  pose proof Hg as (e1 & e2 & H1 & H2 & -> & ->).
  rewrite (repr_deref _ _ _ _ Hr H1), (repr_deref _ _ _ _ Hr H2). cbn [mbind res_bind].
  fold (end_page e1). unfold PAGES in *. rewrite (u64_small (end_page e1)) by lia.
  rewrite (u64_small (page_num e2 - _)) by lia.
  destruct (Z.leb_spec n (page_num e2 - end_page e1)) as [Hc|Hc].
  - rewrite u64_small by lia. eexists. split; [done|]. right.
    exists i, (end_page e1), (page_num e2). split_and!; try done; intros; lia.
  - destruct (IH ltac:(lia)) as (r & Hrun & Hspec). exists r. split; [done|].
    assert (Hlast : forall k lo hi, gap_at es k lo hi -> k = i -> hi - lo < n).
    { intros k lo hi Hk ->. destruct (gap_at_fun _ _ _ _ _ _ Hg Hk) as [-> ->]. done. }
    destruct Hspec as [[-> Hno]|(j & lo & hi & Hj & Hgj & Hw & -> & Hno)]; [left|right].
    + split; [done|]. intros j lo hi Hj Hgj. destruct (decide (j = i)); [by eapply Hlast|].
      apply (Hno j lo hi); [lia|done].
    + exists j, lo, hi. split_and!; try done; [lia|]. intros k lo' hi' Hk1 Hk2 Hgk.
      destruct (decide (k = i)); [by eapply Hlast|]. apply (Hno k lo' hi'); [lia|lia|done].
Qed.

(** The lowest free page of a gap at or above the hint. *)
Definition hinted (u lo hi : Z) : Z := if (lo <=? u) && (u <? hi) then u else lo.

(** Upwards: the first gap that is wide enough above the hint. *)
Lemma find_up_spec m es u n fuel i : repr m es -> Forall wf_entry es -> live es ->
  StronglySorted before es -> 0 < n < 2 ^ 64 -> (length es - i < fuel)%nat -> (0 < i)%nat ->
  let fits lo hi := u <= hinted u lo hi /\ n <= hi - hinted u lo hi in
  exists r, find_up fuel i m u n = Ok r /\
   ((r = 0 /\ forall j lo hi, (i <= S j)%nat -> gap_at es j lo hi -> ~ fits lo hi) \/
    (exists j lo hi, gap_at es j lo hi /\ fits lo hi /\ r = hinted u lo hi /\
      forall k lo hi, (k < j)%nat -> (i <= S k)%nat -> gap_at es k lo hi -> ~ fits lo hi)).
Proof.
  intros Hr Hwf Hl Hs Hn Hf H0 fits. revert i H0 Hf.
  induction fuel as [|fuel IH]; intros i H0 Hf; cbn [find_up]; [lia|].
  rewrite (repr_nvalid _ _ Hr). destruct (Nat.ltb_spec i (length es)) as [Hi|Hi].
  2: { exists 0. split; [done|]. left. split; [done|]. intros j lo hi Hj Hg _.
       pose proof (gap_at_bounds _ _ _ _ Hwf Hl Hg Hs) as (_ & _ & ?). lia. }
  destruct i as [|i]; [lia|]. cbn [Nat.sub]. rewrite Nat.sub_0_r.
  destruct (gap_at_exists es i ltac:(lia)) as (lo & hi & Hg).
  pose proof (gap_at_bounds _ _ _ _ Hwf Hl Hg Hs) as (Hb1 & Hb2 & _).
  pose proof Hg as (e1 & e2 & H1 & H2 & -> & ->).
  rewrite (repr_deref _ _ _ _ Hr H1), (repr_deref _ _ _ _ Hr H2). cbn [mbind res_bind].
  fold (end_page e1). unfold PAGES in *. rewrite (u64_small (end_page e1)) by lia.
  fold (hinted u (end_page e1) (page_num e2)).
  assert (Hh : end_page e1 <= hinted u (end_page e1) (page_num e2) <= page_num e2).
  { unfold hinted. split_cmp. }
  rewrite u64_small by lia.
  destruct ((u <=? hinted u (end_page e1) (page_num e2)) &&
            (n <=? page_num e2 - hinted u (end_page e1) (page_num e2))) eqn:Hc.
  - apply andb_true_iff in Hc as [Hc1%Z.leb_le Hc2%Z.leb_le]. eexists. split; [done|]. right.
    exists i, (end_page e1), (page_num e2). split; [done|]. split; [by split|]. split; [done|].
    intros; lia.
  - assert (Hlast : forall k lo hi, gap_at es k lo hi -> k = i -> ~ fits lo hi).
    { intros k lo hi Hk -> [F1 F2]. destruct (gap_at_fun _ _ _ _ _ _ Hg Hk) as [-> ->].
      rewrite (proj2 (Z.leb_le _ _)), (proj2 (Z.leb_le _ _)) in Hc by done. done. }
    destruct (IH (S (S i)) ltac:(lia) ltac:(lia)) as (r & Hrun & Hspec). exists r. split; [done|].
    destruct Hspec as [[-> Hno]|(j & lo & hi & Hgj & Hw & -> & Hno)]; [left|right].
    + split; [done|]. intros j lo hi Hj Hgj. destruct (decide (j = i)); [by eapply Hlast|].
      apply (Hno j lo hi); [lia|done].
    + exists j, lo, hi. split_and!; try done. intros k lo' hi' Hk1 Hk2 Hgk.
      destruct (decide (k = i)); [by eapply Hlast|]. apply (Hno k lo' hi'); [lia|lia|done].
Qed.

(** ** The operations *)
Section spec.
Context `{QS : QsortSpec}.

(** Adding a region over free pages. *)
Lemma VmmapAdd_spec m pn np pr mp ty :
  wf_map m -> 0 <= pn -> 0 < np -> pn + np <= PAGES -> free m pn np ->
  exists m', VmmapAdd true m pn np pr mp ty = Ok m' /\ wf_map m' /\
    forall p, page_lookup m' p = if in_region pn (pn + np) p then Some (pr, mp, ty) else page_lookup m p.
Proof using.
  intros [Hr Hl Hw _] Hpn Hnp Hend Hfree.
  destruct (repr_add m (entries m) pn np pr mp ty Hr) as (m' & Hrun & Hr' & Hs').
  exists m'. split; [done|]. pose proof (repr_entries _ _ Hr') as E.
  assert (Hat : forall p, attrs_at p (entries m') =
    attrs_at p (entries m) ++ if in_region pn (pn + np) p then [(pr, mp, ty)] else []).
  { intros p. rewrite E, attrs_at_app, attrs_at_cons. unfold cov, covers, in_region, end_page, attr. cbn.
    by destruct ((pn <=? p) && (p <? pn + np)). }
  assert (Hnone : forall p, in_region pn (pn + np) p = true -> attrs_at p (entries m) = []).
  { intros p Hp. apply page_lookup_None, Hfree. unfold in_region in Hp. bool_lia. }
  split.
  - constructor; [by rewrite E| | |congruence].
    + rewrite E. apply Forall_app. split; [done|]. by repeat constructor.
    + constructor.
      * rewrite E. apply Forall_app. split; [apply Hw|]. repeat constructor; cbn; unfold end_page; cbn; lia.
      * intros p. rewrite Hat, length_app. pose proof (wf_disjoint _ Hw p).
        destruct (in_region pn (pn + np) p) eqn:Hp; [rewrite (Hnone p Hp)|]; cbn; lia.
  - intros p. unfold page_lookup. rewrite Hat. destruct (in_region pn (pn + np) p) eqn:Hp.
    + by rewrite (Hnone p Hp).
    + by rewrite app_nil_r.
Qed.

(** What sorting gives an operation to work with. *)
Lemma MakeSorted_use m : wf_map m -> exists m', VmmapMakeSorted m = Ok m' /\ wf_map m' /\
  repr m' (entries m') /\ Forall wf_entry (entries m') /\ live (entries m') /\
  StronglySorted before (entries m') /\ (forall p, page_lookup m' p = page_lookup m p) /\
  nvalid m' = length (entries m').
Proof using QS.
  intros Hm. destruct (MakeSorted_spec m Hm) as (m' & Hrun & Hm' & _ & Hp & Hs).
  exists m'. pose proof Hm' as [Hr Hl Hw _]. split_and!; try done.
  - apply Hw.
  - by apply page_lookup_perm.
  - apply (repr_nvalid _ _ Hr).
Qed.

Lemma mapped_page m p : mapped (entries m) p <-> page_lookup m p <> None.
Proof using. unfold mapped. by rewrite page_lookup_None. Qed.

(** A gap of the page table is a gap between two regions. *)
Lemma gap_entries m s n : wf_map m -> StronglySorted before (entries m) -> 0 < n -> gap m s n ->
  exists i lo hi, gap_at (entries m) i lo hi /\ lo <= s /\ s + n <= hi.
Proof using.
  intros [Hr Hl Hw _] Hs Hn (Hf & (p & Hp & Hmp) & (q & Hq & Hmq)).
  apply (gap_between _ s n p q); try done.
  - apply Hw.
  - intros x Hx Hm. apply mapped_page in Hm. by apply Hm, Hf.
  - by apply mapped_page.
  - by apply mapped_page.
Qed.

(** A part of the space between two regions is a gap of the page table. *)
Lemma gap_of_entries m i lo hi s n : wf_map m -> StronglySorted before (entries m) ->
  gap_at (entries m) i lo hi -> lo <= s -> s + n <= hi -> gap m s n /\ page_lookup m hi <> None.
Proof using.
  intros [Hr Hl Hw _] Hs Hg Hlo Hhi. pose proof (wf_each _ Hw) as He.
  pose proof Hg as (e1 & e2 & H1 & H2 & -> & ->).
  pose proof (mapped_start _ He Hl _ _ H2) as Hm2. pose proof (mapped_last _ He Hl _ _ H1) as Hm1.
  rewrite mapped_page in Hm1, Hm2. split; [|done]. split; [|split].
  - intros p Hp. destruct (page_lookup m p) eqn:E; [|done]. exfalso.
    eapply (gap_at_free _ He Hl _ _ _ p Hs Hg); [lia|]. apply mapped_page. congruence.
  - exists (end_page e1 - 1). split; [lia|done].
  - by exists (page_num e2).
Qed.

Lemma gap_ext m m' s n : (forall p, page_lookup m' p = page_lookup m p) -> gap m' s n <-> gap m s n.
Proof using. intros H. unfold gap, free. by setoid_rewrite H. Qed.

Lemma Check_spec m pn np pr :
  wf_map m -> 0 <= pn -> 0 < np -> pn + np <= PAGES ->
  exists m' b, VmmapCheckExistingMapping m pn np pr = Ok (m', b) /\ wf_map m' /\
    (forall p, page_lookup m' p = page_lookup m p) /\
    (b = true <-> all_permit (page_lookup m) pn (pn + np) pr).
Proof using QS.
  intros Hm Hpn Hnp Hend. unfold VmmapCheckExistingMapping.
  destruct (MakeSorted_use m Hm) as (m' & Hrun & Hm' & Hr' & Hw' & Hl' & Hs' & Hlk & Hn).
  destruct (Nat.eqb_spec (nvalid m) 0) as [E|E].
  - exists m, false. do 3 (split; [done|]). split; [done|]. intros H. exfalso.
    destruct (H pn ltac:(lia)) as (a & Ha & _). unfold page_lookup in Ha.
    pose proof (wf_repr _ Hm) as Hr. rewrite (repr_nvalid _ _ Hr) in E.
    destruct (entries m); [done|discriminate].
  - rewrite Hrun. unfold PAGES in Hend. cbn [mbind res_bind]. rewrite u64_small by lia.
    rewrite (check_loop_spec _ [] (entries m')) by (done || rewrite Hn; lia). cbn [mbind res_bind].
    eexists _, _. do 3 (split; [done|]). rewrite checked_iff by (done || lia).
    apply all_permit_ext. intros p _. apply Hlk.
Qed.

(** C1.  [VmmapAddWithOverwrite] maps exactly the pages of the range with the
    given attributes, leaves every other page alone, and keeps the map
    well-formed, whatever the range overlaps. *)
Theorem VmmapAddWithOverwrite_refines m pn np pr mp ty :
  wf_map m -> 0 <= pn -> 0 < np -> pn + np <= PAGES ->
  exists m', VmmapAddWithOverwrite true m pn np pr mp ty = Ok m' /\ wf_map m' /\
    forall p, page_lookup m' p =
      if in_region pn (pn + np) p then Some (pr, mp, ty) else page_lookup m p.
Proof using QS.
  intros Hm Hpn Hnp Hend.
  destruct (VmmapUpdate_spec m pn np pr mp ty false Hm Hpn Hnp Hend) as (m' & H1 & H2 & H3); eauto.
Qed.

(** C2.  [VmmapRemove] unmaps exactly the pages of the range, as long as a page
    outside the range stays mapped. *)
Theorem VmmapRemove_refines m pn np ty :
  wf_map m -> 0 <= pn -> 0 < np -> pn + np <= PAGES -> leaves m pn np ->
  exists m', VmmapRemove true m pn np ty = Ok m' /\ wf_map m' /\
    forall p, page_lookup m' p = if in_region pn (pn + np) p then None else page_lookup m p.
Proof using QS.
  intros Hm Hpn Hnp Hend Hl.
  destruct (VmmapUpdate_spec m pn np 0 0 ty true Hm Hpn Hnp Hend) as (m' & H1 & H2 & H3); eauto.
Qed.

(** Unmapping every mapped page of a non-empty map is a NULL dereference:
    the loop that frees the marked entries has reset slot 0 when the test
    for an empty map reads through it. *)
Theorem VmmapRemove_all_faults m pn np ty :
  wf_map m -> 0 <= pn -> 0 < np -> pn + np <= PAGES -> entries m <> [] ->
  (forall p, page_lookup m p <> None -> in_region pn (pn + np) p = true) ->
  VmmapRemove true m pn np ty = Fault.
Proof using QS.
  intros Hm Hpn Hnp Hend Hne Hall.
  destruct (VmmapUpdate_run m pn np 0 0 ty true Hm Hpn Hnp Hend) as (es & m3 & Hp & Hs & Hrun & Hr3).
  unfold VmmapRemove. rewrite Hrun. pose proof Hm as [Hr Hl Hw _].
  assert (Hw' : wf_entries es) by (by eapply wf_entries_perm).
  assert (Hl' : live es) by (unfold live; by rewrite Hp).
  eapply RemoveMarked_all; [exact Hr3| |].
  - intros E. unfold updated in E. rewrite app_nil_r in E. apply app_eq_nil in E as [E _].
    destruct es as [|e es]; [by apply Hne, Permutation_nil|]. cbn in E.
    destruct (carve1 pn (pn + np) e) as [[e' x] []]; [done|].
    by destruct (carve pn (pn + np) es).
  - apply Forall_forall. intros e He. destruct (removed e) eqn:Er; [done|]. exfalso.
    pose proof (updated_wf pn (pn + np) 0 0 ty true es Hw' ltac:(lia) Hend) as Hwf.
    rewrite Forall_forall in Hwf. specialize (Hwf e He).
    pose proof (attrs_at_pos (page_num e) e _ He (live_covers e Hwf Er)) as Hpos.
    pose proof (updated_attrs pn (pn + np) 0 0 ty true es (page_num e) Hw' Hl' Hs ltac:(lia)) as Hat.
    rewrite Hat in Hpos. destruct (in_region pn (pn + np) (page_num e)) eqn:Ei; [cbn in Hpos; lia|].
    rewrite Hall in Ei; [done|]. unfold page_lookup. rewrite Hp in Hpos.
    by destruct (attrs_at (page_num e) (entries m)); [cbn in Hpos; lia|].
Qed.

(** [VmmapCheckExistingMapping] answers true exactly when every page of
    the range is mapped and the protection asked for is within its maximal
    protection; it changes no page. *)
Theorem VmmapCheckExistingMapping_correct m pn np pr :
  wf_map m -> 0 <= pn -> 0 < np -> pn + np <= PAGES ->
  exists m' b, VmmapCheckExistingMapping m pn np pr = Ok (m', b) /\ wf_map m' /\
    (forall p, page_lookup m' p = page_lookup m p) /\
    (b = true <-> all_permit (page_lookup m) pn (pn + np) pr).
Proof using QS. apply Check_spec. Qed.

(** C3.  [VmmapChangeProt] sets the protection of exactly the pages of the range
    when all of them are mapped and allow it; otherwise it changes nothing.
    Maximal protections and types never change. *)
Theorem VmmapChangeProt_refines m pn np pr :
  wf_map m -> 0 <= pn -> 0 < np -> pn + np <= PAGES ->
  exists m' b, VmmapChangeProt true m pn np pr = Ok (m', b) /\ wf_map m' /\
    (b = true <-> all_permit (page_lookup m) pn (pn + np) pr) /\
    (forall p, page_lookup m' p =
      if b && in_region pn (pn + np) p then with_prot pr <$> page_lookup m p else page_lookup m p).
Proof using QS.
  intros Hm Hpn Hnp Hend. unfold VmmapChangeProt.
  destruct (Check_spec m pn np pr Hm Hpn Hnp Hend) as (m1 & b & -> & Hm1 & Hlk1 & Hb).
  cbn [mbind res_bind]. destruct b; cbn [negb andb].
  2: { exists m1, false. auto. }
  destruct (MakeSorted_use m1 Hm1) as (m2 & -> & Hm2 & Hr2 & Hw2 & Hl2 & Hs2 & Hlk2 & Hn2).
  cbn [mbind res_bind].
  assert (Hcov : covered pn (pn + np) (entries m2)).
  { intros p Hp E. destruct (proj1 Hb eq_refl p Hp) as (a & Ha & _).
    rewrite <- Hlk1, <- Hlk2 in Ha. apply page_lookup_None in E. congruence. }
  unfold PAGES in *. rewrite u64_small by lia.
  destruct (ChangeProt_loop_spec (S (nvalid m2)) [] (entries m2) [] m2 pn (pn + np) pr)
    as (m3 & Hrun & Hr3 & Hs3); [by rewrite app_nil_r|lia|done|lia|unfold PAGES; lia|].
  cbn [length app Nat.add] in *. replace (pn + np - pn) with np in * by lia.
  rewrite Hn2 in Hrun |- *. rewrite Hrun. cbn [mbind res_bind].
  exists m3, true. split; [done|].
  pose proof (reprot_wf (entries m2) pn (pn + np) pr Hw2 ltac:(lia) Hend) as [Hwr Hwx].
  pose proof (reprot_live (entries m2) pn (pn + np) pr np Hl2) as [Hlr Hlx].
  pose proof (fun p => reprot_attrs (entries m2) pn (pn + np) pr p Hw2 Hl2 Hs2 ltac:(lia) Hend Hcov) as Hat.
  pose proof (reprot_same_ranges (entries m2) pn (pn + np) pr np) as Hsame.
  replace (pn + np - pn) with np in * by lia.
  destruct (reprot pn np (pn + np) pr (entries m2)) as [r x]. cbn [fst snd] in *.
  pose proof (repr_entries _ _ Hr3) as E3.
  assert (Hd : forall p, (length (attrs_at p (r ++ x)) <= 1)%nat).
  { intros p. rewrite Hat. pose proof (wf_disjoint _ (wf_ents _ Hm2) p) as Hd.
    destruct (in_region _ _ _); rewrite ?length_fmap; done. }
  split; [|split; [done|]].
  - constructor; rewrite ?E3; [done|by apply Forall_app|constructor; [by apply Forall_app|done]|].
    intros Hsort. rewrite Hs3 in Hsort. destruct x; [|done]. rewrite app_nil_r.
    eapply same_ranges_sorted; [by apply Hsame|done].
  - intros p. rewrite <- Hlk1, <- Hlk2. unfold page_lookup. rewrite E3.
    rewrite (perm_head _ _ (Hat p)).
    + destruct (in_region _ _ _); [|done]. by destruct (attrs_at p (entries m2)).
    + rewrite <- Hat. apply Hd.
Qed.

(** ** Searching for space *)

(** The topmost gap of [n] pages, or 0 when there is none. *)
Definition top_gap (m : Vmmap) (n r : Z) : Prop :=
  (r = 0 /\ (forall s, ~ gap m s n)) \/
  (0 < r /\ gap m r n /\ page_lookup m (r + n) <> None /\ (forall s, r < s -> ~ gap m s n)).

Lemma find_space m n : wf_map m -> 0 < n < 2 ^ 64 ->
  exists m' r, (if (nvalid m =? 0)%nat then Ok (m, 0)
                else self ← VmmapMakeSorted m; r ← find_down (nvalid self) self n; Ok (self, r))
      = Ok (m', r) /\ wf_map m' /\ (forall p, page_lookup m' p = page_lookup m p) /\ top_gap m n r.
Proof using QS.
  intros Hm Hn.
  destruct (MakeSorted_use m Hm) as (m' & Hrun & Hm' & Hr' & Hw' & Hl' & Hs' & Hlk & Hnv).
  destruct (Nat.eqb_spec (nvalid m) 0) as [E|E].
  { exists m, 0. do 3 (split; [done|]). left. split; [done|]. intros s (_ & (p & _ & Hp) & _).
    apply Hp, page_lookup_None. pose proof (repr_nvalid _ _ (wf_repr _ Hm)) as El.
    rewrite E in El. by destruct (entries m). }
  rewrite Hrun. cbn [mbind res_bind].
  destruct (find_down_spec m' (entries m') n (nvalid m') Hr' Hw' Hl' Hs' Hn) as (r & Hfd & Hspec); [lia|].
  rewrite Hfd. cbn [mbind res_bind]. exists m', r. do 3 (split; [done|]).
  assert (Hany : forall s, gap m s n -> exists i lo hi, gap_at (entries m') i lo hi /\ lo <= s /\ s + n <= hi).
  { intros s Hg. apply (gap_ext m m' s n Hlk) in Hg. apply gap_entries; (done || lia). }
  destruct Hspec as [[-> Hno]|(j & lo & hi & Hj & Hg & Hw & -> & Hno)]; [left|right].
  - split; [done|]. intros s Hgap. destruct (Hany s Hgap) as (i & lo & hi & Hg & ? & ?).
    pose proof (gap_at_bounds _ _ _ _ Hw' Hl' Hg Hs') as (_ & _ & ?).
    pose proof (Hno i lo hi ltac:(lia) Hg). lia.
  - pose proof (gap_at_bounds _ _ _ _ Hw' Hl' Hg Hs') as (Hb & _ & _).
    destruct (gap_of_entries m' j lo hi (hi - n) n Hm' Hs' Hg ltac:(lia) ltac:(lia)) as [G1 G2].
    replace (hi - n + n) with hi in * by lia. rewrite Hlk in G2.
    split; [lia|]. split; [by apply (gap_ext m m')|]. split; [done|].
    intros s Hs Hgap. destruct (Hany s Hgap) as (i & lo' & hi' & Hg' & ? & ?).
    pose proof (gap_at_bounds _ _ _ _ Hw' Hl' Hg' Hs') as (_ & _ & ?).
    destruct (decide (j < i)%nat) as [Hji|Hji].
    + pose proof (Hno i lo' hi' Hji ltac:(lia) Hg'). lia.
    + destruct (decide (j = i)) as [->|Hne].
      * destruct (gap_at_fun _ _ _ _ _ _ Hg Hg') as [-> ->]. lia.
      * destruct Hg as (e1 & e2 & K1 & K2 & -> & ->), Hg' as (e3 & e4 & K3 & K4 & -> & ->).
        destruct (decide (S i = j)) as [<-|Hne2].
        -- rewrite K4 in K1. injection K1 as <-.
           destruct (lookup_wf _ Hw' Hl' _ _ K4) as [(?&?&?) _]. unfold end_page in *. lia.
        -- pose proof (sorted_lookup _ (S i) j _ _ Hs' ltac:(lia) K4 K1).
           destruct (lookup_wf _ Hw' Hl' _ _ K4) as [(?&?&?) _].
           destruct (lookup_wf _ Hw' Hl' _ _ K1) as [(?&?&?) _].
           unfold before, end_page in *. lia.
Qed.

(** [VmmapFindMapSpace] returns the topmost run of [n] free pages between
    two mapped pages, flush with the region above it, and 0 exactly when
    there is none. *)
Theorem VmmapFindMapSpace_topmost m n : wf_map m -> 0 < n < 2 ^ 64 ->
  exists m' r, VmmapFindMapSpace m n = Ok (m', r) /\ wf_map m' /\
    (forall p, page_lookup m' p = page_lookup m p) /\ top_gap m n r.
Proof using QS. apply find_space. Qed.

Lemma find_space_above m uaddr n :
  wf_map m -> 0 <= uaddr < 2 ^ 64 -> 0 < n < 2 ^ 64 ->
  let u := Z.shiftr uaddr PAGESHIFT in
  exists m' r, VmmapFindMapSpaceAboveHint m uaddr n = Ok (m', r) /\ wf_map m' /\
    (forall p, page_lookup m' p = page_lookup m p) /\
    ((r = 0 /\ (forall s, u <= s -> ~ gap m s n)) \/
     (0 < r /\ u <= r /\ gap m r n /\ (forall s, u <= s < r -> ~ gap m s n))).
Proof using QS.
  intros Hm Hua Hn u. unfold VmmapFindMapSpaceAboveHint. fold u.
  destruct (MakeSorted_use m Hm) as (m' & -> & Hm' & Hr' & Hw' & Hl' & Hs' & Hlk & Hnv).
  cbn [mbind res_bind].
  destruct (find_up_spec m' (entries m') u n (S (nvalid m')) 1 Hr' Hw' Hl' Hs' Hn) as (r & Hrun & Hspec);
    [lia|lia|].
  rewrite Hrun. cbn [mbind res_bind]. exists m', r. do 3 (split; [done|]).
  assert (Hany : forall s, gap m s n -> exists i lo hi, gap_at (entries m') i lo hi /\ lo <= s /\ s + n <= hi).
  { intros s Hg. apply (gap_ext m m' s n Hlk) in Hg. apply gap_entries; (done || lia). }
  assert (Hfit : forall s i lo hi, gap_at (entries m') i lo hi -> u <= s -> lo <= s -> s + n <= hi ->
    u <= hinted u lo hi <= s /\ n <= hi - hinted u lo hi).
  { intros s i lo hi _ H1 H2 H3. unfold hinted. split_cmp. }
  destruct Hspec as [[-> Hno]|(j & lo & hi & Hg & [Hf1 Hf2] & -> & Hno)]; [left|right].
  - split; [done|]. intros s Hs Hgap. destruct (Hany s Hgap) as (i & lo & hi & Hg & ? & ?).
    destruct (Hfit s i lo hi Hg) as [[??] ?]; [done..|]. by apply (Hno i lo hi ltac:(lia) Hg).
  - pose proof (gap_at_bounds _ _ _ _ Hw' Hl' Hg Hs') as (Hb & _ & _).
    assert (Hlo : lo <= hinted u lo hi) by (unfold hinted; split_cmp).
    destruct (gap_of_entries m' j lo hi (hinted u lo hi) n Hm' Hs' Hg Hlo ltac:(lia)) as [G1 _].
    split; [lia|]. split; [done|]. split; [by apply (gap_ext m m')|].
    intros s Hs Hgap. destruct (Hany s Hgap) as (i & lo' & hi' & Hg' & ? & ?).
    destruct (Hfit s i lo' hi' Hg') as [[??] ?]; [lia|done|done|].
    destruct (decide (i < j)%nat) as [Hji|Hji].
    + by apply (Hno i lo' hi' Hji ltac:(lia) Hg').
    + destruct (decide (j = i)) as [->|Hne].
      * destruct (gap_at_fun _ _ _ _ _ _ Hg Hg') as [-> ->]. lia.
      * pose proof (gap_at_bounds _ _ _ _ Hw' Hl' Hg' Hs').
        destruct Hg as (e1 & e2 & K1 & K2 & -> & ->), Hg' as (e3 & e4 & K3 & K4 & -> & ->).
        assert (page_num e2 < end_page e3); [|lia].
        destruct (lookup_wf _ Hw' Hl' _ _ K2) as [(?&?&?) _].
        destruct (lookup_wf _ Hw' Hl' _ _ K3) as [(?&?&?) _].
        destruct (decide (S j = i)) as [<-|Hne2].
        -- rewrite K3 in K2. injection K2 as <-. unfold end_page in *. lia.
        -- pose proof (sorted_lookup _ (S j) i _ _ Hs' ltac:(lia) K2 K3).
           unfold before, end_page in *. lia.
Qed.

(** [VmmapFindMapSpaceAboveHint] returns the lowest run of [n] free pages
    between two mapped pages that starts at or above the hinted page, and 0
    exactly when there is none. *)
Theorem VmmapFindMapSpaceAboveHint_lowest m uaddr n :
  wf_map m -> 0 <= uaddr < 2 ^ 64 -> 0 < n < 2 ^ 64 ->
  let u := Z.shiftr uaddr PAGESHIFT in
  exists m' r, VmmapFindMapSpaceAboveHint m uaddr n = Ok (m', r) /\ wf_map m' /\
    (forall p, page_lookup m' p = page_lookup m p) /\
    ((r = 0 /\ (forall s, u <= s -> ~ gap m s n)) \/
     (0 < r /\ u <= r /\ gap m r n /\ (forall s, u <= s < r -> ~ gap m s n))).
Proof using QS. apply find_space_above. Qed.

(** ** Looking a page up *)
Lemma FindPage_monotone m p : wf_map m -> StronglySorted before (entries m) -> 0 <= p ->
  sign_monotone (VmmapContainCmpEntries p) (vmentry m) (nvalid m).
Proof using.
  intros [Hr Hl Hw _] Hs Hp. pose proof (wf_each _ Hw) as He. rewrite (repr_nvalid _ _ Hr).
  exists (fun i => match entries m !! i with
    | Some e => if p <? page_num e then -1 else if p <? end_page e then 0 else 1
    | None => 0 end).
  split.
  - intros i Hi. destruct (lookup_lt_is_Some_2 _ _ Hi) as (e & Hie). rewrite Hie.
    exists (Some e). rewrite (repr_lookup _ _ _ Hr Hi), Hie. split; [done|].
    unfold VmmapContainCmpEntries. cbn [deref mbind res_bind].
    destruct (lookup_wf _ He Hl _ _ Hie) as [(?&?&?) _]. fold (end_page e).
    unfold PAGES in *. rewrite u64_small by (unfold end_page in *; lia). split_cmp; done.
  - intros i j [Hij Hj]. destruct (lookup_lt_is_Some_2 (entries m) i ltac:(lia)) as (e1 & H1).
    destruct (lookup_lt_is_Some_2 _ _ Hj) as (e2 & H2). rewrite H1, H2.
    pose proof (sorted_lookup _ _ _ _ _ Hs Hij H1 H2). unfold before in *.
    destruct (lookup_wf _ He Hl _ _ H1) as [(?&?&?) _], (lookup_wf _ He Hl _ _ H2) as [(?&?&?) _].
    unfold end_page in *. split_cmp; lia.
Qed.

(** [VmmapFindPage] returns the region that covers the page, and NULL
    exactly when the page is not mapped. *)
Theorem VmmapFindPage_correct m p : wf_map m -> 0 <= p ->
  exists m' r, VmmapFindPage m p = Ok (m', r) /\ wf_map m' /\
    (forall q, page_lookup m' q = page_lookup m q) /\ attr <$> r = page_lookup m p /\
    (forall e, r = Some e -> e ∈ entries m' /\ page_num e <= p < end_page e).
Proof using QS.
  intros Hm Hp. unfold VmmapFindPage.
  destruct (MakeSorted_use m Hm) as (m' & -> & Hm' & Hr' & Hw' & Hl' & Hs' & Hlk & Hnv).
  cbn [mbind res_bind].
  destruct (bsearch_correct _ _ _ (FindPage_monotone m' p Hm' Hs' Hp)) as (r & -> & Hspec).
  cbn [mbind res_bind]. rewrite Hnv in Hspec.
  assert (Hcmp : forall e, wf_entry e -> VmmapContainCmpEntries p (Some e) = Ok 0 <->
    page_num e <= p < end_page e).
  { intros e (?&?&?). unfold VmmapContainCmpEntries, PAGES in *. cbn [deref mbind res_bind].
    fold (end_page e). rewrite u64_small by (unfold end_page in *; lia).
    split; [|intros [??]]; split_cmp; (done || lia). }
  destruct r as [i|].
  - destruct Hspec as (Hi & s & Hsl & Hc). destruct (lookup_lt_is_Some_2 _ _ Hi) as (e & He).
    rewrite (repr_lookup _ _ _ Hr' Hi), He in Hsl. injection Hsl as <-.
    destruct (lookup_wf _ Hw' Hl' _ _ He) as [Hwe Hle]. apply Hcmp in Hc; [|done].
    rewrite (repr_deref _ _ _ _ Hr' He). cbn [mbind res_bind].
    exists m', (Some e). do 3 (split; [done|]). split.
    + rewrite <- Hlk. unfold page_lookup.
      assert (Hat : attrs_at p (entries m') ≡ₚ [attr e]).
      { apply list_elem_of_split_length in He as (l1 & l2 & E & _). rewrite E.
        pose proof (wf_disjoint _ (wf_ents _ Hm') p) as Hd. rewrite E in Hd.
        rewrite attrs_at_app, attrs_at_cons in *. unfold cov, covers in *. rewrite Hle in *.
        rewrite (proj2 (Z.leb_le _ _)), (proj2 (Z.ltb_lt _ _)) in * by lia. cbn in *.
        rewrite length_app in Hd. cbn in Hd.
        destruct (attrs_at p l1), (attrs_at p l2); cbn in Hd; try lia. done. }
      by rewrite (proj1 (Permutation_singleton_r _ _) Hat).
    + intros e' [= <-]. split; [by eapply list_elem_of_lookup_2|done].
  - exists m', None. do 3 (split; [done|]). split; [|done]. rewrite <- Hlk. symmetry.
    apply page_lookup_None. destruct (attrs_at p (entries m')) eqn:E; [done|]. exfalso.
    destruct (attrs_at_exists p (entries m')) as (e & He & Hc); [congruence|].
    apply list_elem_of_lookup in He as (i & Hi). destruct (lookup_wf _ Hw' Hl' _ _ Hi) as [Hwe _].
    pose proof (lookup_lt_Some _ _ _ Hi) as Hlt. eapply (Hspec i (Some e) Hlt).
    + by rewrite (repr_lookup _ _ _ Hr' Hlt), Hi.
    + apply Hcmp; [done|]. unfold covers in Hc. bool_lia.
Qed.
End spec.

(** ** The theorems at a concrete map *)

Ltac sample := first [exact sample_map_wf | unfold PAGES; lia | (vm_compute; discriminate) | done].

Lemma VmmapAddWithOverwrite_witness :
  exists m', VmmapAddWithOverwrite true sample_map 18 16 1 7 VMMAP_ENTRY_MAPPED = Ok m' /\ wf_map m' /\
    forall p, page_lookup m' p =
      if in_region 18 (18 + 16) p then Some (1, 7, VMMAP_ENTRY_MAPPED) else page_lookup sample_map p.
Proof. apply VmmapAddWithOverwrite_refines; sample. Defined.

Lemma VmmapRemove_witness :
  exists m', VmmapRemove true sample_map 18 16 VMMAP_ENTRY_MAPPED = Ok m' /\ wf_map m' /\
    forall p, page_lookup m' p = if in_region 18 (18 + 16) p then None else page_lookup sample_map p.
Proof. apply VmmapRemove_refines; try sample. exists 16. split; sample. Defined.

Lemma VmmapRemove_all_witness :
  VmmapRemove true sample_map 16 20 VMMAP_ENTRY_MAPPED = Fault.
Proof.
  apply VmmapRemove_all_faults; try sample.
  intros p Hp%mapped_page. apply mapped_lookup in Hp as (i & e & Hi & Hp).
  - do 3 (destruct i as [|i]; [injection Hi as <-; unfold end_page, in_region in *; cbn in *; bool_lia|]).
    done.
  - apply sample_map_wf.
  - apply sample_map_wf.
Defined.

Lemma VmmapCheckExistingMapping_witness :
  exists m' b, VmmapCheckExistingMapping sample_map 20 6 2 = Ok (m', b) /\ wf_map m' /\
    (forall p, page_lookup m' p = page_lookup sample_map p) /\
    (b = true <-> all_permit (page_lookup sample_map) 20 (20 + 6) 2).
Proof. apply VmmapCheckExistingMapping_correct; sample. Defined.

Lemma VmmapChangeProt_witness :
  exists m' b, VmmapChangeProt true sample_map 20 6 2 = Ok (m', b) /\ wf_map m' /\
    (b = true <-> all_permit (page_lookup sample_map) 20 (20 + 6) 2) /\
    (forall p, page_lookup m' p =
      if b && in_region 20 (20 + 6) p then with_prot 2 <$> page_lookup sample_map p
      else page_lookup sample_map p).
Proof. apply VmmapChangeProt_refines; sample. Defined.

Lemma VmmapFindMapSpace_witness :
  exists m' r, VmmapFindMapSpace sample_map 3 = Ok (m', r) /\ wf_map m' /\
    (forall p, page_lookup m' p = page_lookup sample_map p) /\ top_gap sample_map 3 r.
Proof. apply VmmapFindMapSpace_topmost; sample. Defined.

Lemma VmmapFindMapSpaceAboveHint_witness :
  let u := Z.shiftr 110592 PAGESHIFT in
  exists m' r, VmmapFindMapSpaceAboveHint sample_map 110592 3 = Ok (m', r) /\ wf_map m' /\
    (forall p, page_lookup m' p = page_lookup sample_map p) /\
    ((r = 0 /\ (forall s, u <= s -> ~ gap sample_map s 3)) \/
     (0 < r /\ u <= r /\ gap sample_map r 3 /\ (forall s, u <= s < r -> ~ gap sample_map s 3))).
Proof. apply VmmapFindMapSpaceAboveHint_lowest; sample. Defined.

Lemma VmmapFindPage_witness :
  exists m' r, VmmapFindPage sample_map 25 = Ok (m', r) /\ wf_map m' /\
    (forall q, page_lookup m' q = page_lookup sample_map q) /\ attr <$> r = page_lookup sample_map 25 /\
    (forall e, r = Some e -> e ∈ entries m' /\ page_num e <= 25 < end_page e).
Proof. apply VmmapFindPage_correct; sample. Defined.
