(* ===== verification/CodeBitmap.v ===== *)
(** * The code/data bitmap of a module ([runtime/src/runtime.c])

    One bit per byte of a code region: 1 for an instruction byte, 0 for
    data.  The bitmap is the list of its bytes; an access past its end is
    a fault.  [count_bits], [which_area], [set_code] and [set_data] are
    translated with the word-at-a-time paths the code takes for long
    ranges. *)

From S2P Require Import Prelude.

Definition ROCK_INVALID : Z := -1.
Definition ROCK_DATA : Z := 0.
Definition ROCK_CODE : Z := 1.
Definition ROCK_OFFSET : Z := 2.
Definition ROCK_VERIFY : Z := 4.
Definition ROCK_COPY : Z := 8.
Definition ROCK_REPLACE : Z := 16.

(** [for (byte = base; byte < base + len; byte++)] *)
Definition bytes_from (base len : Z) : list Z := seqZ base (u64 (base + len) - base).

Definition count_bits (bmp : list Z) (base len : Z) : res Z :=
  foldM (fun bitsum byte =>
    b ← load8 bmp (byte / 8);
    Ok (u64 (bitsum + (if Z.land b (Z.shiftl 1 (byte mod 8)) =? 0 then 0 else 1))))
    (bytes_from base len) 0.

(** [__builtin_popcountl] *)
Definition popcountl (w : Z) : Z :=
  foldr (fun i n => (if Z.testbit w i then 1 else 0) + n) 0 (seqZ 0 64).

Definition which_area (cdbmp : list Z) (base len : Z) : res Z :=
  let bitlen := len in
  bitsum ←
    (if len <? 32 then count_bits cdbmp base len
     else
       '(bitsum, len, base) ←
         (if negb (Z.land base 7 =? 0) then
            let base_align := Z.ldiff base 7 in
            n ← count_bits cdbmp base (8 - (base - base_align));
            Ok (n, len - (8 - (base - base_align)), base_align + 8)
          else Ok (0, len, base));
       bitsum ←
         (if negb (Z.land len 63 =? 0) then
            let trail_len := Z.land len 63 in
            n ← count_bits cdbmp (base + (len - trail_len)) trail_len;
            Ok (u64 (bitsum + n))
          else Ok bitsum);
       (* [p] is computed once and never advanced *)
       let p := base / 8 in
       foldM (fun bitsum _ => w ← load64 cdbmp p; Ok (u64 (bitsum + popcountl w)))
         (seqZ 0 (Z.shiftr len 6)) bitsum);
  if bitsum =? bitlen then Ok ROCK_CODE
  else if bitsum =? 0 then Ok ROCK_DATA
  else Ok ROCK_INVALID.

(** [cdbmp[i] = f(cdbmp[i])] *)
Definition update_byte (cdbmp : list Z) (i : Z) (f : Z -> Z) : res (list Z) :=
  b ← load8 cdbmp i; store8 cdbmp i (f b).

Definition set_code (cdbmp : list Z) (base len : Z) : res (list Z) :=
  if len <? 16 then
    foldM (fun cdbmp byte => update_byte cdbmp (byte / 8) (fun b => Z.lor b (Z.shiftl 1 (byte mod 8))))
      (bytes_from base len) cdbmp
  else
    '(cdbmp, len, base) ←
      (if negb (Z.land base 7 =? 0) then
         let base_align := Z.ldiff base 7 in
         let k := base - base_align in
         cdbmp ← update_byte cdbmp base_align (fun b => Z.lor b (Z.shiftl (Z.shiftr 255 k) k));
         Ok (cdbmp, len - (8 - k), base_align + 8)
       else Ok (cdbmp, len, base));
    cdbmp ←
      (if negb (Z.land len 7 =? 0) then
         let trail_len := Z.land len 7 in
         let trail_base := base + (len - trail_len) in
         update_byte cdbmp (trail_base / 8) (fun b => Z.lor b (Z.shiftl 1 trail_len - 1))
       else Ok cdbmp);
    foldM (fun cdbmp i => store8 cdbmp (base / 8 + i) 255) (seqZ 0 (len / 8)) cdbmp.

Definition set_data (cdbmp : list Z) (base len : Z) : res (list Z) :=
  if len <? 16 then
    foldM (fun cdbmp byte =>
        update_byte cdbmp (byte / 8) (fun b => Z.land b (Z.lnot (Z.shiftl 1 (byte mod 8)))))
      (bytes_from base len) cdbmp
  else
    '(cdbmp, len, base) ←
      (if negb (Z.land base 7 =? 0) then
         let base_align := Z.ldiff base 7 in
         let k := base - base_align in
         cdbmp ← update_byte cdbmp base_align (fun b => Z.land b (Z.shiftr 255 (8 - k)));
         Ok (cdbmp, len - (8 - k), base_align + 8)
       else Ok (cdbmp, len, base));
    cdbmp ←
      (if negb (Z.land len 7 =? 0) then
         let trail_len := Z.land len 7 in
         let trail_base := base + (len - trail_len) in
         update_byte cdbmp (trail_base / 8) (fun b => Z.land b (Z.shiftl 255 trail_len))
       else Ok cdbmp);
    foldM (fun cdbmp i => store8 cdbmp (base / 8 + i) 0) (seqZ 0 (len / 8)) cdbmp.

(** ** The bitmap as a set of code bytes *)
Definition is_code (bmp : list Z) (i : Z) : bool :=
  Z.testbit (default 0 (bmp !! Z.to_nat (i / 8))) (i mod 8).

Definition in_range (base len i : Z) : bool := (base <=? i) && (i <? base + len).

(** How many bytes of the range are code. *)
Definition n_code (bmp : list Z) (base len : Z) : Z :=
  foldr (fun i n => (if is_code bmp i then 1 else 0) + n) 0 (seqZ base len).

(** What [which_area] is documented to answer. *)
Definition area (bmp : list Z) (base len : Z) : Z :=
  if forallb (is_code bmp) (seqZ base len) then ROCK_CODE
  else if forallb (fun i => negb (is_code bmp i)) (seqZ base len) then ROCK_DATA
  else ROCK_INVALID.

(** A step that sets the bits in [mask] to [v] and no other. *)
Definition marks (v : bool) (bmp bmp' : list Z) (mask : Z -> bool) : Prop :=
  length bmp' = length bmp /\
  forall i, 0 <= i -> is_code bmp' i = if mask i then v else is_code bmp i.

(** The bitmap fits in memory. *)
Definition fits (bmp : list Z) (base len : Z) : Prop :=
  0 <= base /\ 0 <= len /\ base + len <= 8 * Z.of_nat (length bmp) /\ base + len < 2 ^ 64.

(** ** Single bits and bytes *)
Lemma load8_Ok mem a : 0 <= a < Z.of_nat (length mem) ->
  load8 mem a = Ok (default 0 (mem !! Z.to_nat a)).
Proof.
  intros Ha. unfold load8. rewrite (proj2 (Z.leb_le 0 a)) by lia. unfold fetch.
  destruct (lookup_lt_is_Some_2 mem (Z.to_nat a)) as (b & ->); [lia|done].
Qed.

Lemma land_bit b j : 0 <= j -> (Z.land b (Z.shiftl 1 j) =? 0) = negb (Z.testbit b j).
Proof.
  intros Hj. rewrite Z.shiftl_1_l. destruct (Z.testbit b j) eqn:E; cbn.
  - apply Z.eqb_neq. intros H. apply (f_equal (fun x => Z.testbit x j)) in H.
    rewrite Z.land_spec, Z.pow2_bits_true, E, Z.bits_0 in H by done. done.
  - apply Z.eqb_eq. apply Z.bits_inj'. intros i Hi. rewrite Z.land_spec, Z.bits_0.
    destruct (Z.eqb_spec j i) as [->|Hn]; [by rewrite E|].
    by rewrite Z.pow2_bits_false, andb_false_r by done.
Qed.

Lemma div_mod8 i : 0 <= i -> 0 <= i / 8 /\ 0 <= i mod 8 < 8 /\ i = 8 * (i / 8) + i mod 8.
Proof.
  intros Hi. split; [by apply Z.div_pos|]. split; [by apply Z.mod_pos_bound|by apply Z.div_mod].
Qed.

Lemma u8_bit v j : 0 <= j < 8 -> Z.testbit (u8 v) j = Z.testbit v j.
Proof. intros Hj. unfold u8, wrap. by rewrite Z.mod_pow2_bits_low by lia. Qed.

(** Rewriting one byte changes the bits the byte function changes. *)
Lemma update_byte_marks (v : bool) bmp a (f : Z -> Z) (m : Z -> bool) : 0 <= a < Z.of_nat (length bmp) ->
  (forall b j, 0 <= j < 8 -> Z.testbit (f b) j = if m j then v else Z.testbit b j) ->
  exists bmp', update_byte bmp a f = Ok bmp' /\
    marks v bmp bmp' (fun i => (i / 8 =? a) && m (i mod 8)).
Proof.
  intros Ha Hf. unfold update_byte. rewrite load8_Ok by done. cbn [mbind res_bind].
  unfold store8. rewrite (proj2 (Z.leb_le 0 a)) by lia. unfold store.
  rewrite (proj2 (Nat.ltb_lt _ _)) by lia. eexists. split; [done|].
  split; [by rewrite length_insert|]. intros i Hi. unfold is_code.
  destruct (div_mod8 i Hi) as (H1 & H2 & _).
  destruct (Z.eqb_spec (i / 8) a) as [->|Hn]; cbn [andb].
  - rewrite list_lookup_insert_eq by lia. cbn [from_option id]. by rewrite u8_bit, Hf.
  - by rewrite list_lookup_insert_ne by lia.
Qed.

Lemma marks_refl v bmp : marks v bmp bmp (fun _ => false).
Proof. done. Qed.

Lemma marks_trans v b1 b2 b3 m1 m2 : marks v b1 b2 m1 -> marks v b2 b3 m2 ->
  marks v b1 b3 (fun i => m1 i || m2 i).
Proof.
  intros [L1 H1] [L2 H2]. split; [congruence|]. intros i Hi.
  rewrite H2, H1 by done. by destruct (m1 i), (m2 i).
Qed.

Lemma marks_ext v b1 b2 m1 m2 : (forall i, 0 <= i -> m1 i = m2 i) -> marks v b1 b2 m1 ->
  marks v b1 b2 m2.
Proof. intros E [L H]. split; [done|]. intros i Hi. by rewrite H, E. Qed.

Lemma marks_fold v step (m : Z -> Z -> bool) l bmp :
  (forall x b, x ∈ l -> length b = length bmp -> exists b', step b x = Ok b' /\ marks v b b' (m x)) ->
  exists b', foldM step l bmp = Ok b' /\ marks v bmp b' (fun i => existsb (fun x => m x i) l).
Proof.
  revert bmp. induction l as [|x l IH]; intros bmp Hstep; cbn [foldM].
  { eexists. split; [done|]. apply marks_refl. }
  destruct (Hstep x bmp) as (b1 & -> & Hm1); [left|done|]. cbn [mbind res_bind].
  destruct (IH b1) as (b2 & Hr & Hm2).
  { intros y b Hy Hl. apply Hstep; [by right|]. destruct Hm1. congruence. }
  exists b2. split; [done|]. by apply (marks_trans _ _ _ _ _ _ Hm1 Hm2).
Qed.

Lemma existsb_seqZ (f : Z -> bool) a n : existsb f (seqZ a n) = true <->
  exists x, a <= x < a + n /\ f x = true.
Proof.
  rewrite existsb_exists. split; intros (x & Hx & Hf); exists x; split; try done.
  - apply list_elem_of_In, elem_of_seqZ in Hx. lia.
  - apply list_elem_of_In, elem_of_seqZ. lia.
Qed.

Lemma bytes_from_fits base len : 0 <= base -> 0 <= len -> base + len < 2 ^ 64 ->
  bytes_from base len = seqZ base len.
Proof. intros. unfold bytes_from. rewrite u64_small by lia. f_equal. lia. Qed.

(** ** Marking ranges *)

(** The byte-at-a-time loop. *)
Lemma mark_short (v : bool) bmp base len (f : Z -> Z -> Z) : fits bmp base len ->
  (forall byte b j, 0 <= byte -> 0 <= j < 8 ->
     Z.testbit (f byte b) j = if j =? byte mod 8 then v else Z.testbit b j) ->
  exists bmp', foldM (fun b byte => update_byte b (byte / 8) (f byte)) (bytes_from base len) bmp = Ok bmp' /\
    marks v bmp bmp' (in_range base len).
Proof.
  intros (H1 & H2 & H3 & H4) Hf. rewrite bytes_from_fits by done.
  destruct (marks_fold v (fun b byte => update_byte b (byte / 8) (f byte)) (fun x i => i =? x)
    (seqZ base len) bmp) as (b' & Hr & Hm).
  - intros x b Hx Hl. apply elem_of_seqZ in Hx. destruct (div_mod8 x) as (D1 & D2 & D3); [lia|].
    destruct (update_byte_marks v b (x / 8) (f x) (fun j => j =? x mod 8)) as (b1 & Hb1 & Hm1);
      [lia|intros; apply Hf; lia|].
    exists b1. split; [done|]. eapply marks_ext; [|exact Hm1]. intros i Hi. cbn.
    destruct (div_mod8 i Hi) as (_ & _ & D4).
    apply eq_true_iff_eq. bool_lia. split; [intros [E1 E2]|intros ->]; lia.
  - exists b'. split; [done|]. eapply marks_ext; [|exact Hm]. intros i Hi. cbn.
    apply eq_true_iff_eq. rewrite existsb_seqZ. unfold in_range. bool_lia. split.
    + intros (x & Hx & ->%Z.eqb_eq). lia.
    + intros Hx. exists i. rewrite Z.eqb_refl. lia.
Qed.

(** The byte-aligned path: whole bytes and a partial last byte. *)
Lemma mark_aligned (v : bool) bmp base len (f : Z -> Z) w : fits bmp base len -> Z.land base 7 = 0 ->
  (forall b j, 0 <= j < 8 -> Z.testbit (f b) j = if j <? Z.land len 7 then v else Z.testbit b j) ->
  (forall j, 0 <= j < 8 -> Z.testbit w j = v) ->
  exists bmp', (cdbmp ← (if negb (Z.land len 7 =? 0)
                 then update_byte bmp ((base + (len - Z.land len 7)) / 8) f else Ok bmp);
                foldM (fun cdbmp i => store8 cdbmp (base / 8 + i) w) (seqZ 0 (len / 8)) cdbmp) = Ok bmp' /\
    marks v bmp bmp' (in_range base len).
Proof.
  intros (H1 & H2 & H3 & H4) Hal Hf Hw.
  assert (El : forall x, 0 <= x -> Z.land x 7 = x mod 8).
  { intros x Hx. change 7 with (Z.ones 3). by rewrite Z.land_ones. }
  rewrite El in * by lia. destruct (div_mod8 base H1) as (B1 & _ & B2).
  destruct (div_mod8 len H2) as (L1 & L2 & L3).
  assert (Hdiv : (base + (len - len mod 8)) / 8 = base / 8 + len / 8).
  { replace (base + (len - len mod 8)) with ((base / 8 + len / 8) * 8) by lia. apply Z.div_mul. lia. }
  assert (Htail : exists b1, (if negb (len mod 8 =? 0)
      then update_byte bmp ((base + (len - len mod 8)) / 8) f else Ok bmp) = Ok b1 /\
    marks v bmp b1 (in_range (base + (len - len mod 8)) (len mod 8))).
  { rewrite Hdiv. destruct (Z.eqb_spec (len mod 8) 0) as [E|E]; cbn [negb].
    - exists bmp. split; [done|]. eapply marks_ext; [|apply marks_refl]. intros i Hi. cbn.
      unfold in_range. symmetry. apply andb_false_iff. bool_lia.
    - destruct (update_byte_marks v bmp (base / 8 + len / 8) f (fun j => j <? len mod 8)) as (b1 & Hb & Hm);
        [lia|done|].
      exists b1. split; [done|]. eapply marks_ext; [|exact Hm]. intros i Hi. cbn.
      destruct (div_mod8 i Hi) as (I1 & I2 & I3). unfold in_range.
      apply eq_true_iff_eq. bool_lia. }
  destruct Htail as (b1 & -> & Hm1). cbn [mbind res_bind].
  destruct (marks_fold v (fun cdbmp i => store8 cdbmp (base / 8 + i) w)
    (fun x i => i / 8 =? base / 8 + x) (seqZ 0 (len / 8)) b1) as (b2 & Hr & Hm2).
  - intros x b Hx Hl. apply elem_of_seqZ in Hx.
    assert (Hlb : length b = length bmp) by (destruct Hm1; congruence).
    destruct (update_byte_marks v b (base / 8 + x) (fun _ => w) (fun _ => true)) as (b' & Hb & Hm);
      [lia|intros; cbn; auto|].
    exists b'. unfold update_byte in Hb. rewrite load8_Ok in Hb by lia. split; [exact Hb|].
    eapply marks_ext; [|exact Hm]. intros i Hi. cbn. apply andb_true_r.
  - exists b2. split; [done|]. eapply marks_ext; [|exact (marks_trans _ _ _ _ _ _ Hm1 Hm2)].
    intros i Hi. cbn. destruct (div_mod8 i Hi) as (I1 & I2 & I3).
    apply eq_true_iff_eq. unfold in_range. rewrite orb_true_iff, existsb_seqZ. bool_lia. split.
    + intros [?|(x & Hx & Hx2%Z.eqb_eq)]; lia.
    + intros Hx. destruct (decide (i < base + (len - len mod 8))) as [Hlt|Hlt]; [right|left; lia].
      exists (i / 8 - base / 8). split; [lia|]. apply Z.eqb_eq. lia.
Qed.

Lemma set_code_marks bmp base len : fits bmp base len -> len < 16 \/ Z.land base 7 = 0 ->
  exists bmp', set_code bmp base len = Ok bmp' /\ marks true bmp bmp' (in_range base len).
Proof.
  intros Hf Hc. unfold set_code. destruct (Z.ltb_spec len 16) as [Hs|Hl].
  - apply (mark_short true bmp base len (fun byte b => Z.lor b (Z.shiftl 1 (byte mod 8)))); [done|].
    intros byte b j Hb Hj. rewrite Z.shiftl_1_l, Z.lor_spec, Z.pow2_bits_eqb
      by (by apply div_mod8). rewrite Z.eqb_sym. by destruct (j =? byte mod 8), (Z.testbit b j).
  - destruct Hc as [|Hal]; [lia|]. rewrite Hal. cbn [Z.eqb negb mbind res_bind].
    apply mark_aligned; [done|done| |].
    + intros b j Hj. assert (Ht : 0 <= Z.land len 7) by (apply Z.land_nonneg; lia).
      rewrite Z.shiftl_1_l, Z.lor_spec.
      replace (2 ^ Z.land len 7 - 1) with (Z.ones (Z.land len 7)) by (rewrite Z.ones_equiv; lia).
      rewrite Z.testbit_ones_nonneg by lia.
      by destruct (j <? Z.land len 7), (Z.testbit b j).
    + intros j Hj. change 255 with (Z.ones 8). apply Z.ones_spec_low. lia.
Qed.

Lemma set_data_marks bmp base len : fits bmp base len -> len < 16 \/ Z.land base 7 = 0 ->
  exists bmp', set_data bmp base len = Ok bmp' /\ marks false bmp bmp' (in_range base len).
Proof.
  intros Hf Hc. unfold set_data. destruct (Z.ltb_spec len 16) as [Hs|Hl].
  - apply (mark_short false bmp base len (fun byte b => Z.land b (Z.lnot (Z.shiftl 1 (byte mod 8)))));
      [done|].
    intros byte b j Hb Hj. rewrite Z.shiftl_1_l, Z.land_spec, Z.lnot_spec, Z.pow2_bits_eqb
      by (lia || by apply div_mod8). rewrite Z.eqb_sym. by destruct (j =? byte mod 8), (Z.testbit b j).
  - destruct Hc as [|Hal]; [lia|]. rewrite Hal. cbn [Z.eqb negb mbind res_bind].
    apply mark_aligned; [done|done| |].
    + intros b j Hj. rewrite Z.land_spec, Z.shiftl_spec by lia. change 255 with (Z.ones 8).
      assert (0 <= Z.land len 7) by (apply Z.land_nonneg; lia).
      destruct (Z.ltb_spec j (Z.land len 7)).
      * rewrite (Z.testbit_neg_r (Z.ones 8)) by lia. apply andb_false_r.
      * rewrite Z.ones_spec_low by lia. apply andb_true_r.
    + intros j Hj. apply Z.bits_0.
Qed.

(** ** Counting *)
Lemma n_code_nil bmp base len : len <= 0 -> n_code bmp base len = 0.
Proof. intros H. unfold n_code. by rewrite seqZ_nil. Qed.

Lemma n_code_app bmp base a b : 0 <= a -> 0 <= b ->
  n_code bmp base (a + b) = n_code bmp base a + n_code bmp (base + a) b.
Proof.
  intros Ha Hb. unfold n_code. rewrite seqZ_app, foldr_app by lia.
  generalize (foldr (fun i n => (if is_code bmp i then 1 else 0) + n) 0 (seqZ (base + a) b)).
  intros z. induction (seqZ base a) as [|x l IH]; cbn; [lia|]. rewrite IH. lia.
Qed.

Lemma n_code_S bmp base len : 0 <= len ->
  n_code bmp base (Z.succ len) = n_code bmp base len + (if is_code bmp (base + len) then 1 else 0).
Proof.
  intros H. rewrite <- Z.add_1_r, n_code_app by lia. f_equal. unfold n_code.
  rewrite seqZ_cons, seqZ_nil by lia. cbn. lia.
Qed.

Lemma n_code_range bmp base len : 0 <= len -> 0 <= n_code bmp base len <= len.
Proof.
  intros H. pattern len. apply natlike_ind; [by rewrite n_code_nil| |done].
  intros n Hn IH. rewrite n_code_S by done. destruct (is_code bmp (base + n)); lia.
Qed.

Lemma count_bits_spec bmp base len : fits bmp base len ->
  count_bits bmp base len = Ok (n_code bmp base len).
Proof.
  intros (H1 & H2 & H3 & H4). unfold count_bits. rewrite bytes_from_fits by done.
  assert (E : len = Z.of_nat (Z.to_nat len)) by lia. revert H3 H4. rewrite E. clear E H2.
  induction (Z.to_nat len) as [|n IH]; intros H3 H4.
  { by rewrite seqZ_nil, n_code_nil by lia. }
  rewrite Nat2Z.inj_succ, <- Z.add_1_r, seqZ_app, foldM_app, IH by lia. cbn [mbind res_bind].
  rewrite seqZ_cons, seqZ_nil by lia. cbn [foldM mbind res_bind].
  destruct (div_mod8 (base + Z.of_nat n) ltac:(lia)) as (D1 & D2 & D3).
  rewrite load8_Ok by lia. cbn [mbind res_bind]. rewrite Z.add_1_r, n_code_S by lia.
  rewrite land_bit by lia. fold (is_code bmp (base + Z.of_nat n)).
  pose proof (n_code_range bmp base (Z.of_nat n) ltac:(lia)).
  f_equal. rewrite u64_small by (destruct (is_code _ _); cbn; lia).
  by destruct (is_code bmp (base + Z.of_nat n)).
Qed.

Definition bytes_ok (bmp : list Z) : Prop := Forall (fun b => 0 <= b < 256) bmp.

(** The bits of a little-endian word are the bits of its bytes. *)
Lemma load_le_bits n mem a : bytes_ok mem -> 0 <= a -> a + Z.of_nat n <= Z.of_nat (length mem) ->
  exists w, load_le n mem a = Ok w /\
    forall i, 0 <= i < 8 * Z.of_nat n -> Z.testbit w i = is_code mem (8 * a + i).
Proof.
  intros Hb. revert a. induction n as [|n IH]; intros a Ha Hn; cbn [load_le].
  { exists 0. split; [done|]. intros i Hi. lia. }
  rewrite load8_Ok by lia. cbn [mbind res_bind].
  destruct (IH (a + 1)) as (w & -> & Hw); [lia|lia|]. cbn [mbind res_bind].
  eexists. split; [done|]. intros i Hi.
  destruct (lookup_lt_is_Some_2 mem (Z.to_nat a)) as (b & Hba); [lia|].
  assert (Hbr : 0 <= b < 256) by (apply (Forall_lookup_1 _ _ _ _ Hb Hba)).
  rewrite Hba. cbn [from_option id].
  rewrite byte_word_bit by lia. unfold is_code.
  destruct (Z.ltb_spec i 8).
  - replace (8 * a + i) with (i + a * 8) by lia.
    rewrite Z.div_add, Z.mod_add, Z.div_small, Z.mod_small by lia. by rewrite Z.add_0_l, Hba.
  - fold (is_code mem (8 * a + i)). rewrite Hw by lia. f_equal. lia.
Qed.

Lemma popcount_word bmp p w : bytes_ok bmp -> 0 <= p -> p + 8 <= Z.of_nat (length bmp) ->
  load64 bmp p = Ok w -> popcountl w = n_code bmp (8 * p) 64.
Proof.
  intros Hb Hp Hl Hw. destruct (load_le_bits 8 bmp p Hb Hp Hl) as (w' & Hw' & Hbits).
  unfold load64 in Hw. rewrite Hw in Hw'. injection Hw' as <-.
  unfold popcountl, n_code. replace (8 * p) with (8 * p + 0) at 1 by lia.
  rewrite <- (fmap_add_seqZ (8 * p) 0 64). 
  assert (Hall : Forall (fun i => Z.testbit w i = is_code bmp (8 * p + i)) (seqZ 0 64)).
  { apply Forall_seqZ. intros i Hi. apply Hbits. lia. }
  induction Hall as [|i l Hi _ IH]; [done|]. cbn [foldr fmap list_fmap]. by rewrite Hi, IH.
Qed.

(** ** Areas *)
Lemma n_code_all bmp base len : 0 <= len ->
  n_code bmp base len = len <-> forallb (is_code bmp) (seqZ base len) = true.
Proof.
  intros H. pattern len. apply natlike_ind; [by rewrite n_code_nil, seqZ_nil by lia| |done].
  intros n Hn IH. rewrite n_code_S, <- Z.add_1_r, seqZ_app, forallb_app, andb_true_iff, <- IH by lia.
  rewrite (seqZ_cons _ 1), seqZ_nil by lia. cbn [forallb]. pose proof (n_code_range bmp base n Hn).
  destruct (is_code bmp (base + n)); cbn; split; [intros|intros [??]|intros|intros [??]]; try done;
    try split; try lia; done.
Qed.

Lemma n_code_none bmp base len : 0 <= len ->
  n_code bmp base len = 0 <-> forallb (fun i => negb (is_code bmp i)) (seqZ base len) = true.
Proof.
  intros H. pattern len. apply natlike_ind; [by rewrite n_code_nil, seqZ_nil by lia| |done].
  intros n Hn IH. rewrite n_code_S, <- Z.add_1_r, seqZ_app, forallb_app, andb_true_iff, <- IH by lia.
  rewrite (seqZ_cons _ 1), seqZ_nil by lia. cbn [forallb]. pose proof (n_code_range bmp base n Hn).
  destruct (is_code bmp (base + n)); cbn; split; [intros|intros [??]|intros|intros [??]]; try done;
    try split; try lia; done.
Qed.

Lemma area_of_count bmp base len : 0 <= len ->
  (if n_code bmp base len =? len then Ok ROCK_CODE
   else if n_code bmp base len =? 0 then Ok ROCK_DATA else Ok ROCK_INVALID) = Ok (area bmp base len).
Proof.
  intros H. unfold area. pose proof (n_code_all bmp base len H). pose proof (n_code_none bmp base len H).
  destruct (Z.eqb_spec (n_code bmp base len) len), (Z.eqb_spec (n_code bmp base len) 0),
    (forallb (is_code bmp) (seqZ base len)), (forallb (fun i => negb (is_code bmp i)) (seqZ base len));
    try done; exfalso; intuition congruence.
Qed.

(** The loop over whole words, when there is at most one. *)
Lemma word_loop bmp base len s : bytes_ok bmp -> fits bmp base len -> Z.land base 7 = 0 ->
  len < 128 -> 0 <= s < 2 ^ 63 + 128 ->
  foldM (fun bitsum _ => w ← load64 bmp (base / 8); Ok (u64 (bitsum + popcountl w)))
    (seqZ 0 (Z.shiftr len 6)) s = Ok (s + n_code bmp base (len - Z.land len 63)).
Proof.
  intros Hb (H1 & H2 & H3 & H4) Hal Hlen Hs.
  rewrite Z.shiftr_div_pow2 by lia. change 63 with (Z.ones 6). rewrite Z.land_ones by lia.
  change 7 with (Z.ones 3) in Hal. rewrite Z.land_ones in Hal by lia.
  change (2 ^ 6) with 64. change (2 ^ 3) with 8 in Hal.
  destruct (div_mod8 base H1) as (_ & _ & D). rewrite Hal in D.
  destruct (decide (len < 64)) as [Hc|Hc].
  - rewrite (Z.div_small len 64), (Z.mod_small len 64), seqZ_nil by lia. cbn [foldM].
    rewrite n_code_nil by lia. f_equal. lia.
  - assert (E1 : len / 64 = 1) by div_lia.
    assert (E2 : len mod 64 = len - 64) by div_lia.
    rewrite E1, E2, seqZ_cons, seqZ_nil by lia. cbn [foldM mbind res_bind].
    destruct (load_le_bits 8 bmp (base / 8) Hb) as (w & Hw & _); [lia|lia|].
    change (load_le 8) with load64 in Hw. rewrite Hw. cbn [mbind res_bind].
    rewrite (popcount_word bmp (base / 8) w Hb) by (done || lia).
    replace (8 * (base / 8)) with base by lia. replace (len - (len - 64)) with 64 by lia.
    pose proof (n_code_range bmp base 64 ltac:(lia)). rewrite u64_small by lia. done.
Qed.

Lemma which_area_tail bmp base len s : bytes_ok bmp -> fits bmp base len -> Z.land base 7 = 0 ->
  len < 128 -> 0 <= s < 2 ^ 63 ->
  (bitsum ← (if negb (Z.land len 63 =? 0)
             then n ← count_bits bmp (base + (len - Z.land len 63)) (Z.land len 63); Ok (u64 (s + n))
             else Ok s);
   foldM (fun bitsum _ => w ← load64 bmp (base / 8); Ok (u64 (bitsum + popcountl w)))
     (seqZ 0 (Z.shiftr len 6)) bitsum) = Ok (s + n_code bmp base len).
Proof.
  intros Hb Hf Hal Hlen Hs. pose proof Hf as (H1 & H2 & H3 & H4).
  assert (Ht : 0 <= Z.land len 63 <= len).
  { change 63 with (Z.ones 6). rewrite Z.land_ones by lia.
    split; [by apply Z.mod_pos_bound|by apply Z.mod_le]. }
  assert (Hsum : n_code bmp base len = n_code bmp base (len - Z.land len 63) +
    n_code bmp (base + (len - Z.land len 63)) (Z.land len 63)).
  { rewrite <- n_code_app by lia. f_equal. lia. }
  assert (Hfirst : (if negb (Z.land len 63 =? 0)
             then n ← count_bits bmp (base + (len - Z.land len 63)) (Z.land len 63); Ok (u64 (s + n))
             else Ok s) = Ok (s + n_code bmp (base + (len - Z.land len 63)) (Z.land len 63))).
  { destruct (Z.eqb_spec (Z.land len 63) 0) as [E|E]; cbn [negb].
    - rewrite n_code_nil by lia. f_equal. lia.
    - rewrite count_bits_spec by (split_and!; lia). cbn [mbind res_bind].
      pose proof (n_code_range bmp (base + (len - Z.land len 63)) (Z.land len 63) ltac:(lia)).
      by rewrite u64_small by lia. }
  rewrite Hfirst. cbn [mbind res_bind].
  pose proof (n_code_range bmp (base + (len - Z.land len 63)) (Z.land len 63) ltac:(lia)).
  pose proof (n_code_range bmp base (len - Z.land len 63) ltac:(lia)).
  rewrite word_loop by (assumption || lia). f_equal. lia.
Qed.

(** On ranges of fewer than 128 bytes [which_area] answers [ROCK_CODE]
    exactly when every byte is code, [ROCK_DATA] exactly when none is, and
    [ROCK_INVALID] otherwise. *)
Theorem which_area_correct bmp base len : bytes_ok bmp -> fits bmp base len -> len < 128 ->
  which_area bmp base len = Ok (area bmp base len).
Proof.
  intros Hb Hf Hlen. pose proof Hf as (H1 & H2 & H3 & H4). unfold which_area.
  rewrite <- area_of_count by done. destruct (Z.ltb_spec len 32) as [Hs|Hl].
  { by rewrite count_bits_spec by done. }
  assert (E7 : Z.land base 7 = base mod 8).
  { change 7 with (Z.ones 3). by rewrite Z.land_ones. }
  destruct (div_mod8 base H1) as (D1 & D2 & D3).
  destruct (Z.eqb_spec (Z.land base 7) 0) as [E|E]; cbn [negb mbind res_bind].
  - pose proof (which_area_tail bmp base len 0 Hb Hf E Hlen ltac:(lia)) as Ht.
    rewrite Z.add_0_l in Ht. cbn [mbind res_bind] in Ht. rewrite Ht. done.
  - assert (Ea : Z.ldiff base 7 = base - base mod 8).
    { change 7 with (Z.ones 3). rewrite Z.ldiff_ones_r, Z.shiftl_mul_pow2, Z.shiftr_div_pow2 by lia.
      change (2 ^ 3) with 8. lia. }
    rewrite Ea. replace (base - (base - base mod 8)) with (base mod 8) by lia.
    rewrite count_bits_spec by (split_and!; lia). cbn [mbind res_bind].
    pose proof (n_code_range bmp base (8 - base mod 8) ltac:(lia)).
    rewrite which_area_tail; [| done | split_and!; lia | | lia | lia].
    + cbn [mbind res_bind]. replace (base - base mod 8 + 8) with (base + (8 - base mod 8)) by lia.
      rewrite <- n_code_app by lia. by replace (8 - base mod 8 + (len - (8 - base mod 8))) with len by lia.
    + change 7 with (Z.ones 3). rewrite Z.land_ones by lia. change (2 ^ 3) with 8.
      replace (base - base mod 8 + 8) with ((base / 8 + 1) * 8) by lia. by apply Z.mod_mul.
Qed.

(** From 128 bytes on it can be wrong: the pointer of the word loop is
    never advanced, so the first word is counted again for each further
    one, and a range that is half code and half data is taken for code. *)
Theorem which_area_long_range_wrong :
  let bmp := replicate 8 255 ++ replicate 8 0 in
  which_area bmp 0 128 = Ok ROCK_CODE /\ area bmp 0 128 = ROCK_INVALID.
Proof. split; reflexivity. Qed.

(** [set_code] and then [which_area] agree: for a short range, or one that
    starts on a byte boundary of the bitmap, [set_code] makes exactly the
    bytes of the range code, whatever the path taken. *)
Theorem set_code_correct bmp base len : fits bmp base len -> len < 16 \/ Z.land base 7 = 0 ->
  exists bmp', set_code bmp base len = Ok bmp' /\ length bmp' = length bmp /\
    forall i, 0 <= i -> is_code bmp' i = in_range base len i || is_code bmp i.
Proof.
  intros Hf Hc. destruct (set_code_marks bmp base len Hf Hc) as (b & Hr & Hl & Hm).
  exists b. split; [done|]. split; [done|]. intros i Hi. rewrite Hm by done.
  by destruct (in_range base len i).
Qed.

(** [set_data] makes exactly the bytes of such a range data. *)
Theorem set_data_correct bmp base len : fits bmp base len -> len < 16 \/ Z.land base 7 = 0 ->
  exists bmp', set_data bmp base len = Ok bmp' /\ length bmp' = length bmp /\
    forall i, 0 <= i -> is_code bmp' i = negb (in_range base len i) && is_code bmp i.
Proof.
  intros Hf Hc. destruct (set_data_marks bmp base len Hf Hc) as (b & Hr & Hl & Hm).
  exists b. split; [done|]. split; [done|]. intros i Hi. rewrite Hm by done.
  by destruct (in_range base len i).
Qed.

(** A long range that does not start on a byte boundary of the bitmap goes
    wrong: the first partial byte is indexed by the byte address instead of
    an eighth of it, so bits outside the range change and bits inside do
    not. *)
Theorem set_code_misaligned_wrong :
  exists bmp', set_code (replicate 16 0) 12 16 = Ok bmp' /\
    in_range 12 16 12 = true /\ is_code bmp' 12 = false /\
    in_range 12 16 68 = false /\ is_code bmp' 68 = true.
Proof. eexists. split; [reflexivity|]. split_and!; reflexivity. Qed.

Lemma which_area_witness :
  which_area (replicate 4 255 ++ replicate 16 0) 3 28 = Ok (area (replicate 4 255 ++ replicate 16 0) 3 28).
Proof.
  apply which_area_correct; [|split_and!; cbn; lia|lia].
  unfold bytes_ok. apply Forall_app. split; apply Forall_replicate; lia.
Defined.

Lemma set_code_witness :
  exists bmp', set_code (replicate 16 0) 16 37 = Ok bmp' /\ length bmp' = length (replicate 16 0) /\
    forall i, 0 <= i -> is_code bmp' i = in_range 16 37 i || is_code (replicate 16 0) i.
Proof. apply set_code_correct; [split_and!; cbn; lia|by right]. Defined.

Lemma set_data_witness :
  exists bmp', set_data (replicate 16 255) 16 37 = Ok bmp' /\ length bmp' = length (replicate 16 255) /\
    forall i, 0 <= i -> is_code bmp' i = negb (in_range 16 37 i) && is_code (replicate 16 255) i.
Proof. apply set_data_correct; [split_and!; cbn; lia|by right]. Defined.
