(* ===== verification/Dict.v ===== *)
(** * Dictionaries keyed by pointers ([runtime/include/cfggen/kv.h])

    A [dict] is a uthash table whose entries hold a [void*] key and a
    [void*] value.  uthash keeps its entries in insertion order and
    [HASH_ITER] walks them in that order, so a dictionary is the list of its
    entries; NULL is the empty list.  Keys are pointers or integers cast to
    pointers, hence [Z].  [dict_set] is the assignment [kv->value = v]
    through the entry [dict_find] returns. *)

From S2P Require Import Prelude.

Definition dict (V : Type) : Type := list (Z * V).

(** The NULL of each kind of value. *)
Class Null (V : Type) : Type := null : V.
#[export] Instance Null_unit : Null unit := tt.
#[export] Instance Null_list {A} : Null (list A) := [].
#[export] Instance Null_Z : Null Z := 0.

Fixpoint dict_find {V} (d : dict V) (key : Z) : option V :=
  match d with
  | [] => None
  | (k, v) :: d' => if k =? key then Some v else dict_find d' key
  end.

Definition dict_in {V} (d : dict V) (key : Z) : bool :=
  match dict_find d key with Some _ => true | None => false end.

(** [HASH_ADD_PTR] of a new entry: at the end of the order. *)
Definition dict_put {V} (d : dict V) (key : Z) (value : V) : dict V := d ++ [(key, value)].

Definition dict_add {V} (d : dict V) (key : Z) (value : V) : res (dict V) :=
  _ ← CHECK (negb (dict_in d key)); Ok (dict_put d key value).

Fixpoint dict_set {V} (d : dict V) (key : Z) (value : V) : dict V :=
  match d with
  | [] => []
  | (k, v) :: d' => if k =? key then (k, value) :: d' else (k, v) :: dict_set d' key value
  end.

Fixpoint dict_del {V} (d : dict V) (key : Z) : dict V :=
  match d with
  | [] => []
  | (k, v) :: d' => if k =? key then d' else (k, v) :: dict_del d' key
  end.

Definition dict_clear {V} (d : dict V) : dict V := [].

(** The keys, in the order of [HASH_ITER]. *)
Definition keys {V} (d : dict V) : list Z := d.*1.

(** No key occurs twice, as [dict_add] sees to. *)
Definition wf_dict {V} (d : dict V) : Prop := NoDup (keys d).

(** ** Lookup after each operation *)
Section facts.
Context {V : Type}.
Implicit Types (d : dict V) (k : Z) (v : V).

Lemma dict_find_in d k v : dict_find d k = Some v -> (k, v) ∈ d.
Proof.
  induction d as [|[k' v'] d IH]; cbn; [done|]. destruct (Z.eqb_spec k' k) as [->|].
  - intros [= ->]. left.
  - intros H. right. by apply IH.
Qed.

Lemma dict_find_None d k : dict_find d k = None <-> k ∉ keys d.
Proof.
  unfold keys. induction d as [|[k' v'] d IH]; cbn.
  { split; [intros _ H; by apply not_elem_of_nil in H|done]. }
  rewrite not_elem_of_cons. destruct (Z.eqb_spec k' k) as [->|]; [naive_solver|].
  rewrite IH. naive_solver.
Qed.

Lemma dict_in_keys d k : dict_in d k = true <-> k ∈ keys d.
Proof.
  unfold dict_in. pose proof (dict_find_None d k). destruct (dict_find d k).
  - split; [|done]. intros _. destruct (decide (k ∈ keys d)); [done|]. exfalso. naive_solver.
  - split; [done|]. naive_solver.
Qed.

Lemma dict_in_false d k : dict_in d k = false <-> k ∉ keys d.
Proof. rewrite <- dict_in_keys. destruct (dict_in d k); split; congruence. Qed.

Lemma dict_find_wf d k v : wf_dict d -> (k, v) ∈ d -> dict_find d k = Some v.
Proof.
  unfold wf_dict, keys. induction d as [|[k' v'] d IH]; cbn; intros Hnd Hin.
  { by apply not_elem_of_nil in Hin. }
  apply NoDup_cons in Hnd as [Hk Hnd]. apply elem_of_cons in Hin as [[= -> ->]|Hin].
  - by rewrite Z.eqb_refl.
  - destruct (Z.eqb_spec k' k) as [->|]; [|by apply IH].
    exfalso. apply Hk. by apply (list_elem_of_fmap_2 fst _ (k, v)).
Qed.

Lemma dict_find_put d k v k' :
  dict_find (dict_put d k v) k' = match dict_find d k' with
                                  | Some v' => Some v'
                                  | None => if k =? k' then Some v else None
                                  end.
Proof.
  unfold dict_put. induction d as [|[k1 v1] d IH]; cbn; [done|]. by destruct (k1 =? k').
Qed.

Lemma keys_put d k v : keys (dict_put d k v) = keys d ++ [k].
Proof. unfold keys, dict_put. by rewrite fmap_app. Qed.

Lemma keys_set d k v : keys (dict_set d k v) = keys d.
Proof.
  unfold keys. induction d as [|[k' v'] d IH]; cbn; [done|].
  destruct (k' =? k); cbn; [done|]. by f_equal.
Qed.

Lemma dict_find_set d k v k' :
  dict_find (dict_set d k v) k' =
    if k =? k' then (if dict_in d k then Some v else None) else dict_find d k'.
Proof.
  unfold dict_in. induction d as [|[k1 v1] d IH]; cbn; [by destruct (k =? k')|].
  destruct (Z.eqb_spec k1 k) as [->|Hk]; cbn.
  - by destruct (k =? k').
  - rewrite IH. destruct (Z.eqb_spec k1 k') as [->|], (Z.eqb_spec k k'); subst; done.
Qed.

Lemma wf_put d k v : wf_dict d -> k ∉ keys d -> wf_dict (dict_put d k v).
Proof.
  unfold wf_dict. intros Hd Hk. rewrite keys_put. apply NoDup_app. split; [done|].
  split; [|apply NoDup_singleton]. intros x Hx ->%list_elem_of_singleton. done.
Qed.

Lemma wf_set d k v : wf_dict d -> wf_dict (dict_set d k v).
Proof. unfold wf_dict. by rewrite keys_set. Qed.

Lemma dict_find_del d k k' : wf_dict d ->
  dict_find (dict_del d k) k' = if k =? k' then None else dict_find d k'.
Proof.
  unfold wf_dict, keys. induction d as [|[k1 v1] d IH]; cbn; intros Hd; [by destruct (k =? k')|].
  apply NoDup_cons in Hd as [Hk Hd]. destruct (Z.eqb_spec k1 k) as [->|Hne]; cbn.
  - destruct (Z.eqb_spec k k') as [->|]; [|done]. by apply dict_find_None.
  - rewrite (IH Hd). destruct (Z.eqb_spec k1 k') as [->|], (Z.eqb_spec k k'); subst; done.
Qed.

Lemma keys_del d k : keys (dict_del d k) `sublist_of` keys d.
Proof.
  unfold keys. induction d as [|[k1 v1] d IH]; cbn; [done|].
  destruct (k1 =? k); cbn; [by apply sublist_cons|by apply sublist_skip].
Qed.

Lemma wf_del d k : wf_dict d -> wf_dict (dict_del d k).
Proof. intros Hd. by eapply sublist_NoDup, keys_del. Qed.

Lemma wf_nil : wf_dict (V := V) [].
Proof. by apply NoDup_nil. Qed.

Lemma dict_add_Ok d k v d' : dict_add d k v = Ok d' <-> (k ∉ keys d) /\ d' = dict_put d k v.
Proof.
  unfold dict_add. rewrite <- dict_in_false. destruct (dict_in d k); cbn; split; [done|by intros []| |].
  - by intros [= <-].
  - by intros [_ ->].
Qed.
End facts.
#[export] Hint Resolve wf_nil wf_put wf_set wf_del : mcfi.
