(* ===== verification/Graph.v ===== *)
(** * Graphs ([runtime/include/cfggen/graph.h])

    A graph is a dictionary from vertices to adjacency dictionaries, whose
    values are NULL.  Freed memory is not modelled: a destructor leaves the
    empty graph.  [g_dtor_l2] and [g_free_transitive_closure], which only
    release memory that is not used again, are left out, as is printing. *)

From S2P Require Import Prelude Dict.

Definition graph : Type := dict (dict unit).

Definition g_in {V} (g : dict V) (val : Z) : bool := dict_in g val.

Definition g_directed_edge_in (g : graph) (val1 val2 : Z) : bool :=
  match dict_find g val1 with
  | Some adj => dict_in adj val2
  | None => false
  end.

(** The assertion of [dict_add] cannot fail after the test of [g_in]. *)
Definition g_add_vertex {V} `{Null V} (g : dict V) (val : Z) : dict V :=
  if g_in g val then g else dict_put g val null.

Definition g_add_edge_helper {V} `{Null V} (g : dict (dict V)) (val1 val2 : Z) : dict (dict V) :=
  let g := match dict_find g val1 with Some _ => g | None => g_add_vertex g val1 end in
  match dict_find g val1 with
  | Some adj => dict_set g val1 (g_add_vertex adj val2)
  | None => g
  end.

Definition g_add_edge (g : graph) (val1 val2 : Z) : graph :=
  g_add_edge_helper (g_add_edge_helper g val1 val2) val2 val1.

Definition g_add_directed_edge (g : graph) (val1 val2 : Z) : graph := g_add_edge_helper g val1 val2.

(** Two levels of adjacency: [val1 -> val2 -> val3]. *)
Definition g_add_directed_l2_edge (g : dict graph) (val1 val2 val3 : Z) : dict graph :=
  let g := g_add_edge_helper g val1 val2 in
  match dict_find g val1 with
  | Some sub => dict_set g val1 (g_add_edge_helper sub val2 val3)
  | None => g
  end.

Definition g_find_l2_vertex (g : dict graph) (val1 val2 : Z) : option (dict unit) :=
  match dict_find g val1 with
  | Some v1 => dict_find v1 val2
  | None => None
  end.

Definition g_del_vertex (g : graph) (val : Z) : graph :=
  match dict_find g val with
  | Some _ => dict_del g val
  | None => g
  end.

(** A vertex without neighbours left is dropped. *)
Definition g_del_edge_helper (g : graph) (val1 val2 : Z) : graph :=
  match dict_find g val1 with
  | Some adj =>
    let adj := dict_del adj val2 in
    let g := dict_set g val1 adj in
    match adj with [] => dict_del g val1 | _ :: _ => g end
  | None => g
  end.

Definition g_del_edge (g : graph) (val1 val2 : Z) : graph :=
  g_del_edge_helper (g_del_edge_helper g val1 val2) val2 val1.

Definition g_del_directed_edge (g : graph) (val1 val2 : Z) : graph := g_del_edge_helper g val1 val2.

Definition g_dtor (g : graph) : graph := [].

Definition g_size (g : graph) : Z :=
  u32 (u32 (foldl (fun num_edges v => u32 (num_edges + Z.of_nat (length v.2))) 0 g)
       + Z.of_nat (length g)).

(** ** Breadth-first search *)

(** One neighbour of the vertex at the front of the queue. *)
Definition bfs_visit (st : list Z * dict unit * dict unit) (vi : Z * unit)
    : list Z * dict unit * dict unit :=
  let '(q, rg, explored) := st in
  match dict_find explored vi.1 with
  | None => (q ++ [vi.1], g_add_vertex rg vi.1, g_add_vertex explored vi.1)
  | Some _ => st
  end.

Fixpoint bfs_loop (fuel : nat) (g : graph) (q : list Z) (rg explored : dict unit)
    : res (dict unit * dict unit) :=
  match q with
  | [] => Ok (rg, explored)
  | front :: q' =>
    match fuel with
    | O => NoFuel
    | S fuel' =>
      match dict_find g front with
      | None => Exit
      | Some adj =>
        let '(q, rg, explored) := foldl bfs_visit (q', rg, explored) adj in
        bfs_loop fuel' g q rg explored
      end
    end
  end.

(** Each vertex enters the queue once, so the number of vertices is enough fuel. *)
Definition g_bfs (g : graph) (val : Z) (explored : dict unit) : res (dict unit * dict unit) :=
  bfs_loop (length g) g [val] (g_add_vertex [] val) (g_add_vertex explored val).

(** ** Connected components *)
Definition lcc_step (g : graph) (st : list (dict unit) * dict unit) (v : Z * dict unit)
    : res (list (dict unit) * dict unit) :=
  let '(lcc, explored) := st in
  if g_in explored v.1 then Ok (lcc, explored)
  else
    '(cc, explored) ← g_bfs g v.1 explored;
    Ok (lcc ++ [cc], explored).

Definition g_get_lcc (g : graph) : res (list (dict unit)) :=
  '(lcc, _) ← foldM (lcc_step g) g ([], []);
  Ok lcc.

(** Each vertex of [g] mapped to (a pointer to) its component. *)
Definition tc_add (cc : dict unit) (rs : dict (dict unit)) (v : Z * unit) : dict (dict unit) :=
  dict_set (g_add_vertex rs v.1) v.1 cc.

Definition tc_add_cc (rs : dict (dict unit)) (cc : dict unit) : dict (dict unit) :=
  foldl (tc_add cc) rs cc.

Definition g_transitive_closure (g : graph) : res (dict (dict unit)) :=
  lcc ← g_get_lcc g;
  Ok (foldl tc_add_cc [] lcc).

(** The vertices of [cc] are connected to its first one; [cc] is consumed. *)
Definition g_add_cc_to_g (g : graph) (cc : dict unit) : graph :=
  match cc with
  | [] => g
  | (first, _) :: rest => foldl (fun g (v : Z * unit) => g_add_edge g first v.1) g rest
  end.
