(* ===== verification/GraphFacts.v ===== *)
(** * Connected components

    Graphs built with [g_add_edge] are symmetric; on them [g_bfs] finds the
    component of its start, [g_get_lcc] the partition of the vertices into
    components, and [g_transitive_closure] the equivalence relation. *)

From Stdlib Require List.
From S2P Require Import Prelude Dict Graph.

Definition edge (g : graph) (a b : Z) : Prop := g_directed_edge_in g a b = true.

(** The reflexive transitive closure of the edges. *)
Definition connected (g : graph) : Z -> Z -> Prop := rtc (edge g).

Record wf_graph (g : graph) : Prop := {
  wfg_dict : wf_dict g;
  wfg_adj : forall a adj, dict_find g a = Some adj -> wf_dict adj;
  wfg_target : forall a b, edge g a b -> b ∈ keys g;
  wfg_sym : forall a b, edge g a b -> edge g b a;
}.

(** The components of a graph: each a class of connected vertices, pairwise
    disjoint, and every vertex in one. *)
Record components (g : graph) (lcc : list (dict unit)) : Prop := {
  comp_class : forall cc, cc ∈ lcc -> wf_dict cc /\ exists x, x ∈ keys g /\ forall y, y ∈ keys cc <-> connected g x y;
  comp_cover : forall x, x ∈ keys g -> exists cc, cc ∈ lcc /\ x ∈ keys cc;
  comp_disjoint : NoDup (concat (keys <$> lcc));
}.

(** ** Edges *)
Lemma edge_find g a b : edge g a b <-> exists adj, dict_find g a = Some adj /\ b ∈ keys adj.
Proof.
  unfold edge, g_directed_edge_in. destruct (dict_find g a) as [adj|].
  - rewrite dict_in_keys. naive_solver.
  - naive_solver.
Qed.

Lemma edge_source g a b : edge g a b -> a ∈ keys g.
Proof.
  intros (adj & H & _)%edge_find. apply dict_in_keys. unfold dict_in. by rewrite H.
Qed.

Lemma add_vertex_keys {V} `{Null V} (g : dict V) v x :
  x ∈ keys (g_add_vertex g v) <-> x = v \/ x ∈ keys g.
Proof.
  unfold g_add_vertex, g_in. destruct (dict_in g v) eqn:E.
  - apply dict_in_keys in E. naive_solver.
  - rewrite keys_put, elem_of_app, list_elem_of_singleton. tauto.
Qed.

Lemma add_vertex_wf {V} `{Null V} (g : dict V) v : wf_dict g -> wf_dict (g_add_vertex g v).
Proof.
  intros Hg. unfold g_add_vertex, g_in. destruct (dict_in g v) eqn:E; [done|].
  apply wf_put; [done|]. by apply dict_in_false.
Qed.

Lemma add_vertex_find {V} `{Null V} (g : dict V) v k :
  dict_find (g_add_vertex g v) k =
    match dict_find g k with Some x => Some x | None => if v =? k then Some null else None end.
Proof.
  unfold g_add_vertex, g_in, dict_in. destruct (dict_find g v) eqn:E; [|apply dict_find_put].
  destruct (dict_find g k) eqn:Ek; [done|]. destruct (Z.eqb_spec v k) as [->|]; congruence.
Qed.

(** What adding an edge does to the dictionary. *)
Lemma add_edge_helper_find {V} `{Null V} (g : dict (dict V)) a b k :
  dict_find (g_add_edge_helper g a b) k =
    if a =? k then Some (g_add_vertex (default [] (dict_find g a)) b) else dict_find g k.
Proof.
  unfold g_add_edge_helper.
  assert (Hg : match dict_find g a with Some _ => g | None => g_add_vertex g a end = g_add_vertex g a).
  { unfold g_add_vertex, g_in, dict_in. by destruct (dict_find g a). }
  rewrite Hg, (add_vertex_find g a a), Z.eqb_refl.
  destruct (dict_find g a) as [adj|] eqn:E; cbn [default from_option id];
    rewrite dict_find_set; unfold dict_in; rewrite add_vertex_find, ?E, ?Z.eqb_refl;
    (destruct (Z.eqb_spec a k) as [->|Hk]; [done|]);
    rewrite add_vertex_find, (proj2 (Z.eqb_neq a k)) by done; by destruct (dict_find g k).
Qed.

Lemma add_edge_helper_keys {V} `{Null V} (g : dict (dict V)) a b k :
  k ∈ keys (g_add_edge_helper g a b) <-> k = a \/ k ∈ keys g.
Proof.
  rewrite <- !dict_in_keys. unfold dict_in. rewrite add_edge_helper_find.
  destruct (Z.eqb_spec a k) as [->|]; [naive_solver|]. split; [by right|].
  intros [->|]; done.
Qed.

Lemma add_edge_helper_wf {V} `{Null V} (g : dict (dict V)) a b :
  wf_dict g -> wf_dict (g_add_edge_helper g a b).
Proof.
  intros Hg. unfold g_add_edge_helper.
  destruct (dict_find g a) as [adj|] eqn:E.
  - rewrite E. by apply wf_set.
  - destruct (dict_find (g_add_vertex g a) a); [apply wf_set|]; by apply add_vertex_wf.
Qed.

Lemma edge_add_helper (g : graph) a b x y :
  edge (g_add_edge_helper g a b) x y <-> (x = a /\ y = b) \/ edge g x y.
Proof.
  rewrite !edge_find. setoid_rewrite add_edge_helper_find.
  destruct (Z.eqb_spec a x) as [->|Hx].
  - split.
    + intros (adj & [= <-] & Hy%add_vertex_keys). destruct Hy as [->|Hy]; [auto|]. right.
      destruct (dict_find g x); [by eexists|]. by apply not_elem_of_nil in Hy.
    + intros H. eexists. split; [done|]. apply add_vertex_keys.
      destruct H as [[_ ->]|(adj & -> & Hy)]; auto.
  - split; [by right|]. intros [[-> _]|H]; [done|exact H].
Qed.

Lemma edge_add (g : graph) a b x y :
  edge (g_add_edge g a b) x y <-> (x = a /\ y = b) \/ (x = b /\ y = a) \/ edge g x y.
Proof. unfold g_add_edge. rewrite !edge_add_helper. tauto. Qed.

Lemma keys_add_edge (g : graph) a b x :
  x ∈ keys (g_add_edge g a b) <-> x = a \/ x = b \/ x ∈ keys g.
Proof. unfold g_add_edge. rewrite !add_edge_helper_keys. tauto. Qed.

Lemma helper_wf_adj (g : graph) a b :
  (forall x adj, dict_find g x = Some adj -> wf_dict adj) ->
  forall x adj, dict_find (g_add_edge_helper g a b) x = Some adj -> wf_dict adj.
Proof.
  intros H x adj. rewrite add_edge_helper_find. destruct (a =? x); [|apply H].
  intros [= <-]. apply add_vertex_wf. destruct (dict_find g a) eqn:E; [by eapply H|].
  apply wf_nil.
Qed.

Lemma wf_graph_nil : wf_graph [].
Proof. by constructor; [apply wf_nil|..]. Qed.

(** [g_add_edge] keeps a graph well-formed. *)
Lemma wf_add_edge g a b : wf_graph g -> wf_graph (g_add_edge g a b).
Proof.
  intros [H1 H2 H3 H4]. constructor.
  - by do 2 apply add_edge_helper_wf.
  - by do 2 apply helper_wf_adj.
  - intros x y. rewrite edge_add, keys_add_edge. intros [[-> ->]|[[-> ->]|H]]; auto.
    right. right. by eapply H3.
  - intros x y. rewrite !edge_add. naive_solver.
Qed.
#[export] Hint Resolve wf_graph_nil wf_add_edge : mcfi.

Lemma connected_sym g a b : wf_graph g -> connected g a b -> connected g b a.
Proof.
  intros Hg H. induction H as [x|x y z H _ IH]; [constructor|].
  eapply rtc_r; [exact IH|]. by apply (wfg_sym _ Hg).
Qed.

Lemma connected_key g a b : wf_graph g -> a ∈ keys g -> connected g a b -> b ∈ keys g.
Proof.
  intros Hg Ha H. induction H as [x|x y z H _ IH]; [done|]. apply IH. by eapply wfg_target.
Qed.

(** A set closed under edges is closed under connection. *)
Lemma connected_closed g (P : Z -> Prop) a b : (forall x y, P x -> edge g x y -> P y) ->
  P a -> connected g a b -> P b.
Proof. intros H Ha Hc. induction Hc; eauto. Qed.

(** ** Breadth-first search *)

(** Visiting the neighbours of a vertex appends the undiscovered ones. *)
Lemma visit_spec adj q (rg E : dict unit) : wf_dict rg -> wf_dict E -> keys rg ⊆ keys E ->
  exists new rg' E', foldl bfs_visit (q, rg, E) adj = (q ++ new, rg', E') /\
    wf_dict rg' /\ wf_dict E' /\ keys rg' = keys rg ++ new /\ keys E' = keys E ++ new /\
    (forall x, x ∈ new -> x ∈ keys adj) /\ (forall x, x ∈ keys adj -> x ∈ keys E ++ new).
Proof.
  revert q rg E. induction adj as [|[x u] adj IH]; intros q rg E Hr HE Hsub.
  { exists [], rg, E. rewrite !app_nil_r. split_and!; try done; by intros x Hx%not_elem_of_nil. }
  cbn [foldl bfs_visit fst]. unfold g_add_vertex, g_in, dict_in.
  destruct (dict_find E x) eqn:Ex.
  - destruct (IH q rg E Hr HE Hsub) as (new & rg' & E' & Hrun & H1 & H2 & H3 & H4 & H5 & H6).
    exists new, rg', E'. split_and!; try done.
    + intros y Hy. right. by apply H5.
    + intros y [->|Hy]%elem_of_cons; [|by apply H6]. apply elem_of_app. left.
      apply dict_in_keys. unfold dict_in. cbn [fst]. by rewrite Ex.
  - apply dict_find_None in Ex as HxE.
    assert (Hxr : x ∉ keys rg) by (intros H; by apply HxE, Hsub).
    pose proof Hxr as Hr2%dict_find_None. rewrite Hr2.
    destruct (IH (q ++ [x]) (dict_put rg x null) (dict_put E x null))
      as (new & rg' & E' & Hrun & H1 & H2 & H3 & H4 & H5 & H6); [by apply wf_put|by apply wf_put| |].
    { rewrite !keys_put. intros y. rewrite !elem_of_app. intros [Hy|Hy]; auto. }
    rewrite !keys_put, <- ?app_assoc in *. exists (x :: new), rg', E'.
    split_and!; try done.
    + intros y [->|Hy]%elem_of_cons; [left|right; by apply H5].
    + intros y [->|Hy]%elem_of_cons.
      * apply elem_of_app. right. left.
      * by apply H6.
Qed.

Section bfs.
Context (g : graph) (val : Z) (E0 : dict unit).
Hypothesis Hg : wf_graph g.
Hypothesis Hval : val ∈ keys g.
Hypothesis Hfresh : val ∉ keys E0.
Hypothesis HE0 : wf_dict E0.
(** What was discovered before is a union of components. *)
Hypothesis Hclosed : forall x y, x ∈ keys E0 -> edge g x y -> y ∈ keys E0.

Record bfs_inv (q : list Z) (rg E : dict unit) : Prop := {
  inv_rg : wf_dict rg;
  inv_E : wf_dict E;
  inv_keys : keys E ≡ₚ keys E0 ++ keys rg;
  inv_q : q ⊆ keys rg;
  inv_val : val ∈ keys rg;
  inv_conn : forall x, x ∈ keys rg -> connected g val x;
  inv_done : forall x y, x ∈ keys rg -> x ∉ q -> edge g x y -> y ∈ keys rg;
}.

Lemma inv_length q rg E : bfs_inv q rg E -> (length (keys rg) <= length g)%nat.
Proof using Hg Hval.
  intros H. replace (length g) with (length (keys g)) by apply length_fmap.
  apply submseteq_length, NoDup_submseteq; [apply (inv_rg _ _ _ H)|].
  intros x Hx. by eapply connected_key, (inv_conn _ _ _ H).
Qed.

(** One turn of the loop. *)
Lemma inv_step front q rg E adj : bfs_inv (front :: q) rg E -> dict_find g front = Some adj ->
  exists new rg' E', foldl bfs_visit (q, rg, E) adj = (q ++ new, rg', E') /\
    bfs_inv (q ++ new) rg' E' /\ length (keys rg') = (length (keys rg) + length new)%nat.
Proof using Hg Hval Hfresh HE0 Hclosed.
  intros [H1 H2 H3 H4 H5 H6 H7] Hadj.
  destruct (visit_spec adj q rg E H1 H2) as (new & rg' & E' & Hrun & W1 & W2 & K1 & K2 & N1 & N2).
  { intros x Hx. rewrite H3, elem_of_app. auto. }
  assert (Hf : front ∈ keys rg) by (apply H4; left).
  assert (Hnb : forall x, x ∈ keys adj -> edge g front x) by (intros x Hx; apply edge_find; eauto).
  (* a neighbour of a vertex connected to [val] is not in an old component *)
  assert (Hnew : forall x, edge g front x -> x ∉ keys E0).
  { intros x Hx Hin. apply Hfresh.
    assert (Hc : connected g x val).
    { apply connected_sym; [done|]. eapply rtc_r; [by apply H6|done]. }
    by eapply (connected_closed g (fun z => z ∈ keys E0)). }
  exists new, rg', E'. split; [done|]. split; [|rewrite K1; apply length_app].
  constructor; try done.
  - rewrite K1, K2, H3. by rewrite app_assoc.
  - intros x. rewrite K1, !elem_of_app. intros [Hx|Hx]; [|auto]. left. apply H4. by right.
  - rewrite K1, elem_of_app. auto.
  - intros x. rewrite K1, elem_of_app. intros [Hx|Hx]; [by apply H6|].
    eapply rtc_r; [by apply (H6 front)|]. by apply Hnb, N1.
  - intros x y. rewrite K1, !elem_of_app. intros [Hx|Hx] Hqn Hxy; [|by exfalso; auto].
    destruct (decide (x = front)) as [->|Hne].
    + assert (Hy : y ∈ keys adj).
      { apply edge_find in Hxy as (adj' & E1 & ?). rewrite Hadj in E1. by injection E1 as <-. }
      apply N2 in Hy. rewrite H3, !elem_of_app in Hy.
      destruct Hy as [[Hy|Hy]|Hy]; [|auto|auto]. exfalso. by apply (Hnew y).
    + left. apply (H7 x y); [done| |done]. apply not_elem_of_cons. split; [done|]. auto.
Qed.

Lemma bfs_loop_correct fuel q rg E : bfs_inv q rg E ->
  (length g - length (keys rg) + length q <= fuel)%nat ->
  exists rg' E', bfs_loop fuel g q rg E = Ok (rg', E') /\ bfs_inv [] rg' E'.
Proof using Hg Hval Hfresh HE0 Hclosed.
  revert q rg E. induction fuel as [|fuel IH]; intros q rg E Hinv Hf.
  { destruct q as [|front q]; [by exists rg, E|cbn in Hf; lia]. }
  destruct q as [|front q]; [by exists rg, E|]. cbn [bfs_loop].
  assert (Hfront : front ∈ keys g).
  { eapply connected_key; [done|exact Hval|]. apply (inv_conn _ _ _ Hinv), (inv_q _ _ _ Hinv). left. }
  apply dict_in_keys in Hfront. unfold dict_in in Hfront.
  destruct (dict_find g front) as [adj|] eqn:Ea; [|done].
  destruct (inv_step front q rg E adj Hinv Ea) as (new & rg' & E' & -> & Hinv' & Hl).
  apply IH; [done|]. pose proof (inv_length _ _ _ Hinv') as Hle.
  rewrite Hl in *. rewrite length_app. cbn in Hf. lia.
Qed.

(** The search returns the component of its start and marks it explored. *)
Lemma g_bfs_correct : exists rg E, g_bfs g val E0 = Ok (rg, E) /\ wf_dict rg /\ wf_dict E /\
  keys E ≡ₚ keys E0 ++ keys rg /\ (forall y, y ∈ keys rg <-> connected g val y).
Proof using Hg Hval Hfresh HE0 Hclosed.
  unfold g_bfs. destruct (bfs_loop_correct (length g) [val] (g_add_vertex [] val) (g_add_vertex E0 val))
    as (rg & E & Hrun & [H1 H2 H3 H4 H5 H6 H7]).
  - assert (Hk : keys (g_add_vertex (V := unit) [] val) = [val]) by done.
    assert (HkE : keys (g_add_vertex E0 val) = keys E0 ++ [val]).
    { unfold g_add_vertex, g_in. rewrite (proj2 (dict_in_false E0 val)) by done. apply keys_put. }
    constructor; rewrite ?Hk, ?HkE; try done.
    + by apply add_vertex_wf, wf_nil.
    + by apply add_vertex_wf.
    + by left.
    + intros x ->%list_elem_of_singleton. constructor.
  - cbn. assert (0 < length g)%nat; [|lia]. destruct g; [by apply not_elem_of_nil in Hval|cbn; lia].
  - exists rg, E. split_and!; try done. intros y. split; [by apply H6|]. intros Hy.
    eapply (connected_closed g (fun z => z ∈ keys rg)); [|exact H5|exact Hy].
    intros x z Hx. apply H7; [done|apply not_elem_of_nil].
Qed.
End bfs.

(** ** The list of components *)
Record lcc_inv (g : graph) (don : list Z) (lcc : list (dict unit)) (E : dict unit) : Prop := {
  lcc_E : wf_dict E;
  lcc_keys : keys E ≡ₚ concat (keys <$> lcc);
  lcc_class : forall cc, cc ∈ lcc -> wf_dict cc /\ exists x, x ∈ keys g /\ forall y, y ∈ keys cc <-> connected g x y;
  lcc_don : forall x, x ∈ don -> x ∈ keys E;
}.

Lemma elem_of_components x (lcc : list (dict unit)) :
  x ∈ concat (keys <$> lcc) <-> exists cc, cc ∈ lcc /\ x ∈ keys cc.
Proof.
  rewrite list_elem_of_In, List.in_concat. setoid_rewrite <- list_elem_of_In. split.
  - intros (l & (cc & -> & Hcc)%list_elem_of_fmap & Hx). eauto.
  - intros (cc & Hcc & Hx). exists (keys cc). split; [by apply list_elem_of_fmap_2|done].
Qed.

Lemma lcc_closed g don lcc E x y : wf_graph g -> lcc_inv g don lcc E -> x ∈ keys E ->
  edge g x y -> y ∈ keys E.
Proof.
  intros Hg [H1 H2 H3 H4] Hx Hxy. rewrite H2, elem_of_components in *.
  destruct Hx as (cc & Hcc & Hx). exists cc. split; [done|].
  destruct (H3 cc Hcc) as (_ & z & _ & Hz). apply Hz. apply Hz in Hx. by eapply rtc_r.
Qed.

Lemma lcc_fold g todo don lcc E : wf_graph g -> (forall v, v ∈ todo -> v.1 ∈ keys g) ->
  lcc_inv g don lcc E ->
  exists lcc' E', foldM (lcc_step g) todo (lcc, E) = Ok (lcc', E') /\ lcc_inv g (don ++ keys todo) lcc' E'.
Proof.
  intros Hg. revert don lcc E. induction todo as [|v todo IH]; intros don lcc E Hin Hinv.
  { exists lcc, E. unfold keys at 1. cbn. by rewrite app_nil_r. }
  cbn [foldM]. pose proof Hinv as [H1 H2 H3 H4].
  assert (Hstep : lcc_step g (lcc, E) v = if dict_in E v.1 then Ok (lcc, E) else
    '(cc, explored) ← g_bfs g v.1 E; Ok (lcc ++ [cc], explored)) by done.
  rewrite Hstep.
  assert (Hk : don ++ keys (v :: todo) = (don ++ [v.1]) ++ keys todo) by (by rewrite <- app_assoc).
  rewrite Hk. destruct (dict_in E v.1) eqn:Ev; cbn [mbind res_bind].
  - apply dict_in_keys in Ev. apply IH; [intros; apply Hin; by right|]. constructor; try done.
    intros x [Hx|Hx%list_elem_of_singleton]%elem_of_app; [auto|by subst].
  - apply dict_in_false in Ev.
    destruct (g_bfs_correct g v.1 E Hg (Hin v ltac:(left)) Ev H1) as (cc & E' & -> & B1 & B2 & B3 & B4).
    { intros x y. by apply (lcc_closed g don lcc E). }
    cbn [mbind res_bind]. apply IH; [intros; apply Hin; by right|]. constructor.
    + done.
    + rewrite B3, H2, fmap_app, concat_app. cbn. by rewrite app_nil_r.
    + intros c [Hc|Hc%list_elem_of_singleton]%elem_of_app; [auto|]. subst. split; [done|].
      exists v.1. split; [apply Hin; left|done].
    + intros x. rewrite B3. intros [Hx|Hx%list_elem_of_singleton]%elem_of_app; apply elem_of_app; [auto|].
      right. subst. apply B4. constructor.
Qed.

(** [g_get_lcc] returns the components, however the graph was built. *)
Lemma g_get_lcc_spec g : wf_graph g -> exists lcc, g_get_lcc g = Ok lcc /\ components g lcc.
Proof.
  intros Hg. unfold g_get_lcc.
  destruct (lcc_fold g g [] [] [] Hg) as (lcc & E & Hrun & [H1 H2 H3 H4]).
  - intros v Hv. by apply list_elem_of_fmap_2.
  - by constructor; [apply wf_nil| |intros cc Hc%not_elem_of_nil|intros x Hx%not_elem_of_nil].
  - exists lcc.
    assert (Hrun' : foldM (lcc_step g) g ([], []) = Ok (lcc, E)) by exact Hrun.
    rewrite Hrun'. split; [done|]. constructor; [done| |].
    + intros x Hx. apply elem_of_components. rewrite <- H2. by apply H4.
    + by rewrite <- H2.
Qed.

(** ** The transitive closure *)
Lemma closure_one cc l (rs : dict (dict unit)) : wf_dict rs ->
  let rs' := foldl (tc_add cc) rs l in
  wf_dict rs' /\ forall k, dict_find rs' k = if decide (k ∈ keys l) then Some cc else dict_find rs k.
Proof.
  revert rs. induction l as [|[k1 u] l IH]; intros rs Hrs; cbn [foldl fst].
  { split; [done|]. intros k. rewrite decide_False; [done|]. apply not_elem_of_nil. }
  destruct (IH (dict_set (g_add_vertex rs k1) k1 cc)) as [I1 I2].
  { by apply wf_set, add_vertex_wf. }
  split; [done|]. intros k. rewrite I2, dict_find_set. unfold keys. cbn [fmap list_fmap fst].
  assert (Hin : dict_in (g_add_vertex rs k1) k1 = true).
  { apply dict_in_keys, add_vertex_keys. by left. }
  rewrite Hin. destruct (decide (k ∈ l.*1)) as [H|H].
  - rewrite decide_True; [done|by right].
  - destruct (Z.eqb_spec k1 k) as [->|Hne].
    + rewrite decide_True; [done|left].
    + rewrite decide_False; [|rewrite not_elem_of_cons; auto].
      rewrite add_vertex_find. rewrite (proj2 (Z.eqb_neq k1 k)) by done. by destruct (dict_find rs k).
Qed.

Lemma closure_all lcc (rs : dict (dict unit)) : wf_dict rs -> NoDup (concat (keys <$> lcc)) ->
  (forall cc k, cc ∈ lcc -> k ∈ keys cc -> dict_find rs k = None) ->
  let rs' := foldl tc_add_cc rs lcc in
  wf_dict rs' /\ (forall cc k, cc ∈ lcc -> k ∈ keys cc -> dict_find rs' k = Some cc) /\
  (forall k, k ∉ concat (keys <$> lcc) -> dict_find rs' k = dict_find rs k).
Proof.
  revert rs. induction lcc as [|cc lcc IH]; intros rs Hrs Hnd Hnone; cbn [foldl].
  { split; [done|]. split; [|done]. intros cc k H. by apply not_elem_of_nil in H. }
  cbn in Hnd. apply NoDup_app in Hnd as (N1 & N2 & N3).
  destruct (closure_one cc cc rs Hrs) as [W F].
  destruct (IH _ W N3) as (I1 & I2 & I3).
  { intros c k Hc Hk. rewrite F. rewrite decide_False.
    - eapply Hnone; [by right|done].
    - intros Hk2. apply (N2 k Hk2). apply elem_of_components. eauto. }
  split; [done|]. split.
  - intros c k [->|Hc]%elem_of_cons Hk; [|by apply I2].
    rewrite I3, F, decide_True by (done || by apply N2). done.
  - intros k Hk. cbn in Hk. rewrite not_elem_of_app in Hk. destruct Hk as [Hk1 Hk2].
    rewrite I3, F, decide_False by done. done.
Qed.

(** In the closure, two vertices are adjacent exactly when they are connected. *)
Lemma g_transitive_closure_spec g : wf_graph g ->
  exists tc, g_transitive_closure g = Ok tc /\ wf_dict tc /\
    (forall a, dict_in tc a = true <-> a ∈ keys g) /\
    (forall a b, edge tc a b <-> a ∈ keys g /\ connected g a b).
Proof.
  intros Hg. destruct (g_get_lcc_spec g Hg) as (lcc & Hrun & [C1 C2 C3]).
  unfold g_transitive_closure. rewrite Hrun. cbn [mbind res_bind].
  destruct (closure_all lcc [] wf_nil C3) as (W & F1 & F2); [done|].
  eexists. split; [done|]. split; [done|].
  assert (Hout : forall a, a ∉ keys g -> dict_find (foldl tc_add_cc [] lcc) a = None).
  { intros a Ha. rewrite F2; [done|]. intros (cc & Hcc & Hk)%elem_of_components. apply Ha.
    destruct (C1 cc Hcc) as (_ & x & Hx & Hy). apply Hy in Hk. by eapply connected_key. }
  split.
  - intros a. split.
    + intros Ha. destruct (decide (a ∈ keys g)) as [|Hn]; [done|].
      unfold dict_in in Ha. by rewrite Hout in Ha.
    + intros Ha. destruct (C2 a Ha) as (cc & Hcc & Hk). unfold dict_in. by rewrite (F1 cc a Hcc Hk).
  - intros a b. rewrite edge_find. split.
    + intros (adj & Hadj & Hb). destruct (decide (a ∈ keys g)) as [Ha|Hn]; [|by rewrite Hout in Hadj].
      split; [done|]. destruct (C2 a Ha) as (cc & Hcc & Hk). rewrite (F1 cc a Hcc Hk) in Hadj.
      injection Hadj as <-. destruct (C1 cc Hcc) as (_ & x & Hx & Hy).
      apply Hy in Hk, Hb. etrans; [by apply connected_sym, Hk|exact Hb].
    + intros [Ha Hab]. destruct (C2 a Ha) as (cc & Hcc & Hk). exists cc.
      split; [by apply F1|]. destruct (C1 cc Hcc) as (_ & x & Hx & Hy). apply Hy. apply Hy in Hk.
      by etrans.
Qed.

(** ** Graphs built from a list of edges *)
Definition built (es : list (Z * Z)) : graph := foldl (fun g e => g_add_edge g e.1 e.2) [] es.

(** Two vertices joined by a chain of edges of [es], in either direction. *)
Definition linked (es : list (Z * Z)) : Z -> Z -> Prop :=
  rtc (fun a b => (a, b) ∈ es \/ (b, a) ∈ es).

Lemma built_from es g : wf_graph g ->
  let g' := foldl (fun g e => g_add_edge g e.1 e.2) g es in
  wf_graph g' /\ (forall a b, edge g' a b <-> (a, b) ∈ es \/ (b, a) ∈ es \/ edge g a b) /\
  (forall a, a ∈ keys g' <-> a ∈ es.*1 \/ a ∈ es.*2 \/ a ∈ keys g).
Proof.
  revert g. induction es as [|[x y] es IH]; intros g Hg; cbn [foldl fst snd].
  { split; [done|]. split; intros; rewrite ?not_elem_of_nil; cbn;
      rewrite ?elem_of_nil; tauto. }
  destruct (IH (g_add_edge g x y) (wf_add_edge _ _ _ Hg)) as (W & HE & HK). split; [done|].
  split.
  - intros a b. rewrite HE, edge_add, !elem_of_cons. split; [|naive_solver].
    intros [?|[?|[[-> ->]|[[-> ->]|?]]]]; auto.
  - intros a. rewrite HK, keys_add_edge. cbn. rewrite !elem_of_cons. tauto.
Qed.

Lemma built_wf es : wf_graph (built es).
Proof. apply (built_from es [] wf_graph_nil). Qed.

Lemma built_connected es a b : connected (built es) a b <-> linked es a b.
Proof.
  destruct (built_from es [] wf_graph_nil) as (_ & HE & _).
  assert (Hn : forall x y, ~ edge [] x y) by done.
  split; (induction 1 as [|x y z H _ IH]; [constructor|]; eapply rtc_l; [|exact IH]).
  - apply HE in H. specialize (Hn x y). tauto.
  - apply HE. tauto.
Qed.

Lemma built_keys es a : a ∈ keys (built es) <-> a ∈ es.*1 \/ a ∈ es.*2.
Proof.
  destruct (built_from es [] wf_graph_nil) as (_ & _ & HK). unfold built. rewrite HK.
  split; [|tauto]. intros [?|[?|H%not_elem_of_nil]]; tauto.
Qed.

(** C5.  [g_get_lcc] partitions the vertices of a graph built by [g_add_edge]:
    its lists are pairwise disjoint, cover the vertices, and two vertices are
    in the same list exactly when a chain of edges joins them.  The search
    always ends, within as many turns as there are vertices. *)
Theorem g_get_lcc_correct es : exists lcc, g_get_lcc (built es) = Ok lcc /\
  NoDup (concat (keys <$> lcc)) /\
  (forall x, (exists cc, cc ∈ lcc /\ x ∈ keys cc) <-> x ∈ es.*1 \/ x ∈ es.*2) /\
  (forall cc x y, cc ∈ lcc -> x ∈ keys cc -> (y ∈ keys cc <-> linked es x y)).
Proof.
  destruct (g_get_lcc_spec (built es) (built_wf es)) as (lcc & Hrun & [C1 C2 C3]).
  exists lcc. split; [done|]. split; [done|]. split.
  - intros x. rewrite <- built_keys. split; [|apply C2]. intros (cc & Hcc & Hx).
    destruct (C1 cc Hcc) as (_ & z & Hz & Hy). apply Hy in Hx.
    eapply connected_key; [apply built_wf|exact Hz|exact Hx].
  - intros cc x y Hcc Hx. destruct (C1 cc Hcc) as (_ & z & Hz & Hy). rewrite <- built_connected.
    apply Hy in Hx. rewrite Hy. split; intros H; [|by etrans].
    etrans; [by apply connected_sym; [apply built_wf|]|exact H].
Qed.

(** [g_transitive_closure] maps every vertex to its class: [b] is in the
    entry of [a] exactly when a chain of edges joins them. *)
Theorem g_transitive_closure_correct es : exists tc, g_transitive_closure (built es) = Ok tc /\
  (forall a, dict_in tc a = true <-> a ∈ es.*1 \/ a ∈ es.*2) /\
  (forall a b, g_directed_edge_in tc a b = true <-> (a ∈ es.*1 \/ a ∈ es.*2) /\ linked es a b).
Proof.
  destruct (g_transitive_closure_spec (built es) (built_wf es)) as (tc & Hrun & _ & H1 & H2).
  exists tc. split; [done|]. split.
  - intros a. by rewrite H1, built_keys.
  - intros a b. rewrite <- built_keys, <- built_connected. apply H2.
Qed.
