(* ===== verification/Module.v ===== *)
(** * Code modules and their metadata ([runtime/include/cfggen/cfggen.h])

    The structures the control-flow graph generator and the code heap work
    on.  A [char*] that has been interned in the string pool is its address,
    a [Z]; 0 is NULL.  An [icf] keeps, for each kind of indirect branch, the
    fields the parser sets for it: the others are uninitialised memory.  The
    destructors, which only release memory, are left out. *)

From coqutil Require Export Datatypes.RecordSetters.
From S2P Require Import Prelude Dict Graph.

Export DoubleBraceUpdate.

(** ** Reserved bytes of the tables *)
Definition LPV : Z := 0xFE.
Definition NPV : Z := 0xFC.
Definition DCV : Z := 0xF4.

(** ** Qualifiers of methods *)
Definition CONSTANT : Z := 1.
Definition VOLATILE : Z := 2.
Definition STATIC : Z := 4.
Definition VIRTUAL : Z := 8.

Definition is_constant (attrs : Z) : bool := negb (Z.land attrs CONSTANT =? 0).
Definition is_volatile (attrs : Z) : bool := negb (Z.land attrs VOLATILE =? 0).
Definition is_static (attrs : Z) : bool := negb (Z.land attrs STATIC =? 0).
Definition is_virtual (attrs : Z) : bool := negb (Z.land attrs VIRTUAL =? 0).

(** ** Indirect branches, functions, symbols *)
Inductive icf : Type :=
  | VirtualMethodCall (class_name method_name : Z)
  | PointerToMethodCall (class_name type attrs : Z)
  | NormalCall (type : Z).

Record function : Type := mkFunction {
  f_name : Z;
  f_class_name : Z;
  f_method_name : Z;
  f_type : Z;
  f_returns : list Z;
  f_dtails : list Z;
  f_itails : list Z;
}.

Record symbol : Type := mkSymbol { s_name : Z; s_offset : Z }.

Record verifier : Type := mkVerifier {
  dfa : Z -> Z;   (* the transition table, indexed by [state * 256 + byte] *)
  v_states : Z;
  v_start : Z;
  v_dcall : Z;
  v_icall : Z;
  v_ijmp : Z;
  v_jmp_rel1 : Z;
  v_jmp_rel4 : Z;
  v_jcc_rel1 : Z;
  v_jcc_rel4 : Z;
  v_mcficall : Z;
  v_mcficheck : Z;
  v_mcfiret : Z;
  v_terminator : Z;
  v_max_accept : Z;
}.

(** ** Code modules

    [icfs] is keyed by the identifier of the branch; several entries may
    have one identifier, since the code does not check.  [fats] and the like
    are sets, dictionaries to NULL. *)
Record code_module : Type := mkModule {
  base_addr : Z;
  osb_base_addr : Z;
  sz : Z;
  icfs : dict icf;
  functions : list function;
  classes : dict (dict Z);
  cha : graph;
  aliases : graph;
  rai : list symbol;
  rad : list symbol;
  lp : list symbol;
  flp : dict (dict unit);
  funcsyms : list symbol;
  icfsyms : list symbol;
  fats : dict unit;
  fats_in_code : dict (dict unit);
  fats_in_data : dict unit;
  ra_orig : dict Z;
  at_func : dict Z;
  func_orig : dict Z;
  ctor : dict Z;
  vtable : dict (list Z);
  defined_ctors : dict unit;
  dynfuncs : graph;
  weakfuncs : graph;
  gotplt : Z;
  osb_gotplt : Z;
  gotpltsz : Z;
  gpfuncs : dict Z;
  cfggened : bool;
  activated : bool;
  code_heap : bool;
  code_data_bitmap : list Z;
  internal_dbt_bitmap : list Z;
  forward_reference : graph;
  backward_reference : graph;
  bid_slot_in_codeheap : dict Z;
  m_verifier : option verifier;
  instrumented : bool;
}.

(** [alloc_code_module]: zeroed memory. *)
Definition alloc_code_module : code_module :=
  mkModule 0 0 0 [] [] [] [] [] [] [] [] [] [] [] [] [] [] [] [] [] [] [] [] [] [] 0 0 0 []
    false false false [] [] [] [] [] None false.

(** ** The verifier's automaton *)
Definition dfa_lookup (v : verifier) (state byte : Z) : Z := dfa v (u32 (state * 256 + byte)).

Definition accepts (v : verifier) (state : Z) : bool := (state <=? v_max_accept v) && (0 <? state).
Definition accepts_others (v : verifier) (state : Z) : bool :=
  (v_max_accept v <? state) && (state <? v_start v).
Definition accepts_dcall (v : verifier) (state : Z) : bool := v_dcall v =? state.
Definition accepts_icall (v : verifier) (state : Z) : bool := v_icall v =? state.
Definition accepts_ijmp (v : verifier) (state : Z) : bool := v_ijmp v =? state.
Definition accepts_jmp_rel1 (v : verifier) (state : Z) : bool := v_jmp_rel1 v =? state.
Definition accepts_jmp_rel4 (v : verifier) (state : Z) : bool := v_jmp_rel4 v =? state.
Definition accepts_jcc_rel1 (v : verifier) (state : Z) : bool := v_jcc_rel1 v =? state.
Definition accepts_jcc_rel4 (v : verifier) (state : Z) : bool := v_jcc_rel4 v =? state.
Definition accepts_mcficall (v : verifier) (state : Z) : bool := v_mcficall v =? state.
Definition accepts_mcficheck (v : verifier) (state : Z) : bool := v_mcficheck v =? state.
Definition accepts_mcfiret (v : verifier) (state : Z) : bool := v_mcfiret v =? state.
Definition accepts_terminator (v : verifier) (state : Z) : bool := v_terminator v =? state.

Definition terminator (v : verifier) (state : Z) : bool :=
  accepts_terminator v state || accepts_dcall v state ||
  accepts_icall v state || accepts_ijmp v state ||
  accepts_jmp_rel1 v state || accepts_jmp_rel4 v state ||
  accepts_mcficall v state || accepts_mcficheck v state ||
  accepts_mcfiret v state.

(** ** Marked pointers

    The vertices of the graphs are names, told apart from branches, returns
    and return addresses by the top bits of the pointer. *)
Definition mark_func (ptr : Z) : Z := ptr.
Definition mark_icj (ptr : Z) : Z := Z.lor ptr 0x8000000000000000.
Definition is_marked_icj (ptr : Z) : bool := negb (Z.land ptr 0x8000000000000000 =? 0).
Definition mark_ret (ptr : Z) : Z := Z.lor ptr 0x4000000000000000.
Definition is_marked_ret (ptr : Z) : bool := negb (Z.land ptr 0x4000000000000000 =? 0).
Definition mark_ra_dc (ptr : Z) : Z := Z.lor ptr 0x2000000000000000.
Definition is_marked_ra_dc (ptr : Z) : bool := negb (Z.land ptr 0x2000000000000000 =? 0).
Definition mark_ra_ic (ptr : Z) : Z := Z.lor ptr 0x1000000000000000.
Definition is_marked_ra_ic (ptr : Z) : bool := negb (Z.land ptr 0x1000000000000000 =? 0).
Definition unmark_ptr (ptr : Z) : Z := Z.land ptr 0x7FFFFFFFFFFF.
