(* ===== verification/Table.v ===== *)
(** * Byte-addressed memory

    The table region (4 GB, tary and bary slots) and the writable alias of
    the code are arrays of bytes reached through absolute addresses: total
    functions from addresses to bytes.  Words are little-endian. *)

From S2P Require Import Prelude.

Definition mem : Type := Z -> Z.

Definition write8 (m : mem) (a v : Z) : mem := fun x => if x =? a then u8 v else m x.

Fixpoint read_le (n : nat) (m : mem) (a : Z) : Z :=
  match n with
  | O => 0
  | S n' => m a + 256 * read_le n' m (a + 1)
  end.

Fixpoint write_le (n : nat) (m : mem) (a v : Z) : mem :=
  match n with
  | O => m
  | S n' => write_le n' (write8 m a v) (a + 1) (v / 256)
  end.

Definition read64 (m : mem) (a : Z) : Z := read_le 8 m a.
Definition write64 (m : mem) (a v : Z) : mem := write_le 8 m a v.
Definition read32 (m : mem) (a : Z) : Z := read_le 4 m a.
Definition write32 (m : mem) (a v : Z) : mem := write_le 4 m a v.

#[global] Arguments read64 _ _ : simpl never.
#[global] Arguments write64 _ _ _ : simpl never.
#[global] Arguments read32 _ _ : simpl never.
#[global] Arguments write32 _ _ _ : simpl never.

(** [memset] *)
Definition mem_set (m : mem) (a v n : Z) : mem := fun x => if (a <=? x) && (x <? a + n) then u8 v else m x.

(** [memcpy] between two memories. *)
Definition mem_copy (dst : mem) (a : Z) (src : mem) (b n : Z) : mem :=
  fun x => if (a <=? x) && (x <? a + n) then src (b + (x - a)) else dst x.

Definition mem_ok (m : mem) : Prop := forall a, 0 <= m a < 256.

(** Two accesses of [n] and [k] bytes that do not overlap. *)
Definition apart (a : Z) (n : nat) (b : Z) (k : nat) : Prop :=
  a + Z.of_nat n <= b \/ b + Z.of_nat k <= a.

(** ** Lemmas *)
Lemma write_le_out n m a v x : x < a \/ a + Z.of_nat n <= x -> write_le n m a v x = m x.
Proof.
  revert m a v. induction n as [|n IH]; intros m a v Hx; cbn [write_le]; [done|].
  rewrite IH by lia. unfold write8. by rewrite (proj2 (Z.eqb_neq x a)) by lia.
Qed.

Lemma read_le_ext n m m' a : (forall x, a <= x < a + Z.of_nat n -> m x = m' x) ->
  read_le n m a = read_le n m' a.
Proof.
  revert a. induction n as [|n IH]; intros a H; cbn [read_le]; [done|].
  rewrite (H a) by lia. do 2 f_equal. apply IH. intros x Hx. apply H. lia.
Qed.

Lemma read_write_apart n k m a b v : apart a n b k -> read_le n (write_le k m b v) a = read_le n m a.
Proof. intros H. apply read_le_ext. intros x Hx. apply write_le_out. unfold apart in H. lia. Qed.

Lemma read_write_same n m a v : 0 <= v < 256 ^ Z.of_nat n -> read_le n (write_le n m a v) a = v.
Proof.
  revert m a v. induction n as [|n IH]; intros m a v Hv; cbn [write_le read_le].
  { cbn in Hv. lia. }
  rewrite Nat2Z.inj_succ, Z.pow_succ_r in Hv by lia.
  rewrite IH by (split; [apply Z.div_pos|apply Z.div_lt_upper_bound]; lia).
  rewrite write_le_out by lia. unfold write8. rewrite Z.eqb_refl. unfold u8, wrap.
  change (2 ^ 8) with 256. rewrite (Z.div_mod v 256) at 3 by lia. lia.
Qed.

Lemma read64_same m a v : 0 <= v < 2 ^ 64 -> read64 (write64 m a v) a = v.
Proof. intros. by apply read_write_same. Qed.

Lemma read64_apart m a b v : apart a 8 b 8 -> read64 (write64 m b v) a = read64 m a.
Proof. apply read_write_apart. Qed.

Lemma read_le_range n m a : mem_ok m -> 0 <= read_le n m a < 256 ^ Z.of_nat n.
Proof.
  intros Hm. revert a. induction n as [|n IH]; intros a; cbn [read_le]; [cbn; lia|].
  rewrite Nat2Z.inj_succ, Z.pow_succ_r by lia. specialize (IH (a + 1)). specialize (Hm a). lia.
Qed.

Lemma write_le_ok n m a v : mem_ok m -> mem_ok (write_le n m a v).
Proof.
  revert m a v. induction n as [|n IH]; intros m a v Hm; cbn [write_le]; [done|].
  apply IH. intros x. unfold write8. destruct (x =? a); [apply u8_range|apply Hm].
Qed.

Lemma read64_range m a : mem_ok m -> 0 <= read64 m a < 2 ^ 64.
Proof. apply (read_le_range 8). Qed.
(** ** The lowest bit of a word *)
Lemma lor_one_range x : 0 <= x < 2 ^ 64 -> 0 <= Z.lor x 1 < 2 ^ 64.
Proof.
  intros Hx. assert (H0 : 0 <= Z.lor x 1) by (apply Z.lor_nonneg; lia). split; [done|].
  assert (Z.lor x 1 <> 0) by (rewrite Z.lor_eq_0_iff; lia).
  apply Z.log2_lt_pow2; [lia|]. rewrite Z.log2_lor by lia.
  destruct (decide (x = 0)) as [->|]; [cbn; lia|]. apply Z.max_lub_lt; [|cbn; lia].
  apply Z.log2_lt_pow2; lia.
Qed.

Lemma lor_one_odd x : Z.odd x = true -> Z.lor x 1 = x.
Proof.
  intros Hx. apply Z.bits_inj'. intros n Hn. rewrite Z.lor_spec.
  destruct (decide (n = 0)) as [->|]; [by rewrite Z.bit0_odd, Hx|].
  rewrite (Z.bits_above_log2 1 n) by (cbn; lia). apply orb_false_r.
Qed.

Lemma land_one x : Z.land x 1 = x mod 2.
Proof. change 1 with (Z.ones 1). by rewrite Z.land_ones. Qed.

Lemma land_one_odd x : (Z.land x 1 =? 0) = negb (Z.odd x).
Proof. rewrite land_one, Zmod_odd. by destruct (Z.odd x). Qed.

Lemma lor_one_land x : Z.land x 1 <> 0 -> Z.lor x 1 = x.
Proof.
  intros Hx. apply lor_one_odd. apply Z.eqb_neq in Hx. rewrite land_one_odd in Hx.
  by apply negb_false_iff.
Qed.
#[export] Hint Resolve write_le_ok read64_range : mcfi.

(** ** Blocks of bytes *)
Definition bytes_at (m : mem) (a : Z) (n : nat) : list Z := m <$> seqZ a (Z.of_nat n).
Definition put_bytes (m : mem) (a : Z) (l : list Z) : mem :=
  fun x => if a <=? x then default (m x) (l !! Z.to_nat (x - a)) else m x.

Lemma length_bytes_at m a n : length (bytes_at m a n) = n.
Proof. unfold bytes_at. rewrite length_fmap, length_seqZ. lia. Qed.

Lemma bytes_at_lookup m a n (k : nat) : (k < n)%nat -> bytes_at m a n !! k = Some (m (a + Z.of_nat k)).
Proof.
  intros Hk. unfold bytes_at. rewrite list_lookup_fmap, lookup_seqZ_lt by lia. done.
Qed.

Lemma put_bytes_in m a l (k : nat) b : l !! k = Some b -> put_bytes m a l (a + Z.of_nat k) = b.
Proof.
  intros Hk. unfold put_bytes. destruct (Z.leb_spec a (a + Z.of_nat k)); [|lia].
  replace (Z.to_nat _) with k by lia. by rewrite Hk.
Qed.

Lemma put_bytes_out m a l x : x < a \/ a + Z.of_nat (length l) <= x -> put_bytes m a l x = m x.
Proof.
  intros Hx. unfold put_bytes. destruct (Z.leb_spec a x); [|done].
  rewrite lookup_ge_None_2 by lia. done.
Qed.

Lemma bytes_at_put m a l n : n = length l -> bytes_at (put_bytes m a l) a n = l.
Proof.
  intros ->. apply list_eq. intros k. destruct (decide (k < length l)%nat) as [Hk|Hk].
  - rewrite bytes_at_lookup by done. destruct (lookup_lt_is_Some_2 l k Hk) as [b Hb].
    by rewrite (put_bytes_in _ _ _ _ b), Hb.
  - rewrite !lookup_ge_None_2; rewrite ?length_bytes_at; done || lia.
Qed.

(** Two memories that agree on the block and off it. *)
Lemma put_bytes_char m m' a l :
  (forall x, x < a \/ a + Z.of_nat (length l) <= x -> m' x = m x) -> bytes_at m' a (length l) = l ->
  forall x, m' x = put_bytes m a l x.
Proof.
  intros Hout Hin x. destruct (decide (a <= x < a + Z.of_nat (length l))) as [Hx|Hx].
  - replace x with (a + Z.of_nat (Z.to_nat (x - a))) by lia.
    assert (Hk : (Z.to_nat (x - a) < length l)%nat) by lia.
    rewrite (put_bytes_in m a l _ (m' (a + Z.of_nat (Z.to_nat (x - a))))); [done|].
    rewrite <- Hin at 1. by apply bytes_at_lookup.
  - rewrite put_bytes_out by lia. apply Hout. lia.
Qed.
