(* ===== verification/McfiId.v ===== *)
(** * Equivalence-class identifiers ([cfggen.h], from [_convert_to_mcfi_half_id_format])

    Each component of the call graph and of the return graph gets a number;
    a number is spread over the upper seven bits of four bytes, so that the
    low bit of each byte is free, and a number with a reserved byte is
    skipped.  [gen_mcfi_id] makes the 64-bit identifiers of both graphs and
    [gen_tary]/[gen_bary] store them in the tables. *)

From S2P Require Import Prelude Dict Graph Module Table.

(** [2^depth] turns of a loop body at most, as a binary tree so that only the
    turns taken are evaluated. *)
Fixpoint turns {A B} (depth : nat) (body : A -> A + B) (a : A) : A + B :=
  match depth with
  | O => body a
  | S depth' =>
    match turns depth' body a with
    | inl a' => turns depth' body a'
    | inr b => inr b
    end
  end.

(** ** Numbers to half identifiers *)
Definition RESERVED (x : Z) : bool := (x =? DCV) || (x =? LPV) || (x =? NPV).

(** The four shifted bytes of a number. *)
Definition id_bytes (number : Z) : Z * Z * Z * Z :=
  (Z.shiftl (Z.land number 127) 1,
   Z.shiftl (Z.land (Z.shiftr number 7) 127) 1,
   Z.shiftl (Z.land (Z.shiftr number 14) 127) 1,
   Z.shiftl (Z.land (Z.shiftr number 21) 127) 1).

(** One turn: leave with the counter and the identifier, or go on. *)
Definition convert_body (number : Z) : Z + (Z * Z) :=
  let number := number mod 268435455 in
  let '(a, b, c, d) := id_bytes number in
  let number := u64 (number + 1) in
  if negb (RESERVED a) && negb (RESERVED b) && negb (RESERVED c) && negb (RESERVED d) then
    inr (number, Z.lor (Z.lor (Z.lor (Z.shiftl d 24) (Z.shiftl c 16)) (Z.shiftl b 8)) a)
  else inl number.

(** The counter after the call and the half identifier. *)
Definition convert_to_mcfi_half_id_format (number : Z) : res (Z * Z) :=
  match turns 28 convert_body number with
  | inr r => Ok r
  | inl _ => NoFuel
  end.

(** ** Identifiers of components *)

(** [GEN_IDS]: one identifier per component, given to each of its vertices.
    [COMPAT_MODE] is set when a native module is loaded. *)
Definition gen_ids_step (COMPAT_MODE : bool) (dv mcfi_version : Z) (st : Z * dict Z) (cc : dict unit)
    : res (Z * dict Z) :=
  let '(eqc_number, ids) := st in
  '(eqc_number, id) ← (if COMPAT_MODE then Ok (eqc_number, dv)
                       else convert_to_mcfi_half_id_format eqc_number);
  let id := Z.lor (Z.lor (u64 (Z.shiftl id 32)) mcfi_version) 1 in
  ids ← foldM (fun ids (v : Z * unit) => dict_add ids v.1 id) cc ids;
  Ok (eqc_number, ids).

Definition gen_ids (COMPAT_MODE : bool) (lcc : list (dict unit)) (dv mcfi_version eqc_number : Z)
    (ids : dict Z) : res (Z * dict Z) :=
  foldM (gen_ids_step COMPAT_MODE dv mcfi_version) lcc (eqc_number, ids).

Record mcfi_ids : Type := mkIds {
  new_version : Z;
  id_for_other_icfs : Z;
  callids : dict Z;
  retids : dict Z;
}.

Definition gen_mcfi_id (COMPAT_MODE : bool) (lcg lrt : list (dict unit)) (version : Z)
    : res mcfi_ids :=
  '(version, mcfi_version) ← convert_to_mcfi_half_id_format version;
  '(eqc_number, callids) ← gen_ids COMPAT_MODE lcg 1 mcfi_version 0 [];
  '(eqc_number, retids) ← gen_ids COMPAT_MODE lrt 2 mcfi_version eqc_number [];
  others ← (if COMPAT_MODE then Ok NPV
            else
              '(_, id) ← convert_to_mcfi_half_id_format eqc_number;
              Ok (Z.lor (Z.lor (u64 (Z.shiftl id 32)) mcfi_version) 1));
  Ok (mkIds version others callids retids).

(** ** Filling the tables

    The build with online patching (no [NO_ONLINE_PATCHING]), without the
    counters of [COLLECT_STAT]. *)
Definition NOT_ONE : Z := 2 ^ 64 - 2.

(** The table and the two graphs of targets to be activated later. *)
Definition tary_state : Type := mem * graph * graph.

Definition populate_func_step (m : code_module) (tary : Z) (ids : dict Z) (act : bool)
    (st : tary_state) (sym : symbol) : tary_state :=
  let '(table, fats_in_code, vmtd) := st in
  match dict_find ids (mark_func (s_name sym)) with
  | None => st
  | Some id =>
    let p := tary + s_offset sym in
    if negb act && (Z.land (read64 table p) 1 =? 0) then
      let name := unmark_ptr (s_name sym) in
      let addr := u64 (base_addr m + s_offset sym) in
      if dict_in fats_in_code name then
        (write64 table p (Z.land id NOT_ONE), g_add_directed_edge fats_in_code name addr, vmtd)
      else if dict_in vmtd name then
        (write64 table p (Z.land id NOT_ONE), fats_in_code, g_add_directed_edge vmtd name addr)
      else (write64 table p id, fats_in_code, vmtd)
    else (write64 table p id, fats_in_code, vmtd)
  end.

Definition populate_tary_for_func_addr (m : code_module) (tary : Z) (ids : dict Z)
    (syms : list symbol) (act : bool) (st : tary_state) : tary_state :=
  foldl (populate_func_step m tary ids act) st syms.

Definition populate_ret_step (tary : Z) (ids : dict Z) (mark : Z -> Z) (act : bool)
    (table : mem) (sym : symbol) : mem :=
  match dict_find ids (mark (s_name sym)) with
  | None => table
  | Some id =>
    let p := tary + s_offset sym in
    let mask := if negb act && (Z.land (read64 table p) 1 =? 0) then NOT_ONE else 2 ^ 64 - 1 in
    write64 table p (Z.land id mask)
  end.

Definition populate_tary_for_return_addr (tary : Z) (ids : dict Z) (syms : list symbol)
    (mark : Z -> Z) (act : bool) (table : mem) : mem :=
  foldl (populate_ret_step tary ids mark act) table syms.

Definition gen_tary (m : code_module) (callids retids : dict Z) (st : tary_state) : tary_state :=
  let tary := base_addr m in
  if negb (instrumented m) then
    let '(table, fats_in_code, vmtd) := st in
    (mem_set table tary NPV (sz m), fats_in_code, vmtd)
  else
    let '(table, fats_in_code, vmtd) :=
      populate_tary_for_func_addr m tary callids (funcsyms m) false st in
    let table := populate_tary_for_return_addr tary retids (rad m) mark_ra_dc (activated m) table in
    let table := populate_tary_for_return_addr tary retids (rai m) mark_ra_ic (activated m) table in
    (table, fats_in_code, vmtd).

(** The identifier of a branch: of its calls, else of its return. *)
Definition branch_id (callids retids : dict Z) (id_for_other_icfs name : Z) : Z :=
  match dict_find callids (mark_icj name) with
  | Some i => i
  | None =>
    match dict_find retids (mark_ret name) with
    | Some i => i
    | None => id_for_other_icfs
    end
  end.

Definition gen_bary (m : code_module) (callids retids : dict Z) (id_for_other_icfs : Z) (table : mem)
    : mem :=
  foldl (fun table icfsym =>
    write64 table (s_offset icfsym) (branch_id callids retids id_for_other_icfs (s_name icfsym)))
    table (icfsyms m).

Definition populate_landingpads (m : code_module) (table : mem) : mem :=
  foldl (fun table l => write8 table (base_addr m + s_offset l) LPV) table (lp m).
