(* ===== verification/McfiNumbers.v ===== *)
(** * The enumeration of identifiers

    A number is usable when none of its four 7-bit digits gives a reserved
    byte.  125 of the 128 digits do, so the usable numbers are the images of
    [0 .. 125^4 - 1] under an increasing function, [usable_nth], and
    [convert_to_mcfi_half_id_format] walks through them in order. *)

From S2P Require Import Prelude Dict Graph Module Table McfiId.

(** ** Digits *)
Definition allowed (d : Z) : bool := negb (RESERVED (2 * d)).

(** The [i]-th allowed digit, and the rank of a digit. *)
Definition digit_nth (i : Z) : Z := if i <? 122 then i else i + 1.
Definition digit_rank (d : Z) : Z := if d <? 122 then d else d - 1.

(** Numbers of [n] digits, least significant first. *)
Fixpoint usable (n : nat) (v : Z) : bool :=
  match n with
  | O => true
  | S n' => allowed (v mod 128) && usable n' (v / 128)
  end.

Fixpoint usable_nth (n : nat) (i : Z) : Z :=
  match n with
  | O => 0
  | S n' => digit_nth (i mod 125) + 128 * usable_nth n' (i / 125)
  end.

Fixpoint usable_rank (n : nat) (v : Z) : Z :=
  match n with
  | O => 0
  | S n' => digit_rank (v mod 128) + 125 * usable_rank n' (v / 128)
  end.

(** The bytes of a number, each digit shifted left by one. *)
Fixpoint spread (n : nat) (v : Z) : Z :=
  match n with
  | O => 0
  | S n' => 2 * (v mod 128) + 256 * spread n' (v / 128)
  end.

(** The size of the space of identifiers. *)
Definition SPACE : Z := 125 ^ 4.

Lemma allowed_spec d : allowed d = true <-> d <> 122 /\ d <> 126 /\ d <> 127.
Proof.
  unfold allowed, RESERVED, DCV, LPV, NPV.
  destruct (Z.eqb_spec (2 * d) 0xF4), (Z.eqb_spec (2 * d) 0xFE), (Z.eqb_spec (2 * d) 0xFC); cbn;
    split; intros H; try done; lia.
Qed.

Lemma usable_nth_range n i : 0 <= i < 125 ^ Z.of_nat n -> 0 <= usable_nth n i < 128 ^ Z.of_nat n.
Proof.
  revert i. induction n as [|n IH]; intros i; cbn [usable_nth]; [cbn; lia|].
  rewrite Nat2Z.inj_succ, !Z.pow_succ_r by lia. intros Hi.
  specialize (IH (i / 125) ltac:(div_lia)). unfold digit_nth.
  pose proof (Z.mod_pos_bound i 125 ltac:(lia)). destruct (Z.ltb_spec (i mod 125) 122); lia.
Qed.

Lemma usable_nth_usable n i : 0 <= i < 125 ^ Z.of_nat n -> usable n (usable_nth n i) = true.
Proof.
  revert i. induction n as [|n IH]; intros i; cbn [usable usable_nth]; [done|].
  rewrite Nat2Z.inj_succ, Z.pow_succ_r by lia. intros Hi.
  pose proof (Z.mod_pos_bound i 125 ltac:(lia)) as Hm.
  assert (Hd : 0 <= digit_nth (i mod 125) < 128 /\ allowed (digit_nth (i mod 125)) = true).
  { rewrite allowed_spec. unfold digit_nth. destruct (Z.ltb_spec (i mod 125) 122); lia. }
  rewrite (Z.add_comm (digit_nth _)), (Z.mul_comm 128).
  rewrite Z.add_comm, Z_mod_plus_full, Z.div_add, Z.mod_small, Z.div_small by lia.
  rewrite Z.add_0_l, IH by div_lia. by destruct Hd as [_ ->].
Qed.

Lemma usable_rank_range n v : usable n v = true -> 0 <= usable_rank n v < 125 ^ Z.of_nat n.
Proof.
  revert v. induction n as [|n IH]; intros v; cbn [usable usable_rank]; [cbn; lia|].
  rewrite Nat2Z.inj_succ, Z.pow_succ_r, andb_true_iff, allowed_spec by lia. intros [Ha Hu].
  specialize (IH _ Hu). pose proof (Z.mod_pos_bound v 128 ltac:(lia)).
  unfold digit_rank. destruct (Z.ltb_spec (v mod 128) 122); lia.
Qed.

(** Every usable number is enumerated, at its rank. *)
Lemma usable_nth_rank n v : 0 <= v < 128 ^ Z.of_nat n -> usable n v = true ->
  usable_nth n (usable_rank n v) = v.
Proof.
  revert v. induction n as [|n IH]; intros v; cbn [usable usable_nth usable_rank]; [cbn; lia|].
  rewrite Nat2Z.inj_succ, Z.pow_succ_r, andb_true_iff, allowed_spec by lia. intros Hv [Ha Hu].
  pose proof (Z.mod_pos_bound v 128 ltac:(lia)).
  assert (Hr : 0 <= digit_rank (v mod 128) < 125 /\ digit_nth (digit_rank (v mod 128)) = v mod 128).
  { unfold digit_rank, digit_nth. destruct (Z.ltb_spec (v mod 128) 122);
      case_if; bool_lia. }
  rewrite (Z.mul_comm 125), Z_mod_plus_full, Z.div_add, Z.mod_small, Z.div_small by lia.
  rewrite Z.add_0_l, IH by (done || div_lia). destruct Hr as [_ ->]. div_lia.
Qed.

(** The enumeration is increasing. *)
Lemma usable_nth_mono n i j : 0 <= i -> i < j -> j < 125 ^ Z.of_nat n ->
  usable_nth n i < usable_nth n j.
Proof.
  revert i j. induction n as [|n IH]; intros i j; cbn [usable_nth]; [cbn; lia|].
  rewrite Nat2Z.inj_succ, Z.pow_succ_r by lia. intros Hi Hij Hj.
  pose proof (Z.mod_pos_bound i 125 ltac:(lia)). pose proof (Z.mod_pos_bound j 125 ltac:(lia)).
  destruct (decide (i / 125 = j / 125)) as [E|E].
  - rewrite E. assert (i mod 125 < j mod 125) by div_lia.
    unfold digit_nth. repeat case_if; bool_lia.
  - specialize (IH (i / 125) (j / 125) ltac:(div_lia) ltac:(div_lia) ltac:(div_lia)).
    unfold digit_nth. repeat case_if; bool_lia.
Qed.

(** [spread] forgets nothing. *)
Lemma spread_inj n v w : 0 <= v < 128 ^ Z.of_nat n -> 0 <= w < 128 ^ Z.of_nat n ->
  spread n v = spread n w -> v = w.
Proof.
  revert v w. induction n as [|n IH]; intros v w; cbn [spread]; [cbn; lia|].
  rewrite Nat2Z.inj_succ, Z.pow_succ_r by lia. intros Hv Hw H.
  assert (H1 : v mod 128 = w mod 128) by div_lia.
  assert (H2 : v / 128 = w / 128) by (apply IH; div_lia). div_lia.
Qed.

Lemma spread_range n v : 0 <= v -> 0 <= spread n v < 256 ^ Z.of_nat n.
Proof.
  revert v. induction n as [|n IH]; intros v Hv; cbn [spread]; [cbn; lia|].
  rewrite Nat2Z.inj_succ, Z.pow_succ_r by lia. specialize (IH (v / 128) ltac:(div_lia)).
  pose proof (Z.mod_pos_bound v 128 ltac:(lia)). lia.
Qed.

(** ** The loop body *)
Lemma land_127 x : Z.land x 127 = x mod 128.
Proof. change 127 with (Z.ones 7). by rewrite Z.land_ones. Qed.

Lemma id_bytes_digits v : id_bytes v =
  (2 * (v mod 128), 2 * (v / 128 mod 128), 2 * (v / 128 / 128 mod 128), 2 * (v / 128 / 128 / 128 mod 128)).
Proof.
  unfold id_bytes. rewrite !land_127, !Z.shiftl_mul_pow2, !Z.shiftr_div_pow2 by lia.
  rewrite !Z.div_div by lia. change (2 ^ 1) with 2. change (2 ^ 7) with 128.
  change (2 ^ 14) with (128 * 128). change (2 ^ 21) with (128 * 128 * 128).
  rewrite <- (Z.mul_assoc 128 128 128). f_equal; [f_equal; [f_equal|]|]; lia.
Qed.

Lemma spread_lor v : let '(a, b, c, d) := id_bytes v in
  Z.lor (Z.lor (Z.lor (Z.shiftl d 24) (Z.shiftl c 16)) (Z.shiftl b 8)) a = spread 4 v.
Proof.
  rewrite id_bytes_digits. cbn [spread].
  pose proof (Z.mod_pos_bound v 128 ltac:(lia)). pose proof (Z.mod_pos_bound (v / 128) 128 ltac:(lia)).
  pose proof (Z.mod_pos_bound (v / 128 / 128) 128 ltac:(lia)).
  generalize dependent (v / 128 / 128 / 128 mod 128). generalize dependent (v / 128 / 128 mod 128).
  generalize dependent (v / 128 mod 128). generalize dependent (v mod 128).
  intros a Ha b Hb c Hc d.
  rewrite (Z.shiftl_mul_pow2 (2 * c)), (Z.shiftl_mul_pow2 (2 * b)) by lia.
  rewrite lor_shiftl_add by lia.
  replace (2 * d * 2 ^ 24 + 2 * c * 2 ^ 16) with (Z.shiftl (2 * d * 2 ^ 8 + 2 * c) 16)
    by (rewrite Z.shiftl_mul_pow2 by lia; lia).
  rewrite lor_shiftl_add by lia.
  replace ((2 * d * 2 ^ 8 + 2 * c) * 2 ^ 16 + 2 * b * 2 ^ 8) with
    (Z.shiftl ((2 * d * 2 ^ 8 + 2 * c) * 2 ^ 8 + 2 * b) 8)
    by (rewrite Z.shiftl_mul_pow2 by lia; lia).
  rewrite lor_shiftl_add by lia. lia.
Qed.

Lemma convert_body_spec number : 0 <= number < 2 ^ 64 ->
  convert_body number =
    let v := number mod 268435455 in
    if usable 4 v then inr (v + 1, spread 4 v) else inl (v + 1).
Proof.
  intros Hn. unfold convert_body. cbv zeta.
  pose proof (Z.mod_pos_bound number 268435455 ltac:(lia)).
  pose proof (spread_lor (number mod 268435455)) as Hs. rewrite id_bytes_digits in *.
  rewrite Hs, u64_small by lia. cbn [usable]. unfold allowed.
  rewrite andb_true_r, !andb_assoc. done.
Qed.

(** ** The loop *)
Fixpoint steps {A B} (body : A -> A + B) (k : nat) (a : A) : A + B :=
  match k with
  | O => inl a
  | S k' => match body a with inl a' => steps body k' a' | inr b => inr b end
  end.

Lemma steps_add {A B} (body : A -> A + B) k1 k2 a :
  steps body (k1 + k2) a = match steps body k1 a with inl a' => steps body k2 a' | inr b => inr b end.
Proof. revert a. induction k1 as [|k1 IH]; intros a; cbn; [done|]. by destruct (body a). Qed.

Lemma turns_steps {A B} (body : A -> A + B) depth a : turns depth body a = steps body (2 ^ depth) a.
Proof.
  revert a. induction depth as [|d IH]; intros a; cbn [turns].
  { cbn. by destruct (body a). }
  rewrite Nat.pow_succ_r', <- Nat.double_twice. unfold Nat.double.
  rewrite steps_add, IH. destruct (steps body (2 ^ d) a); [apply IH|done].
Qed.

Definition LIMIT : Z := 268435455.

Lemma usable_below n : 0 <= n <= LIMIT -> usable 4 n = true -> n < LIMIT.
Proof.
  intros Hn Hu. destruct (decide (n = LIMIT)) as [->|]; [|lia]. by vm_compute in Hu.
Qed.

(** From [n] on the loop finds the next usable number, or wraps to 0. *)
Lemma steps_find k n : 0 <= n <= LIMIT -> LIMIT - n < Z.of_nat k ->
  exists v, steps convert_body k n = inr (v + 1, spread 4 v) /\ usable 4 v = true /\ 0 <= v < LIMIT /\
    ((n <= v /\ forall w, n <= w < v -> usable 4 w = false) \/
     (v = 0 /\ forall w, n <= w < LIMIT -> usable 4 w = false)).
Proof.
  unfold LIMIT. revert n. induction k as [|k IH]; intros n Hn Hk; [lia|]. cbn [steps].
  rewrite convert_body_spec by lia. cbv zeta.
  destruct (decide (n = 268435455)) as [->|Hne].
  { change (268435455 mod 268435455) with 0. change (usable 4 0) with true. cbn iota.
    exists 0. split; [done|]. split; [done|]. split; [lia|]. right. split; [done|]. intros; lia. }
  rewrite Z.mod_small by lia. destruct (usable 4 n) eqn:Hu.
  { exists n. split; [done|]. split; [done|]. split; [lia|]. left. split; [lia|]. intros; lia. }
  destruct (IH (n + 1)) as (v & Hr & Hv & Hvr & Hnext); [lia|lia|].
  exists v. split; [done|]. split; [done|]. split; [done|].
  destruct Hnext as [[Hle Hno]|[-> Hno]]; [left|right].
  - split; [lia|]. intros w Hw. destruct (decide (w = n)) as [->|]; [done|]. apply Hno. lia.
  - split; [done|]. intros w Hw. destruct (decide (w = n)) as [->|]; [done|]. apply Hno. lia.
Qed.

Lemma convert_find n : 0 <= n <= LIMIT ->
  exists v, convert_to_mcfi_half_id_format n = Ok (v + 1, spread 4 v) /\ usable 4 v = true /\
    0 <= v < LIMIT /\
    ((n <= v /\ forall w, n <= w < v -> usable 4 w = false) \/
     (v = 0 /\ forall w, n <= w < LIMIT -> usable 4 w = false)).
Proof.
  intros Hn. destruct (steps_find (2 ^ 28) n Hn) as (v & Hr & Hrest).
  { rewrite Nat2Z.inj_pow. change (Z.of_nat 2 ^ Z.of_nat 28) with 268435456. unfold LIMIT in *. lia. }
  exists v. split; [|exact Hrest]. unfold convert_to_mcfi_half_id_format.
  by rewrite turns_steps, Hr.
Qed.

(** The counter only matters modulo the limit. *)
Lemma convert_mod n : 0 <= n < 2 ^ 64 ->
  convert_to_mcfi_half_id_format n = convert_to_mcfi_half_id_format (n mod LIMIT).
Proof.
  intros Hn. unfold convert_to_mcfi_half_id_format. rewrite !turns_steps.
  assert (Hpos : exists k, (2 ^ 28)%nat = S k).
  { exists (pred (2 ^ 28)). symmetry. apply Nat.succ_pred. apply Nat.pow_nonzero. lia. }
  destruct Hpos as (k & ->). cbn [steps]. unfold LIMIT.
  pose proof (Z.mod_pos_bound n 268435455 ltac:(lia)).
  rewrite !convert_body_spec by lia. cbv zeta. by rewrite Z.mod_mod by lia.
Qed.

Definition nth_usable : Z -> Z := usable_nth 4.

Lemma nth_usable_range i : 0 <= i < SPACE -> 0 <= nth_usable i < LIMIT.
Proof.
  intros Hi. pose proof (usable_nth_range 4 i ltac:(unfold SPACE in Hi; lia)) as Hr.
  pose proof (usable_nth_usable 4 i ltac:(unfold SPACE in Hi; lia)) as Hu.
  fold nth_usable in Hr, Hu. split; [apply Hr|]. apply usable_below; [|done]. unfold LIMIT. change (128 ^ Z.of_nat 4) with 268435456 in Hr. lia.
Qed.

(** With the counter past the first [i] usable numbers, the [i]-th comes next. *)
Lemma convert_nth i n : 0 <= i < SPACE -> 0 <= n <= nth_usable i ->
  (forall j, 0 <= j < i -> nth_usable j < n) ->
  convert_to_mcfi_half_id_format n = Ok (nth_usable i + 1, spread 4 (nth_usable i)).
Proof.
  intros Hi Hn Hprev. pose proof (nth_usable_range i Hi) as Hr.
  destruct (convert_find n ltac:(lia)) as (v & Hrun & Hu & Hv & Hnext).
  assert (Hui : usable 4 (nth_usable i) = true) by (apply usable_nth_usable; unfold SPACE in Hi; lia).
  destruct Hnext as [[Hle Hno]|[-> Hno]].
  2: { rewrite (Hno (nth_usable i)) in Hui by lia. done. }
  rewrite Hrun. assert (Hvi : v = nth_usable i); [|by subst].
  destruct (decide (nth_usable i < v)) as [Hlt|Hge].
  { rewrite (Hno (nth_usable i)) in Hui by lia. done. }
  assert (Hvr : 0 <= v < 128 ^ Z.of_nat 4) by (change (128 ^ Z.of_nat 4) with 268435456; unfold LIMIT in *; lia).
  pose proof (usable_rank_range 4 v Hu) as Hk. pose proof (usable_nth_rank 4 v Hvr Hu) as Hkv.
  change (125 ^ Z.of_nat 4) with SPACE in Hk. fold nth_usable in Hkv.
  destruct (decide (usable_rank 4 v < i)) as [Hk1|Hk1].
  { specialize (Hprev (usable_rank 4 v) ltac:(lia)). lia. }
  destruct (decide (usable_rank 4 v = i)) as [<-|Hk2]; [done|].
  pose proof (usable_nth_mono 4 i (usable_rank 4 v) ltac:(lia) ltac:(lia) ltac:(apply Hk)) as Hm.
  fold nth_usable in Hm. lia.
Qed.

Lemma nth_usable_0 : nth_usable 0 = 0.
Proof. reflexivity. Qed.

Lemma nth_usable_mono i j : 0 <= i -> i < j -> j < SPACE -> nth_usable i < nth_usable j.
Proof. intros. apply (usable_nth_mono 4); [done|done|]. change (125 ^ Z.of_nat 4) with SPACE. lia. Qed.

(** The counter after [i] identifiers have been made. *)
Definition counter (i : Z) : Z := if i <=? 0 then 0 else nth_usable (i - 1) + 1.

Lemma convert_counter i : 0 <= i < SPACE ->
  convert_to_mcfi_half_id_format (counter i) = Ok (counter (i + 1), spread 4 (nth_usable i)).
Proof.
  intros Hi. unfold counter at 2. rewrite (proj2 (Z.leb_gt (i + 1) 0)) by lia.
  rewrite Z.add_simpl_r. apply convert_nth; [done| |].
  - unfold counter. destruct (Z.leb_spec i 0); [pose proof (nth_usable_range i Hi); lia|].
    pose proof (nth_usable_range (i - 1) ltac:(lia)).
    pose proof (nth_usable_mono (i - 1) i ltac:(lia) ltac:(lia) ltac:(lia)). lia.
  - intros j Hj. unfold counter. rewrite (proj2 (Z.leb_gt i 0)) by lia.
    destruct (decide (j = i - 1)) as [->|]; [lia|].
    pose proof (nth_usable_mono j (i - 1) ltac:(lia) ltac:(lia) ltac:(lia)). lia.
Qed.

(** After the last usable number the enumeration starts again. *)
Lemma convert_wrap : convert_to_mcfi_half_id_format (counter SPACE) = Ok (counter 1, spread 4 (nth_usable 0)).
Proof.
  assert (HS : 0 < SPACE) by (unfold SPACE; lia).
  assert (Hc : counter SPACE = nth_usable (SPACE - 1) + 1).
  { unfold counter. by rewrite (proj2 (Z.leb_gt SPACE 0)) by done. }
  pose proof (nth_usable_range (SPACE - 1) ltac:(lia)).
  destruct (convert_find (counter SPACE)) as (v & Hrun & Hu & Hv & Hnext); [rewrite Hc; lia|].
  rewrite Hrun. clear Hrun. destruct Hnext as [[Hle _]|[-> _]]; [exfalso|reflexivity].
  assert (Hvr : 0 <= v < 128 ^ Z.of_nat 4) by (change (128 ^ Z.of_nat 4) with 268435456; unfold LIMIT in *; lia).
  pose proof (usable_rank_range 4 v Hu) as Hk. pose proof (usable_nth_rank 4 v Hvr Hu) as Hkv.
  change (125 ^ Z.of_nat 4) with SPACE in Hk. fold nth_usable in Hkv.
  destruct (decide (usable_rank 4 v = SPACE - 1)) as [E|E]; [rewrite E in Hkv; lia|].
  pose proof (nth_usable_mono (usable_rank 4 v) (SPACE - 1) ltac:(lia) ltac:(lia) ltac:(lia)). lia.
Qed.

(** Identifiers of different ranks differ. *)
Lemma spread_nth_inj i j : 0 <= i < SPACE -> 0 <= j < SPACE ->
  spread 4 (nth_usable i) = spread 4 (nth_usable j) -> i = j.
Proof.
  intros Hi Hj H. pose proof (nth_usable_range i Hi). pose proof (nth_usable_range j Hj).
  apply spread_inj in H; [|change (128 ^ Z.of_nat 4) with 268435456; unfold LIMIT in *; lia..].
  destruct (Z.lt_trichotomy i j) as [Hlt|[?|Hlt]]; [|done|].
  - pose proof (nth_usable_mono i j ltac:(lia) Hlt ltac:(lia)). lia.
  - pose proof (nth_usable_mono j i ltac:(lia) Hlt ltac:(lia)). lia.
Qed.
