(* ===== verification/McfiFacts.v ===== *)
(** * Identifiers tell components apart

    What [gen_mcfi_id] promises: two vertices of a graph have the same
    identifier exactly when they are in the same component, identifiers of
    the call graph and of the return graph never meet, and no identifier
    contains a reserved byte. *)

From Stdlib Require List.
From S2P Require Import Prelude Dict Graph GraphFacts Module Table McfiId McfiNumbers.

#[local] Opaque convert_to_mcfi_half_id_format.

(** The identifier of the component of rank [i], under version [mv]. *)
Definition full_id (mv i : Z) : Z := spread 4 (nth_usable i) * 2 ^ 32 + mv + 1.

(** Component [n] of [lcc] holds vertex [x]. *)
Definition member (lcc : list (dict unit)) (n : nat) (x : Z) : Prop :=
  exists cc, lcc !! n = Some cc /\ x ∈ keys cc.

Definition same_component (lcc : list (dict unit)) (x y : Z) : Prop :=
  exists cc, cc ∈ lcc /\ x ∈ keys cc /\ y ∈ keys cc.

(** Byte [k] of a word. *)
Definition byte_of (w : Z) (k : Z) : Z := Z.shiftr w (8 * k) mod 256.

(** What the tables rely on: identifiers are odd words none of whose bytes
    is one of the reserved values. *)
Definition id_ok (id : Z) : Prop :=
  0 <= id < 2 ^ 64 /\ Z.odd id = true /\ forall k, 0 <= k < 8 -> RESERVED (byte_of id k) = false.

(** What the identifiers promise to the tables. *)
Record ids_spec (lcg lrt : list (dict unit)) (ids : mcfi_ids) : Prop := {
  calls_dom : forall x, dict_in (callids ids) x = true <-> x ∈ concat (keys <$> lcg);
  rets_dom : forall x, dict_in (retids ids) x = true <-> x ∈ concat (keys <$> lrt);
  calls_same : forall x y i j, dict_find (callids ids) x = Some i -> dict_find (callids ids) y = Some j ->
    (i = j <-> same_component lcg x y);
  rets_same : forall x y i j, dict_find (retids ids) x = Some i -> dict_find (retids ids) y = Some j ->
    (i = j <-> same_component lrt x y);
  calls_rets : forall x y i j, dict_find (callids ids) x = Some i -> dict_find (retids ids) y = Some j -> i <> j;
  all_ok : forall x i, dict_find (callids ids) x = Some i \/ dict_find (retids ids) x = Some i ->
    id_ok i /\ i <> id_for_other_icfs ids;
  others_ok : id_ok (id_for_other_icfs ids);
}.

(** The space of versions, [VERSION_SPACE_MAX] of [runtime.c]. *)
Definition VERSION_SPACE_MAX : Z := 252047376.

(** The version half that the [n]-th call of [gen_mcfi_id] uses. *)
Definition version_half (n : Z) : Z := spread 4 (nth_usable (n mod SPACE)).

(** The counter [version] before the [n]-th call, from [version = 1]. *)
Inductive version_reached : Z -> Z -> Prop :=
  | version_start : version_reached 1 1
  | version_next n version version' half : version_reached n version ->
      convert_to_mcfi_half_id_format version = Ok (version', half) ->
      version_reached (n + 1) version'.

(** ** Shapes of identifiers *)
Lemma lor_1_even x : Z.even x = true -> Z.lor x 1 = x + 1.
Proof.
  intros He. apply Z.even_spec in He as (y & ->).
  replace (2 * y) with (Z.shiftl y 1) by (rewrite Z.shiftl_mul_pow2 by lia; lia).
  rewrite lor_shiftl_add by lia. rewrite Z.shiftl_mul_pow2 by lia. lia.
Qed.

Lemma spread_even n v : Z.even (spread n v) = true.
Proof.
  revert v. induction n as [|n IH]; intros v; cbn [spread]; [done|].
  rewrite Z.even_add, !Z.even_mul. by rewrite !orb_true_l.
Qed.

Lemma spread_bound v : 0 <= v -> 0 <= spread 4 v < 2 ^ 32.
Proof. apply (spread_range 4). Qed.

Lemma full_id_lor i v : 0 <= i < SPACE -> 0 <= v ->
  Z.lor (Z.lor (u64 (Z.shiftl (spread 4 (nth_usable i)) 32)) (spread 4 v)) 1 = full_id (spread 4 v) i.
Proof.
  intros Hi Hv. pose proof (nth_usable_range i Hi). pose proof (spread_bound v Hv).
  pose proof (spread_bound (nth_usable i) ltac:(lia)).
  rewrite u64_small by (rewrite Z.shiftl_mul_pow2 by lia; lia).
  rewrite lor_shiftl_add by lia. rewrite lor_1_even; [done|].
  by rewrite Z.even_add, Z.even_mul, !spread_even.
Qed.

Lemma full_id_inj mv i j : 0 <= i < SPACE -> 0 <= j < SPACE -> full_id mv i = full_id mv j -> i = j.
Proof. intros Hi Hj H. apply spread_nth_inj; [done|done|]. unfold full_id in H. lia. Qed.

Lemma spread_byte n v k : 0 <= v -> (k < n)%nat ->
  Z.shiftr (spread n v) (8 * Z.of_nat k) mod 256 = 2 * (v / 128 ^ Z.of_nat k mod 128).
Proof.
  revert v k. induction n as [|n IH]; intros v k Hv Hk; [lia|]. cbn [spread].
  pose proof (Z.mod_pos_bound v 128 ltac:(lia)). destruct k as [|k].
  - rewrite Z.mul_0_r, Z.shiftr_0_r, Z.pow_0_r, Z.div_1_r. div_lia.
  - rewrite Nat2Z.inj_succ. replace (8 * Z.succ (Z.of_nat k)) with (8 + 8 * Z.of_nat k) by lia.
    rewrite <- Z.shiftr_shiftr by lia. rewrite (Z.shiftr_div_pow2 _ 8) by lia. change (2 ^ 8) with 256.
    rewrite (Z.mul_comm 256), Z.div_add, Z.div_small, Z.add_0_l, IH by (lia || div_lia).
    rewrite Z.pow_succ_r, Z.div_div by lia. done.
Qed.

Lemma usable_digit n v k : (k < n)%nat -> usable n v = true -> 0 <= v ->
  allowed (v / 128 ^ Z.of_nat k mod 128) = true.
Proof.
  revert v k. induction n as [|n IH]; intros v k Hk Hu Hv; [lia|]. cbn [usable] in Hu.
  apply andb_true_iff in Hu as [Ha Hu]. destruct k as [|k].
  - by rewrite Z.pow_0_r, Z.div_1_r.
  - rewrite Nat2Z.inj_succ, Z.pow_succ_r, <- Z.div_div by lia. apply IH; [lia|done|div_lia].
Qed.

(** A byte of a usable number's spread is not reserved, nor is it after the
    valid bit has been set in the lowest one. *)
Lemma spread_not_reserved v k : 0 <= v -> usable 4 v = true -> 0 <= k < 4 ->
  RESERVED (byte_of (spread 4 v) k) = false.
Proof.
  intros Hv Hu Hk. unfold byte_of. replace k with (Z.of_nat (Z.to_nat k)) by lia.
  rewrite spread_byte by lia. apply negb_true_iff. apply (usable_digit 4); [lia|done|done].
Qed.

Lemma byte_of_mod w k : 0 <= k -> byte_of w k = byte_of (w mod 2 ^ (8 * k + 8)) k.
Proof.
  intros Hk. unfold byte_of. apply Z.bits_inj'. intros i Hi. change 256 with (2 ^ 8).
  destruct (Z.ltb_spec i 8).
  - rewrite !Z.mod_pow2_bits_low, !Z.shiftr_spec, Z.mod_pow2_bits_low by lia. done.
  - by rewrite !Z.mod_pow2_bits_high by lia.
Qed.

Lemma full_id_ok v i : 0 <= v -> usable 4 v = true -> 0 <= i < SPACE -> id_ok (full_id (spread 4 v) i).
Proof.
  intros Hv Hu Hi. pose proof (nth_usable_range i Hi) as Hr. pose proof (spread_bound v Hv).
  assert (Hui : usable 4 (nth_usable i) = true) by (apply usable_nth_usable; unfold SPACE in Hi; lia).
  pose proof (spread_bound (nth_usable i) ltac:(lia)). pose proof (spread_even 4 v) as He.
  apply Z.even_spec in He as (y & Hy). unfold id_ok, full_id.
  split; [lia|]. split.
  { rewrite <- Z.negb_even, !Z.even_add, Z.even_mul, !spread_even. done. }
  intros k Hk. destruct (decide (k < 4)) as [Hlow|Hhigh].
  - assert (Hb : byte_of (spread 4 (nth_usable i) * 2 ^ 32 + spread 4 v + 1) k = byte_of (spread 4 v + 1) k).
    { rewrite byte_of_mod by lia. symmetry. rewrite byte_of_mod by lia. f_equal.
      replace (2 ^ 32) with (2 ^ (24 - 8 * k) * 2 ^ (8 * k + 8)).
      - replace (spread 4 (nth_usable i) * (2 ^ (24 - 8 * k) * 2 ^ (8 * k + 8)) + spread 4 v + 1) with
          (spread 4 v + 1 + spread 4 (nth_usable i) * 2 ^ (24 - 8 * k) * 2 ^ (8 * k + 8)) by lia.
        by rewrite Z_mod_plus_full.
      - rewrite <- Z.pow_add_r by lia. f_equal. lia. }
    rewrite Hb. destruct (decide (k = 0)) as [->|Hk0].
    + (* the lowest byte is odd *)
      unfold byte_of. rewrite Z.mul_0_r, Z.shiftr_0_r, Hy. unfold RESERVED, DCV, LPV, NPV.
      destruct (Z.eqb_spec ((2 * y + 1) mod 256) 0xF4), (Z.eqb_spec ((2 * y + 1) mod 256) 0xFE),
        (Z.eqb_spec ((2 * y + 1) mod 256) 0xFC); cbn; div_lia || done.
    + rewrite <- (spread_not_reserved v k) by (done || lia). f_equal. unfold byte_of.
      rewrite !Z.shiftr_div_pow2 by lia. f_equal.
      replace (2 ^ (8 * k)) with (2 * 2 ^ (8 * k - 1)) by (rewrite <- Z.pow_succ_r by lia; f_equal; lia).
      rewrite <- !Z.div_div by lia. f_equal. rewrite Hy. div_lia.
  - assert (Hb : byte_of (spread 4 (nth_usable i) * 2 ^ 32 + spread 4 v + 1) k = byte_of (spread 4 (nth_usable i)) (k - 4)).
    { unfold byte_of. replace (8 * k) with (32 + 8 * (k - 4)) by lia. rewrite <- Z.shiftr_shiftr by lia.
      f_equal. f_equal. rewrite Z.shiftr_div_pow2 by lia.
      replace (spread 4 (nth_usable i) * 2 ^ 32 + spread 4 v + 1) with
        (spread 4 v + 1 + spread 4 (nth_usable i) * 2 ^ 32) by lia.
      rewrite Z.div_add, Z.div_small by lia. lia. }
    rewrite Hb. apply spread_not_reserved; [lia|done|lia].
Qed.

(** ** Assigning identifiers *)
Lemma dict_find_app {V} (d1 d2 : dict V) k :
  dict_find (d1 ++ d2) k = match dict_find d1 k with Some v => Some v | None => dict_find d2 k end.
Proof. induction d1 as [|[k' v] d1 IH]; cbn; [done|]. by destruct (k' =? k). Qed.

Lemma add_all id (cc : dict unit) (ids : dict Z) : NoDup (keys ids ++ keys cc) ->
  foldM (fun ids (v : Z * unit) => dict_add ids v.1 id) cc ids =
    Ok (ids ++ ((fun v : Z * unit => (v.1, id)) <$> cc)).
Proof.
  revert ids. induction cc as [|[x u] cc IH]; intros ids Hnd; cbn [foldM fst].
  { by rewrite app_nil_r. }
  assert (Hx : x ∉ keys ids).
  { apply NoDup_app in Hnd as (_ & H & _). intros Hin. apply (H x Hin). left. }
  rewrite (proj2 (dict_add_Ok ids x id (dict_put ids x id))) by done. cbn [mbind res_bind].
  rewrite IH.
  - unfold dict_put. by rewrite <- app_assoc.
  - rewrite keys_put, <- app_assoc. exact Hnd.
Qed.

Lemma find_all (id : Z) (cc : dict unit) k :
  dict_find ((fun v : Z * unit => (v.1, id)) <$> cc) k = if decide (k ∈ keys cc) then Some id else None.
Proof.
  unfold keys. induction cc as [|[x u] cc IH]; cbn.
  - rewrite decide_False; [done|apply not_elem_of_nil].
  - destruct (Z.eqb_spec x k) as [->|Hne].
    + rewrite decide_True; [done|left].
    + rewrite IH. destruct (decide (k ∈ cc.*1)) as [H|H].
      * rewrite decide_True; [done|by right].
      * rewrite decide_False; [done|]. apply not_elem_of_cons. auto.
Qed.

Lemma keys_all (id : Z) (cc : dict unit) : keys ((fun v : Z * unit => (v.1, id)) <$> cc) = keys cc.
Proof. unfold keys. by rewrite <- list_fmap_compose. Qed.

Lemma gen_ids_step_false dv mv n ids cc :
  gen_ids_step false dv mv (n, ids) cc =
    ('(n, id) ← convert_to_mcfi_half_id_format n;
     ids ← foldM (fun ids (v : Z * unit) => dict_add ids v.1 (Z.lor (Z.lor (u64 (Z.shiftl id 32)) mv) 1)) cc ids;
     Ok (n, ids)).
Proof. done. Qed.

Lemma gen_ids_spec v dv lcc i (ids : dict Z) : 0 <= v -> 0 <= i -> i + Z.of_nat (length lcc) <= SPACE ->
  NoDup (keys ids ++ concat (keys <$> lcc)) ->
  exists ids', gen_ids false lcc dv (spread 4 v) (counter i) ids =
      Ok (counter (i + Z.of_nat (length lcc)), ids') /\
    keys ids' = keys ids ++ concat (keys <$> lcc) /\
    (forall k, k ∈ keys ids -> dict_find ids' k = dict_find ids k) /\
    (forall n k, member lcc n k -> dict_find ids' k = Some (full_id (spread 4 v) (i + Z.of_nat n))).
Proof.
  intros Hv. revert i ids. unfold gen_ids.
  induction lcc as [|cc lcc IH]; intros i ids Hi Hlen Hnd; cbn [foldM].
  { exists ids. cbn. rewrite Z.add_0_r, app_nil_r. split_and!; try done.
    intros n k (c & Hc & _). by rewrite lookup_nil in Hc. }
  cbn [length] in Hlen. rewrite gen_ids_step_false.
  rewrite convert_counter by lia. cbn [mbind res_bind].
  rewrite full_id_lor by lia. cbn in Hnd. rewrite app_assoc in Hnd.
  rewrite add_all by (by apply NoDup_app in Hnd as (? & _)). cbn [mbind res_bind].
  set (ids1 := ids ++ _).
  assert (Hk1 : keys ids1 = keys ids ++ keys cc).
  { unfold ids1, keys at 1. rewrite fmap_app. f_equal. apply keys_all. }
  destruct (IH (i + 1) ids1) as (ids' & Hrun & Hkeys & Hold & Hnew); [lia|lia|by rewrite Hk1|].
  exists ids'. cbn [length].
  replace (i + Z.of_nat (S (length lcc))) with (i + 1 + Z.of_nat (length lcc)) by lia.
  split; [exact Hrun|].
  split; [rewrite Hkeys, Hk1; cbn; by rewrite app_assoc|].
  assert (Hfind : forall k, k ∈ keys ids ++ keys cc -> dict_find ids' k = dict_find ids1 k).
  { intros k Hk. apply Hold. by rewrite Hk1. }
  split.
  - intros k Hk. rewrite Hfind by (apply elem_of_app; auto). unfold ids1. rewrite dict_find_app.
    destruct (dict_find ids k) eqn:E; [done|]. by apply dict_find_None in E.
  - intros n k (c & Hc & Hk). destruct n as [|n]; cbn in Hc.
    + injection Hc as <-. rewrite Hfind by (apply elem_of_app; auto). unfold ids1.
      rewrite dict_find_app, find_all, decide_True, Z.add_0_r by done.
      destruct (dict_find ids k) eqn:E; [|done]. exfalso.
      apply NoDup_app in Hnd as (Hnd & _). apply NoDup_app in Hnd as (_ & H & _).
      apply (H k); [|done]. apply dict_in_keys. unfold dict_in. by rewrite E.
    + rewrite (Hnew n k); [|by exists c]. f_equal. f_equal. lia.
Qed.

Lemma counter_0 : counter 0 = 0.
Proof. done. Qed.

Lemma member_of lcc x : x ∈ concat (keys <$> lcc) <-> exists n, member lcc n x.
Proof.
  rewrite elem_of_components. split.
  - intros (cc & Hcc & Hx). apply list_elem_of_lookup in Hcc as (n & Hn). by exists n, cc.
  - intros (n & cc & Hn & Hx). exists cc. split; [by eapply list_elem_of_lookup_2|done].
Qed.

Lemma member_same lcc n m x y : NoDup (concat (keys <$> lcc)) -> member lcc n x -> member lcc m y ->
  same_component lcc x y <-> n = m.
Proof.
  intros Hnd (c & Hc & Hx) (d & Hd & Hy). split.
  - intros (e & He & Hex & Hey). apply list_elem_of_lookup in He as (k & Hk).
    assert (Huniq : forall a b ca cb z, lcc !! a = Some ca -> lcc !! b = Some cb -> z ∈ keys ca ->
      z ∈ keys cb -> a = b).
    { clear -Hnd. intros a b ca cb z. revert a b. induction lcc as [|c0 l IH]; intros a b Ha Hb Hza Hzb; [done|].
      cbn in Hnd. apply NoDup_app in Hnd as (_ & Hdis & Hnd).
      destruct a as [|a], b as [|b]; cbn in Ha, Hb; [done| | |f_equal; by eapply (IH Hnd)].
      - injection Ha as <-. exfalso. apply (Hdis z Hza), elem_of_components.
        exists cb. split; [by eapply list_elem_of_lookup_2|done].
      - injection Hb as <-. exfalso. apply (Hdis z Hzb), elem_of_components.
        exists ca. split; [by eapply list_elem_of_lookup_2|done]. }
    transitivity k; [by eapply Huniq|symmetry; by eapply Huniq].
  - intros <-. assert (c = d) as -> by congruence. exists d.
    split; [by eapply list_elem_of_lookup_2|done].
Qed.

Lemma member_bound lcc n x : member lcc n x -> (n < length lcc)%nat.
Proof. intros (c & Hc & _). by apply lookup_lt_Some in Hc. Qed.

(** The run of [gen_mcfi_id]. *)
Lemma gen_mcfi_id_run lcg lrt version :
  NoDup (concat (keys <$> lcg)) -> NoDup (concat (keys <$> lrt)) ->
  Z.of_nat (length lcg) + Z.of_nat (length lrt) < SPACE -> 0 <= version < 2 ^ 64 ->
  exists v cids rids, 0 <= v /\ usable 4 v = true /\
    convert_to_mcfi_half_id_format version = Ok (v + 1, spread 4 v) /\
    gen_mcfi_id false lcg lrt version = Ok (mkIds (v + 1)
      (full_id (spread 4 v) (Z.of_nat (length lcg) + Z.of_nat (length lrt))) cids rids) /\
    keys cids = concat (keys <$> lcg) /\ keys rids = concat (keys <$> lrt) /\
    (forall n k, member lcg n k -> dict_find cids k = Some (full_id (spread 4 v) (Z.of_nat n))) /\
    (forall n k, member lrt n k ->
       dict_find rids k = Some (full_id (spread 4 v) (Z.of_nat (length lcg) + Z.of_nat n))).
Proof.
  intros Hc Hr Hlen Hv. unfold gen_mcfi_id. rewrite convert_mod by done.
  destruct (convert_find (version mod LIMIT)) as (v & Hconv & Hu & Hvr & _).
  { pose proof (Z.mod_pos_bound version LIMIT ltac:(unfold LIMIT; lia)). lia. }
  destruct (gen_ids_spec v 1 lcg 0 []) as (cids & Hrun1 & Hk1 & _ & Hn1); [lia|lia|lia|done|].
  rewrite counter_0, Z.add_0_l in Hrun1.
  destruct (gen_ids_spec v 2 lrt (Z.of_nat (length lcg)) []) as (rids & Hrun2 & Hk2 & _ & Hn2);
    [lia|lia|lia|done|].
  exists v, cids, rids. split; [lia|]. split; [done|]. split; [done|]. split; [|by auto].
  rewrite Hconv, bind_Ok, Hrun1, bind_Ok, Hrun2, bind_Ok.
  rewrite convert_counter by lia. rewrite bind_Ok, full_id_lor, bind_Ok by lia. done.
Qed.

Lemma gen_mcfi_id_spec lcg lrt version :
  NoDup (concat (keys <$> lcg)) -> NoDup (concat (keys <$> lrt)) ->
  Z.of_nat (length lcg) + Z.of_nat (length lrt) < SPACE -> 0 <= version < 2 ^ 64 ->
  exists ids, gen_mcfi_id false lcg lrt version = Ok ids /\ ids_spec lcg lrt ids.
Proof.
  intros Hc Hr Hlen Hv.
  destruct (gen_mcfi_id_run lcg lrt version Hc Hr Hlen Hv)
    as (v & cids & rids & Hv0 & Hu & _ & Hrun & Hk1 & Hk2 & Hn1 & Hn2).
  eexists. split; [exact Hrun|]. clear Hrun.
  assert (Hmc : forall x i, dict_find cids x = Some i -> exists n, member lcg n x /\
    i = full_id (spread 4 v) (Z.of_nat n)).
  { intros x i Hx. assert (Hin : x ∈ keys cids) by (apply dict_in_keys; unfold dict_in; by rewrite Hx).
    rewrite Hk1 in Hin. apply member_of in Hin as (n & Hn). exists n. split; [done|].
    rewrite (Hn1 n x Hn) in Hx. by injection Hx as <-. }
  assert (Hmr : forall x i, dict_find rids x = Some i -> exists n, member lrt n x /\
    i = full_id (spread 4 v) (Z.of_nat (length lcg) + Z.of_nat n)).
  { intros x i Hx. assert (Hin : x ∈ keys rids) by (apply dict_in_keys; unfold dict_in; by rewrite Hx).
    rewrite Hk2 in Hin. apply member_of in Hin as (n & Hn). exists n. split; [done|].
    rewrite (Hn2 n x Hn) in Hx. by injection Hx as <-. }
  constructor; cbn [callids retids id_for_other_icfs];
    [intros x; by rewrite dict_in_keys, Hk1|intros x; by rewrite dict_in_keys, Hk2|..].
  - intros x y i j (n & Hn & ->)%Hmc (m & Hm & ->)%Hmc.
    rewrite (member_same lcg n m x y Hc Hn Hm).
    pose proof (member_bound _ _ _ Hn). pose proof (member_bound _ _ _ Hm). split; [|by intros ->].
    intros Heq%full_id_inj; lia.
  - intros x y i j (n & Hn & ->)%Hmr (m & Hm & ->)%Hmr.
    rewrite (member_same lrt n m x y Hr Hn Hm).
    pose proof (member_bound _ _ _ Hn). pose proof (member_bound _ _ _ Hm). split; [|by intros ->].
    intros Heq%full_id_inj; lia.
  - intros x y i j (n & Hn & ->)%Hmc (m & Hm & ->)%Hmr Heq.
    pose proof (member_bound _ _ _ Hn). pose proof (member_bound _ _ _ Hm).
    apply full_id_inj in Heq; lia.
  - intros x i [(n & Hn & ->)%Hmc|(n & Hn & ->)%Hmr]; pose proof (member_bound _ _ _ Hn);
      (split; [apply full_id_ok; (done || lia)|]); intros Heq%full_id_inj; lia.
  - apply full_id_ok; (done || lia).
Qed.

(** ** The space of versions *)
(** C6.  As long as there are fewer components than identifiers, [gen_mcfi_id]
    succeeds; two vertices of a graph get the same identifier exactly when
    they are in the same component; no identifier of the call graph is one
    of the return graph, and none is the identifier of the branches without
    targets; and every identifier is an odd word free of reserved bytes. *)
Theorem gen_mcfi_id_correct lcg lrt version :
  NoDup (concat (keys <$> lcg)) -> NoDup (concat (keys <$> lrt)) ->
  Z.of_nat (length lcg) + Z.of_nat (length lrt) < SPACE -> 0 <= version < 2 ^ 64 ->
  exists ids, gen_mcfi_id false lcg lrt version = Ok ids /\
    (forall x, dict_in (callids ids) x = true <-> x ∈ concat (keys <$> lcg)) /\
    (forall x, dict_in (retids ids) x = true <-> x ∈ concat (keys <$> lrt)) /\
    (forall x y i j, dict_find (callids ids) x = Some i -> dict_find (callids ids) y = Some j ->
       (i = j <-> same_component lcg x y)) /\
    (forall x y i j, dict_find (retids ids) x = Some i -> dict_find (retids ids) y = Some j ->
       (i = j <-> same_component lrt x y)) /\
    (forall x y i j, dict_find (callids ids) x = Some i -> dict_find (retids ids) y = Some j -> i <> j) /\
    (forall x i, dict_find (callids ids) x = Some i \/ dict_find (retids ids) x = Some i ->
       id_ok i /\ i <> id_for_other_icfs ids).
Proof.
  intros Hc Hr Hlen Hv.
  destruct (gen_mcfi_id_spec lcg lrt version Hc Hr Hlen Hv) as (ids & Hrun & []).
  exists ids. by repeat (split; [done|]).
Qed.

Lemma SPACE_pos : 0 < SPACE.
Proof. unfold SPACE. lia. Qed.

(** The counter before the [n]-th call. *)
Definition version_at (n : Z) : Z := counter ((n - 1) mod SPACE + 1).

Lemma version_call n : convert_to_mcfi_half_id_format (version_at n) = Ok (version_at (n + 1), version_half n).
Proof.
  unfold version_at, version_half. pose proof SPACE_pos.
  pose proof (Z.mod_pos_bound (n - 1) SPACE ltac:(done)) as Hm.
  assert (Hn : n mod SPACE = ((n - 1) mod SPACE + 1) mod SPACE).
  { rewrite Zplus_mod_idemp_l. f_equal. lia. }
  replace (n + 1 - 1) with n by lia. rewrite Hn.
  destruct (decide ((n - 1) mod SPACE + 1 = SPACE)) as [E|E].
  - rewrite E, Z.mod_same by lia. apply convert_wrap.
  - rewrite (Z.mod_small ((n - 1) mod SPACE + 1)) by lia. by rewrite convert_counter by lia.
Qed.

Lemma version_reached_at n : version_reached (Z.of_nat n + 1) (version_at (Z.of_nat n + 1)).
Proof.
  induction n as [|n IH].
  - assert (E : version_at (Z.of_nat 0 + 1) = 1).
    { unfold version_at. cbn [Z.of_nat Z.add]. rewrite Z.sub_diag, Z.mod_0_l by (pose proof SPACE_pos; lia). done. }
    rewrite E. constructor.
  - rewrite Nat2Z.inj_succ. replace (Z.succ (Z.of_nat n) + 1) with (Z.of_nat n + 1 + 1) by lia.
    eapply version_next; [exact IH|apply version_call].
Qed.

Lemma version_reached_inv n v : version_reached n v -> v = version_at n.
Proof.
  induction 1 as [|n v v' half _ IH Hc].
  - unfold version_at. rewrite Z.sub_diag, Z.mod_0_l by (pose proof SPACE_pos; lia). done.
  - rewrite IH, version_call in Hc. by injection Hc.
Qed.

(** The version of the [n]-th generated graph is used again by graph
    [n + 125^4] and by no graph in between, and 125^4 is less than
    [VERSION_SPACE_MAX]: the count that is to force a wait before a version
    comes back is larger than the number of versions. *)
Theorem version_space_overestimated n v : version_reached n v ->
  exists half, (exists v', convert_to_mcfi_half_id_format v = Ok (v', half)) /\
    (exists v1 v1', version_reached (n + SPACE) v1 /\ convert_to_mcfi_half_id_format v1 = Ok (v1', half)) /\
    (forall k v2 v2', 0 < k < SPACE -> version_reached (n + k) v2 ->
       convert_to_mcfi_half_id_format v2 <> Ok (v2', half)) /\
    SPACE < VERSION_SPACE_MAX.
Proof.
  intros Hv. pose proof SPACE_pos as HS.
  assert (Hn : 1 <= n) by (clear -Hv; induction Hv; lia).
  rewrite (version_reached_inv n v Hv). exists (version_half n).
  split; [eexists; apply version_call|]. split; [|split].
  - pose proof (version_reached_at (Z.to_nat (n + SPACE - 1))) as Hr.
    replace (Z.of_nat (Z.to_nat (n + SPACE - 1)) + 1) with (n + SPACE) in Hr by lia.
    eexists _, _. split; [exact Hr|]. rewrite version_call.
    assert (E : version_half (n + SPACE) = version_half n); [|by rewrite E].
    unfold version_half. rewrite <- (Z.mul_1_l SPACE) at 1. by rewrite Z_mod_plus_full.
  - intros k v2 v2' Hk Hr. rewrite (version_reached_inv _ _ Hr), version_call.
    intros Heq. injection Heq as _ Heq. unfold version_half in Heq.
    pose proof (Z.mod_pos_bound n SPACE HS). pose proof (Z.mod_pos_bound (n + k) SPACE HS).
    apply spread_nth_inj in Heq; [|done|done].
    assert (Hk0 : k mod SPACE = 0).
    { replace k with (n + k - n) by lia. rewrite Zminus_mod, Heq, Z.sub_diag. by rewrite Z.mod_0_l by lia. }
    rewrite Z.mod_small in Hk0 by lia. lia.
  - reflexivity.
Qed.

Lemma gen_mcfi_id_witness : exists ids,
  gen_mcfi_id false [[(10, tt); (20, tt)]; [(30, tt)]] [[(20, tt)]; [(40, tt)]] 1 = Ok ids /\
  (forall x y i j, dict_find (callids ids) x = Some i -> dict_find (callids ids) y = Some j ->
     (i = j <-> same_component [[(10, tt); (20, tt)]; [(30, tt)]] x y)).
Proof.
  destruct (gen_mcfi_id_correct [[(10, tt); (20, tt)]; [(30, tt)]] [[(20, tt)]; [(40, tt)]] 1)
    as (ids & Hrun & _ & _ & Hsame & _).
  - by apply (bool_decide_unpack _).
  - by apply (bool_decide_unpack _).
  - reflexivity.
  - lia.
  - exists ids. split; [exact Hrun|exact Hsame].
Defined.

Lemma version_space_witness : exists half,
  (exists v', convert_to_mcfi_half_id_format 1 = Ok (v', half)) /\
  (exists v1 v1', version_reached (1 + SPACE) v1 /\ convert_to_mcfi_half_id_format v1 = Ok (v1', half)).
Proof.
  destruct (version_space_overestimated 1 1 version_start) as (half & H1 & H2 & _).
  exists half. split; [exact H1|exact H2].
Defined.
