(* ===== verification/Cfg.v ===== *)
(** * The call graph and the return graph ([cfggen.h])

    Merging the metadata of the modules, the class-hierarchy relations, the
    call graph and the return graph.  A function structure is known by its
    address, so [functions] lists addresses with structures; [Variable
    new_function] is the address [malloc] returns for the copy of the [n]-th
    function.  Memory that is only released is not modelled. *)

From S2P Require Import Prelude Dict Graph Module.

(** ** Merging *)
Definition merge_icfs (icfs mic : dict icf) : dict icf := icfs ++ mic.

Definition merge_dicts {V} (d mc : dict V) : dict V :=
  foldl (fun d (c : Z * V) => if dict_in d c.1 then d else dict_put d c.1 c.2) d mc.

Definition merge_graph_vertex (graphs : graph) (v : Z * dict unit) : graph :=
  let graphs := g_add_vertex graphs v.1 in
  foldl (fun graphs (vv : Z * unit) =>
    match dict_find graphs v.1 with
    | Some nv => dict_set graphs v.1 (g_add_vertex nv vv.1)
    | None => graphs
    end) graphs v.2.

Definition merge_graphs (graphs mg : graph) : graph := foldl merge_graph_vertex graphs mg.

(** The merged metadata. *)
Record metainfo : Type := mkMeta {
  all_icfs : dict icf;
  all_functions : list (Z * function);
  all_classes : dict (dict Z);
  all_cha : graph;
  all_fats : dict unit;
  all_fats_in_data : dict unit;
  all_fats_in_code : dict (dict unit);
  all_aliases : graph;
  all_defined_ctors : dict unit;
}.

Section merge.
Variable new_function : nat -> Z.

Definition merge_functions (fs : list (Z * function)) (mf : list function) : list (Z * function) :=
  foldl (fun fs f => fs ++ [(new_function (length fs), f)]) fs mf.

Definition merge_module (mi : metainfo) (m : code_module) : metainfo :=
  mkMeta (merge_icfs (all_icfs mi) (icfs m))
    (merge_functions (all_functions mi) (functions m))
    (merge_dicts (all_classes mi) (classes m))
    (merge_graphs (all_cha mi) (cha m))
    (merge_dicts (all_fats mi) (fats m))
    (merge_dicts (all_fats_in_data mi) (fats_in_data m))
    (merge_dicts (all_fats_in_code mi) (fats_in_code m))
    (merge_graphs (all_aliases mi) (aliases m))
    (merge_dicts (all_defined_ctors mi) (defined_ctors m)).

Definition merge_mcfi_metainfo (modules : list code_module) : metainfo :=
  foldl merge_module (mkMeta [] [] [] [] [] [] [] [] []) modules.
End merge.

(** ** Methods *)

(** The answer and the value left in [*attrs], which a return on the way
    leaves as it was. *)
Definition is_instance_method (f : function) (classes : dict (dict Z)) (attrs : Z) : bool * Z :=
  match classes with
  | [] => (false, attrs)
  | _ =>
    if (f_class_name f =? 0) || (f_method_name f =? 0) then (false, attrs)
    else
      match dict_find classes (f_class_name f) with
      | None => (false, attrs)
      | Some methods =>
        match dict_find methods (f_method_name f) with
        | None => (false, attrs)
        | Some a => (negb (is_static (u8 a)), u8 a)
        end
      end
  end.

Definition func_or_alias_addr_taken (fats : dict unit) (name : Z) (aliases_tc : dict (dict unit)) : bool :=
  if dict_in fats name then true
  else
    match dict_find aliases_tc name with
    | Some cc => existsb (fun kv : Z * unit => negb (kv.1 =? name) && dict_in fats kv.1) cc
    | None => false
    end.

(** ** The class hierarchy *)

(** Class [vc] of the group: add its virtual methods named [mname] to [eqc]. *)
Definition cha_class_step (classes : dict (dict Z)) (virtuals : dict graph) (mname : Z)
    (st : graph * dict unit) (vc : Z * unit) : res (graph * dict unit) :=
  let '(explored, eqc) := st in
  match dict_find classes vc.1 with
  | None => Ok st
  | Some methods =>
    match dict_find methods mname with
    | None => Ok st
    | Some a =>
      if is_virtual (u8 a) && negb (g_directed_edge_in explored vc.1 mname) then
        let explored := g_add_directed_edge explored vc.1 mname in
        match g_find_l2_vertex virtuals vc.1 mname with
        | Some names =>
          eqc ← foldM (fun eqc (n : Z * unit) => dict_add eqc n.1 tt) names eqc;
          Ok (explored, eqc)
        | None => Ok (explored, eqc)
        end
      else Ok st
    end
  end.

(** Method [method_entry] of class [cname] of the group [cc]. *)
Definition cha_method_step (classes : dict (dict Z)) (virtuals : dict graph) (cc : dict unit) (cname : Z)
    (st : graph * graph) (method_entry : Z * Z) : res (graph * graph) :=
  let '(callgraph, explored) := st in
  if is_virtual (u8 method_entry.2) && negb (g_directed_edge_in explored cname method_entry.1) then
    '(explored, eqc) ← foldM (cha_class_step classes virtuals method_entry.1) cc (explored, []);
    Ok (g_add_cc_to_g callgraph eqc, explored)
  else Ok st.

Definition cha_group_step (classes : dict (dict Z)) (virtuals : dict graph)
    (st : graph * graph) (cc : dict unit) : res (graph * graph) :=
  foldM (fun st (v : Z * unit) =>
    match dict_find classes v.1 with
    | None => Ok st
    | Some methods => foldM (cha_method_step classes virtuals cc v.1) methods st
    end) cc st.

Definition build_cha_relations (callgraph : graph) (classes : dict (dict Z)) (cha : graph)
    (virtuals : dict graph) : res graph :=
  cha_lcc ← g_get_lcc cha;
  '(callgraph, _) ← foldM (cha_group_step classes virtuals) cha_lcc (callgraph, []);
  Ok callgraph.

(** ** The call graph *)

(** The groupings of functions, and the variable [attrs]. *)
Record groups : Type := mkGroups {
  by_name : graph;
  virtual_by_cls_mtd : dict graph;
  global_by_type : graph;
  instance_by_type : graph;
  instance_by_const_type : graph;
  instance_by_volatile_type : graph;
  instance_by_const_volatile_type : graph;
  attrs_var : Z;
}.

(** [HASH_ITER] over the entry of [name] in [aliases_tc]. *)
Definition aliases_of (aliases_tc : dict (dict unit)) (name : Z) : list Z :=
  match dict_find aliases_tc name with Some cc => keys cc | None => [] end.

Definition group_by_name (aliases_tc : dict (dict unit)) (g : graph) (fp : Z) (f : function) : graph :=
  let g := g_add_directed_edge g (f_name f) fp in
  foldl (fun g k => if k =? f_name f then g else g_add_directed_edge g k fp)
    g (aliases_of aliases_tc (f_name f)).

Definition group_virtual (aliases_tc : dict (dict unit)) (g : dict graph) (f : function) : dict graph :=
  let g := g_add_directed_l2_edge g (f_class_name f) (f_method_name f) (f_name f) in
  foldl (fun g k => g_add_directed_l2_edge g (f_class_name f) (f_method_name f) k)
    g (aliases_of aliases_tc (f_name f)).

(** A function whose address is taken goes into the group of its type. *)
Definition group_by_type (aliases_tc : dict (dict unit)) (instance : bool) (attrs : Z) (f : function)
    (st : groups) : groups :=
  let add g := g_add_directed_edge g (f_type f) (f_name f) in
  if negb instance then st {{ global_by_type := add (global_by_type st) }}
  else if negb (is_constant attrs) && negb (is_volatile attrs) then
    st {{ instance_by_type :=
      foldl (fun g k => g_add_directed_edge g (f_type f) k) (add (instance_by_type st))
        (aliases_of aliases_tc (f_name f)) }}
  else if is_constant attrs && negb (is_volatile attrs) then
    st {{ instance_by_const_type := add (instance_by_const_type st) }}
  else if negb (is_constant attrs) && is_volatile attrs then
    st {{ instance_by_volatile_type := add (instance_by_volatile_type st) }}
  else st {{ instance_by_const_volatile_type := add (instance_by_const_volatile_type st) }}.

Definition group_function (classes : dict (dict Z)) (fats : dict unit) (aliases_tc : dict (dict unit))
    (st : groups) (fn : Z * function) : groups :=
  let '(fp, f) := fn in
  let st := st {{ by_name := group_by_name aliases_tc (by_name st) fp f }} in
  let '(instance, attrs) := is_instance_method f classes (attrs_var st) in
  let st := st {{ attrs_var := attrs }} in
  let st := if is_virtual attrs
            then st {{ virtual_by_cls_mtd := group_virtual aliases_tc (virtual_by_cls_mtd st) f }}
            else st in
  if func_or_alias_addr_taken fats (f_name f) aliases_tc && negb (f_type f =? 0)
  then group_by_type aliases_tc instance attrs f st
  else st.

(** Connect a branch to each name of a group. *)
Definition connect_all (callgraph : graph) (id : Z) (names : dict unit) : graph :=
  foldl (fun g (n : Z * unit) => g_add_edge g (mark_icj id) n.1) callgraph names.

(** The first class of the group that has the method. *)
Fixpoint first_virtual (virtuals : dict graph) (group : dict unit) (mname : Z) : option (dict unit) :=
  match group with
  | [] => None
  | (k, _) :: group' =>
    match g_find_l2_vertex virtuals k mname with
    | Some names => Some names
    | None => first_virtual virtuals group' mname
    end
  end.

(** The names a branch may reach. *)
Definition branch_targets (st : groups) (chacc : dict (dict unit)) (ic : icf) : dict unit :=
  match ic with
  | VirtualMethodCall class_name method_name =>
    match g_find_l2_vertex (virtual_by_cls_mtd st) class_name method_name with
    | Some names => names
    | None =>
      match dict_find chacc class_name with
      | Some group => default [] (first_virtual (virtual_by_cls_mtd st) group method_name)
      | None => []
      end
    end
  | PointerToMethodCall _ type attrs =>
    let g := if negb (is_constant attrs) && negb (is_volatile attrs) then instance_by_type st
             else if is_constant attrs && negb (is_volatile attrs) then instance_by_const_type st
             else if negb (is_constant attrs) && is_volatile attrs then instance_by_volatile_type st
             else instance_by_const_volatile_type st in
    default [] (dict_find g type)
  | NormalCall type => default [] (dict_find (global_by_type st) type)
  end.

(** [attrs0] is what the uninitialised variable [attrs] happens to hold.
    Returns the call graph and [all_funcs_grouped_by_name]. *)
Definition build_callgraph (attrs0 : Z) (icfs : dict icf) (functions : list (Z * function))
    (classes : dict (dict Z)) (cha : graph) (fats : dict unit) (aliases : graph) : res (graph * graph) :=
  aliases_tc ← g_transitive_closure aliases;
  let st := foldl (group_function classes fats aliases_tc)
              (mkGroups [] [] [] [] [] [] [] attrs0) functions in
  chacc ← g_transitive_closure cha;
  callgraph ← build_cha_relations [] classes cha (virtual_by_cls_mtd st);
  let callgraph := foldl (fun g (ic : Z * icf) => connect_all g ic.1 (branch_targets st chacc ic.2))
                     callgraph icfs in
  Ok (callgraph, by_name st).

(** ** The return graph *)
Definition add_edges (g : graph) (a : Z) (bs : list Z) : graph := foldl (fun g b => g_add_edge g a b) g bs.

(** Function [f], listed under [name]. *)
Definition ret_function (g : graph) (name : Z) (f : function) : graph :=
  let g := if name =? f_name f then g else g_add_edge g name (f_name f) in
  let g := add_edges g (f_name f) (mark_ret <$> f_returns f) in
  let g := foldl (fun g n => if f_name f =? n then g else g_add_edge g (f_name f) n) g (f_dtails f) in
  add_edges g (f_name f) (mark_icj <$> f_itails f).

Definition ret_name_step (functions : list (Z * function)) (g : graph) (kv : Z * dict unit) : res graph :=
  foldM (fun g (fentry : Z * unit) =>
    match dict_find functions fentry.1 with
    | Some f => Ok (ret_function g kv.1 f)
    | None => Fault
    end) kv.2 g.

Definition ret_module (g : graph) (m : code_module) : graph :=
  let g := foldl (fun g s => g_add_edge g (mark_ra_dc (s_name s)) (s_name s)) g (rad m) in
  foldl (fun g s => g_add_edge g (mark_ra_ic (s_name s)) (mark_icj (s_name s))) g (rai m).

Definition build_retgraph (callgraph : graph) (functions : list (Z * function)) (by_name : graph)
    (modules : list code_module) : res graph :=
  g ← foldM (ret_name_step functions) by_name callgraph;
  Ok (foldl ret_module g modules).
