(* ===== verification/CfgFacts.v ===== *)
(** * The graphs connect what may flow

    The call graph joins every indirect branch to the functions it may
    reach; the return graph joins the returns of a function to the return
    sites of the calls that may reach it.  Both are symmetric graphs, so
    that components are the classes of connected vertices. *)

From S2P Require Import Prelude Dict Graph GraphFacts Module Cfg.

(** [g'] has all the edges of [g]. *)
Definition extends (g g' : graph) : Prop := forall a b, edge g a b -> edge g' a b.

#[export] Instance extends_preorder : PreOrder extends.
Proof. split; [by intros g a b|intros g1 g2 g3 H1 H2 a b H; by apply H2, H1]. Qed.

(** A step that keeps a graph well-formed and only adds edges. *)
Definition grows (g g' : graph) : Prop := (wf_graph g -> wf_graph g') /\ extends g g'.

#[export] Instance grows_preorder : PreOrder grows.
Proof.
  split; [by intros g|]. intros g1 g2 g3 [H1 H2] [H3 H4]. split; [auto|by etrans].
Qed.


(** ** Growth *)
Lemma grows_add_edge g a b : grows g (g_add_edge g a b).
Proof. split; [apply wf_add_edge|]. intros x y H. apply edge_add. auto. Qed.

Lemma grows_foldl {A} (f : graph -> A -> graph) l g : (forall g a, grows g (f g a)) -> grows g (foldl f g l).
Proof.
  intros H. revert g. induction l as [|a l IH]; intros g; cbn; [done|]. etrans; [apply H|apply IH].
Qed.

Lemma grows_foldM {A} (f : graph -> A -> res graph) l g g' :
  (forall g a g', f g a = Ok g' -> grows g g') -> foldM f l g = Ok g' -> grows g g'.
Proof.
  intros H. revert g. induction l as [|a l IH]; intros g; cbn; [by intros [= <-]|].
  intros (g1 & H1 & H2)%bind_Ok_inv. etrans; [by eapply H|by apply IH].
Qed.

(** An element of a growing fold leaves its edges in the result. *)
Lemma foldl_edge {A} (f : graph -> A -> graph) l g a x y : (forall g a, grows g (f g a)) ->
  a ∈ l -> (forall g, edge (f g a) x y) -> edge (foldl f g l) x y.
Proof.
  intros Hg Ha Hf. revert g. induction l as [|b l IH]; intros g; [by apply not_elem_of_nil in Ha|].
  cbn. apply elem_of_cons in Ha as [<-|Ha]; [|by apply IH].
  apply (grows_foldl f l (f g a) Hg), Hf.
Qed.

Lemma foldM_edge {A} (f : graph -> A -> res graph) l g g' a x y :
  (forall g a g', f g a = Ok g' -> grows g g') -> a ∈ l ->
  (forall g g', f g a = Ok g' -> edge g' x y) -> foldM f l g = Ok g' -> edge g' x y.
Proof.
  intros Hg Ha Hf. revert g. induction l as [|b l IH]; intros g; [by apply not_elem_of_nil in Ha|].
  cbn. intros (g1 & H1 & H2)%bind_Ok_inv. apply elem_of_cons in Ha as [<-|Ha]; [|by apply (IH Ha g1)].
  apply (grows_foldM f l g1 g' Hg H2). by eapply Hf.
Qed.

Lemma edge_add_new g a b : edge (g_add_edge g a b) a b.
Proof. apply edge_add. auto. Qed.

Lemma edge_add_new_sym g a b : edge (g_add_edge g a b) b a.
Proof. apply edge_add. auto. Qed.

(** ** The call graph *)
Lemma grows_connect_all g id names : grows g (connect_all g id names).
Proof. apply grows_foldl. intros. apply grows_add_edge. Qed.


Lemma grows_add_cc g cc : grows g (g_add_cc_to_g g cc).
Proof.
  destruct cc as [|[k u] cc]; cbn; [done|]. apply grows_foldl. intros. apply grows_add_edge.
Qed.

Lemma grows_cha g classes cha virtuals g' : build_cha_relations g classes cha virtuals = Ok g' -> grows g g'.
Proof.
  unfold build_cha_relations. intros (lcc & _ & H)%bind_Ok_inv.
  apply bind_Ok_inv in H as ([g1 ex] & H & [= <-]).
  assert (Hm : forall cc cname st me st', cha_method_step classes virtuals cc cname st me = Ok st' ->
    grows st.1 st'.1).
  { intros cc cname [cg e] me st'. cbn. destruct (_ && _); [|by intros [= <-]].
    intros ([e' eqc] & _ & [= <-])%bind_Ok_inv. apply grows_add_cc. }
  assert (Hfold : forall {A} (step : graph * graph -> A -> res (graph * graph)) l st st',
    (forall st a st', step st a = Ok st' -> grows st.1 st'.1) -> foldM step l st = Ok st' -> grows st.1 st'.1).
  { intros A step l st st' Hs. revert st. induction l as [|a l IH]; intros st; cbn; [by intros [= <-]|].
    intros (st1 & H1 & H2)%bind_Ok_inv. etrans; [by eapply Hs|by apply IH]. }
  apply (Hfold _ _ _ _ _) in H; [exact H|]. intros st cc st' Hst. unfold cha_group_step in Hst.
  apply (Hfold _ _ _ _ _) in Hst; [exact Hst|]. intros st1 v st2. cbn.
  destruct (dict_find classes v.1) as [methods|]; [|by intros [= <-]].
  apply Hfold. intros. by eapply Hm.
Qed.

(** ** The grouping of functions *)

(** [c] is grouped under class [a] and method [b]. *)
Definition l2_in (g : dict graph) (a b c : Z) : Prop :=
  exists names, g_find_l2_vertex g a b = Some names /\ c ∈ keys names.











Lemma build_callgraph_wf attrs0 icfs functions classes cha fats aliases g by_nm :
  build_callgraph attrs0 icfs functions classes cha fats aliases = Ok (g, by_nm) -> wf_graph g.
Proof.
  unfold build_callgraph. intros (tc & Htc & H)%bind_Ok_inv. cbv zeta in H.
  apply bind_Ok_inv in H as (chacc & Hcc & H). apply bind_Ok_inv in H as (g0 & Hg0 & H).
  injection H as <- <-. apply grows_foldl; [intros; apply grows_connect_all|].
  apply (grows_cha _ _ _ _ _ Hg0), wf_graph_nil.
Qed.

(** ** The class hierarchy *)

(** Class [c] declares a virtual method named [m]. *)
Definition declares (classes : dict (dict Z)) (c m : Z) : Prop :=
  exists ms a, dict_find classes c = Some ms /\ dict_find ms m = Some a /\ is_virtual (u8 a) = true.



Section hierarchy.
Context (classes : dict (dict Z)) (virtuals : dict graph).
Hypothesis Hwf : forall c ms, dict_find classes c = Some ms -> wf_dict ms.


(** The method [m] has been dealt with in the group [cc]: all its classes
    are marked and all its names are connected. *)
Definition grouped (cc : dict unit) (m : Z) (st : graph * graph) : Prop :=
  (forall x, x ∈ keys cc -> declares classes x m -> edge st.2 x m) /\
  (forall x y n n', x ∈ keys cc -> y ∈ keys cc -> declares classes x m -> declares classes y m ->
    l2_in virtuals x m n -> l2_in virtuals y m n' -> connected st.1 n n').

Definition untouched (cc : dict unit) (m : Z) (st : graph * graph) : Prop := forall x, x ∈ keys cc -> ~ edge st.2 x m.

(** What a step for the group [cc] does. *)
Record group_progress (cc : dict unit) (st st' : graph * graph) : Prop := {
  gp_grows : grows st.1 st'.1;
  gp_marks : extends st.2 st'.2;
  gp_only x y : edge st'.2 x y -> edge st.2 x y \/ x ∈ keys cc;
  gp_inv : wf_graph st.1 -> (forall m, grouped cc m st \/ untouched cc m st) -> forall m, grouped cc m st' \/ untouched cc m st';
}.

#[local] Instance group_progress_preorder cc : PreOrder (group_progress cc).
Proof.
  split.
  - intros st. by constructor; [| |auto|].
  - intros s1 s2 s3 [A1 A2 A3 A4] [B1 B2 B3 B4]. constructor.
    + by etrans.
    + by etrans.
    + intros x y H. apply B3 in H as [H|H]; [by apply A3|by right].
    + intros Hw Hi. apply B4; [by apply A1|by apply A4].
Qed.






End hierarchy.

(** ** Methods *)








(** ** Virtual methods *)










(** ** The return graph *)
Lemma grows_add_edges g a l : grows g (add_edges g a l).
Proof. apply grows_foldl. intros. apply grows_add_edge. Qed.

Lemma add_edges_edge g a l b : b ∈ l -> edge (add_edges g a l) a b.
Proof.
  intros Hb. apply (foldl_edge _ _ _ b); [|done|].
  - intros. apply grows_add_edge.
  - intros. apply edge_add_new.
Qed.

Lemma ret_function_spec g name f : let g' := ret_function g name f in
  grows g g' /\
  (name <> f_name f -> edge g' name (f_name f)) /\
  (forall r, r ∈ f_returns f -> edge g' (f_name f) (mark_ret r)) /\
  (forall t, t ∈ f_dtails f -> t <> f_name f -> edge g' (f_name f) t) /\
  (forall i, i ∈ f_itails f -> edge g' (f_name f) (mark_icj i)).
Proof.
  cbv zeta. unfold ret_function.
  set (g1 := if name =? f_name f then g else _).
  set (g2 := add_edges g1 (f_name f) (mark_ret <$> f_returns f)).
  set (step := fun (g : graph) n => if f_name f =? n then g else g_add_edge g (f_name f) n).
  set (g3 := foldl step g2 (f_dtails f)).
  assert (Hstep : forall g n, grows g (step g n)).
  { intros g' n. unfold step. destruct (f_name f =? n); [reflexivity|apply grows_add_edge]. }
  assert (H1 : grows g g1) by (unfold g1; destruct (name =? f_name f); [reflexivity|apply grows_add_edge]).
  assert (H2 : grows g1 g2) by apply grows_add_edges.
  assert (H3 : grows g2 g3) by (by apply grows_foldl).
  assert (H4 : grows g3 (add_edges g3 (f_name f) (mark_icj <$> f_itails f))) by apply grows_add_edges.
  split; [etrans; [exact H1|]; etrans; [exact H2|]; by etrans|]. split; [|split; [|split]].
  - intros Hn. apply H4, H3, H2. unfold g1. rewrite (proj2 (Z.eqb_neq name _)) by done.
    apply edge_add_new.
  - intros r Hr. apply H4, H3. apply add_edges_edge. by apply list_elem_of_fmap_2.
  - intros t Ht Hne. apply H4. apply (foldl_edge _ _ _ t); [done|done|]. intros g'. unfold step.
    rewrite (proj2 (Z.eqb_neq (f_name f) t)) by done. apply edge_add_new.
  - intros i Hi. apply add_edges_edge. by apply list_elem_of_fmap_2.
Qed.

Lemma ret_name_grows fs g kv g' : ret_name_step fs g kv = Ok g' -> grows g g'.
Proof.
  unfold ret_name_step. apply grows_foldM. intros g1 a g2. destruct (dict_find fs a.1); [|done].
  intros [= <-]. apply ret_function_spec.
Qed.

Lemma ret_module_grows g m : grows g (ret_module g m).
Proof.
  transitivity (foldl (fun g s => g_add_edge g (mark_ra_dc (s_name s)) (s_name s)) g (rad m)).
  - apply grows_foldl. intros. apply grows_add_edge.
  - apply (grows_foldl (fun g s => g_add_edge g (mark_ra_ic (s_name s)) (mark_icj (s_name s)))).
    intros. apply grows_add_edge.
Qed.

Lemma ret_module_edges g m s :
  (s ∈ rad m -> edge (ret_module g m) (mark_ra_dc (s_name s)) (s_name s)) /\
  (s ∈ rai m -> edge (ret_module g m) (mark_ra_ic (s_name s)) (mark_icj (s_name s))).
Proof.
  unfold ret_module. split; intros Hs.
  - apply (grows_foldl (fun g s => g_add_edge g (mark_ra_ic (s_name s)) (mark_icj (s_name s)))).
    + intros. apply grows_add_edge.
    + apply (foldl_edge _ _ _ s); [intros; apply grows_add_edge|done|intros; apply edge_add_new].
  - apply (foldl_edge _ _ _ s); [intros; apply grows_add_edge|done|intros; apply edge_add_new].
Qed.

Lemma build_retgraph_grows g fs by_nm modules g' :
  build_retgraph g fs by_nm modules = Ok g' -> grows g g'.
Proof.
  unfold build_retgraph. intros (g1 & Hg1 & [= <-])%bind_Ok_inv. transitivity g1.
  - eapply grows_foldM; [|exact Hg1]. intros. by eapply ret_name_grows.
  - apply grows_foldl. apply ret_module_grows.
Qed.

(** The return addresses of the modules are vertices. *)
Lemma build_retgraph_sites g fs by_nm modules g' m s :
  build_retgraph g fs by_nm modules = Ok g' -> m ∈ modules ->
  (s ∈ rad m -> edge g' (mark_ra_dc (s_name s)) (s_name s)) /\
  (s ∈ rai m -> edge g' (mark_ra_ic (s_name s)) (mark_icj (s_name s))).
Proof.
  unfold build_retgraph. intros (g1 & Hg1 & [= <-])%bind_Ok_inv Hm.
  split; intros Hs; (apply (foldl_edge _ _ _ m); [apply ret_module_grows|done|]);
    intros g0; by apply ret_module_edges.
Qed.

(** [f] is listed under [name]. *)
Definition listed (fs : list (Z * function)) (by_nm : graph) (name : Z) (f : function) : Prop :=
  exists adj fp, (name, adj) ∈ by_nm /\ fp ∈ keys adj /\ dict_find fs fp = Some f.

(** A function listed under [x] may tail-call [y], directly or through a
    branch that the call graph joins to [y]. *)
Definition tail_calls (g : graph) (fs : list (Z * function)) (by_nm : graph) (x y : Z) : Prop :=
  exists f, listed fs by_nm x f /\
    (y ∈ f_dtails f \/ exists i, i ∈ f_itails f /\ edge g (mark_icj i) y).

(** The edges made for a listed function stay. *)
Lemma listed_edge g fs by_nm modules g' name f a b : build_retgraph g fs by_nm modules = Ok g' ->
  listed fs by_nm name f -> (forall g, edge (ret_function g name f) a b) -> edge g' a b.
Proof.
  unfold build_retgraph. intros (g1 & Hg1 & [= <-])%bind_Ok_inv (adj & fp & Hby & Hfp & Hf) H.
  apply (grows_foldl ret_module modules g1 ret_module_grows).
  eapply (foldM_edge (ret_name_step fs) by_nm g g1 (name, adj));
    [by intros; eapply ret_name_grows|done| |exact Hg1].
  intros ga gb Hab. unfold ret_name_step in Hab. cbn [fst snd] in Hab.
  apply list_elem_of_fmap in Hfp as ([k u] & -> & Hku).
  eapply (foldM_edge _ adj ga gb (k, u)); [|exact Hku| |exact Hab].
  - intros gc c gd. cbn beta. destruct (dict_find fs c.1); [|by intros]. intros [= <-]. apply ret_function_spec.
  - intros gc gd. cbn beta. rewrite Hf. intros [= <-]. apply H.
Qed.

Lemma listed_connected g fs by_nm modules g' name f : wf_graph g -> build_retgraph g fs by_nm modules = Ok g' ->
  listed fs by_nm name f -> connected g' name (f_name f) /\
  (forall r, r ∈ f_returns f -> connected g' name (mark_ret r)) /\
  (forall t, t ∈ f_dtails f -> connected g' name t) /\
  (forall i, i ∈ f_itails f -> connected g' name (mark_icj i)).
Proof.
  intros Hwf Hrun Hl.
  assert (Hn : connected g' name (f_name f)).
  { destruct (decide (name = f_name f)) as [->|Hne]; [done|]. apply rtc_once.
    eapply listed_edge; [done|done|]. intros g0. by apply ret_function_spec. }
  split; [exact Hn|]. split; [|split].
  - intros r Hr. etrans; [exact Hn|]. apply rtc_once. eapply listed_edge; [done|done|].
    intros g0. by destruct (ret_function_spec g0 name f) as (_ & _ & H & _); apply H.
  - intros t Ht. etrans; [exact Hn|]. destruct (decide (t = f_name f)) as [->|Hne]; [done|]. apply rtc_once.
    eapply listed_edge; [done|done|]. intros g0. by destruct (ret_function_spec g0 name f) as (_ & _ & _ & H & _); apply H.
  - intros i Hi. etrans; [exact Hn|]. apply rtc_once. eapply listed_edge; [done|done|].
    intros g0. by destruct (ret_function_spec g0 name f) as (_ & _ & _ & _ & H); apply H.
Qed.

Lemma tails_connected g fs by_nm modules g' x y : wf_graph g -> build_retgraph g fs by_nm modules = Ok g' ->
  rtc (tail_calls g fs by_nm) x y -> connected g' x y.
Proof.
  intros Hwf Hrun H. destruct (build_retgraph_grows _ _ _ _ _ Hrun) as [_ Hext].
  induction H as [|x y z (f & Hl & Hxy) _ IH]; [done|]. etrans; [|exact IH].
  destruct (listed_connected _ _ _ _ _ _ _ Hwf Hrun Hl) as (_ & _ & Hd & Hi).
  destruct Hxy as [Hy|(i & Hii & He)]; [by apply Hd|]. etrans; [by apply Hi|]. by apply rtc_once, Hext.
Qed.

(** C8.  [build_retgraph] keeps the call graph and joins every return to the
    places it may return to.  Take a call of [x], and a function [f] that the
    call may end in: [f] is listed under [x], or under a name reached from [x]
    by any chain of tail calls, direct or indirect, through functions that need
    not have a return of their own.  Then each return of [f] is connected to
    the return site of the call: of every direct call of [x], and of every
    indirect call that the call graph joins to [x]. *)
Theorem build_retgraph_connects g fs by_nm modules g' :
  wf_graph g -> build_retgraph g fs by_nm modules = Ok g' ->
  wf_graph g' /\ (forall a b, edge g a b -> edge g' a b) /\
  forall x y f r, rtc (tail_calls g fs by_nm) x y -> listed fs by_nm y f -> r ∈ f_returns f ->
    (forall m s, m ∈ modules -> s ∈ rad m -> s_name s = x ->
       connected g' (mark_ret r) (mark_ra_dc (s_name s))) /\
    (forall m s, m ∈ modules -> s ∈ rai m -> edge g (mark_icj (s_name s)) x ->
       connected g' (mark_ret r) (mark_ra_ic (s_name s))).
Proof.
  intros Hwf Hrun. destruct (build_retgraph_grows _ _ _ _ _ Hrun) as [Hw Hext].
  assert (Hwf' : wf_graph g') by auto. split; [done|]. split; [exact Hext|].
  intros x y f r Htail Hl Hr.
  assert (Hrx : connected g' (mark_ret r) x).
  { apply connected_sym; [done|]. transitivity y; [by apply (tails_connected g fs by_nm modules)|].
    by destruct (listed_connected _ _ _ _ _ _ _ Hwf Hrun Hl) as (_ & H & _); apply H. }
  split; intros m s Hm Hs Hx; (etrans; [exact Hrx|]);
    destruct (build_retgraph_sites _ _ _ _ _ _ s Hrun Hm) as [H1 H2].
  - rewrite <- Hx. by apply rtc_once, (wfg_sym _ Hwf'), H1.
  - eapply rtc_l; [by apply (wfg_sym _ Hwf'), Hext|]. by apply rtc_once, (wfg_sym _ Hwf'), H2.
Qed.

(** ** A small program

    A function 0x10 of type 0x100 whose address is taken, which has no return
    of its own and tail-calls 0x30, a function with a return at 0x50; a virtual
    method 0x20 of class 0x200, which overrides the method 0x21 of class 0x201;
    class 0x202, related to 0x200, has no method; a constant method 0x22 whose
    address is taken.  There is an indirect call of each kind, the first of
    which returns to 0x62, and a direct call of 0x10 that returns to 0x61. *)
Definition sample_function : function := mkFunction 0x10 0 0 0x100 [] [0x30] [].
Definition sample_tail : function := mkFunction 0x30 0 0 0x101 [0x50] [] [].
Definition sample_method : function := mkFunction 0x20 0x200 0x210 0x100 [0x51] [] [].
Definition sample_parent : function := mkFunction 0x21 0x201 0x210 0x100 [0x52] [] [].
Definition sample_const : function := mkFunction 0x22 0x201 0x211 0x102 [0x53] [] [].
Definition sample_functions : list (Z * function) :=
  [(1, sample_function); (2, sample_method); (3, sample_parent); (4, sample_const); (5, sample_tail)].
Definition sample_icfs : dict icf :=
  [(0x40, NormalCall 0x100); (0x41, VirtualMethodCall 0x200 0x210); (0x42, VirtualMethodCall 0x202 0x210);
   (0x43, PointerToMethodCall 0x201 0x102 CONSTANT)].
Definition sample_classes : dict (dict Z) :=
  [(0x200, [(0x210, VIRTUAL)]); (0x201, [(0x210, VIRTUAL); (0x211, CONSTANT)])].
Definition sample_cha : graph := built [(0x200, 0x201); (0x200, 0x202)].
Definition sample_callgraph : res (graph * graph) :=
  build_callgraph 0 sample_icfs sample_functions sample_classes sample_cha [(0x10, tt); (0x22, tt)] [].
Definition sample_calls : list code_module :=
  [alloc_code_module {{ rad := [mkSymbol 0x10 0x61] }} {{ rai := [mkSymbol 0x40 0x62] }}].




Ltac solve_here := first [apply list_elem_of_here | apply list_elem_of_further; solve_here].



Lemma build_retgraph_witness : exists g by_nm g', sample_callgraph = Ok (g, by_nm) /\
  build_retgraph g sample_functions by_nm sample_calls = Ok g' /\
  connected g' (mark_ret 0x50) (mark_ra_dc 0x10) /\ connected g' (mark_ret 0x50) (mark_ra_ic 0x40).
Proof.
  destruct sample_callgraph as [[g by_nm]| | |] eqn:H; [|vm_compute in H; discriminate..].
  assert (Hg : wf_graph g) by by eapply build_callgraph_wf.
  destruct (build_retgraph g sample_functions by_nm sample_calls) as [g'| | |] eqn:Hr;
    [|vm_compute in H; injection H as <- <-; vm_compute in Hr; discriminate..].
  destruct (build_retgraph_connects _ _ _ _ _ Hg Hr) as (_ & _ & Hc).
  destruct (Hc 0x10 0x30 sample_tail 0x50) as (H1 & H2).
  - apply rtc_once. exists sample_function. split; [|left; left].
    exists [(1, tt)], 1. vm_compute in H. injection H as <- <-. split; [left|]. split; [left|reflexivity].
  - exists [(5, tt)], 5. vm_compute in H. injection H as <- <-. split; [solve_here|]. split; [left|reflexivity].
  - left.
  - exists g, by_nm, g'. split; [reflexivity|]. split; [exact Hr|]. split.
    + refine (H1 _ (mkSymbol 0x10 0x61) _ _ _); [left|left|reflexivity].
    + refine (H2 _ (mkSymbol 0x40 0x62) _ _ _); [left|left|]. vm_compute in H. injection H as <- <-. reflexivity.
Defined.
