(* ===== verification/StringPool.v ===== *)
(** * The string pool ([runtime/include/cfggen/stringpool.h], [string.h], [string.c])

    Every name of the metadata is interned, so that two names are equal
    exactly when their pointers are.  A C string is the list of its bytes
    before the NUL; the pool is the list of its entries, in the order of the
    hash table, each the bytes and the pointer to the pool's copy.  Where
    [malloc] puts a copy is a parameter. *)

From S2P Require Import Prelude.

Definition cstring : Type := list Z.

(** [strlen] counts the NUL too: [w] is advanced past it. *)
Definition strlen (s : cstring) : Z := Z.of_nat (length s) + 1.

Definition strnlen (s : cstring) (maxlen : Z) : Z := Z.min (Z.of_nat (length s)) maxlen.

(** A byte of a string and its NUL. *)
Definition char_at (s : cstring) (i : nat) : Z := default 0 (s !! i).

(** [char] is signed in the test of the loop; the result is of unsigned bytes. *)
Fixpoint strcmp (l r : cstring) : Z :=
  match l, r with
  | a :: l', b :: r' => if a =? b then strcmp l' r' else a - b
  | a :: _, [] => a
  | [], b :: _ => - b
  | [], [] => 0
  end.

Fixpoint strncmp_loop (n : nat) (l r : cstring) : Z :=
  match n, l, r with
  | S n', a :: l', b :: r' => if a =? b then strncmp_loop n' l' r' else a - b
  | _, l, r => char_at l 0 - char_at r 0
  end.
Definition strncmp (l r : cstring) (n : nat) : Z :=
  match n with
  | O => 0
  | S n' => strncmp_loop n' l r
  end.

Fixpoint memcmp (n : nat) (vl vr : list Z) : Z :=
  match n, vl, vr with
  | S n', a :: l, b :: r => if a =? b then memcmp n' l r else a - b
  | _, _, _ => 0
  end.

Definition isdigit (ch : Z) : bool := (48 <=? ch) && (ch <=? 57).
Definition isalpha (ch : Z) : bool := ((97 <=? ch) && (ch <=? 122)) || ((65 <=? ch) && (ch <=? 90)).
Definition isalnum (ch : Z) : bool := isdigit ch || isalpha ch.

(** ** The pool *)
Definition pool : Type := list (cstring * Z).

(** What the pool asks of the allocator, given the blocks in use: NULL, or a
    block at an address that none of them has, small enough for the marks of
    the graphs. *)
Class Malloc : Type := malloc : list Z -> Z -> Z.
Class MallocSpec (M : Malloc) : Prop :=
  malloc_spec : forall used n, malloc used n = 0 \/ (malloc used n ∉ used /\ 0 < malloc used n < 2 ^ 47).

Section pool.
Context `{M : Malloc}.

Fixpoint sp_find (sp : pool) (data : cstring) : option Z :=
  match sp with
  | [] => None
  | (s, p) :: sp' => if decide (s = data) then Some p else sp_find sp' data
  end.

Definition sp_str_handle (sp : pool) (data : cstring) : option Z := sp_find sp data.

(** The pointers of the pool. *)
Definition pointers (sp : pool) : list Z := sp.*2.

Definition sp_add_nocpy (sp : pool) (data : cstring) (p : Z) : pool := sp ++ [(data, p)].

Definition sp_add_cpy (sp : pool) (data : cstring) : res (pool * Z) :=
  let p := malloc (pointers sp) (strlen data + 1) in
  if p =? 0 then Exit   (* [oom()] *)
  else Ok (sp ++ [(data, p)], p).

Definition sp_add_nocpy_or_free (sp : pool) (data : cstring) (p : Z) : pool * Z :=
  match sp_str_handle sp data with
  | None => (sp_add_nocpy sp data p, p)
  | Some handle => (sp, handle)
  end.

Definition sp_add_cpy_or_nothing (sp : pool) (data : cstring) : res (pool * Z) :=
  match sp_str_handle sp data with
  | None => sp_add_cpy sp data
  | Some handle => Ok (sp, handle)
  end.

Fixpoint sp_del (sp : pool) (data : cstring) : pool :=
  match sp with
  | [] => []
  | (s, p) :: sp' => if decide (s = data) then sp' else (s, p) :: sp_del sp' data
  end.

Definition sp_dtor (sp : pool) : pool := [].

Definition sp_intern_string (sp : pool) (string : cstring) : res (pool * Z) := sp_add_cpy_or_nothing sp string.

(** ** What interning promises *)
Record pool_ok (sp : pool) : Prop := {
  pool_strings : NoDup sp.*1;
  pool_pointers : NoDup (pointers sp);
  pool_range : forall p, p ∈ pointers sp -> 0 < p < 2 ^ 47;
}.

(** [sp'] knows what [sp] knows. *)
Definition extends (sp sp' : pool) : Prop := forall s p, sp_find sp s = Some p -> sp_find sp' s = Some p.

#[export] Instance extends_preorder : PreOrder extends.
Proof using. split; [by intros sp s p|]. intros a b c H1 H2 s p H. by apply H2, H1. Qed.

Lemma pool_ok_nil : pool_ok [].
Proof using. split; [constructor|constructor|]. intros p Hp. by apply not_elem_of_nil in Hp. Qed.

Lemma sp_find_in sp s p : sp_find sp s = Some p -> (s, p) ∈ sp.
Proof using.
  induction sp as [|[s' p'] sp IH]; cbn; [done|]. destruct (decide (s' = s)) as [->|].
  - intros [= ->]. left.
  - intros H. right. by apply IH.
Qed.

Lemma sp_find_None sp s : sp_find sp s = None <-> s ∉ sp.*1.
Proof using.
  induction sp as [|[s' p'] sp IH]; cbn; [split; [intros _ H; by apply not_elem_of_nil in H|done]|].
  rewrite not_elem_of_cons. destruct (decide (s' = s)) as [->|]; naive_solver.
Qed.

Lemma sp_find_app sp sp' s : sp_find (sp ++ sp') s =
  match sp_find sp s with Some p => Some p | None => sp_find sp' s end.
Proof using. induction sp as [|[s' p'] sp IH]; cbn; [done|]. by destruct (decide (s' = s)). Qed.

Lemma pointer_inj sp s t p : pool_ok sp -> sp_find sp s = Some p -> sp_find sp t = Some p -> s = t.
Proof using.
  intros [_ Hp _] Hs Ht. apply sp_find_in, list_elem_of_lookup in Hs as (i & Hi).
  apply sp_find_in, list_elem_of_lookup in Ht as (j & Hj).
  assert (Hij : i = j).
  { apply (NoDup_lookup _ i j p Hp); unfold pointers; rewrite list_lookup_fmap; [by rewrite Hi|by rewrite Hj]. }
  subst. congruence.
Qed.

Lemma find_range sp s p : pool_ok sp -> sp_find sp s = Some p -> 0 < p < 2 ^ 47.
Proof using.
  intros [_ _ Hr] H. apply Hr. apply sp_find_in in H. unfold pointers.
  change p with ((s, p).2). by apply list_elem_of_fmap_2.
Qed.

Lemma intern_spec `{MS : !MallocSpec M} sp s sp' p : pool_ok sp -> sp_intern_string sp s = Ok (sp', p) ->
  pool_ok sp' /\ extends sp sp' /\ sp_find sp' s = Some p.
Proof using.
  intros Hok. unfold sp_intern_string, sp_add_cpy_or_nothing, sp_str_handle.
  destruct (sp_find sp s) as [q|] eqn:Hs; [by intros [= <- <-]|].
  unfold sp_add_cpy. set (q := malloc _ _). destruct (Z.eqb_spec q 0) as [|Hq0]; [done|]. intros [= <- <-].
  assert (Hq : q ∉ pointers sp /\ 0 < q < 2 ^ 47) by by destruct (malloc_spec (pointers sp) (strlen s + 1)). pose proof Hok as [H1 H2 H3]. split_and!.
  - split.
    + rewrite fmap_app. apply NoDup_app. split; [done|]. split; [|apply NoDup_singleton].
      intros t Ht Hin. apply list_elem_of_singleton in Hin as ->. by apply sp_find_None in Hs.
    + unfold pointers. rewrite fmap_app. apply NoDup_app. split; [done|]. split; [|apply NoDup_singleton].
      intros t Ht Hin. apply list_elem_of_singleton in Hin as ->. by destruct Hq.
    + intros x Hx. unfold pointers in Hx. rewrite fmap_app in Hx. apply elem_of_app in Hx as [Hx|Hx]; [by apply H3|].
      apply list_elem_of_singleton in Hx as ->. apply Hq.
  - intros t x Ht. by rewrite sp_find_app, Ht.
  - rewrite sp_find_app, Hs. cbn. by rewrite decide_True.
Qed.

(** A run that ends for nothing but a failed allocation, and what holds of its
    result when it returns. *)
Definition unless_oom {A} (m : res A) (P : A -> Prop) : Prop :=
  match m with
  | Ok a => P a
  | Exit => exists used n, malloc used n = 0
  | Fault | NoFuel => False
  end.

Lemma unless_oom_bind {A B} (m : res A) (f : A -> res B) P Q :
  unless_oom m P -> (forall a, P a -> unless_oom (f a) Q) -> unless_oom (m ≫= f) Q.
Proof using. destruct m; cbn; auto. Qed.

Lemma unless_oom_mono {A} (m : res A) (P Q : A -> Prop) :
  unless_oom m P -> (forall a, P a -> Q a) -> unless_oom m Q.
Proof using. destruct m; cbn; auto. Qed.

(** The pointer of a string, when the pool has it. *)
Definition ptr (sp : pool) (s : cstring) : Z := default 0 (sp_find sp s).
Definition known (sp : pool) (l : list cstring) : Prop := forall s, s ∈ l -> is_Some (sp_find sp s).

Lemma ptr_found sp s p : sp_find sp s = Some p -> ptr sp s = p.
Proof using. unfold ptr. by intros ->. Qed.

Lemma known_extends sp sp' l : known sp l -> extends sp sp' -> known sp' l.
Proof using. intros Hk He s Hs. destruct (Hk s Hs) as [p Hp]. exists p. by apply He. Qed.

Lemma ptr_extends sp sp' s : is_Some (sp_find sp s) -> extends sp sp' -> ptr sp' s = ptr sp s.
Proof using. intros [p Hp] He. by rewrite (ptr_found _ _ _ Hp), (ptr_found _ _ _ (He _ _ Hp)). Qed.

Lemma ptrs_extends sp sp' l : known sp l -> extends sp sp' -> ptr sp' <$> l = ptr sp <$> l.
Proof using.
  intros Hk He. apply list_fmap_ext. intros i s Hs. apply ptr_extends; [|done].
  apply Hk. by eapply list_elem_of_lookup_2.
Qed.

Lemma known_nil sp : known sp [].
Proof using. intros s Hs. by apply not_elem_of_nil in Hs. Qed.

Lemma known_cons sp s l : known sp (s :: l) <-> is_Some (sp_find sp s) /\ known sp l.
Proof using.
  split.
  - intros H. split; [apply H; left|]. intros t Ht. apply H. by right.
  - intros [H1 H2] t [->|Ht]%elem_of_cons; auto.
Qed.

Lemma known_app sp l1 l2 : known sp (l1 ++ l2) <-> known sp l1 /\ known sp l2.
Proof using. unfold known. setoid_rewrite elem_of_app. naive_solver. Qed.

(** Interning, as a step of a parser. *)
Lemma intern_unless `{MS : !MallocSpec M} sp s : pool_ok sp ->
  unless_oom (sp_intern_string sp s) (fun r => pool_ok r.1 /\ extends sp r.1 /\ known r.1 [s] /\ r.2 = ptr r.1 s).
Proof using.
  intros Hok. destruct (sp_intern_string sp s) as [[sp' p]| | |] eqn:H; cbn.
  - apply (intern_spec sp s sp' p Hok) in H as (H1 & H2 & H3). split_and!; [done|done| |].
    + apply known_cons. split; [by exists p|apply known_nil].
    + symmetry. by apply ptr_found.
  - unfold sp_intern_string, sp_add_cpy_or_nothing, sp_add_cpy in H.
    destruct (sp_str_handle sp s); [done|]. cbv zeta in H.
    destruct (Z.eqb_spec (malloc (pointers sp) (strlen s + 1)) 0); [eauto|done].
  - unfold sp_intern_string, sp_add_cpy_or_nothing, sp_add_cpy in H. repeat case_match; done.
  - unfold sp_intern_string, sp_add_cpy_or_nothing, sp_add_cpy in H. repeat case_match; done.
Qed.

(** C33.  Interning a string in a pool made by interning gives such a pool
    again, which keeps the pointer of every string it had; and in it, and in
    any pool made from it by interning more, a string has this pointer
    exactly when it is the one interned: names can be compared by their
    pointers. *)
Theorem sp_intern_string_correct `{MS : !MallocSpec M} sp s sp' p :
  pool_ok sp -> sp_intern_string sp s = Ok (sp', p) ->
  pool_ok sp' /\ extends sp sp' /\ 0 < p < 2 ^ 47 /\
  forall sp'', pool_ok sp'' -> extends sp' sp'' ->
    sp_intern_string sp'' s = Ok (sp'', p) /\
    forall t q, sp_str_handle sp'' t = Some q -> (q = p <-> t = s).
Proof using.
  intros Hok H. destruct (intern_spec sp s sp' p Hok H) as (Hok' & Hext & Hf).
  split; [done|]. split; [done|]. split; [by eapply find_range|].
  intros sp'' Hok'' Hext''. apply Hext'' in Hf. split.
  { unfold sp_intern_string, sp_add_cpy_or_nothing, sp_str_handle. by rewrite Hf. }
  unfold sp_str_handle. intros t q Ht. split; intros ->; [by eapply pointer_inj|congruence].
Qed.
End pool.

#[global] Arguments known _ _ : simpl never.
#[global] Arguments ptr _ _ : simpl never.
#[global] Arguments extends _ _ : simpl never.

(** An allocator: above every block in use, as long as there is room. *)
Definition next_block (used : list Z) (n : Z) : Z :=
  let p := foldr Z.max 0x1000 used + 0x40 in
  if p <? 2 ^ 47 then p else 0.

Lemma below_max used x : x ∈ used -> x <= foldr Z.max 0x1000 used.
Proof.
  induction used as [|y used IH]; [by intros H%not_elem_of_nil|].
  intros [->|H]%elem_of_cons; cbn; [lia|]. apply IH in H. lia.
Qed.

Lemma max_pos used : 0x1000 <= foldr Z.max 0x1000 used.
Proof. induction used; cbn; lia. Qed.

#[export] Instance next_block_malloc : Malloc := next_block.
#[export] Instance next_block_spec : MallocSpec next_block_malloc.
Proof.
  intros used n. unfold malloc, next_block_malloc, next_block.
  destruct (Z.ltb_spec (foldr Z.max 0x1000 used + 0x40) (2 ^ 47)) as [H|]; [right|by left].
  pose proof (max_pos used) as Hpos.
  split; [|lia]. intros Hin%below_max. lia.
Qed.

(** "icall" and "i32", interned in turn. *)
Definition s_icall : cstring := [105; 99; 97; 108; 108].
Definition s_i32 : cstring := [105; 51; 50].

Lemma sp_intern_string_witness :
  exists sp p, sp_intern_string [(s_i32, 0x2000)] s_icall = Ok (sp, p) /\ pool_ok sp /\
    sp_intern_string sp s_icall = Ok (sp, p) /\ sp_str_handle sp s_i32 <> Some p.
Proof.
  eexists _, _. split; [vm_compute; reflexivity|].
  destruct (sp_intern_string_correct [(s_i32, 0x2000)] s_icall [(s_i32, 0x2000); (s_icall, 0x2040)] 0x2040)
    as (Hok & Hext & _ & H).
  - split; [apply NoDup_singleton|apply NoDup_singleton|].
    intros p Hp. apply list_elem_of_singleton in Hp as ->. cbn [snd]. lia.
  - reflexivity.
  - split; [exact Hok|]. destruct (H _ Hok (reflexivity _)) as [H1 H2]. split; [exact H1|].
    intros Hc. apply H2 in Hc as [Hc _]. by specialize (Hc eq_refl).
Defined.
