(* ===== verification/Vsprintf.v ===== *)
(** * Formatted printing ([runtime/src/vsprintf.c])

    The printing that the error reports and the debugging output of the
    runtime go through: [vsnprintf] and everything below it.  Memory is the
    byte-addressed memory of [Table.v]; the format is the list of its bytes,
    its NUL left out; an argument is an integer or the address of a string
    with the bytes of the string, which the buffer is taken not to overlap.
    The 16-bit fields of [printf_spec] wrap where the code stores into them,
    and so does the signed arithmetic of [skip_atoi] and of the negation in
    [number]. *)

From Stdlib Require String.
From Stdlib Require Import Ascii.
From S2P Require Import Prelude Table StringPool.

Definition ord (c : ascii) : Z := Z.of_N (N_of_ascii c).
Definition bytes_of (s : string) : list Z := ord <$> String.list_ascii_of_string s.

(** ** Output

    [st] is the memory and the place of the next character; a character is
    written while that place is before [limit] ([end] in the code), and the
    place advances in any case. *)
Definition put (limit : Z) (st : mem * Z) (c : Z) : mem * Z :=
  (if st.2 <? limit then write8 st.1 st.2 c else st.1, st.2 + 1).

(** ** Decimal digits *)
Definition put_dec_trunc (buf : list Z) (q : Z) : list Z :=
  let d1 := Z.land (Z.shiftr q 4) 0xf in
  let d2 := Z.land (Z.shiftr q 8) 0xf in
  let d3 := Z.shiftr q 12 in
  let d0 := u32 (6 * (d3 + d2 + d1) + Z.land q 0xf) in
  let q := Z.shiftr (u32 (d0 * 0xcd)) 11 in
  let d0 := u32 (d0 - 10 * q) in
  let buf := buf ++ [u8 (d0 + ord "0")] in
  let d1 := u32 (q + 9 * d3 + 5 * d2 + d1) in
  if negb (d1 =? 0) then
    let q := Z.shiftr (u32 (d1 * 0xcd)) 11 in
    let d1 := u32 (d1 - 10 * q) in
    let buf := buf ++ [u8 (d1 + ord "0")] in
    let d2 := u32 (q + 2 * d2) in
    if negb (d2 =? 0) || negb (d3 =? 0) then
      let q := Z.shiftr (u32 (d2 * 0xd)) 7 in
      let d2 := u32 (d2 - 10 * q) in
      let buf := buf ++ [u8 (d2 + ord "0")] in
      let d3 := u32 (q + 4 * d3) in
      if negb (d3 =? 0) then
        let q := Z.shiftr (u32 (d3 * 0xcd)) 11 in
        let d3 := u32 (d3 - 10 * q) in
        let buf := buf ++ [u8 (d3 + ord "0")] in
        if negb (q =? 0) then buf ++ [u8 (q + ord "0")] else buf
      else buf
    else buf
  else buf.

Definition put_dec_full (buf : list Z) (q : Z) : list Z :=
  let d1 := Z.land (Z.shiftr q 4) 0xf in
  let d2 := Z.land (Z.shiftr q 8) 0xf in
  let d3 := Z.shiftr q 12 in
  let d0 := u32 (6 * (d3 + d2 + d1) + Z.land q 0xf) in
  let q := Z.shiftr (u32 (d0 * 0xcd)) 11 in
  let d0 := u32 (d0 - 10 * q) in
  let buf := buf ++ [u8 (d0 + ord "0")] in
  let d1 := u32 (q + 9 * d3 + 5 * d2 + d1) in
  let q := Z.shiftr (u32 (d1 * 0xcd)) 11 in
  let d1 := u32 (d1 - 10 * q) in
  let buf := buf ++ [u8 (d1 + ord "0")] in
  let d2 := u32 (q + 2 * d2) in
  let q := Z.shiftr (u32 (d2 * 0xd)) 7 in
  let d2 := u32 (d2 - 10 * q) in
  let buf := buf ++ [u8 (d2 + ord "0")] in
  let d3 := u32 (q + 4 * d3) in
  let q := Z.shiftr (u32 (d3 * 0xcd)) 11 in
  let d3 := u32 (d3 - 10 * q) in
  let buf := buf ++ [u8 (d3 + ord "0")] in
  buf ++ [u8 (q + ord "0")].

(** ** Flags and formats *)
Definition ZEROPAD : Z := 1.
Definition SIGN : Z := 2.
Definition PLUS : Z := 4.
Definition SPACE : Z := 8.
Definition LEFT : Z := 16.
Definition SMALL : Z := 32.
Definition SPECIAL : Z := 64.

Definition has (flags f : Z) : bool := negb (Z.land flags f =? 0).

Inductive format_type : Type :=
  | FORMAT_TYPE_NONE | FORMAT_TYPE_WIDTH | FORMAT_TYPE_PRECISION | FORMAT_TYPE_CHAR
  | FORMAT_TYPE_STR | FORMAT_TYPE_PTR | FORMAT_TYPE_PERCENT_CHAR | FORMAT_TYPE_INVALID
  | FORMAT_TYPE_LONG_LONG | FORMAT_TYPE_ULONG | FORMAT_TYPE_LONG | FORMAT_TYPE_UBYTE
  | FORMAT_TYPE_BYTE | FORMAT_TYPE_USHORT | FORMAT_TYPE_SHORT | FORMAT_TYPE_UINT
  | FORMAT_TYPE_INT | FORMAT_TYPE_NRCHARS | FORMAT_TYPE_SIZE_T | FORMAT_TYPE_PTRDIFF.

#[export] Instance format_type_eq_dec : EqDecision format_type.
Proof. solve_decision. Defined.

Record printf_spec : Type := mkSpec {
  type : format_type;
  flags : Z;
  base : Z;
  qualifier : Z;
  field_width : Z;
  precision : Z;
}.

(** [struct printf_spec spec = {0}]. *)
Definition spec0 : printf_spec := mkSpec FORMAT_TYPE_NONE 0 0 0 0 0.

Definition set_type t s := mkSpec t (flags s) (base s) (qualifier s) (field_width s) (precision s).
Definition set_flags f s := mkSpec (type s) (u8 f) (base s) (qualifier s) (field_width s) (precision s).
Definition set_base b s := mkSpec (type s) (flags s) (u8 b) (qualifier s) (field_width s) (precision s).
Definition set_qualifier q s := mkSpec (type s) (flags s) (base s) (u8 q) (field_width s) (precision s).
Definition set_field_width w s := mkSpec (type s) (flags s) (base s) (qualifier s) (s16 w) (precision s).
Definition set_precision p s := mkSpec (type s) (flags s) (base s) (qualifier s) (field_width s) (s16 p).

(** ** Padding *)

(** More turns than a 16-bit counter has values. *)
Definition turns : nat := Z.to_nat 65537.

(** [while (--width >= 0) put c]. *)
Fixpoint pad_loop (fuel : nat) (limit c : Z) (st : mem * Z) (width : Z) : res (mem * Z * Z) :=
  match fuel with
  | O => NoFuel
  | S fuel' =>
    let width := s16 (width - 1) in
    if 0 <=? width then pad_loop fuel' limit c (put limit st c) width else Ok (st, width)
  end.

(** [while (i <= --precision) put '0']. *)
Fixpoint zero_loop (fuel : nat) (limit i : Z) (st : mem * Z) (precision : Z) : res (mem * Z) :=
  match fuel with
  | O => NoFuel
  | S fuel' =>
    let precision := s16 (precision - 1) in
    if i <=? precision then zero_loop fuel' limit i (put limit st (ord "0")) precision else Ok st
  end.

(** [while (len < width--) put ' ']. *)
Fixpoint space_loop (fuel : nat) (limit len : Z) (st : mem * Z) (width : Z) : res (mem * Z * Z) :=
  match fuel with
  | O => NoFuel
  | S fuel' =>
    let width' := s16 (width - 1) in
    if len <? width then space_loop fuel' limit len (put limit st (ord " ")) width' else Ok (st, width')
  end.

(** [while (--width > 0) put ' ']. *)
Fixpoint char_loop (fuel : nat) (limit : Z) (st : mem * Z) (width : Z) : res (mem * Z * Z) :=
  match fuel with
  | O => NoFuel
  | S fuel' =>
    let width := s16 (width - 1) in
    if 0 <? width then char_loop fuel' limit (put limit st (ord " ")) width else Ok (st, width)
  end.

(** ** Numbers *)

(** [digits[x] | locase]. *)
Definition digit (x locase : Z) : Z :=
  Z.lor (char_at (bytes_of "0123456789ABCDEF") (Z.to_nat x)) locase.

(** The digits of a number in base 8 or 16, least significant first. *)
Fixpoint mask_loop (fuel : nat) (mask shift locase num : Z) (tmp : list Z) : res (list Z) :=
  match fuel with
  | O => NoFuel
  | S fuel' =>
    let tmp := tmp ++ [digit (Z.land (u8 num) mask) locase] in
    let num := Z.shiftr num shift in
    if negb (num =? 0) then mask_loop fuel' mask shift locase num tmp else Ok tmp
  end.

(** The sign to print and the width it leaves. *)
Definition sign_of (num : Z) (spec : printf_spec) : Z * Z * printf_spec :=
  if has (flags spec) SIGN then
    if s64 num <? 0 then (ord "-", u64 (- s64 num), set_field_width (field_width spec - 1) spec)
    else if has (flags spec) PLUS then (ord "+", num, set_field_width (field_width spec - 1) spec)
    else if has (flags spec) SPACE then (ord " ", num, set_field_width (field_width spec - 1) spec)
    else (0, num, spec)
  else (0, num, spec).

Section numbers.
(** [do_div] hands [n] to the compiler with the constraint "A", which means
    the pair of registers for a 32-bit target only: here it is one of them,
    and the other, taken as the upper half, has whatever it had.  [rdx n] is
    what it has when [n] is divided. *)
Context (rdx : Z -> Z).

Definition do_div (n base : Z) : res (Z * Z) :=
  let low := n in
  let high := rdx n in
  let upper := if negb (high =? 0) then high mod base else high in
  let dividend := upper * 2 ^ 64 + low in
  if dividend / base <? 2 ^ 64 then Ok (dividend / base, dividend mod base) else Fault.

Fixpoint put_dec_loop (fuel : nat) (buf : list Z) (num : Z) : res (list Z) :=
  match fuel with
  | O => NoFuel
  | S fuel' =>
    if num <? 100000 then Ok (put_dec_trunc buf num)
    else
      '(num, rem) ← do_div num 100000;
      put_dec_loop fuel' (put_dec_full buf (u32 rem)) num
  end.
Definition put_dec (buf : list Z) (num : Z) : res (list Z) := put_dec_loop 64 buf num.

(** The digits of [num], as [number] leaves them in [tmp]. *)
Definition number_digits (num : Z) (spec : printf_spec) (locase : Z) : res (list Z) :=
  if num =? 0 then Ok [ord "0"]
  else if negb (base spec =? 10) then
    let mask := base spec - 1 in
    let shift := if base spec =? 16 then 4 else 3 in
    mask_loop 64 mask shift locase num []
  else put_dec [] num.

Definition number (limit : Z) (st : mem * Z) (num : Z) (spec : printf_spec) : res (mem * Z) :=
  let need_pfx := has (flags spec) SPECIAL && negb (base spec =? 10) in
  let locase := Z.land (flags spec) SMALL in
  let spec := if has (flags spec) LEFT then set_flags (Z.ldiff (flags spec) ZEROPAD) spec else spec in
  let '(sign, num, spec) := sign_of num spec in
  let spec :=
    if need_pfx then
      let spec := set_field_width (field_width spec - 1) spec in
      if base spec =? 16 then set_field_width (field_width spec - 1) spec else spec
    else spec in
  tmp ← number_digits num spec locase;
  if 66 <? Z.of_nat (length tmp) then Fault
  else
    let i := Z.of_nat (length tmp) in
    let spec := if precision spec <? i then set_precision i spec else spec in
    let width := s16 (field_width spec - precision spec) in
    '(st, width) ←
      (if negb (has (flags spec) (Z.lor ZEROPAD LEFT)) then pad_loop turns limit (ord " ") st width
       else Ok (st, width));
    let st := if negb (sign =? 0) then put limit st sign else st in
    let st :=
      if need_pfx then
        let st := put limit st (ord "0") in
        if base spec =? 16 then put limit st (Z.lor (ord "X") locase) else st
      else st in
    '(st, width) ←
      (if negb (has (flags spec) LEFT) then
         let c := if has (flags spec) ZEROPAD then ord "0" else ord " " in
         pad_loop turns limit c st width
       else Ok (st, width));
    st ← zero_loop turns limit i st (precision spec);
    let st := foldl (put limit) st (rev tmp) in
    '(st, _) ← pad_loop turns limit (ord " ") st width;
    Ok st.
End numbers.

(** ** Strings and pointers *)
Inductive va : Type :=
  | VInt (v : Z)
  | VStr (a : Z) (s : cstring).

Definition va_word (v : va) : Z := match v with VInt v => v | VStr a _ => a end.

(** The string an argument points to; the first page counts as NULL. *)
Definition va_string (v : va) : res cstring :=
  if va_word v <? PAGE_SIZE then Ok (bytes_of "(null)")
  else match v with VStr _ s => Ok s | VInt _ => Fault end.

Definition string_ (limit : Z) (st : mem * Z) (s : cstring) (spec : printf_spec) : res (mem * Z) :=
  let len := s32 (strnlen s (u64 (precision spec))) in
  '(st, width) ←
    (if negb (has (flags spec) LEFT) then space_loop turns limit len st (field_width spec)
     else Ok (st, field_width spec));
  let st := foldl (put limit) st (take (Z.to_nat len) s) in
  '(st, _) ← space_loop turns limit len st width;
  Ok st.

Definition pointer (rdx : Z -> Z) (limit : Z) (st : mem * Z) (ptr : Z) (spec : printf_spec)
    : res (mem * Z) :=
  if ptr =? 0 then
    let spec := if field_width spec =? -1 then set_field_width 16 spec else spec in
    string_ limit st (bytes_of "(null)") spec
  else
    let spec := set_flags (Z.lor (flags spec) SMALL) spec in
    let spec :=
      if field_width spec =? -1 then
        let spec := set_field_width 16 spec in
        set_flags (Z.lor (flags spec) ZEROPAD) spec
      else spec in
    let spec := set_base 16 spec in
    number rdx limit st ptr spec.

(** ** Decoding the format *)
Definition isupper (c : Z) : bool := (ord "A" <=? c) && (c <=? ord "Z").
Definition tolower (c : Z) : Z := if isupper c then c - (ord "A" - ord "a") else c.

(** [skip_atoi]: the number at the start, and what follows it. *)
Fixpoint skip_atoi (i : Z) (s : list Z) : Z * list Z :=
  match s with
  | c :: s' => if isdigit c then skip_atoi (s32 (i * 10 + c - ord "0")) s' else (i, s)
  | [] => (i, [])
  end.

Definition cur (fmt : list Z) : Z := char_at fmt 0.

(** The flag a character stands for. *)
Definition flag_of (c : Z) : option Z :=
  if c =? ord "-" then Some LEFT
  else if c =? ord "+" then Some PLUS
  else if c =? ord " " then Some SPACE
  else if c =? ord "#" then Some SPECIAL
  else if c =? ord "0" then Some ZEROPAD
  else None.

(** The characters after the '%' that are flags. *)
Fixpoint flag_loop (fmt : list Z) (flags : Z) : list Z * Z :=
  match fmt with
  | c :: fmt' =>
    match flag_of c with
    | Some f => flag_loop fmt' (Z.lor flags f)
    | None => (fmt, flags)
    end
  | [] => ([], flags)
  end.

(** The text before the next '%'. *)
Fixpoint skip_text (fmt : list Z) : list Z :=
  match fmt with
  | c :: fmt' => if c =? ord "%" then fmt else skip_text fmt'
  | [] => []
  end.

(** The size of an integer conversion, by its qualifier. *)
Definition number_type (spec : printf_spec) : format_type :=
  let q := qualifier spec in
  let sign := has (flags spec) SIGN in
  if q =? ord "L" then FORMAT_TYPE_LONG_LONG
  else if q =? ord "l" then if sign then FORMAT_TYPE_LONG else FORMAT_TYPE_ULONG
  else if tolower q =? ord "z" then FORMAT_TYPE_SIZE_T
  else if q =? ord "t" then FORMAT_TYPE_PTRDIFF
  else if q =? ord "H" then if sign then FORMAT_TYPE_BYTE else FORMAT_TYPE_UBYTE
  else if q =? ord "h" then if sign then FORMAT_TYPE_SHORT else FORMAT_TYPE_USHORT
  else if sign then FORMAT_TYPE_INT else FORMAT_TYPE_UINT.

(** The base and the flags of an integer conversion. *)
Definition number_base (c : Z) (spec : printf_spec) : option printf_spec :=
  if c =? ord "o" then Some (set_base 8 spec)
  else if c =? ord "x" then Some (set_base 16 (set_flags (Z.lor (flags spec) SMALL) spec))
  else if c =? ord "X" then Some (set_base 16 spec)
  else if (c =? ord "d") || (c =? ord "i") then Some (set_flags (Z.lor (flags spec) SIGN) spec)
  else if c =? ord "u" then Some spec
  else None.

(** The qualifier, and the rest of the format. *)
Definition take_qualifier (fmt : list Z) (spec : printf_spec) : list Z * printf_spec :=
  let spec := set_qualifier (-1) spec in
  if (cur fmt =? ord "h") || (tolower (cur fmt) =? ord "l") || (tolower (cur fmt) =? ord "z")
     || (cur fmt =? ord "t") then
    let spec := set_qualifier (cur fmt) spec in
    let fmt := tail fmt in
    if qualifier spec =? cur fmt then
      if qualifier spec =? ord "l" then (tail fmt, set_qualifier (ord "L") spec)
      else if qualifier spec =? ord "h" then (tail fmt, set_qualifier (ord "H") spec)
      else (fmt, spec)
    else (fmt, spec)
  else (fmt, spec).

(** From the label [qualifier] on; the result is what is left of the format. *)
Definition decode_qualifier (fmt : list Z) (spec : printf_spec) : list Z * printf_spec :=
  let '(fmt, spec) := take_qualifier fmt spec in
  let spec := set_base 10 spec in
  let c := cur fmt in
  if c =? ord "c" then (tail fmt, set_type FORMAT_TYPE_CHAR spec)
  else if c =? ord "s" then (tail fmt, set_type FORMAT_TYPE_STR spec)
  else if c =? ord "p" then (fmt, set_type FORMAT_TYPE_PTR spec)
  else if c =? ord "n" then (tail fmt, set_type FORMAT_TYPE_NRCHARS spec)
  else if c =? ord "%" then (tail fmt, set_type FORMAT_TYPE_PERCENT_CHAR spec)
  else
    match number_base c spec with
    | None => (fmt, set_type FORMAT_TYPE_INVALID spec)
    | Some spec => (tail fmt, set_type (number_type spec) spec)
    end.

(** From the label [precision] on. *)
Definition decode_precision (fmt : list Z) (spec : printf_spec) : list Z * printf_spec :=
  let spec := set_precision (-1) spec in
  if cur fmt =? ord "." then
    let fmt := tail fmt in
    if isdigit (cur fmt) then
      let '(n, fmt) := skip_atoi 0 fmt in
      let spec := set_precision n spec in
      decode_qualifier fmt (if precision spec <? 0 then set_precision 0 spec else spec)
    else if cur fmt =? ord "*" then (tail fmt, set_type FORMAT_TYPE_PRECISION spec)
    else decode_qualifier fmt spec
  else decode_qualifier fmt spec.

(** [format_decode]; the count of characters read is the difference in
    length between [fmt] and what is left of it. *)
Definition format_decode (fmt : list Z) (spec : printf_spec) : list Z * printf_spec :=
  match type spec with
  | FORMAT_TYPE_WIDTH =>
    let spec :=
      if field_width spec <? 0 then
        let spec := set_field_width (- field_width spec) spec in
        set_flags (Z.lor (flags spec) LEFT) spec
      else spec in
    decode_precision fmt (set_type FORMAT_TYPE_NONE spec)
  | FORMAT_TYPE_PRECISION =>
    let spec := if precision spec <? 0 then set_precision 0 spec else spec in
    decode_qualifier fmt (set_type FORMAT_TYPE_NONE spec)
  | _ =>
    let spec := set_type FORMAT_TYPE_NONE spec in
    match fmt with
    | c :: fmt' =>
      if negb (c =? ord "%") then (skip_text fmt, spec)
      else
        let '(fmt, f) := flag_loop fmt' 0 in
        let spec := set_field_width (-1) (set_flags f spec) in
        if isdigit (cur fmt) then
          let '(n, fmt) := skip_atoi 0 fmt in
          decode_precision fmt (set_field_width n spec)
        else if cur fmt =? ord "*" then (tail fmt, set_type FORMAT_TYPE_WIDTH spec)
        else decode_precision fmt spec
    | [] => ([], spec)
    end
  end.

(** ** vsnprintf *)
Fixpoint skip_alnum (fmt : list Z) : list Z :=
  match fmt with
  | c :: fmt' => if isalnum c then skip_alnum fmt' else fmt
  | [] => []
  end.

(** [va_arg]: the next argument. *)
Definition next_arg (args : list va) : res (va * list va) :=
  match args with
  | a :: args' => Ok (a, args')
  | [] => Fault
  end.

(** The value an integer conversion prints, widened to [num]. *)
Definition int_arg (t : format_type) (v : Z) : Z :=
  match t with
  | FORMAT_TYPE_LONG_LONG | FORMAT_TYPE_ULONG | FORMAT_TYPE_LONG
  | FORMAT_TYPE_SIZE_T | FORMAT_TYPE_PTRDIFF => u64 v
  | FORMAT_TYPE_UBYTE => u8 v
  | FORMAT_TYPE_BYTE => u64 (s8 v)
  | FORMAT_TYPE_USHORT => u16 v
  | FORMAT_TYPE_SHORT => u64 (s16 v)
  | FORMAT_TYPE_INT => u64 (s32 v)
  | _ => u32 v
  end.

Section printing.
Context (rdx : Z -> Z).

(** One turn of the loop of [vsnprintf]: [read] is the text the decoder
    passed, [fmt] what is left of the format after it. *)
Definition print_item (buf limit : Z) (read fmt : list Z) (st : mem * Z) (args : list va)
    (spec : printf_spec) : res (list Z * (mem * Z) * list va * printf_spec) :=
  match type spec with
  | FORMAT_TYPE_NONE =>
    Ok (fmt, foldl (put limit) st read, args, spec)
  | FORMAT_TYPE_WIDTH =>
    '(a, args) ← next_arg args;
    Ok (fmt, st, args, set_field_width (s32 (va_word a)) spec)
  | FORMAT_TYPE_PRECISION =>
    '(a, args) ← next_arg args;
    Ok (fmt, st, args, set_precision (s32 (va_word a)) spec)
  | FORMAT_TYPE_CHAR =>
    '(st, width) ← (if negb (has (flags spec) LEFT) then char_loop turns limit st (field_width spec)
                    else Ok (st, field_width spec));
    '(a, args) ← next_arg args;
    let st := put limit st (u8 (va_word a)) in
    '(st, width) ← char_loop turns limit st width;
    Ok (fmt, st, args, set_field_width width spec)
  | FORMAT_TYPE_STR =>
    '(a, args) ← next_arg args;
    s ← va_string a;
    st ← string_ limit st s spec;
    Ok (fmt, st, args, spec)
  | FORMAT_TYPE_PTR =>
    '(a, args) ← next_arg args;
    st ← pointer rdx limit st (va_word a) spec;
    Ok (skip_alnum fmt, st, args, spec)
  | FORMAT_TYPE_PERCENT_CHAR | FORMAT_TYPE_INVALID =>
    Ok (fmt, put limit st (ord "%"), args, spec)
  | FORMAT_TYPE_NRCHARS =>
    '(a, args) ← next_arg args;
    let n := if (qualifier spec =? ord "l") || (tolower (qualifier spec) =? ord "z") then 8%nat else 4%nat in
    Ok (fmt, (write_le n st.1 (va_word a) (st.2 - buf), st.2), args, spec)
  | t =>
    '(a, args) ← next_arg args;
    st ← number rdx limit st (int_arg t (va_word a)) spec;
    Ok (fmt, st, args, spec)
  end.

Fixpoint print_loop (fuel : nat) (buf limit : Z) (fmt : list Z) (st : mem * Z) (args : list va)
    (spec : printf_spec) : res (mem * Z) :=
  match fuel with
  | O => NoFuel
  | S fuel' =>
    if cur fmt =? 0 then Ok st
    else
      let '(rest, spec) := format_decode fmt spec in
      let read := take (length fmt - length rest) fmt in
      '(fmt, st, args, spec) ← print_item buf limit read rest st args spec;
      print_loop fuel' buf limit fmt st args spec
  end.

(** [vsnprintf], with the memory it leaves. *)
Definition vsnprintf (m : mem) (buf size : Z) (fmt : list Z) (args : list va) : res (mem * Z) :=
  if s32 size <? 0 then Ok (m, 0)
  else
    let limit := u64 (buf + size) in
    let '(limit, size) := if limit <? buf then (2 ^ 64 - 1, 2 ^ 64 - 1 - buf) else (limit, size) in
    '(m, str) ← print_loop (2 * length fmt + 2) buf limit fmt (m, buf) args spec0;
    let m :=
      if 0 <? size then
        if str <? limit then write8 m str 0 else write8 m (limit - 1) 0
      else m in
    Ok (m, s32 (str - buf)).

Definition vscnprintf (m : mem) (buf size : Z) (fmt : list Z) (args : list va) : res (mem * Z) :=
  '(m, i) ← vsnprintf m buf size fmt args;
  if u64 i <? size then Ok (m, i)
  else if negb (size =? 0) then Ok (m, s32 (size - 1))
  else Ok (m, 0).

Definition INT_MAX : Z := 0x7fffffff.

Definition vsprintf (m : mem) (buf : Z) (fmt : list Z) (args : list va) : res (mem * Z) :=
  vsnprintf m buf INT_MAX fmt args.

(** The variadic forms, the arguments being the list. *)
Definition snprintf := vsnprintf.
Definition scnprintf := vscnprintf.
Definition sprintf (m : mem) (buf : Z) (fmt : list Z) (args : list va) : res (mem * Z) :=
  vsnprintf m buf INT_MAX fmt args.

(** The buffer of [dprintf] holds [PAGE_SIZE * 4] bytes; the result is what
    it writes: the buffer and the number of its bytes that [write] is given. *)
Definition dprintf (m : mem) (buf : Z) (fmt : list Z) (args : list va) : res (mem * Z) :=
  let m := write8 m (buf + (PAGE_SIZE * 4 - 1)) 0 in
  '(m, i) ← vsnprintf m buf (PAGE_SIZE * 4 - 1) fmt args;
  Ok (m, i).

(** [report_error] up to the call of [write] ([error.c]). *)
Definition report_error (m : mem) (buf : Z) (fmt : list Z) (args : list va) : res (mem * Z) :=
  let m := write8 m (buf + (PAGE_SIZE - 1)) 0 in
  '(m, i) ← vsnprintf m buf (PAGE_SIZE - 1) fmt args;
  Ok (m, i).
End printing.
