(* ===== verification/VsprintfText.v ===== *)
(** * What is printed

    The text that the loops of [vsnprintf] put, as a list of characters and
    without a buffer: the step between the code and the texts of
    [VsprintfSpec].  The text of a number is made of the fields the manual of
    [printf] names (padding, sign, prefix, zeros, digits); the digits are the
    ones the code computes when [do_div] divides as it means to. *)

From Stdlib Require Import Ascii.
From S2P Require Import Prelude Table StringPool Vsprintf.

(** ** Padding

    How many characters a countdown of a 16-bit width prints, and what it
    leaves: the least width wraps and prints [2^15] characters. *)
Definition pads (w : Z) : Z := if w =? -32768 then 32768 else Z.max 0 w.
Definition pad_end (w : Z) : Z := if (w =? -32768) || (0 <=? w) then -1 else w - 1.
Definition fill (n c : Z) : list Z := replicate (Z.to_nat n) c.

(** [while (len < width--)]. *)
Definition space_end (len w : Z) : Z := if len <? w then s16 (len - 1) else s16 (w - 1).

(** [while (--width > 0)]. *)
Definition char_pads (w : Z) : Z := if w =? -32768 then 32767 else Z.max 0 (w - 1).
Definition char_end (w : Z) : Z := if (w =? -32768) || (0 <? w) then 0 else w - 1.

(** ** Numbers *)
Definition exact : Z -> Z := fun _ => 0.

(** The text of a number with the digits [tmp], least significant first. *)
Definition number_text (num : Z) (spec : printf_spec) (tmp : list Z) : list Z :=
  let need_pfx := has (flags spec) SPECIAL && negb (base spec =? 10) in
  let locase := Z.land (flags spec) SMALL in
  let spec := if has (flags spec) LEFT then set_flags (Z.ldiff (flags spec) ZEROPAD) spec else spec in
  let '(sign, num, spec) := sign_of num spec in
  let spec :=
    if need_pfx then
      let spec := set_field_width (field_width spec - 1) spec in
      if base spec =? 16 then set_field_width (field_width spec - 1) spec else spec
    else spec in
  let i := Z.of_nat (length tmp) in
  let prec := Z.max i (precision spec) in
  let w0 := s16 (field_width spec - prec) in
  let leading := negb (has (flags spec) (Z.lor ZEROPAD LEFT)) in
  let w1 := if leading then pad_end w0 else w0 in
  let left := has (flags spec) LEFT in
  let w2 := if left then w1 else pad_end w1 in
  fill (if leading then pads w0 else 0) (ord " ") ++
  (if sign =? 0 then [] else [sign]) ++
  (if need_pfx then ord "0" :: (if base spec =? 16 then [Z.lor (ord "X") locase] else []) else []) ++
  fill (if left then 0 else pads w1) (if has (flags spec) ZEROPAD then ord "0" else ord " ") ++
  fill (prec - i) (ord "0") ++
  rev tmp ++
  fill (pads w2) (ord " ").

(** The digits and then the text. *)
Definition number_out (num : Z) (spec : printf_spec) : res (list Z) :=
  let locase := Z.land (flags spec) SMALL in
  let spec' := if has (flags spec) LEFT then set_flags (Z.ldiff (flags spec) ZEROPAD) spec else spec in
  tmp ← number_digits exact (sign_of num spec').1.2 spec' locase;
  Ok (number_text num spec tmp).

(** ** Strings *)
Definition string_text (s : cstring) (spec : printf_spec) : list Z :=
  let len := s32 (strnlen s (u64 (precision spec))) in
  let left := has (flags spec) LEFT in
  let w0 := field_width spec in
  let w1 := if left then w0 else space_end len w0 in
  fill (if left then 0 else w0 - len) (ord " ") ++ take (Z.to_nat len) s ++ fill (w1 - len) (ord " ").

Definition pointer_out (ptr : Z) (spec : printf_spec) : res (list Z) :=
  if ptr =? 0 then
    Ok (string_text (bytes_of "(null)")
      (if field_width spec =? -1 then set_field_width 16 spec else spec))
  else
    let spec := set_flags (Z.lor (flags spec) SMALL) spec in
    let spec :=
      if field_width spec =? -1 then
        set_flags (Z.lor (flags spec) ZEROPAD) (set_field_width 16 spec)
      else spec in
    number_out ptr (set_base 16 spec).

(** ** Conversions

    The text of one item, with what the loop goes on with.  %n prints
    nothing but writes elsewhere: it has no text. *)
Definition item_text (read fmt : list Z) (args : list va) (spec : printf_spec)
    : res (list Z * (list Z * list va * printf_spec)) :=
  match type spec with
  | FORMAT_TYPE_NONE => Ok (read, (fmt, args, spec))
  | FORMAT_TYPE_WIDTH =>
    '(a, args) ← next_arg args; Ok ([], (fmt, args, set_field_width (s32 (va_word a)) spec))
  | FORMAT_TYPE_PRECISION =>
    '(a, args) ← next_arg args; Ok ([], (fmt, args, set_precision (s32 (va_word a)) spec))
  | FORMAT_TYPE_CHAR =>
    let left := has (flags spec) LEFT in
    let w0 := field_width spec in
    let w1 := if left then w0 else char_end w0 in
    '(a, args) ← next_arg args;
    Ok (fill (if left then 0 else char_pads w0) (ord " ") ++ [u8 (va_word a)] ++
        fill (char_pads w1) (ord " "), (fmt, args, set_field_width (char_end w1) spec))
  | FORMAT_TYPE_STR =>
    '(a, args) ← next_arg args;
    s ← va_string a;
    Ok (string_text s spec, (fmt, args, spec))
  | FORMAT_TYPE_PTR =>
    '(a, args) ← next_arg args;
    text ← pointer_out (va_word a) spec;
    Ok (text, (skip_alnum fmt, args, spec))
  | FORMAT_TYPE_PERCENT_CHAR | FORMAT_TYPE_INVALID => Ok ([ord "%"], (fmt, args, spec))
  | FORMAT_TYPE_NRCHARS => Fault
  | t =>
    '(a, args) ← next_arg args;
    text ← number_out (int_arg t (va_word a)) spec;
    Ok (text, (fmt, args, spec))
  end.

Fixpoint render_loop (fuel : nat) (fmt : list Z) (args : list va) (spec : printf_spec) : res (list Z) :=
  match fuel with
  | O => NoFuel
  | S fuel' =>
    if cur fmt =? 0 then Ok []
    else
      let '(rest, spec) := format_decode fmt spec in
      let read := take (length fmt - length rest) fmt in
      '(text, (fmt, args, spec)) ← item_text read rest args spec;
      more ← render_loop fuel' fmt args spec;
      Ok (text ++ more)
  end.

(** The text of a format, by the decoder of the code. *)
Definition render (fmt : list Z) (args : list va) : res (list Z) :=
  render_loop (2 * length fmt + 2) fmt args spec0.

(** ** Numbers in a base, least significant digit first *)
Fixpoint dec_val (l : list Z) : Z :=
  match l with
  | [] => 0
  | d :: l' => (d - ord "0") + 10 * dec_val l'
  end.

Definition is_digit (d : Z) : Prop := ord "0" <= d <= ord "9".

(** ** Decimal digits *)
Lemma dec_val_app l1 l2 : dec_val (l1 ++ l2) = dec_val l1 + 10 ^ Z.of_nat (length l1) * dec_val l2.
Proof.
  induction l1 as [|d l1 IH]; cbn [dec_val app length]; [lia|].
  rewrite IH, Nat2Z.inj_succ, Z.pow_succ_r by lia. lia.
Qed.

Lemma put_dec_trunc_app buf q : put_dec_trunc buf q = buf ++ put_dec_trunc [] q.
Proof.
  unfold put_dec_trunc. cbv zeta. cbn [app].
  repeat match goal with
  | |- context [if ?b then _ else _] => destruct b
  end; by rewrite <- ?app_assoc.
Qed.

Lemma put_dec_full_app buf q : put_dec_full buf q = buf ++ put_dec_full [] q.
Proof. unfold put_dec_full. cbv zeta. cbn [app]. by rewrite <- !app_assoc. Qed.

(** The multiplications that stand for divisions by ten, on their ranges. *)
Lemma div10_cd x : 0 <= x < 350 -> Z.shiftr (u32 (x * 0xcd)) 11 = x / 10.
Proof. intros Hx. rewrite u32_small, Z.shiftr_div_pow2 by lia. change (2 ^ 11) with 2048. div_lia. Qed.

Lemma div10_d x : 0 <= x < 69 -> Z.shiftr (u32 (x * 0xd)) 7 = x / 10.
Proof. intros Hx. rewrite u32_small, Z.shiftr_div_pow2 by lia. change (2 ^ 7) with 128. div_lia. Qed.

Lemma digit_of x : 0 <= x < 350 -> u8 (u32 (x - 10 * (x / 10)) + ord "0") = ord "0" + x mod 10.
Proof.
  intros Hx. change (ord "0") with 48. replace (x - 10 * (x / 10)) with (x mod 10) by div_lia.
  pose proof (Z.mod_pos_bound x 10 ltac:(lia)). rewrite u32_small, u8_small by lia. lia.
Qed.

Lemma is_digit_of x : 0 <= x <= 9 -> is_digit (ord "0" + x).
Proof. unfold is_digit. change (ord "9") with 57. change (ord "0") with 48. lia. Qed.

(** From the hexadecimal digits of a number to the decimal ones: what is
    divided by ten at each step. *)
Section digits.
Context (q : Z) (Hq : 0 <= q < 100000).
Let h1 := q / 16 mod 16.
Let h2 := q / 256 mod 16.
Let h3 := q / 4096.
Let x0 := 6 * (h3 + h2 + h1) + q mod 16.
Let x1 := x0 / 10 + 9 * h3 + 5 * h2 + h1.
Let x2 := x1 / 10 + 2 * h2.
Let x3 := x2 / 10 + 4 * h3.

Lemma digit_chain :
  q = x0 mod 10 + 10 * (x1 mod 10 + 10 * (x2 mod 10 + 10 * (x3 mod 10 + 10 * (x3 / 10)))) /\
  0 <= x0 < 350 /\ 0 <= x1 < 350 /\ 0 <= x2 < 69 /\ 0 <= x3 < 100 /\ 0 <= h1 /\ 0 <= h2 /\ 0 <= h3.
Proof using Hq.
  assert (Hh : q = q mod 16 + 16 * h1 + 256 * h2 + 4096 * h3) by (unfold h1, h2, h3; div_lia).
  assert (B : 0 <= q mod 16 < 16 /\ 0 <= h1 < 16 /\ 0 <= h2 < 16 /\ 0 <= h3 < 25).
  { unfold h1, h2, h3. repeat split; div_lia. }
  clearbody h1 h2 h3.
  assert (E0 : q = x0 + 10 * (h1 + 25 * h2 + 409 * h3)) by (unfold x0; lia).
  assert (B0 : 0 <= x0 < 350) by (unfold x0; lia). clearbody x0.
  assert (E1 : q = x0 mod 10 + 10 * (x1 + 20 * h2 + 400 * h3)) by (unfold x1; div_lia).
  assert (B1 : 0 <= x1 < 350) by (unfold x1; div_lia).
  assert (B2 : 0 <= x1 / 10 < 35) by div_lia. clearbody x1.
  assert (E2 : q = x0 mod 10 + 10 * (x1 mod 10 + 10 * (x2 + 40 * h3))) by (unfold x2; div_lia).
  assert (B2' : 0 <= x2 < 69) by (unfold x2; lia). clearbody x2.
  assert (E3 : q = x0 mod 10 + 10 * (x1 mod 10 + 10 * (x2 mod 10 + 10 * x3))) by (unfold x3; div_lia).
  assert (B3 : 0 <= x3) by (unfold x3; div_lia). clearbody x3.
  pose proof (Z.mod_pos_bound x0 10 ltac:(lia)). pose proof (Z.mod_pos_bound x1 10 ltac:(lia)).
  pose proof (Z.mod_pos_bound x2 10 ltac:(lia)).
  rewrite <- (Z.add_comm (10 * (x3 / 10))), <- Z.div_mod by lia. lia.
Qed.

(** The hexadecimal digits as the code takes them. *)
Lemma hex_digits : Z.land (Z.shiftr q 4) 15 = h1 /\ Z.land (Z.shiftr q 8) 15 = h2 /\
  Z.shiftr q 12 = h3 /\ u32 (6 * (h3 + h2 + h1) + Z.land q 15) = x0.
Proof using Hq.
  destruct digit_chain as (_ & B0 & _). change 15 with (Z.ones 4).
  rewrite !Z.land_ones, !Z.shiftr_div_pow2 by lia. change (2 ^ 4) with 16. change (2 ^ 8) with 256.
  change (2 ^ 12) with 4096. fold h1 h2 h3. fold x0. rewrite u32_small by lia. done.
Qed.

Lemma dec_steps :
  Z.shiftr (u32 (x0 * 205)) 11 = x0 / 10 /\ u32 (x0 / 10 + 9 * h3 + 5 * h2 + h1) = x1 /\
  Z.shiftr (u32 (x1 * 205)) 11 = x1 / 10 /\ u32 (x1 / 10 + 2 * h2) = x2 /\
  Z.shiftr (u32 (x2 * 13)) 7 = x2 / 10 /\ u32 (x2 / 10 + 4 * h3) = x3 /\
  Z.shiftr (u32 (x3 * 205)) 11 = x3 / 10 /\ u8 (x3 / 10 + ord "0") = ord "0" + x3 / 10.
Proof using Hq.
  destruct digit_chain as (_ & B0 & B1 & B2 & B3 & B4 & B5 & B6). fold x1 x2 x3.
  rewrite !(div10_cd), div10_d by lia. rewrite !u32_small by lia.
  change (ord "0") with 48. rewrite u8_small by div_lia. repeat split; lia.
Qed.

Lemma put_dec_full_eq : put_dec_full [] q =
  [ord "0" + x0 mod 10; ord "0" + x1 mod 10; ord "0" + x2 mod 10; ord "0" + x3 mod 10; ord "0" + x3 / 10].
Proof using Hq.
  destruct digit_chain as (_ & B0 & B1 & B2 & B3 & B4 & B5 & B6).
  destruct hex_digits as (E1 & E2 & E3 & E4). destruct dec_steps as (S1 & S2 & S3 & S4 & S5 & S6 & S7 & S8).
  unfold put_dec_full. rewrite E1, E2, E3, E4, S1, S2, S3, S4, S5, S6, S7, S8.
  by rewrite !digit_of by lia.
Qed.

Lemma put_dec_trunc_eq : put_dec_trunc [] q = ord "0" + x0 mod 10 ::
  if x1 =? 0 then [] else ord "0" + x1 mod 10 ::
  if (x2 =? 0) && (h3 =? 0) then [] else ord "0" + x2 mod 10 ::
  if x3 =? 0 then [] else ord "0" + x3 mod 10 ::
  if x3 / 10 =? 0 then [] else [ord "0" + x3 / 10].
Proof using Hq.
  destruct digit_chain as (_ & B0 & B1 & B2 & B3 & B4 & B5 & B6).
  destruct hex_digits as (E1 & E2 & E3 & E4). destruct dec_steps as (S1 & S2 & S3 & S4 & S5 & S6 & S7 & S8).
  unfold put_dec_trunc. rewrite E1, E2, E3, E4, S1, S2, S3, S4, S5, S6, S7, S8.
  rewrite !digit_of by lia. rewrite <- negb_andb.
  destruct (x1 =? 0), ((x2 =? 0) && (h3 =? 0)), (x3 =? 0), (x3 / 10 =? 0); done.
Qed.

Lemma put_dec_full_spec :
  let l := put_dec_full [] q in dec_val l = q /\ Forall is_digit l /\ length l = 5%nat.
Proof using Hq.
  destruct digit_chain as (E & B0 & B1 & B2 & B3 & B4 & B5 & B6). rewrite put_dec_full_eq.
  cbn [dec_val length]. split; [lia|]. split; [|done].
  repeat constructor; apply is_digit_of; div_lia.
Qed.

(** Where the shorter conversion stops, the digits left are zero and the last
    one is not. *)
Lemma trunc_stops :
  (x1 = 0 -> q = x0 mod 10) /\
  (x1 <> 0 -> x2 = 0 -> h3 = 0 -> q = x0 mod 10 + 10 * (x1 mod 10) /\ x1 mod 10 <> 0) /\
  ((x2 <> 0 \/ h3 <> 0) -> x3 = 0 ->
    q = x0 mod 10 + 10 * (x1 mod 10 + 10 * (x2 mod 10)) /\ x2 mod 10 <> 0) /\
  (x3 <> 0 -> x3 / 10 = 0 -> x3 mod 10 <> 0).
Proof using Hq.
  destruct digit_chain as (E & B0 & B1 & B2 & B3 & B4 & B5 & B6).
  assert (C1 : x1 = x0 / 10 + 9 * h3 + 5 * h2 + h1) by done.
  assert (C2 : x2 = x1 / 10 + 2 * h2) by done. assert (C3 : x3 = x2 / 10 + 4 * h3) by done.
  clearbody x0 x1 x2 x3 h1 h2 h3. pose proof (Z.div_pos x0 10 ltac:(lia) ltac:(lia)).
  split; [|split; [|split]]; intros; try split; div_lia.
Qed.

Lemma put_dec_trunc_spec :
  let l := put_dec_trunc [] q in
  dec_val l = q /\ Forall is_digit l /\ (0 < length l <= 5)%nat /\ (q <> 0 -> List.last l 0 <> ord "0").
Proof using Hq.
  destruct digit_chain as (E & B0 & B1 & B2 & B3 & B4 & B5 & B6). rewrite put_dec_trunc_eq.
  destruct trunc_stops as (T1 & T2 & T3 & T4).
  assert (D : forall x, 0 <= x -> is_digit (ord "0" + x mod 10)) by (intros; apply is_digit_of; div_lia).
  assert (D4 : is_digit (ord "0" + x3 / 10)) by (apply is_digit_of; div_lia).
  destruct (Z.eqb_spec x1 0) as [C1|C1]; [|destruct (Z.eqb_spec x2 0) as [C2|C2];
    [destruct (Z.eqb_spec h3 0) as [C3|C3]|]; cbn [andb];
    try (destruct (Z.eqb_spec x3 0) as [C4|C4]; [|destruct (Z.eqb_spec (x3 / 10) 0) as [C5|C5]])].
  all: cbn [dec_val length List.last]; split; [lia|]; split; [rewrite ?Forall_cons, Forall_nil; by auto 10 with lia|]; split; [lia|]; lia.
Qed.
End digits.

(** ** Whole numbers *)
Lemma do_div_exact n b : 0 <= n < 2 ^ 64 -> 0 < b -> do_div exact n b = Ok (n / b, n mod b).
Proof.
  intros Hn Hb. unfold do_div, exact. cbn [Z.eqb negb]. rewrite Z.mul_0_l, Z.add_0_l.
  rewrite (proj2 (Z.ltb_lt _ _)); [done|].
  pose proof (Z.div_le_upper_bound n b n Hb ltac:(nia)). lia.
Qed.

Lemma last_app {A} (l1 l2 : list A) d : l2 <> [] -> List.last (l1 ++ l2) d = List.last l2 d.
Proof.
  intros H. induction l1 as [|a l1 IH]; [done|]. cbn [app].
  destruct (l1 ++ l2) eqn:E; [|exact IH]. apply app_eq_nil in E as [_ ->]. done.
Qed.

(** [put_dec] writes the decimal digits, when the divisions are exact. *)
Lemma put_dec_loop_exact fuel k buf n : 0 <= n < 2 ^ 64 -> n < 100000 ^ Z.of_nat (S k) ->
  (k < fuel)%nat ->
  exists l, put_dec_loop exact fuel buf n = Ok (buf ++ l) /\ dec_val l = n /\ Forall is_digit l /\
    (0 < length l <= 5 * S k)%nat /\ (n <> 0 -> List.last l 0 <> ord "0").
Proof.
  revert fuel buf n. induction k as [|k IH]; intros [|fuel] buf n Hn Hk Hf; try lia;
    cbn [put_dec_loop]; destruct (Z.ltb_spec n 100000) as [Hlt|Hge].
  1, 3: destruct (put_dec_trunc_spec n ltac:(lia)) as (H1 & H2 & H3 & H4);
    exists (put_dec_trunc [] n); rewrite put_dec_trunc_app; split_and!; (done || lia).
  { cbn in Hk. lia. }
  rewrite do_div_exact by lia. cbn [mbind res_bind].
  rewrite u32_small by div_lia. rewrite put_dec_full_app.
  destruct (put_dec_full_spec (n mod 100000) ltac:(div_lia)) as (H1 & H2 & H3).
  rewrite (Nat2Z.inj_succ (S k)), Z.pow_succ_r in Hk by lia.
  destruct (IH fuel (buf ++ put_dec_full [] (n mod 100000)) (n / 100000)) as (l & -> & L1 & L2 & L3 & L4).
  { div_lia. } { apply Z.div_lt_upper_bound; lia. } { lia. }
  exists (put_dec_full [] (n mod 100000) ++ l). rewrite <- app_assoc. split; [done|].
  rewrite dec_val_app, H1, H3, L1. split; [|split; [|split]].
  - change (10 ^ Z.of_nat 5) with 100000. div_lia.
  - by apply Forall_app.
  - rewrite length_app, H3. lia.
  - intros _. rewrite last_app by (intros ->; cbn in L3; lia). apply L4. div_lia.
Qed.

Lemma put_dec_exact n : 0 <= n < 2 ^ 64 ->
  exists l, put_dec exact [] n = Ok l /\ dec_val l = n /\ Forall is_digit l /\
    (0 < length l <= 20)%nat /\ (n <> 0 -> List.last l 0 <> ord "0").
Proof. intros Hn. apply (put_dec_loop_exact 64 3 [] n Hn); lia. Qed.

(** The value of a digit in a base up to 16. *)
Definition digit_val (c : Z) : Z :=
  if c <=? ord "9" then c - ord "0" else if c <=? ord "F" then c - ord "A" + 10 else c - ord "a" + 10.

Fixpoint base_val (b : Z) (l : list Z) : Z :=
  match l with
  | [] => 0
  | d :: l' => digit_val d + b * base_val b l'
  end.

Lemma base_val_dec l : Forall is_digit l -> base_val 10 l = dec_val l.
Proof.
  induction 1 as [|d l Hd _ IH]; cbn [base_val dec_val]; [done|]. rewrite IH. f_equal.
  unfold digit_val. destruct Hd as [_ Hd]. by rewrite (proj2 (Z.leb_le _ _)).
Qed.

Lemma base_val_app b l1 l2 : 0 <= b ->
  base_val b (l1 ++ l2) = base_val b l1 + b ^ Z.of_nat (length l1) * base_val b l2.
Proof.
  intros Hb. induction l1 as [|d l1 IH]; cbn [base_val app length]; [lia|].
  rewrite IH, Nat2Z.inj_succ, Z.pow_succ_r by lia. lia.
Qed.

Lemma digit_val_digit x locase : 0 <= x < 16 -> locase = 0 \/ locase = SMALL ->
  digit_val (digit x locase) = x.
Proof.
  intros Hx Hl. assert (H : forallb (fun x => (digit_val (digit x 0) =? x) && (digit_val (digit x SMALL) =? x))
    (seqZ 0 16) = true) by (by vm_compute).
  assert (Hin : x ∈ seqZ 0 16) by (apply elem_of_seqZ; lia). apply list_elem_of_In in Hin.
  rewrite forallb_forall in H. specialize (H x Hin).
  destruct Hl as [->| ->]; bool_lia.
Qed.

(** The digit the mask takes, and the base. *)
Lemma low_digit shift num : 1 <= shift <= 4 ->
  Z.land (u8 num) (2 ^ shift - 1) = num mod 2 ^ shift /\ 0 < 2 ^ shift <= 16.
Proof.
  intros Hs. split.
  - rewrite Z.sub_1_r, <- Z.ones_equiv, Z.land_ones by lia. unfold u8, wrap.
    replace 8 with (shift + (8 - shift)) by lia. rewrite Z.pow_add_r by lia.
    rewrite Z.rem_mul_r by (try apply Z.pow_nonzero; try apply Z.pow_pos_nonneg; lia).
    by rewrite Z.mul_comm, Z_mod_plus_full, Z.mod_mod by (apply Z.pow_nonzero; lia).
  - split; [apply Z.pow_pos_nonneg; lia|]. change 16 with (2 ^ 4). apply Z.pow_le_mono_r; lia.
Qed.

(** The loop for bases 8 and 16, the base being [2^shift]. *)
Lemma mask_loop_exact shift locase : 1 <= shift <= 4 -> locase = 0 \/ locase = SMALL ->
  forall k fuel num tmp, 0 <= num < 2 ^ (shift * Z.of_nat (S k)) -> (k < fuel)%nat ->
  exists l, mask_loop fuel (2 ^ shift - 1) shift locase num tmp = Ok (tmp ++ l) /\
    base_val (2 ^ shift) l = num /\ (0 < length l <= S k)%nat.
Proof.
  intros Hs Hl. induction k as [|k IH]; intros [|fuel] num tmp Hn Hf; try lia; cbn [mask_loop];
    rewrite Z.shiftr_div_pow2 by lia; destruct (low_digit shift num Hs) as [-> Hp];
    pose proof (Z.mod_pos_bound num (2 ^ shift) ltac:(lia)) as Hm;
    pose proof (Z.div_mod num (2 ^ shift) ltac:(lia)) as Hdm;
    pose proof (digit_val_digit (num mod 2 ^ shift) locase ltac:(lia) Hl) as Hv;
    destruct (Z.eqb_spec (num / 2 ^ shift) 0) as [E|E]; cbn [negb].
  1, 3: eexists [_]; cbn [base_val length]; split; [done|]; rewrite Hv; lia.
  { exfalso. apply E. apply Z.div_small. rewrite Z.mul_1_r in Hn. lia. }
  rewrite (Nat2Z.inj_succ (S k)), Z.mul_succ_r, Z.pow_add_r in Hn by lia.
  destruct (IH fuel (num / 2 ^ shift) (tmp ++ [digit (num mod 2 ^ shift) locase])) as (l & -> & L1 & L2).
  { split; [apply Z.div_pos; lia|apply Z.div_lt_upper_bound; lia]. } { lia. }
  exists (digit (num mod 2 ^ shift) locase :: l). rewrite <- app_assoc. split; [done|].
  cbn [base_val length]. rewrite Hv, L1. lia.
Qed.

Definition base_ok (b : Z) : Prop := b = 8 \/ b = 10 \/ b = 16.

(** [number] computes the digits of the number in the base asked for. *)
Lemma number_digits_exact num spec locase : 0 <= num < 2 ^ 64 -> base_ok (base spec) ->
  locase = 0 \/ locase = SMALL ->
  exists l, number_digits exact num spec locase = Ok l /\ base_val (base spec) l = num /\
    (0 < length l <= 22)%nat.
Proof.
  intros Hn Hb Hl. unfold number_digits. destruct (Z.eqb_spec num 0) as [->|Hne].
  { eexists. split; [done|]. cbn [base_val length]. change (digit_val (ord "0")) with 0. lia. }
  destruct Hb as [E|[E|E]]; rewrite E; cbn [Z.eqb Pos.eqb negb].
  - destruct (mask_loop_exact 3 locase ltac:(lia) Hl 21 64 num []) as (l & Hrun & L1 & L2);
      [change (3 * Z.of_nat 22) with 66; lia|lia|]. exists l. split; [exact Hrun|]. by split.
  - destruct (put_dec_exact num Hn) as (l & -> & L1 & L2 & L3 & _). exists l.
    rewrite base_val_dec by done. split; [done|]. split; [done|lia].
  - destruct (mask_loop_exact 4 locase ltac:(lia) Hl 15 64 num []) as (l & Hrun & L1 & L2);
      [change (4 * Z.of_nat 16) with 64; lia|lia|]. exists l. split; [exact Hrun|]. split; [done|lia].
Qed.
