(* ===== verification/VsprintfFacts.v ===== *)
(** * vsnprintf prints the text

    The loops of the code against the texts of [VsprintfText]: every
    character goes through [put], so that a run is the text put from the
    place reached, and [vsnprintf] leaves the text, cut to the buffer and
    ended by a NUL, and touches nothing else. *)

From Stdlib Require Import Ascii.
From S2P Require Import Prelude Table StringPool Vsprintf VsprintfText.

Notation puts limit := (foldl (put limit)).

(** ** The counters *)
Definition short (w : Z) : Prop := -32768 <= w <= 32767.

Lemma s16_short x : short (s16 x).
Proof. unfold short, s16, swrap. pose proof (Z.mod_pos_bound (x + 2 ^ (16 - 1)) (2 ^ 16) ltac:(lia)). lia. Qed.

Lemma s16_small x : short x -> s16 x = x.
Proof. intros Hx. unfold short in Hx. unfold s16. apply swrap_small; lia. Qed.

Lemma s16_wrap : s16 (-32768 - 1) = 32767.
Proof. done. Qed.

Lemma puts_fill limit st n c : 0 <= n ->
  puts limit (put limit st c) (fill n c) = puts limit st (fill (n + 1) c).
Proof. intros Hn. unfold fill. by rewrite Z2Nat.inj_add, Nat.add_1_r by lia. Qed.

Lemma pad_loop_pos fuel limit c st w : 0 <= w <= 32767 -> (Z.to_nat w < fuel)%nat ->
  pad_loop fuel limit c st w = Ok (puts limit st (fill w c), -1).
Proof.
  revert st w. induction fuel as [|fuel IH]; intros st w Hw Hf; [lia|]. cbn [pad_loop].
  rewrite s16_small by (unfold short; lia). destruct (Z.leb_spec 0 (w - 1)).
  - rewrite IH by lia. rewrite puts_fill by lia. do 4 f_equal. lia.
  - replace w with 0 by lia. done.
Qed.

Lemma turns_S : exists t, turns = S t /\ 65536 <= Z.of_nat t.
Proof.
  unfold turns. assert (H : 65537 <= Z.of_nat (Z.to_nat 65537)) by lia.
  destruct (Z.to_nat 65537) as [|t]; [lia|]. exists t. split; [done|lia].
Qed.

Lemma pad_loop_run limit c st w : short w ->
  pad_loop turns limit c st w = Ok (puts limit st (fill (pads w) c), pad_end w).
Proof.
  intros Hw. unfold short in Hw. destruct turns_S as (t & -> & Ht). unfold pads, pad_end.
  destruct (Z.eqb_spec w (-32768)) as [->|Hne]; cbn [orb pad_loop].
  - rewrite s16_wrap. cbn [Z.leb Z.compare]. rewrite pad_loop_pos by lia. by rewrite puts_fill by lia.
  - rewrite s16_small by (unfold short; lia). destruct (Z.leb_spec 0 w) as [H0|H0]; cbn [orb].
    + destruct (Z.leb_spec 0 (w - 1)).
      * rewrite pad_loop_pos by lia. rewrite puts_fill by lia. do 4 f_equal. lia.
      * replace w with 0 by lia. done.
    + rewrite (proj2 (Z.leb_gt 0 (w - 1))) by lia. by rewrite Z.max_l by lia.
Qed.

Lemma pad_end_short w : short w -> short (pad_end w).
Proof. unfold short, pad_end. intros. destruct (Z.eqb_spec w (-32768)), (Z.leb_spec 0 w); cbn [orb]; lia. Qed.

Lemma zero_loop_run limit st i p : 1 <= i <= p -> p <= 32767 ->
  zero_loop turns limit i st p = Ok (puts limit st (fill (p - i) (ord "0"))).
Proof.
  intros Hi Hp. assert (Hgen : forall fuel st p, 1 <= i <= p -> p <= 32767 -> (Z.to_nat p < fuel)%nat ->
    zero_loop fuel limit i st p = Ok (puts limit st (fill (p - i) (ord "0")))).
  { clear. induction fuel as [|fuel IH]; intros st p Hi Hp Hf; [lia|]. cbn [zero_loop].
    rewrite s16_small by (unfold short; lia). destruct (Z.leb_spec i (p - 1)).
    - rewrite IH by lia. rewrite puts_fill by lia. do 3 f_equal. lia.
    - replace p with i by lia. by rewrite Z.sub_diag. }
  destruct turns_S as (t & -> & Ht). apply Hgen; [done..|lia].
Qed.

Lemma space_loop_run limit len st w : short w -> 0 <= len ->
  space_loop turns limit len st w = Ok (puts limit st (fill (w - len) (ord " ")), space_end len w).
Proof.
  intros Hw Hl. assert (Hgen : forall fuel st w, short w -> (Z.to_nat w < fuel)%nat ->
    space_loop fuel limit len st w = Ok (puts limit st (fill (w - len) (ord " ")), space_end len w)).
  { clear w st Hw. induction fuel as [|fuel IH]; intros st w Hw Hf; [lia|]. cbn [space_loop].
    unfold short in Hw. unfold space_end. destruct (Z.ltb_spec len w) as [H|H].
    - rewrite s16_small by (unfold short; lia). rewrite IH by (unfold short; lia).
      rewrite puts_fill by lia. unfold space_end. do 2 f_equal; [do 2 f_equal; lia|].
      destruct (Z.ltb_spec len (w - 1)); [done|]. f_equal. lia.
    - unfold fill. by rewrite (Z2Nat.nonpos (w - len)) by lia. }
  destruct turns_S as (t & -> & Ht). apply Hgen; [done|unfold short in Hw; lia].
Qed.

Lemma char_loop_run limit st w : short w ->
  char_loop turns limit st w = Ok (puts limit st (fill (char_pads w) (ord " ")), char_end w).
Proof.
  intros Hw. assert (Hgen : forall fuel st w, 0 < w <= 32767 -> (Z.to_nat w <= fuel)%nat ->
    char_loop fuel limit st w = Ok (puts limit st (fill (w - 1) (ord " ")), 0)).
  { clear. induction fuel as [|fuel IH]; intros st w Hw Hf; [lia|]. cbn [char_loop].
    rewrite s16_small by (unfold short; lia). destruct (Z.ltb_spec 0 (w - 1)).
    - rewrite IH by lia. rewrite puts_fill by lia. do 4 f_equal. lia.
    - replace w with 1 by lia. done. }
  unfold short in Hw. destruct turns_S as (t & -> & Ht). unfold char_pads, char_end.
  destruct (Z.eqb_spec w (-32768)) as [->|Hne]; cbn [orb].
  - cbn [char_loop]. rewrite s16_wrap. cbn [Z.ltb Z.compare].
    rewrite Hgen by lia. by rewrite puts_fill by lia.
  - destruct (Z.ltb_spec 0 w) as [H0|H0].
    + rewrite Hgen by lia. by rewrite Z.max_r by lia.
    + cbn [char_loop]. rewrite s16_small by (unfold short; lia).
      rewrite (proj2 (Z.ltb_ge 0 (w - 1))), Z.max_l by lia. done.
Qed.

Lemma puts_app limit st l1 l2 : puts limit st (l1 ++ l2) = puts limit (puts limit st l1) l2.
Proof. apply foldl_app. Qed.

(** ** Numbers *)
Definition spec_ok (spec : printf_spec) : Prop := short (field_width spec) /\ short (precision spec).

Lemma number_digits_base rdx num s1 s2 locase : base s1 = base s2 ->
  number_digits rdx num s1 locase = number_digits rdx num s2 locase.
Proof. intros E. unfold number_digits. by rewrite E. Qed.

Lemma sign_of_same num spec : let s := (sign_of num spec).2 in
  base s = base spec /\ flags s = flags spec /\ precision s = precision spec /\
  (short (field_width spec) -> short (field_width s)).
Proof.
  unfold sign_of. repeat case_if; cbn [fst snd set_field_width base flags precision field_width];
    split_and!; try done; intros; apply s16_short.
Qed.

Lemma sign_of_range num spec : 0 <= num < 2 ^ 64 -> 0 <= (sign_of num spec).1.2 < 2 ^ 64.
Proof.
  intros Hn. unfold sign_of. repeat case_if; cbn [fst snd]; try done. apply u64_range.
Qed.

Lemma locase_cases flags : Z.land flags SMALL = 0 \/ Z.land flags SMALL = SMALL.
Proof.
  unfold SMALL. change 32 with (2 ^ 5).
  assert (E : Z.land flags (2 ^ 5) = if Z.testbit flags 5 then 2 ^ 5 else 0).
  { apply Z.bits_inj'. intros i Hi. rewrite Z.land_spec, Z.pow2_bits_eqb by lia.
    destruct (Z.eqb_spec 5 i) as [<-|Hne].
    - destruct (Z.testbit flags 5); [by rewrite Z.pow2_bits_true by lia|by rewrite Z.bits_0].
    - rewrite andb_false_r. destruct (Z.testbit flags 5); [by rewrite Z.pow2_bits_false by lia|by rewrite Z.bits_0]. }
  rewrite E. destruct (Z.testbit flags 5); auto.
Qed.

Lemma number_run limit st num spec : 0 <= num < 2 ^ 64 -> base_ok (base spec) -> spec_ok spec ->
  exists text, number_out num spec = Ok text /\ number exact limit st num spec = Ok (puts limit st text).
Proof.
  intros Hn Hb [Hw Hp]. unfold number_out, number, number_text.
  set (locase := Z.land (flags spec) SMALL).
  set (pfx := has (flags spec) SPECIAL && negb (base spec =? 10)).
  set (spec1 := if has (flags spec) LEFT then set_flags (Z.ldiff (flags spec) ZEROPAD) spec else spec).
  assert (S1 : base spec1 = base spec /\ precision spec1 = precision spec /\ short (field_width spec1)).
  { unfold spec1. by destruct (has (flags spec) LEFT). }
  destruct S1 as (B1 & P1 & W1).
  destruct (sign_of_same num spec1) as (B2 & F2 & P2 & W2). specialize (W2 W1).
  pose proof (sign_of_range num spec1 Hn) as Hr.
  destruct (number_digits_exact (sign_of num spec1).1.2 spec1 locase) as (tmp & Htmp & _ & Hlen);
    [done|by rewrite B1|apply locase_cases|].
  rewrite Htmp. cbn [mbind res_bind]. eexists. split; [done|].
  destruct (sign_of num spec1) as [[sign num'] spec2]. cbn [fst snd] in *.
  set (spec3 := if pfx then
      if base (set_field_width (field_width spec2 - 1) spec2) =? 16
      then set_field_width (field_width (set_field_width (field_width spec2 - 1) spec2) - 1)
             (set_field_width (field_width spec2 - 1) spec2)
      else set_field_width (field_width spec2 - 1) spec2
    else spec2).
  assert (S3 : base spec3 = base spec2 /\ flags spec3 = flags spec2 /\ precision spec3 = precision spec2).
  { unfold spec3. by destruct pfx; [destruct (_ =? 16)|]. }
  destruct S3 as (B3 & F3 & P3).
  rewrite (number_digits_base _ num' spec3 spec1) by congruence. rewrite Htmp. cbn [mbind res_bind].
  rewrite (proj2 (Z.ltb_ge 66 _)) by lia. set (i := Z.of_nat (length tmp)) in *.
  set (spec4 := if precision spec3 <? i then set_precision i spec3 else spec3).
  unfold short in Hp.
  assert (S4 : base spec4 = base spec3 /\ flags spec4 = flags spec3 /\
    field_width spec4 = field_width spec3 /\ precision spec4 = Z.max i (precision spec3)).
  { unfold spec4. destruct (Z.ltb_spec (precision spec3) i); cbn; [|by rewrite Z.max_r by lia].
    rewrite s16_small by (unfold short; lia). by rewrite Z.max_l by lia. }
  destruct S4 as (B4 & F4 & W4 & P4). rewrite B4, F4, W4, P4.
  set (prec := Z.max i (precision spec3)). set (w0 := s16 (field_width spec3 - prec)).
  assert (Hw0 : short w0) by apply s16_short.
  set (leading := negb (has (flags spec3) (Z.lor ZEROPAD LEFT))).
  set (w1 := if leading then pad_end w0 else w0).
  assert (Hw1 : short w1) by (unfold w1; destruct leading; [by apply pad_end_short|done]).
  assert (R1 : (if leading then pad_loop turns limit (ord " ") st w0 else Ok (st, w0)) =
    Ok (puts limit st (fill (if leading then pads w0 else 0) (ord " ")), w1)).
  { unfold w1. destruct leading; [by apply pad_loop_run|done]. }
  rewrite R1. cbn [mbind res_bind]. set (left := has (flags spec3) LEFT).
  set (w2 := if left then w1 else pad_end w1).
  assert (Hw2 : short w2) by (unfold w2; destruct left; [done|by apply pad_end_short]).
  assert (R2 : forall c st, (if negb left then pad_loop turns limit c st w1 else Ok (st, w1)) =
    Ok (puts limit st (fill (if left then 0 else pads w1) c), w2)).
  { intros c st'. unfold w2. destruct left; [done|by apply pad_loop_run]. }
  rewrite R2. cbn [mbind res_bind]. rewrite zero_loop_run by lia. cbn [mbind res_bind].
  rewrite pad_loop_run by done. cbn [mbind res_bind]. f_equal. rewrite !puts_app. do 6 f_equal.
  destruct pfx, (base spec3 =? 16), (sign =? 0); done.
Qed.

(** ** Strings and pointers *)
Lemma string_run limit st s spec : short (field_width spec) -> Z.of_nat (length s) < 2 ^ 31 ->
  string_ limit st s spec = Ok (puts limit st (string_text s spec)).
Proof.
  intros Hw Hs. unfold string_, string_text.
  pose proof (u64_range (precision spec)) as Hp.
  assert (Hl : 0 <= strnlen s (u64 (precision spec)) <= Z.of_nat (length s)) by (unfold strnlen; lia).
  unfold s32. rewrite swrap_small by lia. set (len := strnlen s (u64 (precision spec))) in *.
  assert (Hw1 : short (space_end len (field_width spec))).
  { unfold space_end. destruct (_ <? _); apply s16_short. }
  destruct (has (flags spec) LEFT); cbn [negb mbind res_bind];
    rewrite ?space_loop_run by (done || lia); cbn [mbind res_bind];
    rewrite ?space_loop_run by (done || lia); cbn [mbind res_bind]; f_equal; by rewrite !puts_app.
Qed.

Lemma pointer_run limit st ptr spec : 0 <= ptr < 2 ^ 64 -> spec_ok spec ->
  exists text, pointer_out ptr spec = Ok text /\ pointer exact limit st ptr spec = Ok (puts limit st text).
Proof.
  intros Hp [Hw Hpr]. unfold pointer_out, pointer. destruct (Z.eqb_spec ptr 0) as [->|Hne].
  - eexists. split; [done|]. apply string_run; [|done].
    destruct (field_width spec =? -1); [apply s16_short|done].
  - apply number_run; [done|right; by right|].
    cbn [field_width set_flags set_field_width set_base precision].
    destruct (field_width spec =? -1); split; cbn; done || apply s16_short.
Qed.

(** ** Decoding keeps the fields in range *)
Definition is_number (t : format_type) : bool :=
  match t with
  | FORMAT_TYPE_NONE | FORMAT_TYPE_WIDTH | FORMAT_TYPE_PRECISION | FORMAT_TYPE_CHAR
  | FORMAT_TYPE_STR | FORMAT_TYPE_PTR | FORMAT_TYPE_PERCENT_CHAR | FORMAT_TYPE_INVALID
  | FORMAT_TYPE_NRCHARS => false
  | _ => true
  end.

(** The next item has to wait for an argument. *)
Definition pending (t : format_type) : bool :=
  match t with FORMAT_TYPE_WIDTH | FORMAT_TYPE_PRECISION => true | _ => false end.

(** What a decoder guarantees of what it leaves of a format of [n]
    characters: never more, and fewer when the type waits for an argument. *)
Definition decoded (n : nat) (r : list Z * printf_spec) : Prop :=
  spec_ok r.2 /\ (is_number (type r.2) = true -> base_ok (base r.2)) /\
  (length r.1 <= n)%nat /\ (pending (type r.2) = true -> (length r.1 < n)%nat).

Lemma decoded_mono n n' r : (n <= n')%nat -> decoded n r -> decoded n' r.
Proof. intros Hn (H1 & H2 & H3 & H4). split; [done|]. split; [done|]. split; [lia|]. intros H. specialize (H4 H). lia. Qed.

Lemma length_tail (l : list Z) : (length (tail l) <= length l)%nat.
Proof. destruct l; cbn; lia. Qed.

Lemma cur_tail l c : cur l = c -> c <> 0 -> (length (tail l) < length l)%nat.
Proof. destruct l; cbn; [intros <-; done|lia]. Qed.

Lemma take_qualifier_ok fmt spec : spec_ok spec ->
  spec_ok (take_qualifier fmt spec).2 /\ (length (take_qualifier fmt spec).1 <= length fmt)%nat.
Proof.
  intros Hok. pose proof (length_tail fmt) as T1. pose proof (length_tail (tail fmt)) as T2.
  unfold take_qualifier. repeat case_if; (split; [exact Hok|cbn [fst]; lia]).
Qed.

Lemma number_base_ok c spec spec' : spec_ok spec -> base spec = 10 -> number_base c spec = Some spec' ->
  spec_ok spec' /\ base_ok (base spec').
Proof.
  intros Hok Hb. unfold number_base. repeat case_if; intros [= <-]; (split; [exact Hok|]); unfold base_ok; cbn; auto.
Qed.

Lemma number_type_ok spec : pending (number_type spec) = false.
Proof. unfold number_type. cbv zeta. repeat case_if; done. Qed.

Lemma decode_qualifier_ok fmt spec : spec_ok spec -> decoded (length fmt) (decode_qualifier fmt spec).
Proof.
  intros Hok. unfold decode_qualifier. destruct (take_qualifier_ok fmt spec Hok) as [Hok1 Hl].
  destruct (take_qualifier fmt spec) as [fmt1 spec1]. cbn [fst snd] in *.
  pose proof (length_tail fmt1) as T1.
  destruct (number_base (cur fmt1) (set_base 10 spec1)) as [spec2|] eqn:En.
  - apply number_base_ok in En as [Hok2 Hb]; [|exact Hok1|done].
    repeat case_if; split; try exact Hok1; try exact Hok2; (split; [done || (intros _; exact Hb)|]);
      cbn [fst snd set_type type]; rewrite ?number_type_ok; (split; [lia|done]).
  - repeat case_if; split; try exact Hok1; (split; [done|]); cbn [fst]; (split; [lia|done]).
Qed.

Lemma set_precision_ok p spec : short (field_width spec) -> spec_ok (set_precision p spec).
Proof. intros H. split; [exact H|apply s16_short]. Qed.
Lemma set_field_width_ok w spec : short (precision spec) -> spec_ok (set_field_width w spec).
Proof. intros H. split; [apply s16_short|exact H]. Qed.

Lemma skip_atoi_length i s : (length (skip_atoi i s).2 <= length s)%nat.
Proof.
  revert i. induction s as [|c s IH]; intros i; cbn [skip_atoi]; [done|].
  destruct (isdigit c); cbn [snd length]; [|lia]. specialize (IH (s32 (i * 10 + c - ord "0"))). lia.
Qed.

Lemma decode_precision_ok fmt spec : short (field_width spec) ->
  decoded (length fmt) (decode_precision fmt spec).
Proof.
  intros Hw. unfold decode_precision. pose proof (set_precision_ok (-1) spec Hw) as Hok.
  destruct (Z.eqb_spec (cur fmt) (ord ".")) as [E|E]; [|by apply decode_qualifier_ok].
  pose proof (cur_tail fmt _ E ltac:(done)) as Hlt. pose proof (length_tail (tail fmt)) as T2.
  destruct (isdigit (cur (tail fmt))).
  - pose proof (skip_atoi_length 0 (tail fmt)) as Hs. destruct (skip_atoi 0 (tail fmt)) as [n rest].
    cbn [snd] in Hs. eapply decoded_mono, decode_qualifier_ok; [lia|].
    destruct (_ <? 0); by repeat apply set_precision_ok.
  - destruct (cur (tail fmt) =? ord "*").
    + split; [exact Hok|]. split; [done|]. cbn [fst snd]. split; [lia|]. intros _. lia.
    + eapply decoded_mono, decode_qualifier_ok; [lia|done].
Qed.

Lemma flag_loop_length fmt f : (length (flag_loop fmt f).1 <= length fmt)%nat.
Proof.
  revert f. induction fmt as [|c fmt IH]; intros f; cbn [flag_loop]; [done|].
  destruct (flag_of c); [|done]. specialize (IH (Z.lor f z)). cbn [length]. lia.
Qed.

Lemma skip_text_length fmt : (length (skip_text fmt) <= length fmt)%nat.
Proof. induction fmt as [|c fmt IH]; cbn [skip_text]; [done|]. destruct (c =? ord "%"); cbn [length]; lia. Qed.

(** Decoding passes a character at least, unless an argument was waited for. *)
Lemma format_decode_ok fmt spec : fmt <> [] -> spec_ok spec ->
  decoded (length fmt - if pending (type spec) then 0 else 1) (format_decode fmt spec).
Proof.
  intros Hne [Hw Hp].
  assert (Hdef : decoded (length fmt - 1)
    (let spec := set_type FORMAT_TYPE_NONE spec in
     match fmt with
     | c :: fmt' =>
       if negb (c =? ord "%") then (skip_text fmt, spec)
       else
         let '(fmt, f) := flag_loop fmt' 0 in
         let spec := set_field_width (-1) (set_flags f spec) in
         if isdigit (cur fmt) then
           let '(n, fmt) := skip_atoi 0 fmt in decode_precision fmt (set_field_width n spec)
         else if cur fmt =? ord "*" then (tail fmt, set_type FORMAT_TYPE_WIDTH spec)
         else decode_precision fmt spec
     | [] => ([], spec)
     end)).
  { destruct fmt as [|c fmt]; [done|]. cbv zeta. cbn [length]. rewrite Nat.sub_1_r. cbn [pred].
    destruct (Z.eqb_spec c (ord "%")) as [->|Hc]; cbn [negb].
    - pose proof (flag_loop_length fmt 0) as Hf. destruct (flag_loop fmt 0) as [rest f]. cbn [fst] in Hf.
      assert (Hw1 : forall w s, short (field_width (set_field_width w s))) by (intros; apply s16_short).
      destruct (isdigit (cur rest)).
      + pose proof (skip_atoi_length 0 rest) as Hs. destruct (skip_atoi 0 rest) as [n rest'].
        cbn [snd] in Hs. eapply decoded_mono, decode_precision_ok, Hw1. lia.
      + destruct (Z.eqb_spec (cur rest) (ord "*")) as [E|E].
        * pose proof (cur_tail rest _ E ltac:(done)). split; [by apply set_field_width_ok|].
          split; [done|]. cbn [fst snd]. split; [lia|]. intros _. lia.
        * eapply decoded_mono, decode_precision_ok, Hw1. lia.
    - cbn [skip_text]. rewrite (proj2 (Z.eqb_neq _ _)) by done. pose proof (skip_text_length fmt).
      split; [done|]. split; [done|]. cbn [fst snd]. split; [lia|done]. }
  unfold format_decode.
  destruct (type spec); cbn [pending]; try exact Hdef; rewrite Nat.sub_0_r.
  - apply decode_precision_ok. cbn. destruct (_ <? 0); [apply s16_short|done].
  - apply decode_qualifier_ok. cbn. destruct (_ <? 0); split; try done; apply s16_short.
Qed.

(** ** Items *)
Definition arg_ok (a : va) : Prop :=
  0 <= va_word a < 2 ^ 64 /\ match a with VStr _ s => Z.of_nat (length s) < 2 ^ 31 | VInt _ => True end.

Lemma swrap_u64 x : 0 <= u64 x < 2 ^ 64.
Proof. apply u64_range. Qed.

Lemma int_arg_range t v : 0 <= int_arg t v < 2 ^ 64.
Proof.
  assert (H8 : 0 <= u8 v < 2 ^ 64) by (pose proof (u8_range v); lia).
  assert (H32 : 0 <= u32 v < 2 ^ 64) by (pose proof (u32_range v); lia).
  assert (H16 : 0 <= u16 v < 2 ^ 64) by (pose proof (wrap_range 16 v ltac:(lia)); unfold u16; lia).
  destruct t; cbn [int_arg]; done || apply u64_range.
Qed.

Lemma skip_alnum_length fmt : (length (skip_alnum fmt) <= length fmt)%nat.
Proof. induction fmt as [|c fmt IH]; cbn [skip_alnum]; [done|]. destruct (isalnum c); cbn [length]; lia. Qed.

(** What the state after an item keeps: the fields in range, the format no
    longer, the arguments good, and the type. *)
Definition item_keeps (fmt : list Z) (spec : printf_spec) (fmt' : list Z) (args' : list va)
    (spec' : printf_spec) : Prop :=
  spec_ok spec' /\ (length fmt' <= length fmt)%nat /\ Forall arg_ok args' /\ type spec' = type spec.

(** The text of an item is what the item prints; an item without text
    faults too, or is a %n. *)
Definition item_runs buf limit read fmt st args spec : Prop :=
  match item_text read fmt args spec with
  | Ok (text, (fmt', args', spec')) =>
    print_item exact buf limit read fmt st args spec = Ok (fmt', puts limit st text, args', spec') /\
    item_keeps fmt spec fmt' args' spec'
  | Fault =>
    print_item exact buf limit read fmt st args spec = Fault \/
    exists st' args', print_item exact buf limit read fmt st args spec = Ok (fmt, st', args', spec) /\
      item_keeps fmt spec fmt args' spec
  | _ => False
  end.

Lemma item_run_number buf limit read fmt st args spec : is_number (type spec) = true ->
  spec_ok spec -> base_ok (base spec) -> Forall arg_ok args ->
  item_runs buf limit read fmt st args spec.
Proof.
  intros Ht Hok Hb Ha. unfold item_runs.
  assert (E : item_text read fmt args spec = '(a, args) ← next_arg args;
      text ← number_out (int_arg (type spec) (va_word a)) spec; Ok (text, (fmt, args, spec))).
  { unfold item_text. by destruct (type spec). }
  assert (E' : print_item exact buf limit read fmt st args spec = '(a, args) ← next_arg args;
      st ← number exact limit st (int_arg (type spec) (va_word a)) spec; Ok (fmt, st, args, spec)).
  { unfold print_item. by destruct (type spec). }
  rewrite E, E'. destruct args as [|a args]; cbn [next_arg mbind res_bind]; [by left|].
  apply Forall_cons in Ha as [_ Ha].
  destruct (number_run limit st (int_arg (type spec) (va_word a)) spec) as (text & -> & ->);
    [apply int_arg_range|done|done|]. cbn [mbind res_bind]. by split.
Qed.

Lemma item_run buf limit read fmt st args spec : spec_ok spec ->
  (is_number (type spec) = true -> base_ok (base spec)) -> Forall arg_ok args ->
  item_runs buf limit read fmt st args spec.
Proof.
  intros Hok Hb Ha. destruct (is_number (type spec)) eqn:En; [by apply item_run_number; auto|].
  pose proof Hok as [Hw Hp]. unfold item_runs, item_text, print_item.
  destruct (type spec) eqn:Et; try discriminate En;
    try (destruct args as [|a args]; cbn [next_arg mbind res_bind]; [by left|];
         apply Forall_cons in Ha as [Ha1 Ha]).
  - by split.
  - split; [done|]. split; [by apply set_field_width_ok|done].
  - split; [done|]. split; [by apply set_precision_ok|done].
  - assert (Hce : forall w, short w -> short (char_end w)).
    { unfold short, char_end. intros w Hs. destruct (Z.eqb_spec w (-32768)), (Z.ltb_spec 0 w); cbn; lia. }
    set (w1 := if has (flags spec) LEFT then field_width spec else char_end (field_width spec)).
    assert (Hw1 : short w1) by (unfold w1; destruct (has _ _); auto).
    assert (R : (if negb (has (flags spec) LEFT) then char_loop turns limit st (field_width spec)
        else Ok (st, field_width spec)) =
      Ok (puts limit st (fill (if has (flags spec) LEFT then 0 else char_pads (field_width spec)) (ord " ")), w1)).
    { unfold w1. destruct (has _ _); [done|by apply char_loop_run]. }
    rewrite R. cbn [mbind res_bind]. destruct args as [|a args]; cbn [next_arg mbind res_bind]; [by left|].
    apply Forall_cons in Ha as [_ Ha]. rewrite char_loop_run by done. cbn [mbind res_bind].
    split; [by rewrite !puts_app|]. split; [by apply set_field_width_ok|done].
  - unfold va_string. destruct (va_word a <? PAGE_SIZE); [|destruct a as [v|v s]]; cbn [mbind res_bind].
    + rewrite string_run by done. by split.
    + by left.
    + rewrite string_run by (done || apply Ha1). by split.
  - destruct (pointer_run limit st (va_word a) spec) as (text & -> & ->); [apply Ha1|done|].
    cbn [mbind res_bind]. split; [done|]. split; [done|]. split; [apply skip_alnum_length|done].
  - by split.
  - by split.
  - right. by eexists _, _.
Qed.

(** ** The loop *)
Definition measure (fmt : list Z) (spec : printf_spec) : nat :=
  2 * length fmt + (if pending (type spec) then 1 else 0).

(** A turn makes the measure smaller. *)
Lemma turn_decreases fmt spec fmt' spec' : fmt <> [] -> spec_ok spec ->
  (length fmt' <= length (format_decode fmt spec).1)%nat -> type spec' = type (format_decode fmt spec).2 ->
  (measure fmt' spec' < measure fmt spec)%nat.
Proof.
  intros Hne Hok Hl Ht. destruct (format_decode_ok fmt spec Hne Hok) as (_ & _ & H1 & H2).
  unfold measure. rewrite Ht. assert (0 < length fmt)%nat by (destruct fmt; [done|cbn; lia]).
  destruct (pending (type spec)), (pending (type (format_decode fmt spec).2)); try specialize (H2 eq_refl); lia.
Qed.

Lemma cur_nonempty fmt : cur fmt <> 0 -> fmt <> [].
Proof. by destruct fmt. Qed.

(** The text of a format is what the loop puts. *)
Lemma print_loop_run buf limit fuel fmt st args spec text : spec_ok spec -> Forall arg_ok args ->
  render_loop fuel fmt args spec = Ok text ->
  print_loop exact fuel buf limit fmt st args spec = Ok (puts limit st text).
Proof.
  revert fmt st args spec text. induction fuel as [|fuel IH]; intros fmt st args spec text Hok Ha; [done|].
  cbn [render_loop print_loop]. destruct (Z.eqb_spec (cur fmt) 0) as [E|E]; [by intros [= <-]|].
  destruct (format_decode_ok fmt spec (cur_nonempty _ E) Hok) as (Hok1 & Hb & _).
  destruct (format_decode fmt spec) as [rest spec1]. cbn [fst snd] in *. intros Hr.
  pose proof (item_run buf limit (take (length fmt - length rest) fmt) rest st args spec1 Hok1 Hb Ha) as Hi.
  unfold item_runs in Hi. apply bind_Ok_inv in Hr as ([t [[fmt' args'] spec']] & Hit & Hr).
  rewrite Hit in Hi. destruct Hi as [-> (Hok' & _ & Ha' & _)]. cbn [mbind res_bind].
  apply bind_Ok_inv in Hr as (more & Hmore & [= <-]). rewrite puts_app. by apply IH.
Qed.

(** The loop always ends. *)
Lemma print_loop_ends buf limit fuel fmt st args spec : spec_ok spec -> Forall arg_ok args ->
  (measure fmt spec < fuel)%nat ->
  (exists st', print_loop exact fuel buf limit fmt st args spec = Ok st') \/
  print_loop exact fuel buf limit fmt st args spec = Fault.
Proof.
  revert fmt st args spec. induction fuel as [|fuel IH]; intros fmt st args spec Hok Ha Hf; [lia|].
  cbn [print_loop]. destruct (Z.eqb_spec (cur fmt) 0) as [E|E]; [by left; eexists|].
  pose proof (turn_decreases fmt spec) as Hm.
  destruct (format_decode_ok fmt spec (cur_nonempty _ E) Hok) as (Hok1 & Hb & _).
  destruct (format_decode fmt spec) as [rest spec1]. cbn [fst snd] in *.
  pose proof (item_run buf limit (take (length fmt - length rest) fmt) rest st args spec1 Hok1 Hb Ha) as Hi.
  assert (Hnext : forall fmt' st' args' spec', item_keeps rest spec1 fmt' args' spec' ->
    (exists st'', print_loop exact fuel buf limit fmt' st' args' spec' = Ok st'') \/
    print_loop exact fuel buf limit fmt' st' args' spec' = Fault).
  { intros fmt' st' args' spec' (K1 & K2 & K3 & K4). apply IH; [done..|].
    specialize (Hm fmt' spec' (cur_nonempty _ E) Hok K2 K4). lia. }
  unfold item_runs in Hi. destruct (item_text _ _ _ _) as [[t [[fmt' args'] spec']]| | |]; try done.
  - destruct Hi as [-> Hk]. cbn [mbind res_bind]. by apply Hnext.
  - destruct Hi as [->|(st' & args' & -> & Hk)]; cbn [mbind res_bind]; [by right|by apply Hnext].
Qed.

(** ** The buffer *)
Lemma puts_end limit st text : (puts limit st text).2 = st.2 + Z.of_nat (length text).
Proof.
  revert st. induction text as [|c text IH]; intros st; cbn [foldl length]; [lia|]. rewrite IH. cbn. lia.
Qed.

(** The bytes after a text has been put. *)
Lemma puts_mem limit st text x : (puts limit st text).1 x =
  if (st.2 <=? x) && (x <? limit) then
    match text !! Z.to_nat (x - st.2) with Some c => u8 c | None => st.1 x end
  else st.1 x.
Proof.
  revert st. induction text as [|c text IH]; intros [m p]; cbn [foldl].
  { rewrite lookup_nil. by case_if. }
  rewrite IH. cbn [fst snd put]. unfold write8.
  destruct (Z.leb_spec p x) as [H1|H1], (Z.ltb_spec x limit) as [H2|H2], (Z.leb_spec (p + 1) x) as [H3|H3];
    cbn [andb]; try lia; try done.
  - replace (Z.to_nat (x - p)) with (S (Z.to_nat (x - (p + 1)))) by lia. cbn [lookup list_lookup].
    destruct (text !! _); [done|]. destruct (p <? limit); [|done]. by rewrite (proj2 (Z.eqb_neq x p)) by lia.
  - replace x with p by lia. rewrite Z.sub_diag, (proj2 (Z.ltb_lt p limit)), Z.eqb_refl by lia. done.
  - destruct (Z.ltb_spec p limit); [|done]. by rewrite (proj2 (Z.eqb_neq x p)) by lia.
  - destruct (Z.ltb_spec p limit); [lia|done].
  - destruct (p <? limit); [|done]. by rewrite (proj2 (Z.eqb_neq x p)) by lia.
  - destruct (p <? limit); [|done]. by rewrite (proj2 (Z.eqb_neq x p)) by lia.
Qed.

(** A string in memory, and its NUL. *)
Definition holds_text (m : mem) (a : Z) (s : list Z) : Prop :=
  (forall i c, s !! i = Some c -> m (a + Z.of_nat i) = u8 c) /\ m (a + Z.of_nat (length s)) = 0.
