(* ===== verification/VsprintfSpec.v ===== *)
(** * What printing promises

    The text that a format has by the manual of [printf], the code against it
    (digits, flags, decoding, padding, the loop), and the theorems on
    [vsnprintf] and its callers. *)

From Stdlib Require Import Ascii.
From S2P Require Import Prelude Table StringPool Vsprintf VsprintfText VsprintfFacts.

Lemma spec0_ok : spec_ok spec0.
Proof. split; unfold short; cbn; lia. Qed.

Lemma holds_text_write m a s : (forall i c, s !! i = Some c -> m (a + Z.of_nat i) = u8 c) ->
  holds_text (write8 m (a + Z.of_nat (length s)) 0) a s.
Proof.
  intros H. split.
  - intros i c Hi. unfold write8. apply lookup_lt_Some in Hi as Hl.
    rewrite (proj2 (Z.eqb_neq _ _)) by lia. by apply H.
  - unfold write8. by rewrite Z.eqb_refl.
Qed.

(** What the loop puts is left in the buffer. *)
Lemma vsnprintf_puts rdx m buf size fmt args text :
  0 <= buf -> 0 <= size < 2 ^ 31 -> buf + size < 2 ^ 64 -> Z.of_nat (length text) < 2 ^ 31 ->
  print_loop rdx (2 * length fmt + 2) buf (buf + size) fmt (m, buf) args spec0 = Ok (puts (buf + size) (m, buf) text) ->
  exists m', vsnprintf rdx m buf size fmt args = Ok (m', Z.of_nat (length text)) /\
    (0 < size -> holds_text m' buf (take (Z.to_nat (size - 1)) text)) /\
    (forall x, x < buf \/ buf + size <= x -> m' x = m x).
Proof.
  intros Hb Hs He Hl Hrun. unfold vsnprintf. unfold s32 at 1. rewrite swrap_small by lia.
  rewrite (proj2 (Z.ltb_ge size 0)), (u64_small (buf + size)), (proj2 (Z.ltb_ge (buf + size) buf)) by lia.
  rewrite Hrun.
  pose proof (puts_end (buf + size) (m, buf) text) as Hend.
  pose proof (puts_mem (buf + size) (m, buf) text) as Hmem.
  destruct (puts (buf + size) (m, buf) text) as [m1 str]. cbn [mbind res_bind fst snd] in *.
  subst str. replace (buf + Z.of_nat (length text) - buf) with (Z.of_nat (length text)) by lia.
  unfold s32. rewrite swrap_small by lia. eexists. split; [done|].
  assert (Hput : forall i c, text !! i = Some c -> Z.of_nat i < size -> m1 (buf + Z.of_nat i) = u8 c).
  { intros i c Hi His. rewrite Hmem, (proj2 (Z.leb_le _ _)), (proj2 (Z.ltb_lt _ _)) by lia. cbn [andb].
    replace (Z.to_nat (buf + Z.of_nat i - buf)) with i by lia. by rewrite Hi. }
  assert (Hout : forall x, x < buf \/ buf + size <= x -> m1 x = m x).
  { intros x Hx. rewrite Hmem. destruct (Z.leb_spec buf x), (Z.ltb_spec x (buf + size)); try done; lia. }
  destruct (Z.ltb_spec 0 size) as [Hpos|Hpos]; [|split; [lia|done]].
  destruct (Z.ltb_spec (buf + Z.of_nat (length text)) (buf + size)) as [Hfit|Hcut]; split.
  - intros _. rewrite take_ge by lia. apply holds_text_write. intros i c Hi.
    apply lookup_lt_Some in Hi as Hi'. apply Hput; [done|lia].
  - intros x Hx. unfold write8. rewrite (proj2 (Z.eqb_neq _ _)) by lia. by apply Hout.
  - intros _. replace (buf + size - 1) with
      (buf + Z.of_nat (length (take (Z.to_nat (size - 1)) text))) by (rewrite length_take; lia).
    apply holds_text_write. intros i c Hi. apply lookup_take_Some in Hi as [Hi Hlt].
    apply Hput; [done|lia].
  - intros x Hx. unfold write8. rewrite (proj2 (Z.eqb_neq _ _)) by lia. by apply Hout.
Qed.

Lemma vsnprintf_text m buf size fmt args text :
  0 <= buf -> 0 <= size < 2 ^ 31 -> buf + size < 2 ^ 64 -> Forall arg_ok args ->
  render fmt args = Ok text -> Z.of_nat (length text) < 2 ^ 31 ->
  exists m', vsnprintf exact m buf size fmt args = Ok (m', Z.of_nat (length text)) /\
    (0 < size -> holds_text m' buf (take (Z.to_nat (size - 1)) text)) /\
    (forall x, x < buf \/ buf + size <= x -> m' x = m x).
Proof.
  intros Hb Hs He Ha Hr Hl. apply vsnprintf_puts; [done..|].
  by apply (print_loop_run buf (buf + size) _ fmt (m, buf) args spec0 text spec0_ok Ha Hr).
Qed.

(** ** The text of a format, as the manual has it

    A format is text and conversions; its text is described without the
    decoder, the widths of 16 bits and the digit tricks of the code.  Three
    rules are the ones of the code and not of C99 ([c99_differs]): a zero has
    a digit whatever the precision, '#' prefixes zero as well, and '0' pads
    also when there is a precision. *)
Inductive flag : Set := flag_minus | flag_plus | flag_space | flag_sharp | flag_zero.
Inductive length_modifier : Set := len_hh | len_h | len_int | len_l | len_ll | len_z | len_t.
Inductive number_kind : Set := conv_d | conv_i | conv_u | conv_o | conv_x | conv_X.
Inductive conversion : Set := conv_number (len : length_modifier) (k : number_kind) | conv_c | conv_s.

#[export] Instance flag_eq_dec : EqDecision flag.
Proof. solve_decision. Defined.

Record directive : Set := Directive {
  d_flags : list flag;
  d_width : option Z;
  d_prec : option Z;
  d_conv : conversion;
}.

Inductive segment : Set := seg_percent | seg_conv (d : directive).

(** Pieces of text, each followed by a conversion, and a last piece. *)
Definition format : Set := list (list Z * segment) * list Z.

(** The digits of a number, the most significant first. *)
Definition digit_char (upper : bool) (x : Z) : Z :=
  if x <? 10 then ord "0" + x else (if upper then ord "A" else ord "a") + (x - 10).
Fixpoint numeral_of (k : nat) (b : Z) (upper : bool) (n : Z) : list Z :=
  match k with
  | O => []
  | S k' => (if n <? b then [] else numeral_of k' b upper (n / b)) ++ [digit_char upper (n mod b)]
  end.
Definition numeral : Z -> bool -> Z -> list Z := numeral_of 64.

(** How the format is written. *)
Definition flag_char (f : flag) : Z :=
  match f with
  | flag_minus => ord "-" | flag_plus => ord "+" | flag_space => ord " " | flag_sharp => ord "#" | flag_zero => ord "0"
  end.
Definition length_chars (len : length_modifier) : list Z :=
  match len with
  | len_hh => bytes_of "hh" | len_h => bytes_of "h" | len_int => [] | len_l => bytes_of "l"
  | len_ll => bytes_of "ll" | len_z => bytes_of "z" | len_t => bytes_of "t"
  end.
Definition kind_char (k : number_kind) : Z :=
  match k with
  | conv_d => ord "d" | conv_i => ord "i" | conv_u => ord "u" | conv_o => ord "o" | conv_x => ord "x" | conv_X => ord "X"
  end.
Definition conversion_chars (c : conversion) : list Z :=
  match c with
  | conv_number len k => length_chars len ++ [kind_char k]
  | conv_c => bytes_of "c"
  | conv_s => bytes_of "s"
  end.
Definition segment_chars (s : segment) : list Z :=
  match s with
  | seg_percent => bytes_of "%%"
  | seg_conv d =>
    ord "%" :: (flag_char <$> d_flags d) ++
    match d_width d with Some w => numeral 10 false w | None => [] end ++
    match d_prec d with Some p => ord "." :: numeral 10 false p | None => [] end ++
    conversion_chars (d_conv d)
  end.
Definition format_chars (f : format) : list Z :=
  concat ((fun s : list Z * segment => s.1 ++ segment_chars s.2) <$> f.1) ++ f.2.










Lemma s64_u64 v : - 2 ^ 63 <= v < 2 ^ 63 -> s64 (u64 v) = v.
Proof.
  intros Hv. unfold s64, swrap, u64, wrap. rewrite Z.add_mod_idemp_l by lia.
  rewrite Z.mod_small by lia. lia.
Qed.




































































(** The report of a violation, with a register that is not 0, and a format
    of flags, widths and precisions. *)
Definition sample_x : directive := Directive [] None None (conv_number len_l conv_x).
Definition report_format : format :=
  ([(bytes_of "[", seg_conv (Directive [] None None (conv_number len_int conv_u)));
    (bytes_of "] CFI violated: indirect branch at 0x", seg_conv sample_x);
    (bytes_of " illegally targeted 0x", seg_conv sample_x)], [10]).

Lemma report_format_chars : format_chars report_format =
  bytes_of "[%u] CFI violated: indirect branch at 0x%lx illegally targeted 0x%lx" ++ [10].
Proof. by vm_compute. Qed.

Definition sample_format : format :=
  ([([], seg_conv (Directive [flag_minus] (Some 6) None (conv_number len_int conv_d)));
    (bytes_of "|", seg_conv (Directive [flag_sharp; flag_zero] (Some 8) None (conv_number len_h conv_X)));
    (bytes_of "|", seg_conv (Directive [] (Some 7) (Some 3) conv_s)); ([], seg_percent);
    ([], seg_conv (Directive [flag_plus] (Some 6) (Some 4) (conv_number len_hh conv_i)))], bytes_of "|").

Lemma sample_format_chars : format_chars sample_format = bytes_of "%-6d|%#08hX|%7.3s%%%+6.4hhi|".
Proof. by vm_compute. Qed.





(** Where the text is not the one of C99, which the comment on [vsnprintf]
    says it follows: a zero with precision 0 has no digits there, a hexadecimal
    zero no prefix, and a precision cancels the flag 0; there the text is
    "|0|  007". *)
Lemma c99_differs : render (bytes_of "%.0d|%#x|%05.3d") [VInt 0; VInt 0; VInt 7] = Ok (bytes_of "0|0x0|00007").
Proof. by vm_compute. Qed.

(** [vsnprintf] always comes to an end: on every format, %n included, it
    returns or takes an argument that is not there or not a string; no loop
    over the format, a width or a precision runs for ever. *)
Theorem vsnprintf_ends m buf size fmt args : Forall arg_ok args ->
  (exists r, vsnprintf exact m buf size fmt args = Ok r) \/ vsnprintf exact m buf size fmt args = Fault.
Proof.
  intros Ha. unfold vsnprintf. destruct (s32 size <? 0); [by left; eexists|].
  set (limit := u64 (buf + size)).
  destruct (if limit <? buf then (2 ^ 64 - 1, 2 ^ 64 - 1 - buf) else (limit, size)) as [limit' size'].
  destruct (print_loop_ends buf limit' (2 * length fmt + 2) fmt (m, buf) args spec0 spec0_ok Ha)
    as [([m' str] & ->)| ->]; [unfold measure; cbn; lia| |by right].
  left. cbn [mbind res_bind]. by eexists.
Qed.

Lemma vsnprintf_ends_witness :
  (exists r, vsnprintf exact (fun _ => 7) 1000 64 (bytes_of "%*.*d%q%n") [VInt 5] = Ok r) \/
  vsnprintf exact (fun _ => 7) 1000 64 (bytes_of "%*.*d%q%n") [VInt 5] = Fault.
Proof. apply vsnprintf_ends. repeat constructor; cbn; lia. Defined.

(** [vscnprintf] returns the number of characters left in the buffer. *)
Lemma vscnprintf_text m buf size fmt args text :
  0 <= buf -> 0 <= size < 2 ^ 31 -> buf + size < 2 ^ 64 -> Forall arg_ok args ->
  render fmt args = Ok text -> Z.of_nat (length text) < 2 ^ 31 ->
  exists m', vscnprintf exact m buf size fmt args =
      Ok (m', Z.of_nat (length (take (Z.to_nat (size - 1)) text))) /\
    (0 < size -> holds_text m' buf (take (Z.to_nat (size - 1)) text)).
Proof.
  intros Hb Hs He Ha Hr Hl.
  destruct (vsnprintf_text m buf size fmt args text) as (m' & Hrun & Hh & _); try done.
  exists m'. split; [|done]. unfold vscnprintf. rewrite Hrun. cbn [mbind res_bind].
  rewrite u64_small, length_take by lia.
  destruct (Z.ltb_spec (Z.of_nat (length text)) size); [do 2 f_equal; lia|].
  destruct (Z.eqb_spec size 0) as [->|Hne]; cbn [negb]; [done|].
  unfold s32. rewrite swrap_small by lia. do 2 f_equal. lia.
Qed.

(** ** Numbers read back *)

(** The value a decimal numeral has, most significant digit first. *)
Definition read_dec (l : list Z) : Z := dec_val (rev l).
Definition read_int (l : list Z) : Z :=
  match l with
  | c :: l' => if c =? ord "-" then - read_dec l' else read_dec l
  | [] => 0
  end.

Lemma decimal_digits num spec : 0 <= num < 2 ^ 64 -> base spec = 10 ->
  exists tmp, number_digits exact num spec 0 = Ok tmp /\ dec_val tmp = num /\ Forall is_digit tmp /\
    (0 < length tmp <= 20)%nat.
Proof.
  intros Hn Hb. unfold number_digits. rewrite Hb. destruct (Z.eqb_spec num 0) as [->|Hne].
  - eexists. split; [done|]. split; [done|]. split; [|cbn; lia].
    repeat constructor; cbv; discriminate.
  - destruct (put_dec_exact num Hn) as (l & H1 & H2 & H3 & H4 & _). by exists l.
Qed.

(** The text of a conversion without width, precision and flags but the sign. *)
Lemma plain_text num spec tmp : flags spec = SIGN -> field_width spec = -1 -> precision spec = -1 ->
  0 <= num < 2 ^ 64 -> (0 < length tmp <= 22)%nat ->
  number_text num spec tmp = (if s64 num <? 0 then [ord "-"] else []) ++ rev tmp.
Proof.
  intros Hf Hw Hp Hn Hl. unfold number_text, sign_of. rewrite Hf.
  change (has SIGN SPECIAL) with false. change (has SIGN LEFT) with false. cbn [andb]. rewrite Hf.
  change (has SIGN SIGN) with true. change (has SIGN PLUS) with false. change (has SIGN SPACE) with false.
  assert (E : forall w, -2 <= w <= -1 -> let w0 := s16 (w - Z.max (Z.of_nat (length tmp)) (-1)) in
    pads w0 = 0 /\ pads (pad_end w0) = 0 /\ pads (pad_end (pad_end w0)) = 0).
  { intros w Hw' w0. assert (Ew : w0 = w - Z.of_nat (length tmp)).
    { unfold w0. rewrite s16_small by (unfold short; lia). lia. }
    assert (Hb : -24 <= w0 <= -2) by lia. clearbody w0. unfold pads, pad_end.
    destruct (Z.eqb_spec w0 (-32768)), (Z.leb_spec 0 w0); try lia; cbn [orb].
    destruct (Z.eqb_spec (w0 - 1) (-32768)), (Z.leb_spec 0 (w0 - 1)); try lia; cbn [orb].
    destruct (Z.eqb_spec (w0 - 1 - 1) (-32768)); lia. }
  assert (Ez : fill (Z.max (Z.of_nat (length tmp)) (-1) - Z.of_nat (length tmp)) (ord "0") = []).
  { rewrite Z.max_l, Z.sub_diag by lia. done. }
  destruct (Z.ltb_spec (s64 num) 0) as [Hs|Hs]; cbn [set_field_width flags field_width precision]; rewrite ?Hf, ?Hw, ?Hp.
  - destruct (E (-2) ltac:(lia)) as (E1 & E2 & E3). change (s16 (-1 - 1)) with (-2).
    change (has SIGN (Z.lor ZEROPAD LEFT)) with false. change (has SIGN LEFT) with false. cbn [negb].
    rewrite E1, E2, E3, Ez. change (ord "-" =? 0) with false. cbn [app fill Z.to_nat replicate]. by rewrite app_nil_r.
  - destruct (E (-1) ltac:(lia)) as (E1 & E2 & E3).
    change (has SIGN (Z.lor ZEROPAD LEFT)) with false. change (has SIGN LEFT) with false. cbn [negb].
    rewrite E1, E2, E3, Ez. cbn [Z.eqb app fill Z.to_nat replicate]. by rewrite app_nil_r.
Qed.

Definition spec_ld : printf_spec := mkSpec FORMAT_TYPE_LONG SIGN 10 (ord "l") (-1) (-1).

Lemma decode_ld : format_decode (bytes_of "%ld") spec0 = ([], spec_ld).
Proof. reflexivity. Qed.

Lemma render_loop_S fuel fmt args spec : cur fmt =? 0 = false ->
  render_loop (S fuel) fmt args spec =
    let '(rest, spec) := format_decode fmt spec in
    '(text, (fmt, args, spec)) ← item_text (take (length fmt - length rest) fmt) rest args spec;
    more ← render_loop fuel fmt args spec; Ok (text ++ more).
Proof. intros H. cbn [render_loop]. by rewrite H. Qed.

Lemma render_ld v : - 2 ^ 63 <= v < 2 ^ 63 ->
  exists tmp, render (bytes_of "%ld") [VInt (u64 v)] = Ok ((if v <? 0 then [ord "-"] else []) ++ rev tmp) /\
    dec_val tmp = Z.abs v /\ Forall is_digit tmp /\ (0 < length tmp <= 20)%nat.
Proof.
  intros Hv. unfold render. change (2 * length (bytes_of "%ld") + 2)%nat with (S 7). rewrite render_loop_S by done.
  rewrite decode_ld.
  pose proof (u64_range v) as Hu. pose proof (s64_u64 v Hv) as Es.
  assert (Esign : (sign_of (u64 v) spec_ld).1.2 = Z.abs v).
  { unfold sign_of. change (has (flags spec_ld) SIGN) with true. rewrite Es.
    destruct (Z.ltb_spec v 0); cbn [fst snd]; [rewrite u64_small; lia|].
    change (has (flags spec_ld) PLUS) with false. change (has (flags spec_ld) SPACE) with false.
    cbn [fst snd]. rewrite u64_small; lia. }
  destruct (decimal_digits (Z.abs v) spec_ld) as (tmp & Ht & Hval & Hd & Hl); [lia|done|].
  exists tmp. split; [|done]. unfold item_text. change (type spec_ld) with FORMAT_TYPE_LONG.
  cbn [next_arg mbind res_bind va_word int_arg]. rewrite (u64_small (u64 v)) by done.
  unfold number_out. change (has (flags spec_ld) LEFT) with false.
  change (Z.land (flags spec_ld) SMALL) with 0. cbv iota. rewrite Esign, Ht.
  cbn [mbind res_bind]. rewrite plain_text by (done || lia). rewrite Es.
  change (render_loop 7 [] [] spec_ld) with (Ok ([] : list Z)). cbn [mbind res_bind]. by rewrite app_nil_r.
Qed.

(** Printing and reading back: the text that [vsnprintf] leaves for "%ld"
    and a long is a decimal numeral of that long, for every long, the least
    one included. *)
Theorem print_long_reads_back m buf size v :
  0 <= buf -> 22 <= size < 2 ^ 31 -> buf + size < 2 ^ 64 -> - 2 ^ 63 <= v < 2 ^ 63 ->
  exists m' text, vsnprintf exact m buf size (bytes_of "%ld") [VInt (u64 v)]
      = Ok (m', Z.of_nat (length text)) /\
    holds_text m' buf text /\ read_int text = v.
Proof.
  intros Hb Hs He Hv. destruct (render_ld v Hv) as (tmp & Hr & Hval & Hd & Hl).
  set (text := (if v <? 0 then [ord "-"] else []) ++ rev tmp) in *.
  assert (Hlen : (length text <= 21)%nat).
  { unfold text. rewrite length_app, length_rev. destruct (v <? 0); cbn [length]; lia. }
  destruct (vsnprintf_text m buf size (bytes_of "%ld") [VInt (u64 v)] text) as (m' & Hrun & Hh & _);
    try done; try lia.
  { apply Forall_singleton. split; [apply u64_range|done]. }
  specialize (Hh ltac:(lia)). rewrite take_ge in Hh by lia.
  exists m', text. split; [done|]. split; [done|]. unfold text, read_int, read_dec.
  destruct (Z.ltb_spec v 0) as [Hneg|Hpos]; cbn [app].
  - rewrite Z.eqb_refl, rev_involutive, Hval. lia.
  - rewrite <- (rev_involutive tmp) in Hval. destruct (rev tmp) as [|c l] eqn:E.
    + apply (f_equal (@length Z)) in E. rewrite length_rev in E. cbn in E. lia.
    + assert (Hc : is_digit c).
      { rewrite Forall_forall in Hd. apply Hd. apply list_elem_of_In, in_rev. rewrite E. by left. }
      unfold is_digit in Hc. change (ord "0") with 48 in Hc.
      rewrite (proj2 (Z.eqb_neq c (ord "-"))), Hval by (change (ord "-") with 45; lia). lia.
Qed.

Lemma print_long_reads_back_witness :
  exists m' text, vsnprintf exact (fun _ => 7) 1000 64 (bytes_of "%ld") [VInt (u64 (- 2 ^ 63))]
      = Ok (m', Z.of_nat (length text)) /\
    holds_text m' 1000 text /\ read_int text = - 2 ^ 63.
Proof. apply print_long_reads_back; lia. Defined.

(** ** Callers *)

(** [dprintf] and [report_error] hand [write] the count that [vsnprintf]
    returns, which is the length of the whole text: when the text is longer
    than their buffers, of [PAGE_SIZE * 4] and [PAGE_SIZE] bytes, the count is
    larger than the buffer, and the bytes after it, which are what the stack
    held, go out with the report. *)
Theorem reports_write_beyond_the_buffer m buf fmt args text :
  0 <= buf -> buf + PAGE_SIZE * 4 < 2 ^ 64 -> Forall arg_ok args ->
  render fmt args = Ok text -> PAGE_SIZE * 4 < Z.of_nat (length text) < 2 ^ 31 ->
  (exists m' n, dprintf exact m buf fmt args = Ok (m', n) /\ n = Z.of_nat (length text) /\
    PAGE_SIZE * 4 < n /\ (forall x, buf + PAGE_SIZE * 4 <= x -> m' x = m x)) /\
  (exists m' n, report_error exact m buf fmt args = Ok (m', n) /\ n = Z.of_nat (length text) /\
    PAGE_SIZE < n /\ (forall x, buf + PAGE_SIZE <= x -> m' x = m x)).
Proof.
  intros Hb He Ha Hr Hl. change (PAGE_SIZE * 4) with 16384 in *. change PAGE_SIZE with 4096 in *.
  assert (Hout : forall k x, buf + k <= x -> write8 m (buf + (k - 1)) 0 x = m x).
  { intros k x Hx. unfold write8. by rewrite (proj2 (Z.eqb_neq _ _)) by lia. }
  split.
  - destruct (vsnprintf_text (write8 m (buf + (16384 - 1)) 0) buf (16384 - 1) fmt args text)
      as (m' & Hrun & _ & Hm); try done; try lia.
    exists m', (Z.of_nat (length text)). unfold dprintf. change (PAGE_SIZE * 4) with 16384. rewrite Hrun.
    split; [done|]. split; [done|]. split; [lia|]. intros x Hx. rewrite Hm by lia. by apply Hout.
  - destruct (vsnprintf_text (write8 m (buf + (4096 - 1)) 0) buf (4096 - 1) fmt args text)
      as (m' & Hrun & _ & Hm); try done; try lia.
    exists m', (Z.of_nat (length text)). unfold report_error. change PAGE_SIZE with 4096. rewrite Hrun.
    split; [done|]. split; [done|]. split; [lia|]. intros x Hx. rewrite Hm by lia. by apply Hout.
Qed.

(** A report that names a long path. *)
Definition long_args : list va := [VStr 0x5000 (replicate (Z.to_nat 20000) (ord "a"))].

Lemma reports_write_beyond_the_buffer_witness :
  exists text, render (bytes_of "open %s failed") long_args = Ok text /\
  (exists m' n, dprintf exact (fun _ => 7) 1000 (bytes_of "open %s failed") long_args = Ok (m', n) /\
    n = Z.of_nat (length text) /\ PAGE_SIZE * 4 < n /\ (forall x, 1000 + PAGE_SIZE * 4 <= x -> m' x = 7)) /\
  (exists m' n, report_error exact (fun _ => 7) 1000 (bytes_of "open %s failed") long_args = Ok (m', n) /\
    n = Z.of_nat (length text) /\ PAGE_SIZE < n /\ (forall x, 1000 + PAGE_SIZE <= x -> m' x = 7)).
Proof.
  assert (Hc : match render (bytes_of "open %s failed") long_args with
    Ok text => (16384 <? Z.of_nat (length text)) && (Z.of_nat (length text) <? 2 ^ 31) | _ => false end = true)
    by (vm_compute; reflexivity).
  assert (Ha : Forall arg_ok long_args).
  { apply Forall_singleton. split; [split; vm_compute; [discriminate|reflexivity]|vm_compute; reflexivity]. }
  destruct (render (bytes_of "open %s failed") long_args) as [text| | |] eqn:Hr; [|discriminate Hc..].
  apply andb_true_iff in Hc as [H1 H2]. apply Z.ltb_lt in H1, H2.
  exists text. split; [reflexivity|].
  apply (reports_write_beyond_the_buffer (fun _ => 7) 1000 (bytes_of "open %s failed") long_args);
    [lia|unfold PAGE_SIZE; lia|exact Ha|exact Hr|split; [exact H1|exact H2]].
Defined.

(** A precision that fills a 16-bit field makes the width wrap: 32768 spaces
    are printed that were not asked for. *)
Lemma width_wraps : match render (bytes_of "%.32767d") [VInt 1] with
  | Ok text => (hd 0 text =? ord " ") && (Z.of_nat (length text) =? 32767 + 32768)
  | _ => false
  end = true.
Proof. by vm_compute. Qed.

(** With anything but zero in the other register the division of [do_div] is
    not one of the number: 100000 comes out as no numeral of 100000. *)
Lemma do_div_garbage : exists l, put_dec (fun n => if n =? 100000 then 1 else 0) [] 100000 = Ok l /\ dec_val l <> 100000.
Proof. eexists. split; [vm_compute; reflexivity|]. vm_compute. discriminate. Qed.
