(* ===== verification/Runtime.v ===== *)
(** * The state of the trusted runtime ([runtime.c], [main.c], [tcb.h])

    The global variables, as one record.  A thread control block is known by
    its address; the list is in the order of the [next] pointers.  [table] is
    the table region indexed by offset from its start (a pointer into the
    region is that offset); [osb] is the rest of the memory, by
    absolute address; the code and the [.got.plt] of a module are mapped
    twice, and the model keeps them at the writable mapping, outside of the
    sandbox.
    A module is known by its place in [modules], and a code heap's handle is
    that place. *)

From S2P Require Import Prelude Dict Graph Module Table Pager StringPool.

Record TCB : Type := mkTCB {
  self : Z;
  tcb_inside_sandbox : Z;
  sandbox_escape : Z;
  insyscall : Z;
  remove : bool;
}.

Record runtime : Type := mkRuntime {
  prog_brk : Z;
  max_brk : Z;
  tcb_list : list TCB;
  thread_escape_map : dict Z;
  rt_cfggened : bool;
  modules : list code_module;
  patch_compensate : dict unit;
  patched_ra : dict unit;
  table : mem;
  osb : mem;
  VM : Vmmap;
  rt_fats_in_code : graph;
  rt_vmtd : graph;
  vtabletaken : dict unit;
  COMPAT_MODE : bool;
  version : Z;
  version_space : Z;
  bid_slot : Z;
  icj_target : dict Z;
  icj_target_ret : dict Z;
  ret_name : dict Z;
  ret_offset : dict Z;
  stringpool : pool;
}.

(** The slots for branch identifiers start after the first 64 KB and the
    page of the trampolines. *)
Definition BID_SLOT_START : Z := 0x11000.

Definition alloc_bid_slot (rt : runtime) : runtime * Z :=
  let rbid_slot := bid_slot rt in
  (rt {{ bid_slot := u32 (bid_slot rt + 8) }}, rbid_slot).

(** The first module whose code contains the address, and its place. *)
Definition in_module (addr : Z) (m : code_module) : bool :=
  (base_addr m <=? addr) && (addr <? u64 (base_addr m + sz m)).

Fixpoint find_module (addr : Z) (ms : list code_module) : option (nat * code_module) :=
  match ms with
  | [] => None
  | m :: ms' =>
    if in_module addr m then Some (O, m)
    else
      match find_module addr ms' with
      | Some (i, m') => Some (S i, m')
      | None => None
      end
  end.

(** Assignment through the pointer to a module. *)
Definition set_module (i : nat) (m : code_module) (rt : runtime) : runtime :=
  rt {{ modules := <[i := m]> (modules rt) }}.

Lemma find_module_Some addr ms i m : find_module addr ms = Some (i, m) ->
  ms !! i = Some m /\ in_module addr m = true.
Proof.
  revert i. induction ms as [|m0 ms IH]; intros i; cbn; [done|].
  destruct (in_module addr m0) eqn:Hm; [by intros [= <- <-]|].
  destruct (find_module addr ms) as [[j m']|]; [|done]. intros [= <- <-]. by apply IH.
Qed.

Lemma find_module_None addr ms m : find_module addr ms = None -> m ∈ ms -> in_module addr m = false.
Proof.
  induction ms as [|m0 ms IH]; cbn; intros H Hin; [by apply not_elem_of_nil in Hin|].
  destruct (in_module addr m0) eqn:Hm; [done|].
  destruct (find_module addr ms) as [[j m']|]; [done|].
  apply elem_of_cons in Hin as [->|Hin]; [done|]. by apply IH.
Qed.
