(* ===== verification/Threads.v ===== *)
(** * Threads and escapes ([runtime.c], [set_tcb] to [free_tcb], [update_thesc],
    [safe], [wait])

    A thread that has left the sandbox since the last generation of the
    control-flow graph cannot be using identifiers of an older one.  The
    counters of the threads change while the runtime waits: [wait] is given
    the successive contents of the control blocks its turns see. *)

From S2P Require Import Prelude Dict Graph Module Table Pager Runtime.

(** [self] is the block of the current thread, that [thread_self] returns. *)
Definition set_tcb (tcb : TCB) (sb_tcb : Z) (rt : runtime) : res runtime :=
  if FourGB <? sb_tcb then Exit
  else
    let tcb := tcb {{ tcb_inside_sandbox := sb_tcb }} in
    thesc ← dict_add (thread_escape_map rt) (self tcb) 0;
    Ok (rt {{ tcb_list := [tcb] }} {{ thread_escape_map := thesc }}).

(** [tcb] is the fresh block that [alloc_tcb] returns. *)
Definition allocset_tcb (tcb : TCB) (sb_tcb : Z) (rt : runtime) : res runtime :=
  if FourGB <? sb_tcb then Exit
  else
    let tcb := tcb {{ tcb_inside_sandbox := sb_tcb }} in
    thesc ← dict_add (thread_escape_map rt) (self tcb) 0;
    Ok (rt {{ thread_escape_map := thesc }} {{ tcb_list := tcb :: tcb_list rt }}).

(** The loop over the nodes after the head, then the head. *)
Definition remove_tcb_marked (l : list TCB) : res (list TCB) :=
  match l with
  | [] => Fault
  | tcb :: l' =>
    let l' := List.filter (fun p => negb (remove p)) l' in
    if remove tcb then Ok l' else Ok (tcb :: l')
  end.

(** The first block of the user's thread is marked and forgotten. *)
Fixpoint mark_tcb (user_tcb : Z) (l : list TCB) (thesc : dict Z) : list TCB * dict Z :=
  match l with
  | [] => ([], thesc)
  | tcb :: l' =>
    if tcb_inside_sandbox tcb =? user_tcb then
      (tcb {{ remove := true }} :: l', dict_del thesc (self tcb))
    else
      let '(l', thesc) := mark_tcb user_tcb l' thesc in (tcb :: l', thesc)
  end.

Definition free_tcb (user_tcb : Z) (rt : runtime) : res runtime :=
  l ← remove_tcb_marked (tcb_list rt);
  match l with
  | [] => Exit
  | _ =>
    if FourGB <? user_tcb then Exit
    else
      let '(l, thesc) := mark_tcb user_tcb l (thread_escape_map rt) in
      Ok (rt {{ tcb_list := l }} {{ thread_escape_map := thesc }})
  end.

Definition update_thesc (rt : runtime) : res runtime :=
  thesc ← foldM (fun thesc tcb =>
    if remove tcb then Ok thesc
    else
      _ ← CHECK (dict_in thesc (self tcb));
      Ok (dict_set thesc (self tcb) (sandbox_escape tcb)))
    (tcb_list rt) (thread_escape_map rt);
  Ok (rt {{ thread_escape_map := thesc }}).

(** Whether every thread is in a system call or has made one since
    [update_thesc]. *)
Fixpoint safe_loop (thread_escape_map : dict Z) (l : list TCB) : res bool :=
  match l with
  | [] => Ok true
  | tcb :: l' =>
    if remove tcb then safe_loop thread_escape_map l'
    else
      match dict_find thread_escape_map (self tcb) with
      | None => Exit
      | Some thesc =>
        if (insyscall tcb =? 0) && (sandbox_escape tcb =? thesc) then Ok false
        else safe_loop thread_escape_map l'
      end
  end.

Definition safe (rt : runtime) : res bool := safe_loop (thread_escape_map rt) (tcb_list rt).

(** ** Waiting for every thread to leave the sandbox *)

(** The blocks recorded, with their counters: at most 128 of them fit in the
    array of 256 words. *)
Fixpoint record_escapes (l : list TCB) (acc : list (Z * Z)) : list (Z * Z) :=
  match l with
  | [] => acc
  | tcb :: l' =>
    if (2 * length acc <? 256)%nat then
      if negb (remove tcb) && (insyscall tcb =? 0)
      then record_escapes l' (acc ++ [(self tcb, sandbox_escape tcb)])
      else record_escapes l' acc
    else acc
  end.

(** One turn: [now] reads a block; threads seen in a system call are
    cleared until the first one that has not moved. *)
Fixpoint wait_turn (now : Z -> TCB) (l : list (Z * Z)) : bool * list (Z * Z) :=
  match l with
  | [] => (true, [])
  | (t, esc) :: l' =>
    if t =? 0 then let '(ok, l') := wait_turn now l' in (ok, (t, esc) :: l')
    else if negb (insyscall (now t) =? 0) then
      let '(ok, l') := wait_turn now l' in (ok, (0, esc) :: l')
    else if sandbox_escape (now t) =? esc then (false, l)
    else let '(ok, l') := wait_turn now l' in (ok, (t, esc) :: l')
  end.

(** [seen] lists the contents of the blocks in successive turns; [NoFuel] if
    the threads have not moved by its end. *)
Fixpoint wait_loop (seen : list (Z -> TCB)) (l : list (Z * Z)) : res unit :=
  match seen with
  | [] => NoFuel
  | now :: seen' =>
    match wait_turn now l with
    | (true, _) => Ok tt
    | (false, l') => wait_loop seen' l'
    end
  end.

Definition wait (seen : list (Z -> TCB)) (rt : runtime) : res unit :=
  let l := record_escapes (tcb_list rt) [] in
  if (256 <=? 2 * length l)%nat then Exit else wait_loop seen l.

(** ** Well-formed thread state *)

(** A thread that has not been freed. *)
Definition live (l : list TCB) (k : Z) : Prop :=
  exists tcb, tcb ∈ l /\ remove tcb = false /\ self tcb = k.

Record threads_ok (l : list TCB) (thesc : dict Z) : Prop := {
  ok_addrs : NoDup (self <$> l);
  ok_dict : wf_dict thesc;
  ok_keys : forall k, k ∈ keys thesc <-> live l k;
}.

(** The counters recorded in [thesc] are those of the live threads of [l]. *)
Definition recorded (l : list TCB) (thesc : dict Z) : Prop :=
  forall tcb, tcb ∈ l -> remove tcb = false -> dict_find thesc (self tcb) = Some (sandbox_escape tcb).

(** The thread has no stake in the older identifiers. *)
Definition escaped (thesc : dict Z) (tcb : TCB) : Prop :=
  insyscall tcb <> 0 \/ dict_find thesc (self tcb) <> Some (sandbox_escape tcb).

(** ** Lemmas *)
Lemma live_cons tcb l k :
  live (tcb :: l) k <-> (remove tcb = false /\ self tcb = k) \/ live l k.
Proof.
  unfold live. split.
  - intros (t & Ht & H). apply elem_of_cons in Ht as [->|Ht]; [by left|]. right. by exists t.
  - intros [H|(t & Ht & H)]; [exists tcb; split; [left|done]|exists t; split; [by right|done]].
Qed.

Lemma live_nil k : ~ live [] k.
Proof. intros (t & Ht & _). by apply not_elem_of_nil in Ht. Qed.

Lemma filter_running l k : live (List.filter (fun p => negb (remove p)) l) k <-> live l k.
Proof.
  induction l as [|t l IH]; [done|]. cbn. destruct (remove t) eqn:Hr; cbn.
  - rewrite IH, live_cons, Hr. naive_solver.
  - by rewrite !live_cons, IH.
Qed.

Lemma filter_sub l : self <$> List.filter (fun p => negb (remove p)) l `sublist_of` self <$> l.
Proof.
  induction l as [|t l IH]; [done|]. cbn.
  destruct (remove t); cbn; [by apply sublist_cons|by apply sublist_skip].
Qed.

Lemma filter_all l tcb : tcb ∈ List.filter (fun p => negb (remove p)) l -> remove tcb = false.
Proof. rewrite list_elem_of_In, List.filter_In. intros [_ H]. by destruct (remove tcb). Qed.

Lemma remove_tcb_marked_spec l l' : remove_tcb_marked l = Ok l' ->
  self <$> l' `sublist_of` self <$> l /\ (forall k, live l' k <-> live l k) /\
  forall tcb, tcb ∈ l' -> remove tcb = false.
Proof.
  destruct l as [|t l]; cbn; [done|]. destruct (remove t) eqn:Ht; intros [= <-].
  - split; [apply sublist_cons, filter_sub|]. split.
    + intros k. rewrite filter_running, live_cons, Ht. naive_solver.
    + apply filter_all.
  - split; [apply sublist_skip, filter_sub|]. split.
    + intros k. by rewrite !live_cons, filter_running.
    + intros x Hx. apply elem_of_cons in Hx as [->|Hx]; [done|]. by eapply filter_all.
Qed.

Lemma mark_tcb_spec u l thesc : threads_ok l thesc -> (forall tcb, tcb ∈ l -> remove tcb = false) ->
  threads_ok (mark_tcb u l thesc).1 (mark_tcb u l thesc).2.
Proof.
  intros [Hnd Hwf Hk] Hl.
  assert (H : self <$> (mark_tcb u l thesc).1 = self <$> l /\
    ((exists t, t ∈ l /\ (mark_tcb u l thesc).2 = dict_del thesc (self t) /\
        forall k, live (mark_tcb u l thesc).1 k <-> live l k /\ k <> self t) \/
     mark_tcb u l thesc = (l, thesc))).
  { clear Hk. induction l as [|t l IH]; cbn in *; [auto|].
    apply NoDup_cons in Hnd as [Ht Hnd].
    assert (Hrl : forall tcb, tcb ∈ l -> remove tcb = false) by (intros; apply Hl; by right).
    destruct (tcb_inside_sandbox t =? u).
    - split; [done|]. left. exists t. split; [left|]. split; [done|]. intros k.
      cbn [fst]. rewrite !live_cons. cbn. rewrite (Hl t) by left. split.
      + intros [[? _]|Hlive]; [done|]. split; [by right|]. intros ->.
        destruct Hlive as (x & Hx & _ & Hs). apply Ht. rewrite <- Hs. by apply list_elem_of_fmap_2.
      + intros [[[_ <-]|?] Hne]; [done|by right].
    - destruct (IH Hnd Hrl) as [Hs Hor]. destruct (mark_tcb u l thesc) as [l' th]. cbn in *.
      split; [by rewrite Hs|]. destruct Hor as [(x & Hx & -> & Hlv)|[= -> ->]]; [left|by right].
      exists x. split; [by right|]. split; [done|]. intros k. rewrite !live_cons, Hlv.
      split; [|naive_solver]. intros [[Hr <-]|?]; [|naive_solver]. split; [by left|].
      intros Heq. apply Ht. rewrite Heq. by apply list_elem_of_fmap_2. }
  destruct H as [Hs [(t & Ht & Hth & Hlv)| ->]]; [|by split].
  split; [by rewrite Hs|by rewrite Hth; apply wf_del|]. intros k. rewrite Hlv, <- Hk, Hth.
  rewrite <- !dict_in_keys. unfold dict_in. rewrite dict_find_del by done.
  destruct (Z.eqb_spec (self t) k) as [->|Hne]; [naive_solver|].
  destruct (dict_find thesc k); [naive_solver|naive_solver].
Qed.

Lemma update_thesc_run l thesc : wf_dict thesc -> (forall k, live l k -> k ∈ keys thesc) ->
  NoDup (self <$> l) ->
  exists thesc', foldM (fun thesc tcb =>
      if remove tcb then Ok thesc
      else
        _ ← CHECK (dict_in thesc (self tcb));
        Ok (dict_set thesc (self tcb) (sandbox_escape tcb))) l thesc = Ok thesc' /\
    keys thesc' = keys thesc /\ recorded l thesc' /\
    (forall k, k ∉ self <$> l -> dict_find thesc' k = dict_find thesc k).
Proof.
  revert thesc. induction l as [|t l IH]; intros thesc Hwf Hk Hnd; cbn [foldM].
  { exists thesc. split; [done|]. split; [done|]. split; [|done]. intros x Hx. by apply not_elem_of_nil in Hx. }
  apply NoDup_cons in Hnd as [Ht Hnd]. destruct (remove t) eqn:Hr.
  - rewrite bind_Ok. destruct (IH thesc) as (th & Hrun & Hkeys & Hrec & Hout); [done| |done|].
    { intros k Hlv. apply Hk, live_cons. by right. }
    exists th. split; [done|]. split; [done|]. split.
    + intros x Hx Hxr. apply elem_of_cons in Hx as [->|Hx]; [congruence|by apply Hrec].
    + intros k Hn. apply Hout. intros Hin. apply Hn. by right.
  - assert (Hin : dict_in thesc (self t) = true).
    { apply dict_in_keys, Hk, live_cons. by left. }
    rewrite Hin. cbn [CHECK mbind res_bind].
    destruct (IH (dict_set thesc (self t) (sandbox_escape t))) as (th & Hrun & Hkeys & Hrec & Hout);
      [auto with mcfi| |done|].
    { intros k Hlv. rewrite keys_set. apply Hk, live_cons. by right. }
    exists th. split; [done|]. split; [by rewrite Hkeys, keys_set|]. split.
    + intros x Hx Hxr. apply elem_of_cons in Hx as [->|Hx]; [|by apply Hrec].
      rewrite Hout, dict_find_set by done. by rewrite Z.eqb_refl, Hin.
    + intros k Hn. apply not_elem_of_cons in Hn as [Hne Hn]. rewrite Hout by done.
      rewrite dict_find_set. by rewrite (proj2 (Z.eqb_neq (self t) k)).
Qed.

Lemma safe_loop_run thesc l : (forall k, live l k -> k ∈ keys thesc) ->
  exists b, safe_loop thesc l = Ok b /\
    (b = true <-> forall tcb, tcb ∈ l -> remove tcb = false -> escaped thesc tcb).
Proof.
  induction l as [|t l IH]; intros Hk; cbn [safe_loop].
  { exists true. split; [done|]. split; [|done]. intros _ x Hx. by apply not_elem_of_nil in Hx. }
  destruct IH as (b & Hb & Hiff); [intros k Hlv; apply Hk, live_cons; by right|].
  assert (Hcons : escaped thesc t \/ remove t = true -> b = true <->
    forall tcb, tcb ∈ t :: l -> remove tcb = false -> escaped thesc tcb).
  { intros He. rewrite Hiff. split; [|intros H x Hx; apply H; by right].
    intros H x Hx Hr. apply elem_of_cons in Hx as [->|Hx]; [|by apply H].
    destruct He; [done|congruence]. }
  destruct (remove t) eqn:Hr; [exists b; split; [done|by apply Hcons; right]|].
  destruct (dict_find thesc (self t)) as [e|] eqn:Hf.
  - destruct ((insyscall t =? 0) && (sandbox_escape t =? e)) eqn:Hc.
    + exists false. split; [done|]. split; [done|]. intros H. exfalso.
      apply andb_true_iff in Hc as [Hi He]. apply Z.eqb_eq in Hi, He. subst e.
      destruct (H t ltac:(left) Hr) as [?|?]; congruence.
    + exists b. split; [done|]. apply Hcons. left. unfold escaped. rewrite Hf.
      apply andb_false_iff in Hc as [Hc|Hc]; apply Z.eqb_neq in Hc; [by left|right; congruence].
  - exfalso. apply dict_find_None in Hf. apply Hf, Hk, live_cons. by left.
Qed.

(** What [wait] waits for. *)
Definition runnable (l : list TCB) : list TCB :=
  List.filter (fun tcb => negb (remove tcb) && (insyscall tcb =? 0)) l.

(** The block [t], recorded with the counter [esc], has moved. *)
Definition moved (now : Z -> TCB) (t esc : Z) : Prop :=
  insyscall (now t) <> 0 \/ sandbox_escape (now t) <> esc.

Lemma record_escapes_spec l acc : (length acc <= 128)%nat ->
  record_escapes l acc =
    acc ++ take (128 - length acc) ((fun tcb => (self tcb, sandbox_escape tcb)) <$> runnable l).
Proof.
  revert acc. induction l as [|t l IH]; intros acc Hlen; cbn [record_escapes].
  { cbn. by rewrite take_nil, app_nil_r. }
  destruct (Nat.ltb_spec (2 * length acc) 256).
  - unfold runnable. cbn [List.filter]. fold (runnable l).
    destruct (negb (remove t) && (insyscall t =? 0)); [|by apply IH].
    rewrite IH by (rewrite length_app; cbn; lia). rewrite <- app_assoc. f_equal.
    rewrite length_app. cbn [length fmap list_fmap app].
    replace (128 - length acc)%nat with (S (128 - (length acc + 1)))%nat by lia. done.
  - replace (128 - length acc)%nat with O by lia. by rewrite app_nil_r.
Qed.

Lemma wait_turn_spec now l ok l' : wait_turn now l = (ok, l') ->
  (ok = true -> forall t esc, (t, esc) ∈ l -> t <> 0 -> moved now t esc) /\
  (forall t esc, (t, esc) ∈ l -> t <> 0 -> (t, esc) ∈ l' \/ moved now t esc) /\
  (forall t esc, (t, esc) ∈ l' -> t <> 0 -> (t, esc) ∈ l) /\
  ((forall t esc, (t, esc) ∈ l -> t <> 0 -> moved now t esc) -> ok = true).
Proof.
  revert ok l'. induction l as [|[t e] l IH]; intros ok l'; cbn [wait_turn].
  { intros [= <- <-]. split; [|split; [|split; [|done]]]; intros;
      by match goal with H : _ ∈ [] |- _ => apply not_elem_of_nil in H end. }
  destruct (wait_turn now l) as [ok1 l1] eqn:Hl. destruct (IH _ _ eq_refl) as (H1 & H2 & H3 & H4).
  (* the head is passed: already cleared, cleared now, or seen to move *)
  assert (Hpass : forall t2, t2 = 0 \/ t2 = t -> t = 0 \/ moved now t e -> ok1 = ok -> (t2, e) :: l1 = l' ->
    (ok = true -> forall x y, (x, y) ∈ (t, e) :: l -> x <> 0 -> moved now x y) /\
    (forall x y, (x, y) ∈ (t, e) :: l -> x <> 0 -> (x, y) ∈ l' \/ moved now x y) /\
    (forall x y, (x, y) ∈ l' -> x <> 0 -> (x, y) ∈ (t, e) :: l) /\
    ((forall x y, (x, y) ∈ (t, e) :: l -> x <> 0 -> moved now x y) -> ok = true)).
  { intros t2 Ht2 Hm <- <-. split; [|split; [|split]].
    - intros Hok x y Hx Hn. apply elem_of_cons in Hx as [[= -> ->]|Hx]; [by destruct Hm|by apply H1].
    - intros x y Hx Hn. apply elem_of_cons in Hx as [[= -> ->]|Hx]; [right; by destruct Hm|].
      destruct (H2 x y Hx Hn); [left; by right|by right].
    - intros x y Hx Hn. apply elem_of_cons in Hx as [[= -> ->]|Hx].
      + destruct Ht2 as [->| ->]; [done|left].
      + right. by apply H3.
    - intros H. apply H4. intros. apply H; [by right|done]. }
  destruct (Z.eqb_spec t 0) as [->|Hne].
  { intros [= <- <-]. apply (Hpass 0); auto. }
  destruct (negb (insyscall (now t) =? 0)) eqn:Hi.
  { intros [= <- <-]. apply negb_true_iff, Z.eqb_neq in Hi. apply (Hpass 0); auto. right. by left. }
  destruct (Z.eqb_spec (sandbox_escape (now t)) e) as [He|He].
  - intros [= <- <-]. split; [done|]. split; [auto|]. split; [auto|].
    intros H. exfalso. destruct (H t e ltac:(left) Hne) as [Hm|Hm]; [|done].
    by apply negb_false_iff, Z.eqb_eq in Hi.
  - intros [= <- <-]. apply (Hpass t); auto. right. by right.
Qed.

Lemma wait_loop_sound seen l : wait_loop seen l = Ok tt ->
  forall t esc, (t, esc) ∈ l -> t <> 0 -> exists now, now ∈ seen /\ moved now t esc.
Proof.
  revert l. induction seen as [|now seen IH]; intros l; cbn [wait_loop]; [done|].
  destruct (wait_turn now l) as [[|] l'] eqn:Hl; apply wait_turn_spec in Hl as (H1 & H2 & _ & _).
  - intros _ t esc Ht Hne. exists now. split; [left|by apply H1].
  - intros H t esc Ht Hne. destruct (H2 t esc Ht Hne) as [Hin|Hm].
    + destruct (IH _ H t esc Hin Hne) as (n & Hn & Hm). exists n. split; [by right|done].
    + exists now. split; [left|done].
Qed.

Lemma wait_loop_live seen l now : now ∈ seen ->
  (forall t esc, (t, esc) ∈ l -> t <> 0 -> moved now t esc) -> wait_loop seen l = Ok tt.
Proof.
  revert l. induction seen as [|n seen IH]; intros l Hin Hm; [by apply not_elem_of_nil in Hin|].
  cbn [wait_loop]. destruct (wait_turn n l) as [[|] l'] eqn:Hl; [done|].
  apply wait_turn_spec in Hl as (_ & _ & H3 & H4). apply elem_of_cons in Hin as [->|Hin].
  - by specialize (H4 Hm).
  - apply IH; [done|]. intros t esc Ht Hne. apply Hm; [by apply H3|done].
Qed.

(** ** Theorems *)

(** C13.  [wait] terminates the process when 128 or more threads run in the
    sandbox.  Otherwise it returns only after every such thread has been seen
    in a system call or with another escape counter, and it does return at
    the latest when all of them are seen to have moved at once. *)
Theorem wait_correct seen rt :
  ((128 <= length (runnable (tcb_list rt)))%nat -> wait seen rt = Exit) /\
  ((length (runnable (tcb_list rt)) < 128)%nat ->
   (forall tcb, tcb ∈ tcb_list rt -> self tcb <> 0) ->
   (wait seen rt = Ok tt ->
      forall tcb, tcb ∈ runnable (tcb_list rt) ->
        exists now, now ∈ seen /\ moved now (self tcb) (sandbox_escape tcb)) /\
   ((exists now, now ∈ seen /\ forall tcb, tcb ∈ runnable (tcb_list rt) ->
        moved now (self tcb) (sandbox_escape tcb)) ->
      wait seen rt = Ok tt)).
Proof.
  unfold wait. rewrite record_escapes_spec by (cbn; lia). cbn [length app].
  rewrite length_take, length_fmap, Nat.sub_0_r. split.
  { intros H. rewrite Nat.min_l by lia. done. }
  intros H Hself. rewrite Nat.min_r by lia. rewrite (proj2 (Nat.leb_gt _ _)) by lia.
  rewrite take_ge by (rewrite length_fmap; lia).
  assert (Hsub : forall tcb, tcb ∈ runnable (tcb_list rt) -> tcb ∈ tcb_list rt).
  { intros tcb Ht. apply list_elem_of_In, List.filter_In in Ht as [Ht _]. by apply list_elem_of_In. }
  split.
  - intros Hw tcb Ht. apply (wait_loop_sound _ _ Hw); [|by apply Hself, Hsub].
    by apply (list_elem_of_fmap_2 (fun tcb => (self tcb, sandbox_escape tcb))).
  - intros (now & Hn & Hm). apply (wait_loop_live _ _ now Hn). intros t esc Hin _.
    apply list_elem_of_fmap in Hin as (tcb & [= -> ->] & Ht). by apply Hm.
Qed.

(** After [update_thesc], and as long as the threads are the same,
    [safe] runs to completion and answers whether every thread is in a
    system call or has left the sandbox since. *)
Theorem safe_correct rt l :
  threads_ok (tcb_list rt) (thread_escape_map rt) ->
  NoDup (self <$> l) -> (forall k, live l k <-> live (tcb_list rt) k) ->
  exists rt' b, update_thesc rt = Ok rt' /\ safe (rt' {{ tcb_list := l }}) = Ok b /\
    (b = true <-> forall tcb old, tcb ∈ l -> remove tcb = false ->
       old ∈ tcb_list rt -> remove old = false -> self old = self tcb ->
       insyscall tcb <> 0 \/ sandbox_escape tcb <> sandbox_escape old).
Proof.
  intros [Hnd Hwf Hk] Hl Hlive. unfold update_thesc.
  destruct (update_thesc_run (tcb_list rt) (thread_escape_map rt)) as (th & -> & Hkeys & Hrec & _);
    [done|intros k; apply Hk|done|].
  destruct (safe_loop_run th l) as (b & Hb & Hiff).
  { intros k Hlv. rewrite Hkeys, Hk. by apply Hlive. }
  eexists _, b. rewrite bind_Ok. split; [done|]. split; [exact Hb|]. rewrite Hiff. unfold escaped. split.
  - intros H tcb old Ht Hr Ho Hor Hs. destruct (H tcb Ht Hr) as [?|Hd]; [by left|right].
    intros Heq. apply Hd. by rewrite <- Hs, Heq, Hrec.
  - intros H tcb Ht Hr. destruct (Hlive (self tcb)) as [H1 _].
    destruct H1 as (old & Ho & Hor & Hs); [by exists tcb|].
    destruct (H tcb old Ht Hr Ho Hor Hs) as [?|Hd]; [by left|right].
    rewrite <- Hs, Hrec by done. congruence.
Qed.

(** ** Runs of the thread operations *)

(** The steps that change the thread state: the runtime calls, and threads
    that run, which changes their counters. *)
Inductive thread_step (rt : runtime) : runtime -> Prop :=
  | step_alloc tcb sb rt' : remove tcb = false -> self tcb ∉ self <$> tcb_list rt ->
      allocset_tcb tcb sb rt = Ok rt' -> thread_step rt rt'
  | step_free user_tcb rt' : free_tcb user_tcb rt = Ok rt' -> thread_step rt rt'
  | step_update rt' : update_thesc rt = Ok rt' -> thread_step rt rt'
  | step_run l : (fun t => (self t, remove t)) <$> l = (fun t => (self t, remove t)) <$> tcb_list rt ->
      thread_step rt (rt {{ tcb_list := l }}).

(** The main thread registers first. *)
Inductive thread_reachable : runtime -> Prop :=
  | reach_main rt0 tcb sb rt : thread_escape_map rt0 = [] -> remove tcb = false ->
      set_tcb tcb sb rt0 = Ok rt -> thread_reachable rt
  | reach_step rt rt' : thread_reachable rt -> thread_step rt rt' -> thread_reachable rt'.

Lemma threads_ok_cons tcb l thesc : threads_ok l thesc -> remove tcb = false ->
  self tcb ∉ self <$> l -> self tcb ∉ keys thesc ->
  threads_ok (tcb :: l) (dict_put thesc (self tcb) 0).
Proof.
  intros [Hnd Hwf Hk] Hr Hs Hn. split; [by apply NoDup_cons|auto with mcfi|].
  intros k. rewrite keys_put, elem_of_app, list_elem_of_singleton, live_cons, Hk. naive_solver.
Qed.

Lemma live_same l1 l2 k :
  (fun t => (self t, remove t)) <$> l1 = (fun t => (self t, remove t)) <$> l2 -> live l1 k -> live l2 k.
Proof.
  intros H (t & Ht & Hr & Hs).
  assert (Hin : (self t, remove t) ∈ (fun t => (self t, remove t)) <$> l2).
  { rewrite <- H. by apply (list_elem_of_fmap_2 (fun t => (self t, remove t))). }
  apply list_elem_of_fmap in Hin as (t' & [= H1 H2] & Ht'). exists t'. split; [done|]. split; congruence.
Qed.

Lemma thread_step_ok rt rt' : thread_step rt rt' ->
  threads_ok (tcb_list rt) (thread_escape_map rt) -> threads_ok (tcb_list rt') (thread_escape_map rt').
Proof.
  intros Hs Hok. destruct Hs as [tcb sb rt' Hr Hf H|u rt' H|rt' H|l H].
  - revert H. unfold allocset_tcb. destruct (FourGB <? sb); [done|].
    intros (th & Hth & [= <-])%bind_Ok_inv. apply dict_add_Ok in Hth as [Hn ->].
    destruct tcb as [s i e y r]. by apply (threads_ok_cons (mkTCB s sb e y r)).
  - revert H. unfold free_tcb. intros (l & Hl & H)%bind_Ok_inv.
    apply remove_tcb_marked_spec in Hl as (Hsub & Hlv & Hall).
    destruct l as [|t l]; [done|]. destruct (FourGB <? u); [done|].
    destruct (mark_tcb u (t :: l) _) as [l' th] eqn:Hm. injection H as <-.
    assert (Hok' : threads_ok (t :: l) (thread_escape_map rt)).
    { destruct Hok as [Hnd Hwf Hk]. split; [exact (sublist_NoDup _ _ Hnd Hsub)|done|].
      intros k. by rewrite Hk, Hlv. }
    pose proof (mark_tcb_spec u _ _ Hok' Hall) as H. by rewrite Hm in H.
  - revert H. unfold update_thesc. intros (th & Hth & [= <-])%bind_Ok_inv. destruct Hok as [Hnd Hwf Hk].
    destruct (update_thesc_run (tcb_list rt) (thread_escape_map rt)) as (th' & Hrun & Hkeys & _);
      [done|intros k; apply Hk|done|].
    rewrite Hrun in Hth. injection Hth as <-. cbn [tcb_list thread_escape_map]. split; [done| |].
    + unfold wf_dict. change (NoDup (keys th')). by rewrite Hkeys.
    + intros k. change (k ∈ keys th' <-> live (tcb_list rt) k). by rewrite Hkeys.
  - destruct Hok as [Hnd Hwf Hk]. split; cbn [tcb_list thread_escape_map]; [|done|].
    + assert (Hself : self <$> l = self <$> tcb_list rt).
      { apply (f_equal (fmap fst)) in H. rewrite <- !list_fmap_compose in H. exact H. }
      change (NoDup (self <$> l)). by rewrite Hself.
    + intros k. change (k ∈ keys (thread_escape_map rt) <-> live l k). rewrite Hk.
      split; apply live_same; by rewrite H.
Qed.

Lemma thread_reachable_ok rt : thread_reachable rt -> threads_ok (tcb_list rt) (thread_escape_map rt).
Proof.
  induction 1 as [rt0 tcb sb rt H0 Hr H|rt rt' _ IH Hs]; [|by eapply thread_step_ok].
  revert H. unfold set_tcb. destruct (FourGB <? sb); [done|]. rewrite H0.
  intros (th & Hth & [= <-])%bind_Ok_inv. apply dict_add_Ok in Hth as [Hn ->].
  destruct tcb as [s i e y r].
  apply (threads_ok_cons (mkTCB s sb e y r) [] []); [|done|apply not_elem_of_nil|done].
  split; [by apply NoDup_nil|apply wf_nil|]. intros k. split.
  - intros H. by apply not_elem_of_nil in H.
  - intros H. by apply live_nil in H.
Qed.

(** C12.  In every reachable state the thread list has no duplicates and the
    map has exactly the threads that have not been freed, so that the
    assertions of [safe], [update_thesc] and [allocset_tcb] cannot fail. *)
Theorem threads_invariant rt : thread_reachable rt ->
  threads_ok (tcb_list rt) (thread_escape_map rt) /\
  (exists b, safe rt = Ok b) /\ (exists rt', update_thesc rt = Ok rt') /\
  (forall tcb sb, self tcb ∉ self <$> tcb_list rt -> sb <= FourGB -> exists rt', allocset_tcb tcb sb rt = Ok rt').
Proof.
  intros H. pose proof (thread_reachable_ok rt H) as [Hnd Hwf Hk]. split; [by split|].
  split; [|split].
  - destruct (safe_loop_run (thread_escape_map rt) (tcb_list rt)) as (b & Hb & _); [intros k; apply Hk|].
    by exists b.
  - unfold update_thesc. destruct (update_thesc_run (tcb_list rt) (thread_escape_map rt)) as (th & -> & _);
      [done|intros k; apply Hk|done|]. by eexists.
  - intros tcb sb Hf Hsb. unfold allocset_tcb. rewrite (proj2 (Z.ltb_ge FourGB sb)) by done.
    destruct tcb as [s i e y r]. cbn [self] in *. cbv zeta. change (self (_ {{ tcb_inside_sandbox := _ }})) with s.
    rewrite (proj2 (dict_add_Ok (thread_escape_map rt) s 0 (dict_put (thread_escape_map rt) s 0))); [by eexists|].
    split; [|done]. intros Hin. apply Hk in Hin as (t & Ht & _ & Hs). apply Hf. rewrite <- Hs.
    by apply list_elem_of_fmap_2.
Qed.

(** ** Two threads *)
Definition sample_runtime : runtime :=
  mkRuntime 0 0 [] [] false [] [] [] (fun _ => 0) (fun _ => 0) (mkVmmap [] 0 0 false) [] [] [] false 1 0
    BID_SLOT_START [] [] [] [] [].
Definition sample_tcb (t esc sys : Z) : TCB := mkTCB t 0 esc sys false.

Lemma threads_invariant_witness : exists rt, thread_reachable rt /\ length (tcb_list rt) = 2%nat /\
  exists b, safe rt = Ok b.
Proof.
  destruct (set_tcb (sample_tcb 0x1000 0 0) 0x500 sample_runtime) as [rt1| | |] eqn:H1;
    [|vm_compute in H1; discriminate..].
  destruct (allocset_tcb (sample_tcb 0x2000 0 0) 0x600 rt1) as [rt2| | |] eqn:H2;
    [|vm_compute in H1; injection H1 as <-; vm_compute in H2; discriminate..].
  assert (Hr : thread_reachable rt2).
  { eapply reach_step; [exact (reach_main sample_runtime (sample_tcb 0x1000 0 0) 0x500 rt1 eq_refl eq_refl H1)|].
    eapply step_alloc; [..|exact H2]; [done|]. vm_compute in H1. injection H1 as <-.
    apply (bool_decide_unpack _). reflexivity. }
  exists rt2. split; [exact Hr|]. split.
  - vm_compute in H1. injection H1 as <-. vm_compute in H2. injection H2 as <-. reflexivity.
  - destruct (threads_invariant rt2 Hr) as (_ & H & _). exact H.
Defined.

Lemma safe_witness : exists rt' b,
  update_thesc (sample_runtime {{ tcb_list := [sample_tcb 0x1000 5 0] }}
                {{ thread_escape_map := [(0x1000, 0)] }}) = Ok rt' /\
  safe (rt' {{ tcb_list := [sample_tcb 0x1000 6 0] }}) = Ok b /\ b = true.
Proof.
  destruct (safe_correct (sample_runtime {{ tcb_list := [sample_tcb 0x1000 5 0] }}
                {{ thread_escape_map := [(0x1000, 0)] }}) [sample_tcb 0x1000 6 0])
    as (rt' & b & Hu & Hs & Hb).
  - split; [apply (bool_decide_unpack _); reflexivity|apply (bool_decide_unpack _); reflexivity|].
    intros k. change (k ∈ [0x1000] <-> live [sample_tcb 0x1000 5 0] k).
    rewrite live_cons, list_elem_of_singleton. cbn. split; [intros ->; by left|].
    intros [[_ <-]|H]; [done|]. by apply live_nil in H.
  - apply (bool_decide_unpack _). reflexivity.
  - intros k. change (live [sample_tcb 0x1000 6 0] k <-> live [sample_tcb 0x1000 5 0] k). by rewrite !live_cons.
  - exists rt', b. split; [exact Hu|]. split; [exact Hs|]. apply Hb. intros tcb old Ht _ Ho _ _. right.
    apply list_elem_of_singleton in Ht as ->. apply list_elem_of_singleton in Ho as ->. discriminate.
Defined.
