(* ===== verification/GenCfg.v ===== *)
(** * Generating the control-flow graph ([runtime.c], [gen_cfg])

    The build with online patching and without [COLLECT_STAT].  The thread
    blocks change while [gen_cfg] runs: [seen] lists the contents of
    [tcb_list] at the successive calls of [safe] and, last, at
    [update_thesc]. *)

From S2P Require Import Prelude Dict Graph Module Table Cfg McfiId Runtime Threads.

(** [ADD(fats, v)] of [compute_fic]; the adjacency of a new entry is NULL. *)
Definition add_aliases {V} `{Null V} (fats : dict V) (v : Z * dict unit) : res (dict V) :=
  if dict_in fats v.1 then foldM (fun fats (a : Z * unit) => dict_add fats a.1 null) v.2 fats
  else Ok fats.

(** Functions whose address is taken in code and not in data; both sets are
    closed under aliases first. *)
Definition compute_fic (fats_in_code : graph) (fats_in_data : dict unit) (aliases_tc : graph)
    : res (graph * dict unit) :=
  '(fats_in_code, fats_in_data) ← foldM (fun (st : graph * dict unit) v =>
    fats_in_code ← add_aliases st.1 v;
    fats_in_data ← add_aliases st.2 v;
    Ok (fats_in_code, fats_in_data)) aliases_tc (fats_in_code, fats_in_data);
  Ok (List.filter (fun v : Z * dict unit => negb (dict_in fats_in_data v.1)) fats_in_code, fats_in_data).

(** The virtual methods of the classes of a module whose constructors are
    defined and whose vtables are not taken from the start. *)
Definition get_all_vmtd (vtabletaken : dict unit) (vtable : dict (list Z)) (defined_ctors : dict unit)
    : graph :=
  foldl (fun all_vmtd (kv : Z * list Z) =>
    if negb (dict_in vtabletaken kv.1) && dict_in defined_ctors kv.1
    then foldl (fun all_vmtd n => if dict_in all_vmtd n then all_vmtd else dict_put all_vmtd n null) all_vmtd kv.2
    else all_vmtd) [] vtable.

Definition compute_tc_vmtd (modules : list code_module) (vtabletaken : dict unit) (vmtd : graph)
    (defined_ctors : dict unit) (aliases_tc : graph) : res graph :=
  let vmtd := foldl (fun vmtd m => merge_dicts vmtd (get_all_vmtd vtabletaken (vtable m) defined_ctors))
                vmtd modules in
  foldM add_aliases aliases_tc vmtd.

Definition VERSION_SPACE_MAX : Z := 252047376.

(** [while (!safe());] over the thread lists seen: the ones left. *)
Fixpoint wait_safe (thesc : dict Z) (seen : list (list TCB)) : res (list (list TCB)) :=
  match seen with
  | [] => NoFuel
  | l :: seen' =>
    ok ← safe_loop thesc l;
    if (ok : bool) then Ok seen' else wait_safe thesc seen'
  end.

(** The guard on the number of versions between two safe points: the new
    counter and the thread lists left. *)
Definition count_version (thesc : dict Z) (version_space : Z) (seen : list (list TCB))
    : res (Z * list (list TCB)) :=
  let version_space := u32 (version_space + 1) in
  if version_space <? VERSION_SPACE_MAX then
    match seen with
    | [] => NoFuel
    | l :: seen =>
      ok ← safe_loop thesc l;
      Ok (if (ok : bool) then 0 else version_space, seen)
    end
  else
    seen ← wait_safe thesc seen;
    Ok (0, seen).

(** The three passes over the modules. *)
Definition fill_new (callids retids : dict Z) (id_for_others : Z) (st : tary_state) (m : code_module)
    : tary_state :=
  if cfggened m then st
  else
    let '(table, fats_in_code, vmtd) := gen_tary m callids retids st in
    (gen_bary m callids retids id_for_others table, fats_in_code, vmtd).

Definition fill_old_tary (callids retids : dict Z) (st : tary_state) (m : code_module) : tary_state :=
  if cfggened m then gen_tary m callids retids st else st.

Definition fill_old_bary (callids retids : dict Z) (id_for_others : Z) (table : mem) (m : code_module) : mem :=
  if cfggened m then gen_bary m callids retids id_for_others table else table.

Definition fill_tables (callids retids : dict Z) (id_for_others : Z) (modules : list code_module)
    (st : tary_state) : tary_state :=
  let st := foldl (fill_new callids retids id_for_others) st modules in
  let '(table, fats_in_code, vmtd) := foldl (fill_old_tary callids retids) st modules in
  (foldl (fill_old_bary callids retids id_for_others) table modules, fats_in_code, vmtd).

(** Return addresses patched before the first graph was there. *)
Definition compensate (patch_compensate : dict unit) (table : mem) : mem :=
  foldl (fun table (kv : Z * unit) => write64 table kv.1 (Z.lor (read64 table kv.1) 1))
    table patch_compensate.

(** What [gen_cfg] computes before it touches the tables. *)
Record cfg_result : Type := mkCfgResult {
  r_callgraph : graph;   (* of the calls *)
  r_retgraph : graph;    (* with the returns *)
  r_fats_in_code : graph;
  r_vmtd : graph;
}.

Section gen_cfg.
Variable new_function : nat -> Z.
Variable attrs0 : Z.

Definition gen_graphs (modules : list code_module) (vtabletaken : dict unit) : res cfg_result :=
  let mi := merge_mcfi_metainfo new_function modules in
  '(callgraph, all_funcs_grouped_by_name) ←
    build_callgraph attrs0 (all_icfs mi) (all_functions mi) (all_classes mi) (all_cha mi)
      (all_fats mi) (all_aliases mi);
  let aliases := g_dtor (all_aliases mi) in
  aliases_tc ← g_transitive_closure aliases;
  '(fats_in_code, _) ← compute_fic (all_fats_in_code mi) (all_fats_in_data mi) aliases_tc;
  vmtd ← compute_tc_vmtd modules vtabletaken [] (all_defined_ctors mi) aliases_tc;
  retgraph ← build_retgraph callgraph (all_functions mi) all_funcs_grouped_by_name modules;
  Ok (mkCfgResult callgraph retgraph fats_in_code vmtd).

Definition gen_cfg (seen : list (list TCB)) (rt : runtime) : res runtime :=
  r ← gen_graphs (modules rt) (vtabletaken rt);
  lcg ← g_get_lcc (r_callgraph r);
  lrt ← g_get_lcc (r_retgraph r);
  ids ← gen_mcfi_id (COMPAT_MODE rt) lcg lrt (version rt);
  '(vs, seen) ← count_version (thread_escape_map rt) (version_space rt) seen;
  let '(tbl, fic, vm) :=
    fill_tables (callids ids) (retids ids) (id_for_other_icfs ids) (modules rt)
      (table rt, r_fats_in_code r, r_vmtd r) in
  let tbl := if rt_cfggened rt then tbl else compensate (patch_compensate rt) tbl in
  let rt := rt {{ table := tbl }} {{ rt_fats_in_code := fic }} {{ rt_vmtd := vm }}
               {{ version := new_version ids }} {{ version_space := vs }}
               {{ modules := (fun m => m {{ cfggened := true }}) <$> modules rt }}
               {{ patch_compensate := if rt_cfggened rt then patch_compensate rt else [] }}
               {{ rt_cfggened := true }} in
  match seen with
  | [] => NoFuel
  | l :: _ => update_thesc (rt {{ tcb_list := l }})
  end.

(** A function of a dynamic library is looked up: the functions at its address
    have their address taken. *)
Fixpoint find_dynfuncs (func_addr : Z) (ms : list code_module) : option (nat * dict unit) :=
  match ms with
  | [] => None
  | m :: ms' =>
    match (if in_module func_addr m then dict_find (dynfuncs m) (u64 (func_addr - base_addr m)) else None) with
    | Some fnl => Some (O, fnl)
    | None =>
      (* the address is relative to the module from now on *)
      let func_addr := if in_module func_addr m then u64 (func_addr - base_addr m) else func_addr in
      match find_dynfuncs func_addr ms' with
      | Some (i, fnl) => Some (S i, fnl)
      | None => None
      end
    end
  end.

Definition take_addr_and_gen_cfg (seen : list (list TCB)) (func_addr : Z) (rt : runtime) : res runtime :=
  match find_dynfuncs func_addr (modules rt) with
  | None => Exit
  | Some (i, fnl) =>
    m ← fetch (modules rt) i;
    taken ← foldM (fun taken (fn : Z * unit) => dict_add taken fn.1 tt) fnl (fats m);
    gen_cfg seen (set_module i (m {{ fats := taken }}) rt)
  end.
End gen_cfg.

(** The variables of the loop of [set_gotplt]. *)
Record gotplt_search : Type := mkSearch {
  func_addr : Z;
  found_am : option code_module;
  found_fnl : option (dict unit);
  foundv : bool;
}.

Definition set_gotplt_step (addr : Z) (st : gotplt_search) (m : code_module) : gotplt_search :=
  let st := if (gotplt m <=? addr) && (addr <? u64 (gotplt m + gotpltsz m))
            then st {{ found_am := Some m }} else st in
  if in_module (func_addr st) m then
    let a := u64 (func_addr st - base_addr m) in
    let st := st {{ func_addr := a }} in
    match dict_find (dynfuncs m) a with
    | Some fnl => st {{ found_fnl := Some fnl }} {{ foundv := true }}
    | None =>
      match dict_find (weakfuncs m) a with
      | Some fnl => st {{ found_fnl := Some fnl }} {{ foundv := true }}
      | None => st {{ found_fnl := None }}
      end
    end
  else st.

(** A [.got.plt] entry may only be set to a function of the entry's name. *)
Definition set_gotplt (addr v : Z) (rt : runtime) : res runtime :=
  let st := foldl (set_gotplt_step addr) (mkSearch v None None false) (modules rt) in
  match found_am st with
  | None => Exit
  | Some am =>
    if negb (foundv st) then Exit
    else
      match dict_find (gpfuncs am) (u64 (addr - gotplt am)) with
      | None => Exit
      | Some gpf =>
        match found_fnl st with
        | None => Fault
        | Some fnl =>
          if negb (dict_in fnl gpf) then Exit
          else
            let p := if instrumented am then u64 (osb_gotplt am + addr - gotplt am) else addr in
            Ok (rt {{ osb := write64 (osb rt) p v }})
        end
      end
  end.
