(* ===== verification/CfgTables.v ===== *)
(** * What the tables hold after [gen_cfg]

    The passes over the modules are one sequence of writes, each of which
    depends only on the word it replaces.  When the words written do not
    overlap, each one ends up with its identifier, whose lowest bit tells
    whether the target is active. *)

From S2P Require Import Prelude Dict Graph GraphFacts Module Table Cfg McfiId McfiFacts Runtime Threads GenCfg.

(** ** Sites *)

(** A word of the tables: a function entry, a return address (of an indirect
    call when [ic]), or the slot of a branch. *)
Inductive site : Type :=
  | FuncSite (m : code_module) (s : symbol)
  | RetSite (m : code_module) (ic : bool) (s : symbol)
  | BranchSite (s : symbol).

Definition addr (w : site) : Z :=
  match w with
  | FuncSite m s => base_addr m + s_offset s
  | RetSite m _ s => base_addr m + s_offset s
  | BranchSite s => s_offset s
  end.

Definition mark_ra (ic : bool) (name : Z) : Z := if ic then mark_ra_ic name else mark_ra_dc name.

(** The vertex of a target in the graphs. *)
Definition vertex (w : site) : Z :=
  match w with
  | FuncSite _ s => mark_func (s_name s)
  | RetSite _ ic s => mark_ra ic (s_name s)
  | BranchSite s => s_name s
  end.

Definition tary_sites (m : code_module) : list site :=
  (FuncSite m <$> funcsyms m) ++ (RetSite m false <$> rad m) ++ (RetSite m true <$> rai m).
Definition bary_sites (m : code_module) : list site := BranchSite <$> icfsyms m.

(** The sites of the modules in the order they are written. *)
Definition all_sites (ms : list code_module) : list site :=
  concat ((fun m => if cfggened m then [] else tary_sites m ++ bary_sites m) <$> ms) ++
  concat ((fun m => if cfggened m then tary_sites m else []) <$> ms) ++
  concat ((fun m => if cfggened m then bary_sites m else []) <$> ms).

(** No two words overlap, except that one site may be listed twice. *)
Definition sites_apart (l : list site) : Prop :=
  forall w w', w ∈ l -> w' ∈ l -> w' = w \/ apart (addr w) 8 (addr w') 8.

Section writes.
Context (callids retids : dict Z) (others : Z).

(** Targets that online patching activates: they are inactive at first. *)
Definition registered (fic vm : graph) (name : Z) : bool :=
  dict_in fic (unmark_ptr name) || dict_in vm (unmark_ptr name).

(** The word written to a site over the word [cur]. *)
Definition site_word (fic vm : graph) (w : site) (cur : Z) : option Z :=
  match w with
  | FuncSite m s =>
    (fun id => if (Z.land cur 1 =? 0) && registered fic vm (s_name s) then Z.land id NOT_ONE else id)
      <$> dict_find callids (mark_func (s_name s))
  | RetSite m ic s =>
    (fun id => Z.land id (if negb (activated m) && (Z.land cur 1 =? 0) then NOT_ONE else 2 ^ 64 - 1))
      <$> dict_find retids (mark_ra ic (s_name s))
  | BranchSite s => Some (branch_id callids retids others (s_name s))
  end.

Definition site_step (st : tary_state) (w : site) : tary_state :=
  match w with
  | FuncSite m s => populate_func_step m (base_addr m) callids false st s
  | RetSite m ic s =>
    let '(table, fic, vm) := st in
    (populate_ret_step (base_addr m) retids (mark_ra ic) (activated m) table s, fic, vm)
  | BranchSite s =>
    let '(table, fic, vm) := st in
    (write64 table (s_offset s) (branch_id callids retids others (s_name s)), fic, vm)
  end.

(** ** The passes are the writes of [all_sites] *)
Lemma foldl_rets m ic (l : list symbol) table fic vm :
  foldl site_step (table, fic, vm) (RetSite m ic <$> l) =
    (populate_tary_for_return_addr (base_addr m) retids l (mark_ra ic) (activated m) table, fic, vm).
Proof.
  revert table. unfold populate_tary_for_return_addr.
  induction l as [|s l IH]; intros table; [done|]. cbn [fmap list_fmap foldl]. apply IH.
Qed.

Lemma foldl_funcs m (l : list symbol) st :
  foldl site_step st (FuncSite m <$> l) = populate_tary_for_func_addr m (base_addr m) callids l false st.
Proof.
  revert st. unfold populate_tary_for_func_addr. induction l as [|s l IH]; intros st; [done|]. apply IH.
Qed.

Lemma foldl_tary m st : instrumented m = true ->
  foldl site_step st (tary_sites m) = gen_tary m callids retids st.
Proof.
  intros Hm. unfold gen_tary, tary_sites. rewrite Hm, !foldl_app, foldl_funcs. cbn [negb].
  destruct (populate_tary_for_func_addr m (base_addr m) callids (funcsyms m) false st) as [[t f] v].
  by rewrite !foldl_rets.
Qed.

Lemma foldl_bary m table fic vm :
  foldl site_step (table, fic, vm) (bary_sites m) = (gen_bary m callids retids others table, fic, vm).
Proof.
  unfold gen_bary, bary_sites. generalize (icfsyms m) as l. intros l. revert table.
  induction l as [|s l IH]; intros table; [done|]. cbn [fmap list_fmap foldl]. apply IH.
Qed.

Lemma foldl_concat {A B S} (f : S -> A -> S) (g : B -> list A) (h : S -> B -> S) l s :
  (forall s b, b ∈ l -> foldl f s (g b) = h s b) -> foldl f s (concat (g <$> l)) = foldl h s l.
Proof.
  revert s. induction l as [|b l IH]; intros s H; [done|]. cbn. rewrite foldl_app, H by left.
  apply IH. intros s' b' Hb. apply H. by right.
Qed.

Lemma fill_tables_sites ms st : (forall m, m ∈ ms -> instrumented m = true) ->
  fill_tables callids retids others ms st = foldl site_step st (all_sites ms).
Proof.
  intros Hi. unfold fill_tables, all_sites. rewrite !foldl_app.
  rewrite (foldl_concat _ (fun m => if cfggened m then [] else tary_sites m ++ bary_sites m)
    (fill_new callids retids others)).
  2:{ intros s m Hm. cbv beta. unfold fill_new. destruct (cfggened m); [done|].
      rewrite foldl_app, foldl_tary by auto. destruct (gen_tary m callids retids s) as [[t f] v].
      apply foldl_bary. }
  rewrite (foldl_concat _ (fun m => if cfggened m then tary_sites m else [])
    (fill_old_tary callids retids)).
  2:{ intros s m Hm. cbv beta. unfold fill_old_tary. destruct (cfggened m); [|done]. apply foldl_tary. auto. }
  destruct (foldl (fill_old_tary callids retids) _ ms) as [[t f] v].
  assert (Hb : forall ms' t, foldl site_step (t, f, v)
      (concat ((fun m => if cfggened m then bary_sites m else []) <$> ms')) =
    (foldl (fill_old_bary callids retids others) t ms', f, v)).
  { clear. intros ms'. induction ms' as [|m ms' IH]; intros t; [done|].
    cbn [fmap list_fmap concat foldl]. rewrite foldl_app. unfold fill_old_bary at 2.
    destruct (cfggened m); [rewrite foldl_bary|cbn [foldl]]; apply IH. }
  by rewrite Hb.
Qed.

(** ** One step *)
Lemma add_present {V} `{Null V} (g : dict V) k : dict_in g k = true -> g_add_vertex g k = g.
Proof. intros H1. unfold g_add_vertex, g_in. by rewrite H1. Qed.

Lemma keys_directed (g : graph) a b : dict_in g a = true -> keys (g_add_directed_edge g a b) = keys g.
Proof.
  intros Ha. unfold g_add_directed_edge, g_add_edge_helper. unfold dict_in in Ha.
  destruct (dict_find g a) as [adj|] eqn:Hf; [|done]. rewrite Hf. apply keys_set.
Qed.

Lemma dict_in_ext {V} (d1 d2 : dict V) k : keys d1 = keys d2 -> dict_in d1 k = dict_in d2 k.
Proof.
  intros H. destruct (dict_in d2 k) eqn:H2.
  - apply dict_in_keys. rewrite H. by apply dict_in_keys.
  - apply dict_in_false. rewrite H. by apply dict_in_false.
Qed.

Lemma site_step_spec t fic vm w : exists fic' vm',
  site_step (t, fic, vm) w =
    (match site_word fic vm w (read64 t (addr w)) with
     | Some v => write64 t (addr w) v
     | None => t
     end, fic', vm') /\
  keys fic' = keys fic /\ keys vm' = keys vm.
Proof.
  destruct w as [m s|m ic s|s]; cbn [site_step site_word addr].
  - unfold populate_func_step. destruct (dict_find callids (mark_func (s_name s))) as [id|]; cbn [fmap option_fmap option_map]; [|by eauto].
    cbn [negb andb]. unfold registered. destruct (Z.land (read64 t (base_addr m + s_offset s)) 1 =? 0); cbn [andb]; [|by eauto].
    destruct (dict_in fic (unmark_ptr (s_name s))) eqn:Hf; cbn [orb].
    + eexists _, _. split; [done|]. split; [by apply keys_directed|done].
    + destruct (dict_in vm (unmark_ptr (s_name s))) eqn:Hv; [|by eauto].
      eexists _, _. split; [done|]. split; [done|by apply keys_directed].
  - unfold populate_ret_step. destruct (dict_find retids (mark_ra ic (s_name s))) as [id|]; cbn; by eauto.
  - by eauto.
Qed.

(** The identifiers are words with the lowest bit set. *)
Definition ids_odd : Prop :=
  (forall x i, dict_find callids x = Some i \/ dict_find retids x = Some i -> 0 <= i < 2 ^ 64 /\ Z.odd i = true) /\
  0 <= others < 2 ^ 64 /\ Z.odd others = true.

Lemma land_NOT_ONE x : 0 <= x < 2 ^ 64 -> Z.land x NOT_ONE = x - x mod 2.
Proof.
  intros Hx. unfold NOT_ONE. replace (2 ^ 64 - 2) with (Z.shiftl (Z.ones 63) 1) by reflexivity.
  apply Z.bits_inj'. intros n Hn. rewrite Z.land_spec.
  replace (x - x mod 2) with (Z.shiftl (Z.shiftr x 1) 1).
  2:{ rewrite Z.shiftl_mul_pow2, Z.shiftr_div_pow2 by lia. change (2 ^ 1) with 2. div_lia. }
  rewrite !Z.shiftl_spec by lia. destruct (Z.ltb_spec n 1).
  - rewrite !(Z.testbit_neg_r _ (n - 1)) by lia. by rewrite andb_false_r.
  - rewrite Z.shiftr_spec by lia. replace (n - 1 + 1) with n by lia.
    destruct (Z.ltb_spec (n - 1) 63).
    + rewrite Z.ones_spec_low by lia. by rewrite andb_true_r.
    + rewrite Z.ones_spec_high by lia. rewrite andb_false_r. symmetry.
      apply Z.bits_above_log2; [lia|]. destruct (decide (x = 0)) as [->|]; [cbn; lia|].
      apply Z.log2_lt_pow2; [lia|]. apply Z.lt_le_trans with (2 ^ 64); [lia|]. apply Z.pow_le_mono_r; lia.
Qed.

Lemma land_ones64 x : 0 <= x < 2 ^ 64 -> Z.land x (2 ^ 64 - 1) = x.
Proof.
  intros Hx. replace (2 ^ 64 - 1) with (Z.ones 64) by reflexivity. rewrite Z.land_ones by lia. by apply Z.mod_small.
Qed.

Lemma odd_masked i : 0 <= i < 2 ^ 64 -> 0 <= Z.land i NOT_ONE < 2 ^ 64 /\ Z.odd (Z.land i NOT_ONE) = false.
Proof.
  intros Hi. rewrite land_NOT_ONE by done. split; [div_lia|]. rewrite Z.odd_sub, Zmod_odd.
  destruct (Z.odd i); done.
Qed.

Lemma branch_id_odd n : ids_odd -> 0 <= branch_id callids retids others n < 2 ^ 64 /\
  Z.odd (branch_id callids retids others n) = true.
Proof.
  intros [H1 H2]. unfold branch_id. destruct (dict_find callids _) eqn:Hc; [by eauto|].
  destruct (dict_find retids _) eqn:Hr; [by eauto|done].
Qed.

(** Whether a site is active after the write over [cur]. *)
Definition active (fic vm : graph) (w : site) (cur : Z) : bool :=
  match w with
  | FuncSite _ s => Z.odd cur || negb (registered fic vm (s_name s))
  | RetSite m _ _ => activated m || Z.odd cur
  | BranchSite _ => true
  end.

(** The identifier of a site. *)
Definition site_id (w : site) : option Z :=
  match w with
  | FuncSite _ s => dict_find callids (mark_func (s_name s))
  | RetSite _ ic s => dict_find retids (mark_ra ic (s_name s))
  | BranchSite s => Some (branch_id callids retids others (s_name s))
  end.

Lemma site_word_active fic vm w cur : ids_odd ->
  site_word fic vm w cur =
    (fun id => if active fic vm w cur then id else Z.land id NOT_ONE) <$> site_id w.
Proof.
  intros Hids. destruct w as [m s|m ic s|s]; cbn [site_word site_id active].
  - destruct (dict_find callids _) as [id|]; [|done]. cbn. rewrite land_one_odd.
    by destruct (Z.odd cur), (registered fic vm (s_name s)).
  - destruct (dict_find retids _) as [id|] eqn:Hr; [|done]. cbn. rewrite land_one_odd.
    destruct (activated m), (Z.odd cur); cbn; rewrite ?land_ones64; try done; by eapply Hids; eauto.
  - done.
Qed.

Lemma site_id_odd w id : ids_odd -> site_id w = Some id -> 0 <= id < 2 ^ 64 /\ Z.odd id = true.
Proof.
  intros Hids. destruct w as [m s|m ic s|s]; cbn [site_id].
  - intros H. eapply Hids. eauto.
  - intros H. eapply Hids. eauto.
  - intros [= <-]. by apply branch_id_odd.
Qed.

Lemma site_word_range fic vm w cur v : ids_odd -> site_word fic vm w cur = Some v -> 0 <= v < 2 ^ 64.
Proof.
  intros Hids. rewrite site_word_active by done. destruct (site_id w) as [id|] eqn:Hw; [|done].
  destruct (site_id_odd w id Hids Hw) as [Hr _]. cbn. intros [= <-].
  destruct (active fic vm w cur); [done|]. by apply odd_masked.
Qed.

(** Writing twice is writing once. *)
Lemma site_word_again fic vm w cur v : ids_odd -> site_word fic vm w cur = Some v ->
  site_word fic vm w v = Some v.
Proof.
  intros Hids. rewrite !site_word_active by done. destruct (site_id w) as [id|] eqn:Hw; [|done].
  destruct (site_id_odd w id Hids Hw) as [Hr Ho]. cbn. intros [= <-]. f_equal.
  destruct w as [m s|m ic s|s]; cbn [active].
  - destruct (Z.odd cur), (registered fic vm (s_name s)) eqn:Hreg; cbn; rewrite ?Ho; cbn; try done.
    by rewrite (proj2 (odd_masked id Hr)).
  - destruct (activated m), (Z.odd cur); cbn; rewrite ?Ho; try done. by rewrite (proj2 (odd_masked id Hr)).
  - done.
Qed.

Lemma site_word_keys fic vm fic' vm' w cur : keys fic' = keys fic -> keys vm' = keys vm ->
  site_word fic' vm' w cur = site_word fic vm w cur.
Proof.
  intros Hf Hv. destruct w as [m s|m ic s|s]; cbn [site_word]; [|done..].
  unfold registered. by rewrite (dict_in_ext fic' fic), (dict_in_ext vm' vm).
Qed.

(** ** The whole sequence *)
Lemma sites_fold l t fic vm : ids_odd -> exists t' fic' vm',
  foldl site_step (t, fic, vm) l = (t', fic', vm') /\ keys fic' = keys fic /\ keys vm' = keys vm /\
  (forall x, (forall w', w' ∈ l -> x < addr w' \/ addr w' + 8 <= x) -> t' x = t x) /\
  forall w, (forall w', w' ∈ l -> w' = w \/ apart (addr w) 8 (addr w') 8) ->
    let written := default (read64 t (addr w)) (site_word fic vm w (read64 t (addr w))) in
    (read64 t' (addr w) = read64 t (addr w) \/ read64 t' (addr w) = written) /\
    (w ∈ l -> read64 t' (addr w) = written).
Proof.
  intros Hids. revert t fic vm. induction l as [|x l IH]; intros t fic vm.
  { exists t, fic, vm. do 4 (split; [done|]). intros w _. split; [by left|].
    intros H. by apply not_elem_of_nil in H. }
  cbn [foldl]. destruct (site_step_spec t fic vm x) as (f1 & v1 & -> & Hf1 & Hv1).
  set (t1 := match site_word fic vm x (read64 t (addr x)) with Some v => write64 t (addr x) v | None => t end).
  destruct (IH t1 f1 v1) as (t' & f' & v' & -> & Hf & Hv & Hfr & Hw). exists t', f', v'. split; [done|].
  split; [congruence|]. split; [congruence|]. split.
  { intros y Hy. rewrite Hfr by (intros; apply Hy; by right). unfold t1.
    destruct (site_word fic vm x (read64 t (addr x))); [|done]. apply write_le_out. apply Hy. left. }
  intros w Hap. destruct (Hw w ltac:(intros; apply Hap; by right)) as [Hor Hin]. clear Hw.
  rewrite (site_word_keys fic vm f1 v1) in Hin, Hor by done. cbv zeta in *.
  destruct (Hap x ltac:(left)) as [->|Ha].
  - (* this write leaves the final word *)
    assert (H1 : read64 t1 (addr w) = default (read64 t (addr w)) (site_word fic vm w (read64 t (addr w))) /\
      default (read64 t1 (addr w)) (site_word fic vm w (read64 t1 (addr w))) = read64 t1 (addr w)).
    { unfold t1. destruct (site_word fic vm w (read64 t (addr w))) as [v|] eqn:Hs; cbn.
      - rewrite read64_same by (by eapply site_word_range). split; [done|].
        by rewrite (site_word_again fic vm w _ v Hids Hs).
      - split; [done|]. by rewrite Hs. }
    destruct H1 as [H1 H2]. rewrite H2 in Hor. rewrite H1 in Hor.
    split; [|intros _]; destruct Hor; auto.
  - assert (H1 : read64 t1 (addr w) = read64 t (addr w)).
    { unfold t1. destruct (site_word fic vm x (read64 t (addr x))); [by apply read64_apart|done]. }
    rewrite H1 in Hor, Hin. split; [done|]. intros [->|Hl]%elem_of_cons; [|by apply Hin].
    unfold apart in Ha. lia.
Qed.

(** ** Registration of inactive functions *)
Lemma edge_directed g a b x y : edge (g_add_directed_edge g a b) x y <-> edge g x y \/ (x = a /\ y = b).
Proof.
  unfold g_add_directed_edge. rewrite !edge_find, add_edge_helper_find. destruct (Z.eqb_spec a x) as [->|Hne].
  - split.
    + intros (adj & [= <-] & Hy). apply add_vertex_keys in Hy as [->|Hy]; [by right|left].
      destruct (dict_find g x) as [adj|]; [by exists adj|by apply not_elem_of_nil in Hy].
    + intros [(adj & Hadj & Hy)|[_ ->]]; eexists; (split; [done|]); apply add_vertex_keys; [right|by left].
      by rewrite Hadj.
  - split; [by left|]. by intros [?|[-> _]].
Qed.

(** The edge by which an inactive function is registered. *)
Definition registered_at (fic vm : graph) (m : code_module) (s : symbol) : Prop :=
  edge fic (unmark_ptr (s_name s)) (u64 (base_addr m + s_offset s)) \/
  edge vm (unmark_ptr (s_name s)) (u64 (base_addr m + s_offset s)).

Lemma site_step_graphs t fic vm w t' fic' vm' : site_step (t, fic, vm) w = (t', fic', vm') ->
  (forall n a, edge fic n a -> edge fic' n a) /\ (forall n a, edge vm n a -> edge vm' n a) /\
  (forall m s id, w = FuncSite m s -> dict_find callids (mark_func (s_name s)) = Some id ->
     active fic vm w (read64 t (addr w)) = false -> registered_at fic' vm' m s) /\
  (forall n a, edge fic' n a \/ edge vm' n a ->
     (edge fic n a \/ edge vm n a) \/
     exists m s, w = FuncSite m s /\ n = unmark_ptr (s_name s) /\ a = u64 (base_addr m + s_offset s)).
Proof.
  destruct w as [m s|m ic s|s]; cbn [site_step].
  - unfold populate_func_step. destruct (dict_find callids (mark_func (s_name s))) as [id|] eqn:Hid.
    2:{ intros [= <- <- <-]. split; [done|]. split; [done|]. split; [|by left].
        intros m' s' id [= <- <-]. by rewrite Hid. }
    cbn [negb andb]. rewrite land_one_odd. cbn [active addr]. unfold registered.
    destruct (Z.odd (read64 t (base_addr m + s_offset s))); cbn [negb orb].
    { intros [= <- <- <-]. split; [done|]. split; [done|]. split; [|by left].
      by intros m' s' id' [= <- <-] _. }
    destruct (dict_in fic (unmark_ptr (s_name s))) eqn:Hf; [|destruct (dict_in vm (unmark_ptr (s_name s))) eqn:Hv].
    + intros [= <- <- <-]. split; [intros; apply edge_directed; by left|]. split; [done|]. split.
      * intros m' s' id' [= <- <-] _ _. left. apply edge_directed. by right.
      * intros n a [H|H]; [|by left; right]. apply edge_directed in H as [H|[-> ->]]; [by left; left|right; eauto].
    + intros [= <- <- <-]. split; [done|]. split; [intros; apply edge_directed; by left|]. split.
      * intros m' s' id' [= <- <-] _ _. right. apply edge_directed. by right.
      * intros n a [H|H]; [by left; left|]. apply edge_directed in H as [H|[-> ->]]; [by left; right|right; eauto].
    + intros [= <- <- <-]. split; [done|]. split; [done|]. split; [|by left].
      by intros m' s' id' [= <- <-] _.
  - intros [= <- <- <-]. split; [done|]. split; [done|]. split; [by intros|by left].
  - intros [= <- <- <-]. split; [done|]. split; [done|]. split; [by intros|by left].
Qed.

Lemma active_keys fic vm fic' vm' w cur : keys fic' = keys fic -> keys vm' = keys vm ->
  active fic' vm' w cur = active fic vm w cur.
Proof.
  intros Hf Hv. destruct w as [m s|m ic s|s]; cbn [active]; [|done..].
  unfold registered. by rewrite (dict_in_ext fic' fic), (dict_in_ext vm' vm).
Qed.

Lemma sites_registered l t fic vm t' fic' vm' : ids_odd ->
  foldl site_step (t, fic, vm) l = (t', fic', vm') ->
  (forall n a, edge fic n a -> edge fic' n a) /\ (forall n a, edge vm n a -> edge vm' n a) /\
  (forall m s id, FuncSite m s ∈ l ->
     (forall w', w' ∈ l -> w' = FuncSite m s \/ apart (addr (FuncSite m s)) 8 (addr w') 8) ->
     dict_find callids (mark_func (s_name s)) = Some id ->
     active fic vm (FuncSite m s) (read64 t (addr (FuncSite m s))) = false -> registered_at fic' vm' m s) /\
  (forall n a, edge fic' n a \/ edge vm' n a ->
     (edge fic n a \/ edge vm n a) \/
     exists m s, FuncSite m s ∈ l /\ n = unmark_ptr (s_name s) /\ a = u64 (base_addr m + s_offset s)).
Proof.
  intros Hids. revert t fic vm. induction l as [|x l IH]; intros t fic vm; cbn [foldl].
  { intros [= <- <- <-]. split; [done|]. split; [done|]. split; [|by left].
    intros m s id H. by apply not_elem_of_nil in H. }
  destruct (site_step_spec t fic vm x) as (f1 & v1 & Hx & Hkf & Hkv).
  destruct (site_step (t, fic, vm) x) as [[t1 f1'] v1'] eqn:Hs. injection Hx as Ht -> ->.
  destruct (site_step_graphs _ _ _ _ _ _ _ Hs) as (G1 & G2 & G3 & G4).
  intros Hrun. destruct (IH _ _ _ Hrun) as (I1 & I2 & I3 & I4).
  split; [auto|]. split; [auto|]. split.
  - intros m s id Hin Hap Hid Hact.
    destruct (Hap x ltac:(left)) as [->|Ha].
    + destruct (G3 m s id eq_refl Hid Hact) as [He|He]; [left; by apply I1|right; by apply I2].
    + apply elem_of_cons in Hin as [<-|Hin]; [unfold apart in Ha; lia|].
      apply (I3 m s id Hin); [intros w' Hw'; apply Hap; by right|done|].
      rewrite (active_keys fic vm), Ht by done.
      destruct (site_word fic vm x (read64 t (addr x))); [by rewrite read64_apart|done].
  - intros n a H. destruct (I4 n a H) as [H1|(m & s & Hm & H1)].
    + destruct (G4 n a H1) as [H2|(m & s & -> & H2)]; [by left|right]. exists m, s. split; [left|done].
    + right. exists m, s. split; [by right|done].
Qed.
End writes.
