(* ===== verification/Policy.v ===== *)
(** * The policy that [gen_cfg] enforces

    An indirect branch is let through when the word of its slot is the word
    of its target.  After [gen_cfg], that is when the target is active and
    the graphs connect it with the branch. *)

From S2P Require Import Prelude Dict Graph GraphFacts Module Table Cfg CfgFacts McfiId McfiNumbers McfiFacts Runtime Threads GenCfg CfgTables.

(** ** Components and connection *)
Lemma same_component_connected g lcc x y : wf_graph g -> components g lcc -> x ∈ keys g ->
  same_component lcc x y <-> connected g x y.
Proof.
  intros Hg [C1 C2 C3] Hx. split.
  - intros (cc & Hcc & Hcx & Hcy). destruct (C1 cc Hcc) as (_ & z & Hz & Hy).
    apply Hy in Hcx, Hcy. etrans; [by apply connected_sym|done].
  - intros Hxy. destruct (C2 x Hx) as (cc & Hcc & Hcx). exists cc. split; [done|]. split; [done|].
    destruct (C1 cc Hcc) as (_ & z & Hz & Hy). apply Hy. apply Hy in Hcx. by etrans.
Qed.

Lemma components_keys g lcc x : wf_graph g -> components g lcc ->
  x ∈ concat (keys <$> lcc) <-> x ∈ keys g.
Proof.
  intros Hg [C1 C2 C3]. rewrite elem_of_components. split; [|apply C2].
  intros (cc & Hcc & Hx). destruct (C1 cc Hcc) as (_ & z & Hz & Hy). apply Hy in Hx.
  by eapply connected_key.
Qed.

Lemma length_components g lcc : wf_graph g -> components g lcc -> (length lcc <= length g)%nat.
Proof.
  intros Hg Hc. pose proof Hc as [C1 C2 C3].
  assert (H1 : (length (concat (keys <$> lcc)) <= length (keys g))%nat).
  { apply submseteq_length, NoDup_submseteq; [done|]. intros x. by apply components_keys. }
  assert (Hk : length (keys g) = length g) by apply length_fmap.
  rewrite Hk in H1. etrans; [|exact H1]. clear -C1.
  induction lcc as [|cc lcc IH]; [cbn; lia|]. cbn. rewrite length_app.
  destruct (C1 cc ltac:(left)) as (_ & x & _ & Hy).
  assert (Hx : x ∈ keys cc) by (apply Hy; constructor).
  destruct (keys cc) as [|k ks]; [by apply not_elem_of_nil in Hx|]. cbn.
  pose proof (IH ltac:(intros c Hc; apply C1; by right)). lia.
Qed.

(** ** Compensation *)
Lemma compensate_spec pc t a : 0 <= read64 t a < 2 ^ 64 ->
  (forall k, k ∈ keys pc -> k = a \/ apart a 8 k 8) ->
  read64 (compensate pc t) a = if decide (a ∈ keys pc) then Z.lor (read64 t a) 1 else read64 t a.
Proof.
  revert t. unfold compensate, keys. induction pc as [|[k u] pc IH]; intros t Hr Hk; cbn [foldl fmap list_fmap fst].
  { rewrite decide_False; [done|apply not_elem_of_nil]. }
  pose proof lor_one_range as Hlor.
  destruct (decide (k = a)) as [->|Hne].
  - rewrite (decide_True (P := a ∈ a :: _)) by left.
    rewrite IH; [|by rewrite read64_same; auto|by intros k Hk'; apply Hk; right].
    rewrite read64_same by auto. destruct (decide (a ∈ pc.*1)); [|done].
    by rewrite <- Z.lor_assoc.
  - destruct (Hk k ltac:(left)) as [?|Hap]; [done|].
    rewrite IH; rewrite ?read64_apart by done; [|done|by intros k' Hk'; apply Hk; right].
    destruct (decide (a ∈ pc.*1)); [rewrite decide_True; [done|by right]|].
    rewrite decide_False; [done|]. apply not_elem_of_cons. auto.
Qed.

Lemma lor_one_masked x : 0 <= x < 2 ^ 64 -> Z.odd x = true -> Z.lor (Z.land x NOT_ONE) 1 = x.
Proof.
  intros Hr Hx. rewrite lor_1_even.
  - rewrite land_NOT_ONE, Zmod_odd, Hx by done. lia.
  - rewrite <- Z.negb_odd. by rewrite (proj2 (odd_masked x Hr)).
Qed.

(** The modules, all marked as having a graph. *)
Definition generated (ms : list code_module) : list code_module := (fun m => m {{ cfggened := true }}) <$> ms.

(** ** The graphs that [gen_cfg] computes *)
Section policy.
Variable new_function : nat -> Z.
Variable attrs0 : Z.

Lemma gen_graphs_wf ms vt r : gen_graphs new_function attrs0 ms vt = Ok r ->
  wf_graph (r_callgraph r) /\ wf_graph (r_retgraph r) /\
  (forall m s, m ∈ ms -> s ∈ rad m -> mark_ra_dc (s_name s) ∈ keys (r_retgraph r)) /\
  (forall m s, m ∈ ms -> s ∈ rai m -> mark_ra_ic (s_name s) ∈ keys (r_retgraph r)).
Proof.
  unfold gen_graphs. intros ([cg by_nm] & Hcg & H)%bind_Ok_inv.
  apply bind_Ok_inv in H as (tc & _ & H). apply bind_Ok_inv in H as ([fic fid] & _ & H).
  apply bind_Ok_inv in H as (vm & _ & H). apply bind_Ok_inv in H as (rg & Hrg & [= <-]).
  cbn [r_callgraph r_retgraph]. apply build_callgraph_wf in Hcg.
  pose proof (build_retgraph_grows _ _ _ _ _ Hrg) as [Hw _].
  assert (Hrw : wf_graph rg) by auto.
  assert (Hkey : forall a b, edge rg a b -> a ∈ keys rg).
  { intros a b Hab. apply (wfg_target _ Hrw b). by apply (wfg_sym _ Hrw). }
  split; [done|]. split; [done|].
  split; intros m s Hm Hs; eapply Hkey; by eapply build_retgraph_sites.
Qed.

(** The tables before compensation. *)
Lemma gen_cfg_inv seen rt rt' r : gen_cfg new_function attrs0 seen rt = Ok rt' ->
  gen_graphs new_function attrs0 (modules rt) (vtabletaken rt) = Ok r ->
  exists lcg lrt ids tbl fic vm,
    g_get_lcc (r_callgraph r) = Ok lcg /\ g_get_lcc (r_retgraph r) = Ok lrt /\
    gen_mcfi_id (COMPAT_MODE rt) lcg lrt (version rt) = Ok ids /\
    fill_tables (callids ids) (retids ids) (id_for_other_icfs ids) (modules rt)
      (table rt, r_fats_in_code r, r_vmtd r) = (tbl, fic, vm) /\
    table rt' = (if rt_cfggened rt then tbl else compensate (patch_compensate rt) tbl) /\
    rt_fats_in_code rt' = fic /\ rt_vmtd rt' = vm /\
    modules rt' = generated (modules rt) /\ version rt' = new_version ids.
Proof.
  unfold gen_cfg. intros H Hr. rewrite Hr, bind_Ok in H.
  apply bind_Ok_inv in H as (lcg & Hlcg & H). apply bind_Ok_inv in H as (lrt & Hlrt & H).
  apply bind_Ok_inv in H as (ids & Hids & H). apply bind_Ok_inv in H as ([vs seen'] & _ & H).
  destruct (fill_tables _ _ _ _ _) as [[tbl fic] vm] eqn:Hf. destruct seen' as [|l seen']; [done|].
  unfold update_thesc in H. apply bind_Ok_inv in H as (th & _ & [= <-]).
  exists lcg, lrt, ids, tbl, fic, vm. by repeat (split; [done|]).
Qed.

(** The state [gen_cfg] expects: instrumented modules, words of the tables
    that do not overlap, and return addresses waiting to be activated. *)
Record cfg_ready (rt : runtime) : Prop := {
  ready_compat : COMPAT_MODE rt = false;
  ready_instrumented : forall m, m ∈ modules rt -> instrumented m = true;
  ready_version : 0 <= version rt < 2 ^ 64;
  ready_apart : sites_apart (all_sites (modules rt));
  ready_compensate : forall k w, k ∈ keys (patch_compensate rt) -> w ∈ all_sites (modules rt) ->
    k = addr w \/ apart (addr w) 8 k 8;
}.

(** Which targets a branch may reach: its calls, else its return. *)
Definition may_reach (r : cfg_result) (b : symbol) (w : site) : Prop :=
  match w with
  | FuncSite _ _ => connected (r_callgraph r) (mark_icj (s_name b)) (vertex w)
  | RetSite _ _ _ => mark_icj (s_name b) ∉ keys (r_callgraph r) /\
                     connected (r_retgraph r) (mark_ret (s_name b)) (vertex w)
  | BranchSite _ => False
  end.

(** The targets that have an identifier. *)
Definition has_id (r : cfg_result) (w : site) : Prop :=
  match w with FuncSite _ _ => vertex w ∈ keys (r_callgraph r) | _ => True end.

Definition target_active (rt : runtime) (r : cfg_result) (w : site) : bool :=
  active (r_fats_in_code r) (r_vmtd r) w (read64 (table rt) (addr w)) ||
  negb (rt_cfggened rt) && dict_in (patch_compensate rt) (addr w).

(** What the check before an indirect branch compares. *)
Definition check_passes (t : mem) (b : symbol) (w : site) : bool :=
  read64 t (s_offset b) =? read64 t (addr w).

Lemma in_all_sites m w ms : m ∈ ms -> w ∈ tary_sites m ++ bary_sites m -> w ∈ all_sites ms.
Proof.
  intros Hm Hw.
  assert (Hc : forall (f : code_module -> list site), w ∈ f m -> w ∈ concat (f <$> ms)).
  { intros f Hf. apply list_elem_of_In, List.in_concat. exists (f m).
    rewrite <- !list_elem_of_In. split; [by apply list_elem_of_fmap_2|done]. }
  unfold all_sites. rewrite !elem_of_app. destruct (cfggened m) eqn:Hg.
  - right. apply elem_of_app in Hw as [Hw|Hw].
    + left. apply (Hc (fun m => if cfggened m then tary_sites m else [])). by rewrite Hg.
    + right. apply (Hc (fun m => if cfggened m then bary_sites m else [])). by rewrite Hg.
  - left. apply (Hc (fun m => if cfggened m then [] else tary_sites m ++ bary_sites m)). by rewrite Hg.
Qed.

(** ** Words after [gen_cfg] *)
Section run.
Context (seen : list (list TCB)) (rt rt' : runtime) (r : cfg_result).
Hypothesis (Hready : cfg_ready rt).
Hypothesis (Hgraphs : gen_graphs new_function attrs0 (modules rt) (vtabletaken rt) = Ok r).
Hypothesis (Hspace : Z.of_nat (length (r_callgraph r)) + Z.of_nat (length (r_retgraph r)) < SPACE).
Hypothesis (Hrun : gen_cfg new_function attrs0 seen rt = Ok rt').

(** The identifiers, and the writes. *)
Lemma gen_cfg_run : exists lcg lrt ids t',
  components (r_callgraph r) lcg /\ components (r_retgraph r) lrt /\ ids_spec lcg lrt ids /\
  ids_odd (callids ids) (retids ids) (id_for_other_icfs ids) /\
  foldl (site_step (callids ids) (retids ids) (id_for_other_icfs ids))
    (table rt, r_fats_in_code r, r_vmtd r) (all_sites (modules rt)) = (t', rt_fats_in_code rt', rt_vmtd rt') /\
  table rt' = (if rt_cfggened rt then t' else compensate (patch_compensate rt) t') /\
  g_get_lcc (r_callgraph r) = Ok lcg /\ g_get_lcc (r_retgraph r) = Ok lrt /\
  gen_mcfi_id false lcg lrt (version rt) = Ok ids /\ version rt' = new_version ids /\
  modules rt' = generated (modules rt).
Proof using Hready Hgraphs Hspace Hrun.
  destruct (gen_graphs_wf _ _ _ Hgraphs) as (Hwc & Hwr & _ & _).
  destruct (gen_cfg_inv _ _ _ _ Hrun Hgraphs)
    as (lcg & lrt & ids & tbl & fic & vm & Hlcg & Hlrt & Hids & Hfill & Htab & Hfic & Hvm & Hms & Hnv).
  destruct (g_get_lcc_spec _ Hwc) as (lcg' & Hl & Hcg). rewrite Hlcg in Hl. injection Hl as <-.
  destruct (g_get_lcc_spec _ Hwr) as (lrt' & Hl & Hrg). rewrite Hlrt in Hl. injection Hl as <-.
  pose proof (length_components _ _ Hwc Hcg). pose proof (length_components _ _ Hwr Hrg).
  destruct Hready as [Hcompat Hinstr Hver Hap Hcomp]. rewrite Hcompat in Hids.
  destruct (gen_mcfi_id_spec lcg lrt (version rt)) as (ids' & Hi & Hspec);
    [apply Hcg|apply Hrg|lia|done|]. rewrite Hids in Hi. injection Hi as <-.
  exists lcg, lrt, ids, tbl. split; [done|]. split; [done|]. split; [done|]. split.
  { split; [|by destruct (others_ok _ _ _ Hspec) as (? & ? & _)].
    intros x i Hx. by destruct (all_ok _ _ _ Hspec x i Hx) as [(? & ? & _) _]. }
  rewrite fill_tables_sites in Hfill by done. rewrite Hfic, Hvm. by repeat (split; [done|]).
Qed.

(** The final word of every site that has an identifier. *)
Lemma gen_cfg_words : exists lcg lrt ids,
  components (r_callgraph r) lcg /\ components (r_retgraph r) lrt /\ ids_spec lcg lrt ids /\
  forall w id, w ∈ all_sites (modules rt) ->
    site_id (callids ids) (retids ids) (id_for_other_icfs ids) w = Some id ->
    0 <= id < 2 ^ 64 /\ Z.odd id = true /\
    read64 (table rt') (addr w) = if target_active rt r w then id else Z.land id NOT_ONE.
Proof using Hready Hgraphs Hspace Hrun.
  destruct gen_cfg_run as (lcg & lrt & ids & tbl & Hcg & Hrg & Hspec & Hodd & Hfold & Htab & _).
  exists lcg, lrt, ids. split; [done|]. split; [done|]. split; [done|].
  destruct (sites_fold _ _ _ (all_sites (modules rt)) (table rt) (r_fats_in_code r) (r_vmtd r) Hodd)
    as (t' & f' & v' & Hf & _ & _ & _ & Hsites).
  rewrite Hf in Hfold. injection Hfold as -> _ _.
  intros w id Hw Hid. destruct (site_id_odd _ _ _ w id Hodd Hid) as [Hr Ho].
  split; [done|]. split; [done|].
  destruct (Hsites w (fun w' Hw' => ready_apart _ Hready w w' Hw Hw')) as [_ Hword]. specialize (Hword Hw).
  rewrite (site_word_active _ _ _ _ _ _ _ Hodd), Hid in Hword. cbn in Hword.
  rewrite Htab. unfold target_active. set (act := active _ _ w _) in *.
  assert (Hrange : 0 <= read64 tbl (addr w) < 2 ^ 64).
  { rewrite Hword. destruct act; [done|]. by apply odd_masked. }
  destruct (rt_cfggened rt); cbn [negb andb]; [by rewrite orb_false_r, Hword|].
  rewrite compensate_spec; [|done|intros k Hk; by apply (ready_compensate _ Hready)].
  destruct (decide (addr w ∈ keys (patch_compensate rt))) as [Hin|Hin].
  - rewrite (proj2 (dict_in_keys _ _) Hin), orb_true_r, Hword.
    destruct act; [by apply lor_one_odd|by apply lor_one_masked].
  - rewrite (proj2 (dict_in_false _ _) Hin), orb_false_r. exact Hword.
Qed.

Lemma masked_ne x id : 0 <= id < 2 ^ 64 -> Z.odd x = true -> x = Z.land id NOT_ONE -> False.
Proof. intros Hi Hx ->. by rewrite (proj2 (odd_masked id Hi)) in Hx. Qed.

(** The identifier of a branch is that of the targets it may reach. *)
Lemma branch_id_reach lcg lrt ids b w id m : components (r_callgraph r) lcg -> components (r_retgraph r) lrt ->
  ids_spec lcg lrt ids -> m ∈ modules rt -> w ∈ tary_sites m ->
  site_id (callids ids) (retids ids) (id_for_other_icfs ids) w = Some id ->
  branch_id (callids ids) (retids ids) (id_for_other_icfs ids) (s_name b) = id <-> may_reach r b w.
Proof using Hgraphs.
  destruct (gen_graphs_wf _ _ _ Hgraphs) as (Hwc & Hwr & _ & _).
  intros Hcg Hrg Hspec Hm Hw Hid.
  assert (Hcall : forall x, dict_in (callids ids) x = true <-> x ∈ keys (r_callgraph r)).
  { intros x. rewrite (calls_dom _ _ _ Hspec). by apply components_keys. }
  assert (Hret : forall x, dict_in (retids ids) x = true <-> x ∈ keys (r_retgraph r)).
  { intros x. rewrite (rets_dom _ _ _ Hspec). by apply components_keys. }
  assert (Hfind : forall (d : dict Z) x i, dict_find d x = Some i -> dict_in d x = true)
    by (intros d x i Hx; unfold dict_in; by rewrite Hx).
  assert (Hnone : forall (d : dict Z) x, dict_find d x = None -> dict_in d x = false)
    by (intros d x Hx; unfold dict_in; by rewrite Hx).
  unfold branch_id.
  destruct w as [m' s|m' ic s|s]; cbn [site_id may_reach vertex] in *.
  - assert (Hs : mark_func (s_name s) ∈ keys (r_callgraph r)) by (apply Hcall; eauto).
    destruct (dict_find (callids ids) (mark_icj (s_name b))) as [i|] eqn:Hc.
    + rewrite (calls_same _ _ _ Hspec _ _ i id Hc Hid). apply same_component_connected; [done..|].
      apply Hcall. eauto.
    + assert (Hno : ~ connected (r_callgraph r) (mark_icj (s_name b)) (mark_func (s_name s))).
      { intros Hconn. apply Hnone in Hc. rewrite (proj2 (Hcall _)) in Hc; [done|].
        eapply connected_key; [done|exact Hs|]. by apply connected_sym. }
      split; [|done]. intros Heq. exfalso.
      destruct (dict_find (retids ids) (mark_ret (s_name b))) as [j|] eqn:Hr.
      * by apply (calls_rets _ _ _ Hspec _ _ id j Hid Hr).
      * destruct (all_ok _ _ _ Hspec (mark_func (s_name s)) id) as [_ Hne]; [by left|]. by apply Hne.
  - destruct (dict_find (callids ids) (mark_icj (s_name b))) as [i|] eqn:Hc.
    + split.
      * intros ->. exfalso. by apply (calls_rets _ _ _ Hspec _ _ id id Hc Hid).
      * intros [Hn _]. exfalso. apply Hn, Hcall. eauto.
    + assert (Hn : mark_icj (s_name b) ∉ keys (r_callgraph r)).
      { rewrite <- Hcall. by rewrite (Hnone _ _ Hc). }
      destruct (dict_find (retids ids) (mark_ret (s_name b))) as [j|] eqn:Hr.
      * rewrite (rets_same _ _ _ Hspec _ _ j id Hr Hid), same_component_connected; [|done..|].
        -- split; [done|by intros [_ ?]].
        -- apply Hret. eauto.
      * split.
        -- intros Heq. exfalso. destruct (all_ok _ _ _ Hspec (mark_ra ic (s_name s)) id) as [_ Hne];
             [by right|]. by apply Hne.
        -- intros [_ Hconn]. exfalso. apply Hnone in Hr. rewrite (proj2 (Hret _)) in Hr; [done|].
           eapply connected_key; [done| |by apply connected_sym]. apply Hret. eauto.
  - unfold tary_sites in Hw. rewrite !elem_of_app in Hw.
    destruct Hw as [Hw|[Hw|Hw]]; by apply list_elem_of_fmap in Hw as (? & ? & _).
Qed.
End run.

Lemma has_id_site rt r lcg lrt ids m w :
  gen_graphs new_function attrs0 (modules rt) (vtabletaken rt) = Ok r ->
  components (r_callgraph r) lcg -> components (r_retgraph r) lrt -> ids_spec lcg lrt ids ->
  m ∈ modules rt -> w ∈ tary_sites m -> has_id r w ->
  exists id, site_id (callids ids) (retids ids) (id_for_other_icfs ids) w = Some id.
Proof.
  intros Hr Hcg Hrg Hspec Hm Hw Hhas. destruct (gen_graphs_wf _ _ _ Hr) as (Hwc & Hwr & Hrad & Hrai).
  assert (Hin : forall (d : dict Z) x, dict_in d x = true -> exists id, dict_find d x = Some id).
  { intros d x. unfold dict_in. destruct (dict_find d x); [by eexists|done]. }
  destruct w as [mw s|mw ic s|s]; cbn [site_id]; [| |by eexists].
  - apply Hin, (calls_dom _ _ _ Hspec), (components_keys (r_callgraph r)); done.
  - apply Hin, (rets_dom _ _ _ Hspec), (components_keys (r_retgraph r)); [done..|].
    unfold tary_sites in Hw. rewrite !elem_of_app in Hw.
    destruct Hw as [Hw|[Hw|Hw]]; apply list_elem_of_fmap in Hw as (? & Heq & Hs); [done|..].
    + injection Heq as -> -> ->. by apply (Hrad m).
    + injection Heq as -> -> ->. by apply (Hrai m).
Qed.

(** The words that the check of branch [b] compares for target [w]. *)
Lemma policy_words seen rt rt' r m b m' w :
  cfg_ready rt -> gen_graphs new_function attrs0 (modules rt) (vtabletaken rt) = Ok r ->
  Z.of_nat (length (r_callgraph r)) + Z.of_nat (length (r_retgraph r)) < SPACE ->
  gen_cfg new_function attrs0 seen rt = Ok rt' ->
  m ∈ modules rt -> b ∈ icfsyms m -> m' ∈ modules rt -> w ∈ tary_sites m' -> has_id r w ->
  exists bid id, 0 <= bid < 2 ^ 64 /\ Z.odd bid = true /\ 0 <= id < 2 ^ 64 /\ Z.odd id = true /\
    read64 (table rt') (s_offset b) = bid /\
    read64 (table rt') (addr w) = (if target_active rt r w then id else Z.land id NOT_ONE) /\
    (bid = id <-> may_reach r b w).
Proof.
  intros Hready Hr Hspace Hrun Hm Hb Hm' Hw Hhas.
  destruct (gen_cfg_words seen rt rt' r Hready Hr Hspace Hrun) as (lcg & lrt & ids & Hcg & Hrg & Hspec & Hword).
  destruct (has_id_site rt r lcg lrt ids m' w Hr Hcg Hrg Hspec Hm' Hw Hhas) as (id & Hid).
  destruct (Hword w id) as (Hrg' & Hodd & Hwd); [|done|].
  { apply (in_all_sites m'); [done|]. apply elem_of_app. by left. }
  set (bid := branch_id (callids ids) (retids ids) (id_for_other_icfs ids) (s_name b)).
  destruct (Hword (BranchSite b) bid) as (Hbr & Hbo & Hbw); [|reflexivity|].
  { apply (in_all_sites m); [done|]. apply elem_of_app. right. by apply list_elem_of_fmap_2. }
  exists bid, id. do 6 (split; [done|]).
  exact (branch_id_reach rt r Hr lcg lrt ids b w id m' Hcg Hrg Hspec Hm' Hw Hid).
Qed.

Lemma policy_exact seen rt rt' r m b m' w :
  cfg_ready rt -> gen_graphs new_function attrs0 (modules rt) (vtabletaken rt) = Ok r ->
  Z.of_nat (length (r_callgraph r)) + Z.of_nat (length (r_retgraph r)) < SPACE ->
  gen_cfg new_function attrs0 seen rt = Ok rt' ->
  m ∈ modules rt -> b ∈ icfsyms m -> m' ∈ modules rt -> w ∈ tary_sites m' -> has_id r w ->
  check_passes (table rt') b w = true <-> may_reach r b w /\ target_active rt r w = true.
Proof.
  intros Hready Hr Hspace Hrun Hm Hb Hm' Hw Hhas.
  destruct (policy_words seen rt rt' r m b m' w Hready Hr Hspace Hrun Hm Hb Hm' Hw Hhas)
    as (bid & id & Hbr & Hbo & Hir & Hio & Hbw & Hwd & Hiff).
  unfold check_passes. rewrite Hbw, Hwd, Z.eqb_eq, <- Hiff.
  destruct (target_active rt r w); [naive_solver|]. split; [|by intros [_ ?]].
  intros Heq. exfalso. by eapply (masked_ne bid id).
Qed.

(** C9.  The policy.  After [gen_cfg], the check of an indirect branch lets a
    target through exactly when the target is active and the call graph (for
    functions) or the return graph (for return addresses) connects it with
    the branch.  A target is inactive only until online patching turns it
    on: a return address of a module that is not active by default, or a
    function known only through its address taken in code or its class's
    vtable, that was not active before. *)
Theorem gen_cfg_policy seen rt rt' r :
  cfg_ready rt -> gen_graphs new_function attrs0 (modules rt) (vtabletaken rt) = Ok r ->
  Z.of_nat (length (r_callgraph r)) + Z.of_nat (length (r_retgraph r)) < SPACE ->
  gen_cfg new_function attrs0 seen rt = Ok rt' ->
  forall m b m' w, m ∈ modules rt -> b ∈ icfsyms m -> m' ∈ modules rt -> w ∈ tary_sites m' -> has_id r w ->
    (check_passes (table rt') b w = true <-> may_reach r b w /\ target_active rt r w = true).
Proof.
  intros Hready Hr Hspace Hrun m b m' w Hm Hb Hm' Hw Hhas. by apply (policy_exact seen rt rt' r m b m' w).
Qed.

(** C11.  No target is lost: a function that [gen_cfg] leaves inactive is
    registered, under its name and at its address, with the functions that
    [patch_at] or [patch_entry] will activate. *)
Theorem gen_cfg_registers_inactive seen rt rt' r :
  cfg_ready rt -> gen_graphs new_function attrs0 (modules rt) (vtabletaken rt) = Ok r ->
  Z.of_nat (length (r_callgraph r)) + Z.of_nat (length (r_retgraph r)) < SPACE ->
  gen_cfg new_function attrs0 seen rt = Ok rt' ->
  forall m s, m ∈ modules rt -> s ∈ funcsyms m -> has_id r (FuncSite m s) ->
    target_active rt r (FuncSite m s) = false ->
    registered_at (rt_fats_in_code rt') (rt_vmtd rt') m s.
Proof.
  intros Hready Hr Hspace Hrun m s Hm Hs Hhas Hact.
  destruct (gen_cfg_run seen rt rt' r Hready Hr Hspace Hrun)
    as (lcg & lrt & ids & t' & Hcg & Hrg & Hspec & Hodd & Hfold & _).
  destruct (gen_graphs_wf _ _ _ Hr) as (Hwc & Hwr & _).
  assert (Hid : exists id, dict_find (callids ids) (mark_func (s_name s)) = Some id).
  { assert (Hin : dict_in (callids ids) (mark_func (s_name s)) = true)
      by by apply (calls_dom _ _ _ Hspec), (components_keys (r_callgraph r)).
    unfold dict_in in Hin. destruct (dict_find (callids ids) _); [by eexists|done]. }
  destruct Hid as (id & Hid).
  assert (Hin : FuncSite m s ∈ all_sites (modules rt)).
  { apply (in_all_sites m); [done|]. unfold tary_sites. rewrite !elem_of_app. left. left.
    by apply list_elem_of_fmap_2. }
  destruct (sites_registered _ _ _ _ _ _ _ _ _ _ Hodd Hfold) as (_ & _ & Hreg & _).
  apply (Hreg m s id Hin); [|done|].
  - intros w' Hw'. by apply (ready_apart _ Hready).
  - unfold target_active in Hact. by apply orb_false_iff in Hact as [? _].
Qed.
End policy.

(** ** A small program

    A module with a function at its start, whose address is taken in data,
    a function whose address is taken in code, an indirect call of their
    type, and a return site of the first one. *)
Definition sample_module : code_module :=
  alloc_code_module {{ base_addr := 0x400000 }} {{ sz := 0x1000 }} {{ instrumented := true }}
    {{ icfs := [(0x40, NormalCall 0x100)] }}
    {{ functions := [mkFunction 0x10 0 0 0x100 [0x50] [] []; mkFunction 0x20 0 0 0x100 [0x51] [] []] }}
    {{ fats := [(0x10, tt); (0x20, tt)] }} {{ fats_in_data := [(0x10, tt)] }} {{ fats_in_code := [(0x20, [])] }}
    {{ funcsyms := [mkSymbol 0x10 0; mkSymbol 0x20 64] }}
    {{ rad := [mkSymbol 0x10 128] }}
    {{ icfsyms := [mkSymbol 0x40 0x11000; mkSymbol 0x50 0x11008] }}.

Definition sample_state : runtime := sample_runtime {{ modules := [sample_module] }}.
Definition sample_seen : list (list TCB) := [[]; []].
Definition sample_addr (n : nat) : Z := 0x1000 + Z.of_nat n.

Lemma sample_ready : cfg_ready sample_state.
Proof.
  constructor; [reflexivity| |cbn; lia| |].
  - intros m Hm. apply list_elem_of_singleton in Hm as ->. reflexivity.
  - intros w w' Hw Hw'. cbn in Hw, Hw'. unfold apart.
    repeat (apply elem_of_cons in Hw as [->|Hw]); [..|by apply not_elem_of_nil in Hw];
      (repeat (apply elem_of_cons in Hw' as [->|Hw']); [..|by apply not_elem_of_nil in Hw']);
      first [left; reflexivity|right; left; vm_compute; discriminate|right; right; vm_compute; discriminate].
  - intros k w Hk. by apply not_elem_of_nil in Hk.
Qed.

(** The call is let through to the first function and not yet to the second. *)
Lemma gen_cfg_policy_witness : exists rt', gen_cfg sample_addr 0 sample_seen sample_state = Ok rt' /\
  check_passes (table rt') (mkSymbol 0x40 0x11000) (FuncSite sample_module (mkSymbol 0x10 0)) = true /\
  check_passes (table rt') (mkSymbol 0x40 0x11000) (FuncSite sample_module (mkSymbol 0x20 64)) <> true.
Proof.
  assert (Hok : match gen_cfg sample_addr 0 sample_seen sample_state with Ok _ => true | _ => false end = true)
    by (vm_compute; reflexivity).
  destruct (gen_cfg sample_addr 0 sample_seen sample_state) as [rt'| | |] eqn:Hrun; [|discriminate..].
  clear Hok. exists rt'. split; [reflexivity|].
  destruct (gen_graphs sample_addr 0 (modules sample_state) (vtabletaken sample_state)) as [r| | |] eqn:Hr;
    [|vm_compute in Hr; discriminate..].
  assert (Hspace : Z.of_nat (length (r_callgraph r)) + Z.of_nat (length (r_retgraph r)) < SPACE)
    by (vm_compute in Hr; injection Hr as <-; cbn; unfold SPACE; lia).
  pose proof (gen_cfg_policy sample_addr 0 sample_seen sample_state rt' r sample_ready Hr Hspace Hrun
    sample_module (mkSymbol 0x40 0x11000) sample_module) as Hp.
  vm_compute in Hr. injection Hr as <-. split.
  - apply (Hp (FuncSite sample_module (mkSymbol 0x10 0)));
      [left|left|left|left|right; left|]. split; [apply rtc_once; reflexivity|reflexivity].
  - intros H. apply (Hp (FuncSite sample_module (mkSymbol 0x20 64))) in H;
      [|left|left|left|right; left|right; right; left]. destruct H as [_ H]. discriminate.
Defined.

(** The second function is registered for [patch_at]. *)
Lemma gen_cfg_registers_witness : exists rt', gen_cfg sample_addr 0 sample_seen sample_state = Ok rt' /\
  registered_at (rt_fats_in_code rt') (rt_vmtd rt') sample_module (mkSymbol 0x20 64).
Proof.
  assert (Hok : match gen_cfg sample_addr 0 sample_seen sample_state with Ok _ => true | _ => false end = true)
    by (vm_compute; reflexivity).
  destruct (gen_cfg sample_addr 0 sample_seen sample_state) as [rt'| | |] eqn:Hrun; [|discriminate..].
  clear Hok. exists rt'. split; [reflexivity|].
  destruct (gen_graphs sample_addr 0 (modules sample_state) (vtabletaken sample_state)) as [r| | |] eqn:Hr;
    [|vm_compute in Hr; discriminate..].
  assert (Hspace : Z.of_nat (length (r_callgraph r)) + Z.of_nat (length (r_retgraph r)) < SPACE)
    by (vm_compute in Hr; injection Hr as <-; cbn; unfold SPACE; lia).
  apply (gen_cfg_registers_inactive sample_addr 0 sample_seen sample_state rt' r sample_ready Hr Hspace Hrun);
    [left|right; left|..]; vm_compute in Hr; injection Hr as <-; [right; right; left|reflexivity].
Defined.
