(* ===== verification/TableTypes.v ===== *)
(** * The words of the tables carry their version

    Every odd word of the tables is an identifier of the present version, and
    every other byte a load could meet is even and not the code of a native
    module, so that a load at an address that is not a target, aligned or
    not, never looks like an identifier.  [gen_cfg] keeps this. *)

From S2P Require Import Prelude Dict Graph GraphFacts Module Table Cfg McfiId McfiNumbers McfiFacts Runtime Threads GenCfg CfgTables Policy.

#[local] Opaque convert_to_mcfi_half_id_format.

(** The low half of the identifiers that [gen_mcfi_id] makes when it leaves
    the counter at [version]. *)
Definition stamp (version : Z) : Z := spread 4 (version - 1) + 1.

Definition calm (c : Z) : Prop := 0 <= c < 256 /\ Z.even c = true /\ c <> NPV.

Definition stamped (version x : Z) : Prop :=
  0 <= x < 2 ^ 64 /\ u8 x <> NPV /\ (Z.odd x = true -> u32 x = stamp version).

(** The program lies from [lo], the lowest address of a module, to the end of
    the sandbox. *)
Record tables_typed (lo version : Z) (t : mem) (sites : list site) : Prop := {
  typed_bytes : mem_ok t;
  typed_sites : forall w, w ∈ sites -> stamped version (read64 t (addr w));
  typed_rest : forall a, lo <= a -> (forall w, w ∈ sites -> a <> addr w) -> calm (t a);
}.

(** ** Bytes of words *)
Lemma read_le_byte n m a k : mem_ok m -> 0 <= k < Z.of_nat n -> byte_of (read_le n m a) k = m (a + k).
Proof.
  intros Hm. revert a k. induction n as [|n IH]; intros a k Hk; [lia|]. cbn [read_le].
  pose proof (Hm a) as Ha. destruct (decide (k = 0)) as [->|Hne].
  - unfold byte_of. rewrite Z.mul_0_r, Z.shiftr_0_r, Z.add_0_r. div_lia.
  - replace (a + k) with (a + 1 + (k - 1)) by lia. rewrite <- IH by lia. unfold byte_of.
    replace (8 * k) with (8 + 8 * (k - 1)) by lia. rewrite <- Z.shiftr_shiftr by lia. f_equal. f_equal.
    rewrite Z.shiftr_div_pow2 by lia. change (2 ^ 8) with 256. div_lia.
Qed.

Lemma read64_byte m a k : mem_ok m -> 0 <= k < 8 -> byte_of (read64 m a) k = m (a + k).
Proof. intros Hm Hk. by apply read_le_byte. Qed.

Lemma byte_of_0 x : byte_of x 0 = u8 x.
Proof. unfold byte_of. by rewrite Z.mul_0_r, Z.shiftr_0_r. Qed.

Lemma odd_u8 x : Z.odd (u8 x) = Z.odd x.
Proof.
  unfold u8, wrap. rewrite (Z.div_mod x (2 ^ 8)) at 2 by lia. rewrite Z.odd_add, Z.odd_mul. done.
Qed.

(** The bytes above the lowest one forget the lowest bit. *)
Lemma byte_of_pred x k : Z.odd x = true -> 1 <= k -> byte_of (x - 1) k = byte_of x k.
Proof.
  intros Ho Hk. unfold byte_of. rewrite !Z.shiftr_div_pow2 by lia. f_equal.
  replace (2 ^ (8 * k)) with (2 * 2 ^ (8 * k - 1)) by (rewrite <- Z.pow_succ_r by lia; f_equal; lia).
  rewrite <- !Z.div_div by lia. f_equal. rewrite Zodd_mod in Ho. apply Zeq_bool_eq in Ho. div_lia.
Qed.

(** ** Identifiers *)

(** An identifier of a run of [gen_mcfi_id] that leaves the counter at
    [version]. *)
Definition id_word (version x : Z) : Prop :=
  1 <= version /\ usable 4 (version - 1) = true /\
  exists i, 0 <= i < SPACE /\ x = full_id (spread 4 (version - 1)) i.

Lemma spread_byte_calm v k : 0 <= v -> usable 4 v = true -> 0 <= k < 4 -> calm (byte_of (spread 4 v) k).
Proof.
  intros Hv Hu Hk. pose proof (spread_not_reserved v k Hv Hu Hk) as Hr.
  assert (Hb : byte_of (spread 4 v) k = 2 * (v / 128 ^ k mod 128)).
  { unfold byte_of. replace k with (Z.of_nat (Z.to_nat k)) by lia. by apply spread_byte; [|lia]. }
  split; [rewrite Hb; pose proof (Z.mod_pos_bound (v / 128 ^ k) 128 ltac:(lia)); lia|].
  split; [by rewrite Hb, Z.even_mul|]. intros E. rewrite E in Hr. done.
Qed.

Lemma id_word_low version x : id_word version x -> u32 x = stamp version /\ u32 (x - 1) = spread 4 (version - 1) /\
  0 <= x < 2 ^ 64 /\ Z.odd x = true.
Proof.
  intros (Hv & Hu & i & Hi & ->). unfold full_id, stamp.
  pose proof (full_id_ok (version - 1) i ltac:(lia) Hu Hi) as (Hr & Ho & _).
  pose proof (spread_bound (version - 1) ltac:(lia)) as Hb.
  pose proof (spread_even 4 (version - 1)) as He. apply Z.even_spec in He as (y & Hy).
  assert (H1 : u32 (spread 4 (version - 1) + 1) = spread 4 (version - 1) + 1) by (apply u32_small; lia).
  assert (H2 : u32 (spread 4 (version - 1)) = spread 4 (version - 1)) by (apply u32_small; lia).
  unfold u32, wrap in *. split; [|split; [|split; [exact Hr|exact Ho]]].
  - rewrite <- Z.add_assoc, Z.add_comm, Z_mod_plus_full. exact H1.
  - rewrite Z.add_simpl_r, Z.add_comm, Z_mod_plus_full. exact H2.
Qed.

Lemma byte_of_u32 x k : 0 <= k < 4 -> byte_of x k = byte_of (u32 x) k.
Proof.
  intros Hk. rewrite byte_of_mod, (byte_of_mod (u32 x)) by lia. f_equal. unfold u32, wrap.
  rewrite <- Znumtheory.Zmod_div_mod; [done|lia|lia|]. exists (2 ^ (24 - 8 * k)). rewrite <- Z.pow_add_r by lia.
  f_equal. lia.
Qed.

Lemma id_word_bytes version x k : id_word version x -> 1 <= k < 8 -> calm (byte_of x k).
Proof.
  intros Hx Hk. destruct (id_word_low version x Hx) as (_ & Hlow & Hr & Ho).
  destruct Hx as (Hv & Hu & i & Hi & Heq). destruct (decide (k < 4)) as [Hk4|Hk4].
  - rewrite <- byte_of_pred, byte_of_u32, Hlow by (done || lia). apply spread_byte_calm; [lia|done|lia].
  - pose proof (nth_usable_range i Hi) as Hn. pose proof (spread_bound (version - 1) ltac:(lia)) as Hb.
    assert (Hui : usable 4 (nth_usable i) = true) by (apply usable_nth_usable; unfold SPACE in Hi; lia).
    assert (E : byte_of x k = byte_of (spread 4 (nth_usable i)) (k - 4)).
    { rewrite <- byte_of_pred by (done || lia). rewrite Heq. unfold full_id. rewrite Z.add_simpl_r. unfold byte_of.
      replace (8 * k) with (32 + 8 * (k - 4)) by lia. rewrite <- Z.shiftr_shiftr by lia. do 2 f_equal.
      rewrite Z.shiftr_div_pow2, Z.div_add_l, Z.div_small by lia. lia. }
    rewrite E. apply spread_byte_calm; [lia|done|lia].
Qed.

(** Both forms of an identifier, valid and waiting for activation. *)
Lemma masked_pred x : 0 <= x < 2 ^ 64 -> Z.odd x = true -> Z.land x NOT_ONE = x - 1.
Proof. intros Hr Ho. by rewrite land_NOT_ONE, Zmod_odd, Ho. Qed.

Lemma id_word_stamped version x : id_word version x -> stamped version x /\ stamped version (Z.land x NOT_ONE).
Proof.
  intros Hx. destruct (id_word_low version x Hx) as (Hst & Hlow & Hr & Ho). pose proof Hx as (Hv & Hu & _).
  destruct (odd_masked x Hr) as [Hmr Hmo]. split; (split; [done|]).
  - split; [|done]. intros E. rewrite <- odd_u8, E in Ho. done.
  - split; [|by rewrite Hmo]. rewrite masked_pred, <- byte_of_0, byte_of_u32, Hlow by (done || lia).
    apply (spread_byte_calm (version - 1) 0); [lia|done|lia].
Qed.

Lemma id_word_masked_bytes version x k : id_word version x -> 1 <= k < 8 -> calm (byte_of (Z.land x NOT_ONE) k).
Proof.
  intros Hx Hk. destruct (id_word_low version x Hx) as (_ & _ & Hr & Ho).
  rewrite masked_pred, byte_of_pred by (done || lia). by apply (id_word_bytes version).
Qed.

(** ** What [gen_mcfi_id] makes *)
Lemma convert_fresh n v : 1 <= n <= LIMIT -> convert_to_mcfi_half_id_format n = Ok (v + 1, spread 4 v) ->
  0 <= v < LIMIT /\ usable 4 v = true /\ v <> n - 1.
Proof.
  intros Hn Hc. destruct (convert_find n ltac:(lia)) as (v' & Hc' & Hu & Hv & Hnext).
  rewrite Hc' in Hc. injection Hc as E _. assert (v' = v) as -> by lia. split; [done|]. split; [done|].
  intros ->. destruct Hnext as [[? _]|[E' Hno]]; [lia|]. assert (n = 1) as -> by lia.
  specialize (Hno 1 ltac:(unfold LIMIT; lia)). done.
Qed.

Lemma stamp_inj n n' : 1 <= n <= LIMIT -> 1 <= n' <= LIMIT -> stamp n = stamp n' -> n = n'.
Proof.
  intros Hn Hn' E. unfold stamp in E. assert (n - 1 = n' - 1); [|lia].
  apply (spread_inj 4); [change (128 ^ Z.of_nat 4) with 268435456; unfold LIMIT in *; lia..|lia].
Qed.

Lemma gen_mcfi_id_words lcg lrt version ids :
  NoDup (concat (keys <$> lcg)) -> NoDup (concat (keys <$> lrt)) ->
  Z.of_nat (length lcg) + Z.of_nat (length lrt) < SPACE -> 1 <= version <= LIMIT ->
  gen_mcfi_id false lcg lrt version = Ok ids ->
  1 <= new_version ids <= LIMIT /\ stamp (new_version ids) <> stamp version /\
  (forall x i, dict_find (callids ids) x = Some i \/ dict_find (retids ids) x = Some i -> id_word (new_version ids) i) /\
  id_word (new_version ids) (id_for_other_icfs ids).
Proof.
  intros Hc Hr Hlen Hv Hrun.
  destruct (gen_mcfi_id_run lcg lrt version Hc Hr Hlen ltac:(unfold LIMIT in Hv; lia))
    as (v & cids & rids & Hv0 & Hu & Hconv & Hrun' & Hk1 & Hk2 & Hn1 & Hn2).
  rewrite Hrun in Hrun'. injection Hrun' as ->. cbn [new_version callids retids id_for_other_icfs].
  destruct (convert_fresh version v Hv Hconv) as (Hvr & _ & Hne). split; [lia|]. split.
  { intros E. apply stamp_inj in E; lia. }
  assert (Hid : forall i, 0 <= i < SPACE -> id_word (v + 1) (full_id (spread 4 v) i)).
  { intros i Hi. unfold id_word. rewrite Z.add_simpl_r. split; [lia|]. split; [done|]. by exists i. }
  split; [|apply Hid; lia].
  intros x i [H|H].
  - assert (Hin : x ∈ keys cids) by (apply dict_in_keys; unfold dict_in; by rewrite H).
    rewrite Hk1 in Hin. apply member_of in Hin as (n & Hn). rewrite (Hn1 n x Hn) in H. injection H as <-.
    pose proof (member_bound _ _ _ Hn). apply Hid. lia.
  - assert (Hin : x ∈ keys rids) by (apply dict_in_keys; unfold dict_in; by rewrite H).
    rewrite Hk2 in Hin. apply member_of in Hin as (n & Hn). rewrite (Hn2 n x Hn) in H. injection H as <-.
    pose proof (member_bound _ _ _ Hn). apply Hid. lia.
Qed.

(** ** The writes of the tables *)
Section writes.
Context (callids retids : dict Z) (others n : Z).
Hypothesis (Hids : forall x i, dict_find callids x = Some i \/ dict_find retids x = Some i -> id_word n i).
Hypothesis (Hothers : id_word n others).

Lemma site_id_word w id : site_id callids retids others w = Some id -> id_word n id.
Proof using Hids Hothers.
  destruct w as [m s|m ic s|s]; cbn [site_id]; [intros H; eapply Hids; eauto..|]. intros [= <-].
  unfold branch_id. destruct (dict_find callids _) eqn:H; [eauto|]. destruct (dict_find retids _) eqn:H2; eauto.
Qed.

Lemma ids_words_odd : ids_odd callids retids others.
Proof using Hids Hothers.
  split; [|by destruct (id_word_low n others Hothers) as (_ & _ & ? & ?)].
  intros x i Hx. by destruct (id_word_low n i (Hids x i Hx)) as (_ & _ & ? & ?).
Qed.

(** What is written to a site. *)
Lemma site_word_typed fic vm w cur v : site_word callids retids others fic vm w cur = Some v ->
  stamped n v /\ forall k, 1 <= k < 8 -> calm (byte_of v k).
Proof using Hids Hothers.
  rewrite (site_word_active callids retids others fic vm w cur ids_words_odd).
  destruct (site_id callids retids others w) as [id|] eqn:Hw; [|done]. intros [= <-].
  apply site_id_word in Hw. destruct (id_word_stamped n id Hw) as [H1 H2].
  destruct (active _ _ _ _); split; try done; intros k Hk.
  - by apply (id_word_bytes n).
  - by apply (id_word_masked_bytes n).
Qed.

Lemma site_step_bytes st w : mem_ok st.1.1 -> mem_ok (site_step callids retids others st w).1.1.
Proof.
  destruct st as [[t fic] vm]. intros Hm. destruct (site_step_spec callids retids others t fic vm w) as (f' & v' & -> & _).
  cbn [fst]. destruct (site_word _ _ _ _ _ _ _); [by apply write_le_ok|done].
Qed.

Lemma sites_bytes l st : mem_ok st.1.1 -> mem_ok (foldl (site_step callids retids others) st l).1.1.
Proof.
  revert st. induction l as [|w l IH]; intros st Hm; [done|]. cbn [foldl]. by apply IH, site_step_bytes.
Qed.

(** The tables when the writes [l1], some of those in [l], have been made. *)
Definition written (t : mem) (fic vm : graph) (w : site) : Z :=
  default (read64 t (addr w)) (site_word callids retids others fic vm w (read64 t (addr w))).

Lemma writes_words l l1 t fic vm w : sites_apart l -> l1 ⊆ l -> w ∈ l ->
  read64 (foldl (site_step callids retids others) (t, fic, vm) l1).1.1 (addr w) =
    if decide (addr w ∈ addr <$> l1) then written t fic vm w else read64 t (addr w).
Proof using Hids Hothers.
  intros Hap Hsub Hw.
  destruct (sites_fold callids retids others l1 t fic vm ids_words_odd) as (t' & f' & v' & -> & _ & _ & Hfr & Hs).
  cbn [fst]. destruct (Hs w (fun w' Hw' => Hap w w' Hw (Hsub w' Hw'))) as [_ Hin].
  destruct (decide (addr w ∈ addr <$> l1)) as [Ha|Ha].
  - apply list_elem_of_fmap in Ha as (w' & Ha & Hw'). destruct (Hap w w' Hw (Hsub w' Hw')) as [->|Hap'].
    + by apply Hin.
    + unfold apart in Hap'. lia.
  - apply read_le_ext. intros x Hx. apply Hfr. intros w' Hw'.
    destruct (Hap w w' Hw (Hsub w' Hw')) as [->|Hap']; [|unfold apart in Hap'; lia].
    exfalso. apply Ha. by apply list_elem_of_fmap_2.
Qed.

Lemma writes_calm l l1 t fic vm a : sites_apart l -> l1 ⊆ l -> mem_ok t -> (forall w, w ∈ l -> a <> addr w) -> calm (t a) ->
  calm ((foldl (site_step callids retids others) (t, fic, vm) l1).1.1 a).
Proof using Hids Hothers.
  intros Hap Hsub Hm Hno Hca.
  destruct (decide (Exists (fun w => addr w <= a < addr w + 8) l1)) as [Hex|Hex].
  - apply Exists_exists in Hex as (w & Hw & Ha). pose proof (Hsub w Hw) as Hwl. pose proof (Hno w Hwl).
    replace a with (addr w + (a - addr w)) by lia.
    rewrite <- read64_byte by (by apply sites_bytes || lia).
    rewrite (writes_words l) by done. rewrite decide_True by (by apply list_elem_of_fmap_2). unfold written.
    destruct (site_word _ _ _ _ _ w _) as [v|] eqn:Hv; cbn [default].
    + destruct (site_word_typed _ _ _ _ _ Hv) as [_ Hb]. apply Hb. lia.
    + rewrite read64_byte by (done || lia). by replace (addr w + (a - addr w)) with a by lia.
  - destruct (sites_fold callids retids others l1 t fic vm ids_words_odd) as (t' & f' & v' & -> & _ & _ & Hfr & _).
    cbn [fst]. rewrite Hfr; [done|]. intros w Hw. destruct (decide (addr w <= a < addr w + 8)); [|lia].
    exfalso. apply Hex, Exists_exists. eauto.
Qed.

Lemma written_typed fic vm t w : site_id callids retids others w <> None -> stamped n (written t fic vm w).
Proof using Hids Hothers.
  intros Hw. unfold written. destruct (site_word callids retids others fic vm w _) as [v|] eqn:Hv; cbn [default].
  - by apply (site_word_typed _ _ _ _ _ Hv).
  - rewrite site_word_active in Hv by apply ids_words_odd.
    by destruct (site_id callids retids others w).
Qed.
End writes.

(** ** Marking the modules moves no site *)
Lemma all_sites_in w ms : w ∈ all_sites ms -> exists m, m ∈ ms /\ w ∈ tary_sites m ++ bary_sites m.
Proof.
  assert (Hc : forall (f : code_module -> list site), w ∈ concat (f <$> ms) -> exists m, m ∈ ms /\ w ∈ f m).
  { intros f Hf. apply list_elem_of_In, List.in_concat in Hf as (l & Hl & Hw). rewrite <- !list_elem_of_In in *.
    apply list_elem_of_fmap in Hl as (m & -> & Hm). by exists m. }
  unfold all_sites. rewrite !elem_of_app. intros [H|[H|H]]; apply Hc in H as (m & Hm & Hw); exists m; split; try done;
    destruct (cfggened m); first [by apply not_elem_of_nil in Hw|done|by apply elem_of_app; auto].
Qed.

Lemma generated_addr ms a : a ∈ addr <$> all_sites (generated ms) <-> a ∈ addr <$> all_sites ms.
Proof.
  assert (Hm : forall m : code_module, addr <$> tary_sites (m {{ cfggened := true }}) ++ bary_sites (m {{ cfggened := true }}) =
    addr <$> tary_sites m ++ bary_sites m).
  { intros m. unfold tary_sites, bary_sites. rewrite !fmap_app, <- !list_fmap_compose. reflexivity. }
  split; intros (w & -> & Hw)%list_elem_of_fmap; apply all_sites_in in Hw as (m & Hin & Hw).
  - apply list_elem_of_fmap in Hin as (m0 & -> & Hin). apply (list_elem_of_fmap_2 addr) in Hw. rewrite Hm in Hw.
    apply list_elem_of_fmap in Hw as (w0 & -> & Hw). by apply list_elem_of_fmap_2, (in_all_sites m0).
  - apply (list_elem_of_fmap_2 addr) in Hw. rewrite <- Hm in Hw.
    apply list_elem_of_fmap in Hw as (w0 & -> & Hw). eapply list_elem_of_fmap_2, in_all_sites; [|exact Hw].
    by apply (list_elem_of_fmap_2 (fun m => m {{ cfggened := true }})).
Qed.

Section generation.
Variable new_function : nat -> Z.
Variable attrs0 : Z.

(** An update of the tables by [gen_cfg]: the state before and after, the
    graphs and the identifiers. *)
Record update (lo : Z) (rt rt' : runtime) (r : cfg_result) (ids : mcfi_ids) : Prop := {
  up_ready : cfg_ready rt;
  up_graphs : gen_graphs new_function attrs0 (modules rt) (vtabletaken rt) = Ok r;
  up_space : Z.of_nat (length (r_callgraph r)) + Z.of_nat (length (r_retgraph r)) < SPACE;
  up_ids : exists lcg lrt, g_get_lcc (r_callgraph r) = Ok lcg /\ g_get_lcc (r_retgraph r) = Ok lrt /\
    gen_mcfi_id (COMPAT_MODE rt) lcg lrt (version rt) = Ok ids;
  up_run : exists seen, gen_cfg new_function attrs0 seen rt = Ok rt';
  up_version : 1 <= version rt <= LIMIT;
  up_waiting : rt_cfggened rt = true \/ patch_compensate rt = [];
  up_typed : tables_typed lo (version rt) (table rt) (all_sites (modules rt));
}.

(** The identifiers of an update, and its writes. *)
Lemma update_run lo rt rt' r ids : update lo rt rt' r ids -> exists lcg lrt,
  components (r_callgraph r) lcg /\ components (r_retgraph r) lrt /\ ids_spec lcg lrt ids /\ modules rt' = generated (modules rt) /\
  1 <= version rt' <= LIMIT /\ stamp (version rt') <> stamp (version rt) /\
  (forall x i, dict_find (callids ids) x = Some i \/ dict_find (retids ids) x = Some i -> id_word (version rt') i) /\
  id_word (version rt') (id_for_other_icfs ids) /\
  table rt' = (foldl (site_step (callids ids) (retids ids) (id_for_other_icfs ids))
    (table rt, r_fats_in_code r, r_vmtd r) (all_sites (modules rt))).1.1.
Proof.
  intros [Hready Hr Hspace (lcg' & lrt' & Hlc & Hlr & Hids') (seen & Hrun) Hv Hwait Ht].
  destruct (gen_cfg_run new_function attrs0 seen rt rt' r Hready Hr Hspace Hrun)
    as (lcg & lrt & ids' & t' & Hcg & Hrg & Hspec & _ & Hfold & Htab & Hlcg & Hlrt & Hids & Hnv & Hms).
  rewrite Hlcg in Hlc. injection Hlc as <-. rewrite Hlrt in Hlr. injection Hlr as <-.
  rewrite (ready_compat _ Hready), Hids in Hids'. injection Hids' as ->.
  destruct (gen_graphs_wf _ _ _ _ _ Hr) as (Hwc & Hwr & _).
  pose proof (length_components _ _ Hwc Hcg). pose proof (length_components _ _ Hwr Hrg).
  destruct (gen_mcfi_id_words lcg lrt (version rt) ids) as (Hnr & Hst & Hw & Ho); [apply Hcg|apply Hrg|lia|done|done|].
  exists lcg, lrt. rewrite Hfold. cbn [fst]. rewrite Hnv.
  do 8 (split; [done|]). rewrite Htab. destruct Hwait as [->| ->]; [done|]. by destruct (rt_cfggened rt).
Qed.

Lemma gen_cfg_types lo rt rt' r ids : update lo rt rt' r ids ->
  (forall m w, m ∈ modules rt -> w ∈ tary_sites m -> Z.odd (read64 (table rt) (addr w)) = true -> has_id r w) ->
  1 <= version rt' <= LIMIT /\ stamp (version rt') <> stamp (version rt) /\
  tables_typed lo (version rt') (table rt') (all_sites (modules rt')).
Proof.
  intros Hup Hkeep. destruct (update_run lo rt rt' r ids Hup)
    as (lcg & lrt & Hcg & Hrg & Hspec & Hms & Hnr & Hst & Hw & Ho & Htab).
  destruct Hup as [Hready Hr _ _ _ _ _ [Hmo Hsites Hrest]]. split; [done|]. split; [done|]. rewrite Hms.
  constructor.
  - rewrite Htab. by apply sites_bytes.
  - intros w0 Hw0. apply (list_elem_of_fmap_2 addr) in Hw0. rewrite generated_addr in Hw0.
    apply list_elem_of_fmap in Hw0 as (w & -> & Hw0).
    rewrite Htab, (writes_words _ _ _ (version rt') Hw Ho (all_sites (modules rt))) by (done || apply (ready_apart _ Hready)).
    rewrite decide_True by (by apply list_elem_of_fmap_2).
    destruct (site_id (callids ids) (retids ids) (id_for_other_icfs ids) w) as [id|] eqn:Hid.
    { apply written_typed; [done|done|]. by rewrite Hid. }
    unfold written. rewrite site_word_active by (by apply (ids_words_odd _ _ _ (version rt'))). rewrite Hid. cbn.
    destruct (Hsites w Hw0) as (Hrg' & Hnpv & _). split; [done|]. split; [done|]. intros Hodd.
    apply all_sites_in in Hw0 as (m & Hm & [Hwt|Hwb]%elem_of_app).
    + destruct (has_id_site new_function attrs0 rt r lcg lrt ids m w Hr Hcg Hrg Hspec Hm Hwt (Hkeep m w Hm Hwt Hodd)) as (id & Hid').
      by rewrite Hid in Hid'.
    + apply list_elem_of_fmap in Hwb as (s & -> & _). done.
  - intros a Hlo Hno. rewrite Htab. apply (writes_calm _ _ _ (version rt') Hw Ho (all_sites (modules rt)));
      [apply (ready_apart _ Hready)|done|done| |].
    + intros w Hw0 ->. assert (Ha : addr w ∈ addr <$> all_sites (generated (modules rt)))
        by (by apply generated_addr, list_elem_of_fmap_2).
      apply list_elem_of_fmap in Ha as (w' & E & Hw'). by apply (Hno w').
    + apply Hrest; [done|]. intros w Hw0 ->. assert (Ha : addr w ∈ addr <$> all_sites (generated (modules rt)))
        by (by apply generated_addr, list_elem_of_fmap_2).
      apply list_elem_of_fmap in Ha as (w' & E & Hw'). by apply (Hno w').
Qed.

(** C17.  The words of the tables are well typed, and [gen_cfg] keeps them so:
    when every odd word of a site is an identifier of the present version,
    and every other byte of the program's part of the table is calm, the same
    holds after [gen_cfg] for the new version, which is another one.  (A
    target that is active keeps an identifier.) *)
Theorem gen_cfg_typed lo rt rt' r ids : update lo rt rt' r ids ->
  (forall m w, m ∈ modules rt -> w ∈ tary_sites m -> Z.odd (read64 (table rt) (addr w)) = true -> has_id r w) ->
  1 <= version rt' <= LIMIT /\ stamp (version rt') <> stamp (version rt) /\
  tables_typed lo (version rt') (table rt') (all_sites (modules rt')).
Proof. apply gen_cfg_types. Qed.
End generation.

(** ** The sample program *)
Definition is_ok {A} (x : res A) : bool := match x with Ok _ => true | _ => false end.
Definition or_else {A} (d : A) (x : res A) : A := match x with Ok a => a | _ => d end.

Lemma is_ok_run {A} (d : A) (x : res A) : is_ok x = true -> x = Ok (or_else d x).
Proof. by destruct x. Qed.

Definition no_graphs : cfg_result := mkCfgResult [] [] [] [].
Definition no_ids : mcfi_ids := mkIds 0 0 [] [].

(** An update of a state by [gen_cfg]. *)
Definition graphs_of (rt : runtime) : cfg_result :=
  or_else no_graphs (gen_graphs sample_addr 0 (modules rt) (vtabletaken rt)).
Definition ids_of (rt : runtime) : mcfi_ids :=
  or_else no_ids
    (lcg ← g_get_lcc (r_callgraph (graphs_of rt)); lrt ← g_get_lcc (r_retgraph (graphs_of rt));
     gen_mcfi_id (COMPAT_MODE rt) lcg lrt (version rt)).
Definition updated (rt : runtime) : runtime := or_else rt (gen_cfg sample_addr 0 sample_seen rt).

Lemma update_of lo rt : cfg_ready rt -> is_ok (gen_graphs sample_addr 0 (modules rt) (vtabletaken rt)) = true ->
  is_ok (gen_cfg sample_addr 0 sample_seen rt) = true ->
  Z.of_nat (length (r_callgraph (graphs_of rt))) + Z.of_nat (length (r_retgraph (graphs_of rt))) < SPACE ->
  1 <= version rt <= LIMIT -> rt_cfggened rt = true \/ patch_compensate rt = [] ->
  tables_typed lo (version rt) (table rt) (all_sites (modules rt)) ->
  update sample_addr 0 lo rt (updated rt) (graphs_of rt) (ids_of rt).
Proof.
  intros Hready Hg Hrun Hsp Hv Hw Ht. apply (is_ok_run no_graphs) in Hg. apply (is_ok_run rt) in Hrun.
  destruct (gen_cfg_run sample_addr 0 sample_seen rt (updated rt) (graphs_of rt) Hready Hg Hsp Hrun)
    as (lcg & lrt & ids & t' & _ & _ & _ & _ & _ & _ & Hlcg & Hlrt & Hids & _).
  constructor; try done; [|by exists sample_seen]. exists lcg, lrt. split; [done|]. split; [done|].
  unfold ids_of. rewrite Hlcg, bind_Ok, Hlrt, bind_Ok, (ready_compat _ Hready), Hids. done.
Qed.

Lemma sample_typed : tables_typed 0x400000 (version sample_state) (table sample_state) (all_sites (modules sample_state)).
Proof.
  constructor.
  - intros a. cbn. lia.
  - intros w _. change (stamped (version sample_state) 0). by split_and!.
  - intros a _ _. by split_and!.
Qed.

Lemma sample_update : update sample_addr 0 0x400000 sample_state (updated sample_state) (graphs_of sample_state) (ids_of sample_state).
Proof.
  apply update_of; [exact sample_ready|by vm_compute|by vm_compute|by vm_compute|by vm_compute|by right|exact sample_typed].
Qed.

Lemma gen_cfg_typed_witness : stamp (version (updated sample_state)) <> stamp (version sample_state) /\
  tables_typed 0x400000 (version (updated sample_state)) (table (updated sample_state)) (all_sites (modules (updated sample_state))).
Proof.
  apply (gen_cfg_typed sample_addr 0 0x400000 sample_state (updated sample_state) (graphs_of sample_state) (ids_of sample_state) sample_update).
  intros m w _ _ H. change (Z.odd 0 = true) in H. discriminate.
Defined.
