(* ===== verification/Check.v ===== *)
(** * The check before an indirect branch ([X86MCFI.cpp]; [mcfi.s] of libc)

    The compiler puts the same few instructions before every indirect call,
    jump and return: the identifier of the branch is loaded from its slot,
    then that of the target from the table, and they are compared.  The loads
    are from the table region, whose words the runtime may be writing at the
    same time; a step of the system is one write of [gen_cfg] or one load of
    the thread, with the register instructions that follow it.  (On x86 the
    writes of one processor are seen in their order, and loads are not
    reordered with loads.)  This is the sequence for 64-bit identifiers, the
    ones of the runtime; the target was cut to 32 bits before. *)

From S2P Require Import Prelude Dict Graph Module Table McfiId Runtime Threads GenCfg CfgTables.

(** ** The sequence *)

(** Where the thread is: before the load of the branch's identifier, before
    that of the target's, at the branch, at the report of a violation. *)
Inductive check_state : Set := Try | BaryRead (bid : Z) | Go | Report.

#[export] Instance check_state_eq_dec : EqDecision check_state.
Proof. solve_decision. Defined.

(** [cmp]; the branch follows when they are equal *)
Definition IDCmp (bid tid : Z) : bool := tid =? bid.

(** [cmp $0xfc]: the target is in a native module *)
Definition InteropCheck (tid : Z) : bool := u8 tid =? NPV.

(** [test $1]: the target is one, and active *)
Definition IDValidityCheck (tid : Z) : bool := negb (Z.land (u8 tid) 1 =? 0).

(** [cmp] of the low halves; when they differ the tables are being updated *)
Definition IDVersionCheck (bid tid : Z) : bool := u32 tid =? u32 bid.

Definition after_loads (bid tid : Z) : check_state :=
  if IDCmp bid tid then Go
  else if InteropCheck tid then Go
  else if negb (IDValidityCheck tid) then Report
  else if IDVersionCheck bid tid then Report
  else Try.

Definition check_step (slot target : Z) (t : mem) (s : check_state) : check_state :=
  match s with
  | Try => BaryRead (read64 t slot)
  | BaryRead bid => after_loads bid (read64 t target)
  | Go | Report => s
  end.

Definition finished (s : check_state) : bool := match s with Go | Report => true | _ => false end.

(** What the sequence stands for: one comparison of the two words. *)
Definition atomic_check (slot target : Z) (t : mem) : check_state :=
  if read64 t slot =? read64 t target then Go else Report.

(** ** A thread and an update of the tables *)
Record config : Type := Config {
  tables : tary_state;
  todo : list site;   (* the writes [gen_cfg] has still to make *)
  thread : check_state;
}.

Definition tbl (c : config) : mem := (tables c).1.1.

Section step.
Context (ids : mcfi_ids) (slot target : Z).

Definition write_site : tary_state -> site -> tary_state :=
  site_step (callids ids) (retids ids) (id_for_other_icfs ids).

Inductive step : config -> config -> Prop :=
  | runtime_writes st w l s : step (Config st (w :: l) s) (Config (write_site st w) l s)
  | thread_runs st l s : finished s = false ->
      step (Config st l s) (Config st l (check_step slot target st.1.1 s)).
End step.

(** An update begins: nothing is written, the thread has not started. *)
Definition begin_update (rt : runtime) (r : cfg_result) : config :=
  Config (table rt, r_fats_in_code r, r_vmtd r) (all_sites (modules rt)) Try.
