(* ===== verification/CheckFacts.v ===== *)
(** * The check of an indirect branch while the tables are being updated

    Whatever the interleaving, a branch goes only where the graph before the
    update or the one after it lets it, at an address of a target even when
    the register holds an arbitrary one; the sequence acts as one comparison
    at some moment of its run; and it ends once the writes are done. *)

From S2P Require Import Prelude Dict Graph GraphFacts Module Table Cfg McfiId McfiNumbers McfiFacts Runtime Threads GenCfg CfgTables Policy TableTypes Check.

(** ** Decisions *)
Lemma after_loads_typed bid tid : Z.odd bid = true -> u8 tid <> NPV ->
  after_loads bid tid =
    if tid =? bid then Go
    else if Z.odd tid && negb (u32 tid =? u32 bid) then Try else Report.
Proof.
  intros Hb Ht. unfold after_loads, IDCmp, InteropCheck, IDValidityCheck, IDVersionCheck.
  destruct (tid =? bid); [done|]. rewrite (proj2 (Z.eqb_neq (u8 tid) NPV)) by done.
  rewrite land_one_odd, odd_u8, negb_involutive. destruct (Z.odd tid); [|done]. cbn [negb andb].
  by destruct (u32 tid =? u32 bid).
Qed.

Lemma tables_typed_off lo n t sites a : tables_typed lo n t sites -> lo <= a -> a ∉ addr <$> sites ->
  u8 (read64 t a) <> NPV /\ Z.odd (read64 t a) = false.
Proof.
  intros [Hm _ Hrest] Hlo Ha.
  destruct (Hrest a Hlo) as (_ & He & Hn); [intros w Hw ->; apply Ha; by apply list_elem_of_fmap_2|].
  assert (E : u8 (read64 t a) = t a) by (by rewrite <- byte_of_0, read64_byte, Z.add_0_r by (done || lia)).
  split; [by rewrite E|]. rewrite <- odd_u8, E, <- Z.negb_even, He. done.
Qed.

(** A load from typed tables is never the code of a native module. *)
Lemma tables_typed_npv lo n t sites a : tables_typed lo n t sites -> lo <= a -> u8 (read64 t a) <> NPV.
Proof.
  intros Ht Hlo. destruct (decide (a ∈ addr <$> sites)) as [Ha|Ha]; [|by eapply tables_typed_off].
  apply list_elem_of_fmap in Ha as (w & -> & Hw). by destruct (typed_sites _ _ _ _ Ht w Hw) as (_ & ? & _).
Qed.

(** ** Still tables *)

(** C16.  Once the tables are still and well typed, a check ends after at most
    three more loads, wherever the thread is and whatever it has loaded; one
    that starts then ends after two, and its answer is the comparison of the
    two words. *)
Theorem check_finishes lo n t sites slot target : tables_typed lo n t sites -> lo <= target ->
  slot ∈ addr <$> sites -> Z.odd (read64 t slot) = true ->
  (forall s, finished (Nat.iter 3 (check_step slot target t) s) = true) /\
  Nat.iter 2 (check_step slot target t) Try = atomic_check slot target t.
Proof.
  intros Ht Hlo Hslot Hodd. pose proof (tables_typed_npv lo n t sites target Ht Hlo) as Hnpv.
  assert (Htry : after_loads (read64 t slot) (read64 t target) = atomic_check slot target t).
  { rewrite after_loads_typed by done. unfold atomic_check. rewrite Z.eqb_sym.
    destruct (Z.eqb_spec (read64 t slot) (read64 t target)) as [|Hne]; [done|].
    destruct (Z.odd (read64 t target)) eqn:Ho; [|done].
    destruct (decide (target ∈ addr <$> sites)) as [Ha|Ha].
    - apply list_elem_of_fmap in Ha as (w & -> & Hw), Hslot as (b & -> & Hb).
      destruct (typed_sites _ _ _ _ Ht w Hw) as (_ & _ & H1), (typed_sites _ _ _ _ Ht b Hb) as (_ & _ & H2).
      by rewrite H1, H2, Z.eqb_refl.
    - destruct (tables_typed_off lo n t sites target Ht Hlo Ha) as [_ H]. by rewrite H in Ho. }
  assert (Hfin : finished (atomic_check slot target t) = true) by (unfold atomic_check; by destruct (_ =? _)).
  split; [|cbn [Nat.iter nat_rect check_step]; exact Htry].
  intros s. cbn [Nat.iter nat_rect]. destruct s as [|bid| |]; cbn [check_step]; try done.
  - rewrite Htry. by destruct (atomic_check slot target t).
  - destruct (after_loads bid (read64 t target)) as [|b'| |] eqn:E; cbn [check_step]; try done.
    + by rewrite Htry.
    + unfold after_loads in E. repeat case_match; discriminate.
Qed.

(** ** Runs *)
Section runs.
Context (ids : mcfi_ids) (slot target : Z).

Lemma steps_writes c c' : rtc (step ids slot target) c c' ->
  exists l, todo c = l ++ todo c' /\ tables c' = foldl (write_site ids) (tables c) l.
Proof.
  induction 1 as [c|c c1 c2 Hs _ (l & Hl & Ht)]; [by exists []|].
  destruct Hs as [st w l' s|st l' s _]; cbn [todo tables] in *.
  - exists (w :: l). by rewrite Ht, Hl.
  - by exists l.
Qed.

(** Where the words of the thread come from. *)
Definition history (c0 c : config) : Prop :=
  match thread c with
  | Try => True
  | BaryRead bid => exists c1, rtc (step ids slot target) c0 c1 /\ rtc (step ids slot target) c1 c /\
      bid = read64 (tbl c1) slot
  | s => exists c1 c2, rtc (step ids slot target) c0 c1 /\ rtc (step ids slot target) c1 c2 /\
      rtc (step ids slot target) c2 c /\ after_loads (read64 (tbl c1) slot) (read64 (tbl c2) target) = s
  end.

Lemma run_history c0 c : thread c0 = Try -> rtc (step ids slot target) c0 c -> history c0 c.
Proof.
  intros H0. revert c. apply (rtc_ind_r (history c0)); [by unfold history; rewrite H0|]. intros c c' Hrun Hs IH.
  assert (Hnew : rtc (step ids slot target) c c') by by apply rtc_once.
  destruct Hs as [st w l s|st l s Hf]; unfold history in *; cbn [thread] in *.
  - destruct s as [|bid| |]; [done|..].
    + destruct IH as (c1 & H1 & H2 & E). exists c1. split; [done|]. split; [by etrans|done].
    + destruct IH as (c1 & c2 & H1 & H2 & H3 & E). exists c1, c2. do 2 (split; [done|]). split; [by etrans|done].
    + destruct IH as (c1 & c2 & H1 & H2 & H3 & E). exists c1, c2. do 2 (split; [done|]). split; [by etrans|done].
  - destruct s as [|bid| |]; cbn [check_step finished] in *; try done.
    + by exists (Config st l Try).
    + destruct IH as (c1 & H1 & H2 & ->).
      destruct (after_loads (read64 (tbl c1) slot) (read64 st.1.1 target)) eqn:E; [done|..].
      * unfold after_loads in E. repeat case_match; discriminate.
      * by exists c1, (Config st l (BaryRead (read64 (tbl c1) slot))).
      * by exists c1, (Config st l (BaryRead (read64 (tbl c1) slot))).
Qed.
End runs.

(** ** A check during an update *)
Section update.
Variable new_function : nat -> Z.
Variable attrs0 : Z.
Context (lo : Z) (rt rt' : runtime) (r : cfg_result) (ids : mcfi_ids).
Hypothesis (Hup : update new_function attrs0 lo rt rt' r ids).

(** The branch, whose module had its identifiers in the former graph, and the
    address it is about to go to, among those of the program. *)
Context (m : code_module) (b : symbol) (target : Z).
Hypothesis (Hm : m ∈ modules rt).
Hypothesis (Hb : b ∈ icfsyms m).
Hypothesis (Hbid : Z.odd (read64 (table rt) (s_offset b)) = true).
Hypothesis (Htarget : lo <= target).
Hypothesis (Hslots : forall m' s, m' ∈ modules rt -> s ∈ icfsyms m' -> s_offset s < lo).

Definition sites : list site := all_sites (modules rt).
Definition after (l : list site) : mem :=
  (foldl (write_site ids) (table rt, r_fats_in_code r, r_vmtd r) l).1.1.

(** The word of a site when the writes of [l] have been made. *)
Lemma after_word l w : l ⊆ sites -> w ∈ sites ->
  read64 (after l) (addr w) =
    read64 (if decide (addr w ∈ addr <$> l) then table rt' else table rt) (addr w).
Proof using Hup.
  intros Hl Hw. destruct (update_run _ _ _ _ _ _ _ Hup) as (lcg & lrt & _ & _ & _ & _ & _ & _ & Hi & Ho & Htab).
  pose proof (ready_apart _ (up_ready _ _ _ _ _ _ _ Hup)) as Hap.
  unfold after, write_site. rewrite (writes_words _ _ _ _ Hi Ho sites) by done.
  destruct (decide (addr w ∈ addr <$> l)); [|done].
  rewrite Htab, (writes_words _ _ _ _ Hi Ho sites) by done. rewrite decide_True; [done|].
  by apply list_elem_of_fmap_2.
Qed.

(** A word away from the targets is always even, and no load is the code of
    a native module. *)
Lemma after_off l : l ⊆ sites -> target ∉ addr <$> sites ->
  u8 (read64 (after l) target) <> NPV /\ Z.odd (read64 (after l) target) = false.
Proof using Hup Htarget.
  intros Hl Hno. destruct (update_run _ _ _ _ _ _ _ Hup) as (lcg & lrt & _ & _ & _ & _ & _ & _ & Hi & Ho & Htab).
  pose proof (ready_apart _ (up_ready _ _ _ _ _ _ _ Hup)) as Hap.
  destruct (up_typed _ _ _ _ _ _ _ Hup) as [Hmo _ Hrest].
  assert (Hne : forall w, w ∈ sites -> target <> addr w)
    by (intros w Hw ->; apply Hno; by apply list_elem_of_fmap_2).
  assert (Hmo' : mem_ok (after l)) by (by apply sites_bytes).
  assert (Hcalm : calm (after l target))
    by (apply (writes_calm _ _ _ _ Hi Ho sites); try done; by apply Hrest).
  destruct Hcalm as (_ & He & Hn).
  assert (E : u8 (read64 (after l) target) = after l target)
    by (by rewrite <- byte_of_0, read64_byte, Z.add_0_r by (done || lia)).
  split; [by rewrite E|]. rewrite <- odd_u8, E, <- Z.negb_even. by rewrite He.
Qed.

(** The words of the branch: of the present version, in the former tables and
    in the new ones. *)
Lemma slot_words : BranchSite b ∈ sites /\ Z.odd (read64 (table rt') (s_offset b)) = true /\
  u32 (read64 (table rt) (s_offset b)) = stamp (version rt) /\
  u32 (read64 (table rt') (s_offset b)) = stamp (version rt').
Proof using Hup Hm Hb Hbid.
  assert (Hin : BranchSite b ∈ sites).
  { apply (in_all_sites m); [done|]. apply elem_of_app. right. by apply list_elem_of_fmap_2. }
  split; [done|]. destruct (update_run _ _ _ _ _ _ _ Hup) as (lcg & lrt & _ & _ & _ & _ & _ & _ & Hi & Ho & Htab).
  destruct (typed_sites _ _ _ _ (up_typed _ _ _ _ _ _ _ Hup) _ Hin) as (_ & _ & H1).
  assert (Hw : read64 (table rt') (s_offset b) = branch_id (callids ids) (retids ids) (id_for_other_icfs ids) (s_name b)).
  { rewrite Htab. change (s_offset b) with (addr (BranchSite b)).
    rewrite (writes_words _ _ _ _ Hi Ho sites); [|apply (ready_apart _ (up_ready _ _ _ _ _ _ _ Hup))|done|done].
    rewrite decide_True by (by apply list_elem_of_fmap_2). done. }
  destruct (id_word_low (version rt') (read64 (table rt') (s_offset b))) as (H2 & _ & _ & H3).
  { rewrite Hw. by apply (site_id_word _ _ _ _ Hi Ho (BranchSite b)). }
  split; [done|]. split; [by apply H1|done].
Qed.

(** The words of a target: its new word is of the new version, or is the old
    one when the target has no identifier. *)
Lemma target_words w : w ∈ sites ->
  stamped (version rt) (read64 (table rt) (addr w)) /\
  (read64 (table rt') (addr w) = read64 (table rt) (addr w) \/
   stamped (version rt') (read64 (table rt') (addr w)) /\
   site_id (callids ids) (retids ids) (id_for_other_icfs ids) w <> None).
Proof using Hup.
  intros Hw. destruct (update_run _ _ _ _ _ _ _ Hup) as (lcg & lrt & _ & _ & _ & _ & _ & _ & Hi & Ho & Htab).
  split; [by apply (typed_sites _ _ _ _ (up_typed _ _ _ _ _ _ _ Hup))|].
  rewrite Htab, (writes_words _ _ _ _ Hi Ho sites); [|apply (ready_apart _ (up_ready _ _ _ _ _ _ _ Hup))|done|done].
  rewrite decide_True by (by apply list_elem_of_fmap_2).
  destruct (site_id (callids ids) (retids ids) (id_for_other_icfs ids) w) as [id|] eqn:Hid.
  - right. split; [|done]. apply written_typed; [done|done|]. by rewrite Hid.
  - left. unfold written. rewrite site_word_active by (by apply (ids_words_odd _ _ _ (version rt'))). by rewrite Hid.
Qed.

Lemma after_slot l : l ⊆ sites -> Z.odd (read64 (after l) (s_offset b)) = true /\
  u32 (read64 (after l) (s_offset b)) =
    stamp (if decide (s_offset b ∈ addr <$> l) then version rt' else version rt).
Proof using Hup Hm Hb Hbid.
  intros Hl. destruct slot_words as (Hin & H1 & H2 & H3).
  change (s_offset b) with (addr (BranchSite b)). rewrite (after_word l) by done. cbn [addr].
  by destruct (decide _).
Qed.

(** The word of any target, at any moment: never the code of a native module,
    and odd only for a site, whose word is then that of its moment. *)
Lemma after_target l : l ⊆ sites -> u8 (read64 (after l) target) <> NPV.
Proof using Hup Htarget.
  intros Hl. destruct (decide (target ∈ addr <$> sites)) as [Ha|Ha]; [|by apply after_off].
  apply list_elem_of_fmap in Ha as (w & -> & Hw). rewrite after_word by done.
  destruct (target_words w Hw) as ((_ & H1 & _) & H2).
  destruct (decide _); [|done]. destruct H2 as [->|[(_ & H2 & _) _]]; done.
Qed.

(** The states of a run: some first part of the writes has been made. *)
Lemma reached c1 c2 : rtc (step ids (s_offset b) target) (begin_update rt r) c1 ->
  rtc (step ids (s_offset b) target) c1 c2 ->
  exists l1 l2, sites = (l1 ++ l2) ++ todo c2 /\ tbl c1 = after l1 /\ tbl c2 = after (l1 ++ l2).
Proof using.
  intros H1 H2. apply steps_writes in H1 as (l1 & E1 & T1), H2 as (l2 & E2 & T2).
  exists l1, l2. unfold tbl, after. rewrite T2, foldl_app, T1. split; [|done].
  rewrite <- app_assoc, <- E2, <- E1. done.
Qed.

Lemma prefix_subset (l l' : list site) : sites = l ++ l' -> l ⊆ sites.
Proof using. intros -> w Hw. apply elem_of_app. by left. Qed.

(** Equal words belong to one graph, and to a target. *)
Lemma equal_words l1 l2 : l1 ⊆ sites -> l2 ⊆ sites -> read64 (after l2) target = read64 (after l1) (s_offset b) ->
  exists w, w ∈ sites /\ target = addr w /\
    (check_passes (table rt) b w = true \/
     check_passes (table rt') b w = true /\ site_id (callids ids) (retids ids) (id_for_other_icfs ids) w <> None).
Proof using Hup Hm Hb Hbid Htarget.
  intros Hl1 Hl2 Heq. destruct (after_slot l1 Hl1) as [Ho Hst]. rewrite <- Heq in Ho, Hst.
  destruct (decide (target ∈ addr <$> sites)) as [Ha|Ha].
  2:{ destruct (after_off l2 Hl2 Ha) as [_ He]. congruence. }
  apply list_elem_of_fmap in Ha as (w & -> & Hw). exists w. split; [done|]. split; [done|].
  destruct (update_run _ _ _ _ _ _ _ Hup) as (lcg & lrt & _ & _ & _ & _ & _ & Hne & _).
  destruct slot_words as (Hin & _ & H2 & H3). destruct (target_words w Hw) as ((_ & _ & Hold) & Hnew).
  pose proof (after_word l1 (BranchSite b) Hl1 Hin) as Hbw. cbn [addr] in Hbw.
  rewrite Hbw in Heq. rewrite (after_word l2 w Hl2 Hw) in Heq, Ho, Hst. unfold check_passes.
  rewrite !Z.eqb_eq. clear Hbw.
  destruct (decide (addr w ∈ addr <$> l2)), (decide (s_offset b ∈ addr <$> l1)).
  - destruct Hnew as [E|[_ Hid]]; [|by right]. rewrite E in Ho, Hst. rewrite (Hold Ho) in Hst. congruence.
  - destruct Hnew as [E|[(_ & _ & Hn) Hid]]; [left; congruence|]. rewrite (Hn Ho) in Hst. congruence.
  - rewrite (Hold Ho) in Hst. congruence.
  - by left.
Qed.

Lemma site_id_has_id w lcg lrt : components (r_callgraph r) lcg -> components (r_retgraph r) lrt -> ids_spec lcg lrt ids ->
  site_id (callids ids) (retids ids) (id_for_other_icfs ids) w <> None -> has_id r w.
Proof using Hup.
  intros Hcg Hrg Hspec Hid. destruct w as [m' s|m' ic s|s]; cbn [has_id]; try done.
  destruct (gen_graphs_wf _ _ _ _ _ (up_graphs _ _ _ _ _ _ _ Hup)) as (Hwc & _).
  cbn [site_id] in Hid. cbn [vertex]. apply (components_keys _ lcg _ Hwc Hcg), (calls_dom _ _ _ Hspec).
  unfold dict_in. by destruct (dict_find _ _).
Qed.

(** A branch let through to an address of the code region. *)
Lemma check_sound_code c : rtc (step ids (s_offset b) target) (begin_update rt r) c -> thread c = Go ->
  exists m' w, m' ∈ modules rt /\ w ∈ tary_sites m' /\ target = addr w /\
    (check_passes (table rt) b w = true \/ has_id r w /\ may_reach r b w /\ target_active rt r w = true).
Proof using Hup Hm Hb Hbid Htarget Hslots.
  intros Hrun Hgo. pose proof (run_history ids _ _ (begin_update rt r) c eq_refl Hrun) as Hh. unfold history in Hh. rewrite Hgo in Hh.
  destruct Hh as (c1 & c2 & R1 & R2 & _ & E). destruct (reached c1 c2 R1 R2) as (l1 & l2 & Hs & T1 & T2).
  assert (Hl2 : l1 ++ l2 ⊆ sites) by by eapply prefix_subset.
  assert (Hl1 : l1 ⊆ sites) by (intros w Hw; apply Hl2, elem_of_app; by left).
  rewrite T1, T2, after_loads_typed in E by (by apply after_slot || by apply after_target).
  destruct (Z.eqb_spec (read64 (after (l1 ++ l2)) target) (read64 (after l1) (s_offset b))) as [Heq|]; [|by destruct (_ && _)].
  destruct (equal_words l1 (l1 ++ l2) Hl1 Hl2 Heq) as (w & Hw & -> & Hcase).
  apply all_sites_in in Hw as (m' & Hm' & [Hw|Hw]%elem_of_app).
  2:{ apply list_elem_of_fmap in Hw as (s & -> & Hs'). pose proof (Hslots m' s Hm' Hs'). cbn [addr] in Htarget. lia. }
  exists m', w. do 3 (split; [done|]). destruct Hcase as [?|[Hc Hid]]; [by left|right].
  destruct (update_run _ _ _ _ _ _ _ Hup) as (lcg & lrt & Hcg & Hrg & Hspec & _).
  assert (Hhas : has_id r w) by by apply (site_id_has_id w lcg lrt). split; [done|].
  destruct Hup as [Hready Hr Hsp _ (seen & Hgen) _ _ _].
  by apply (policy_exact new_function attrs0 seen rt rt' r m b m' w).
Qed.

(** The slots of the branches of the former graph are written after all the
    targets. *)
Hypothesis (Hown : forall m' s, m' ∈ modules rt -> cfggened m' = false -> s ∈ icfsyms m' -> s_offset s <> s_offset b).

Lemma in_pass (f : code_module -> list site) (ms : list code_module) w :
  w ∈ concat (f <$> ms) <-> exists m', m' ∈ ms /\ w ∈ f m'.
Proof using.
  clear. rewrite list_elem_of_In, List.in_concat. split.
  - intros (l & Hl & Hw). rewrite <- !list_elem_of_In in *. apply list_elem_of_fmap in Hl as (m' & -> & Hm'). by exists m'.
  - intros (m' & Hm' & Hw). exists (f m'). rewrite <- !list_elem_of_In. split; [by apply list_elem_of_fmap_2|done].
Qed.

Lemma slot_last l l' m' w : sites = l ++ l' -> s_offset b ∈ addr <$> l -> m' ∈ modules rt -> w ∈ tary_sites m' ->
  addr w ∈ addr <$> l.
Proof using Hup Hm Hb Hbid Hown.
  intros Hs Hl Hm' Hw. destruct slot_words as (Hin & _). pose proof (ready_apart _ (up_ready _ _ _ _ _ _ _ Hup)) as Hap.
  assert (Htary : forall m1 w1, m1 ∈ modules rt -> w1 ∈ tary_sites m1 -> addr w1 <> s_offset b).
  { intros m1 w1 Hm1 Hw1 E. destruct (Hap w1 (BranchSite b)) as [<-|Ha]; [|done|..].
    - apply (in_all_sites m1); [done|]. apply elem_of_app. by left.
    - unfold tary_sites in Hw1. rewrite !elem_of_app in Hw1.
      destruct Hw1 as [Hw1|[Hw1|Hw1]]; by apply list_elem_of_fmap in Hw1 as (? & ? & _).
    - unfold apart in Ha. cbn [addr] in Ha. lia. }
  unfold sites, all_sites in Hs. rewrite app_assoc in Hs. symmetry in Hs. apply app_eq_app in Hs as (k & [[-> _]|[Hk _]]).
  - apply list_elem_of_fmap_2. apply elem_of_app. left. apply elem_of_app. rewrite !in_pass.
    destruct (cfggened m') eqn:Hc; [right|left]; exists m'; (split; [done|]); rewrite Hc; [done|].
    apply elem_of_app. by left.
  - exfalso. apply list_elem_of_fmap in Hl as (w1 & E & Hw1).
    assert (Hw2 : w1 ∈ l ++ k) by (apply elem_of_app; by left). rewrite <- Hk in Hw2.
    apply elem_of_app in Hw2. rewrite !in_pass in Hw2. destruct Hw2 as [(m1 & Hm1 & H1)|(m1 & Hm1 & H1)];
      destruct (cfggened m1) eqn:Hc; try by apply not_elem_of_nil in H1.
    + apply elem_of_app in H1 as [H1|H1]; [by apply (Htary m1 w1)|].
      apply list_elem_of_fmap in H1 as (s & -> & Hs1). by apply (Hown m1 s).
    + by apply (Htary m1 w1).
Qed.

(** A word that changes between the loads is that of a target, which goes from
    its former word to one of the new version, while the branch still has
    its former one. *)
Lemma word_changes l1 l2 l' : sites = (l1 ++ l2) ++ l' ->
  read64 (after l1) target <> read64 (after (l1 ++ l2)) target -> target ∈ addr <$> sites ->
  u32 (read64 (after l1) (s_offset b)) = stamp (version rt) /\
  stamped (version rt') (read64 (after (l1 ++ l2)) target).
Proof using Hup Hm Hb Hbid Htarget Hslots Hown.
  intros Hs Hne Ha. assert (Hl2 : l1 ++ l2 ⊆ sites) by by eapply prefix_subset.
  assert (Hl1 : l1 ⊆ sites) by (intros w Hw; apply Hl2, elem_of_app; by left).
  apply list_elem_of_fmap in Ha as (w & Etgt & Hw). rewrite Etgt in Hne |- *.
  rewrite (after_word l1 w Hl1 Hw), (after_word _ w Hl2 Hw), fmap_app in Hne. rewrite (after_word _ w Hl2 Hw), fmap_app.
  destruct (decide (addr w ∈ addr <$> l1)) as [H1|H1].
  { rewrite decide_True in Hne by (apply elem_of_app; by left). done. }
  destruct (decide (addr w ∈ (addr <$> l1) ++ (addr <$> l2))) as [H2|H2]; [|done].
  destruct (target_words w Hw) as [_ [E|[Hst _]]]; [by rewrite E in Hne|]. split; [|done].
  destruct (after_slot l1 Hl1) as [_ ->]. rewrite decide_False; [done|]. intros Hin. apply H1.
  pose proof Hw as Hw'. apply all_sites_in in Hw' as (m' & Hm' & [Hw'|Hw']%elem_of_app).
  - apply (slot_last l1 (l2 ++ l') m'); [by rewrite app_assoc|done..].
  - apply list_elem_of_fmap in Hw' as (s & -> & Hs'). pose proof (Hslots m' s Hm' Hs'). cbn [addr] in Etgt. lia.
Qed.

(** C15.  The check acts at one moment.  During an update, in any interleaving,
    its answer is that of one comparison of the two words in a state of the
    tables between its first load and its last. *)
Theorem check_atomic c : rtc (step ids (s_offset b) target) (begin_update rt r) c -> finished (thread c) = true ->
  exists c', rtc (step ids (s_offset b) target) (begin_update rt r) c' /\ rtc (step ids (s_offset b) target) c' c /\
    thread c = atomic_check (s_offset b) target (tbl c').
Proof using Hup Hm Hb Hbid Htarget Hslots Hown.
  intros Hrun Hfin. pose proof (run_history ids _ _ (begin_update rt r) c eq_refl Hrun) as Hh. unfold history in Hh.
  assert (Hh' : exists c1 c2, rtc (step ids (s_offset b) target) (begin_update rt r) c1 /\
    rtc (step ids (s_offset b) target) c1 c2 /\ rtc (step ids (s_offset b) target) c2 c /\
    after_loads (read64 (tbl c1) (s_offset b)) (read64 (tbl c2) target) = thread c) by by destruct (thread c).
  destruct Hh' as (c1 & c2 & R1 & R2 & R3 & E). destruct (reached c1 c2 R1 R2) as (l1 & l2 & Hs & T1 & T2).
  assert (Hl2 : l1 ++ l2 ⊆ sites) by by eapply prefix_subset.
  assert (Hl1 : l1 ⊆ sites) by (intros w Hw; apply Hl2, elem_of_app; by left).
  destruct (after_slot l1 Hl1) as [Ho1 _]. destruct (after_slot _ Hl2) as [Ho2 _].
  rewrite T1, T2, after_loads_typed in E by (done || by apply after_target).
  destruct (decide (read64 (after l1) target = read64 (after (l1 ++ l2)) target)) as [Heq|Hne].
  { exists c1. split; [done|]. split; [by etrans|]. unfold atomic_check.
    rewrite T1, Heq, (Z.eqb_sym (read64 (after l1) (s_offset b))). rewrite <- E in Hfin |- *.
    destruct (_ =? _); [done|]. by destruct (_ && _). }
  destruct (decide (target ∈ addr <$> sites)) as [Ha|Ha].
  - destruct (word_changes l1 l2 (todo c2) Hs Hne Ha) as [Hst (_ & _ & Hnew)].
    destruct (update_run _ _ _ _ _ _ _ Hup) as (lcg & lrt & _ & _ & _ & _ & _ & Hstne & _).
    assert (Heven : Z.odd (read64 (after (l1 ++ l2)) target) = false).
    { destruct (Z.odd (read64 (after (l1 ++ l2)) target)) eqn:Hodd; [exfalso|done]. specialize (Hnew eq_refl).
      destruct (Z.eqb_spec (read64 (after (l1 ++ l2)) target) (read64 (after l1) (s_offset b))) as [Hc|_]; [congruence|].
      cbn [andb] in E. rewrite Hnew, Hst in E. rewrite (proj2 (Z.eqb_neq _ _)) in E by done.
      cbn [negb] in E. by rewrite <- E in Hfin. }
    exists c2. split; [by etrans|]. split; [done|]. unfold atomic_check. rewrite T2, <- E, Heven. cbn [andb].
    rewrite !(proj2 (Z.eqb_neq _ _)) by congruence. done.
  - destruct (after_off l1 Hl1 Ha) as [_ He1], (after_off _ Hl2 Ha) as [_ He2].
    exists c1. split; [done|]. split; [by etrans|]. unfold atomic_check. rewrite <- E, T1, He2. cbn [andb].
    rewrite !(proj2 (Z.eqb_neq _ _)) by congruence. done.
Qed.
End update.

(** C14.  A branch that is let through while [gen_cfg] writes the tables, at
    any moment and whatever address [target] its register holds, goes to an
    address below [lo] or to a target of the program; and the target is one
    that either the tables as they were before the update let it go to, or the
    new graphs do.  [lo] is where the code of the program starts: the slots of
    the branches are below it and no module has code there, so that a branch
    to an address below [lo] does not stay in the program.  The restriction is
    needed: the words of the slots pass the check against themselves
    ([slot_passes]). *)
Theorem check_sound new_function attrs0 lo rt rt' r ids m b target c :
  update new_function attrs0 lo rt rt' r ids ->
  m ∈ modules rt -> b ∈ icfsyms m -> Z.odd (read64 (table rt) (s_offset b)) = true ->
  (forall m' s, m' ∈ modules rt -> s ∈ icfsyms m' -> s_offset s < lo) ->
  rtc (step ids (s_offset b) target) (begin_update rt r) c -> thread c = Go ->
  target < lo \/
  exists m' w, m' ∈ modules rt /\ w ∈ tary_sites m' /\ target = addr w /\
    (check_passes (table rt) b w = true \/ has_id r w /\ may_reach r b w /\ target_active rt r w = true).
Proof.
  intros Hup Hm Hb Hbid Hslots Hrun Hgo. destruct (decide (lo <= target)) as [Hlo|Hlo]; [right|left; lia].
  by apply (check_sound_code new_function attrs0 lo rt rt' r ids Hup m b target Hm Hb Hbid Hlo Hslots c).
Qed.

(** The address of a slot passes its own check, in any table. *)
Lemma slot_passes t slot : Nat.iter 2 (check_step slot slot t) Try = Go.
Proof. cbn. unfold after_loads, IDCmp. by rewrite Z.eqb_refl. Qed.

(** ** The sample program, updated a second time *)
Definition first_state : runtime := updated sample_state.
Definition first_module : code_module := sample_module {{ cfggened := true }}.
Definition call_slot : symbol := mkSymbol 0x40 0x11000.

Lemma first_modules : modules first_state = [first_module].
Proof. vm_compute. reflexivity. Qed.

Lemma first_ready : cfg_ready first_state.
Proof.
  constructor; [by vm_compute|..]; rewrite ?first_modules.
  - intros m Hm. apply list_elem_of_singleton in Hm as ->. reflexivity.
  - by vm_compute.
  - intros w w' Hw Hw'. cbn in Hw, Hw'. unfold apart.
    repeat (apply elem_of_cons in Hw as [->|Hw]); [..|by apply not_elem_of_nil in Hw];
      (repeat (apply elem_of_cons in Hw' as [->|Hw']); [..|by apply not_elem_of_nil in Hw']);
      first [left; reflexivity|right; left; vm_compute; discriminate|right; right; vm_compute; discriminate].
  - assert (E : patch_compensate first_state = []) by by vm_compute. rewrite E.
    intros k w Hk. exfalso. by apply not_elem_of_nil in Hk.
Qed.

Lemma first_typed : tables_typed 0x400000 (version first_state) (table first_state) (all_sites (modules first_state)).
Proof.
  apply (gen_cfg_types sample_addr 0 0x400000 sample_state first_state (graphs_of sample_state) (ids_of sample_state) sample_update).
  intros m w _ _ H. change (Z.odd 0 = true) in H. discriminate.
Qed.

Lemma first_update : update sample_addr 0 0x400000 first_state (updated first_state) (graphs_of first_state) (ids_of first_state).
Proof.
  apply update_of; [exact first_ready|by vm_compute|by vm_compute|by vm_compute|by vm_compute|by left; vm_compute|exact first_typed].
Qed.

Lemma first_slots m s : m ∈ modules first_state -> s ∈ icfsyms m -> s_offset s < 0x400000.
Proof.
  rewrite first_modules. intros Hm. apply list_elem_of_singleton in Hm as ->. intros Hs.
  repeat (apply elem_of_cons in Hs as [->|Hs]; [by vm_compute|]). by apply not_elem_of_nil in Hs.
Qed.

Lemma all_writes ids slot target st l s :
  rtc (step ids slot target) (Config st l s) (Config (foldl (write_site ids) st l) [] s).
Proof. revert st. induction l as [|w l IH]; intros st; [done|]. eapply rtc_l; [constructor|apply IH]. Qed.

(** The identifier of the branch is loaded before the update and that of the
    target after it; the thread tries again. *)
Definition sample_end : config :=
  let ids := ids_of first_state in
  let st := foldl (write_site ids) (tables (begin_update first_state (graphs_of first_state))) (all_sites (modules first_state)) in
  let load := check_step (s_offset call_slot) 0x400000 in
  Config st [] (load st.1.1 (load st.1.1 (load st.1.1 (load (table first_state) Try)))).

Lemma sample_run : rtc (step (ids_of first_state) (s_offset call_slot) 0x400000)
  (begin_update first_state (graphs_of first_state)) sample_end.
Proof.
  eapply rtc_l; [apply thread_runs; by vm_compute|]. etrans; [apply all_writes|].
  do 3 (eapply rtc_l; [apply thread_runs; by vm_compute|]). done.
Qed.

Lemma check_finishes_witness :
  Nat.iter 2 (check_step (s_offset call_slot) 0x400040 (table first_state)) Try =
    atomic_check (s_offset call_slot) 0x400040 (table first_state).
Proof.
  apply (check_finishes 0x400000 (version first_state) (table first_state) (all_sites (modules first_state)));
    [exact first_typed|lia| |by vm_compute].
  change (s_offset call_slot) with (addr (BranchSite call_slot)). apply list_elem_of_fmap_2. rewrite first_modules.
  apply (in_all_sites first_module); [left|]. do 3 right. left.
Defined.

Lemma check_sound_witness : exists m' w, m' ∈ modules first_state /\ w ∈ tary_sites m' /\ 0x400000 = addr w /\
  (check_passes (table first_state) call_slot w = true \/
   has_id (graphs_of first_state) w /\ may_reach (graphs_of first_state) call_slot w /\
   target_active first_state (graphs_of first_state) w = true).
Proof.
  destruct (check_sound sample_addr 0 0x400000 first_state (updated first_state) (graphs_of first_state) (ids_of first_state)
    first_module call_slot 0x400000 sample_end first_update) as [H|H];
    [rewrite first_modules; left|left|by vm_compute|exact first_slots|exact sample_run|by vm_compute|lia|exact H].
Defined.

Lemma check_atomic_witness : exists c', rtc (step (ids_of first_state) (s_offset call_slot) 0x400000)
    (begin_update first_state (graphs_of first_state)) c' /\
  Go = atomic_check (s_offset call_slot) 0x400000 (tbl c').
Proof.
  assert (Hgo : thread sample_end = Go) by by vm_compute.
  destruct (check_atomic sample_addr 0 0x400000 first_state (updated first_state) (graphs_of first_state) (ids_of first_state)
    first_update first_module call_slot 0x400000) with (c := sample_end) as (c' & H1 & _ & H2);
    [rewrite first_modules; left|left|by vm_compute|lia|exact first_slots| |exact sample_run|by rewrite Hgo|].
  - rewrite first_modules. intros m' s Hm'. apply list_elem_of_singleton in Hm' as ->. done.
  - exists c'. split; [exact H1|]. rewrite <- Hgo. exact H2.
Defined.
