(* ===== verification/Stats.v ===== *)
(** * Statistics of the policy ([ibe_count], [collect_stat] of [runtime.c])

    The build with [COLLECT_STAT] counts, when the program asks, the edges that
    the policy allows: the pairs of a branch and a target with one identifier.
    The counters that the other functions of such a build keep ([counters], and
    the two dictionaries of the identifiers written) are its arguments; what it
    prints is the list of the arguments of each [dprintf].  [sz] stays below
    the 4 GB of the sandbox, so that the 32-bit index of the loop over a module
    does not wrap. *)

From S2P Require Import Prelude Dict Graph Module Table Runtime Threads GenCfg CfgTables Check.

(** The entries of a dictionary are sorted by uthash. *)
Definition sort_by_value (v1 v2 : Z) : Z := if v1 =? v2 then 0 else if v1 <? v2 then 1 else -1.

Definition incr_dict_val (d : dict Z) (k : Z) : dict Z :=
  let d := if dict_in d k then d else dict_put d k 0 in
  match dict_find d k with Some count => dict_set d k (u64 (count + 1)) | None => d end.

(** The words that the loops read, and their loop. *)
Definition words (t : mem) (p : Z) (n : Z) : list Z := (fun i => read64 t (p + 8 * i)) <$> seqZ 0 n.

Definition count_word (d : dict Z) (w : Z) : dict Z := if Z.land w 1 =? 0 then d else incr_dict_val d w.
Definition count_words (t : mem) (p n : Z) (d : dict Z) : dict Z := foldl count_word d (words t p n).

Record ibe_t : Type := mkIbe {
  edges : Z;                  (* ibe_count *)
  edges_wo_activation : Z;
  ict_that_has_targets_count : Z;
  rt_that_has_targets_count : Z;
}.

(** What the other functions of the build count. *)
Record counters : Type := mkCounters {
  STATIC_BID_SLOT_END : Z;
  ict_eqc_ids : dict Z;
  rt_eqc_ids : dict Z;
  ict_count : Z;
  rt_count : Z;
  ibt_funcs : Z;
  ibt_radcs : Z;
  ibt_raics : Z;
  ibt_funcs_taken_in_code : dict unit;
  vmtd_taken_in_code : dict unit;
  func_addr_activation_count : Z;
  vmtd_activation_count : Z;
  lp_activation_count : Z;
  radc_patch_count : Z;
  raic_patch_count : Z;
  at_patch_count : Z;
  func_entry_patch_count : Z;
  icj_count : Z;
}.

Section stats.
Variable HASH_SRT : dict Z -> (Z -> Z -> Z) -> dict Z.

(** "M:N": the branches and the addresses of each identifier in [ids]. *)
Definition has_targets (ib ids : dict Z) : list (list Z) :=
  omap (fun '(k, v) => match dict_find ib k with Some b => Some [b; v] | None => None end) ids.

(** Its second use of [ids] keeps to the identifiers of one kind. *)
Definition active_targets (ib ibt ids : dict Z) : list (list Z) :=
  omap (fun '(k, v) => match dict_find ids k, dict_find ib k with Some _, Some b => Some [b; v] | _, _ => None end) ibt.

Definition total_branches (ib ids : dict Z) : Z :=
  foldl (fun n '(k, _) => match dict_find ib k with Some b => u32 (n + b) | None => n end) 0 ids.

Definition edge_step (ict rt : dict Z) (st : dict Z * Z * Z) (kv : Z * Z) : dict Z * Z * Z :=
  let '(ibt, n, n0) := st in
  let '(k, b) := kv in
  let '(ibt, n) := match dict_find ibt k with
    | Some v => (dict_del ibt k, u64 (n + u64 (b * v)))
    | None => (ibt, n) end in
  let n0 := match dict_find ict k with Some v => u64 (n0 + u64 (b * v)) | None => n0 end in
  let n0 := match dict_find rt k with Some v => u64 (n0 + u64 (b * v)) | None => n0 end in
  (ibt, n, n0).

(** The index of the last slot; without a just-in-time compiler a slot is taken. *)
Definition slot_count (rt : runtime) (c : counters) : runtime * Z :=
  if negb (STATIC_BID_SLOT_END c =? 0) then (rt, u32 (STATIC_BID_SLOT_END c / 8))
  else let '(rt, b) := alloc_bid_slot rt in (rt, u32 (u32 (b - BID_SLOT_START) / 8)).

Definition ibe_count (rt : runtime) (c : counters) : runtime * ibe_t * list (list Z) :=
  let '(rt, id) := slot_count rt c in
  let ib := count_words (table rt) BID_SLOT_START id [] in
  let ibt := foldl (fun d m => if code_heap m then d else count_words (table rt) (base_addr m) (sz m / 8) d)
    [] (modules rt) in
  let ibt := HASH_SRT ibt sort_by_value in
  let ict := HASH_SRT (ict_eqc_ids c) sort_by_value in
  let rts := HASH_SRT (rt_eqc_ids c) sort_by_value in
  let printed := active_targets ib ibt ict ++ active_targets ib ibt rts ++ has_targets ib ict ++ has_targets ib rts in
  let '(_, n, n0) := foldl (edge_step ict rts) (ibt, 0, 0) ib in
  (rt, mkIbe n n0 (total_branches ib ict) (total_branches ib rts), printed).

(** [collect_stat], without [PROFILING]: the lines it prints.  [pid] is the
    answer of [getpid]; [self_icj] the count of the thread itself. *)
Definition lp_count (rt : runtime) : Z := foldl (fun n m => u32 (n + Z.of_nat (length (lp m)))) 0 (modules rt).

(** Rounded up, with the divisor as an unsigned int. *)
Definition average (n d : Z) : res Z := if d =? 0 then Fault else Ok (u64 (n + d - 1) / d).

Definition collect_stat (rt : runtime) (c : counters) (pid self_icj : Z) : res (runtime * counters * list (list Z)) :=
  let lp_count := lp_count rt in
  let eqclp := if 0 <? lp_count then 1 else 0 in
  let '(rt, ibe, printed) := ibe_count rt c in
  let ibe_count := u64 (edges ibe + lp_activation_count c) in
  let ibe_count_wo_activation := u64 (edges_wo_activation ibe + lp_count) in
  let size {V} (d : dict V) := u32 (Z.of_nat (length d)) in
  let ibwtgts := u32 (ict_that_has_targets_count ibe + rt_that_has_targets_count ibe + eqclp) in
  let total_ibts := u32 (ibt_funcs c + ibt_radcs c + ibt_raics c + lp_count) in
  out ← average ibe_count_wo_activation ibwtgts;
  inn ← average ibe_count_wo_activation total_ibts;
  let icj_count := u64 (icj_count c + self_icj) in
  Ok (rt, mkCounters (STATIC_BID_SLOT_END c) (ict_eqc_ids c) (rt_eqc_ids c) (ict_count c) (rt_count c) (ibt_funcs c)
        (ibt_radcs c) (ibt_raics c) (ibt_funcs_taken_in_code c) (vmtd_taken_in_code c) (func_addr_activation_count c)
        (vmtd_activation_count c) (lp_activation_count c) (radc_patch_count c) (raic_patch_count c) (at_patch_count c)
        (func_entry_patch_count c) icj_count,
    printed ++
    [[pid];
     [pid; u32 (size (ict_eqc_ids c) + size (rt_eqc_ids c) + eqclp)];
     [pid; size (ict_eqc_ids c)];
     [pid; size (rt_eqc_ids c)];
     [pid; eqclp];
     [pid; u32 (ict_count c + rt_count c + eqclp); ibwtgts];
     [pid; ict_count c; ict_that_has_targets_count ibe];
     [pid; rt_count c; rt_that_has_targets_count ibe];
     [pid; eqclp];
     [pid; total_ibts];
     [pid; ibt_funcs c];
     [pid; ibt_radcs c];
     [pid; ibt_raics c];
     [pid; lp_count];
     [pid; size (ibt_funcs_taken_in_code c)];
     [pid; u32 (ibt_funcs c - size (ibt_funcs_taken_in_code c))];
     [pid; func_addr_activation_count c];
     [pid; size (vmtd_taken_in_code c)];
     [pid; vmtd_activation_count c];
     [pid; lp_activation_count c];
     [pid; u32 (radc_patch_count c + raic_patch_count c)];
     [pid; radc_patch_count c];
     [pid; raic_patch_count c];
     [pid; ibe_count];
     [pid; at_patch_count c];
     [pid; func_entry_patch_count c];
     [pid; u32 (radc_patch_count c + raic_patch_count c)];
     [pid; ibe_count_wo_activation; out; inn]] ++
    (if 0 <? icj_count then [[pid; icj_count]] else [])).

(** ** What it counts *)

(** The whole words from [lo] to [hi]. *)
Definition word_addrs (lo hi : Z) : list Z := filter (fun a => (a - lo) mod 8 = 0 /\ a + 8 <= hi) (seqZ lo (hi - lo)).

(** Where the slots given to branches end: now, or when the first metadata
    were registered. *)
Definition slots_end (rt : runtime) (c : counters) : Z :=
  if STATIC_BID_SLOT_END c =? 0 then bid_slot rt else STATIC_BID_SLOT_END c.

(** The identifiers of the branches, and of the active targets outside the
    code of just-in-time compilers. *)
Definition is_id (w : Z) : bool := negb (Z.land w 1 =? 0).
Definition branches (rt : runtime) (c : counters) : list Z :=
  filter (fun w => is_id w = true) (read64 (table rt) <$> word_addrs BID_SLOT_START (slots_end rt c)).
Definition targets (rt : runtime) : list Z :=
  filter (fun w => is_id w = true)
    (m ← filter (fun m => code_heap m = false) (modules rt);
     read64 (table rt) <$> word_addrs (base_addr m) (base_addr m + sz m)).

(** Slots have been given out in order; and when metadata have been
    registered, the words that the count reads past the last slot (see
    [slots_overrun]) hold no identifier. *)
Record slots_ok (rt : runtime) (c : counters) : Prop := {
  slots_range : BID_SLOT_START <= slots_end rt c < 2 ^ 32;
  slots_aligned : slots_end rt c mod 8 = 0;
  slots_past : STATIC_BID_SLOT_END c <> 0 -> forall a, slots_end rt c <= a -> a + 8 <= slots_end rt c + BID_SLOT_START ->
    is_id (read64 (table rt) a) = false;
}.

(** The pairs that the check lets through. *)
Definition allowed (bs ts : list Z) : list (Z * Z) := b ← bs; pair b <$> filter (fun t => IDCmp b t = true) ts.
End stats.

(** ** Counting with a dictionary *)
Definition occ (k : Z) (l : list Z) : Z := Z.of_nat (length (filter (fun w => w = k) l)).
Definition tally (l : list Z) : dict Z := foldl incr_dict_val [] l.
Fixpoint zsum (f : Z -> Z) (l : list Z) : Z := match l with [] => 0 | x :: l' => f x + zsum f l' end.
Fixpoint wsum (f : Z -> Z) (d : dict Z) : Z := match d with [] => 0 | (k, v) :: d' => v * f k + wsum f d' end.

Lemma occ_snoc k l w : occ k (l ++ [w]) = occ k l + Z.b2z (w =? k).
Proof.
  unfold occ. rewrite filter_app, length_app, Nat2Z.inj_add. f_equal. destruct (Z.eqb_spec w k).
  - by rewrite filter_cons_True.
  - by rewrite filter_cons_False.
Qed.

Lemma occ_none k l : k ∉ l -> occ k l = 0.
Proof.
  unfold occ. induction l as [|x l IH]; intros H; [done|]. apply not_elem_of_cons in H as [Hx Hl].
  rewrite filter_cons_False by congruence. by apply IH.
Qed.

Lemma zsum_app f l l' : zsum f (l ++ l') = zsum f l + zsum f l'.
Proof. induction l as [|x l IH]; cbn [app zsum]; lia. Qed.

Lemma zsum_ext f g l : (forall x, x ∈ l -> f x = g x) -> zsum f l = zsum g l.
Proof.
  induction l as [|x l IH]; intros H; cbn [zsum]; [done|]. rewrite (H x) by (by left).
  f_equal. apply IH. intros y Hy. apply H. by right.
Qed.

Lemma incr_cases d w : incr_dict_val d w = match dict_find d w with
  | Some v => dict_set d w (u64 (v + 1))
  | None => dict_set (dict_put d w 0) w (u64 1)
  end.
Proof.
  unfold incr_dict_val, dict_in. destruct (dict_find d w) eqn:E; [by rewrite E|].
  by rewrite dict_find_put, E, Z.eqb_refl.
Qed.

Lemma incr_find d w k : dict_find (incr_dict_val d w) k =
  if w =? k then Some (u64 (match dict_find d w with Some v => v | None => 0 end + 1)) else dict_find d k.
Proof.
  rewrite incr_cases. destruct (dict_find d w) as [v|] eqn:E; rewrite dict_find_set; unfold dict_in.
  - rewrite E. by destruct (w =? k).
  - rewrite !dict_find_put, E, Z.eqb_refl. destruct (w =? k); [done|]. by destruct (dict_find d k).
Qed.

Lemma incr_wf d w : wf_dict d -> wf_dict (incr_dict_val d w).
Proof.
  intros H. rewrite incr_cases. destruct (dict_find d w) eqn:E; [by apply wf_set|].
  apply wf_set, wf_put; [done|by apply dict_find_None].
Qed.

Lemma tally_snoc l w : tally (l ++ [w]) = incr_dict_val (tally l) w.
Proof. unfold tally. by rewrite foldl_app. Qed.

Lemma tally_wf l : wf_dict (tally l).
Proof. induction l as [|w l IH] using rev_ind; [apply wf_nil|]. rewrite tally_snoc. by apply incr_wf. Qed.

Lemma tally_find l k : dict_find (tally l) k = if decide (k ∈ l) then Some (u64 (occ k l)) else None.
Proof.
  induction l as [|w l IH] using rev_ind; [done|]. rewrite tally_snoc, incr_find, occ_snoc.
  destruct (Z.eqb_spec w k) as [->|Hn].
  - rewrite decide_True by (apply elem_of_app; right; by left). rewrite IH. f_equal. destruct (decide (k ∈ l)) as [|Hk].
    + cbn [Z.b2z]. unfold u64, wrap. by rewrite Zplus_mod_idemp_l.
    + f_equal. by rewrite (occ_none k l).
  - rewrite IH. cbn [Z.b2z]. rewrite Z.add_0_r. destruct (decide (k ∈ l)) as [Hk|Hk].
    + rewrite decide_True; [done|]. apply elem_of_app. by left.
    + rewrite decide_False; [done|]. rewrite elem_of_app, list_elem_of_singleton. naive_solver.
Qed.

(** ** Sums over a dictionary, modulo the width of the counters *)
Lemma u64_add_l a b : u64 (u64 a + b) = u64 (a + b).
Proof. unfold u64, wrap. by rewrite Zplus_mod_idemp_l. Qed.

Lemma u64_add_r a b : u64 (a + u64 b) = u64 (a + b).
Proof. unfold u64, wrap. by rewrite Zplus_mod_idemp_r. Qed.

Lemma u64_mul_r a b : u64 (a * u64 b) = u64 (a * b).
Proof. unfold u64, wrap. by rewrite Zmult_mod_idemp_r. Qed.

Lemma u64_mul_l a b : u64 (u64 a * b) = u64 (a * b).
Proof. unfold u64, wrap. by rewrite Zmult_mod_idemp_l. Qed.

Lemma wsum_put f d k v : wsum f (dict_put d k v) = wsum f d + v * f k.
Proof. unfold dict_put. induction d as [|[k' v'] d IH]; cbn [app wsum]; lia. Qed.

Lemma wsum_set f d k v x : dict_find d k = Some v -> wsum f (dict_set d k x) = wsum f d + (x - v) * f k.
Proof.
  induction d as [|[k' v'] d IH]; cbn [dict_find dict_set wsum]; [done|]. destruct (Z.eqb_spec k' k) as [->|].
  - intros [= ->]. cbn [wsum]. lia.
  - intros H. cbn [wsum]. rewrite (IH H). lia.
Qed.

Lemma wsum_incr f d w : u64 (wsum f (incr_dict_val d w)) = u64 (wsum f d + f w).
Proof.
  rewrite incr_cases. destruct (dict_find d w) as [v|] eqn:E.
  - rewrite (wsum_set f d w v _ E). rewrite <- u64_add_r, <- u64_mul_l.
    replace (u64 (u64 (v + 1) - v)) with (u64 1) by (unfold u64, wrap; rewrite Zminus_mod_idemp_l; f_equal; lia).
    by rewrite u64_mul_l, u64_add_r, Z.mul_1_l.
  - rewrite (wsum_set f (dict_put d w 0) w 0) by (by rewrite dict_find_put, E, Z.eqb_refl).
    rewrite wsum_put. change (u64 1) with 1. f_equal. lia.
Qed.

Lemma tally_sum f l : u64 (wsum f (tally l)) = u64 (zsum f l).
Proof.
  induction l as [|w l IH] using rev_ind; [done|]. rewrite tally_snoc, wsum_incr, zsum_app.
  rewrite <- u64_add_l, IH, u64_add_l. cbn [zsum]. f_equal. lia.
Qed.

(** ** The loops *)
Lemma count_words_tally t p n d : count_words t p n d = foldl incr_dict_val d (filter (fun w => is_id w = true) (words t p n)).
Proof.
  unfold count_words. generalize (words t p n). intros l. revert d. induction l as [|w l IH]; intros d; [done|].
  cbn [foldl]. rewrite IH. unfold count_word, is_id. destruct (Z.land w 1 =? 0) eqn:E.
  - rewrite filter_cons_False; [done|]. by rewrite E.
  - rewrite filter_cons_True; [done|]. by rewrite E.
Qed.

Lemma count_modules_tally t ms : forall l,
  foldl (fun d m => if code_heap m then d else count_words t (base_addr m) (sz m / 8) d) (tally l) ms =
  tally (l ++ filter (fun w => is_id w = true)
    (m ← filter (fun m => code_heap m = false) ms; words t (base_addr m) (sz m / 8))).
Proof.
  induction ms as [|m ms IH]; intros l; [by rewrite app_nil_r|]. cbn [foldl]. destruct (code_heap m) eqn:E.
  - rewrite IH, (filter_cons_False (fun m => code_heap m = false)); [done|by rewrite E].
  - rewrite count_words_tally, (filter_cons_True (fun m => code_heap m = false)) by done.
    unfold tally at 1. rewrite <- foldl_app. fold (tally (l ++ filter (fun w => is_id w = true) (words t (base_addr m) (sz m / 8)))).
    rewrite IH. cbn [mbind list_bind]. by rewrite filter_app, app_assoc.
Qed.

Lemma dict_find_perm (d d' : dict Z) k : wf_dict d -> d ≡ₚ d' -> dict_find d' k = dict_find d k.
Proof.
  intros Hd Hp. assert (Hd' : wf_dict d') by (unfold wf_dict, keys in *; by rewrite <- Hp).
  destruct (dict_find d k) as [v|] eqn:E.
  - apply dict_find_wf; [done|]. rewrite <- Hp. by apply dict_find_in.
  - apply dict_find_None. apply dict_find_None in E. unfold keys in *. by rewrite <- Hp.
Qed.

Definition value (d : dict Z) (k : Z) : Z := default 0 (dict_find d k).

Lemma edge_step_add d k b n : match dict_find d k with Some v => u64 (u64 n + u64 (b * v)) | None => u64 n end = u64 (n + b * value d k).
Proof.
  unfold value. destruct (dict_find d k); cbn [default]; [by rewrite u64_add_l, u64_add_r|by rewrite Z.mul_0_r, Z.add_0_r].
Qed.

Lemma edge_loop ict rts ib : wf_dict ib -> forall ibt n n0, wf_dict ibt -> 
  exists ibt', foldl (edge_step ict rts) (ibt, u64 n, u64 n0) ib =
    (ibt', u64 (n + wsum (value ibt) ib), u64 (n0 + wsum (fun k => value ict k + value rts k) ib)).
Proof.
  induction ib as [|[k b] ib IH]; intros Hib ibt n n0 Hw; cbn [foldl wsum].
  - exists ibt. by rewrite !Z.add_0_r.
  - unfold wf_dict, keys in Hib. cbn in Hib. apply NoDup_cons in Hib as [Hk Hib].
    assert (Hstep : exists ibt1, wf_dict ibt1 /\ (forall k', k' <> k -> value ibt1 k' = value ibt k') /\
      edge_step ict rts (ibt, u64 n, u64 n0) (k, b) =
        (ibt1, u64 (n + b * value ibt k), u64 (n0 + b * (value ict k + value rts k)))).
    { unfold edge_step. rewrite !edge_step_add. replace (n0 + b * value ict k + b * value rts k) with
        (n0 + b * (value ict k + value rts k)) by lia. unfold value at 2 5.
      destruct (dict_find ibt k) as [v|] eqn:E; cbn [default].
      - exists (dict_del ibt k). split; [by apply wf_del|]. split; [|by rewrite u64_add_l, u64_add_r].
        intros k' Hk'. unfold value. rewrite dict_find_del by done. destruct (Z.eqb_spec k k'); [by subst|done].
      - exists ibt. split; [done|]. split; [done|]. by rewrite Z.mul_0_r, Z.add_0_r. }
    destruct Hstep as (ibt1 & Hw1 & Hsame & ->). destruct (IH Hib ibt1 (n + b * value ibt k)
      (n0 + b * (value ict k + value rts k)) Hw1) as [ibt' ->]. exists ibt'. f_equal; [f_equal; f_equal|f_equal; lia].
    rewrite <- Z.add_assoc. f_equal. f_equal. clear -Hk Hsame. induction ib as [|[k' b'] ib IH]; cbn [wsum]; [done|].
    cbn in Hk. apply not_elem_of_cons in Hk as [Hne Hk]. rewrite Hsame by done. by rewrite IH.
Qed.

Lemma occ_sum ks l : NoDup ks -> zsum (fun k => occ k l) ks = Z.of_nat (length (filter (fun w => w ∈ ks) l)).
Proof.
  intros Hnd. induction l as [|w l IH].
  - cbn. clear. induction ks as [|k ks IH]; [done|]. cbn [zsum]. by rewrite IH.
  - assert (H : forall ks, NoDup ks -> zsum (fun k => occ k (w :: l)) ks =
      zsum (fun k => occ k l) ks + (if decide (w ∈ ks) then 1 else 0)).
    { clear. intros ks Hnd. induction Hnd as [|k ks Hk Hnd IH]; cbn [zsum]; [done|]. rewrite IH.
      change (w :: l) with ([w] ++ l). unfold occ at 1. rewrite filter_app, length_app, Nat2Z.inj_add. fold (occ k l).
      destruct (decide (w = k)) as [->|Hne].
      - rewrite filter_cons_True, (decide_False (P := k ∈ ks)), decide_True by (done || by left). cbn. lia.
      - rewrite filter_cons_False by done. cbn. destruct (decide (w ∈ ks)).
        + rewrite decide_True by (by right). lia.
        + rewrite decide_False by (rewrite elem_of_cons; naive_solver). lia. }
    rewrite (H ks Hnd), IH. destruct (decide (w ∈ ks)).
    + rewrite filter_cons_True by done. cbn [length]. lia.
    + rewrite filter_cons_False by done. lia.
Qed.

Lemma u32_u64 n x : u32 (u32 n + u64 x) = u32 (n + x).
Proof.
  unfold u32, u64, wrap. rewrite Zplus_mod_idemp_l. rewrite <- (Zplus_mod_idemp_r (x mod 2 ^ 64)), <- (Zplus_mod_idemp_r x).
  f_equal. f_equal. by rewrite <- Znumtheory.Zmod_div_mod by (try done; by exists (2 ^ 32)).
Qed.

Lemma total_branches_sum bs (ids : dict Z) : forall n,
  foldl (fun n '(k, _) => match dict_find (tally bs) k with Some b => u32 (n + b) | None => n end) (u32 n) ids =
  u32 (n + zsum (fun k => occ k bs) (keys ids)).
Proof.
  induction ids as [|[k v] ids IH]; intros n; cbn [foldl zsum keys fmap list_fmap fst].
  - by rewrite Z.add_0_r.
  - rewrite tally_find. destruct (decide (k ∈ bs)) as [Hk|Hk].
    + rewrite u32_u64, IH. f_equal. cbn. unfold keys. lia.
    + rewrite IH. f_equal. cbn. rewrite (occ_none k bs Hk). unfold keys. lia.
Qed.

Lemma total_branches_ids bs (d ids : dict Z) : wf_dict d -> d ≡ₚ ids ->
  total_branches (tally bs) ids = u32 (Z.of_nat (length (filter (fun b => dict_in d b = true) bs))).
Proof.
  intros Hd Hp. unfold total_branches. change 0 with (u32 0) at 1. rewrite total_branches_sum, occ_sum.
  - f_equal. rewrite Z.add_0_l. f_equal. f_equal. apply list_filter_iff. intros w. rewrite dict_in_keys.
    unfold keys. by rewrite <- Hp.
  - unfold wf_dict, keys in *. by rewrite <- Hp.
Qed.

Lemma allowed_length bs ts : Z.of_nat (length (allowed bs ts)) = zsum (fun b => occ b ts) bs.
Proof.
  induction bs as [|b bs IH]; [done|]. unfold allowed in *. cbn [mbind list_bind zsum].
  rewrite length_app, Nat2Z.inj_add, IH, length_fmap. f_equal. unfold occ. f_equal. f_equal. apply list_filter_iff.
  intros w. unfold IDCmp. apply Z.eqb_eq.
Qed.

Lemma u64_zsum f g l : (forall x, u64 (f x) = u64 (g x)) -> u64 (zsum f l) = u64 (zsum g l).
Proof.
  intros H. induction l as [|x l IH]; [done|]. cbn [zsum]. rewrite <- u64_add_l, H, u64_add_l, <- u64_add_r, IH.
  by rewrite u64_add_r.
Qed.

(** ** The words *)
Lemma words_app t p n k : 0 <= n -> 0 <= k -> words t p (n + k) = words t p n ++ words t (p + 8 * n) k.
Proof.
  intros Hn Hk. unfold words. rewrite seqZ_app, fmap_app by done. f_equal.
  replace (0 + n) with (n + 0) by lia. rewrite <- (fmap_add_seqZ n 0 k), <- list_fmap_compose.
  apply list_fmap_ext. intros i x _. cbn. f_equal. lia.
Qed.

Lemma filter_none {A} (P : A -> Prop) `{!forall x, Decision (P x)} (l : list A) : (forall x, x ∈ l -> ~ P x) -> filter P l = [].
Proof.
  induction l as [|x l IH]; intros Hl; [done|]. rewrite filter_cons_False by (apply Hl; by left).
  apply IH. intros y Hy. apply Hl. by right.
Qed.

Lemma filter_same {A} (P Q : A -> Prop) `{!forall x, Decision (P x), !forall x, Decision (Q x)} (l : list A) :
  (forall x, x ∈ l -> P x <-> Q x) -> filter P l = filter Q l.
Proof.
  induction l as [|x l IH]; intros Hl; [done|]. rewrite !filter_cons. destruct (Hl x) as [H1 H2]; [by left|].
  rewrite IH by (intros y Hy; apply Hl; by right). destruct (decide (P x)), (decide (Q x)); naive_solver.
Qed.

(** Every eighth address. *)
Lemma word_addrs_eight lo n : 0 <= n ->
  filter (fun a => (a - lo) mod 8 = 0) (seqZ lo (8 * n)) = (fun i => lo + 8 * i) <$> seqZ 0 n.
Proof.
  revert n. apply natlike_ind; [done|]. intros n Hn IH. rewrite <- Z.add_1_r, Z.mul_add_distr_l, !seqZ_app by lia.
  rewrite filter_app, IH, fmap_app. f_equal. change (8 * 1) with 8. rewrite Z.add_0_l.
  rewrite (seqZ_cons _ 8), (seqZ_cons n 1) by lia. cbn [fmap list_fmap]. rewrite filter_cons_True by div_lia.
  f_equal. cbn. apply filter_none. intros a Ha. apply elem_of_seqZ in Ha. div_lia.
Qed.

Lemma word_addrs_words t lo hi : read64 t <$> word_addrs lo hi = words t lo ((hi - lo) / 8).
Proof.
  unfold words. assert (E : word_addrs lo hi = (fun i => lo + 8 * i) <$> seqZ 0 ((hi - lo) / 8)).
  { unfold word_addrs. destruct (decide (0 <= hi - lo)) as [Hp|Hp]; [|rewrite !seqZ_nil by div_lia; done].
    set (n := (hi - lo) / 8). assert (Hn : 0 <= n /\ 8 * n <= hi - lo < 8 * n + 8) by (unfold n; div_lia).
    replace (hi - lo) with (8 * n + (hi - lo - 8 * n)) by lia. rewrite seqZ_app, filter_app by lia.
    rewrite <- word_addrs_eight by lia. rewrite <- app_nil_r. f_equal.
    - apply filter_same. intros a Ha. apply elem_of_seqZ in Ha. split; [by intros [? _]|]. intros Hm. split; [done|]. div_lia.
    - apply filter_none. intros a Ha. apply elem_of_seqZ in Ha. lia. }
  rewrite E, <- list_fmap_compose. done.
Qed.

(** What the loop over the slots counts: the slots. *)
Lemma slots_read rt c : slots_ok rt c ->
  filter (fun w => is_id w = true) (words (table rt) BID_SLOT_START (slot_count rt c).2) = branches rt c.
Proof.
  intros [Hr Ha Hp]. unfold branches. rewrite word_addrs_words. unfold slot_count, slots_end in *.
  unfold BID_SLOT_START in *. revert Hr Ha Hp.
  destruct (Z.eqb_spec (STATIC_BID_SLOT_END c) 0) as [E|E]; intros Hr Ha Hp; cbn [negb snd alloc_bid_slot].
  - rewrite (u32_small (_ - _)) by lia. by rewrite u32_small by div_lia.
  - rewrite u32_small by div_lia. set (n := (STATIC_BID_SLOT_END c - 0x11000) / 8).
    assert (Hn : 0 <= n /\ 0x11000 + 8 * n = STATIC_BID_SLOT_END c) by (unfold n; div_lia).
    replace (STATIC_BID_SLOT_END c / 8) with (n + 0x2200) by div_lia.
    rewrite words_app, filter_app by lia. rewrite (filter_none _ (words _ (_ + 8 * n) _)), app_nil_r; [done|].
    intros w Hw. unfold words in Hw. apply list_elem_of_fmap in Hw as (i & -> & Hi). apply elem_of_seqZ in Hi.
    rewrite Hp; [done|done|lia|lia].
Qed.

Section theorems.
Variable HASH_SRT : dict Z -> (Z -> Z -> Z) -> dict Z.
Hypothesis HASH_SRT_perm : forall d cmp, HASH_SRT d cmp ≡ₚ d.

Lemma ibe_count_sums rt c : slots_ok rt c -> wf_dict (ict_eqc_ids c) -> wf_dict (rt_eqc_ids c) ->
  let '(_, r, _) := ibe_count HASH_SRT rt c in
  edges r = u64 (Z.of_nat (length (allowed (branches rt c) (targets rt)))) /\
  edges_wo_activation r = u64 (zsum (fun b => value (ict_eqc_ids c) b + value (rt_eqc_ids c) b) (branches rt c)) /\
  ict_that_has_targets_count r = u32 (Z.of_nat (length (filter (fun b => dict_in (ict_eqc_ids c) b = true) (branches rt c)))) /\
  rt_that_has_targets_count r = u32 (Z.of_nat (length (filter (fun b => dict_in (rt_eqc_ids c) b = true) (branches rt c)))).
Proof.
  intros Hok Hi Hr. unfold ibe_count. pose proof (slots_read rt c Hok) as Hbs.
  assert (E : table (slot_count rt c).1 = table rt /\ modules (slot_count rt c).1 = modules rt).
  { unfold slot_count. by destruct (negb _). }
  destruct (slot_count rt c) as [rt' id]. cbn [fst snd] in *. destruct E as [-> ->].
  rewrite count_words_tally, Hbs. change (foldl incr_dict_val [] ?l) with (tally l).
  set (bs := branches rt c).
  pose proof (count_modules_tally (table rt) (modules rt) []) as Ht. cbn [app] in Ht.
  change (tally []) with ([] : dict Z) in Ht. rewrite Ht.
  assert (Htg : filter (fun w => is_id w = true) (m ← filter (fun m => code_heap m = false) (modules rt);
    words (table rt) (base_addr m) (sz m / 8)) = targets rt).
  { unfold targets. f_equal. apply list_bind_ext; [|done]. intros m. rewrite word_addrs_words. f_equal. f_equal. lia. }
  rewrite Htg.
  set (ict := HASH_SRT (ict_eqc_ids c) sort_by_value). set (rts := HASH_SRT (rt_eqc_ids c) sort_by_value).
  set (ibt := HASH_SRT (tally (targets rt)) sort_by_value).
  assert (Hibt : tally (targets rt) ≡ₚ ibt) by (symmetry; apply HASH_SRT_perm).
  assert (Hict : ict_eqc_ids c ≡ₚ ict) by (symmetry; apply HASH_SRT_perm).
  assert (Hrts : rt_eqc_ids c ≡ₚ rts) by (symmetry; apply HASH_SRT_perm).
  destruct (edge_loop ict rts (tally bs) (tally_wf bs) ibt 0 0) as [ibt' Hloop].
  { unfold wf_dict, keys in *. rewrite <- Hibt. apply tally_wf. }
  change (u64 0) with 0 in Hloop. rewrite Hloop. cbn [edges edges_wo_activation ict_that_has_targets_count rt_that_has_targets_count].
  rewrite !Z.add_0_l, !tally_sum. split; [|split; [|split; by apply total_branches_ids]].
  - rewrite allowed_length. apply u64_zsum. intros b. unfold value. rewrite (dict_find_perm _ _ b (tally_wf _) Hibt), tally_find.
    destruct (decide (b ∈ targets rt)) as [Hb|Hb]; cbn [from_option]; [|by rewrite occ_none].
    apply (u64_add_r 0).
  - f_equal. apply zsum_ext. intros b _. unfold value. by rewrite (dict_find_perm _ _ b Hi Hict), (dict_find_perm _ _ b Hr Hrts).
Qed.

(** C28.  The number of edges that [ibe_count] finds is the number of pairs of a
    branch and an active target, outside just-in-time compiled code, that the
    check lets through, where the branches are the words of the slots given out
    so far, or before the first metadata were registered; without activation it
    is the sum, over the branches, of the targets written with their
    identifier; and the branches with targets are those whose identifier was
    written to one.  [collect_stat] prints, as the number of edges, that number
    plus the landing pads that were activated.  All modulo the widths of the
    counters, and whatever order the tables are sorted in. *)
Theorem ibe_count_edges rt c : slots_ok rt c -> wf_dict (ict_eqc_ids c) -> wf_dict (rt_eqc_ids c) ->
  let '(_, r, printed) := ibe_count HASH_SRT rt c in
  edges r = u64 (Z.of_nat (length (allowed (branches rt c) (targets rt)))) /\
  edges_wo_activation r = u64 (zsum (fun b => value (ict_eqc_ids c) b + value (rt_eqc_ids c) b) (branches rt c)) /\
  ict_that_has_targets_count r = u32 (Z.of_nat (length (filter (fun b => dict_in (ict_eqc_ids c) b = true) (branches rt c)))) /\
  rt_that_has_targets_count r = u32 (Z.of_nat (length (filter (fun b => dict_in (rt_eqc_ids c) b = true) (branches rt c)))) /\
  (forall pid self_icj st, collect_stat HASH_SRT rt c pid self_icj = Ok st ->
     st.2 !! (length printed + 23)%nat =
       Some [pid; u64 (Z.of_nat (length (allowed (branches rt c) (targets rt))) + lp_activation_count c)]).
Proof.
  intros Hok Hi Hr. pose proof (ibe_count_sums rt c Hok Hi Hr) as H. unfold collect_stat.
  destruct (ibe_count HASH_SRT rt c) as [[rt' r] printed]. destruct H as (H1 & H2 & H3 & H4).
  do 4 (split; [done|]). intros pid self_icj st Hrun. cbv zeta in Hrun.
  apply bind_Ok_inv in Hrun as (out & _ & Hrun). apply bind_Ok_inv in Hrun as (inn & _ & Hrun).
  injection Hrun as <-. cbn [snd]. rewrite lookup_app_r by lia.
  rewrite H1, u64_add_l. by replace (length printed + 23 - length printed)%nat with 23%nat by lia.
Qed.
End theorems.

(** ** Where the statistics go wrong *)

(** Once metadata has been registered, the loop over the slots goes [0x2200]
    words past the last one: [STATIC_BID_SLOT_END] is not made relative to the
    first slot. *)
Lemma slots_overrun rt c : BID_SLOT_START <= STATIC_BID_SLOT_END c < 2 ^ 32 ->
  (slot_count rt c).2 = (STATIC_BID_SLOT_END c - BID_SLOT_START) / 8 + 0x2200.
Proof.
  unfold slot_count, BID_SLOT_START. intros H. destruct (Z.eqb_spec (STATIC_BID_SLOT_END c) 0); [lia|]. cbn [negb snd].
  rewrite u32_small; div_lia.
Qed.

(** The averages divide by what may be zero. *)
Lemma collect_stat_divides HASH_SRT rt c pid self_icj : (forall d cmp, HASH_SRT d cmp ≡ₚ d) -> slots_ok rt c ->
  wf_dict (ict_eqc_ids c) -> wf_dict (rt_eqc_ids c) -> lp_count rt = 0 ->
  (forall b, b ∈ branches rt c -> dict_in (ict_eqc_ids c) b = false /\ dict_in (rt_eqc_ids c) b = false) ->
  collect_stat HASH_SRT rt c pid self_icj = Fault.
Proof.
  intros Hs Hok Hi Hr Hlp Hb. pose proof (ibe_count_sums HASH_SRT Hs rt c Hok Hi Hr) as H. unfold collect_stat. rewrite Hlp.
  destruct (ibe_count HASH_SRT rt c) as [[rt' r] out]. destruct H as (_ & _ & H1 & H2). rewrite H1, H2.
  assert (E : forall d : dict Z, (forall b, b ∈ branches rt c -> dict_in d b = false) ->
    filter (fun b => dict_in d b = true) (branches rt c) = []).
  { intros d. generalize (branches rt c). intros l Hd. induction l as [|b l IH]; [done|].
    rewrite filter_cons_False by (by rewrite (Hd b (list_elem_of_here _ _))).
    apply IH. intros b' Hb'. apply Hd. by right. }
  rewrite !E by (intros b Hin; by destruct (Hb b Hin)). done.
Qed.

(** ** A small program *)
Fixpoint insert_by (cmp : Z -> Z -> Z) (e : Z * Z) (d : dict Z) : dict Z :=
  match d with
  | [] => [e]
  | e' :: d' => if cmp e.2 e'.2 <=? 0 then e :: d else e' :: insert_by cmp e d'
  end.

Definition insertion_sort (d : dict Z) (cmp : Z -> Z -> Z) : dict Z := foldr (insert_by cmp) [] d.

Lemma insertion_sort_perm d cmp : insertion_sort d cmp ≡ₚ d.
Proof.
  assert (H : forall e d, insert_by cmp e d ≡ₚ e :: d).
  { intros e. induction d0 as [|e' d0 IH]; [done|]. cbn. destruct (_ <=? _); [done|]. rewrite IH. by constructor. }
  induction d as [|e d IH]; [done|]. cbn. by rewrite H, IH.
Qed.

(** Three branches; three active targets and one that is not. *)
Definition counted_state : runtime :=
  sample_runtime {{ table := foldl (fun t '(a, w) => write64 t a w) (fun _ => 0)
    [(0x11000, 0x101); (0x11008, 0x101); (0x11010, 0x103);
     (0x30000, 0x101); (0x30008, 0x103); (0x30010, 0x101); (0x30018, 0x100)] }}
  {{ modules := [alloc_code_module {{ base_addr := 0x30000 }} {{ sz := 0x40 }}] }} {{ bid_slot := 0x11018 }}.
Definition counted : counters :=
  mkCounters 0 [(0x101, 3)] [(0x103, 1)] 2 1 2 1 1 [] [] 0 0 0 0 0 0 0 0.

Lemma counted_slots : slots_ok counted_state counted.
Proof. constructor; [by vm_compute|by vm_compute|by intros []]. Qed.

Lemma ibe_count_edges_witness :
  branches counted_state counted = [0x101; 0x101; 0x103] /\
  edges (ibe_count insertion_sort counted_state counted).1.2 = 5 /\
  edges (ibe_count insertion_sort counted_state counted).1.2 =
    u64 (Z.of_nat (length (allowed (branches counted_state counted) (targets counted_state)))).
Proof.
  split; [vm_compute; reflexivity|]. split; [vm_compute; reflexivity|].
  pose proof (ibe_count_edges insertion_sort insertion_sort_perm counted_state counted counted_slots) as H.
  destruct (ibe_count insertion_sort counted_state counted) as [[rt r] out]. cbn [fst snd].
  apply H; apply NoDup_singleton.
Defined.

(** What [collect_stat] prints of it. *)
Example counted_printed : exists st, collect_stat insertion_sort counted_state counted 7 0 = Ok st /\
  (take 4 st.2 = [[2; 2]; [1; 1]; [2; 3]; [1; 1]]) /\ [7; 7; 3; 2] ∈ st.2.
Proof.
  eexists. split; [vm_compute; reflexivity|]. split; [reflexivity|]. apply list_elem_of_lookup. by exists 31%nat.
Qed.
