(* ===== verification/Patch.v ===== *)
(** * Online patching ([runtime.c], [patch_at], [patch_entry], [patch_call])

    The code of a function taken, of a constructor entered or of a call made
    for the first time calls the runtime, which activates the targets and
    puts the original instruction back.  The counters of [COLLECT_STAT] and
    the messages of [PROFILING] are left out. *)

From S2P Require Import Prelude Dict Graph Module Table Pager Runtime.

(** [*ptid |= 1] *)
Definition set_valid (t : mem) (a : Z) : mem := write64 t a (Z.lor (read64 t a) 1).

(** Activating each address of a set, those that are not active yet. *)
Definition activate (t : mem) (a : Z * unit) : mem :=
  if Z.land (read64 t a.1) 1 =? 0 then set_valid t a.1 else t.
Definition activate_all (t : mem) (sites : dict unit) : mem := foldl activate t sites.

(** Eight bytes as a little-endian word. *)
Definition le_word (bytes : list Z) : Z := foldr (fun b w => b + 256 * w) 0 bytes.

Definition fivebytenop : list Z := [0x0f; 0x1f; 0x44; 0x00; 0x00].

Definition patch_at (patchpoint : Z) (rt : runtime) : res runtime :=
  match find_module patchpoint (modules rt) with
  | None => Exit
  | Some (_, m) =>
    _ ← CHECK (patchpoint mod 8 =? 0);
    let patchpoint := u64 (patchpoint - base_addr m) in
    match dict_find (at_func m) patchpoint with
    | None => Exit
    | Some name =>
      rt ← match dict_find (rt_fats_in_code rt) name with
           | Some adj =>
             _ ← CHECK (match adj with [] => true | _ => rt_cfggened rt end);
             Ok (rt {{ table := activate_all (table rt) adj }}
                    {{ rt_fats_in_code := g_del_vertex (rt_fats_in_code rt) name }})
           | None => Ok rt
           end;
      let p := u64 (osb_base_addr m + patchpoint - 8) in
      let patch := [osb rt p; osb rt (p + 1); osb rt (p + 2)] ++ fivebytenop in
      Ok (rt {{ osb := write64 (osb rt) p (le_word patch) }})
    end
  end.

(** The virtual methods of the class whose constructor is entered. *)
Definition activate_methods (vmtd : graph) (t : mem) (methods : list Z) : mem :=
  foldl (fun t n => match dict_find vmtd n with Some adj => activate_all t adj | None => t end) t methods.

Definition patch_entry (patchpoint : Z) (rt : runtime) : res runtime :=
  match find_module patchpoint (modules rt) with
  | None => Exit
  | Some (i, m) =>
    _ ← CHECK (patchpoint mod 8 =? 0);
    let patchpoint := u64 (patchpoint - base_addr m) in
    _ ← CHECK (rt_cfggened rt);
    let '(t, vt) :=
      match dict_find (ctor m) patchpoint with
      | Some class_name =>
        match dict_find (vtable m) class_name with
        | Some methods => (activate_methods (rt_vmtd rt) (table rt) methods, dict_del (vtable m) class_name)
        | None => (table rt, vtable m)
        end
      | None => (table rt, vtable m)
      end in
    let '(t, lps) :=
      match dict_find (flp m) patchpoint with
      | Some pads => (foldl (fun t (v : Z * unit) => write8 t (u64 (base_addr m + v.1)) LPV) t pads,
                      g_del_vertex (flp m) patchpoint)
      | None => (t, flp m)
      end in
    match dict_find (func_orig m) patchpoint with
    | None => Exit
    | Some orig =>
      let rt := rt {{ table := t }} in
      let rt := set_module i (m {{ vtable := vt }} {{ flp := lps }}) rt in
      Ok (rt {{ osb := write64 (osb rt) (u64 (osb_base_addr m + patchpoint)) orig }})
    end
  end.

Definition patch_call (patchpoint : Z) (rt : runtime) : res runtime :=
  match find_module patchpoint (modules rt) with
  | None => Exit
  | Some (_, m) =>
    _ ← CHECK ((patchpoint mod 8 =? 0) || (u64 (patchpoint + 3) mod 8 =? 0) || (u64 (patchpoint + 2) mod 8 =? 0));
    if dict_in (patched_ra rt) patchpoint then Ok rt
    else
      let rt := rt {{ patched_ra := dict_put (patched_ra rt) patchpoint tt }} in
      let patchpoint := u64 (u64 (patchpoint + 7) / 8 * 8) in
      let key := u64 (patchpoint - base_addr m) in
      match dict_find (ra_orig m) key with
      | None => Exit
      | Some orig =>
        let a := u64 (base_addr m + key) in
        rt ← (if rt_cfggened rt then Ok (rt {{ table := set_valid (table rt) a }})
              else
                pc ← dict_add (patch_compensate rt) a tt;
                Ok (rt {{ patch_compensate := pc }}));
        Ok (rt {{ osb := write64 (osb rt) (u64 (osb_base_addr m + key - 8)) orig }})
      end
  end.

(** ** Words of bytes *)
Lemma write_le_bytes l m a k b : (forall b, b ∈ l -> 0 <= b < 256) -> l !! k = Some b ->
  write_le (length l) m a (le_word l) (a + Z.of_nat k) = b.
Proof.
  revert m a k. induction l as [|b0 l IH]; intros m a k Hl Hk; [done|]. cbn [length write_le le_word foldr].
  assert (Hb0 : 0 <= b0 < 256) by (apply Hl; left).
  fold (le_word l). replace ((b0 + 256 * le_word l) / 256) with (le_word l) by div_lia.
  destruct k as [|k]; cbn in Hk.
  - injection Hk as <-. rewrite Z.add_0_r, write_le_out by lia. unfold write8. rewrite Z.eqb_refl.
    unfold u8, wrap. change (2 ^ 8) with 256. div_lia.
  - rewrite Nat2Z.inj_succ. replace (a + Z.succ (Z.of_nat k)) with (a + 1 + Z.of_nat k) by lia.
    apply IH; [intros b' Hb'; apply Hl; by right|done].
Qed.

(** ** Activation of a set of words *)
(** A word after activations elsewhere or of itself. *)
Lemma activate_read t k a : 0 <= read64 t a < 2 ^ 64 -> k.1 = a \/ apart a 8 k.1 8 ->
  read64 (activate t k) a = if decide (k.1 = a) then Z.lor (read64 t a) 1 else read64 t a.
Proof.
  intros Hr Hk. unfold activate, set_valid. destruct (decide (k.1 = a)) as [->|Hne].
  - destruct (Z.eqb_spec (Z.land (read64 t a) 1) 0).
    + by rewrite read64_same by by apply lor_one_range.
    + by rewrite lor_one_land.
  - destruct Hk as [?|Hap]; [done|]. destruct (_ =? 0); [by rewrite read64_apart|done].
Qed.

Lemma activate_all_read t sites a : 0 <= read64 t a < 2 ^ 64 ->
  (forall k, k ∈ keys sites -> k = a \/ apart a 8 k 8) ->
  read64 (activate_all t sites) a = if decide (a ∈ keys sites) then Z.lor (read64 t a) 1 else read64 t a.
Proof.
  revert t. unfold activate_all. induction sites as [|[k u] l IH]; intros t Hr Hk; cbn [foldl].
  { rewrite decide_False; [done|apply not_elem_of_nil]. }
  assert (Ha : read64 (activate t (k, u)) a = if decide (k = a) then Z.lor (read64 t a) 1 else read64 t a).
  { apply (activate_read t (k, u)); [done|]. apply Hk. left. }
  rewrite IH, Ha.
  - unfold keys. cbn [fmap list_fmap fst]. destruct (decide (k = a)) as [->|Hne].
    + rewrite (decide_True (P := a ∈ a :: _)) by left.
      destruct (decide (a ∈ l.*1)); [by rewrite <- Z.lor_assoc|done].
    + destruct (decide (a ∈ l.*1)); [by rewrite decide_True by by right|].
      rewrite decide_False; [done|]. apply not_elem_of_cons. auto.
  - rewrite Ha. destruct (decide (k = a)); [by apply lor_one_range|done].
  - intros k' Hk'. apply Hk. by right.
Qed.

Lemma activate_out t sites x : (forall k, k ∈ keys sites -> x < k \/ k + 8 <= x) ->
  activate_all t sites x = t x.
Proof.
  revert t. unfold activate_all. induction sites as [|[k u] l IH]; intros t Hk; [done|]. cbn [foldl].
  rewrite IH by (intros k' Hk'; apply Hk; by right). unfold activate, set_valid. cbn [fst].
  destruct (_ =? 0); [|done]. apply write_le_out. apply (Hk k). left.
Qed.
