(* ===== verification/PatchFacts.v ===== *)
(** * Online patching keeps the policy

    Patching only sets the valid bit of targets, so that a branch never
    reaches more than the graphs allow, and never less than before. *)

From S2P Require Import Prelude Dict Graph GraphFacts Module Table Cfg McfiId McfiNumbers McfiFacts Runtime Threads GenCfg CfgTables Policy Patch.

(** ** Places that patching writes *)

(** The word at [a] is a site or overlaps none. *)
Definition on_site (sites : list site) (a : Z) : Prop :=
  forall w, w ∈ sites -> a = addr w \/ apart (addr w) 8 a 8.

(** [a] is in some entry of the graph. *)
Definition listed (g : graph) (a : Z) : Prop := exists n adj, (n, adj) ∈ g /\ a ∈ keys adj.

(** What may be activated in a state: registered functions and methods,
    return addresses, and landing pads, which are single bytes elsewhere. *)
Record patch_apart (sites : list site) (rt : runtime) : Prop := {
  apart_fic : forall a, listed (rt_fats_in_code rt) a -> on_site sites a;
  apart_vmtd : forall a, listed (rt_vmtd rt) a -> on_site sites a;
  apart_ra : forall m k, m ∈ modules rt -> k ∈ keys (ra_orig m) -> on_site sites (u64 (base_addr m + k));
  apart_lp : forall m k w, m ∈ modules rt -> listed (flp m) k -> w ∈ sites ->
    u64 (base_addr m + k) < addr w \/ addr w + 8 <= u64 (base_addr m + k);
}.

(** The patching calls. *)
Inductive patch_step (rt rt' : runtime) : Prop :=
  | step_at pp : patch_at pp rt = Ok rt' -> patch_step rt rt'
  | step_entry pp : patch_entry pp rt = Ok rt' -> patch_step rt rt'
  | step_call pp : patch_call pp rt = Ok rt' -> patch_step rt rt'.

(** ** Words of the sites *)
Definition same_or_valid (x y : Z) : Prop := y = x \/ y = Z.lor x 1.

Lemma same_or_valid_trans x y z : same_or_valid x y -> same_or_valid y z -> same_or_valid x z.
Proof.
  unfold same_or_valid. intros [->| ->] [->| ->]; auto. right. by rewrite <- Z.lor_assoc.
Qed.

Lemma same_or_valid_range x y : 0 <= x < 2 ^ 64 -> same_or_valid x y -> 0 <= y < 2 ^ 64.
Proof. intros Hx [->| ->]; [done|by apply lor_one_range]. Qed.

Lemma activate_all_site sites t adj w : w ∈ sites -> 0 <= read64 t (addr w) < 2 ^ 64 ->
  (forall a, a ∈ keys adj -> on_site sites a) ->
  same_or_valid (read64 t (addr w)) (read64 (activate_all t adj) (addr w)).
Proof.
  intros Hw Hr Ha. rewrite activate_all_read; [|done|intros k Hk; by apply Ha].
  destruct (decide _); [by right|by left].
Qed.

Lemma activate_methods_site sites vmtd t methods w : w ∈ sites -> 0 <= read64 t (addr w) < 2 ^ 64 ->
  (forall a, listed vmtd a -> on_site sites a) ->
  same_or_valid (read64 t (addr w)) (read64 (activate_methods vmtd t methods) (addr w)).
Proof.
  intros Hw Hr Ha. revert t Hr. unfold activate_methods.
  induction methods as [|n l IH]; intros t Hr; cbn [foldl]; [by left|].
  destruct (dict_find vmtd n) as [adj|] eqn:Hn; [|by apply IH].
  assert (H1 : same_or_valid (read64 t (addr w)) (read64 (activate_all t adj) (addr w))).
  { apply (activate_all_site sites); [done|done|]. intros a Hk. apply Ha. exists n, adj. split; [by apply dict_find_in|done]. }
  eapply same_or_valid_trans; [exact H1|]. apply IH. by eapply same_or_valid_range.
Qed.

Lemma write_pads_site (pads : dict unit) t (base : Z) w :
  (forall k, k ∈ keys pads -> u64 (base + k) < addr w \/ addr w + 8 <= u64 (base + k)) ->
  read64 (foldl (fun t (v : Z * unit) => write8 t (u64 (base + v.1)) LPV) t pads) (addr w) = read64 t (addr w).
Proof.
  revert t. induction pads as [|[k u] l IH]; intros t Hk; [done|]. cbn [foldl].
  rewrite IH by (intros k' Hk'; apply Hk; by right). apply read_le_ext. intros x Hx. cbn [fst].
  unfold write8. destruct (Hk k ltac:(left)); rewrite (proj2 (Z.eqb_neq x _)); (done || lia).
Qed.

Lemma set_valid_site sites t a w : w ∈ sites -> 0 <= read64 t (addr w) < 2 ^ 64 -> on_site sites a ->
  same_or_valid (read64 t (addr w)) (read64 (set_valid t a) (addr w)).
Proof.
  intros Hw Hr Ha. unfold set_valid. destruct (Ha w Hw) as [->|Hap].
  - right. rewrite read64_same; [done|]. by apply lor_one_range.
  - left. by apply read64_apart.
Qed.

(** ** Graphs that lose a vertex *)
Lemma dict_del_sub {V} (d : dict V) k x : x ∈ dict_del d k -> x ∈ d.
Proof.
  induction d as [|[k' v] d IH]; cbn; [done|]. destruct (k' =? k); [by right|].
  intros [->|Hx]%elem_of_cons; [left|right; by apply IH].
Qed.

Lemma listed_del g v a : listed (g_del_vertex g v) a -> listed g a.
Proof.
  unfold g_del_vertex. destruct (dict_find g v); [|done]. intros (n & adj & Hn & Ha).
  exists n, adj. split; [by eapply dict_del_sub|done].
Qed.

(** ** One step *)
Lemma patch_at_site sites pp rt rt' : patch_apart sites rt -> patch_at pp rt = Ok rt' ->
  patch_apart sites rt' /\ forall w, w ∈ sites -> 0 <= read64 (table rt) (addr w) < 2 ^ 64 ->
    same_or_valid (read64 (table rt) (addr w)) (read64 (table rt') (addr w)).
Proof.
  intros [Hf Hv Hra Hlp]. unfold patch_at. destruct (find_module pp (modules rt)) as [[i m]|]; [|done].
  intros (_ & _ & H)%bind_Ok_inv. cbv zeta in H.
  destruct (dict_find (at_func m) _) as [name|]; [|done].
  destruct (dict_find (rt_fats_in_code rt) name) as [adj|] eqn:Hn; cbv beta in H.
  - apply bind_Ok_inv in H as (rt1 & H1 & [= <-]). apply bind_Ok_inv in H1 as (_ & _ & [= <-]).
    split.
    + constructor; [|done..]. intros a Ha. apply Hf. by eapply listed_del.
    + intros w Hw Hr. apply (activate_all_site sites _ _ _ Hw Hr). intros a Ha. apply Hf.
      exists name, adj. split; [by apply dict_find_in|done].
  - rewrite bind_Ok in H. injection H as <-. split; [done|]. intros. by left.
Qed.

Lemma patch_call_site sites pp rt rt' : patch_apart sites rt -> patch_call pp rt = Ok rt' ->
  patch_apart sites rt' /\ forall w, w ∈ sites -> 0 <= read64 (table rt) (addr w) < 2 ^ 64 ->
    same_or_valid (read64 (table rt) (addr w)) (read64 (table rt') (addr w)).
Proof.
  intros [Hf Hv Hra Hlp]. unfold patch_call. destruct (find_module pp (modules rt)) as [[i m]|] eqn:Hm; [|done].
  apply find_module_Some in Hm as [Hm _]. apply list_elem_of_lookup_2 in Hm.
  intros (_ & _ & H)%bind_Ok_inv. destruct (dict_in (patched_ra rt) pp).
  { injection H as <-. split; [done|]. intros. by left. }
  cbv zeta in H. destruct (dict_find (ra_orig m) _) as [orig|] eqn:Ho; [|done].
  apply bind_Ok_inv in H as (rt1 & H1 & [= <-]).
  change (rt_cfggened (rt {{ patched_ra := _ }})) with (rt_cfggened rt) in H1.
  destruct (rt_cfggened rt).
  - injection H1 as <-. split; [done|]. intros w Hw Hr. apply (set_valid_site sites _ _ _ Hw Hr).
    apply Hra; [done|]. apply dict_in_keys. unfold dict_in. by rewrite Ho.
  - apply bind_Ok_inv in H1 as (pc & _ & [= <-]). split; [done|]. intros. by left.
Qed.

Lemma patch_entry_site sites pp rt rt' : patch_apart sites rt -> patch_entry pp rt = Ok rt' ->
  patch_apart sites rt' /\ forall w, w ∈ sites -> 0 <= read64 (table rt) (addr w) < 2 ^ 64 ->
    same_or_valid (read64 (table rt) (addr w)) (read64 (table rt') (addr w)).
Proof.
  intros [Hf Hv Hra Hlp]. unfold patch_entry. destruct (find_module pp (modules rt)) as [[i m]|] eqn:Hm; [|done].
  apply find_module_Some in Hm as [Hm _]. pose proof (list_elem_of_lookup_2 _ _ _ Hm) as Hmin.
  intros (_ & _ & H)%bind_Ok_inv. apply bind_Ok_inv in H as (_ & _ & H). cbv zeta in H.
  destruct (match dict_find (ctor m) _ with Some _ => _ | None => _ end) as [t1 vt] eqn:Hc.
  destruct (match dict_find (flp m) _ with Some _ => _ | None => _ end) as [t2 lps] eqn:Hl.
  destruct (dict_find (func_orig m) _) as [orig|]; [|done]. injection H as <-.
  assert (Hlps : forall a, listed lps a -> listed (flp m) a).
  { destruct (dict_find (flp m) _); injection Hl as <- <-; [apply listed_del|done]. }
  split.
  - constructor; [done..| |].
    + intros m' k Hin Hk. apply list_elem_of_lookup in Hin as (j & Hj). cbn in Hj.
      apply list_lookup_insert_Some in Hj as [(-> & <- & _)|(_ & Hj)].
      * by apply (Hra m).
      * apply (Hra m'); [by eapply list_elem_of_lookup_2|done].
    + intros m' k w Hin Hk Hw. apply list_elem_of_lookup in Hin as (j & Hj). cbn in Hj.
      apply list_lookup_insert_Some in Hj as [(-> & <- & _)|(_ & Hj)].
      * apply (Hlp m); [done| |done]. by apply Hlps.
      * apply (Hlp m'); [by eapply list_elem_of_lookup_2|done..].
  - intros w Hw Hr.
    assert (H1 : same_or_valid (read64 (table rt) (addr w)) (read64 t1 (addr w))).
    { destruct (dict_find (ctor m) _) as [cn|]; [|injection Hc as <- <-; by left].
      destruct (dict_find (vtable m) cn) as [ms|]; [|injection Hc as <- <-; by left].
      injection Hc as <- <-. by apply (activate_methods_site sites). }
    destruct (dict_find (flp m) _) as [pads|] eqn:Hp; injection Hl as <- <-; [|exact H1].
    unfold set_module, constant. cbn [table]. rewrite write_pads_site; [exact H1|]. intros k Hk. apply (Hlp m); [done| |done].
    eexists _, pads. split; [by apply dict_find_in|done].
Qed.

Lemma patch_step_site sites rt rt' : patch_apart sites rt -> patch_step rt rt' ->
  patch_apart sites rt' /\ forall w, w ∈ sites -> 0 <= read64 (table rt) (addr w) < 2 ^ 64 ->
    same_or_valid (read64 (table rt) (addr w)) (read64 (table rt') (addr w)).
Proof.
  intros Ha [pp H|pp H|pp H]; [by eapply patch_at_site|by eapply patch_entry_site|by eapply patch_call_site].
Qed.

Lemma patch_steps_site sites rt rt' : patch_apart sites rt -> rtc patch_step rt rt' ->
  forall w, w ∈ sites -> 0 <= read64 (table rt) (addr w) < 2 ^ 64 ->
    same_or_valid (read64 (table rt) (addr w)) (read64 (table rt') (addr w)).
Proof.
  intros Ha H. induction H as [rt|rt rt1 rt2 Hs _ IH]; intros w Hw Hr; [by left|].
  destruct (patch_step_site sites rt rt1 Ha Hs) as [Ha1 H1]. specialize (H1 w Hw Hr).
  eapply same_or_valid_trans; [exact H1|]. apply IH; [done|done|]. by eapply same_or_valid_range.
Qed.

(** ** The policy while patching *)
Section patching.
Variable new_function : nat -> Z.
Variable attrs0 : Z.

(** C10.  Patching keeps the policy.  After [gen_cfg] and any number of calls of
    [patch_at], [patch_entry] and [patch_call], a branch still reaches only
    targets that the graphs connect with it, and every target it could reach
    before. *)
Theorem patching_keeps_policy seen rt rt1 rt2 r :
  cfg_ready rt -> gen_graphs new_function attrs0 (modules rt) (vtabletaken rt) = Ok r ->
  Z.of_nat (length (r_callgraph r)) + Z.of_nat (length (r_retgraph r)) < SPACE ->
  gen_cfg new_function attrs0 seen rt = Ok rt1 ->
  patch_apart (all_sites (modules rt)) rt1 -> rtc patch_step rt1 rt2 ->
  forall m b m' w, m ∈ modules rt -> b ∈ icfsyms m -> m' ∈ modules rt -> w ∈ tary_sites m' -> has_id r w ->
    (check_passes (table rt2) b w = true -> may_reach r b w) /\
    (check_passes (table rt1) b w = true -> check_passes (table rt2) b w = true).
Proof.
  intros Hready Hr Hspace Hrun Hap Hsteps m b m' w Hm Hb Hm' Hw Hhas.
  destruct (policy_words _ _ seen rt rt1 r m b m' w Hready Hr Hspace Hrun Hm Hb Hm' Hw Hhas)
    as (bid & id & Hbr & Hbo & Hir & Hio & Hbw & Hwd & Hiff).
  pose proof (patch_steps_site _ _ _ Hap Hsteps) as Hs.
  assert (Hb2 : read64 (table rt2) (s_offset b) = bid).
  { destruct (Hs (BranchSite b)) as [Heq|Heq]; cbn [addr] in *; [..|by rewrite Heq|].
    - apply (in_all_sites m); [done|]. apply elem_of_app. right. by apply list_elem_of_fmap_2.
    - by rewrite Hbw.
    - by rewrite Heq, Hbw, lor_one_odd. }
  assert (Hw2 : same_or_valid (read64 (table rt1) (addr w)) (read64 (table rt2) (addr w))).
  { apply Hs.
    - apply (in_all_sites m'); [done|]. apply elem_of_app. by left.
    - rewrite Hwd. destruct (target_active rt r w); [done|]. by apply odd_masked. }
  unfold check_passes. rewrite !Z.eqb_eq, Hb2, Hbw, <- Hiff. rewrite Hwd in *.
  destruct (target_active rt r w).
  - destruct Hw2 as [->| ->]; [done|]. by rewrite lor_one_odd.
  - split; [|intros Heq; exfalso; by eapply (masked_ne bid id)].
    destruct Hw2 as [->| ->]; [intros Heq; exfalso; by eapply (masked_ne bid id)|].
    by rewrite lor_one_masked.
Qed.
End patching.

(** ** What each call does *)

(** [patch_at], when it succeeds, activates every target registered for
    the function whose address is taken, exactly these, forgets them, and
    overwrites five bytes of code with a no-op, the three before staying as
    they were. *)
Theorem patch_at_correct pp rt rt' i m name adj :
  find_module pp (modules rt) = Some (i, m) -> dict_find (at_func m) (u64 (pp - base_addr m)) = Some name ->
  wf_dict (rt_fats_in_code rt) -> dict_find (rt_fats_in_code rt) name = Some adj ->
  mem_ok (table rt) -> mem_ok (osb rt) ->
  (forall a b, a ∈ keys adj -> b ∈ keys adj -> b = a \/ apart a 8 b 8) ->
  patch_at pp rt = Ok rt' ->
  (forall a, a ∈ keys adj -> read64 (table rt') a = Z.lor (read64 (table rt) a) 1) /\
  (forall x, (forall a, a ∈ keys adj -> x < a \/ a + 8 <= x) -> table rt' x = table rt x) /\
  (forall n, dict_find (rt_fats_in_code rt') n = if name =? n then None else dict_find (rt_fats_in_code rt) n) /\
  let p := u64 (osb_base_addr m + u64 (pp - base_addr m) - 8) in
  (forall k, 0 <= k < 3 -> osb rt' (p + k) = osb rt (p + k)) /\
  (osb rt' (p + 3), osb rt' (p + 4), osb rt' (p + 5), osb rt' (p + 6), osb rt' (p + 7))
    = (0x0f, 0x1f, 0x44, 0, 0) /\
  (forall x, x < p \/ p + 8 <= x -> osb rt' x = osb rt x).
Proof.
  intros Hm Hat Hwf Hfic Hmt Hmo Hap Hrun. unfold patch_at in Hrun. rewrite Hm in Hrun.
  apply bind_Ok_inv in Hrun as (_ & _ & Hrun). cbv zeta in Hrun. rewrite Hat, Hfic in Hrun.
  apply bind_Ok_inv in Hrun as (rt1 & H1 & [= Hrt']). apply bind_Ok_inv in H1 as (_ & _ & [= <-]).
  cbv zeta. set (p := u64 (osb_base_addr m + _ - 8)) in *.
  set (patch := [osb rt p; osb rt (p + 1); osb rt (p + 2)] ++ fivebytenop).
  assert (Ho : osb rt' = write64 (osb rt) p (le_word patch)) by (rewrite <- Hrt'; reflexivity).
  assert (Ht : table rt' = activate_all (table rt) adj) by (rewrite <- Hrt'; reflexivity).
  assert (Hf : rt_fats_in_code rt' = g_del_vertex (rt_fats_in_code rt) name) by (rewrite <- Hrt'; reflexivity).
  rewrite Ho, Ht, Hf. clear Hrt' Ho Ht Hf.
  assert (Hget : forall k b, patch !! k = Some b ->
    write64 (osb rt) p (le_word patch) (p + Z.of_nat k) = b).
  { intros k b Hk. apply (write_le_bytes patch); [|done]. intros b' Hb.
    repeat (apply elem_of_cons in Hb as [->|Hb]); [apply Hmo..|lia|lia|lia|lia|lia|].
    by apply not_elem_of_nil in Hb. }
  split; [|split; [|split; [|split; [|split]]]].
  - intros a Ha. rewrite activate_all_read; [by rewrite decide_True|by apply read64_range|].
    intros k Hk. by apply Hap.
  - intros x Hx. apply activate_out. intros k Hk. by apply Hx.
  - intros n. unfold g_del_vertex. rewrite Hfic. by apply dict_find_del.
  - intros k Hk. assert (Hcase : k = 0 \/ k = 1 \/ k = 2) by lia.
    destruct Hcase as [->|[->| ->]];
      [|by apply (Hget 1%nat)|by apply (Hget 2%nat)].
    rewrite (Z.add_0_r p) at 2. by apply (Hget 0%nat).
  - repeat f_equal; [by apply (Hget 3%nat)|by apply (Hget 4%nat)|by apply (Hget 5%nat)
      |by apply (Hget 6%nat)|by apply (Hget 7%nat)].
  - intros x Hx. by apply write_le_out.
Qed.

(** The first [patch_call] at a call site restores the eight bytes of code
    before the return address, and activates the return address, at once if
    there is a graph and at the next [gen_cfg] otherwise; a second call at
    the same site changes nothing. *)
Theorem patch_call_correct pp rt rt' i m :
  find_module pp (modules rt) = Some (i, m) -> dict_in (patched_ra rt) pp = false ->
  mem_ok (table rt) -> (forall k orig, dict_find (ra_orig m) k = Some orig -> 0 <= orig < 2 ^ 64) ->
  patch_call pp rt = Ok rt' ->
  let key := u64 (u64 (u64 (pp + 7) / 8 * 8) - base_addr m) in
  let a := u64 (base_addr m + key) in
  (exists orig, dict_find (ra_orig m) key = Some orig /\
     read64 (osb rt') (u64 (osb_base_addr m + key - 8)) = orig) /\
  (if rt_cfggened rt then read64 (table rt') a = Z.lor (read64 (table rt) a) 1
   else table rt' = table rt /\ a ∈ keys (patch_compensate rt')) /\
  patch_call pp rt' = Ok rt'.
Proof.
  intros Hm Hnew Hmt Horig Hrun key a. unfold patch_call in Hrun. rewrite Hm in Hrun.
  apply bind_Ok_inv in Hrun as ([] & Hck & Hrun). rewrite Hnew in Hrun. cbv zeta in Hrun. fold key in Hrun.
  destruct (dict_find (ra_orig m) key) as [orig|] eqn:Ho; [|done].
  apply bind_Ok_inv in Hrun as (rt1 & H1 & [= Hrt']).
  assert (Hagain : modules rt' = modules rt -> patched_ra rt' = dict_put (patched_ra rt) pp tt ->
    patch_call pp rt' = Ok rt').
  { intros E1 E2. unfold patch_call. rewrite E1, Hm, Hck, bind_Ok, E2.
    unfold dict_in. rewrite dict_find_put, Z.eqb_refl. by destruct (dict_find (patched_ra rt) pp). }
  assert (Hosb : read64 (osb rt') (u64 (osb_base_addr m + key - 8)) = orig).
  { rewrite <- Hrt'. apply read64_same. by eapply Horig. }
  change (rt_cfggened (rt {{ patched_ra := _ }})) with (rt_cfggened rt) in H1.
  split; [by exists orig|]. destruct (rt_cfggened rt).
  - injection H1 as <-. split; [|apply Hagain; by rewrite <- Hrt'].
    rewrite <- Hrt'. apply read64_same. by apply lor_one_range, read64_range.
  - apply bind_Ok_inv in H1 as (pc & Hpc & [= <-]). apply dict_add_Ok in Hpc as [_ Hpc].
    split; [|apply Hagain; by rewrite <- Hrt']. rewrite <- Hrt'. split; [done|].
    change (a ∈ keys pc). rewrite Hpc, keys_put. apply elem_of_app. right. by left.
Qed.

(** ** The small program, patched

    The second function's address is taken at 0x400088. *)
Definition patched_module : code_module :=
  sample_module {{ at_func := [(0x88, 0x20)] }} {{ osb_base_addr := 0x70000000 }} {{ ra_orig := [(0x80, 0x90)] }}.
Definition patched_state : runtime := sample_runtime {{ modules := [patched_module] }}.
Definition sample_cfg : res runtime := gen_cfg sample_addr 0 sample_seen patched_state.

Lemma patched_ready : cfg_ready patched_state.
Proof.
  constructor; [reflexivity| |cbn; lia| |].
  - intros m Hm. apply list_elem_of_singleton in Hm as ->. reflexivity.
  - intros w w' Hw Hw'. cbn in Hw, Hw'. unfold apart.
    repeat (apply elem_of_cons in Hw as [->|Hw]); [..|by apply not_elem_of_nil in Hw];
      (repeat (apply elem_of_cons in Hw' as [->|Hw']); [..|by apply not_elem_of_nil in Hw']);
      first [left; reflexivity|right; left; vm_compute; discriminate|right; right; vm_compute; discriminate].
  - intros k w Hk. by apply not_elem_of_nil in Hk.
Qed.

(** What [sample_cfg] leaves to patching. *)
Lemma sample_cfg_graphs : exists rt, sample_cfg = Ok rt /\
  rt_fats_in_code rt = [(0x20, [(0x400040, tt)])] /\ rt_vmtd rt = [] /\
  modules rt = [patched_module {{ cfggened := true }}].
Proof.
  assert (H : match sample_cfg with
    | Ok rt => (rt_fats_in_code rt, rt_vmtd rt, modules rt)
    | _ => ([], [], [])
    end = ([(0x20, [(0x400040, tt)])], [], [patched_module {{ cfggened := true }}])) by (vm_compute; reflexivity).
  destruct sample_cfg as [rt| | |]; [|discriminate..]. injection H as H1 H2 H3. by exists rt.
Qed.

Lemma sample_patch_apart rt : rt_fats_in_code rt = [(0x20, [(0x400040, tt)])] -> rt_vmtd rt = [] ->
  modules rt = [patched_module {{ cfggened := true }}] -> patch_apart (all_sites (modules patched_state)) rt.
Proof.
  intros H1 H2 H3.
  assert (Hon : forall a, a = 0x400040 \/ a = 0x400080 -> on_site (all_sites (modules patched_state)) a).
  { intros a Ha w Hw. cbn in Hw. unfold apart.
    repeat (apply elem_of_cons in Hw as [->|Hw]); [..|by apply not_elem_of_nil in Hw];
      destruct Ha as [->| ->];
      first [left; reflexivity|right; left; vm_compute; discriminate|right; right; vm_compute; discriminate]. }
  constructor.
  - rewrite H1. intros a (n & adj & Hn & Ha). apply list_elem_of_singleton in Hn as [= -> ->].
    apply Hon. left. by apply list_elem_of_singleton in Ha.
  - rewrite H2. intros a (n & adj & Hn & _). by apply not_elem_of_nil in Hn.
  - rewrite H3. intros m k Hm Hk. apply list_elem_of_singleton in Hm as ->.
    apply list_elem_of_singleton in Hk as ->. apply Hon. by right.
  - rewrite H3. intros m k w Hm (n & adj & Hn & _). apply list_elem_of_singleton in Hm as ->.
    by apply not_elem_of_nil in Hn.
Qed.

(** After [patch_at], the call still reaches the first function. *)
Lemma patching_witness : exists rt1 rt2, sample_cfg = Ok rt1 /\ patch_at 0x400088 rt1 = Ok rt2 /\
  check_passes (table rt2) (mkSymbol 0x40 0x11000) (FuncSite patched_module (mkSymbol 0x10 0)) = true.
Proof.
  destruct sample_cfg_graphs as (rt1 & Hrun & Hfic & Hvm & Hms).
  assert (Hok : match patch_at 0x400088 rt1 with Ok _ => true | _ => false end = true).
  { assert (H : match sample_cfg with
      | Ok rt => match patch_at 0x400088 rt with Ok _ => true | _ => false end
      | _ => false
      end = true) by (vm_compute; reflexivity). rewrite Hrun in H. exact H. }
  destruct (patch_at 0x400088 rt1) as [rt2| | |] eqn:Hpatch; [|discriminate..].
  exists rt1, rt2. split; [exact Hrun|]. split; [exact Hpatch|].
  destruct (gen_graphs sample_addr 0 (modules patched_state) (vtabletaken patched_state)) as [r| | |] eqn:Hr;
    [|vm_compute in Hr; discriminate..].
  assert (Hspace : Z.of_nat (length (r_callgraph r)) + Z.of_nat (length (r_retgraph r)) < SPACE)
    by (vm_compute in Hr; injection Hr as <-; cbn; unfold SPACE; lia).
  destruct (patching_keeps_policy sample_addr 0 sample_seen patched_state rt1 rt2 r patched_ready Hr Hspace Hrun
    (sample_patch_apart rt1 Hfic Hvm Hms) (rtc_once _ _ (step_at _ _ _ Hpatch))
    patched_module (mkSymbol 0x40 0x11000) patched_module (FuncSite patched_module (mkSymbol 0x10 0)))
    as [_ Hkeep]; [left|left|left|left|vm_compute in Hr; injection Hr as <-; right; left|].
  apply Hkeep.
  assert (H : match sample_cfg with
    | Ok rt => check_passes (table rt) (mkSymbol 0x40 0x11000) (FuncSite patched_module (mkSymbol 0x10 0))
    | _ => false
    end = true) by (vm_compute; reflexivity).
  rewrite Hrun in H. exact H.
Defined.

(** A state with one registered target. *)
Definition at_state : runtime :=
  patched_state {{ rt_fats_in_code := [(0x20, [(0x400040, tt)])] }} {{ rt_cfggened := true }}.

Lemma patch_at_witness : exists rt', patch_at 0x400088 at_state = Ok rt' /\
  read64 (table rt') 0x400040 = 1.
Proof.
  destruct (patch_at 0x400088 at_state) as [rt'| | |] eqn:Hrun; [|vm_compute in Hrun; discriminate..].
  exists rt'. split; [reflexivity|].
  destruct (patch_at_correct 0x400088 at_state rt' 0 patched_module 0x20 [(0x400040, tt)])
    as (H & _); [reflexivity|reflexivity| |reflexivity|intros a; cbn; lia|intros a; cbn; lia| |exact Hrun|].
  - apply (bool_decide_unpack _). reflexivity.
  - intros a b Ha Hb. apply list_elem_of_singleton in Ha as ->. apply list_elem_of_singleton in Hb as ->.
    left. reflexivity.
  - apply (H 0x400040). left.
Defined.

Lemma patch_call_witness : exists rt', patch_call 0x40007d patched_state = Ok rt' /\
  read64 (osb rt') 0x70000078 = 0x90 /\ 0x400080 ∈ keys (patch_compensate rt') /\
  patch_call 0x40007d rt' = Ok rt'.
Proof.
  destruct (patch_call 0x40007d patched_state) as [rt'| | |] eqn:Hrun; [|vm_compute in Hrun; discriminate..].
  exists rt'. split; [reflexivity|].
  destruct (patch_call_correct 0x40007d patched_state rt' 0 patched_module)
    as ((orig & Ho & Hread) & Hact & Hagain);
    [reflexivity|reflexivity|intros a; cbn; lia| |exact Hrun|].
  - intros k orig Hk. apply dict_find_in, list_elem_of_singleton in Hk. injection Hk as _ ->. lia.
  - injection Ho as <-. split; [exact Hread|]. split; [exact (proj2 Hact)|exact Hagain].
Defined.
