(* ===== verification/MemCalls.v ===== *)
(** * Memory calls of the sandbox ([runtime.c], [rock_mmap] to [rock_brk])

    What the sandboxed program may map, protect and unmap.  The system calls
    are parameters: [mmap], [mprotect], [munmap] and [sys_brk] are what the
    kernel answers.  Pointers are 64-bit words; [-EINVAL] and [-ENOMEM] are
    words too. *)

From S2P Require Import Prelude Utils Pager Table Module CodeBitmap Runtime.

Definition EINVAL : Z := 22.
Definition ENOMEM : Z := 12.
Definition PROT_READ : Z := 1.
Definition PROT_WRITE : Z := 2.
Definition PROT_EXEC : Z := 4.
Definition MAP_PRIVATE : Z := 0x02.
Definition MAP_FIXED : Z := 0x10.
Definition MAP_ANONYMOUS : Z := 0x20.
Definition BRK_LEAP : Z := 0x800000.

(** [flags & f] as a condition. *)
Definition has (flags f : Z) : bool := negb (Z.land flags f =? 0).

Definition range_overlap (r1 len1 r2 len2 : Z) : bool :=
  if r1 =? r2 then true
  else if (r1 <? r2) && (r2 <? u64 (r1 + len1)) then true
  else if (r2 <? r1) && (r1 <? u64 (r2 + len2)) then true
  else false.

(** A writable range over the text or the [.got.plt] of a module. *)
Definition insecure_overlap_rdonly (ms : list code_module) (start len prot : Z) : bool :=
  if has prot PROT_WRITE then
    existsb (fun m => negb (code_heap m) &&
      (range_overlap start len (base_addr m) (sz m) || range_overlap start len (gotplt m) (gotpltsz m))) ms
  else false.

Fixpoint in_code_heap (ms : list code_module) (start len : Z) : option code_module :=
  match ms with
  | [] => None
  | m :: ms' =>
    if code_heap m && (base_addr m <=? start) && (u64 (start + len) <=? u64 (base_addr m + sz m)) then Some m
    else in_code_heap ms' start len
  end.

Section calls.
Context `{Q : Qsort} (mem : bool).
Variable mmap : Z -> Z -> Z -> Z -> Z -> Z -> Z.
Variable mprotect : Z -> Z -> Z -> Z.
Variable munmap : Z -> Z -> Z.
Variable sys_brk : Z -> Z.

(** The page a mapping that is not in a code heap goes to; 0 is none. *)
Definition mmap_page (start len flags pages : Z) (VM : Vmmap) : res (Vmmap * option Z) :=
  if negb (has flags MAP_FIXED) then
    '(VM, page) ← (if (FourGB <? start) || (start =? 0) then VmmapFindSpace VM pages
                   else VmmapFindMapSpaceAboveHint VM start pages);
    Ok (VM, if page =? 0 then None else Some page)
  else
    let page := 0 in
    if (FourGB <? len) || (FourGB <? u64 (page + len)) then Ok (VM, None)
    else Ok (VM, Some (Z.shiftr start PAGESHIFT)).

Definition rock_mmap (start len prot flags fd off : Z) (rt : runtime) : res (runtime * Z) :=
  let pages := Z.shiftr (RoundToPage len) PAGESHIFT in
  if negb (Z.land start 4095 =? 0) then Ok (rt, u64 (- EINVAL))
  else if (FourGB <? start) && has flags MAP_FIXED then Ok (rt, u64 (- ENOMEM))
  else if FourGB <? len then Ok (rt, u64 (- ENOMEM))
  else
    match (if negb (start =? 0) && has flags MAP_FIXED then in_code_heap (modules rt) start len else None) with
    | Some m =>
      if has prot PROT_WRITE && has prot PROT_EXEC then Exit
      else
        area ← which_area (code_data_bitmap m) (u64 (start - base_addr m)) len;
        if negb (ROCK_DATA =? area) then Exit
        else Ok (rt, if mprotect start len prot =? 0 then start else u64 (- ENOMEM))
    | None =>
      if has prot PROT_EXEC then Exit
      else
        '(vm, page) ← mmap_page start len flags pages (VM rt);
        let rt := rt {{ VM := vm }} in
        match page with
        | None => Ok (rt, u64 (- ENOMEM))
        | Some page =>
          let addr := u64 (Z.shiftl page PAGESHIFT) in
          if insecure_overlap_rdonly (modules rt) addr len prot then Exit
          else
            let result := mmap addr len prot (Z.lor flags MAP_FIXED) fd off in
            if result =? addr then
              vm ← VmmapAddWithOverwrite mem (VM rt) page pages prot prot VMMAP_ENTRY_ANONYMOUS;
              Ok (rt {{ VM := vm }}, result)
            else Ok (rt, result)
        end
    end.

Definition rock_mprotect (addr len prot : Z) (rt : runtime) : res Z :=
  if (FourGB <? addr) || (FourGB <? len) || has prot PROT_EXEC then Exit
  else if insecure_overlap_rdonly (modules rt) addr len prot then Exit
  else Ok (mprotect addr len prot).

Definition rock_munmap (start len : Z) (rt : runtime) : res (runtime * Z) :=
  if (FourGB <? start) || (FourGB <? len) || (FourGB <? u64 (start + len)) then Exit
  else
    let rv := munmap start len in
    if rv =? 0 then
      vm ← VmmapRemove mem (VM rt) (Z.shiftr (RoundToPage start) PAGESHIFT)
             (Z.shiftr (RoundToPage len) PAGESHIFT) VMMAP_ENTRY_ANONYMOUS;
      Ok (rt {{ VM := vm }}, rv)
    else Ok (rt, rv).

Definition rock_mremap (old_addr old_len new_len : Z) (rt : runtime) : res (runtime * Z) :=
  '(rt, ptr) ← rock_mmap 0 new_len (Z.lor PROT_READ PROT_WRITE) (Z.lor MAP_ANONYMOUS MAP_PRIVATE) (-1) 0 rt;
  if 0 <? s64 ptr then
    let rt := rt {{ osb := mem_copy (osb rt) ptr (osb rt) old_addr (if new_len <? old_len then new_len else old_len) }} in
    '(rt, _) ← rock_munmap old_addr old_len rt;
    Ok (rt, ptr)
  else Ok (rt, ptr).

(** The first call asks the kernel for the break. *)
Definition init_brk (rt : runtime) : res runtime :=
  if prog_brk rt =? 0 then
    let b := sys_brk 0 in
    if FourGB <=? b then Exit
    else
      vm ← VmmapAdd mem (VM rt) (Z.shiftr (RoundToPage b) PAGESHIFT) (Z.shiftr BRK_LEAP PAGESHIFT)
             (Z.lor PROT_READ PROT_WRITE) (Z.lor PROT_READ PROT_WRITE) VMMAP_ENTRY_ANONYMOUS;
      Ok (rt {{ prog_brk := b }} {{ max_brk := u64 (RoundToPage b + BRK_LEAP) }} {{ VM := vm }})
  else Ok rt.

Definition rock_brk (newbrk : Z) (rt : runtime) : res (runtime * Z) :=
  rt ← init_brk rt;
  if FourGB <=? newbrk then Exit
  else
    let b := sys_brk newbrk in
    let rt := rt {{ prog_brk := b }} in
    if max_brk rt <? b then
      let old_max_brk := max_brk rt in
      let new_max := u64 (RoundToPage b + BRK_LEAP) in
      vm ← VmmapAdd mem (VM rt) (Z.shiftr (CurPage old_max_brk) PAGESHIFT)
             (Z.shiftr (u64 (new_max - old_max_brk)) PAGESHIFT)
             (Z.lor PROT_READ PROT_WRITE) (Z.lor PROT_READ PROT_WRITE) VMMAP_ENTRY_ANONYMOUS;
      Ok (rt {{ max_brk := new_max }} {{ VM := vm }}, b)
    else if BRK_LEAP <=? u64 (CurPage (max_brk rt) - RoundToPage b) then
      vm ← VmmapRemove mem (VM rt) (Z.shiftr (RoundToPage b) PAGESHIFT)
             (Z.shiftr (u64 (CurPage (max_brk rt) - RoundToPage b)) PAGESHIFT) VMMAP_ENTRY_ANONYMOUS;
      Ok (rt {{ VM := vm }}, b)
    else Ok (rt, b).
End calls.
