(* ===== verification/MemFacts.v ===== *)
(** * The sandbox stays inside its memory

    What the memory calls do to the page table of the sandbox, and where
    they fail to do it. *)

From S2P Require Import Prelude Utils Smoothsort SmoothsortSpec Pager PagerFacts PagerSpec Table Module CodeBitmap Runtime Threads MemCalls.

(** ** Ranges *)
Lemma range_overlap_disjoint r1 len1 r2 len2 x :
  0 <= r1 -> 0 <= r2 -> r1 + len1 < 2 ^ 64 -> r2 + len2 < 2 ^ 64 -> range_overlap r1 len1 r2 len2 = false ->
  r1 <= x < r1 + len1 -> r2 <= x < r2 + len2 -> False.
Proof.
  intros H1 H2 H3 H4 H Hx1 Hx2. unfold range_overlap in H. rewrite !u64_small in H by lia.
  destruct (Z.eqb_spec r1 r2); [done|]. destruct (Z.ltb_spec r1 r2), (Z.ltb_spec r2 r1); cbn in H; try lia.
  - rewrite (proj2 (Z.ltb_lt r2 _)) in H by lia. done.
  - rewrite (proj2 (Z.ltb_lt r1 _)) in H by lia. done.
Qed.

(** The address ranges of a module do not wrap around. *)
Definition module_ranges (m : code_module) : Prop :=
  0 <= base_addr m /\ 0 <= sz m /\ base_addr m + sz m < 2 ^ 64 /\ 0 <= gotplt m /\ gotplt m + gotpltsz m < 2 ^ 64.

(** No byte of the range is text or [.got.plt] of a module that is not a code heap. *)
Definition spares_modules (ms : list code_module) (a len : Z) : Prop :=
  forall m x, m ∈ ms -> code_heap m = false -> a <= x < a + len ->
    ~ (base_addr m <= x < base_addr m + sz m) /\ ~ (gotplt m <= x < gotplt m + gotpltsz m).

Lemma insecure_overlap_spares ms a len prot : 0 <= a -> a + len < 2 ^ 64 ->
  (forall m, m ∈ ms -> module_ranges m) -> has prot PROT_WRITE = true ->
  insecure_overlap_rdonly ms a len prot = false -> spares_modules ms a len.
Proof.
  intros Ha Hlen Hms Hw H m x Hm Hch Hx. unfold insecure_overlap_rdonly in H. rewrite Hw in H.
  destruct (Hms m Hm) as (?&?&?&?&?).
  assert (Hf : range_overlap a len (base_addr m) (sz m) || range_overlap a len (gotplt m) (gotpltsz m) = false).
  { destruct (range_overlap a len (base_addr m) (sz m) || range_overlap a len (gotplt m) (gotpltsz m)) eqn:E; [|done].
    assert (Ht : existsb (fun m => negb (code_heap m) &&
      (range_overlap a len (base_addr m) (sz m) || range_overlap a len (gotplt m) (gotpltsz m))) ms = true).
    { apply existsb_exists. exists m. split; [by apply list_elem_of_In|]. by rewrite Hch, E. }
    congruence. }
  apply orb_false_iff in Hf as [Hf1 Hf2].
  split; intros Hx2; [by apply (range_overlap_disjoint a len (base_addr m) (sz m) x)
    |by apply (range_overlap_disjoint a len (gotplt m) (gotpltsz m) x)].
Qed.

(** ** The areas of a code heap *)
(** Every byte of the range is code, or none is, by the bitmap. *)
Definition all_bytes (c : bool) (m : code_module) (a n : Z) : Prop :=
  forall x, a <= x < a + n -> is_code (code_data_bitmap m) (x - base_addr m) = c.

Lemma seqZ_forallb f b n i : forallb f (seqZ b n) = true -> b <= i < b + n -> f i = true.
Proof. rewrite forallb_forall. intros H Hi. apply H, list_elem_of_In, elem_of_seqZ. lia. Qed.

Lemma which_area_short m a n r : 0 < n < 128 -> 0 <= a - base_addr m -> a - base_addr m + n < 2 ^ 64 ->
  bytes_ok (code_data_bitmap m) -> a - base_addr m + n <= 8 * Z.of_nat (length (code_data_bitmap m)) ->
  which_area (code_data_bitmap m) (a - base_addr m) n = Ok r ->
  (r = ROCK_DATA -> all_bytes false m a n) /\ (r = ROCK_CODE -> all_bytes true m a n).
Proof.
  intros Hn Ha Hw Hb Hlen. assert (Hf : fits (code_data_bitmap m) (a - base_addr m) n) by (unfold fits; lia).
  rewrite (which_area_correct _ _ _ Hb Hf) by lia. intros [= <-]. unfold area.
  destruct (forallb (is_code _) _) eqn:E1; [split; [done|]|].
  { intros _ x Hx. apply (seqZ_forallb _ _ _ (x - base_addr m) E1). lia. }
  destruct (forallb (fun i => negb _) _) eqn:E2; [split; [|done]|split; done].
  intros _ x Hx. apply negb_true_iff. apply (seqZ_forallb _ _ _ (x - base_addr m) E2). lia.
Qed.

Lemma in_code_heap_spec ms start len m : 0 <= start -> 0 <= len -> start + len < 2 ^ 64 ->
  (forall m, m ∈ ms -> module_ranges m) -> in_code_heap ms start len = Some m ->
  m ∈ ms /\ code_heap m = true /\ base_addr m <= start /\ start + len <= base_addr m + sz m.
Proof.
  intros Hs Hl Hw. induction ms as [|m' ms IH]; intros Hms; cbn [in_code_heap]; [done|].
  destruct (code_heap m') eqn:Ec; cbn [andb].
  - destruct (Z.leb_spec (base_addr m') start); cbn [andb]; [destruct (Z.leb_spec (u64 (start + len)) (u64 (base_addr m' + sz m')))|].
    + intros [= <-]. destruct (Hms m') as (? & ? & ? & _); [by left|]. rewrite !u64_small in * by lia.
      split; [by left|]. done.
    + intros H1. destruct IH as (?&?); [intros; apply Hms; by right|done|]. split; [by right|done].
    + intros H1. destruct IH as (?&?); [intros; apply Hms; by right|done|]. split; [by right|done].
  - intros H1. destruct IH as (?&?); [intros; apply Hms; by right|done|]. split; [by right|done].
Qed.

(** ** Page arithmetic *)
Lemma RoundToPage_pages x : 0 <= x <= 2 ^ 63 ->
  RoundToPage x = (x + 4095) / 4096 * 4096 /\ Z.shiftr (RoundToPage x) PAGESHIFT = (x + 4095) / 4096.
Proof.
  intros Hx. unfold RoundToPage, PAGE_SIZE, PAGESHIFT. rewrite (u64_small (x + 4096 - 1)) by lia.
  replace (x + 4096 - 1) with (x + 4095) by lia.
  assert (H : 0 <= (x + 4095) / 4096 * 4096 < 2 ^ 64) by div_lia.
  rewrite u64_small by done. split; [done|]. rewrite Z.shiftr_div_pow2 by lia. change (2 ^ 12) with 4096.
  by rewrite Z.div_mul by lia.
Qed.

Lemma CurPage_pages x : 0 <= x < 2 ^ 64 -> CurPage x = x / 4096 * 4096.
Proof.
  intros Hx. unfold CurPage, PAGESHIFT. rewrite (u64_small x) by done.
  rewrite Z.shiftr_div_pow2, Z.shiftl_mul_pow2 by lia. change (2 ^ 12) with 4096.
  apply u64_small. div_lia.
Qed.

(** ** Mapping *)
Section mem_facts.
Context `{QS : QsortSpec}.
Variable mmap : Z -> Z -> Z -> Z -> Z -> Z -> Z.
Variable mprotect : Z -> Z -> Z -> Z.

(** The place chosen: free if the caller did not insist. *)
Lemma mmap_page_spec start len flags n vm vm' o : wf_map vm -> 0 <= start < 2 ^ 64 -> 0 < n < 2 ^ 64 ->
  mmap_page start len flags n vm = Ok (vm', o) ->
  wf_map vm' /\ (forall p, page_lookup vm' p = page_lookup vm p) /\
  match o with
  | None => True
  | Some page =>
    if has flags MAP_FIXED then page = Z.shiftr start PAGESHIFT else 0 < page /\ gap vm page n
  end.
Proof using QS.
  intros Hwf Hs Hn. unfold mmap_page. destruct (has flags MAP_FIXED); cbn [negb].
  { destruct (_ || _); intros [= <- <-]; auto. }
  destruct ((FourGB <? start) || (start =? 0)).
  - destruct (find_space vm n Hwf Hn) as (m' & r & Hrun & Hwf' & Hlk & Htop).
    assert (Hfs : VmmapFindSpace vm n = Ok (m', r)) by exact Hrun.
    rewrite Hfs, bind_Ok. intros [= <- <-]. split; [done|]. split; [done|].
    destruct (Z.eqb_spec r 0); [done|]. destruct Htop as [[-> _]|(? & ? & _)]; [done|auto].
  - destruct (find_space_above vm start n Hwf Hs Hn) as (m' & r & Hrun & Hwf' & Hlk & Hor).
    rewrite Hrun, bind_Ok. intros [= <- <-]. split; [done|]. split; [done|].
    destruct (Z.eqb_spec r 0); [done|]. destruct Hor as [[-> _]|(? & ? & ? & _)]; [done|auto].
Qed.

(** A free window between mapped pages ends below the last page. *)
Lemma gap_bound vm s n : wf_map vm -> 0 <= s -> 0 < n -> gap vm s n -> s + n < PAGES.
Proof using.
  intros Hwf Hs Hn (_ & _ & (q & Hq & Hl)). pose proof Hwf as [_ _ Hw _].
  assert (Hat : attrs_at q (entries vm) <> []) by (intros E; by apply Hl, page_lookup_None).
  apply attrs_at_exists in Hat as (e & He & Hc).
  pose proof (proj1 (Forall_forall _ _) (wf_each _ Hw) e He) as (? & ? & ?).
  unfold covers, end_page in *. bool_lia.
Qed.

(** The pages a mapping takes. *)
Definition page_count (len : Z) : Z := (len + 4095) / 4096.

(** How [rock_mmap] returns. *)
Inductive mmap_outcome (start len prot flags fd off : Z) (rt rt' : runtime) (r : Z) : Prop :=
  | mmap_refused :
      (start mod 4096 <> 0 /\ r = u64 (- EINVAL) \/ start mod 4096 = 0 /\ r = u64 (- ENOMEM)) ->
      (forall p, page_lookup (VM rt') p = page_lookup (VM rt) p) ->
      mmap_outcome start len prot flags fd off rt rt' r
  | mmap_in_heap m :
      (* inside a code heap: the protection of data changes, and no page is mapped *)
      has flags MAP_FIXED = true -> m ∈ modules rt -> code_heap m = true ->
      base_addr m <= start -> start + len <= base_addr m + sz m ->
      has prot PROT_WRITE && has prot PROT_EXEC = false ->
      (len < 128 -> bytes_ok (code_data_bitmap m) -> sz m <= 8 * Z.of_nat (length (code_data_bitmap m)) ->
       all_bytes false m start len) ->
      mprotect start len prot = 0 -> r = start -> rt' = rt ->
      mmap_outcome start len prot flags fd off rt rt' r
  | mmap_mapped page :
      (* the kernel maps the pages, which are recorded, or it refuses *)
      start mod 4096 = 0 -> 0 <= page -> page + page_count len < PAGES ->
      (if has flags MAP_FIXED then page = start / 4096 else 0 < page /\ free (VM rt) page (page_count len)) ->
      has prot PROT_EXEC = false ->
      (has prot PROT_WRITE = true -> spares_modules (modules rt) (page * 4096) len) ->
      r = mmap (page * 4096) len prot (Z.lor flags MAP_FIXED) fd off ->
      (forall p, page_lookup (VM rt') p =
         if (r =? page * 4096) && in_region page (page + page_count len) p
         then Some (prot, prot, VMMAP_ENTRY_ANONYMOUS) else page_lookup (VM rt) p) ->
      mmap_outcome start len prot flags fd off rt rt' r.

(** The branch that asks the kernel for pages. *)
Lemma mapped_outcome start len prot flags fd off rt rt' r :
  wf_map (VM rt) -> 0 <= start < 2 ^ 64 -> 0 < len -> (forall m, m ∈ modules rt -> module_ranges m) ->
  start mod 4096 = 0 -> (FourGB <? start) && has flags MAP_FIXED = false -> len <= FourGB ->
  (if has prot PROT_EXEC then Exit
   else
     '(vm, page) ← mmap_page start len flags (Z.shiftr (RoundToPage len) PAGESHIFT) (VM rt);
     let rt := rt {{ VM := vm }} in
     match page with
     | None => Ok (rt, u64 (- ENOMEM))
     | Some page =>
       let addr := u64 (Z.shiftl page PAGESHIFT) in
       if insecure_overlap_rdonly (modules rt) addr len prot then Exit
       else
         let result := mmap addr len prot (Z.lor flags MAP_FIXED) fd off in
         if result =? addr then
           vm ← VmmapAddWithOverwrite true (VM rt) page (Z.shiftr (RoundToPage len) PAGESHIFT) prot prot VMMAP_ENTRY_ANONYMOUS;
           Ok (rt {{ VM := vm }}, result)
         else Ok (rt, result)
     end) = Ok (rt', r) ->
  wf_map (VM rt') /\ rt' = rt {{ VM := VM rt' }} /\ mmap_outcome start len prot flags fd off rt rt' r.
Proof using QS.
  intros Hwf Hs Hlen Hms Hal Hout Hbl. destruct (has prot PROT_EXEC) eqn:Hx; [done|]. intros ([vm o] & Hpage & H)%bind_Ok_inv.
  change FourGB with 4294967296 in *. destruct (RoundToPage_pages len ltac:(lia)) as [_ Hn]. rewrite Hn in *.
  fold (page_count len) in *. assert (Hnp : 0 < page_count len <= 1048576) by (unfold page_count; div_lia).
  destruct (mmap_page_spec start len flags (page_count len) _ vm o Hwf Hs ltac:(lia) Hpage) as (Hwf' & Hlk & Hchosen).
  destruct o as [page|].
  2: { injection H as <- <-. split; [done|]. split; [by destruct rt|]. apply mmap_refused; auto. }
  assert (Hpg : 0 <= page /\ page + page_count len < PAGES /\
    (if has flags MAP_FIXED then page = start / 4096 else 0 < page /\ free (VM rt) page (page_count len))).
  { destruct (has flags MAP_FIXED).
    - rewrite andb_true_r in Hout. apply Z.ltb_ge in Hout. subst page. unfold PAGESHIFT, PAGES.
      rewrite Z.shiftr_div_pow2 by lia. change (2 ^ 12) with 4096. split; [div_lia|]. split; [div_lia|done].
    - destruct Hchosen as [Hp Hg]. split; [lia|]. split; [by apply (gap_bound (VM rt)); [|lia..|]|]. split; [done|apply Hg]. }
  destruct Hpg as (Hp0 & Hp1 & Hchoice).
  assert (Haddr : u64 (Z.shiftl page PAGESHIFT) = page * 4096).
  { unfold PAGESHIFT, PAGES in *. rewrite Z.shiftl_mul_pow2 by lia. change (2 ^ 12) with 4096. apply u64_small. lia. }
  cbv zeta in H. rewrite Haddr in H.
  change (modules (rt {{ VM := _ }})) with (modules rt) in H. change (VM (rt {{ VM := ?x }})) with x in H.
  destruct (insecure_overlap_rdonly _ _ _ _) eqn:Hins; [done|].
  assert (Hsp : has prot PROT_WRITE = true -> spares_modules (modules rt) (page * 4096) len).
  { intros Hw. unfold PAGES, page_count in *. apply (insecure_overlap_spares _ _ _ prot); [lia|div_lia|done..]. }
  destruct (Z.eqb_spec (mmap (page * 4096) len prot (Z.lor flags MAP_FIXED) fd off) (page * 4096)) as [Hr|Hr].
  2: { injection H as <- <-. split; [done|]. split; [by destruct rt|].
       apply (mmap_mapped _ _ _ _ _ _ _ _ _ page); try done. intros p. by rewrite (proj2 (Z.eqb_neq _ _) Hr). }
  apply bind_Ok_inv in H as (vm2 & Hadd & [= <- <-]).
  destruct (VmmapUpdate_spec vm page (page_count len) prot prot VMMAP_ENTRY_ANONYMOUS false Hwf')
    as (vm3 & Hrun & Hwf3 & Hlk3); [lia|lia|lia|by left|].
  unfold VmmapAddWithOverwrite in Hadd. rewrite Hrun in Hadd. injection Hadd as <-.
  split; [done|]. split; [by destruct rt|]. apply (mmap_mapped _ _ _ _ _ _ _ _ _ page); try done.
  intros p. rewrite Hr, Z.eqb_refl. cbn [andb]. change (VM (_ {{ VM := vm3 }})) with vm3. by rewrite Hlk3, Hlk.
Qed.

(** C29.  When [rock_mmap] returns, it is in one of three ways, and nothing of
    the runtime but the page table changes.  It refuses, with [-EINVAL] for an
    address off a page and [-ENOMEM] otherwise, and the page table is as before.
    Or the caller insisted on a range inside a code heap: the answer of the
    kernel to [mprotect] was success, the protection is not both writable and
    executable, no byte of a range of fewer than 128 bytes is code (for longer
    ones [which_area] may be wrong), and the page table is as before.  Or the
    kernel was asked to map pages that were free, unless the caller insisted on
    the address, never executable, and never writable over the text or the
    [.got.plt] of a module: when it maps them, exactly these pages are now
    recorded with the protection asked for, and when it refuses the page table
    is as before. *)
Theorem rock_mmap_correct start len prot flags fd off rt rt' r :
  wf_map (VM rt) -> 0 <= start < 2 ^ 64 -> 0 < len -> (forall m, m ∈ modules rt -> module_ranges m) ->
  rock_mmap true mmap mprotect start len prot flags fd off rt = Ok (rt', r) ->
  wf_map (VM rt') /\ rt' = rt {{ VM := VM rt' }} /\ mmap_outcome start len prot flags fd off rt rt' r.
Proof using QS.
  intros Hwf Hs Hlen Hms. unfold rock_mmap. change 4095 with (Z.ones 12) at 1. rewrite Z.land_ones by lia.
  change (2 ^ 12) with 4096. assert (Hrt : rt = rt {{ VM := VM rt }}) by (by destruct rt).
  assert (Hsame : forall r, (start mod 4096 <> 0 /\ r = u64 (- EINVAL) \/ start mod 4096 = 0 /\ r = u64 (- ENOMEM)) ->
    wf_map (VM rt) /\ rt = rt {{ VM := VM rt }} /\ mmap_outcome start len prot flags fd off rt rt r)
    by (intros r0 Hr0; split; [done|]; split; [done|]; by apply mmap_refused).
  destruct (Z.eqb_spec (start mod 4096) 0) as [Hal|Hal]; cbn [negb]; [|intros [= <- <-]; apply Hsame; auto].
  destruct ((FourGB <? start) && has flags MAP_FIXED) eqn:Hout; [intros [= <- <-]; apply Hsame; auto|].
  destruct (Z.ltb_spec FourGB len) as [Hbl|Hbl]; [intros [= <- <-]; apply Hsame; auto|].
  destruct (negb (start =? 0) && has flags MAP_FIXED) eqn:Hfix; [destruct (in_code_heap _ _ _) as [m|] eqn:Hheap|].
  { apply andb_true_iff in Hfix as [_ Hfix]. rewrite Hfix, andb_true_r in Hout. apply Z.ltb_ge in Hout.
    change FourGB with 4294967296 in *.
    destruct (in_code_heap_spec (modules rt) start len m) as (Hm & Hc & Hlo & Hhi); [lia|lia|lia|done|done|].
    destruct (Hms m Hm) as (Hb0 & _ & Hb1 & _).
    destruct (has prot PROT_WRITE && has prot PROT_EXEC) eqn:Hwx; [done|]. rewrite (u64_small (start - base_addr m)) by lia.
    intros (area & Harea & H)%bind_Ok_inv.
    destruct (Z.eqb_spec ROCK_DATA area) as [<-|]; cbn [negb] in H; [|done]. injection H as <- <-.
    destruct (Z.eqb_spec (mprotect start len prot) 0) as [Hmp|]; [|apply Hsame; auto].
    split; [done|]. split; [done|]. apply (mmap_in_heap _ _ _ _ _ _ _ _ _ m); try done.
    intros Hshort Hbytes Hcov. by destruct (which_area_short m start len ROCK_DATA) as [Hd _]; [lia..|done|lia|done|apply Hd]. }
  all: intros H; apply (mapped_outcome start len prot flags fd off rt rt' r Hwf Hs Hlen Hms Hal Hout Hbl H).
Qed.
End mem_facts.

(** ** Unmapping and the break *)
Section unmap_facts.
Context `{QS : QsortSpec}.

(** [rock_munmap] refuses a range outside the sandbox; inside, when the
    kernel has unmapped it, exactly the pages of the range leave the page
    table, as long as another page stays mapped, and otherwise nothing
    changes. *)
Theorem rock_munmap_correct munmap start len rt :
  wf_map (VM rt) -> 0 <= start < 2 ^ 64 -> 0 < len < 2 ^ 64 -> start mod 4096 = 0 ->
  leaves (VM rt) (start / 4096) ((len + 4095) / 4096) ->
  (FourGB < start + len -> rock_munmap true munmap start len rt = Exit) /\
  (start + len <= FourGB ->
   exists rt', rock_munmap true munmap start len rt = Ok (rt', munmap start len) /\ wf_map (VM rt') /\
    forall p, page_lookup (VM rt') p =
      if (munmap start len =? 0) && in_region (start / 4096) (start / 4096 + (len + 4095) / 4096) p then None
      else page_lookup (VM rt) p).
Proof using QS.
  intros Hwf Hs Hl Hal Hlv. unfold rock_munmap. change FourGB with 4294967296. split; intros Hb.
  - destruct (Z.ltb_spec 4294967296 start), (Z.ltb_spec 4294967296 len); try done. cbn [orb].
    rewrite u64_small, (proj2 (Z.ltb_lt _ (start + len))) by lia. done.
  - rewrite (proj2 (Z.ltb_ge _ start)), (proj2 (Z.ltb_ge _ len)), u64_small, (proj2 (Z.ltb_ge _ (start + len))) by lia.
    cbn [orb]. destruct (Z.eqb_spec (munmap start len) 0) as [E|E]; cbn [andb]; [|by exists rt].
    destruct (RoundToPage_pages start ltac:(lia)) as [_ ->]. destruct (RoundToPage_pages len ltac:(lia)) as [_ ->].
    replace ((start + 4095) / 4096) with (start / 4096) by div_lia.
    destruct (VmmapUpdate_spec (VM rt) (start / 4096) ((len + 4095) / 4096) 0 0 VMMAP_ENTRY_ANONYMOUS true Hwf)
      as (vm & Hrun & Hwf' & Hlk); [div_lia|div_lia|unfold PAGES; div_lia|by right|].
    unfold VmmapRemove. rewrite Hrun, bind_Ok. eexists. by split.
Qed.

(** A kernel that grows the break as it is asked to. *)
Definition kernel_brk (b : Z) (newbrk : Z) : Z := if newbrk =? 0 then b else newbrk.

(** The heap is forgotten.  The first call of [rock_brk], which asks for
    the break, records the pages of the leap and removes them again; the
    break may then grow through the whole leap without any of its pages being
    in the page table, so that a later mapping may be placed over the heap. *)
Theorem rock_brk_forgets_heap b rt :
  wf_map (VM rt) -> prog_brk rt = 0 -> 0 < b -> b + BRK_LEAP < FourGB -> b mod 4096 = 0 ->
  free (VM rt) (b / 4096) (BRK_LEAP / 4096) -> leaves (VM rt) (b / 4096) (BRK_LEAP / 4096) ->
  exists rt1, rock_brk true (kernel_brk b) 0 rt = Ok (rt1, b) /\
    forall newbrk, b < newbrk <= b + BRK_LEAP ->
      exists rt2, rock_brk true (kernel_brk b) newbrk rt1 = Ok (rt2, newbrk) /\
        free (VM rt2) (b / 4096) (BRK_LEAP / 4096).
Proof using QS.
  intros Hwf H0 Hb Hend Hal Hfree Hlv. unfold rock_brk at 1, init_brk. rewrite H0. cbn [Z.eqb].
  change (kernel_brk b 0) with b. change FourGB with 4294967296 in *. change BRK_LEAP with 8388608 in *.
  rewrite (proj2 (Z.leb_gt 4294967296 b)) by lia.
  destruct (RoundToPage_pages b ltac:(lia)) as [HR HR']. rewrite HR'.
  replace ((b + 4095) / 4096) with (b / 4096) in * by div_lia.
  assert (Hbp : b / 4096 * 4096 = b) by div_lia. rewrite Hbp in HR. rewrite HR.
  change (Z.shiftr 8388608 PAGESHIFT) with 2048. change (8388608 / 4096) with 2048 in *.
  destruct (VmmapAdd_spec (VM rt) (b / 4096) 2048 (Z.lor PROT_READ PROT_WRITE) (Z.lor PROT_READ PROT_WRITE)
    VMMAP_ENTRY_ANONYMOUS Hwf) as (vm1 & -> & Hwf1 & Hlk1); [div_lia|lia|unfold PAGES; div_lia|done|].
  rewrite !bind_Ok. rewrite (proj2 (Z.leb_gt 4294967296 0)) by lia. cbv zeta.
  rewrite (u64_small (b + 8388608)) by lia.
  assert (Hc : CurPage (b + 8388608) = b + 8388608) by (rewrite CurPage_pages by lia; div_lia).
  match goal with |- context [max_brk ?s] => change (max_brk s) with (b + 8388608) end.
  rewrite (proj2 (Z.ltb_ge (b + 8388608) b)), Hc by lia.
  rewrite (u64_small (b + 8388608 - b)) by lia.
  replace (b + 8388608 - b) with 8388608 by lia. rewrite Z.leb_refl.
  change (Z.shiftr 8388608 PAGESHIFT) with 2048.
  match goal with |- context [VmmapRemove true (VM ?s)] => change (VM s) with vm1 end.
  destruct (VmmapUpdate_spec vm1 (b / 4096) 2048 0 0 VMMAP_ENTRY_ANONYMOUS true Hwf1)
    as (vm2 & Hrun & Hwf2 & Hlk2); [div_lia|lia|unfold PAGES; div_lia| |].
  { right. destruct Hlv as (p & Hp & Hl). exists p. split; [done|]. by rewrite Hlk1, Hp. }
  unfold VmmapRemove. rewrite Hrun, bind_Ok. eexists. split; [done|].
  intros newbrk Hnew. unfold rock_brk, init_brk.
  match goal with |- context [prog_brk ?s =? 0] => change (prog_brk s) with b; set (rt1 := s) end.
  rewrite (proj2 (Z.eqb_neq b 0)) by lia. rewrite bind_Ok. change FourGB with 4294967296.
  rewrite (proj2 (Z.leb_gt 4294967296 newbrk)) by lia. unfold kernel_brk.
  rewrite (proj2 (Z.eqb_neq newbrk 0)) by lia. cbv zeta.
  change (max_brk (rt1 {{ prog_brk := newbrk }})) with (b + 8388608).
  rewrite (proj2 (Z.ltb_ge (b + 8388608) newbrk)), Hc by lia.
  destruct (RoundToPage_pages newbrk ltac:(lia)) as [-> _].
  rewrite u64_small by div_lia. change BRK_LEAP with 8388608.
  rewrite (proj2 (Z.leb_gt 8388608 _)) by div_lia.
  eexists. split; [done|]. intros p Hp. change (VM (rt1 {{ prog_brk := newbrk }})) with vm2.
  rewrite Hlk2. unfold in_region. by rewrite (proj2 (Z.leb_le _ _)), (proj2 (Z.ltb_lt _ _)) by lia.
Qed.
End unmap_facts.

(** ** A bound that is not checked *)
Section fixed_facts.
Context `{QS : QsortSpec}.
Variable mprotect : Z -> Z -> Z -> Z.

Definition honours (addr len prot flags fd off : Z) : Z := addr.

(** The end of a fixed mapping is not checked, because the test uses the
    variable [page] before it is set: whatever its end, a mapping that starts
    at or below 4 GB and is at most 4 GB long is made and recorded, so that
    the sandboxed program can map the guard region above its 4 GB. *)
Theorem rock_mmap_fixed_unbounded start len rt :
  wf_map (VM rt) -> modules rt = [] -> start mod 4096 = 0 -> 0 < start <= FourGB -> 0 < len <= FourGB ->
  exists rt', rock_mmap true honours mprotect start len (Z.lor PROT_READ PROT_WRITE)
      (Z.lor MAP_FIXED (Z.lor MAP_PRIVATE MAP_ANONYMOUS)) (-1) 0 rt = Ok (rt', start) /\
    forall a, start <= a < start + len -> page_lookup (VM rt') (a / 4096) <> None.
Proof using QS.
  intros Hwf Hms Hal Hs Hl. unfold rock_mmap. change FourGB with 4294967296 in *.
  assert (Hland : Z.land start 4095 = 0).
  { change 4095 with (Z.ones 12). rewrite Z.land_ones by lia. exact Hal. }
  rewrite Hland. cbn [negb Z.eqb]. rewrite (proj2 (Z.ltb_ge 4294967296 start)) by lia. cbn [andb].
  rewrite (proj2 (Z.ltb_ge 4294967296 len)), (proj2 (Z.eqb_neq start 0)), Hms by lia. cbn [negb andb in_code_heap].
  change (if has _ MAP_FIXED then None else None) with (@None code_module).
  change (has (Z.lor PROT_READ PROT_WRITE) PROT_EXEC) with false. cbv iota.
  destruct (RoundToPage_pages len ltac:(lia)) as [_ ->].
  unfold mmap_page. change (has _ MAP_FIXED) with true. cbn [negb]. change FourGB with 4294967296.
  rewrite Z.add_0_l, (u64_small len), (proj2 (Z.ltb_ge 4294967296 len)) by lia. cbn [orb].
  rewrite bind_Ok. cbv zeta.
  assert (Hsp : Z.shiftr start PAGESHIFT = start / 4096) by (unfold PAGESHIFT; by rewrite Z.shiftr_div_pow2).
  assert (Haddr : u64 (Z.shiftl (start / 4096) PAGESHIFT) = start).
  { unfold PAGESHIFT. rewrite Z.shiftl_mul_pow2 by lia. change (2 ^ 12) with 4096.
    rewrite u64_small by div_lia. div_lia. }
  rewrite Hsp, Haddr. change (modules (rt {{ VM := _ }})) with (modules rt). rewrite Hms.
  change (insecure_overlap_rdonly [] start len _) with false. cbv iota.
  unfold honours at 1. rewrite Z.eqb_refl. change (VM (rt {{ VM := ?x }})) with x.
  destruct (VmmapUpdate_spec (VM rt) (start / 4096) ((len + 4095) / 4096) (Z.lor PROT_READ PROT_WRITE)
    (Z.lor PROT_READ PROT_WRITE) VMMAP_ENTRY_ANONYMOUS false Hwf) as (vm & Hrun & _ & Hlk);
    [div_lia|div_lia|unfold PAGES; div_lia|by left|].
  unfold VmmapAddWithOverwrite. rewrite Hrun, bind_Ok. eexists. split; [done|].
  intros a Ha. match goal with |- context [VM ?s] => change (VM s) with vm end. rewrite Hlk.
  unfold in_region. by rewrite (proj2 (Z.leb_le _ _)), (proj2 (Z.ltb_lt _ _)) by div_lia.
Qed.
End fixed_facts.

(** ** Examples *)
#[local] Existing Instance utils_qsort.

(** The map of [PagerSpec] with a large region on top. *)
Definition mem_state : runtime := sample_runtime {{ VM := sample_map }}.

Lemma free_sample s n : 100 <= s -> free sample_map s n.
Proof.
  intros Hs p Hp. apply page_lookup_None. unfold sample_map, entries. cbn [take nvalid vmentry omap list_omap id].
  rewrite !attrs_at_cons. unfold cov, covers, end_page. cbn.
  rewrite !(proj2 (Z.ltb_ge p _)), !andb_false_r by lia. done.
Qed.

Lemma leaves_sample s n : 100 <= s -> leaves sample_map s n.
Proof.
  intros Hs. exists 32. split; [|by vm_compute]. unfold in_region. rewrite (proj2 (Z.leb_gt s 32)) by lia. done.
Qed.

Lemma rock_mmap_witness : exists rt',
  rock_mmap true honours (fun _ _ _ => 0) 0 8192 3 0x22 (-1) 0 mem_state = Ok (rt', 30 * 4096) /\ wf_map (VM rt') /\
  mmap_outcome honours (fun _ _ _ => 0) 0 8192 3 0x22 (-1) 0 mem_state rt' (30 * 4096).
Proof.
  destruct (rock_mmap true honours (fun _ _ _ => 0) 0 8192 3 0x22 (-1) 0 mem_state) as [[rt' r]| | |] eqn:Hrun;
    [|vm_compute in Hrun; discriminate..].
  assert (r = 30 * 4096) as ->.
  { clear -Hrun. vm_compute in Hrun. injection Hrun as _ <-. reflexivity. }
  exists rt'. split; [reflexivity|].
  destruct (rock_mmap_correct honours (fun _ _ _ => 0) 0 8192 3 0x22 (-1) 0 mem_state rt' (30 * 4096)) as (H & _ & Hout);
    [exact sample_map_wf|lia|lia| |exact Hrun|split; [exact H|exact Hout]].
  intros m Hm. exfalso. clear -Hm. by apply not_elem_of_nil in Hm.
Defined.

Lemma rock_munmap_witness : exists rt', rock_munmap true (fun _ _ => 0) (16 * 4096) 4096 mem_state = Ok (rt', 0) /\
  page_lookup (VM rt') 16 = None.
Proof.
  destruct (rock_munmap_correct (fun _ _ => 0) (16 * 4096) 4096 mem_state) as [_ H];
    [exact sample_map_wf|lia|lia|reflexivity| |].
  - exists 32. split; [reflexivity|by vm_compute].
  - destruct H as (rt' & Hrun & _ & Hlk); [by vm_compute|]. exists rt'. split; [exact Hrun|].
    rewrite Hlk. reflexivity.
Defined.

Lemma rock_brk_witness : exists rt1, rock_brk true (kernel_brk 0x1000000) 0 mem_state = Ok (rt1, 0x1000000) /\
  exists rt2, rock_brk true (kernel_brk 0x1000000) 0x1001000 rt1 = Ok (rt2, 0x1001000) /\
    page_lookup (VM rt2) 0x1000 = None.
Proof.
  destruct (rock_brk_forgets_heap 0x1000000 mem_state) as (rt1 & H1 & H2);
    [exact sample_map_wf|reflexivity|lia|unfold BRK_LEAP; reflexivity|reflexivity|by apply free_sample|by apply leaves_sample|].
  exists rt1. split; [exact H1|]. destruct (H2 0x1001000) as (rt2 & Hrun & Hfree); [unfold BRK_LEAP; lia|].
  exists rt2. split; [exact Hrun|]. apply Hfree. change (0x1000000 / 4096) with 0x1000. change (BRK_LEAP / 4096) with 2048. lia.
Defined.

Lemma rock_mmap_fixed_witness : exists rt', rock_mmap true honours (fun _ _ _ => 0) (FourGB - 4096) 8192 3 0x32 (-1) 0 mem_state
  = Ok (rt', FourGB - 4096) /\ page_lookup (VM rt') (FourGB / 4096) <> None.
Proof.
  destruct (rock_mmap_fixed_unbounded (fun _ _ _ => 0) (FourGB - 4096) 8192 mem_state) as (rt' & Hrun & Hall);
    [exact sample_map_wf|reflexivity|reflexivity|by vm_compute|by vm_compute|].
  exists rt'. split; [exact Hrun|]. apply (Hall FourGB). unfold FourGB. cbn. lia.
Defined.
