(* ===== verification/Verifier.v ===== *)
(** * The verifier of just-in-time compiled code ([runtime.c], [verify] and
    [verify_jitted_code])

    The code is cut into pseudo-instructions by the automaton of the module;
    each may only jump directly to the start of a pseudo-instruction, in the
    new code or in code installed before.  [data] is the bytes of the code,
    [data_addr] where they lie, and a position is an offset into them.  The
    build without [NO_JITCODE_VERIFICATION]; the messages are left out. *)

From S2P Require Import Prelude Module Table CodeBitmap.

(** The bytes [cur, end) are the list; the state and the end of the last
    pseudo-instruction accepted are the out parameters. *)
Fixpoint verify (v : verifier) (bytes : list Z) (cur start : Z) (out : option (Z * Z))
    : Z * option (Z * Z) :=
  match bytes with
  | [] => (1, out)
  | b :: bytes' =>
    let state := dfa_lookup v start b in
    let cur := cur + 1 in
    if v_start v <=? state then verify v bytes' cur state out
    else if accepts v state then
      let out := Some (state, cur) in
      match bytes' with
      | [] => (0, out)
      | b' :: bytes'' =>
        match bytes'' with
        | [] => (0, out)
        | _ =>
          let next_state := dfa_lookup v state b' in
          if negb (next_state =? 0) then (0, snd (verify v bytes'' (cur + 1) next_state out)) else (0, out)
        end
      end
    else if accepts_others v state then (0, Some (state, cur))
    else if 0 =? state then (-1, out)
    else verify v bytes' cur state out
  end.

(** The displacement of a direct jump or call. *)
Definition jump_offset (v : verifier) (data : list Z) (state endptr : Z) : res (option Z) :=
  if accepts_jmp_rel1 v state || accepts_jcc_rel1 v state then
    offset ← load8 data (endptr - 1); Ok (Some (s8 offset))
  else if accepts_jmp_rel4 v state || accepts_jcc_rel4 v state then
    offset ← load32 data (endptr - 4); Ok (Some (s32 offset))
  else if accepts_dcall v state then
    offset ← load32 data (endptr - 4); Ok (Some (s32 offset))
  else Ok None.

(** What is checked of one pseudo-instruction, and its jump target. *)
Definition check_instr (m : code_module) (v : verifier) (data : list Z) (data_addr install_addr : Z)
    (state endptr : Z) (jmp_targets : list Z) : res (list Z) :=
  if v_max_accept v <? state then
    o ← jump_offset v data state endptr;
    match o with
    | Some offset =>
      let target := u64 (install_addr + endptr + offset) in
      _ ← CHECK ((base_addr m <=? target) && (target <? u64 (base_addr m + sz m)));
      if 4 * (Z.of_nat (length jmp_targets) + 1) <=? 2 * (Z.of_nat (length data) + 1)
      then Ok (jmp_targets ++ [u32 target])
      else Fault
    | None =>
      if accepts_mcficall v state then
        if negb (Z.land (u64 (data_addr + endptr)) 7 =? 0) then Exit else Ok jmp_targets
      else Ok jmp_targets
    end
  else Ok jmp_targets.

Fixpoint verify_loop (fuel : nat) (m : code_module) (v : verifier) (data : list Z)
    (data_addr install_addr : Z) (ptr : Z) (out : option (Z * Z)) (tary jmp_targets : list Z)
    : res (list Z * list Z * option (Z * Z)) :=
  match fuel with
  | O => NoFuel
  | S fuel' =>
    if ptr <? Z.of_nat (length data) then
      let '(result, out) := verify v (drop (Z.to_nat ptr) data) ptr (v_start v) out in
      if negb (result =? 0) then Exit
      else
        match out with
        | None => Fault
        | Some (state, endptr) =>
          tary ← store8 tary ptr DCV;
          jmp_targets ← check_instr m v data data_addr install_addr state endptr jmp_targets;
          verify_loop fuel' m v data data_addr install_addr endptr out tary jmp_targets
        end
    else Ok (tary, jmp_targets, out)
  end.

(** Every direct jump reaches the start of a pseudo-instruction. *)
Definition check_target (m : code_module) (table : mem) (size : Z) (tary : list Z) (install_addr : Z)
    (_ : unit) (t : Z) : res unit :=
  if (t <? base_addr m) || (u64 (base_addr m + sz m) <=? t) then Exit
  else if (t <? u32 install_addr) || (u64 (u32 install_addr + size) <=? t) then
    if negb (table t =? DCV) then Exit else Ok tt
  else
    b ← load8 tary (t - u32 install_addr);
    if negb (b =? DCV) then Exit else Ok tt.

(** The marks of the boundaries; the code returns 0. *)
Definition verify_jitted_code (m : code_module) (table : mem) (data : list Z) (data_addr : Z)
    (tary : list Z) (install_addr : Z) (check_terminate : bool) : res (list Z) :=
  v ← deref (Some (m_verifier m));
  '(tary, jmp_targets, out) ←
    verify_loop (S (length data)) m v data data_addr install_addr 0 None tary [];
  _ ← (if check_terminate then
         match out with
         | None => Fault   (* the state is not initialised *)
         | Some (state, _) => if negb (terminator v state) then Exit else Ok tt
         end
       else Ok tt);
  _ ← foldM (check_target m table (Z.of_nat (length data)) tary install_addr) jmp_targets tt;
  Ok tary.

(** ** What a verified piece of code is *)
Definition dfa_run (v : verifier) (s : Z) (bytes : list Z) : Z := foldl (dfa_lookup v) s bytes.

(** The automaton reaches an accepting state and not the error state before. *)
Record instruction (v : verifier) (s : Z) (bytes : list Z) (state : Z) : Prop := {
  instr_nonempty : bytes <> [];
  instr_run : dfa_run v s bytes = state;
  instr_final : 0 < state < v_start v;
  instr_alive : forall k, (0 < k <= length bytes)%nat -> dfa_run v s (take k bytes) <> 0;
}.

(** A pseudo-instruction in the code: where it starts and ends, and the state. *)
Record instr : Type := mkInstr { i_at : Z; i_end : Z; i_state : Z }.

Inductive parses (v : verifier) (data : list Z) : Z -> list instr -> Prop :=
  | parses_end : parses v data (Z.of_nat (length data)) []
  | parses_instr i l :
      0 <= i_at i -> i_at i < i_end i <= Z.of_nat (length data) ->
      instruction v (v_start v) (take (Z.to_nat (i_end i - i_at i)) (drop (Z.to_nat (i_at i)) data)) (i_state i) ->
      parses v data (i_end i) l ->
      parses v data (i_at i) (i :: l).

(** The target of a direct jump, when it is one. *)
Definition jumps_to (v : verifier) (data : list Z) (install_addr : Z) (i : instr) (t : Z) : Prop :=
  v_max_accept v < i_state i /\
  exists offset, jump_offset v data (i_state i) (i_end i) = Ok (Some offset) /\
    t = u64 (install_addr + i_end i + offset).

Definition starts (l : list instr) : list Z := i_at <$> l.

Record verified (m : code_module) (v : verifier) (table : mem) (data : list Z)
    (data_addr install_addr : Z) (l : list instr) : Prop := {
  ver_parses : parses v data 0 l;
  ver_jumps : forall i t, i ∈ l -> jumps_to v data install_addr i t ->
    base_addr m <= t < base_addr m + sz m /\
    (if (install_addr <=? t) && (t <? install_addr + Z.of_nat (length data))
     then t - install_addr ∈ starts l else table t = DCV);
  ver_mcficall : forall i, i ∈ l -> v_max_accept v < i_state i ->
    jump_offset v data (i_state i) (i_end i) = Ok None -> accepts_mcficall v (i_state i) = true ->
    (data_addr + i_end i) mod 8 = 0;
}.

(** The marks that say where the pseudo-instructions start. *)
Definition boundary_marks (l : list instr) (tary : list Z) : Prop :=
  forall k : nat, (k < length tary)%nat -> tary !! k = Some (if decide (Z.of_nat k ∈ starts l) then DCV else 0).

Definition ends_safely (v : verifier) (l : list instr) : Prop :=
  exists l' i, l = l' ++ [i] /\ terminator v (i_state i) = true.

(** The types of the fields, and a code heap inside the sandbox. *)
Definition wf_verifier (v : verifier) : Prop := 0 <= v_max_accept v.
Definition in_sandbox (m : code_module) : Prop := 0 <= base_addr m /\ 0 <= sz m /\ base_addr m + sz m <= FourGB.

Section facts.
Context (v : verifier) (Hv : wf_verifier v).

Lemma final_states s : accepts v s = true \/ accepts_others v s = true -> s < v_start v -> 0 < s < v_start v.
Proof using Hv. unfold accepts, accepts_others, wf_verifier in *. intros [H|H] Hs; bool_lia. Qed.

Lemma dfa_run_cons s b bytes : dfa_run v s (b :: bytes) = dfa_run v (dfa_lookup v s b) bytes.
Proof. done. Qed.

(** One byte more in front of an instruction. *)
Lemma instruction_cons s b bytes state : dfa_lookup v s b <> 0 ->
  instruction v (dfa_lookup v s b) bytes state -> instruction v s (b :: bytes) state.
Proof.
  intros H0 [H1 H2 H3 H4]. split; [done|by rewrite dfa_run_cons|done|].
  intros k Hk. destruct k as [|k]; [lia|]. cbn [take]. rewrite dfa_run_cons.
  destruct k as [|k]; [done|]. apply H4. cbn in Hk. lia.
Qed.

Lemma instruction_one s b : 0 < dfa_lookup v s b < v_start v -> instruction v s [b] (dfa_lookup v s b).
Proof.
  intros H. split; [done|done|done|]. intros k Hk. cbn in Hk. replace k with 1%nat by lia. cbn. lia.
Qed.

(** The out parameters keep their value or describe an accepted prefix; the
    latter when the result is 0. *)
Definition found (bytes : list Z) (cur s : Z) (out : option (Z * Z)) : Prop :=
  exists k state, (0 < k <= length bytes)%nat /\ out = Some (state, cur + Z.of_nat k) /\
    instruction v s (take k bytes) state.

Lemma found_cons b bytes cur s out : dfa_lookup v s b <> 0 ->
  found bytes (cur + 1) (dfa_lookup v s b) out -> found (b :: bytes) cur s out.
Proof.
  intros H0 (k & state & Hk & -> & Hi). exists (S k), state. split; [cbn; lia|].
  split; [do 2 f_equal; lia|]. by apply instruction_cons.
Qed.

Lemma verify_found bytes cur s out r out' : verify v bytes cur s out = (r, out') ->
  (r <> 0 /\ out' = out) \/ found bytes cur s out'.
Proof using Hv.
  remember (length bytes) as n eqn:Hn. revert bytes Hn cur s out r out'.
  induction (lt_wf n) as [n _ IH]. intros [|b bytes] -> cur s out r out'; cbn [verify].
  { intros [= <- <-]. by left. }
  assert (Hrec : forall o, verify v bytes (cur + 1) (dfa_lookup v s b) o = (r, out') -> dfa_lookup v s b <> 0 \/ v_start v <= 0 ->
            (r <> 0 /\ out' = o) \/ found (b :: bytes) cur s out').
  { intros o Ho Hnz. destruct (IH (length bytes) ltac:(cbn; lia) bytes eq_refl _ _ _ _ _ Ho) as [?|Hf]; [by left|].
    right. apply found_cons; [|done]. destruct Hnz as [?|Hz]; [done|].
    destruct Hf as (k & st & _ & _ & [_ _ ? _]). lia. }
  destruct (Z.leb_spec (v_start v) (dfa_lookup v s b)) as [Hs|Hs].
  { intros H. apply Hrec; [done|lia]. }
  destruct (accepts v (dfa_lookup v s b)) eqn:Ha.
  { assert (Hf : 0 < dfa_lookup v s b < v_start v) by (apply final_states; auto).
    assert (H1 : found (b :: bytes) cur s (Some (dfa_lookup v s b, cur + 1))).
    { exists 1%nat, (dfa_lookup v s b). split; [cbn; lia|]. split; [done|]. by apply instruction_one. }
    destruct bytes as [|b' bytes']; [intros [= <- <-]; by right|].
    destruct bytes' as [|b'' bytes'']; [intros [= <- <-]; by right|].
    destruct (Z.eqb_spec (dfa_lookup v (dfa_lookup v s b) b') 0) as [_|Hnz]; cbn [negb]; [intros [= <- <-]; by right|].
    destruct (verify v (b'' :: bytes'') _ _ _) as [r1 o1] eqn:Ho. intros [= <- <-]. cbn [snd].
    apply (IH (length (b'' :: bytes''))) in Ho as [[_ ->]|Hfound]; [by right| |cbn; lia|done].
    right. apply found_cons; [lia|]. by apply found_cons. }
  destruct (accepts_others v (dfa_lookup v s b)) eqn:Hb.
  { intros [= <- <-]. right. exists 1%nat, (dfa_lookup v s b). split; [cbn; lia|]. split; [done|].
    apply instruction_one, final_states; auto. }
  destruct (Z.eqb_spec 0 (dfa_lookup v s b)) as [E|E]; [intros [= <- <-]; by left|].
  intros H. apply Hrec; [done|lia].
Qed.
End facts.

(** ** The loop over the code *)
Section loop.
Context (m : code_module) (v : verifier) (Hv : wf_verifier v).
Context (data : list Z) (data_addr install_addr : Z).

(** What one turn has checked of a pseudo-instruction. *)
Record checked (jmps : list Z) (i : instr) : Prop := {
  chk_jump : forall t, jumps_to v data install_addr i t ->
    base_addr m <= t < u64 (base_addr m + sz m) /\ u32 t ∈ jmps;
  chk_mcficall : v_max_accept v < i_state i -> jump_offset v data (i_state i) (i_end i) = Ok None ->
    accepts_mcficall v (i_state i) = true -> u64 (data_addr + i_end i) mod 8 = 0;
}.

Lemma checked_mono jmps jmps' i : jmps ⊆ jmps' -> checked jmps i -> checked jmps' i.
Proof. intros Hs [H1 H2]. split; [|done]. intros t Ht. destruct (H1 t Ht). auto. Qed.

Lemma check_instr_checked at_ state endptr jmps jmps' :
  check_instr m v data data_addr install_addr state endptr jmps = Ok jmps' ->
  jmps ⊆ jmps' /\ checked jmps' (mkInstr at_ endptr state).
Proof.
  unfold check_instr. destruct (Z.ltb_spec (v_max_accept v) state) as [Hs|Hs].
  2: { intros [= <-]. split; [done|]. split; [intros t [Ht _]; cbn in Ht; lia|cbn; lia]. }
  intros H. apply bind_Ok_inv in H as (o & Ho & H). destruct o as [offset|].
  - apply bind_Ok_inv in H as ([] & Hc & H). apply CHECK_Ok, andb_true_iff in Hc as [Hc1 Hc2].
    apply Z.leb_le in Hc1. apply Z.ltb_lt in Hc2.
    case_if; [|done]. injection H as <-. split; [set_solver|].
    split; cbn; [|congruence]. intros t [_ (o' & Ho' & ->)]. cbn in Ho'. rewrite Ho in Ho'. injection Ho' as ->. cbn [i_end].
    split; [lia|]. set_solver.
  - assert (Hj : forall t, ~ jumps_to v data install_addr (mkInstr at_ endptr state) t).
    { intros t [_ (o' & Ho' & _)]. cbn in Ho'. congruence. }
    destruct (accepts_mcficall v state) eqn:Hm; cbn in H.
    + destruct (Z.eqb_spec (Z.land (u64 (data_addr + endptr)) 7) 0) as [E|E]; [|done]. injection H as <-.
      split; [done|]. split; [intros t Ht; by apply Hj in Ht|]. intros _ _ _. cbn.
      change 7 with (Z.ones 3) in E. by rewrite Z.land_ones in E by lia.
    + injection H as <-. split; [done|]. split; [intros t Ht; by apply Hj in Ht|]. cbn. congruence.
Qed.

(** What the loop leaves, from position [ptr]. *)
Record walked (ptr : Z) (out out' : option (Z * Z)) (tary tary' jmps jmps' : list Z) (l : list instr) : Prop := {
  wlk_parses : parses v data ptr l;
  wlk_length : length tary' = length tary;
  wlk_marks : forall k : nat, (k < length tary)%nat ->
    tary' !! k = if decide (Z.of_nat k ∈ starts l) then Some DCV else tary !! k;
  wlk_jmps : jmps ⊆ jmps';
  wlk_checked : forall i, i ∈ l -> checked jmps' i;
  wlk_last : l = [] /\ out' = out \/ exists l' i, l = l' ++ [i] /\ out' = Some (i_state i, i_end i);
}.

Lemma verify_loop_walked fuel ptr out tary jmps tary' jmps' out' :
  0 <= ptr <= Z.of_nat (length data) ->
  verify_loop fuel m v data data_addr install_addr ptr out tary jmps = Ok (tary', jmps', out') ->
  exists l, walked ptr out out' tary tary' jmps jmps' l.
Proof using Hv.
  revert ptr out tary jmps. induction fuel as [|fuel IH]; intros ptr out tary jmps Hp; cbn [verify_loop]; [done|].
  destruct (Z.ltb_spec ptr (Z.of_nat (length data))) as [Hlt|Hge].
  2: { intros [= <- <- <-]. exists []. replace ptr with (Z.of_nat (length data)) by lia.
    split; [constructor|done|done|done|set_solver|by left]. }
  destruct (verify v _ ptr _ out) as [r o] eqn:Hver. destruct (Z.eqb_spec r 0) as [->|]; [|done]. cbn [negb].
  apply verify_found in Hver as [[? _]|(n & state & Hn & -> & Hi)]; [done| |done].
  rewrite length_drop in Hn. set (endptr := ptr + Z.of_nat n).
  intros H. apply bind_Ok_inv in H as (tary1 & Ht & H). apply bind_Ok_inv in H as (jmps1 & Hj & H).
  apply check_instr_checked with (at_ := ptr) in Hj as [Hsub Hchk].
  unfold store8 in Ht. destruct (Z.leb_spec 0 ptr) as [_|]; [|lia]. apply store_Ok in Ht as [Hlen ->].
  apply IH in H as (l & [Hpl Hll Hml Hjl Hcl Hlast]); [|subst endptr; lia].
  rewrite length_insert in Hll, Hml.
  exists (mkInstr ptr endptr state :: l). split.
  - apply (parses_instr v data (mkInstr ptr endptr state) l); cbn; [lia|subst endptr; lia| |done].
    replace (Z.to_nat (endptr - ptr)) with n by (subst endptr; lia). done.
  - by rewrite Hll.
  - intros k Hk. rewrite Hml by done. cbn [starts fmap list_fmap i_at].
    destruct (decide (Z.of_nat k ∈ starts l)) as [Hin|Hin].
    + rewrite decide_True; [done|]. by right.
    + destruct (decide (k = Z.to_nat ptr)) as [->|Hne].
      * rewrite list_lookup_insert_eq by done. rewrite decide_True; [done|]. rewrite Z2Nat.id by lia. left.
      * rewrite list_lookup_insert_ne by done. rewrite decide_False; [done|].
        intros [E|E]%elem_of_cons; [lia|done].
  - set_solver.
  - intros i [->|Hi']%elem_of_cons; [|by apply Hcl]. by apply (checked_mono jmps1).
  - right. destruct Hlast as [[-> ->]|(l' & i & -> & ->)].
    + by exists [], (mkInstr ptr endptr state).
    + by exists (mkInstr ptr endptr state :: l'), i.
Qed.
End loop.

(** The last pass. *)
Lemma check_target_all m table size tary ia jmps :
  foldM (check_target m table size tary ia) jmps tt = Ok tt ->
  forall t, t ∈ jmps -> check_target m table size tary ia tt t = Ok tt.
Proof.
  induction jmps as [|j l IH]; cbn; [set_solver|]. intros H. apply bind_Ok_inv in H as ([] & H1 & H2).
  intros t [->|Ht]%elem_of_cons; [done|]. by apply IH.
Qed.

Lemma check_target_spec m table size tary ia t :
  0 <= ia < 2 ^ 32 -> 0 <= size -> ia + size < 2 ^ 64 ->
  check_target m table size tary ia tt t = Ok tt ->
  if (ia <=? t) && (t <? ia + size) then tary !! Z.to_nat (t - ia) = Some DCV else table t = DCV.
Proof.
  intros Hia Hsz Hs. unfold check_target. rewrite u32_small, (u64_small (ia + size)) by lia.
  destruct (_ || (_ <=? t)); [done|].
  destruct (Z.ltb_spec t ia), (Z.leb_spec ia t); try lia; cbn [orb andb].
  { destruct (Z.eqb_spec (table t) DCV); [done|done]. }
  destruct (Z.leb_spec (ia + size) t), (Z.ltb_spec t (ia + size)); try lia.
  { destruct (Z.eqb_spec (table t) DCV); [done|done]. }
  intros Hb. apply bind_Ok_inv in Hb as (b & Hb & Hd). unfold load8 in Hb.
  destruct (Z.leb_spec 0 (t - ia)); [|done]. apply fetch_Ok in Hb.
  destruct (Z.eqb_spec b DCV) as [E|]; [by subst|done].
Qed.

Lemma verify_jitted_code_spec m v table data data_addr install_addr chk tary :
  m_verifier m = Some v -> wf_verifier v -> in_sandbox m ->
  0 <= data_addr -> data_addr + Z.of_nat (length data) < 2 ^ 64 ->
  0 <= install_addr -> install_addr + Z.of_nat (length data) <= FourGB -> install_addr < FourGB ->
  verify_jitted_code m table data data_addr (replicate (length data) 0) install_addr chk = Ok tary ->
  exists l, verified m v table data data_addr install_addr l /\ length tary = length data /\
    boundary_marks l tary /\ (chk = true -> ends_safely v l).
Proof.
  intros Hmv Hv (Hm1 & Hm2 & Hm3) Hd0 Hd1 Hi0 Hi1 Hi2. unfold verify_jitted_code. rewrite Hmv. cbn [deref mbind res_bind].
  change FourGB with 4294967296 in *.
  intros H. apply bind_Ok_inv in H as ([[tary' jmps] out] & Hw & H).
  apply verify_loop_walked in Hw as (l & [Hp Hl Hmk _ Hc Hlast]); [|done|lia].
  apply bind_Ok_inv in H as ([] & Hterm & H). apply bind_Ok_inv in H as ([] & Hfold & H). injection H as ->.
  rewrite length_replicate in Hl, Hmk. exists l. split; [split|].
  - done.
  - intros i t Hi Ht. destruct (chk_jump _ _ _ _ _ _ _ (Hc i Hi) t Ht) as [Hr Hin].
    rewrite u64_small in Hr by lia. split; [done|]. rewrite u32_small in Hin by lia.
    pose proof (check_target_all _ _ _ _ _ _ Hfold _ Hin) as Hck.
    apply check_target_spec in Hck; [|lia..].
    destruct (Z.leb_spec install_addr t), (Z.ltb_spec t (install_addr + Z.of_nat (length data))); cbn in Hck |- *; try done.
    apply lookup_lt_Some in Hck as Hlt. rewrite Hmk in Hck by lia. destruct (decide _) as [Hs|_].
    + by rewrite Z2Nat.id in Hs by lia.
    + rewrite lookup_replicate_2 in Hck by lia. discriminate.
  - intros i Hi H1 H2 H3. pose proof (chk_mcficall _ _ _ _ _ _ _ (Hc i Hi) H1 H2 H3) as Hal.
    unfold u64, wrap in Hal. rewrite <- Hal. symmetry. apply Z.mod_mod_divide. by exists (2 ^ 61).
  - split; [done|]. split.
    { intros k Hk. rewrite Hmk by lia. case_decide; [done|]. rewrite lookup_replicate_2 by lia. done. }
    intros ->. destruct Hlast as [[_ ->]|(l' & i & -> & ->)]; [done|]. exists l', i. split; [done|].
    by destruct (terminator v (i_state i)).
Qed.

(** C30.  Code that passes the verifier, with a verifier and a module whose
    fields have their types and a module inside the sandbox, is a sequence of
    pseudo-instructions the automaton accepts; the marks returned are exactly
    their starts; every direct jump or call lands on the start of one of
    them, or outside the code on a place the table marks as one; every
    [mcficall] ends on an 8-byte boundary of the buffer; and, if asked for,
    the last one is a terminator. *)
Theorem verify_jitted_code_sound m v table data data_addr install_addr chk tary :
  m_verifier m = Some v -> wf_verifier v -> in_sandbox m ->
  0 <= data_addr -> data_addr + Z.of_nat (length data) < 2 ^ 64 ->
  0 <= install_addr -> install_addr + Z.of_nat (length data) <= FourGB -> install_addr < FourGB ->
  verify_jitted_code m table data data_addr (replicate (length data) 0) install_addr chk = Ok tary ->
  exists l, verified m v table data data_addr install_addr l /\ length tary = length data /\
    boundary_marks l tary /\ (chk = true -> ends_safely v l).
Proof. apply verify_jitted_code_spec. Qed.

(** ** The verifier always answers *)
(** The automaton's direct jumps are encoded as they are in x86-64. *)
Definition jumps_encoded (v : verifier) : Prop :=
  forall bytes state, bytes_ok bytes -> instruction v (v_start v) bytes state -> v_max_accept v < state ->
    (accepts_jmp_rel1 v state || accepts_jcc_rel1 v state = true -> (2 <= length bytes)%nat) /\
    (accepts_jmp_rel4 v state || accepts_jcc_rel4 v state || accepts_dcall v state = true -> (5 <= length bytes)%nat).

Lemma load8_in l a : 0 <= a < Z.of_nat (length l) -> exists b, load8 l a = Ok b.
Proof.
  intros Ha. unfold load8, fetch. destruct (Z.leb_spec 0 a); [|lia].
  destruct (lookup_lt_is_Some_2 l (Z.to_nat a)) as [b ->]; [lia|]. by exists b.
Qed.

Lemma load32_in l a : 0 <= a -> a + 4 <= Z.of_nat (length l) -> exists w, load32 l a = Ok w.
Proof.
  intros H0 H1. unfold load32. cbn [load_le].
  destruct (load8_in l a) as [b0 ->]; [lia|]. destruct (load8_in l (a + 1)) as [b1 H2]; [lia|].
  destruct (load8_in l (a + 1 + 1)) as [b2 H3]; [lia|]. destruct (load8_in l (a + 1 + 1 + 1)) as [b3 H4]; [lia|].
  cbn. rewrite H2. cbn. rewrite H3. cbn. rewrite H4. cbn. eauto.
Qed.

Section total.
Context (m : code_module) (v : verifier) (Hv : wf_verifier v) (He : jumps_encoded v).
Context (data : list Z) (Hdata : bytes_ok data) (data_addr install_addr : Z).

Lemma jump_offset_total state (ptr endptr : Z) n : v_max_accept v < state -> 0 <= ptr ->
  endptr = ptr + Z.of_nat n -> endptr <= Z.of_nat (length data) ->
  instruction v (v_start v) (take n (drop (Z.to_nat ptr) data)) state ->
  exists o, jump_offset v data state endptr = Ok o /\ (o <> None -> ptr + 2 <= endptr).
Proof using He Hdata.
  intros Hs H0 Hn Hend Hi. destruct (He _ _ ltac:(by apply Forall_take, Forall_drop) Hi Hs) as [H1 H2].
  rewrite length_take, length_drop in H1, H2.
  unfold jump_offset. destruct (_ || accepts_jcc_rel1 v state).
  { specialize (H1 eq_refl). destruct (load8_in data (endptr - 1)) as [b ->]; [lia|]. eexists. split; [done|]. lia. }
  destruct (accepts_jmp_rel4 v state || accepts_jcc_rel4 v state) eqn:H4.
  { specialize (H2 eq_refl). destruct (load32_in data (endptr - 4)) as [b ->]; [lia..|]. eexists. split; [done|]. lia. }
  destruct (accepts_dcall v state) eqn:Hc.
  { specialize (H2 eq_refl). destruct (load32_in data (endptr - 4)) as [b ->]; [lia..|]. eexists. split; [done|]. lia. }
  eexists. by split.
Qed.

Lemma check_instr_total state ptr endptr n jmps : 0 <= ptr -> (0 < n)%nat -> endptr = ptr + Z.of_nat n ->
  endptr <= Z.of_nat (length data) -> 2 * Z.of_nat (length jmps) <= ptr ->
  instruction v (v_start v) (take n (drop (Z.to_nat ptr) data)) state ->
  answers (check_instr m v data data_addr install_addr state endptr jmps) (fun jmps' =>
    2 * Z.of_nat (length jmps') <= endptr).
Proof using He Hdata.
  intros H0 Hn0 Hn Hend Hj Hi. unfold check_instr.
  destruct (Z.ltb_spec (v_max_accept v) state) as [Hs|Hs]; [|cbn; lia].
  destruct (jump_offset_total state ptr endptr n) as (o & -> & Ho); [done..|]. cbn [mbind res_bind].
  destruct o as [offset|].
  - specialize (Ho ltac:(done)). apply answers_bind with (P := fun _ => True); [by destruct (_ && _)|].
    intros _ _. destruct (Z.leb_spec (4 * (Z.of_nat (length jmps) + 1)) (2 * (Z.of_nat (length data) + 1))); [|lia].
    cbn. rewrite length_app. cbn. lia.
  - destruct (accepts_mcficall v state); [|cbn; lia]. destruct (negb _); cbn; [done|lia].
Qed.

Lemma verify_loop_total fuel ptr out tary jmps :
  0 <= ptr <= Z.of_nat (length data) -> (Z.to_nat (Z.of_nat (length data) - ptr) < fuel)%nat ->
  length tary = length data -> 2 * Z.of_nat (length jmps) <= ptr -> (ptr = 0 \/ out <> None) -> data <> [] ->
  answers (verify_loop fuel m v data data_addr install_addr ptr out tary jmps) (fun r =>
    length r.1.1 = length data /\ r.2 <> None).
Proof using He Hdata Hv.
  revert ptr out tary jmps. induction fuel as [|fuel IH]; intros ptr out tary jmps Hp Hf Ht Hj Ho Hd; [lia|].
  cbn [verify_loop]. destruct (Z.ltb_spec ptr (Z.of_nat (length data))) as [Hlt|Hge].
  2: { cbn. split; [done|]. destruct Ho as [->|?]; [|done]. destruct data; [done|]. cbn in *. lia. }
  destruct (verify v _ ptr _ out) as [r o] eqn:Hver. destruct (Z.eqb_spec r 0) as [->|]; [|done]. cbn [negb].
  apply verify_found in Hver as [[? _]|(n & state & Hn & -> & Hi)]; [done| |done].
  rewrite length_drop in Hn. unfold store8, store. destruct (Z.leb_spec 0 ptr) as [_|]; [|lia].
  destruct (Nat.ltb_spec (Z.to_nat ptr) (length tary)) as [_|]; [|lia]. cbn [mbind res_bind].
  eapply answers_bind; [apply (check_instr_total state ptr _ n); [lia..|done]|].
  intros jmps' Hj'. cbv beta in Hj'. apply IH; [lia|lia|by rewrite length_insert|lia|by right|done].
Qed.
End total.

(** C31.  On code that is not empty, with an automaton whose direct jumps are
    encoded as in x86-64, the verifier runs to an answer: it accepts the code
    or terminates the process; in particular its loops end and the array of
    jump targets, sized for two bytes a jump, is never overrun. *)
Theorem verify_jitted_code_total m v table data data_addr install_addr chk :
  m_verifier m = Some v -> wf_verifier v -> jumps_encoded v -> bytes_ok data -> data <> [] ->
  0 <= install_addr -> install_addr + Z.of_nat (length data) <= FourGB ->
  (exists tary, verify_jitted_code m table data data_addr (replicate (length data) 0) install_addr chk = Ok tary) \/
  verify_jitted_code m table data data_addr (replicate (length data) 0) install_addr chk = Exit.
Proof.
  intros Hmv Hv He Hok Hd Hi Hs. change FourGB with 4294967296 in Hs.
  assert (Hl : 0 < Z.of_nat (length data)) by (destruct data; [done|cbn; lia]).
  apply (answers_cases _ (fun _ => True)). unfold verify_jitted_code. rewrite Hmv. cbn [deref mbind res_bind].
  eapply answers_bind.
  { apply verify_loop_total; [done|done|done|lia|lia|by rewrite length_replicate|cbn; lia|by left|done]. }
  intros [[tary jmps] [[state e]|]] [Ht Ho]; cbn in Ht, Ho; [|done].
  apply answers_bind with (P := fun _ => True); [by destruct chk, (terminator v state)|]. intros _ _.
  apply answers_bind with (P := fun _ => True); [|done].
  induction jmps as [|j jmps IH]; [done|]. cbn [foldM].
  apply answers_bind with (P := fun _ => True); [|by intros [] _].
  unfold check_target. rewrite u32_small, (u64_small (install_addr + _)) by lia.
  destruct (_ || (_ <=? j)); [done|].
  destruct (Z.ltb_spec j install_addr), (Z.leb_spec (install_addr + Z.of_nat (length data)) j); cbn [orb].
  1-3: by destruct (negb _).
  destruct (load8_in tary (j - install_addr)) as [b ->]; [lia|]. cbn. by destruct (negb _).
Qed.

(** ** An automaton: [nop] (90), [jmp rel1] (eb) and [ret] (c3) *)
Definition sample_dfa (i : Z) : Z :=
  match i / 256, i mod 256 with
  | 4, 0x90 => 1
  | 4, 0xeb => 5
  | 5, _ => 2
  | 4, 0xc3 => 3
  | _, _ => 0
  end.
Definition sample_verifier : verifier :=
  {| dfa := sample_dfa; v_states := 6; v_start := 4; v_dcall := -1; v_icall := -1; v_ijmp := -1;
     v_jmp_rel1 := 2; v_jmp_rel4 := -1; v_jcc_rel1 := -1; v_jcc_rel4 := -1; v_mcficall := -1;
     v_mcficheck := -1; v_mcfiret := -1; v_terminator := 3; v_max_accept := 1 |}.
Definition sample_heap : code_module :=
  alloc_code_module {{ base_addr := 0x10000 }} {{ osb_base_addr := 0x300000000 }} {{ sz := 0x100 }}
    {{ code_heap := true }} {{ m_verifier := Some sample_verifier }} {{ code_data_bitmap := replicate 64 0 }}
    {{ internal_dbt_bitmap := replicate 64 0 }}.

(** [nop; jmp -3; ret]: the jump is to the first instruction. *)
Definition sample_code : list Z := [0x90; 0xeb; 0xfd; 0xc3].

Lemma verify_jitted_code_witness :
  exists l, verified sample_heap sample_verifier (fun _ => 0) sample_code 0x10000 0x10000 l /\
    length [DCV; DCV; 0; DCV] = length sample_code /\ boundary_marks l [DCV; DCV; 0; DCV] /\
    (true = true -> ends_safely sample_verifier l).
Proof.
  apply (verify_jitted_code_sound sample_heap sample_verifier (fun _ => 0) sample_code 0x10000 0x10000 true);
    [done|done|done|done|done|done|done|done|vm_compute; reflexivity].
Defined.

Lemma sample_first_byte b : 0 <= b < 256 -> sample_dfa (u32 (4 * 256 + b)) <> 2.
Proof.
  intros Hb. rewrite u32_small by lia. unfold sample_dfa.
  replace ((4 * 256 + b) / 256) with 4 by div_lia. repeat case_match; lia.
Qed.

Lemma sample_jumps_encoded : jumps_encoded sample_verifier.
Proof.
  intros bytes state Hok [H1 H2 H3 _] Hs. split.
  - intros Hj. destruct bytes as [|b [|b' bytes]]; [done| |cbn; lia]. exfalso.
    apply (sample_first_byte b); [by apply Forall_inv in Hok|]. cbn in H2 |- *. unfold dfa_lookup in H2.
    cbn in H2. rewrite H2.
    cbn in H3. apply orb_true_iff in Hj as [Hj|Hj]; apply Z.eqb_eq in Hj; cbn in Hj; lia.
  - intros Hj. exfalso. cbn in H3.
    apply orb_true_iff in Hj as [[Hj|Hj]%orb_true_iff|Hj]; apply Z.eqb_eq in Hj; cbn in Hj; lia.
Qed.

Lemma verify_jitted_code_total_witness :
  (exists tary, verify_jitted_code sample_heap (fun _ => 0) sample_code 0x10000 (replicate (length sample_code) 0) 0x10000 true = Ok tary) \/
  verify_jitted_code sample_heap (fun _ => 0) sample_code 0x10000 (replicate (length sample_code) 0) 0x10000 true = Exit.
Proof.
  apply (verify_jitted_code_total sample_heap sample_verifier); [done|done|exact sample_jumps_encoded| |done|lia|done].
  repeat constructor; lia.
Defined.
