(* ===== verification/CodeHeap.v ===== *)
(** * Code heaps ([runtime.c], [create_code_heap], [code_heap_fill],
    [delete_code], [move_code])

    A code heap is a region where a just-in-time compiler installs code
    through the runtime, which verifies it.  The code is in [osb] at the
    writable mapping; its boundaries are in [table].  The system calls and
    [malloc] are parameters: [opened] lists what the successive calls of
    [shm_open] answer, a descriptor and [errn], and [malloc n] is where a
    block of [n] bytes is put.  Messages, [cpuid] and allocation failures are
    left out. *)

From S2P Require Import Prelude Utils Pager Table Module CodeBitmap Runtime MemCalls Verifier.

Definition PROT_NONE : Z := 0.
Definition MAP_SHARED : Z := 0x01.
Definition EEXIST : Z := 17.

(** A handle is a pointer to a module. *)
Definition get_code_heap (h : option nat) (rt : runtime) : res (option (nat * code_module)) :=
  match h with
  | None => Ok None   (* [prev_code_module] is NULL, and so is what is returned *)
  | Some i =>
    match modules rt !! i with
    | Some m => if code_heap m then Ok (Some (i, m)) else Exit
    | None => Exit
    end
  end.

(** ** Creation *)
Section create.
Context `{Q : Qsort} (mem : bool).
Variable opened : list (Z * Z).
Variable ftruncate : Z -> Z -> Z.
Variable mmap : Z -> Z -> Z -> Z -> Z -> Z -> Z.

(** The [shm_open] loop: the descriptor. *)
Fixpoint open_shared (opened : list (Z * Z)) : res Z :=
  match opened with
  | [] => NoFuel
  | (fd, errn) :: opened' =>
    if 0 <=? fd then Ok fd
    else if (fd =? -1) && (errn =? EEXIST) then open_shared opened'
    else Exit
  end.

Definition create_parallel_mapping (base size prot : Z) : res Z :=
  fd ← open_shared opened;
  if negb (ftruncate fd size =? 0) then Exit
  else
    _ ← CHECK (size mod PAGE_SIZE =? 0);
    let base := mmap base size prot (Z.lor MAP_SHARED MAP_FIXED) fd 0 in
    if base =? u64 (-1) then Exit
    else
      let osb_base := mmap 0 size PROT_WRITE MAP_SHARED fd 0 in
      if osb_base =? u64 (-1) then Exit else Ok osb_base.

(** A bitmap: zeroed pages. *)
Definition alloc_bitmap (size : Z) : res (list Z) :=
  let p := mmap 0 (RoundToPage (size / 8)) PROT_WRITE (Z.lor MAP_ANONYMOUS MAP_PRIVATE) (-1) 0 in
  if p =? u64 (-1) then Exit else Ok (replicate (Z.to_nat (RoundToPage (size / 8))) 0).

(** The state, the handle stored at [ph] and the address. *)
Definition create_code_heap (ph size : Z) (vf : option verifier) (rt : runtime) : res (runtime * nat * Z) :=
  let m := alloc_code_module in
  match vf with
  | None => Exit
  | Some _ =>
    if (ph =? 0) || (FourGB <? ph) then Exit
    else
      '(vm, base_addr) ← VmmapFindSpace (VM rt) (Z.shiftr size PAGESHIFT);
      if base_addr =? 0 then Exit
      else
        vm ← VmmapAdd mem vm base_addr (Z.shiftr size PAGESHIFT) (Z.lor PROT_READ PROT_EXEC)
               (Z.lor PROT_READ PROT_EXEC) VMMAP_ENTRY_ANONYMOUS;
        let base := u64 (Z.shiftl base_addr PAGESHIFT) in
        osb_base ← create_parallel_mapping base size PROT_NONE;
        cdb ← alloc_bitmap size;
        idb ← alloc_bitmap size;
        let m := m {{ osb_base_addr := osb_base }} {{ Module.base_addr := base }} {{ sz := size }}
                   {{ activated := true }} {{ code_heap := true }} {{ m_verifier := vf }}
                   {{ code_data_bitmap := cdb }} {{ internal_dbt_bitmap := idb }} in
        Ok (rt {{ VM := vm }} {{ modules := modules rt ++ [m] }}, length (modules rt), base)
  end.
End create.

(** ** Filling *)
Definition data (flags : Z) : bool := 0 =? Z.land flags ROCK_CODE.
Definition code (flags : Z) : bool := negb (Z.land flags ROCK_CODE =? 0).

(** [char] is signed, so that the comparison with [DCV] is of an [int]. *)
Definition mark_boundary (t c : Z) : Z := if s8 t =? DCV then DCV else c.

Definition same_internal_boundary (old_tary tary safe_old_code safe_code : list Z) : bool * list Z * list Z :=
  (forallb (fun p : Z * Z => p.1 =? p.2) (zip old_tary tary),
   zip_with mark_boundary old_tary safe_old_code, zip_with mark_boundary tary safe_code).

(** Back to the start of the pseudo-instruction. *)
Fixpoint back_to_boundary (fuel : nat) (base : Z) (table : mem) (dst len : Z) : res (Z * Z) :=
  match fuel with
  | O => NoFuel
  | S fuel' =>
    if (base <=? dst) && negb (table dst =? DCV) then back_to_boundary fuel' base table (u64 (dst - 1)) (len + 1)
    else Ok (dst, len)
  end.

(** A store of data, by its size. *)
Definition store_data (osb : mem) (p : Z) (src : list Z) : mem :=
  match src with
  | [b] => write8 osb p b
  | [b0; b1; b2; b3] => write32 osb p (b0 + 256 * (b1 + 256 * (b2 + 256 * b3)))
  | [b0; b1; b2; b3; b4; b5; b6; b7] =>
    write64 osb p (b0 + 256 * (b1 + 256 * (b2 + 256 * (b3 + 256 * (b4 + 256 * (b5 + 256 * (b6 + 256 * b7)))))))
  | _ => put_bytes osb p src
  end.

(** The two ways a patch with the boundaries of the old code is written: one
    word, or first with the safe bytes and then for good. *)
Definition write_patch (osb : mem) (p : Z) (code safe_code : list Z) : mem :=
  let len := Z.of_nat (length code) in
  let p_align := Z.ldiff p 7 in
  if u64 (p + len) <=? u64 (p_align + 8) then
    put_bytes osb p_align
      (let v := bytes_at osb p_align 8 in
       let o := Z.to_nat (p - p_align) in
       take o v ++ code ++ drop (o + length code) v)
  else put_bytes (put_bytes osb p safe_code) p code.

Section fill.
Variable malloc : Z -> Z.

(** [ROCK_VERIFY]: the code is in place. *)
Definition fill_verify (i : nat) (m : code_module) (dst len : Z) (rt : runtime) : res runtime :=
  let p := u64 (dst - base_addr m + osb_base_addr m) in
  _ ← CHECK (Z.land dst 7 =? 0);
  tary ← verify_jitted_code m (table rt) (bytes_at (osb rt) p (Z.to_nat len)) dst
           (replicate (Z.to_nat len) 0) dst true;
  cdb ← set_code (code_data_bitmap m) (u64 (dst - base_addr m)) len;
  Ok (set_module i (m {{ code_data_bitmap := cdb }}) (rt {{ table := put_bytes (table rt) dst tary }})).

(** [ROCK_REPLACE]: a patch of code. *)
Definition fill_replace (i : nat) (m : code_module) (dst : Z) (src : list Z) (area : Z) (rt : runtime)
    : res runtime :=
  let len := Z.of_nat (length src) in
  let p := u64 (dst - base_addr m + osb_base_addr m) in
  if negb (ROCK_CODE =? area) then Ok rt
  else if negb (table rt dst =? DCV) then Exit
  else
    let code := malloc (u64 (len * 3)) in
    area ← which_area (code_data_bitmap m) (u64 (dst - base_addr m + len)) 1;
    tary ← verify_jitted_code m (table rt) src code (replicate (length src) 0) dst (negb (ROCK_CODE =? area));
    let '(same, code, safe_code) :=
      same_internal_boundary (bytes_at (table rt) dst (length src)) tary src src in
    if (same : bool) then Ok (rt {{ osb := write_patch (osb rt) p code safe_code }})
    else
      let t := mem_set (table rt) dst 0 len in
      _ ← which_area (internal_dbt_bitmap m) (u64 (dst - base_addr m + 1)) len;
      let o := put_bytes (osb rt) (p + 1) (tail code) in
      let t := put_bytes t dst tary in
      Ok (rt {{ table := t }} {{ osb := write8 o p (hd 0 code) }}).

(** The code is translated with one level of recursion as fuel: the
    recursive call is in code mode, which does not recurse. *)
Fixpoint code_heap_fill_rec (fuel : nat) (h : option nat) (dst : Z) (src : list Z) (flags : Z) (rt : runtime)
    : res runtime :=
  match fuel with
  | O => NoFuel
  | S fuel' =>
    '(i, m) ← (r ← get_code_heap h rt; deref (Some r));
    let len := Z.of_nat (length src) in
    if (FourGB <=? len) || (dst <? base_addr m) || (u64 (base_addr m + sz m) <? u64 (dst + len)) then Exit
    else
      let p := u64 (dst - base_addr m + osb_base_addr m) in
      area ← which_area (code_data_bitmap m) (u64 (dst - base_addr m)) len;
      if data flags then
        if ROCK_INVALID =? area then Exit
        else if ROCK_CODE =? area then
          '(dst', len') ← back_to_boundary (Z.to_nat (dst - base_addr m) + 2) (base_addr m) (table rt) dst len;
          let p' := u64 (dst' - base_addr m + osb_base_addr m) in
          let src_code := bytes_at (osb rt) p' (Z.to_nat (len' - len)) ++ src in
          code_heap_fill_rec fuel' h dst' src_code (Z.lor ROCK_CODE ROCK_REPLACE) rt
        else Ok (rt {{ osb := store_data (osb rt) p src }})
      else
        '(rt, flags) ←
          (if has flags ROCK_COPY then
             _ ← CHECK (ROCK_DATA =? area);
             Ok (rt {{ osb := put_bytes (osb rt) p src }}, Z.ldiff (Z.lor flags ROCK_VERIFY) ROCK_REPLACE)
           else Ok (rt, flags));
        '(rt, flags) ←
          (if has flags ROCK_VERIFY then
             rt ← fill_verify i m dst len rt;
             Ok (rt, Z.ldiff flags ROCK_REPLACE)
           else Ok (rt, flags));
        if has flags ROCK_REPLACE then fill_replace i m dst src area rt else Ok rt
  end.

Definition code_heap_fill (h : option nat) (dst : Z) (src : list Z) (extra : Z) (rt : runtime) : res runtime :=
  code_heap_fill_rec 2 h dst src extra rt.
End fill.

(** ** Deleting and moving *)
(** [p[i] = 0] for the words of the range. *)
Definition clear_words (t : mem) (a n : Z) : mem := foldl (fun t i => write64 t (a + 8 * i) 0) t (seqZ 0 n).

Definition delete_code (h : option nat) (addr len : Z) (rt : runtime) : res runtime :=
  '(i, m) ← (r ← get_code_heap h rt; deref (Some r));
  if (FourGB <=? len) || (addr <? base_addr m) || (u64 (base_addr m + sz m) <? u64 (addr + len)) then Exit
  else
    before ← (if base_addr m <? addr
              then a ← which_area (code_data_bitmap m) (addr - base_addr m - 1) 2; Ok (ROCK_CODE =? a)
              else Ok false);
    after ← (if (before : bool) then Ok true
             else if u64 (addr + len) <? u64 (base_addr m + sz m)
             then a ← which_area (code_data_bitmap m) (u64 (addr + len - 1)) 2; Ok (ROCK_CODE =? a)
             else Ok false);
    if (after : bool) then Exit
    else
      cdb ← set_data (code_data_bitmap m) (addr - base_addr m) len;
      let addr := Z.ldiff addr 7 in
      let len := Z.ldiff (u64 (len + 7)) 7 in
      Ok (set_module i (m {{ code_data_bitmap := cdb }}) (rt {{ table := clear_words (table rt) addr (len / 8) }})).

(** One word of the table moves, unless it is 0. *)
Definition move_word (target source : Z) (t : mem) (i : Z) : mem :=
  let tmp := read64 t (source + 8 * i) in
  if negb (tmp =? 0) then write64 (write64 t (source + 8 * i) 0) (target + 8 * i) tmp else t.

Definition move_code (h : option nat) (target source len : Z) (rt : runtime) : res runtime :=
  '(i, m) ← (r ← get_code_heap h rt; deref (Some r));
  let stop := u64 (base_addr m + sz m) in
  if (FourGB <=? len) || (target <? base_addr m) || (stop <? u64 (target + len)) || negb (Z.land target 7 =? 0)
  then Exit
  else if (source <? base_addr m) || (stop <? u64 (source + len)) then Exit
  else
    area ← which_area (code_data_bitmap m) (source - base_addr m) len;
    if negb (ROCK_CODE =? area) then Exit
    else
      before ← (if base_addr m <? source
                then a ← which_area (code_data_bitmap m) (source - base_addr m - 1) 1; Ok (ROCK_CODE =? a)
                else Ok false);
      after ← (if (before : bool) then Ok true
               else if u64 (source + len) <? stop
               then a ← which_area (code_data_bitmap m) (u64 (source + len)) 1; Ok (ROCK_CODE =? a)
               else Ok false);
      if (after : bool) then Exit
      else
        area ← which_area (code_data_bitmap m) (target - base_addr m) len;
        if negb (ROCK_DATA =? area) then Exit
        else
          cdb ← set_data (code_data_bitmap m) (source - base_addr m) len;
          cdb ← set_code cdb (target - base_addr m) len;
          let target := Z.ldiff target 7 in
          let source := Z.ldiff source 7 in
          let len := Z.ldiff (u64 (len + 7)) 7 in
          Ok (set_module i (m {{ code_data_bitmap := cdb }})
                (rt {{ table := foldl (move_word target source) (table rt) (seqZ 0 (len / 8)) }})).
