(* ===== verification/CodeHeapFacts.v ===== *)
(** * What filling a code heap installs

    Whatever a call of [code_heap_fill] writes is either data, in a data area
    if it is short, or code that has passed the verifier, whose boundaries the
    table then records; longer data may overwrite code
    ([code_heap_fill_overwrites_code]). *)

From S2P Require Import Prelude Utils Smoothsort SmoothsortSpec Pager PagerFacts PagerSpec Table Module CodeBitmap Runtime Threads MemCalls MemFacts Verifier CodeHeap Patch.

(** A code heap as [create_code_heap] makes it: in the sandbox, with a
    writable mapping, both 8-byte aligned, a bitmap that covers it and a
    verifier. *)
Record heap_ok (m : code_module) (v : verifier) : Prop := {
  hok_in : in_sandbox m;
  hok_pos : 0 < base_addr m;
  hok_aligned : base_addr m mod 8 = 0;
  hok_osb : 0 <= osb_base_addr m /\ osb_base_addr m + sz m + 8 < 2 ^ 64;
  hok_bitmap : sz m <= 8 * Z.of_nat (length (code_data_bitmap m));
  hok_verifier : m_verifier m = Some v;
  hok_wf : wf_verifier v;
}.

(** The writable address of a place of the heap. *)
Definition shadow (m : code_module) (dst : Z) : Z := dst - base_addr m + osb_base_addr m.

Lemma shadow_u64 m v dst : heap_ok m v -> base_addr m <= dst <= base_addr m + sz m ->
  u64 (dst - base_addr m + osb_base_addr m) = shadow m dst.
Proof. intros [(? & ? & ?) _ _ ? _ _ _] Hd. unfold shadow. rewrite u64_small; lia. Qed.

Inductive fill_outcome (m : code_module) (v : verifier) (i : nat) (dst : Z) (src : list Z) (rt rt' : runtime)
    : Prop :=
  | fill_nothing : rt' = rt -> fill_outcome m v i dst src rt rt'
  | fill_data o :
      (* no byte overwritten is code, if the data are short *)
      (Z.of_nat (length src) < 128 -> all_bytes false m dst (Z.of_nat (length src))) ->
      rt' = rt {{ osb := o }} ->
      (forall x, o x = put_bytes (osb rt) (shadow m dst) src x) ->
      fill_outcome m v i dst src rt rt'
  | fill_code o t m' dst' new data_addr tary l :
      (* the code written ends where the call says, and may start before *)
      base_addr m <= dst' <= dst ->
      (new = bytes_at (osb rt) (shadow m dst') (Z.to_nat (dst - dst')) ++ src \/
       dst' = dst /\ new = bytes_at (osb rt) (shadow m dst) (length src)) ->
      rt' = rt {{ osb := o }} {{ table := t }} {{ modules := <[i := m']> (modules rt) }} ->
      (forall x, o x = put_bytes (osb rt) (shadow m dst') new x) ->
      (* it has been verified, and the table records its boundaries *)
      verified m v (table rt) new data_addr dst' l ->
      (ends_safely v l \/ all_bytes true m (dst + Z.of_nat (length src)) 1) ->
      length tary = length new -> boundary_marks l tary ->
      (forall x, t x = put_bytes (table rt) dst' tary x) ->
      (* and the bitmap that it is code *)
      (m' = m /\ (Z.of_nat (length new) < 128 -> all_bytes true m dst' (Z.of_nat (length new))) \/
       exists cdb, m' = m {{ code_data_bitmap := cdb }} /\ bytes_ok cdb /\
         marks true (code_data_bitmap m) cdb (in_range (dst' - base_addr m) (Z.of_nat (length new)))) ->
      fill_outcome m v i dst src rt rt'.

(** ** The byte after the code *)
Lemma count_bits_past bmp base len : 0 < len -> 0 <= base -> base + len < 2 ^ 64 ->
  8 * Z.of_nat (length bmp) <= base -> count_bits bmp base len = Fault.
Proof.
  intros Hl Hb Hw Hp. unfold count_bits. rewrite bytes_from_fits by lia. rewrite seqZ_cons by lia. cbn [foldM].
  unfold load8, fetch. rewrite lookup_ge_None_2 by div_lia. by destruct (0 <=? base / 8).
Qed.

Lemma which_area_next m a : 0 <= a - base_addr m -> a - base_addr m + 1 < 2 ^ 64 -> bytes_ok (code_data_bitmap m) ->
  which_area (code_data_bitmap m) (a - base_addr m) 1 = Ok ROCK_CODE -> all_bytes true m a 1.
Proof.
  intros Ha Hw Hb H. destruct (decide (8 * Z.of_nat (length (code_data_bitmap m)) <= a - base_addr m)) as [Hp|Hp].
  { unfold which_area in H. cbn [Z.ltb Z.compare Pos.compare Pos.compare_cont] in H. by rewrite count_bits_past in H by lia. }
  destruct (which_area_short m a 1 ROCK_CODE) as [_ Hc]; [lia|done|done|done|lia|done|by apply Hc].
Qed.

(** The bytes of the bitmap stay bytes. *)
Lemma store8_bytes bmp a x bmp' : bytes_ok bmp -> store8 bmp a x = Ok bmp' -> bytes_ok bmp'.
Proof.
  intros Hb. unfold store8, store. destruct (0 <=? a); [|done]. case_match; [|done]. intros [= <-].
  apply Forall_insert; [done|]. unfold u8, wrap. apply Z.mod_pos_bound. done.
Qed.

Lemma set_code_bytes bmp base len bmp' : bytes_ok bmp -> set_code bmp base len = Ok bmp' -> bytes_ok bmp'.
Proof.
  assert (Hu : forall b i f b', bytes_ok b -> update_byte b i f = Ok b' -> bytes_ok b').
  { intros b i f b' Hb H. unfold update_byte in H. apply bind_Ok_inv in H as (x & _ & H). by apply store8_bytes in H. }
  intros Hb. unfold set_code. destruct (len <? 16).
  { intros H. apply (foldM_invariant bytes_ok) in H; [done| |done]. intros b i b' _ Hb'. by apply Hu. }
  intros ([[b1 n] a] & H1 & H)%bind_Ok_inv. apply bind_Ok_inv in H as (b2 & H2 & H).
  assert (Hb1 : bytes_ok b1).
  { destruct (negb (Z.land base 7 =? 0)); [|by injection H1 as <- _ _]. apply bind_Ok_inv in H1 as (b' & H1 & [= <- _ _]). by apply Hu in H1. }
  assert (Hb2 : bytes_ok b2) by (destruct (negb (Z.land n 7 =? 0)); [by apply Hu in H2|by injection H2 as <-]).
  apply (foldM_invariant bytes_ok) in H; [done| |done]. intros b i b' _ Hb'. by apply store8_bytes.
Qed.

(** ** Writing a patch *)
(** No signed byte is [DCV]: nothing is ever marked. *)
Lemma same_internal_boundary_marks_nothing old_tary tary c1 c2 :
  length c1 = length old_tary -> length c2 = length tary ->
  exists b, same_internal_boundary old_tary tary c1 c2 = (b, c1, c2).
Proof.
  intros H1 H2. eexists. unfold same_internal_boundary. f_equal; [f_equal|].
  - revert c1 H1. induction old_tary as [|t l IH]; intros [|c c1] H1; try done. cbn.
    rewrite IH by (cbn in H1; lia). f_equal. unfold mark_boundary, s8, swrap.
    destruct (Z.eqb_spec ((t + 2 ^ (8 - 1)) mod 2 ^ 8 - 2 ^ (8 - 1)) DCV) as [E|]; [|done].
    exfalso. unfold DCV in E. change (2 ^ (8 - 1)) with 128 in E. change (2 ^ 8) with 256 in E. div_lia.
  - revert c2 H2. induction tary as [|t l IH]; intros [|c c2] H2; try done. cbn.
    rewrite IH by (cbn in H2; lia). f_equal. unfold mark_boundary, s8, swrap.
    destruct (Z.eqb_spec ((t + 2 ^ (8 - 1)) mod 2 ^ 8 - 2 ^ (8 - 1)) DCV) as [E|]; [|done].
    exfalso. unfold DCV in E. change (2 ^ (8 - 1)) with 128 in E. change (2 ^ 8) with 256 in E. div_lia.
Qed.

Lemma put_bytes_twice m a l1 l2 x : length l1 = length l2 ->
  put_bytes (put_bytes m a l1) a l2 x = put_bytes m a l2 x.
Proof.
  intros Hl. unfold put_bytes. destruct (Z.leb_spec a x); [|done].
  destruct (l2 !! Z.to_nat (x - a)) as [b|] eqn:H2; [done|].
  apply lookup_ge_None in H2. by rewrite (lookup_ge_None_2 l1) by lia.
Qed.

(** Writing a piece of a block inside the word around it. *)
Lemma put_bytes_word m a l (o n : nat) x : (o + length l <= n)%nat ->
  put_bytes m a (take o (bytes_at m a n) ++ l ++ drop (o + length l) (bytes_at m a n)) x =
  put_bytes m (a + Z.of_nat o) l x.
Proof.
  intros Ho. set (w := take o _ ++ _).
  assert (Hlo : length (take o (bytes_at m a n)) = o) by (rewrite length_take, length_bytes_at; lia).
  unfold put_bytes. destruct (Z.leb_spec a x) as [Ha|Ha].
  2: { destruct (Z.leb_spec (a + Z.of_nat o) x); [lia|done]. }
  set (k := Z.to_nat (x - a)). destruct (Z.leb_spec (a + Z.of_nat o) x) as [Hx|Hx].
  - subst w. rewrite lookup_app_r by (rewrite Hlo; lia). rewrite Hlo.
    replace (Z.to_nat (x - (a + Z.of_nat o))) with (k - o)%nat by lia.
    destruct (decide (k - o < length l)%nat) as [Hk|Hk].
    + by rewrite lookup_app_l.
    + rewrite lookup_app_r by lia. rewrite (lookup_ge_None_2 l) by lia. rewrite lookup_drop. cbn.
      destruct (decide (k < n)%nat) as [Hn|Hn].
      * rewrite bytes_at_lookup by lia. cbn. f_equal. lia.
      * rewrite lookup_ge_None_2; [done|]. rewrite length_bytes_at. lia.
  - subst w. rewrite lookup_app_l by (rewrite Hlo; lia). rewrite lookup_take_lt by lia.
    rewrite bytes_at_lookup by lia. cbn. f_equal. lia.
Qed.

Lemma write_patch_put osb p new safe x : 0 <= p -> p + Z.of_nat (length new) + 8 < 2 ^ 64 ->
  length safe = length new -> write_patch osb p new safe x = put_bytes osb p new x.
Proof.
  intros Hp Hend Hs. unfold write_patch. cbv zeta.
  assert (Hal : p - 7 <= Z.ldiff p 7 <= p /\ 0 <= Z.ldiff p 7).
  { change 7 with (Z.ones 3) at 2 3 4. rewrite Z.ldiff_ones_r, Z.shiftl_mul_pow2, Z.shiftr_div_pow2 by lia.
    change (2 ^ 3) with 8. div_lia. }
  set (a := Z.ldiff p 7) in *. clearbody a.
  rewrite (u64_small (p + _)), (u64_small (a + 8)) by lia.
  destruct (Z.leb_spec (p + Z.of_nat (length new)) (a + 8)) as [Hle|Hgt].
  - rewrite put_bytes_word by lia. f_equal. lia.
  - by apply put_bytes_twice.
Qed.

(** ** One fill *)
(** Overwriting a block with what it holds. *)
Lemma put_bytes_same m a n x : put_bytes m a (bytes_at m a n) x = m x.
Proof.
  unfold put_bytes. destruct (Z.leb_spec a x); [|done].
  destruct (decide (Z.to_nat (x - a) < n)%nat).
  - rewrite bytes_at_lookup by done. cbn. f_equal. lia.
  - rewrite lookup_ge_None_2; [done|]. rewrite length_bytes_at. lia.
Qed.

Lemma bytes_at_ext m m' a n : (forall x, m x = m' x) -> bytes_at m a n = bytes_at m' a n.
Proof. intros H. unfold bytes_at. apply list_fmap_ext. intros ???. apply H. Qed.

Lemma forallb_zip_eq (l1 l2 : list Z) : length l1 = length l2 ->
  forallb (fun p : Z * Z => p.1 =? p.2) (zip l1 l2) = true -> l1 = l2.
Proof.
  revert l2. induction l1 as [|a l1 IH]; intros [|b l2] Hl; try done. cbn.
  intros [Hab%Z.eqb_eq H]%andb_true_iff. f_equal; [done|]. apply IH; [cbn in Hl; lia|done].
Qed.

Lemma length_pos {A} (l : list A) : l <> [] -> 0 < Z.of_nat (length l).
Proof. destruct l; [done|cbn; lia]. Qed.

Section fill.
Context (malloc : Z -> Z).
Hypothesis Hmalloc : forall n, 0 <= n <= 3 * FourGB -> 0 <= malloc n /\ malloc n + n < 2 ^ 64.
Context (i : nat) (m : code_module) (v : verifier) (Hok : heap_ok m v) (Hbmp : bytes_ok (code_data_bitmap m)).
Context (dst : Z) (src : list Z) (rt : runtime).
Hypothesis Hne : src <> [].
Hypothesis Hbytes : bytes_ok src.
Hypothesis Hlo : base_addr m <= dst.
Hypothesis Hhi : dst + Z.of_nat (length src) <= base_addr m + sz m.
Hypothesis Hi : modules rt !! i = Some m.

(** Verifying what is in place, after [ROCK_COPY] or not. *)
Lemma fill_verify_outcome o0 rt0 rt' :
  rt0 = rt {{ osb := o0 }} ->
  (forall x, o0 x = put_bytes (osb rt) (shadow m dst) src x) \/ o0 = osb rt ->
  fill_verify i m dst (Z.of_nat (length src)) rt0 = Ok rt' ->
  fill_outcome m v i dst src rt rt'.
Proof using Hok Hbmp Hne Hlo Hhi Hbytes.
  intros -> Ho. pose proof (length_pos src Hne) as Hpos. pose proof Hok as [(Hb0 & Hs0 & Hend) Hpos0 Hal Hosb Hbm Hv Hwf].
  change FourGB with 4294967296 in Hend.
  unfold fill_verify. rewrite (shadow_u64 m v) by (done || lia). change (table (rt {{ osb := o0 }})) with (table rt).
  change (osb (rt {{ osb := o0 }})) with o0. rewrite Nat2Z.id.
  intros H. apply bind_Ok_inv in H as ([] & Hd8 & H). apply CHECK_Ok, Z.eqb_eq in Hd8.
  apply bind_Ok_inv in H as (tary & Hver & H). apply bind_Ok_inv in H as (cdb & Hset & H). injection H as <-.
  set (new := bytes_at o0 (shadow m dst) (length src)) in *.
  assert (Hlen : length new = length src) by apply length_bytes_at. rewrite <- Hlen in Hver.
  apply (verify_jitted_code_spec m v) in Hver as (l & Hl & Htl & Hbd & Hterm); [|done|done|done|..].
  2-6: change FourGB with 4294967296; rewrite ?Hlen; lia.
  assert (E7 : Z.land (dst - base_addr m) 7 = 0).
  { change 7 with (Z.ones 3) in *. rewrite Z.land_ones in * by lia. change (2 ^ 3) with 8 in *. div_lia. }
  rewrite u64_small in Hset by lia.
  destruct (set_code_marks (code_data_bitmap m) (dst - base_addr m) (Z.of_nat (length src))) as (cdb' & Hset' & Hm).
  { split_and!; lia. }
  { by right. }
  rewrite Hset in Hset'. injection Hset' as <-.
  apply (fill_code _ _ _ _ _ _ _ o0 (put_bytes (table rt) dst tary) (m {{ code_data_bitmap := cdb }}) dst new dst tary l).
  - lia.
  - destruct Ho as [Ho| ->]; [left|by right]. rewrite Z.sub_diag. cbn. subst new.
    rewrite (bytes_at_ext _ _ _ _ Ho). by apply bytes_at_put.
  - done.
  - intros x. destruct Ho as [Ho| ->].
    + rewrite Ho. subst new. by rewrite (bytes_at_ext _ _ _ _ Ho), bytes_at_put.
    + subst new. by rewrite put_bytes_same.
  - done.
  - left. by apply Hterm.
  - done.
  - done.
  - done.
  - right. exists cdb. rewrite Hlen. split; [done|]. split; [by apply set_code_bytes in Hset|done].
Qed.

(** A patch, of code that starts before [dst0], or at it. *)
Lemma fill_replace_outcome dst0 src0 rt' area :
  dst <= dst0 -> dst0 + Z.of_nat (length src0) = dst + Z.of_nat (length src) ->
  src = bytes_at (osb rt) (shadow m dst) (Z.to_nat (dst0 - dst)) ++ src0 ->
  which_area (code_data_bitmap m) (dst - base_addr m) (Z.of_nat (length src)) = Ok area ->
  fill_replace malloc i m dst src area rt = Ok rt' ->
  fill_outcome m v i dst0 src0 rt rt'.
Proof using Hmalloc Hok Hbmp Hne Hlo Hhi Hi Hbytes.
  intros Hd Hend0 Hsrc Harea. pose proof (length_pos src Hne) as Hpos. pose proof Hok as [(Hb0 & Hs0 & Hend) Hpos0 Hal Hosb Hbm Hv Hwf].
  change FourGB with 4294967296 in Hend.
  unfold fill_replace. rewrite (shadow_u64 m v) by (done || lia).
  destruct (Z.eqb_spec ROCK_CODE area) as [<-|]; cbn [negb]; [|intros [= <-]; by apply fill_nothing].
  destruct (Z.eqb_spec (table rt dst) DCV) as [Hdcv|]; cbn [negb]; [|done].
  cbv zeta. rewrite (u64_small (dst - base_addr m + Z.of_nat (length src))) by lia. rewrite (u64_small (Z.of_nat (length src) * 3)) by lia.
  destruct (Hmalloc (Z.of_nat (length src) * 3)) as [Hc0 Hc1]; [change FourGB with 4294967296; lia|].
  intros H. apply bind_Ok_inv in H as (after & Hafter & H). apply bind_Ok_inv in H as (tary & Hver & H).
  apply (verify_jitted_code_spec m v) in Hver as (l & Hl & Htl & Hbd & Hterm); [|done|done|done|..].
  2-6: change FourGB with 4294967296; lia.
  set (old := bytes_at (table rt) dst (length src)) in *.
  assert (Hold : length old = length src) by apply length_bytes_at.
  assert (Hsame : exists b, same_internal_boundary old tary src src = (b, src, src) /\ (b = true -> old = tary)).
  { destruct (same_internal_boundary_marks_nothing old tary src src) as [b Hb]; [lia|lia|].
    exists b. split; [done|]. unfold same_internal_boundary in Hb. injection Hb as Hb _ _. intros ->.
    apply forallb_zip_eq; [lia|done]. }
  destruct Hsame as (b & Hsib & Hb). rewrite Hsib in H.
  assert (Hdone : forall o t, rt' = rt {{ osb := o }} {{ table := t }} ->
    (forall x, o x = put_bytes (osb rt) (shadow m dst) src x) ->
    (forall x, t x = put_bytes (table rt) dst tary x) -> fill_outcome m v i dst0 src0 rt rt').
  { intros o t Hrt Ho Ht.
    apply (fill_code _ _ _ _ _ _ _ o t m dst src (malloc (Z.of_nat (length src) * 3)) tary l); try done.
    - by left.
    - rewrite Hrt, list_insert_id by done. by destruct rt.
    - destruct (Z.eqb_spec ROCK_CODE after) as [<-|]; [right|left; by apply Hterm].
      rewrite Hend0. apply which_area_next; [lia|lia|done|].
      by replace (dst + Z.of_nat (length src) - base_addr m) with (dst - base_addr m + Z.of_nat (length src)) by lia.
    - left. split; [done|]. intros Hshort. destruct (which_area_short m dst (Z.of_nat (length src)) ROCK_CODE) as [_ Hc];
        [lia..|done|lia|done|by apply Hc]. }
  destruct b.
  - injection H as <-. apply (Hdone (write_patch (osb rt) (shadow m dst) src src) (table rt)).
    + by destruct rt.
    + intros x. apply write_patch_put; [unfold shadow; lia|unfold shadow; lia|done].
    + intros x. rewrite <- (Hb eq_refl). subst old. by rewrite put_bytes_same.
  - apply bind_Ok_inv in H as (x0 & _ & H). injection H as <-. eapply Hdone; [by destruct rt| |].
    + intros x. destruct src as [|b0 l0] eqn:Es; [done|]. cbn [tail hd].
      unfold write8. destruct (Z.eqb_spec x (shadow m dst)) as [->|Hx].
      * unfold put_bytes. rewrite Z.leb_refl, Z.sub_diag. cbn. apply Forall_inv in Hbytes. by apply u8_small.
      * unfold put_bytes. destruct (Z.leb_spec (shadow m dst) x); destruct (Z.leb_spec (shadow m dst + 1) x); try done; try lia.
        replace (Z.to_nat (x - shadow m dst)) with (S (Z.to_nat (x - (shadow m dst + 1)))) by lia. done.
    + intros x. unfold put_bytes, mem_set. destruct (Z.leb_spec dst x); [|done].
      destruct (tary !! Z.to_nat (x - dst)) as [b|] eqn:Hx; [done|]. apply lookup_ge_None in Hx.
      cbn. destruct (Z.ltb_spec x (dst + Z.of_nat (length src))); [lia|done].
Qed.
End fill.

(** ** Flags *)
Lemma has_bit f k : 0 <= k -> has f (2 ^ k) = Z.testbit f k.
Proof.
  intros Hk. unfold has. rewrite <- Z.shiftl_1_l, land_bit by done. apply negb_involutive.
Qed.

Lemma has_dropped f : has (Z.ldiff f ROCK_REPLACE) ROCK_REPLACE = false.
Proof. change ROCK_REPLACE with (2 ^ 4). by rewrite has_bit, Z.ldiff_spec, Z.pow2_bits_true, andb_false_r. Qed.

Lemma has_verify f : has (Z.ldiff (Z.lor f ROCK_VERIFY) ROCK_REPLACE) ROCK_VERIFY = true.
Proof.
  change ROCK_REPLACE with (2 ^ 4). change ROCK_VERIFY with (2 ^ 2).
  rewrite has_bit, Z.ldiff_spec, Z.lor_spec by lia. rewrite Z.pow2_bits_true, Z.pow2_bits_false by lia.
  by rewrite orb_true_r.
Qed.

(** ** Stores of data *)
Lemma write_bytes_put l m a x : bytes_ok l -> write_le (length l) m a (le_word l) x = put_bytes m a l x.
Proof.
  intros Hl. destruct (decide (a <= x < a + Z.of_nat (length l))) as [Hx|Hx].
  - destruct (lookup_lt_is_Some_2 l (Z.to_nat (x - a))) as [b Hb]; [lia|].
    replace x with (a + Z.of_nat (Z.to_nat (x - a))) by lia. rewrite (put_bytes_in _ _ _ _ b) by done.
    apply write_le_bytes; [|done]. intros b' Hb'. by eapply Forall_forall in Hl.
  - rewrite put_bytes_out by lia. apply write_le_out. lia.
Qed.

Lemma store_data_put m a l x : bytes_ok l -> store_data m a l x = put_bytes m a l x.
Proof.
  intros Hl. unfold store_data. repeat case_match; subst; try done.
  - rewrite <- write_bytes_put by done. cbn. by rewrite Z.mul_0_r, Z.add_0_r.
  - rewrite <- write_bytes_put by done. unfold write32, le_word. cbn [foldr length]. by rewrite Z.mul_0_r, Z.add_0_r.
  - rewrite <- write_bytes_put by done. unfold write64, le_word. cbn [foldr length]. by rewrite Z.mul_0_r, Z.add_0_r.
Qed.

(** ** The start of the pseudo-instruction *)
Lemma back_to_boundary_spec fuel base table dst len dst' len' :
  0 < base -> base <= dst + 1 -> dst < 2 ^ 64 ->
  back_to_boundary fuel base table dst len = Ok (dst', len') ->
  base <= dst' + 1 /\ dst' <= dst /\ len' = len + (dst - dst').
Proof.
  intros Hb. revert dst len. induction fuel as [|fuel IH]; intros dst len Hd H64; cbn [back_to_boundary]; [done|].
  destruct (Z.leb_spec base dst) as [Hle|]; cbn [andb]; [|intros [= <- <-]; lia].
  destruct (negb _); [|intros [= <- <-]; lia].
  rewrite u64_small by lia. intros H. apply IH in H; lia.
Qed.

(** ** The whole call *)
Section call.
Context (malloc : Z -> Z).
Hypothesis Hmalloc : forall n, 0 <= n <= 3 * FourGB -> 0 <= malloc n /\ malloc n + n < 2 ^ 64.
Context (i : nat) (m : code_module) (v : verifier) (Hok : heap_ok m v) (rt : runtime).
Hypothesis Hbmp : bytes_ok (code_data_bitmap m).
Hypothesis Hi : modules rt !! i = Some m.
Hypothesis Hheap : code_heap m = true.

(** The tests that open every call. *)
Lemma fill_rec_opens fuel dst src flags rt' : 0 <= dst -> dst + Z.of_nat (length src) < 2 ^ 64 ->
  code_heap_fill_rec malloc (S fuel) (Some i) dst src flags rt = Ok rt' ->
  base_addr m <= dst /\ dst + Z.of_nat (length src) <= base_addr m + sz m /\
  exists area, which_area (code_data_bitmap m) (dst - base_addr m) (Z.of_nat (length src)) = Ok area.
Proof using Hok Hi Hheap.
  intros Hd Hw. pose proof Hok as [(Hb0 & Hs0 & Hend) _ _ _ _ _ _]. change FourGB with 4294967296 in Hend.
  cbn [code_heap_fill_rec get_code_heap]. rewrite Hi, Hheap. cbn [mbind res_bind deref].
  rewrite (u64_small (base_addr m + sz m)), (u64_small (dst + _)) by lia.
  destruct (Z.leb_spec FourGB (Z.of_nat (length src))); [done|].
  destruct (Z.ltb_spec dst (base_addr m)); [done|].
  destruct (Z.ltb_spec (base_addr m + sz m) (dst + Z.of_nat (length src))); [done|]. cbn [orb].
  intros H2. apply bind_Ok_inv in H2 as (area & Ha & _). rewrite u64_small in Ha by lia. eauto.
Qed.

(** What the call does once the tests pass. *)
Lemma fill_rec_unfold fuel dst src flags area : base_addr m <= dst ->
  dst + Z.of_nat (length src) <= base_addr m + sz m -> Z.of_nat (length src) < FourGB ->
  which_area (code_data_bitmap m) (dst - base_addr m) (Z.of_nat (length src)) = Ok area ->
  code_heap_fill_rec malloc (S fuel) (Some i) dst src flags rt =
  if data flags then
    if ROCK_INVALID =? area then Exit
    else if ROCK_CODE =? area then
      '(dst', len') ← back_to_boundary (Z.to_nat (dst - base_addr m) + 2) (base_addr m) (table rt) dst
                        (Z.of_nat (length src));
      code_heap_fill_rec malloc fuel (Some i) dst'
        (bytes_at (osb rt) (u64 (dst' - base_addr m + osb_base_addr m)) (Z.to_nat (len' - Z.of_nat (length src))) ++ src)
        (Z.lor ROCK_CODE ROCK_REPLACE) rt
    else Ok (rt {{ osb := store_data (osb rt) (shadow m dst) src }})
  else
    '(rt, flags) ←
      (if has flags ROCK_COPY then
         _ ← CHECK (ROCK_DATA =? area);
         Ok (rt {{ osb := put_bytes (osb rt) (shadow m dst) src }}, Z.ldiff (Z.lor flags ROCK_VERIFY) ROCK_REPLACE)
       else Ok (rt, flags));
    '(rt, flags) ←
      (if has flags ROCK_VERIFY then
         rt ← fill_verify i m dst (Z.of_nat (length src)) rt;
         Ok (rt, Z.ldiff flags ROCK_REPLACE)
       else Ok (rt, flags));
    if has flags ROCK_REPLACE then fill_replace malloc i m dst src area rt else Ok rt.
Proof using Hok Hi Hheap.
  intros Hlo Hhi Hlen Ha. pose proof Hok as [(Hb0 & Hs0 & Hend) Hpos _ Hosb _ _ _].
  change FourGB with 4294967296 in *.
  cbn [code_heap_fill_rec get_code_heap]. rewrite Hi, Hheap. cbn [mbind res_bind deref].
  rewrite (u64_small (base_addr m + sz m)), (u64_small (dst + _)) by lia.
  rewrite (proj2 (Z.leb_gt FourGB (Z.of_nat (length src)))) by (change FourGB with 4294967296; lia).
  rewrite (proj2 (Z.ltb_ge dst (base_addr m))), (proj2 (Z.ltb_ge (base_addr m + sz m) _)) by lia. cbn [orb].
  rewrite (u64_small (dst - base_addr m)), Ha, (shadow_u64 m v) by (done || lia). done.
Qed.

(** A call in the mode of the patches. *)
Lemma fill_patch_outcome dst src dst0 src0 rt' :
  src <> [] -> bytes_ok src -> 0 <= dst -> dst + Z.of_nat (length src) < 2 ^ 64 ->
  dst <= dst0 -> dst0 + Z.of_nat (length src0) = dst + Z.of_nat (length src) ->
  (base_addr m <= dst -> src = bytes_at (osb rt) (shadow m dst) (Z.to_nat (dst0 - dst)) ++ src0) ->
  code_heap_fill_rec malloc 1 (Some i) dst src (Z.lor ROCK_CODE ROCK_REPLACE) rt = Ok rt' ->
  fill_outcome m v i dst0 src0 rt rt'.
Proof using Hok Hbmp Hi Hheap Hmalloc.
  intros Hne Hb Hd Hw Hdd Hee Hs H. pose proof Hok as [(Hb0 & Hs0 & Hend) Hpos _ Hosb _ _ _].
  destruct (fill_rec_opens _ _ _ _ _ Hd Hw H) as (Hlo & Hhi & area & Ha).
  assert (Hlen : Z.of_nat (length src) < FourGB) by (change FourGB with 4294967296 in *; lia).
  rewrite (fill_rec_unfold 0 dst src _ area) in H by done. cbn in H.
  apply (fill_replace_outcome malloc Hmalloc i m v Hok Hbmp dst src rt Hne Hb Hlo Hhi Hi dst0 src0 rt' area); auto.
Qed.

Lemma which_area_answers bmp base len a : which_area bmp base len = Ok a ->
  a = ROCK_CODE \/ a = ROCK_DATA \/ a = ROCK_INVALID.
Proof.
  unfold which_area. intros H. apply bind_Ok_inv in H as (n & _ & H).
  destruct (n =? len); [injection H as <-; auto|]. destruct (n =? 0); injection H as <-; auto.
Qed.

Lemma code_heap_fill_outcome dst src flags rt' :
  src <> [] -> bytes_ok src -> mem_ok (osb rt) -> 0 <= dst -> dst + Z.of_nat (length src) < 2 ^ 64 ->
  code_heap_fill malloc (Some i) dst src flags rt = Ok rt' ->
  base_addr m <= dst /\ dst + Z.of_nat (length src) <= base_addr m + sz m /\ fill_outcome m v i dst src rt rt'.
Proof using Hok Hbmp Hi Hheap Hmalloc.
  intros Hne Hb Hmem Hd Hw H. unfold code_heap_fill in H.
  pose proof Hok as [(Hb0 & Hs0 & Hend) Hpos _ Hosb _ _ _]. pose proof (length_pos src Hne).
  destruct (fill_rec_opens _ _ _ _ _ Hd Hw H) as (Hlo & Hhi & ar & Ha). split; [done|]. split; [done|].
  change FourGB with 4294967296 in Hend.
  rewrite (fill_rec_unfold 1 dst src _ ar) in H by (done || (change FourGB with 4294967296; lia)).
  destruct (data flags).
  - destruct (Z.eqb_spec ROCK_INVALID ar); [done|]. destruct (Z.eqb_spec ROCK_CODE ar) as [E|].
    + apply bind_Ok_inv in H as ([dst' len'] & Hback & H).
      apply back_to_boundary_spec in Hback as (H1 & H2 & ->); [|lia..].
      apply (fill_patch_outcome dst' _ dst src) in H; [done|by destruct (bytes_at _ _ _)| |lia| |done| |].
      * apply Forall_app. split; [|done]. unfold bytes_at. apply Forall_fmap, Forall_forall. intros x _. apply Hmem.
      * rewrite length_app, length_bytes_at. lia.
      * rewrite length_app, length_bytes_at. lia.
      * intros Hge. rewrite (shadow_u64 m v) by (done || lia). do 2 f_equal. lia.
    + injection H as <-. eapply fill_data; [|done|].
      * intros Hshort. pose proof (hok_bitmap m v Hok) as Hcov.
        destruct (which_area_short m dst (Z.of_nat (length src)) ar) as [Hdat _]; [lia..|done|lia|done|].
        apply Hdat. destruct (which_area_answers _ _ _ _ Ha) as [->|[->| ->]]; done.
      * intros x. by apply store_data_put.
  - destruct (has flags ROCK_COPY).
    + apply bind_Ok_inv in H as ([rt0 fl] & Hc & H). apply bind_Ok_inv in Hc as ([] & _ & Hc).
      injection Hc as <- <-. rewrite has_verify in H. apply bind_Ok_inv in H as ([rt1 fl1] & H1 & H).
      apply bind_Ok_inv in H1 as (rt2 & H1 & H2). injection H2 as <- <-. rewrite has_dropped in H. injection H as <-.
      eapply (fill_verify_outcome i m v Hok Hbmp dst src rt Hne Hb Hlo Hhi); [done|left; done|done].
    + cbn [mbind res_bind] in H. destruct (has flags ROCK_VERIFY).
      * apply bind_Ok_inv in H as ([rt1 fl1] & H1 & H).
        apply bind_Ok_inv in H1 as (rt2 & H1 & H2). injection H2 as <- <-. rewrite has_dropped in H. injection H as <-.
        apply (fill_verify_outcome i m v Hok Hbmp dst src rt Hne Hb Hlo Hhi (osb rt) rt); [by destruct rt|by right|done].
      * cbn [mbind res_bind] in H. destruct (has flags ROCK_REPLACE); [|injection H as <-; by apply fill_nothing].
        apply (fill_replace_outcome malloc Hmalloc i m v Hok Hbmp dst src rt Hne Hb Hlo Hhi Hi dst src rt' ar); try done.
        by rewrite Z.sub_diag.
Qed.
End call.

(** C32.  Whatever [code_heap_fill] is asked to do with a code heap, when it
    returns it has done nothing, or stored data, or written code that the
    verifier accepts: cut into pseudo-instructions with every direct jump to
    the start of one, ending in a terminator or followed by code; the bitmap
    calls it code, and the table marks its starts and nothing else of it.  No
    other byte of the memory, of the table or of the rest of the state changes.
    Data of fewer than 128 bytes overwrite no byte that the bitmap calls code;
    and code of fewer than 128 bytes that is patched without the bitmap
    changing replaces code only.  From 128 bytes on [which_area] may take code
    for data, and then data are stored over verified code
    ([code_heap_fill_overwrites_code]). *)
Theorem code_heap_fill_safe malloc i m v rt dst src flags rt' :
  (forall n, 0 <= n <= 3 * FourGB -> 0 <= malloc n /\ malloc n + n < 2 ^ 64) ->
  heap_ok m v -> bytes_ok (code_data_bitmap m) -> modules rt !! i = Some m -> code_heap m = true ->
  src <> [] -> bytes_ok src -> mem_ok (osb rt) -> 0 <= dst -> dst + Z.of_nat (length src) < 2 ^ 64 ->
  code_heap_fill malloc (Some i) dst src flags rt = Ok rt' ->
  base_addr m <= dst /\ dst + Z.of_nat (length src) <= base_addr m + sz m /\ fill_outcome m v i dst src rt rt'.
Proof. intros. by eapply code_heap_fill_outcome. Qed.

(** ** Creation *)
Lemma alloc_bitmap_spec mmap size b : 0 <= size < 2 ^ 63 -> alloc_bitmap mmap size = Ok b ->
  size <= 8 * Z.of_nat (length b) \/ size mod 8 <> 0.
Proof.
  intros Hs H. unfold alloc_bitmap in H. destruct (_ =? u64 (-1)); [done|]. injection H as <-.
  rewrite length_replicate. destruct (RoundToPage_pages (size / 8)) as [-> _]; [div_lia|].
  rewrite Z2Nat.id by div_lia. destruct (decide (size mod 8 = 0)); [left|by right]. div_lia.
Qed.

Lemma is_code_zero n i : is_code (replicate n 0) i = false.
Proof.
  unfold is_code. destruct (replicate n 0 !! Z.to_nat (i / 8)) eqn:E; cbn.
  - apply lookup_replicate in E as [-> _]. apply Z.bits_0.
  - apply Z.bits_0.
Qed.

Section create.
Context `{QS : QsortSpec}.
Variable opened : list (Z * Z).
Variable ftruncate : Z -> Z -> Z.
Variable mmap : Z -> Z -> Z -> Z -> Z -> Z -> Z.

(** The kernel places mappings at pages, below the end of the address space. *)
Definition maps_pages : Prop :=
  forall a len prot flags fd off, let r := mmap a len prot flags fd off in
    r = u64 (-1) \/ (0 <= r /\ r mod 4096 = 0 /\ r + len + 4096 < 2 ^ 64).

Lemma create_parallel_mapping_spec base size prot a : maps_pages ->
  create_parallel_mapping opened ftruncate mmap base size prot = Ok a ->
  size mod 4096 = 0 /\ 0 <= a /\ a mod 4096 = 0 /\ a + size + 4096 < 2 ^ 64.
Proof using mmap.
  intros Hk H. unfold create_parallel_mapping in H. apply bind_Ok_inv in H as (fd & _ & H).
  destruct (negb _); [done|]. apply bind_Ok_inv in H as ([] & Hs & H). apply CHECK_Ok, Z.eqb_eq in Hs.
  cbv zeta in H. destruct (_ =? u64 (-1)); [done|].
  destruct (Z.eqb_spec (mmap 0 size PROT_WRITE MAP_SHARED fd 0) (u64 (-1))) as [|Hne]; [done|].
  injection H as <-. split; [done|]. by destruct (Hk 0 size PROT_WRITE MAP_SHARED fd 0).
Qed.

(** [create_code_heap], with a kernel that maps whole pages and a page
    table that ends at 4 GB, appends a well-formed code heap to the modules:
    at pages that were free, now readable and executable and never writable,
    inside the sandbox, all data; the handle it stores is accepted by
    [get_code_heap], and no other page changes. *)
Theorem create_code_heap_correct ph size vf rt rt' h base :
  maps_pages -> wf_map (VM rt) -> (forall p, page_lookup (VM rt) p <> None -> 0 <= p <= 2 ^ 20) ->
  0 < size < 2 ^ 63 -> (forall v, vf = Some v -> wf_verifier v) ->
  create_code_heap true opened ftruncate mmap ph size vf rt = Ok (rt', h, base) ->
  exists v m, vf = Some v /\ modules rt' = modules rt ++ [m] /\ get_code_heap (Some h) rt' = Ok (Some (h, m)) /\
    heap_ok m v /\ base_addr m = base /\ sz m = size /\ (forall i, is_code (code_data_bitmap m) i = false) /\
    wf_map (VM rt') /\ free (VM rt) (base / 4096) (size / 4096) /\
    (forall p, page_lookup (VM rt') p =
       if in_region (base / 4096) (base / 4096 + size / 4096) p
       then Some (Z.lor PROT_READ PROT_EXEC, Z.lor PROT_READ PROT_EXEC, VMMAP_ENTRY_ANONYMOUS)
       else page_lookup (VM rt) p).
Proof using QS opened ftruncate mmap.
  intros Hk Hwf Hvm Hsz Hvf. unfold create_code_heap. destruct vf as [v|]; [|done].
  destruct (_ || _); [done|]. intros H. apply bind_Ok_inv in H as ([vm page] & Hfs & H).
  destruct (Z.eqb_spec page 0) as [|Hp0]; [done|].
  apply bind_Ok_inv in H as (vm' & Hadd & H). apply bind_Ok_inv in H as (oa & Hpm & H).
  apply bind_Ok_inv in H as (cdb & Hcdb & H). apply bind_Ok_inv in H as (idb & Hidb & H).
  cbv zeta in H. match type of H with context [modules rt ++ [?x]] => set (m := x) in * end.
  injection H as Hrt <- <-.
  assert (Hms : modules rt' = modules rt ++ [m]) by (rewrite <- Hrt; reflexivity).
  assert (Hvm' : VM rt' = vm') by (rewrite <- Hrt; reflexivity). clear Hrt.
  apply create_parallel_mapping_spec in Hpm as (Hs4 & Ho0 & Hoal & Ho1); [|done].
  rewrite (Z.shiftr_div_pow2 size) in * by (unfold PAGESHIFT; lia). change (2 ^ PAGESHIFT) with 4096 in *.
  assert (Hn : 0 < size / 4096 < 2 ^ 64) by div_lia.
  destruct (find_space (VM rt) (size / 4096) Hwf Hn) as (vm1 & r & Hrun & Hwf1 & Hlk1 & Htop).
  assert (E : VmmapFindSpace (VM rt) (size / 4096) = Ok (vm1, r)) by exact Hrun.
  rewrite E in Hfs. injection Hfs as -> ->. destruct Htop as [[-> _]|(Hr0 & Hgap & _)]; [done|].
  assert (Hb20 : page + size / 4096 <= 2 ^ 20).
  { destruct Hgap as (_ & _ & (q & Hq & Hl)). apply Hvm in Hl. lia. }
  assert (Hfree : free (VM rt) page (size / 4096)) by apply Hgap.
  assert (Hbase : u64 (Z.shiftl page PAGESHIFT) = page * 4096).
  { rewrite Z.shiftl_mul_pow2 by (unfold PAGESHIFT; lia). change (2 ^ PAGESHIFT) with 4096. apply u64_small. lia. }
  rewrite Hbase in *. rewrite Z.div_mul by lia.
  destruct (VmmapAdd_spec vm page (size / 4096) (Z.lor PROT_READ PROT_EXEC) (Z.lor PROT_READ PROT_EXEC)
    VMMAP_ENTRY_ANONYMOUS Hwf1) as (vm2 & Hadd2 & Hwf2 & Hlk2); [lia|lia|unfold PAGES; lia| |].
  { intros p Hp. rewrite Hlk1. by apply Hfree. }
  rewrite Hadd2 in Hadd. injection Hadd as ->.
  assert (Hdiv : size = size / 4096 * 4096) by div_lia.
  assert (Hmb : base_addr m = page * 4096) by exact Hbase.
  assert (Hmz : sz m = size) by reflexivity. assert (Hmo : osb_base_addr m = oa) by reflexivity.
  assert (Hmc : code_data_bitmap m = cdb) by reflexivity.
  exists v, m. rewrite Hvm'. split; [done|]. split; [done|]. split.
  { cbn [get_code_heap]. by rewrite Hms, list_lookup_middle. }
  split.
  { split; try done.
    - unfold in_sandbox. rewrite Hmb, Hmz. change FourGB with 4294967296. lia.
    - lia.
    - rewrite Hmb. div_lia.
    - rewrite Hmo, Hmz. lia.
    - rewrite Hmz, Hmc. destruct (alloc_bitmap_spec mmap size cdb) as [?|?]; [lia|done|done|div_lia].
    - by apply Hvf. }
  split; [done|]. split; [done|]. split; [|split; [done|split; [done|]]].
  - intros i. rewrite Hmc. unfold alloc_bitmap in Hcdb. destruct (_ =? u64 (-1)); [done|].
    injection Hcdb as <-. apply is_code_zero.
  - intros p. rewrite Hlk2. by rewrite Hlk1.
Qed.
End create.

(** ** Deletion *)
Lemma write64_zero t a x : write64 t a 0 x = if (a <=? x) && (x <? a + 8) then 0 else t x.
Proof.
  unfold write64. destruct (Z.leb_spec a x), (Z.ltb_spec x (a + 8)); cbn [andb].
  2-4: apply write_le_out; lia.
  change 0 with (le_word (replicate 8 0)) at 1. change 8%nat with (length (replicate 8 0)).
  rewrite write_bytes_put by (apply Forall_replicate; lia).
  unfold put_bytes. destruct (Z.leb_spec a x); [|lia]. change (length (replicate 8 0)) with 8%nat.
  destruct (replicate 8 0 !! Z.to_nat (x - a)) eqn:E; [by apply lookup_replicate in E as [-> _]|].
  apply lookup_ge_None in E. rewrite length_replicate in E. lia.
Qed.

Lemma clear_words_spec t a n x : 0 <= n ->
  clear_words t a n x = if (a <=? x) && (x <? a + 8 * n) then 0 else t x.
Proof.
  intros Hn. unfold clear_words. rewrite <- (Z2Nat.id n) by done. generalize (Z.to_nat n). clear n Hn. intros n.
  induction n as [|n IH].
  - destruct (Z.leb_spec a x), (Z.ltb_spec x (a + 8 * Z.of_nat 0)); cbn; done || lia.
  - rewrite seqZ_S, foldl_app. cbn [foldl]. rewrite write64_zero, IH, Z.add_0_l, Nat2Z.inj_succ.
    destruct (Z.leb_spec (a + 8 * Z.of_nat n) x), (Z.ltb_spec x (a + 8 * Z.of_nat n + 8)), (Z.leb_spec a x),
      (Z.ltb_spec x (a + 8 * Z.of_nat n)), (Z.ltb_spec x (a + 8 * Z.succ (Z.of_nat n))); cbn [andb]; done || lia.
Qed.

Lemma ldiff_seven a : Z.ldiff a 7 = a / 8 * 8.
Proof. change 7 with (Z.ones 3). by rewrite Z.ldiff_ones_r, Z.shiftl_mul_pow2, Z.shiftr_div_pow2 by lia. Qed.

(** Nothing falls through into the region. *)
Definition not_entered (m : code_module) (addr : Z) (n : Z) : Prop :=
  addr = base_addr m \/
  base_addr m < addr /\ exists a, which_area (code_data_bitmap m) (addr - base_addr m - 1) n = Ok a /\ a <> ROCK_CODE.

(** Deleting a region that nothing falls through into.  At the end of
    the heap it becomes data and its words of the table become 0, and nothing
    else changes.  Anywhere else the look at the byte after the region uses
    its address for its offset, so that in a heap smaller than its own
    address the bitmap is read past its end. *)
Theorem delete_code_correct i m v rt addr len :
  heap_ok m v -> modules rt !! i = Some m -> code_heap m = true -> base_addr m <= addr -> 0 < len < FourGB ->
  addr + len <= base_addr m + sz m -> not_entered m addr 2 ->
  (addr + len = base_addr m + sz m -> len < 16 \/ addr mod 8 = 0 ->
   exists cdb t, delete_code (Some i) addr len rt =
       Ok (rt {{ table := t }} {{ modules := <[i := m {{ code_data_bitmap := cdb }}]> (modules rt) }}) /\
     (forall k, 0 <= k -> is_code cdb k = negb (in_range (addr - base_addr m) len k) && is_code (code_data_bitmap m) k) /\
     (forall x, t x = if in_range (addr / 8 * 8) ((len + 7) / 8 * 8) x then 0 else table rt x)) /\
  (addr + len < base_addr m + sz m -> 8 * Z.of_nat (length (code_data_bitmap m)) <= base_addr m ->
   delete_code (Some i) addr len rt = Fault).
Proof.
  intros [(Hb0 & Hs0 & Hend) Hpos Hal Hosb Hbm Hv Hwf] Hi Hheap Ha Hlen Hfit Hent.
  unfold delete_code, get_code_heap. change FourGB with 4294967296 in *. rewrite Hi, Hheap. cbn [mbind res_bind deref].
  rewrite (u64_small (base_addr m + sz m)), (u64_small (addr + len)) by lia.
  rewrite (proj2 (Z.leb_gt 4294967296 len)), (proj2 (Z.ltb_ge addr _)), (proj2 (Z.ltb_ge _ (addr + len))) by lia.
  cbn [orb].
  assert (Hbefore : (if base_addr m <? addr
      then a ← which_area (code_data_bitmap m) (addr - base_addr m - 1) 2; Ok (ROCK_CODE =? a)
      else Ok false) = Ok false).
  { destruct Hent as [->|(Hlt & a & Hwa & Hne)]; [by rewrite Z.ltb_irrefl|].
    rewrite (proj2 (Z.ltb_lt _ _) Hlt), Hwa, bind_Ok. f_equal. apply Z.eqb_neq. congruence. }
  rewrite Hbefore. cbn [mbind res_bind]. split.
  - intros He Hc. rewrite (proj2 (Z.ltb_ge (addr + len) _)) by lia. cbn [mbind res_bind].
    destruct (set_data_marks (code_data_bitmap m) (addr - base_addr m) len) as (cdb & Hset & _ & Hm).
    { split_and!; lia. }
    { destruct Hc as [|Hc]; [by left|right]. change 7 with (Z.ones 3). rewrite Z.land_ones by lia.
      change (2 ^ 3) with 8. div_lia. }
    rewrite Hset. cbn [mbind res_bind]. rewrite (u64_small (len + 7)), !ldiff_seven by lia.
    eexists cdb, _. split; [done|]. split.
    + intros k Hk. rewrite Hm by done. by destruct (in_range _ _ _).
    + intros x. rewrite clear_words_spec by div_lia. unfold in_range.
      by replace (8 * ((len + 7) / 8 * 8 / 8)) with ((len + 7) / 8 * 8) by div_lia.
  - intros He Hbig. rewrite (proj2 (Z.ltb_lt (addr + len) _)) by lia. cbn [mbind res_bind].
    rewrite (u64_small (addr + len - 1)) by lia. unfold which_area. cbn [Z.ltb Z.compare Pos.compare Pos.compare_cont].
    rewrite count_bits_past by lia. done.
Qed.

(** ** Examples *)
Definition heap_state : runtime := sample_runtime {{ modules := [sample_heap] }}.

Lemma sample_heap_ok : heap_ok sample_heap sample_verifier.
Proof. by split; [split_and!; vm_compute|..]. Qed.

(** Installing the sample code, with [ROCK_CODE] and [ROCK_COPY]. *)
Lemma code_heap_fill_witness : exists rt',
  code_heap_fill (fun _ => 0x8000) (Some 0%nat) 0x10010 sample_code 9 heap_state = Ok rt' /\
  fill_outcome sample_heap sample_verifier 0 0x10010 sample_code heap_state rt'.
Proof.
  assert (Hok : match code_heap_fill (fun _ => 0x8000) (Some 0%nat) 0x10010 sample_code 9 heap_state with
                | Ok _ => true | _ => false end = true) by (vm_compute; reflexivity).
  destruct (code_heap_fill (fun _ => 0x8000) (Some 0%nat) 0x10010 sample_code 9 heap_state) as [rt'| | |] eqn:Hrun;
    [|discriminate..].
  exists rt'. split; [reflexivity|].
  eapply (code_heap_fill_safe (fun _ => 0x8000) 0 sample_heap sample_verifier heap_state 0x10010 sample_code 9 rt');
    [intros n Hn; change FourGB with 4294967296 in Hn; lia|exact sample_heap_ok| |reflexivity|reflexivity|discriminate| | |lia|cbn; lia|exact Hrun].
  - apply Forall_replicate. lia.
  - repeat constructor; lia.
  - intros a. cbn. lia.
Defined.

(** A heap with 64 bytes of data before code: 128 bytes of data are stored over
    both, because the first word of the bitmap is counted twice. *)
Definition half_heap : code_module := sample_heap {{ code_data_bitmap := replicate 8 0 ++ replicate 24 255 }}.
Definition half_state : runtime := sample_runtime {{ modules := [half_heap] }}.

Lemma code_heap_fill_overwrites_code : exists rt',
  code_heap_fill (fun _ => 0x8000) (Some 0%nat) 0x10000 (replicate 128 0xcc) ROCK_DATA half_state = Ok rt' /\
  all_bytes true half_heap 0x10040 64 /\ osb half_state (shadow half_heap 0x10040) = 0 /\
  osb rt' (shadow half_heap 0x10040) = 0xcc.
Proof.
  assert (Hok : match code_heap_fill (fun _ => 0x8000) (Some 0%nat) 0x10000 (replicate 128 0xcc) ROCK_DATA half_state with
                | Ok rt' => osb rt' (shadow half_heap 0x10040) =? 0xcc | _ => false end = true) by (vm_compute; reflexivity).
  destruct (code_heap_fill _ _ _ _ _ half_state) as [rt'| | |]; [|discriminate..]. apply Z.eqb_eq in Hok.
  exists rt'. split; [done|]. split; [|by split]. intros x Hx.
  assert (H : forallb (fun x => is_code (code_data_bitmap half_heap) (x - 0x10000)) (seqZ 0x10040 64) = true) by by vm_compute.
  by apply (seqZ_forallb _ _ _ x H).
Qed.

#[local] Existing Instance utils_qsort.

(** A kernel that maps everything short of 1 TB at one place. *)
Definition one_place (a len prot flags fd off : Z) : Z := if len <? 2 ^ 40 then 0x300000000 else u64 (-1).

Lemma one_place_maps : maps_pages one_place.
Proof.
  intros a len prot flags fd off r. unfold r, one_place. destruct (Z.ltb_spec len (2 ^ 40)); [right|by left].
  split; [lia|]. split; [reflexivity|lia].
Qed.

Lemma create_code_heap_witness : exists rt' h base,
  create_code_heap true [(-1, EEXIST); (3, 0)] (fun _ _ => 0) one_place 0x10 8192 (Some sample_verifier) mem_state
    = Ok (rt', h, base) /\ exists m, heap_ok m sample_verifier /\ base_addr m = base.
Proof.
  destruct (create_code_heap true [(-1, EEXIST); (3, 0)] (fun _ _ => 0) one_place 0x10 8192 (Some sample_verifier)
    mem_state) as [[[rt' h] base]| | |] eqn:Hrun; [|vm_compute in Hrun; discriminate..].
  exists rt', h, base. split; [reflexivity|].
  destruct (create_code_heap_correct [(-1, EEXIST); (3, 0)] (fun _ _ => 0) one_place 0x10 8192 (Some sample_verifier)
    mem_state rt' h base) as (v & m & Hv & _ & _ & Hok & Hb & _);
    [exact one_place_maps|exact sample_map_wf| |lia|intros v [= <-]; by vm_compute|exact Hrun|].
  - intros p Hp. destruct (decide (0 <= p <= 2 ^ 20)) as [|Hn]; [done|]. exfalso. apply Hp.
    apply page_lookup_None. unfold mem_state. change (VM _) with sample_map.
    unfold sample_map, entries. cbn [take nvalid vmentry omap list_omap id].
    rewrite !attrs_at_cons. unfold cov, covers, end_page. cbn.
    destruct (decide (p < 0)).
    + by rewrite !(proj2 (Z.leb_gt _ p)) by lia.
    + by rewrite !(proj2 (Z.ltb_ge p _)), !andb_false_r by lia.
  - injection Hv as <-. by exists m.
Defined.

(** A piece at the end of the heap, and one before. *)
Lemma delete_code_witness :
  (exists cdb t, delete_code (Some 0%nat) 0x100f0 16 heap_state =
     Ok (heap_state {{ table := t }} {{ modules := [sample_heap {{ code_data_bitmap := cdb }}] }})) /\
  delete_code (Some 0%nat) 0x10010 16 heap_state = Fault.
Proof.
  assert (H0 : forall a, base_addr sample_heap < a -> a < 0x10100 ->
    which_area (code_data_bitmap sample_heap) (a - base_addr sample_heap - 1) 2 = Ok 0 ->
    not_entered sample_heap a 2) by (intros a ? ? Hw; right; split; [done|by exists 0]).
  split.
  - destruct (delete_code_correct 0 sample_heap sample_verifier heap_state 0x100f0 16) as [H _];
      [exact sample_heap_ok|reflexivity|reflexivity|by vm_compute|change FourGB with 4294967296; lia|by vm_compute|
       apply H0; [by vm_compute|lia|vm_compute; reflexivity]|].
    destruct H as (cdb & t & H & _); [reflexivity|by right|]. exists cdb, t. exact H.
  - destruct (delete_code_correct 0 sample_heap sample_verifier heap_state 0x10010 16) as [_ H];
      [exact sample_heap_ok|reflexivity|reflexivity|by vm_compute|change FourGB with 4294967296; lia|by vm_compute|
       apply H0; [by vm_compute|lia|vm_compute; reflexivity]|].
    apply H; by vm_compute.
Defined.
