(* ===== verification/MetaParse.v ===== *)
(** * Parsing the metadata sections ([runtime/include/cfggen/cfggen.h])

    A section is the list of its bytes from the cursor to its end.  The
    parsers patch separators to NULs behind the cursor, which nothing reads
    again; reading past the end of the section, where the next one lies, is a
    fault.  Loops run on the bytes left, and fuel one more than their number
    is enough, as every turn consumes some. *)

From S2P Require Import Prelude Dict Graph Module StringPool.

(** The separators. *)
Definition HASHSYM : Z := 35.    (* '#' *)
Definition NEWLINE : Z := 10.
Definition BLANK : Z := 32.
Definition ATSYM : Z := 64.      (* '@' *)

(** The string before the next symbol or NUL, whether it was a NUL, and the
    bytes after it. *)
Fixpoint get_string_before_symbol (symbol : Z) (cursor : list Z) : res (cstring * bool * list Z) :=
  match cursor with
  | [] => Fault
  | b :: cursor' =>
    if (b =? symbol) || (b =? 0) then Ok ([], b =? 0, cursor')
    else
      '(s, stop, rest) ← get_string_before_symbol symbol cursor';
      Ok (b :: s, stop, rest)
  end.

(** [cursor += 2]: the byte at the cursor and what follows the next one. *)
Definition skip2 (cursor : list Z) : res (Z * list Z) :=
  match cursor with
  | b :: _ :: rest => Ok (b, rest)
  | _ => Fault
  end.

Section parse.
Context `{M : Malloc}.

(** Interning the string before a symbol. *)
Definition intern_before (symbol : Z) (cursor : list Z) (sp : pool) : res (pool * Z * bool * list Z) :=
  '(s, stop, rest) ← get_string_before_symbol symbol cursor;
  '(sp, p) ← sp_intern_string sp s;
  Ok (sp, p, stop, rest).

(** ** The class hierarchy *)
Fixpoint inheritance_loop (fuel : nat) (cursor : list Z) (sub_class_name : Z) (stop : bool)
    (cha : graph) (sp : pool) : res (list Z * graph * pool) :=
  match fuel with
  | O => NoFuel
  | S fuel' =>
    if negb stop then
      '(sp, super_class_name, stop, cursor) ← intern_before HASHSYM cursor sp;
      inheritance_loop fuel' cursor sub_class_name stop (g_add_edge cha sub_class_name super_class_name) sp
    else Ok (cursor, cha, sp)
  end.

Definition parse_inheritance (cursor : list Z) (cha : graph) (sp : pool) : res (list Z * graph * pool) :=
  '(sp, sub_class_name, stop, cursor) ← intern_before HASHSYM cursor sp;
  inheritance_loop (S (S (length cursor))) cursor sub_class_name stop cha sp.

(** The qualifiers after the last [@] of a method name, and the name without
    them.  [len] is unsigned: an empty name wraps it around. *)
Fixpoint attr_loop (counter : nat) (method_name : cstring) (len : nat) (attrs : Z) : nat * Z :=
  match counter with
  | O => (len, attrs)
  | S counter' =>
    if (0 <? len)%nat && negb (char_at method_name len =? ATSYM) then
      let c := char_at method_name len in
      let attrs := if c =? 99 then Z.lor attrs CONSTANT           (* 'c' *)
                   else if c =? 111 then Z.lor attrs VOLATILE     (* 'o' *)
                   else if c =? 115 then Z.lor attrs STATIC       (* 's' *)
                   else if c =? 118 then Z.lor attrs VIRTUAL      (* 'v' *)
                   else attrs in
      attr_loop counter' method_name (len - 1) attrs
    else (len, attrs)
  end.

Definition get_cpp_method_attr (method_name : cstring) : res (Z * cstring) :=
  match length method_name with
  | O => Fault   (* [--len] wraps around *)
  | S len =>
    let '(len, attrs) := attr_loop 5 method_name len 0 in
    if char_at method_name len =? ATSYM then Ok (attrs, take len method_name) else Ok (0, method_name)
  end.

Fixpoint classes_loop (fuel : nat) (cursor : list Z) (class_name : Z) (stop : bool)
    (classes : dict (dict Z)) (sp : pool) : res (list Z * dict (dict Z) * pool) :=
  match fuel with
  | O => NoFuel
  | S fuel' =>
    if negb stop then
      '(method_name, stop, cursor) ← get_string_before_symbol HASHSYM cursor;
      '(attrs, method_name) ← get_cpp_method_attr method_name;
      '(sp, method_name) ← sp_intern_string sp method_name;
      let methods := default [] (dict_find classes class_name) in
      methods ← match dict_find methods method_name with
                | None => dict_add methods method_name attrs
                | Some a => if negb (a =? attrs) then Exit else Ok methods
                end;
      classes_loop fuel' cursor class_name stop (dict_set classes class_name methods) sp
    else Ok (cursor, classes, sp)
  end.

Definition parse_classes (cursor : list Z) (classes : dict (dict Z)) (sp : pool)
    : res (list Z * dict (dict Z) * pool) :=
  '(sp, class_name, stop, cursor) ← intern_before HASHSYM cursor sp;
  let classes := match dict_find classes class_name with
                 | None => dict_put classes class_name []
                 | Some _ => classes
                 end in
  classes_loop (S (S (length cursor))) cursor class_name stop classes sp.

Fixpoint cha_loop (fuel : nat) (cursor : list Z) (classes : dict (dict Z)) (cha : graph) (sp : pool)
    : res (dict (dict Z) * graph * pool) :=
  match fuel with
  | O => NoFuel
  | S fuel' =>
    match cursor with
    | [] => Ok (classes, cha, sp)
    | _ =>
      '(c, rest) ← skip2 cursor;
      if c =? 73 then        (* 'I' *)
        '(cursor, cha, sp) ← parse_inheritance rest cha sp;
        cha_loop fuel' cursor classes cha sp
      else if c =? 77 then   (* 'M' *)
        '(cursor, classes, sp) ← parse_classes rest classes sp;
        cha_loop fuel' cursor classes cha sp
      else Exit
    end
  end.

Definition parse_cha (content : list Z) (classes : dict (dict Z)) (cha : graph) (sp : pool)
    : res (dict (dict Z) * graph * pool) :=
  cha_loop (S (length content)) content classes cha sp.

(** ** Indirect branches *)
Definition parse_icf (c : Z) (cursor : list Z) (sp : pool) : res (icf * list Z * pool) :=
  if c =? 86 then          (* 'V' *)
    '(sp, class_name, _, cursor) ← intern_before HASHSYM cursor sp;
    '(sp, method_name, _, cursor) ← intern_before HASHSYM cursor sp;
    Ok (VirtualMethodCall class_name method_name, cursor, sp)
  else if c =? 68 then     (* 'D' *)
    '(sp, class_name, _, cursor) ← intern_before HASHSYM cursor sp;
    '(sp, method_name) ← sp_intern_string sp [126];   (* "~" *)
    Ok (VirtualMethodCall class_name method_name, cursor, sp)
  else if c =? 80 then     (* 'P' *)
    '(sp, class_name, _, cursor) ← intern_before HASHSYM cursor sp;
    '(co, _, cursor) ← get_string_before_symbol HASHSYM cursor;
    let attrs := if (length co =? 2)%nat then Z.lor CONSTANT VOLATILE
                 else if (length co =? 1)%nat then (if char_at co 0 =? 99 then CONSTANT else VOLATILE)
                 else 0 in
    '(sp, type, _, cursor) ← intern_before HASHSYM cursor sp;
    Ok (PointerToMethodCall class_name type attrs, cursor, sp)
  else if c =? 78 then     (* 'N' *)
    '(sp, type, _, cursor) ← intern_before HASHSYM cursor sp;
    Ok (NormalCall type, cursor, sp)
  else Exit.

Fixpoint icfs_loop (fuel : nat) (cursor : list Z) (icfs : dict icf) (sp : pool) : res (dict icf * pool) :=
  match fuel with
  | O => NoFuel
  | S fuel' =>
    match cursor with
    | [] => Ok (icfs, sp)
    | _ =>
      '(sp, id, _, cursor) ← intern_before HASHSYM cursor sp;
      '(c, cursor) ← skip2 cursor;
      '(ic, cursor, sp) ← parse_icf c cursor sp;
      icfs_loop fuel' cursor (dict_put icfs id ic) sp
    end
  end.

Definition parse_icfs (content : list Z) (icfs : dict icf) (sp : pool) : res (dict icf * pool) :=
  icfs_loop (S (length content)) content icfs sp.

(** ** Functions whose addresses are taken, and aliases *)
Fixpoint fats_loop (fuel : nat) (cursor : list Z) (fats : dict unit) (sp : pool) : res (dict unit * pool) :=
  match fuel with
  | O => NoFuel
  | S fuel' =>
    match cursor with
    | [] => Ok (fats, sp)
    | _ =>
      '(sp, fat, _, cursor) ← intern_before 0 cursor sp;
      fats_loop fuel' cursor (if dict_in fats fat then fats else dict_put fats fat tt) sp
    end
  end.

Definition parse_fats (content : list Z) (fats : dict unit) (sp : pool) : res (dict unit * pool) :=
  fats_loop (S (length content)) content fats sp.

Fixpoint aliases_loop (fuel : nat) (cursor : list Z) (aliases : graph) (sp : pool) : res (graph * pool) :=
  match fuel with
  | O => NoFuel
  | S fuel' =>
    match cursor with
    | [] => Ok (aliases, sp)
    | _ =>
      '(sp, name, _, cursor) ← intern_before BLANK cursor sp;
      '(sp, aliasee, _, cursor) ← intern_before BLANK cursor sp;
      aliases_loop fuel' cursor (g_add_edge aliases name aliasee) sp
    end
  end.

Definition parse_aliases (content : list Z) (aliases : graph) (sp : pool) : res (graph * pool) :=
  aliases_loop (S (length content)) content aliases sp.

(** ** Lists of names

    The cursor runs over a string already cut out, with its NUL. *)
Fixpoint node_list_loop (fuel : nat) (local_symbol : Z) (cursor : list Z) (node_list : list Z) (sp : pool)
    : res (list Z * pool) :=
  match fuel with
  | O => NoFuel
  | S fuel' =>
    '(sp, name, stop, cursor) ← intern_before local_symbol cursor sp;
    let node_list := node_list ++ [name] in
    if negb stop then node_list_loop fuel' local_symbol cursor node_list sp else Ok (node_list, sp)
  end.

Definition add_node_list (s : cstring) (local_symbol : Z) (node_list : list Z) (sp : pool) : res (list Z * pool) :=
  node_list_loop (S (length s)) local_symbol (s ++ [0]) node_list sp.

(** ** Functions *)
(** What one line of a function's record does; [f] is NULL outside of a
    record, and so is a fault. *)
Definition function_line (c : Z) (cursor : list Z) (f : option function) (functions : list function)
    (ctor : dict Z) (sp : pool)
    : res (list Z * option function * list function * dict Z * pool * bool) :=
  if c =? 123 then         (* '{' *)
    '(sp, name, stop, cursor) ← intern_before NEWLINE cursor sp;
    Ok (cursor, Some (mkFunction name 0 0 0 [] [] []), functions, ctor, sp, stop)
  else if c =? 125 then    (* '}' *)
    f ← deref (Some f);
    Ok (cursor, None, functions ++ [f], ctor, sp, true)
  else if c =? 78 then     (* 'N' *)
    f ← deref (Some f);
    '(sp, class_name, _, cursor) ← intern_before HASHSYM cursor sp;
    '(sp, method_name, stop, cursor) ← intern_before NEWLINE cursor sp;
    Ok (cursor, Some (f {{ f_class_name := class_name }} {{ f_method_name := method_name }}),
        functions, ctor, sp, stop)
  else if c =? 68 then     (* 'D' *)
    f ← deref (Some f);
    '(sp, class_name, stop, cursor) ← intern_before NEWLINE cursor sp;
    '(sp, method_name) ← sp_intern_string sp [126];   (* "~" *)
    Ok (cursor, Some (f {{ f_class_name := class_name }} {{ f_method_name := method_name }}),
        functions, ctor, sp, stop)
  else if c =? 89 then     (* 'Y' *)
    f ← deref (Some f);
    '(sp, type, stop, cursor) ← intern_before NEWLINE cursor sp;
    Ok (cursor, Some (f {{ f_type := type }}), functions, ctor, sp, stop)
  else if c =? 84 then     (* 'T' *)
    '(s, stop, cursor) ← get_string_before_symbol NEWLINE cursor;
    f ← deref (Some f);
    '(l, sp) ← add_node_list s BLANK (f_dtails f) sp;
    Ok (cursor, Some (f {{ f_dtails := l }}), functions, ctor, sp, stop)
  else if c =? 73 then     (* 'I' *)
    '(s, stop, cursor) ← get_string_before_symbol NEWLINE cursor;
    f ← deref (Some f);
    '(l, sp) ← add_node_list s BLANK (f_itails f) sp;
    Ok (cursor, Some (f {{ f_itails := l }}), functions, ctor, sp, stop)
  else if c =? 82 then     (* 'R' *)
    '(s, stop, cursor) ← get_string_before_symbol NEWLINE cursor;
    f ← deref (Some f);
    '(l, sp) ← add_node_list s BLANK (f_returns f) sp;
    Ok (cursor, Some (f {{ f_returns := l }}), functions, ctor, sp, stop)
  else if c =? 67 then     (* 'C' *)
    f ← deref (Some f);
    '(sp, ctorname, stop, cursor) ← intern_before NEWLINE cursor sp;
    let ctor := if dict_in ctor (f_name f) then ctor else dict_put ctor (f_name f) ctorname in
    Ok (cursor, Some f, functions, ctor, sp, stop)
  else Exit.

(** The two loops: the outer one tests the cursor when the inner one has
    stopped. *)
Fixpoint functions_loop (fuel : nat) (cursor : list Z) (stop : bool) (f : option function)
    (functions : list function) (ctor : dict Z) (sp : pool) : res (list function * dict Z * pool) :=
  match fuel with
  | O => NoFuel
  | S fuel' =>
    if stop && (length cursor =? 0)%nat then Ok (functions, ctor, sp)
    else
      '(c, cursor) ← skip2 cursor;
      '(cursor, f, functions, ctor, sp, stop) ← function_line c cursor f functions ctor sp;
      functions_loop fuel' cursor stop f functions ctor sp
  end.

Definition parse_functions (content : list Z) (functions : list function) (ctor : dict Z) (sp : pool)
    : res (list function * dict Z * pool) :=
  functions_loop (S (length content)) content true None functions ctor sp.

(** ** Virtual tables *)
Fixpoint vtable_loop (fuel : nat) (cursor : list Z) (vtable : dict (list Z)) (sp : pool)
    : res (dict (list Z) * pool) :=
  match fuel with
  | O => NoFuel
  | S fuel' =>
    match cursor with
    | [] => Ok (vtable, sp)
    | _ =>
      '(sp, ctorname, _, cursor) ← intern_before HASHSYM cursor sp;
      '(s, _, cursor) ← get_string_before_symbol NEWLINE cursor;
      '(vmtd, sp) ← add_node_list s HASHSYM [] sp;
      vtable_loop fuel' cursor (if dict_in vtable ctorname then vtable else dict_put vtable ctorname vmtd) sp
    end
  end.

Definition parse_vtable (content : list Z) (vtable : dict (list Z)) (sp : pool) : res (dict (list Z) * pool) :=
  vtable_loop (S (length content)) content vtable sp.
End parse.
