(* ===== verification/MetaFacts.v ===== *)
(** * The metadata survives printing and parsing

    The formats of the sections that describe indirect branches and
    functions, as the compiler prints them, and that the parsers read back
    what was printed. *)

From S2P Require Import Prelude Dict Graph Module StringPool MetaParse.

(** No byte of the string is a NUL or one of the separators. *)
Definition free_of (seps : list Z) (s : cstring) : Prop := forall b, b ∈ s -> b <> 0 /\ b ∉ seps.

Lemma get_string_found symbol s t rest : free_of [symbol] s -> t = symbol \/ t = 0 ->
  get_string_before_symbol symbol (s ++ t :: rest) = Ok (s, t =? 0, rest).
Proof.
  intros Hs Ht. induction s as [|b s IH]; cbn.
  - destruct Ht as [->| ->]; [by rewrite Z.eqb_refl|by rewrite orb_true_r].
  - destruct (Hs b) as [H0 H1]; [left|]. apply not_elem_of_cons in H1 as [H1 _].
    rewrite (proj2 (Z.eqb_neq b symbol)), (proj2 (Z.eqb_neq b 0)) by done. cbn.
    by rewrite IH by (intros x Hx; apply Hs; by right).
Qed.

Lemma free_of_sub seps seps' s : seps' ⊆ seps -> free_of seps s -> free_of seps' s.
Proof. intros Hsub H b Hb. destruct (H b Hb) as [H1 H2]. split; [done|]. auto. Qed.

#[export] Instance free_of_dec seps s : Decision (free_of seps s).
Proof.
  refine (cast_if (decide (Forall (fun b => b <> 0 /\ b ∉ seps) s))); unfold free_of; by rewrite <- Forall_forall.
Defined.

Section facts.
Context `{M : Malloc} `{MS : !MallocSpec M}.

Lemma intern_before_found symbol s t rest sp : free_of [symbol] s -> t = symbol \/ t = 0 -> pool_ok sp ->
  unless_oom (intern_before symbol (s ++ t :: rest) sp) (fun r =>
    pool_ok r.1.1.1 /\ extends sp r.1.1.1 /\ known r.1.1.1 [s] /\ r.1.1.2 = ptr r.1.1.1 s /\
    r.1.2 = (t =? 0) /\ r.2 = rest).
Proof using MS.
  intros Hs Ht Hok. unfold intern_before. rewrite get_string_found by done. cbn [mbind res_bind].
  eapply unless_oom_bind; [by apply intern_unless|]. intros [sp' p] (H1 & H2 & H3 & H4). by cbn in *.
Qed.

End facts.

(** One step of a parser: what the old pool knew the new one knows, with the
    same pointers. *)
Ltac forward_pool a b He :=
  repeat match goal with
  | K : known a [?s] |- _ =>
      rewrite <- ?(ptr_extends a b s (proj1 (proj1 (known_cons a s []) K)) He);
      apply (fun K => known_extends a b [s] K He) in K
  | K : known a ?l |- _ => apply (fun K => known_extends a b l K He) in K
  | E : extends ?x a |- _ =>
      let E' := fresh "He" in
      assert (E' : extends x b) by (etrans; [exact E|exact He]); clear E
  end.

Ltac parse_string :=
  rewrite <- ?app_assoc, <- ?app_comm_cons, ?bind_assoc;
  eapply unless_oom_bind; [apply intern_before_found; [|first [by left|by right]|assumption]|];
  [|let sp := fresh "sp" in let p := fresh "p" in let st := fresh "st" in let c := fresh "c" in
    let Hok := fresh "Hok" in let He := fresh "He" in let Hk := fresh "Hk" in
    intros [[[sp p] st] c] (Hok & He & Hk & ? & ? & ?); cbn [fst snd] in Hok, He, Hk; cbn [fst snd] in *; subst;
    match type of He with extends ?a ?b => forward_pool a b He; try clear dependent a end].

Ltac parse_intern :=
  rewrite <- ?app_assoc, <- ?app_comm_cons, ?bind_assoc;
  eapply unless_oom_bind; [apply intern_unless; assumption|];
  let sp := fresh "sp" in let p := fresh "p" in
  let Hok := fresh "Hok" in let He := fresh "He" in let Hk := fresh "Hk" in
  intros [sp p] (Hok & He & Hk & ?); cbn [fst snd] in Hok, He, Hk; cbn [fst snd] in *; subst;
  match type of He with extends ?a ?b => forward_pool a b He; try clear dependent a end.

Ltac parse_done :=
  cbn; rewrite ?known_cons in *; destruct_and?; split_and!; done || apply known_nil || idtac.

(** ** Indirect branches *)
Definition print_quals (const vol : bool) : list Z := (if const then [99] else []) ++ (if vol then [111] else []).

Lemma quals_free k v : free_of [HASHSYM] (print_quals k v).
Proof.
  intros b Hb. assert (b = 99 \/ b = 111) as [-> | ->] by (destruct k, v; set_solver).
  - split; [done|]. by rewrite list_elem_of_singleton.
  - split; [done|]. by rewrite list_elem_of_singleton.
Qed.

Section icfs.
Context `{M : Malloc} `{MS : !MallocSpec M}.

Inductive icf_src : Type :=
  | SVirtual (class_name method_name : cstring)
  | SDestructor (class_name : cstring)
  | SPointer (class_name : cstring) (const vol : bool) (type : cstring)
  | SNormal (type : cstring).

Definition print_icf (i : cstring * icf_src) : list Z :=
  i.1 ++ HASHSYM ::
  match i.2 with
  | SVirtual c m => 86 :: HASHSYM :: c ++ HASHSYM :: m ++ [0]
  | SDestructor c => 68 :: HASHSYM :: c ++ [0]
  | SPointer c k v t => 80 :: HASHSYM :: c ++ HASHSYM :: print_quals k v ++ HASHSYM :: t ++ [0]
  | SNormal t => 78 :: HASHSYM :: t ++ [0]
  end.

Definition icf_strings (i : cstring * icf_src) : list cstring :=
  i.1 :: match i.2 with
         | SVirtual c m => [c; m]
         | SDestructor c => [c; [126]]
         | SPointer c _ _ t => [c; t]
         | SNormal t => [t]
         end.

Definition icf_of (sp : pool) (i : cstring * icf_src) : Z * icf :=
  (ptr sp i.1,
   match i.2 with
   | SVirtual c m => VirtualMethodCall (ptr sp c) (ptr sp m)
   | SDestructor c => VirtualMethodCall (ptr sp c) (ptr sp [126])
   | SPointer c k v t =>
     PointerToMethodCall (ptr sp c) (ptr sp t) (Z.lor (if k then CONSTANT else 0) (if v then VOLATILE else 0))
   | SNormal t => NormalCall (ptr sp t)
   end).

Definition icf_ok (i : cstring * icf_src) : Prop := forall s, s ∈ icf_strings i -> free_of [HASHSYM] s.

#[export] Instance icf_ok_dec i : Decision (icf_ok i).
Proof using.
  refine (cast_if (decide (Forall (free_of [HASHSYM]) (icf_strings i)))); unfold icf_ok; by rewrite <- Forall_forall.
Defined.

Lemma icf_of_extends sp sp' i : known sp (icf_strings i) -> extends sp sp' -> icf_of sp' i = icf_of sp i.
Proof using.
  intros Hk He. destruct i as [id []]; unfold icf_of, icf_strings in *; cbn in *; rewrite !known_cons in Hk; destruct_and?.
  all: by rewrite !(ptr_extends sp sp') by done.
Qed.


(** What one entry is parsed to. *)
Lemma parse_icf_found i sp rest : icf_ok i -> pool_ok sp ->
  unless_oom ('(sp, id, _, cursor) ← intern_before HASHSYM (print_icf i ++ rest) sp;
              '(c, cursor) ← skip2 cursor;
              '(ic, cursor, sp) ← parse_icf c cursor sp;
              Ok (id, ic, cursor, sp)) (fun r =>
    pool_ok r.2 /\ extends sp r.2 /\ known r.2 (icf_strings i) /\ r.1.1 = icf_of r.2 i /\ r.1.2 = rest).
Proof using MS.
  intros Hi Hok. destruct i as [id src]. unfold print_icf. rewrite <- app_assoc. cbn [fst snd].
  assert (Hs : forall s, s ∈ icf_strings (id, src) -> free_of [HASHSYM] s) by exact Hi.
  unfold icf_strings in *. cbn [fst snd] in *.
  rewrite <- app_comm_cons. parse_string; [apply Hs; left|].
  destruct src as [c m|c|c k v t|t]; cbn [app skip2 mbind res_bind parse_icf Z.eqb Pos.eqb].
  - parse_string; [apply Hs; right; left|].
    parse_string; [apply Hs; do 2 right; left|]. parse_done.
  - parse_string; [apply Hs; right; left|]. parse_intern. parse_done.
  - parse_string; [apply Hs; right; left|].
    rewrite <- ?app_assoc, <- ?app_comm_cons.
    rewrite (get_string_found HASHSYM) by (apply quals_free || by left). cbn [mbind res_bind].
    parse_string; [apply Hs; do 2 right; left|]. parse_done. by destruct k, v.
  - parse_string; [apply Hs; right; left|]. parse_done.
Qed.

Lemma icf_length i : (0 < length (print_icf i))%nat.
Proof using. unfold print_icf. rewrite length_app. cbn. lia. Qed.

Lemma icfs_loop_found l : Forall icf_ok l -> forall fuel icfs sp, pool_ok sp ->
  (length (concat (print_icf <$> l)) < fuel)%nat ->
  unless_oom (icfs_loop fuel (concat (print_icf <$> l)) icfs sp) (fun r =>
    pool_ok r.2 /\ extends sp r.2 /\ known r.2 (concat (icf_strings <$> l)) /\ r.1 = icfs ++ (icf_of r.2 <$> l)).
Proof using MS.
  induction 1 as [|i l Hi Hl IH]; intros [|fuel] icfs sp Hok Hf; [cbn in Hf; lia| |cbn in Hf; lia|].
  - cbn. rewrite app_nil_r. split_and!; [done|done|apply known_nil|done].
  - cbn [fmap list_fmap concat] in *. rewrite length_app in Hf. pose proof (icf_length i).
    assert (Hloop : icfs_loop (S fuel) (print_icf i ++ concat (print_icf <$> l)) icfs sp =
      ('(sp, id, _, cursor) ← intern_before HASHSYM (print_icf i ++ concat (print_icf <$> l)) sp;
       '(c, cursor) ← skip2 cursor;
       '(ic, cursor, sp) ← parse_icf c cursor sp;
       Ok (id, ic, cursor, sp)) ≫= fun r => icfs_loop fuel r.1.2 (dict_put icfs r.1.1.1 r.1.1.2) r.2).
    { cbn [icfs_loop]. destruct (print_icf i ++ _) eqn:E; [destruct (print_icf i); [cbn in *; lia|done]|].
      destruct (intern_before _ _ sp) as [[[[sp1 id] st] c1]| | |]; [|done..]. cbn [mbind res_bind].
      destruct (skip2 c1) as [[c c2]| | |]; [|done..]. cbn [mbind res_bind].
      by destruct (parse_icf c c2 sp1) as [[[ic c3] sp2]| | |]. }
    rewrite Hloop. eapply unless_oom_bind; [by apply parse_icf_found|].
    intros [[[id ic] c1] sp1]. cbn [fst snd]. intros (Hok1 & He1 & Hk1 & Hic & ->).
    eapply unless_oom_mono; [apply IH; [done|lia]|].
    intros [ics sp2]. cbn [fst snd]. intros (Hok2 & He2 & Hk2 & ->). split_and!; [done|by etrans| |].
    + apply known_app. split; [by eapply known_extends|done].
    + rewrite (icf_of_extends sp1 sp2 i Hk1 He2), <- Hic. unfold dict_put. by rewrite <- app_assoc.
Qed.

(** C34.  Printing the indirect branches of a module and parsing the section
    gives them back, after the ones parsed before: every kind of branch, with
    each name the pointer the pool has for it.  The parser never runs past
    the section; it only fails when an allocation does. *)
Theorem parse_icfs_roundtrip l icfs sp : pool_ok sp -> Forall icf_ok l ->
  unless_oom (parse_icfs (concat (print_icf <$> l)) icfs sp) (fun r =>
    pool_ok r.2 /\ extends sp r.2 /\ known r.2 (concat (icf_strings <$> l)) /\ r.1 = icfs ++ (icf_of r.2 <$> l)).
Proof using MS. intros Hok Hl. unfold parse_icfs. apply icfs_loop_found; [done|done|lia]. Qed.
End icfs.

(** A virtual call, a call through a pointer to a constant method, and a
    plain one. *)
Definition sample_icfs : list (cstring * icf_src) :=
  [([105; 49], SVirtual [65] [102; 111; 111]);
   ([105; 50], SPointer [65] true false [118; 33]);
   ([105; 51], SNormal [118; 33])].

Lemma parse_icfs_roundtrip_witness :
  Forall icf_ok sample_icfs /\
  exists r, parse_icfs (concat (print_icf <$> sample_icfs)) [] [] = Ok r /\
    length r.1 = 3%nat /\ r.1 = icf_of r.2 <$> sample_icfs.
Proof.
  assert (Hok : Forall icf_ok sample_icfs) by (apply (bool_decide_unpack _); vm_compute; exact I).
  pose proof (parse_icfs_roundtrip sample_icfs [] [] pool_ok_nil Hok) as H.
  split; [exact Hok|]. destruct (parse_icfs _ _ _) as [r| | |] eqn:E in H |- *.
  2-4: vm_compute in E; discriminate E.
  destruct H as (_ & _ & _ & Hr). exists r. split; [reflexivity|]. split; [by rewrite Hr|exact Hr].
Defined.
