(* ===== verification/FuncFacts.v ===== *)
(** * The descriptions of functions survive printing and parsing

    A description is a name and lines in any order; a later line of a kind
    overrides an earlier one, or adds to it, as the parser has it. *)

From S2P Require Import Prelude Dict Graph Module StringPool MetaParse MetaFacts.

(** ** The format *)
Inductive fline : Type :=
  | LMethod (class_name method_name : cstring)
  | LDestructor (class_name : cstring)
  | LType (type : cstring)
  | LDtails (names : list cstring)
  | LItails (names : list cstring)
  | LReturns (names : list cstring)
  | LCtor (ctorname : cstring).

Fixpoint join (sep : Z) (l : list cstring) : cstring :=
  match l with
  | [] => []
  | [s] => s
  | s :: l' => s ++ sep :: join sep l'
  end.

Definition print_line (ln : fline) : list Z :=
  match ln with
  | LMethod c m => 78 :: BLANK :: c ++ HASHSYM :: m ++ [NEWLINE]
  | LDestructor c => 68 :: BLANK :: c ++ [NEWLINE]
  | LType t => 89 :: BLANK :: t ++ [NEWLINE]
  | LDtails l => 84 :: BLANK :: join BLANK l ++ [NEWLINE]
  | LItails l => 73 :: BLANK :: join BLANK l ++ [NEWLINE]
  | LReturns l => 82 :: BLANK :: join BLANK l ++ [NEWLINE]
  | LCtor c => 67 :: BLANK :: c ++ [NEWLINE]
  end.

(** [{ name], the lines, [}]. *)
Definition print_function (f : cstring * list fline) : list Z :=
  123 :: BLANK :: f.1 ++ NEWLINE :: concat (print_line <$> f.2) ++ [125; NEWLINE].

Definition line_strings (ln : fline) : list cstring :=
  match ln with
  | LMethod c m => [c; m]
  | LDestructor c => [c; [126]]
  | LType t => [t]
  | LDtails l | LItails l | LReturns l => l
  | LCtor c => [c]
  end.

Definition line_ok (ln : fline) : Prop :=
  match ln with
  | LMethod c m => free_of [HASHSYM] c /\ free_of [NEWLINE] m
  | LDestructor s | LType s | LCtor s => free_of [NEWLINE] s
  | LDtails l | LItails l | LReturns l => l <> [] /\ Forall (free_of [BLANK; NEWLINE]) l
  end.

Definition function_ok (f : cstring * list fline) : Prop := free_of [NEWLINE] f.1 /\ Forall line_ok f.2.

#[export] Instance line_ok_dec ln : Decision (line_ok ln).
Proof. destruct ln; apply _. Defined.
#[export] Instance function_ok_dec f : Decision (function_ok f).
Proof. apply _. Defined.

(** ** The meaning *)
Definition line_effect (sp : pool) (st : function * dict Z) (ln : fline) : function * dict Z :=
  let '(f, ctor) := st in
  match ln with
  | LMethod c m => (f {{ f_class_name := ptr sp c }} {{ f_method_name := ptr sp m }}, ctor)
  | LDestructor c => (f {{ f_class_name := ptr sp c }} {{ f_method_name := ptr sp [126] }}, ctor)
  | LType t => (f {{ f_type := ptr sp t }}, ctor)
  | LDtails l => (f {{ f_dtails := f_dtails f ++ (ptr sp <$> l) }}, ctor)
  | LItails l => (f {{ f_itails := f_itails f ++ (ptr sp <$> l) }}, ctor)
  | LReturns l => (f {{ f_returns := f_returns f ++ (ptr sp <$> l) }}, ctor)
  | LCtor c => (f, if dict_in ctor (f_name f) then ctor else dict_put ctor (f_name f) (ptr sp c))
  end.

Definition function_effect (sp : pool) (st : list function * dict Z) (f : cstring * list fline)
    : list function * dict Z :=
  let '(g, ctor) := foldl (line_effect sp) (mkFunction (ptr sp f.1) 0 0 0 [] [] [], st.2) f.2 in
  (st.1 ++ [g], ctor).

Definition function_strings (f : cstring * list fline) : list cstring :=
  f.1 :: concat (line_strings <$> f.2).

(** ** Lists of names *)
Lemma join_free sep seps l : sep ∉ seps -> sep <> 0 -> Forall (free_of (sep :: seps)) l -> free_of seps (join sep l).
Proof.
  intros Hsep H0. induction 1 as [|s l Hs Hl IH]; cbn; [intros b Hb; by apply not_elem_of_nil in Hb|].
  assert (Hs' : free_of seps s) by (eapply free_of_sub; [|exact Hs]; set_solver).
  destruct l; [done|]. intros b [Hb|[->|Hb]%elem_of_cons]%elem_of_app; [by apply Hs'|done|by apply IH].
Qed.

Lemma names_free l : Forall (free_of [BLANK; NEWLINE]) l -> free_of [NEWLINE] (join BLANK l).
Proof. apply (join_free BLANK [NEWLINE]); [by rewrite list_elem_of_singleton|done]. Qed.

Section functions.
Context `{M : Malloc} `{MS : !MallocSpec M}.

Lemma node_list_found sep l : l <> [] -> Forall (free_of [sep]) l -> sep <> 0 -> forall fuel acc sp,
  pool_ok sp -> (length (join sep l) < fuel)%nat ->
  unless_oom (node_list_loop fuel sep (join sep l ++ [0]) acc sp) (fun r =>
    pool_ok r.2 /\ extends sp r.2 /\ known r.2 l /\ r.1 = acc ++ (ptr r.2 <$> l)).
Proof using MS.
  intros Hne Hl H0. revert Hne. induction Hl as [|s l Hs Hl IH]; [done|].
  intros _ [|fuel] acc sp Hok Hf; [lia|]. cbn [node_list_loop]. destruct l as [|s' l].
  - cbn [join]. parse_string; [done|]. cbn. split_and!; done.
  - change (join sep (s :: s' :: l)) with (s ++ sep :: join sep (s' :: l)) in *.
    parse_string; [done|]. rewrite (proj2 (Z.eqb_neq sep 0)) by done. cbn [negb].
    eapply unless_oom_mono; [apply IH; [done|done|]|].
    + rewrite length_app in Hf. cbn [length] in Hf. lia.
    + intros [ns sp2]. cbn [fst snd]. intros (Hok2 & He2 & Hk2 & ->). split_and!; [done|by etrans| |].
      * apply known_cons in Hk as [Hk _]. apply known_cons. split; [destruct Hk as [p Hp]; exists p; by apply He2|done].
      * apply known_cons in Hk as [Hk _]. cbn [fmap list_fmap]. rewrite (ptr_extends _ _ s Hk He2).
        by rewrite <- app_assoc.
Qed.

Lemma add_node_list_found l acc sp : l <> [] -> Forall (free_of [BLANK; NEWLINE]) l -> pool_ok sp ->
  unless_oom (add_node_list (join BLANK l) BLANK acc sp) (fun r =>
    pool_ok r.2 /\ extends sp r.2 /\ known r.2 l /\ r.1 = acc ++ (ptr r.2 <$> l)).
Proof using MS.
  intros Hne Hl Hok. apply node_list_found; [done| |done|done|lia].
  eapply Forall_impl; [exact Hl|]. intros s. apply free_of_sub. set_solver.
Qed.

(** A line that lists names. *)
Ltac names_line Hln :=
  let Hne := fresh in let Hl := fresh in destruct Hln as [Hne Hl];
  rewrite <- app_assoc; cbn [app];
  rewrite get_string_found by (by left || by apply names_free);
  cbn [mbind res_bind];
  eapply unless_oom_bind; [by apply add_node_list_found|];
  let ns := fresh in let sp := fresh "sp" in
  intros [ns sp]; cbn [fst snd]; intros (?&?&?&->); parse_done.

(** ** One line *)
Lemma line_effect_extends sp sp' st ln : known sp (line_strings ln) -> extends sp sp' ->
  line_effect sp' st ln = line_effect sp st ln.
Proof using.
  intros Hk He. destruct st as [f ctor], ln; cbn [line_effect line_strings] in *.
  1-3, 7: rewrite ?known_cons in Hk; destruct_and?; by rewrite ?(ptr_extends sp sp') by done.
  all: by rewrite (ptrs_extends sp sp').
Qed.

Lemma line_found ln f functions ctor sp rest : line_ok ln -> pool_ok sp ->
  unless_oom ('(c, cursor) ← skip2 (print_line ln ++ rest);
              function_line c cursor (Some f) functions ctor sp) (fun r =>
    pool_ok r.1.2 /\ extends sp r.1.2 /\ known r.1.2 (line_strings ln) /\ r.2 = false /\
    r.1.1.1.1.1 = rest /\ r.1.1.1.2 = functions /\
    (r.1.1.1.1.2, r.1.1.2) = prod_map Some id (line_effect r.1.2 (f, ctor) ln)).
Proof using MS.
  intros Hln Hok. destruct ln as [c m|c|t|l|l|l|c]; cbn [print_line line_ok] in *.
  all: rewrite <- ?app_comm_cons; cbn [skip2 mbind res_bind function_line Z.eqb Pos.eqb deref].
  - destruct Hln as [Hc Hm]. parse_string; [done|]. parse_string; [done|]. parse_done.
  - parse_string; [done|]. parse_intern. parse_done.
  - parse_string; [done|]. parse_done.
  - names_line Hln.
  - names_line Hln.
  - names_line Hln.
  - parse_string; [done|]. parse_done.
Qed.

(** ** The loops *)
Lemma line_length ln : (0 < length (print_line ln))%nat.
Proof using. destruct ln; cbn; lia. Qed.

Lemma lines_effect_extends sp sp' ls st : known sp (concat (line_strings <$> ls)) -> extends sp sp' ->
  foldl (line_effect sp') st ls = foldl (line_effect sp) st ls.
Proof using.
  intros Hk He. revert st Hk. induction ls as [|ln ls IH]; intros st; cbn; [done|].
  intros [Hk1 Hk2]%known_app. by rewrite (line_effect_extends sp sp'), IH.
Qed.

Lemma function_effect_extends sp sp' st g : known sp (function_strings g) -> extends sp sp' ->
  function_effect sp' st g = function_effect sp st g.
Proof using.
  intros [Hn Hk]%known_cons He. unfold function_effect.
  by rewrite (lines_effect_extends sp sp'), (ptr_extends sp sp').
Qed.

(** One turn of the inner loop. *)
Lemma functions_loop_turn fuel cursor f functions ctor sp :
  functions_loop (S fuel) cursor false f functions ctor sp =
  ('(c, cursor) ← skip2 cursor; function_line c cursor f functions ctor sp)
    ≫= fun r => functions_loop fuel r.1.1.1.1.1 r.2 r.1.1.1.1.2 r.1.1.1.2 r.1.1.2 r.1.2.
Proof using.
  cbn [functions_loop andb]. destruct (skip2 cursor) as [[c c1]| | |]; [|done..].
  cbn [mbind res_bind]. by destruct (function_line _ _ _ _ _ _) as [[[[[[? ?] ?] ?] ?] ?]| | |].
Qed.

(** The lines of a record lead the loop to what comes after them. *)
Lemma lines_loop_found ls : Forall line_ok ls -> forall fuel f functions ctor sp rest Q, pool_ok sp ->
  (length (concat (print_line <$> ls) ++ rest) < fuel)%nat ->
  (forall fuel' sp' f' ctor', (length rest < fuel')%nat -> pool_ok sp' -> extends sp sp' ->
    known sp' (concat (line_strings <$> ls)) -> foldl (line_effect sp') (f, ctor) ls = (f', ctor') ->
    unless_oom (functions_loop fuel' rest false (Some f') functions ctor' sp') Q) ->
  unless_oom (functions_loop fuel (concat (print_line <$> ls) ++ rest) false (Some f) functions ctor sp) Q.
Proof using MS.
  induction 1 as [|ln ls Hln Hls IH]; intros fuel f functions ctor sp rest Q Hok Hf HQ.
  - apply HQ; [done|done|done|apply known_nil|done].
  - destruct fuel as [|fuel]; [lia|]. cbn [fmap list_fmap concat] in *. rewrite <- app_assoc in *.
    rewrite length_app in Hf. pose proof (line_length ln).
    rewrite functions_loop_turn. eapply unless_oom_bind; [by apply line_found|].
    intros [[[[[c1 f1] fs1] ctor1] sp1] st1]. cbn [fst snd].
    intros (Hok1 & He1 & Hk1 & -> & -> & -> & Heff).
    destruct (line_effect sp1 (f, ctor) ln) as [f2 ctor2] eqn:E. cbn in Heff. injection Heff as -> ->.
    apply IH; [done|lia|]. intros fuel' sp2 f' ctor' Hf' Hok2 He2 Hk2 Hfold.
    apply HQ; [done|done|by etrans| |].
    + apply known_app. split; [by eapply known_extends|done].
    + cbn [foldl]. by rewrite (line_effect_extends sp1 sp2), E.
Qed.

Lemma functions_loop_found l : Forall function_ok l -> forall fuel functions ctor sp, pool_ok sp ->
  (length (concat (print_function <$> l)) < fuel)%nat ->
  unless_oom (functions_loop fuel (concat (print_function <$> l)) true None functions ctor sp) (fun r =>
    pool_ok r.2 /\ extends sp r.2 /\ known r.2 (concat (function_strings <$> l)) /\
    r.1 = foldl (function_effect r.2) (functions, ctor) l).
Proof using MS.
  induction 1 as [|g l [Hn Hls] Hl IH]; intros [|fuel] functions ctor sp Hok Hf; [cbn in Hf; lia| |cbn in Hf; lia|].
  { cbn. split_and!; [done|done|apply known_nil|done]. }
  cbn [fmap list_fmap concat] in *.
  change (print_function g) with (123 :: BLANK :: g.1 ++ NEWLINE :: concat (print_line <$> g.2) ++ [125; NEWLINE]) in *.
  rewrite <- ?app_comm_cons, <- ?app_assoc in *. cbn [length] in Hf. rewrite length_app in Hf.
  cbn [functions_loop length Nat.eqb andb skip2 mbind res_bind function_line Z.eqb Pos.eqb].
  parse_string; [done|]. rewrite <- app_assoc.
  replace (NEWLINE =? 0) with false by done. cbn [mbind res_bind].
  apply lines_loop_found; [done|done|revert Hf; rewrite <- app_comm_cons, <- app_assoc; cbn [length]; lia|].
  intros [|fuel'] sp2 f ctor2 Hf' Hok2 He2 Hk2 Hfold; [lia|].
  cbn [app functions_loop andb skip2 mbind res_bind function_line Z.eqb Pos.eqb deref].
  eapply unless_oom_mono; [apply IH; [done|cbn [app length] in Hf'; lia]|].
  intros [fs sp3]. cbn [fst snd]. intros (Hok3 & He3 & Hk3 & ->).
  assert (Hg : known sp2 (function_strings g)).
  { apply known_cons in Hk as [Hk _]. apply known_cons. split; [|done].
    destruct Hk as [p Hp]. exists p. by apply He2. }
  split_and!; [done|by do 2 (etrans; [eassumption|])| |].
  - apply known_app. split; [by eapply known_extends|done].
  - apply known_cons in Hk as [Hk _]. cbn [foldl]. rewrite (function_effect_extends sp2 sp3) by done.
    f_equal. unfold function_effect. cbn [snd]. by rewrite (ptr_extends _ _ _ Hk He2), Hfold.
Qed.

(** Printing the functions of a module and parsing the section gives
    them back, after the ones parsed before: the name, class, method and
    type of each, the functions it tail-calls and the types of its indirect
    tail calls and returns in their order, and the constructors registered
    for it.  The parser never runs past the section and never uses a record
    it has not opened; it only fails when an allocation does. *)
Theorem parse_functions_roundtrip l functions ctor sp : pool_ok sp -> Forall function_ok l ->
  unless_oom (parse_functions (concat (print_function <$> l)) functions ctor sp) (fun r =>
    pool_ok r.2 /\ extends sp r.2 /\ known r.2 (concat (function_strings <$> l)) /\
    r.1 = foldl (function_effect r.2) (functions, ctor) l).
Proof using MS. intros Hok Hl. unfold parse_functions. apply functions_loop_found; [done|done|lia]. Qed.
End functions.

(** A method that tail-calls two functions and is the target of a return. *)
Definition sample_functions : list (cstring * list fline) :=
  [([102], [LMethod [65] [109]; LType [118; 33]; LDtails [[103]; [104]]; LReturns [[118; 33]]]);
   ([103], [LType [105; 33]; LItails [[118; 33]]; LCtor [65]])].

Lemma parse_functions_roundtrip_witness :
  Forall function_ok sample_functions /\
  exists r, parse_functions (concat (print_function <$> sample_functions)) [] [] [] = Ok r /\
    length r.1.1 = 2%nat /\ r.1 = foldl (function_effect r.2) ([], []) sample_functions.
Proof.
  assert (Hok : Forall function_ok sample_functions) by (apply (bool_decide_unpack _); vm_compute; exact I).
  pose proof (parse_functions_roundtrip sample_functions [] [] [] pool_ok_nil Hok) as H.
  split; [exact Hok|]. destruct (parse_functions _ _ _ _) as [r| | |] eqn:E in H |- *.
  2-4: vm_compute in E; discriminate E.
  destruct H as (_ & _ & _ & Hr). exists r. split; [reflexivity|].
  split; [vm_compute in E; injection E as <-; reflexivity|exact Hr].
Defined.
