(* ===== verification/CodeMeta.v ===== *)
(** * Metadata of just-in-time compiled code ([runtime.c], [reg_cfg_metadata])

    A just-in-time compiler copies functions of the program into a code heap
    and registers the copies: a new address of a function, a new branch, a new
    return address.  The runtime gives the copy the identifier of the
    original.  [md] is the second argument and [md_string] the string there,
    for the types that take one.  [STATIC_BID_SLOT_END], which only the
    statistics read, is left out, but not the slot it takes. *)

From S2P Require Import Prelude Dict Graph Module StringPool Table Runtime CodeHeap.

Definition ROCK_FUNC_SYM : Z := 0.
Definition ROCK_ICJ : Z := 1.
Definition ROCK_ICJ_SYM : Z := 2.
Definition ROCK_RAI : Z := 3.
Definition ROCK_ICJ_UNREG : Z := 4.
Definition ROCK_ICJ_SYM_UNREG : Z := 5.
Definition ROCK_RAI_UNREG : Z := 6.
Definition ROCK_FUNC_SYM_UNREG : Z := 7.
Definition ROCK_RET : Z := 8.

(** ** Queries *)
(** The name of the function at an address, or NULL. *)
Definition query_function_name (addr : Z) (ms : list code_module) : Z :=
  match find_module addr ms with
  | None => 0
  | Some (_, m) =>
    match List.find (fun s => s_offset s =? addr - base_addr m) (funcsyms m) with
    | Some s => s_name s
    | None => 0
    end
  end.

Definition found {A} (o : option A) : res A :=
  match o with
  | Some a => Ok a
  | None => Exit
  end.

Fixpoint find_rad (name : Z) (ms : list code_module) : option Z :=
  match ms with
  | [] => None
  | m :: ms' =>
    match List.find (fun r => name =? s_name r) (rad m) with
    | Some r => Some (u64 (s_offset r + base_addr m))
    | None => find_rad name ms'
    end
  end.
Definition query_rad (name : Z) (ms : list code_module) : res Z := found (find_rad name ms).

Definition query_function (name : Z) (ms : list code_module) : res function :=
  found (List.find (fun f => name =? f_name f) (concat (functions <$> ms))).

Definition query_icfsym (name : Z) (ms : list code_module) : res symbol :=
  found (List.find (fun s => name =? s_name s) (concat (icfsyms <$> ms))).

Section reg.
Context `{M : Malloc}.

(** Interning in the pool of the runtime. *)
Definition intern (s : cstring) (rt : runtime) : res (runtime * Z) :=
  '(sp, p) ← sp_intern_string (stringpool rt) s;
  Ok (rt {{ stringpool := sp }}, p).

(** ** Registering

    [o] is the module of the handle, with its place; it may be NULL. *)
Definition reg_func_sym (o : option (nat * code_module)) (new_addr addr : Z) (rt : runtime) : res runtime :=
  '(i, m) ← deref (Some o);
  if negb (in_module new_addr m) || negb (new_addr mod 8 =? 0) then Exit
  else if (FourGB <=? addr) || negb (addr mod 8 =? 0) then Exit
  else
    let name := query_function_name addr (modules rt) in
    _ ← CHECK (negb (name =? 0));
    Ok (set_module i (m {{ funcsyms := funcsyms m ++ [mkSymbol name (new_addr - base_addr m)] }})
          (rt {{ table := write64 (table rt) new_addr (read64 (table rt) addr) }})).

(** The name and the slot of the return of a function, cached. *)
Definition ret_slot (extra : Z) (rt : runtime) : res (runtime * Z * Z) :=
  match dict_find (ret_name rt) extra with
  | None =>
    let name := query_function_name extra (modules rt) in
    _ ← CHECK (negb (name =? 0));
    func ← query_function name (modules rt);
    match f_returns func with
    | [] => Exit
    | name :: _ =>
      names ← dict_add (ret_name rt) extra name;
      sym ← query_icfsym name (modules rt);
      let bid_slot := u32 (s_offset sym) in
      offsets ← dict_add (ret_offset rt) extra bid_slot;
      Ok (rt {{ ret_name := names }} {{ ret_offset := offsets }}, name, bid_slot)
    end
  | Some name =>
    r ← found (dict_find (ret_offset rt) extra);
    Ok (rt, name, u32 r)
  end.

(** The slot is written into the four bytes before an address of the code,
    which end an instruction. *)
Definition patch_slot (m : code_module) (addr bid_slot : Z) (rt : runtime) : runtime :=
  rt {{ osb := write32 (osb rt) (u64 (osb_base_addr m + (addr - base_addr m - 4))) bid_slot }}.

Definition add_icfsym (i : nat) (m : code_module) (name bid_slot : Z) (rt : runtime) : runtime :=
  set_module i (m {{ icfsyms := icfsyms m ++ [mkSymbol name bid_slot] }}) rt.

Definition reg_ret (o : option (nat * code_module)) (addr extra : Z) (rt : runtime) : res runtime :=
  '(rt, name, bid_slot) ← ret_slot extra rt;
  '(i, m) ← deref (Some o);
  if negb (in_module addr m) then Exit
  else Ok (add_icfsym i m name bid_slot (patch_slot m addr bid_slot rt)).

Definition reg_icj (o : option (nat * code_module)) (md_string : cstring) (extra : Z) (rt : runtime) : res runtime :=
  '(rt, id) ← intern md_string rt;
  '(i, m) ← deref (Some o);
  if dict_in (icfs m) id then Ok rt
  else
    '(rt, ic_id) ← intern md_string rt;
    let name := query_function_name extra (modules rt) in
    _ ← CHECK (negb (name =? 0));
    f ← query_function name (modules rt);
    let rt := set_module i (m {{ icfs := dict_put (icfs m) ic_id (NormalCall (f_type f)) }}) rt in
    targets ← dict_add (icj_target rt) id extra;
    ra ← query_rad name (modules rt);
    rets ← dict_add (icj_target_ret rt) id ra;
    Ok (rt {{ icj_target := targets }} {{ icj_target_ret := rets }}).

(** The slot of a branch of the heap, allocated the first time, and the
    module that records it. *)
Definition icj_slot (m : code_module) (name : Z) (rt : runtime) : res (runtime * code_module * Z) :=
  match dict_find (bid_slot_in_codeheap m) name with
  | None =>
    let '(rt, bid_slot) := alloc_bid_slot rt in
    slots ← dict_add (bid_slot_in_codeheap m) name bid_slot;
    icj ← found (dict_find (icj_target rt) name);
    Ok (rt {{ table := write64 (table rt) bid_slot (read64 (table rt) icj) }},
        m {{ bid_slot_in_codeheap := slots }}, bid_slot)
  | Some slot => Ok (rt, m, u32 slot)
  end.

Definition reg_icj_sym (o : option (nat * code_module)) (md_string : cstring) (addr : Z) (rt : runtime)
    : res runtime :=
  '(i, m) ← deref (Some o);
  if negb (in_module addr m) then Exit
  else
    '(rt, name) ← intern md_string rt;
    '(rt, m, bid_slot) ← icj_slot m name rt;
    Ok (add_icfsym i m name bid_slot (patch_slot m addr bid_slot rt)).

Definition reg_rai (o : option (nat * code_module)) (md_string : cstring) (addr : Z) (rt : runtime) : res runtime :=
  '(rt, name) ← intern md_string rt;
  '(i, m) ← deref (Some o);
  if negb (in_module addr m) || negb (addr mod 8 =? 0) then Exit
  else
    let rt := set_module i (m {{ rai := rai m ++ [mkSymbol name (addr - base_addr m)] }}) rt in
    ra ← found (dict_find (icj_target_ret rt) name);
    let t := write64 (table rt) addr (read64 (table rt) ra) in
    Ok (rt {{ table := write64 t addr (Z.lor (read64 t addr) 1) }}).

(** ** Unregistering *)
Definition unreg_icj_sym (o : option (nat * code_module)) (md_string : cstring) (rt : runtime) : res runtime :=
  '(rt, name) ← intern md_string rt;
  '(i, m) ← deref (Some o);
  Ok (set_module i (m {{ icfsyms := List.filter (fun s => negb (name =? s_name s)) (icfsyms m) }}) rt).

Definition without (offset : Z) (l : list symbol) : list symbol :=
  List.filter (fun s => negb (s_offset s =? offset)) l.

Definition unreg_rai (o : option (nat * code_module)) (addr : Z) (rt : runtime) : res runtime :=
  '(i, m) ← deref (Some o);
  if negb (in_module addr m) || negb (addr mod 8 =? 0) then Exit
  else Ok (set_module i (m {{ rai := without (addr - base_addr m) (rai m) }})
             (rt {{ table := write64 (table rt) addr 0 }})).

(** The case has no [break]: it goes on to the next one. *)
Definition unreg_func_sym (o : option (nat * code_module)) (addr : Z) (rt : runtime) : res runtime :=
  '(i, m) ← deref (Some o);
  if negb (in_module addr m) || negb (addr mod 8 =? 0) then Exit
  else
    let m := m {{ funcsyms := without (addr - base_addr m) (funcsyms m) }} in
    unreg_rai (Some (i, m)) addr (set_module i m (rt {{ table := write64 (table rt) addr 0 }})).

Definition reg_cfg_metadata (h : option nat) (type md : Z) (md_string : cstring) (extra : Z) (rt : runtime)
    : res runtime :=
  o ← get_code_heap h rt;
  let '(rt, _) := alloc_bid_slot rt in
  if type =? ROCK_FUNC_SYM then reg_func_sym o md extra rt
  else if type =? ROCK_RET then reg_ret o md extra rt
  else if type =? ROCK_ICJ then reg_icj o md_string extra rt
  else if type =? ROCK_ICJ_SYM then reg_icj_sym o md_string extra rt
  else if type =? ROCK_RAI then reg_rai o md_string extra rt
  else if type =? ROCK_ICJ_SYM_UNREG then unreg_icj_sym o md_string rt
  else if type =? ROCK_FUNC_SYM_UNREG then unreg_func_sym o md rt
  else if type =? ROCK_RAI_UNREG then unreg_rai o md rt
  else Exit.
End reg.
