(* ===== verification/CodeMetaFacts.v ===== *)
(** * What registering metadata of just-in-time compiled code does

    A registration stays within the code heap and the slot it may take, and
    a registered copy of a branch has the identifiers of the original. *)

From S2P Require Import Prelude Dict Graph Module StringPool Table Runtime Threads Patch Verifier CodeHeap CodeHeapFacts CodeMeta.

(** The module keeps its place, its functions, its verifier and its areas. *)
Record same_heap (m m' : code_module) : Prop := {
  same_base : base_addr m' = base_addr m;
  same_osb : osb_base_addr m' = osb_base_addr m;
  same_sz : sz m' = sz m;
  same_bitmap : code_data_bitmap m' = code_data_bitmap m;
  same_verifier : m_verifier m' = m_verifier m;
  same_kind : code_heap m' = code_heap m;
  same_functions : functions m' = functions m;
  same_rad : rad m' = rad m;
}.

(** What changes when the heap at [i] is registered with. *)
Record confined (i : nat) (m : code_module) (slot : Z) (rt rt' : runtime) : Prop := {
  conf_heap : exists m', modules rt' = <[i := m']> (modules rt) /\ same_heap m m';
  conf_table : forall x, ~ (base_addr m <= x < base_addr m + sz m) -> ~ (slot <= x < slot + 8) ->
    table rt' x = table rt x;
  conf_osb : forall x, ~ (osb_base_addr m - 4 <= x < osb_base_addr m + sz m) -> osb rt' x = osb rt x;
  conf_slots : bid_slot rt' = slot \/ bid_slot rt' = u32 (slot + 8);
  conf_vm : VM rt' = VM rt;
  conf_threads : tcb_list rt' = tcb_list rt /\ thread_escape_map rt' = thread_escape_map rt;
}.

Section facts.
Context `{M : Malloc}.

Lemma intern_frame s rt rt' p : intern s rt = Ok (rt', p) -> exists sp, rt' = rt {{ stringpool := sp }}.
Proof using.
  unfold intern. destruct (sp_intern_string _ _) as [[sp q]| | |]; [|done..]. cbn. intros [= <- <-]. by exists sp.
Qed.

Lemma in_module_range addr m v : heap_ok m v -> in_module addr m = true ->
  base_addr m <= addr < base_addr m + sz m.
Proof using.
  intros [(? & ? & ?) _ _ _ _ _ _]. unfold in_module. rewrite andb_true_iff, Z.leb_le, Z.ltb_lt.
  intros [Hlo Hhi]. rewrite u64_small in Hhi; [lia|]. change FourGB with 4294967296 in *. lia.
Qed.

Lemma write64_out t a v x : ~ (a <= x < a + 8) -> write64 t a v x = t x.
Proof using. intros Hx. apply write_le_out. lia. Qed.
Lemma write32_out t a v x : ~ (a <= x < a + 4) -> write32 t a v x = t x.
Proof using. intros Hx. apply write_le_out. lia. Qed.

Lemma aligned_range addr m v : heap_ok m v -> sz m mod 8 = 0 -> in_module addr m = true -> addr mod 8 = 0 ->
  base_addr m <= addr /\ addr + 8 <= base_addr m + sz m.
Proof using.
  intros Hok Hsz Hin Ha. apply (in_module_range _ _ v Hok) in Hin. pose proof (hok_aligned _ _ Hok). div_lia.
Qed.

(** The place of the slot before an address of the heap: at the start of the
    heap it is before the heap. *)
Definition slot_place (m : code_module) (addr : Z) : Z := osb_base_addr m + (addr - base_addr m - 4).

Lemma slot_place_u64 addr m v : heap_ok m v -> 4 <= osb_base_addr m -> in_module addr m = true ->
  u64 (osb_base_addr m + (addr - base_addr m - 4)) = slot_place m addr.
Proof using.
  intros Hok H4 Hin. apply (in_module_range _ _ v Hok) in Hin. destruct (hok_osb _ _ Hok).
  unfold slot_place. rewrite u64_small; lia.
Qed.

Section steps.
Context (i : nat) (m : code_module) (v : verifier) (Hok : heap_ok m v) (Hsz : sz m mod 8 = 0)
  (Hosb : 4 <= osb_base_addr m).
Implicit Types rt : runtime.

(** A registration ends by storing the module; before, it has changed a word
    of the heap's part of the table or the slot, and the code before an
    address. *)
Lemma confined_intro rt t o m' rt' : same_heap m m' ->
  (forall x, ~ (base_addr m <= x < base_addr m + sz m) -> ~ (bid_slot rt <= x < bid_slot rt + 8) -> t x = table rt x) ->
  (forall x, ~ (osb_base_addr m - 4 <= x < osb_base_addr m + sz m) -> o x = osb rt x) ->
  modules rt' = <[i := m']> (modules rt) -> table rt' = t -> osb rt' = o ->
  bid_slot rt' = bid_slot rt \/ bid_slot rt' = u32 (bid_slot rt + 8) ->
  VM rt' = VM rt -> tcb_list rt' = tcb_list rt -> thread_escape_map rt' = thread_escape_map rt ->
  confined i m (bid_slot rt) rt rt'.
Proof using. intros Hm Ht Ho Hms <- <- Hb Hv Hl He. split; eauto. Qed.

Ltac fields := cbn; unfold constant; first [reflexivity | by left | by right].

Lemma reg_func_sym_confined new_addr addr rt rt' : modules rt !! i = Some m ->
  reg_func_sym (Some (i, m)) new_addr addr rt = Ok rt' -> confined i m (bid_slot rt) rt rt'.
Proof using Hok Hsz.
  intros Hi. unfold reg_func_sym. cbn [deref mbind res_bind].
  destruct (in_module new_addr m) eqn:Hin; [|done].
  destruct (Z.eqb_spec (new_addr mod 8) 0) as [Ha|]; [|done]. cbn [negb orb].
  destruct (_ || _); [done|]. intros H. res_inv. pose proof (aligned_range _ _ v Hok Hsz Hin Ha).
  eapply confined_intro; [| | |fields..]; [by split| |done].
  intros x Hx _. rewrite write64_out; [done|lia].
Qed.

Lemma unreg_rai_confined addr rt rt' m' : same_heap m m' ->
  unreg_rai (Some (i, m')) addr rt = Ok rt' -> confined i m (bid_slot rt) rt rt'.
Proof using Hok Hsz.
  intros Hm'. unfold unreg_rai. cbn [deref mbind res_bind].
  assert (Hin' : in_module addr m' = in_module addr m) by (destruct Hm'; unfold in_module; congruence).
  destruct (in_module addr m') eqn:Hin; [|done].
  destruct (Z.eqb_spec (addr mod 8) 0) as [Ha|]; [|done]. cbn [negb orb].
  intros H. res_inv. pose proof (aligned_range _ _ v Hok Hsz (eq_sym Hin') Ha).
  eapply confined_intro; [| | |fields..]; [by destruct Hm'; split| |done].
  intros x Hx _. rewrite write64_out; [done|lia].
Qed.

Lemma reg_rai_confined s addr rt rt' :
  reg_rai (Some (i, m)) s addr rt = Ok rt' -> confined i m (bid_slot rt) rt rt'.
Proof using Hok Hsz.
  unfold reg_rai. intros H. apply bind_Ok_inv in H as ([rt1 name] & H1 & H).
  apply intern_frame in H1 as (sp & ->). cbn [deref mbind res_bind] in H.
  destruct (in_module addr m) eqn:Hin; [|done].
  destruct (Z.eqb_spec (addr mod 8) 0) as [Ha|]; [|done]. cbn [negb orb] in H.
  res_inv. pose proof (aligned_range _ _ v Hok Hsz Hin Ha).
  eapply confined_intro; [| | |fields..]; [by split| |done].
  intros x Hx _. rewrite !write64_out; [done|lia|lia].
Qed.

Lemma osb_patch_slot addr b rt :
  osb (patch_slot m addr b rt) = write32 (osb rt) (u64 (osb_base_addr m + (addr - base_addr m - 4))) b.
Proof using. reflexivity. Qed.

Lemma patch_slot_out addr b rt x : in_module addr m = true ->
  ~ (osb_base_addr m - 4 <= x < osb_base_addr m + sz m) -> osb (patch_slot m addr b rt) x = osb rt x.
Proof using Hok Hosb.
  intros Hin Hx. rewrite osb_patch_slot, (slot_place_u64 _ _ v) by done.
  apply (in_module_range _ _ v Hok) in Hin. unfold slot_place. rewrite write32_out; [done|lia].
Qed.

Lemma reg_ret_confined addr extra rt rt' :
  reg_ret (Some (i, m)) addr extra rt = Ok rt' -> confined i m (bid_slot rt) rt rt'.
Proof using Hok Hosb.
  unfold reg_ret. intros H. apply bind_Ok_inv in H as ([[rt1 name] b] & H1 & H).
  assert (Hrt1 : exists n o, rt1 = rt {{ ret_name := n }} {{ ret_offset := o }}).
  { revert H1. unfold ret_slot. destruct (dict_find (ret_name rt) extra).
    - intros H1. res_inv. exists (ret_name rt1), (ret_offset rt1). by destruct rt1.
    - intros H1. res_inv. destruct (f_returns _); [done|]. res_inv. by eexists _, _. }
  destruct Hrt1 as (n & o & ->). cbn [deref mbind res_bind] in H.
  destruct (in_module addr m) eqn:Hin; [|done]. cbn [negb] in H. res_inv.
  eapply confined_intro; [| | |fields..]; [by split|done|].
  intros x. by apply patch_slot_out.
Qed.

Lemma reg_icj_confined s extra rt rt' : modules rt !! i = Some m ->
  reg_icj (Some (i, m)) s extra rt = Ok rt' -> confined i m (bid_slot rt) rt rt'.
Proof using.
  intros Hi. unfold reg_icj. intros H. apply bind_Ok_inv in H as ([rt1 name] & H1 & H).
  apply intern_frame in H1 as (sp & ->). cbn [deref mbind res_bind] in H.
  destruct (dict_in (icfs m) name).
  - res_inv. apply (confined_intro _ (table rt) (osb rt) m); [by split|done|done|..].
    2-7: fields. cbn. by rewrite list_insert_id.
  - apply bind_Ok_inv in H as ([rt2 name2] & H2 & H). apply intern_frame in H2 as (sp2 & ->). res_inv.
    eapply confined_intro; [| | |fields..]; [by split|done|done].
Qed.

Lemma reg_icj_sym_confined s addr rt rt' :
  reg_icj_sym (Some (i, m)) s addr rt = Ok rt' -> confined i m (bid_slot rt) rt rt'.
Proof using Hok Hosb.
  unfold reg_icj_sym. cbn [deref mbind res_bind].
  destruct (in_module addr m) eqn:Hin; [|done]. cbn [negb]. intros H.
  apply bind_Ok_inv in H as ([rt1 name] & H1 & H). apply intern_frame in H1 as (sp & ->).
  apply bind_Ok_inv in H as ([[rt2 m2] b] & H2 & H). res_inv. revert H2. unfold icj_slot.
  destruct (dict_find (bid_slot_in_codeheap m) name).
  - intros [= <- <- <-]. eapply confined_intro; [| | |fields..]; [by split|done|].
    intros x. by apply patch_slot_out.
  - intros H. cbn [alloc_bid_slot] in H. res_inv.
    eapply confined_intro; [| | |fields..]; [by split| |].
    + intros x _ Hx. rewrite write64_out; done.
    + intros x. by apply patch_slot_out.
Qed.

Lemma unreg_icj_sym_confined s rt rt' :
  unreg_icj_sym (Some (i, m)) s rt = Ok rt' -> confined i m (bid_slot rt) rt rt'.
Proof using.
  unfold unreg_icj_sym. intros H. apply bind_Ok_inv in H as ([rt1 name] & H1 & H).
  apply intern_frame in H1 as (sp & ->). cbn [deref mbind res_bind] in H. res_inv.
  eapply confined_intro; [| | |fields..]; [by split|done|done].
Qed.

Lemma unreg_func_sym_confined addr rt rt' :
  unreg_func_sym (Some (i, m)) addr rt = Ok rt' -> confined i m (bid_slot rt) rt rt'.
Proof using Hok Hsz.
  unfold unreg_func_sym. cbn [deref mbind res_bind].
  destruct (in_module addr m) eqn:Hin; [|done].
  destruct (Z.eqb_spec (addr mod 8) 0) as [Ha|]; [|done]. cbn [negb orb].
  pose proof (aligned_range _ _ v Hok Hsz Hin Ha) as Hr.
  intros H. apply unreg_rai_confined in H; [|by split]. destruct H as [(m' & Hms & Hm) Ht Ho Hb Hv [Hl He]].
  apply (confined_intro _ (table rt') (osb rt') m'); [done| |done|..|done|done|done|done].
  - intros x Hx Hs. rewrite (Ht x Hx Hs). apply write64_out. lia.
  - rewrite Hms. apply list_insert_insert_eq.
  - done.
  - done.
Qed.

(** C35.  A registration keeps to the code heap of its handle: the handle is
    one, the other modules do not change, nor the code, verifier and areas of
    this one; the table changes in the heap's part and in the one slot the
    registration may take, and the code in the heap's writable mapping, but
    for the four bytes before it: nothing keeps a slot at the start of the
    heap from being written there. *)
Theorem reg_cfg_metadata_confined h type md s extra rt rt' : h = Some i -> modules rt !! i = Some m ->
  reg_cfg_metadata h type md s extra rt = Ok rt' ->
  code_heap m = true /\ confined i m (u32 (bid_slot rt + 8)) (alloc_bid_slot rt).1 rt'.
Proof using Hok Hsz Hosb.
  intros -> Hi. unfold reg_cfg_metadata, get_code_heap. rewrite Hi.
  destruct (code_heap m) eqn:Hh; [|done]. cbn [mbind res_bind alloc_bid_slot fst]. intros H. split; [done|].
  set (rt1 := rt {{ bid_slot := _ }}) in *. change (u32 (bid_slot rt + 8)) with (bid_slot rt1).
  repeat case_if.
  - by eapply reg_func_sym_confined.
  - by eapply reg_ret_confined.
  - by eapply reg_icj_confined.
  - by eapply reg_icj_sym_confined.
  - by eapply reg_rai_confined.
  - by eapply unreg_icj_sym_confined.
  - by eapply unreg_func_sym_confined.
  - by eapply unreg_rai_confined.
  - done.
Qed.
End steps.

(** ** What each registration of a branch does *)
Lemma intern_Ok s rt sp p : sp_intern_string (stringpool rt) s = Ok (sp, p) ->
  intern s rt = Ok (rt {{ stringpool := sp }}, p).
Proof using. unfold intern. by intros ->. Qed.

Lemma intern_known s p rt : sp_find (stringpool rt) s = Some p ->
  intern s rt = Ok (rt {{ stringpool := stringpool rt }}, p).
Proof using.
  intros H. apply intern_Ok. unfold sp_intern_string, sp_add_cpy_or_nothing, sp_str_handle. by rewrite H.
Qed.

Section branch.
Context `{MS : !MallocSpec M}.
Context (i : nat) (m : code_module).

Lemma reg_icj_found s f rt rt' sp p : pool_ok (stringpool rt) -> modules rt !! i = Some m ->
  sp_intern_string (stringpool rt) s = Ok (sp, p) -> dict_find (icfs m) p = None ->
  reg_icj (Some (i, m)) s f rt = Ok rt' ->
  exists m' orig, sp_find (stringpool rt') s = Some p /\
    modules rt' = <[i := m']> (modules rt) /\ same_heap m m' /\ bid_slot_in_codeheap m' = bid_slot_in_codeheap m /\
    dict_find (icj_target rt') p = Some f /\ dict_find (icj_target_ret rt') p = Some orig /\
    query_function_name f (modules rt) <> 0 /\
    query_rad (query_function_name f (modules rt)) (modules rt') = Ok orig /\
    table rt' = table rt /\ osb rt' = osb rt /\ bid_slot rt' = bid_slot rt.
Proof using MS.
  intros Hpool Hi Hs Hnew. destruct (intern_spec _ _ _ _ Hpool Hs) as (_ & _ & Hf).
  unfold reg_icj. rewrite (intern_Ok _ _ _ _ Hs). cbn [mbind res_bind deref].
  rewrite (proj2 (dict_in_false (icfs m) p)) by by apply dict_find_None.
  rewrite (intern_known s p) by done. cbn [mbind res_bind]. intros H.
  apply bind_Ok_inv in H as (u & Hn & H). apply CHECK_Ok, negb_true_iff, Z.eqb_neq in Hn.
  apply bind_Ok_inv in H as (g & Hg & H). apply bind_Ok_inv in H as (targets & Ht & H).
  apply bind_Ok_inv in H as (orig & Hr & H). apply bind_Ok_inv in H as (rets & He & H).
  injection H as <-. apply dict_add_Ok in Ht as [Ht ->], He as [He ->].
  eexists _, orig. split_and!; [exact Hf|reflexivity|by split|reflexivity| | |exact Hn|exact Hr|reflexivity..].
  - cbn [icj_target]. unfold constant. rewrite dict_find_put, (proj2 (dict_find_None _ _)) by exact Ht.
    by rewrite Z.eqb_refl.
  - cbn [icj_target_ret]. unfold constant. rewrite dict_find_put, (proj2 (dict_find_None _ _)) by exact He.
    by rewrite Z.eqb_refl.
Qed.

Lemma reg_icj_sym_found s addr rt rt' p f :
  sp_find (stringpool rt) s = Some p -> dict_find (bid_slot_in_codeheap m) p = None ->
  dict_find (icj_target rt) p = Some f ->
  reg_icj_sym (Some (i, m)) s addr rt = Ok rt' ->
  in_module addr m = true /\
  exists m', modules rt' = <[i := m']> (modules rt) /\ same_heap m m' /\
    sp_find (stringpool rt') s = Some p /\ icj_target_ret rt' = icj_target_ret rt /\
    table rt' = write64 (table rt) (bid_slot rt) (read64 (table rt) f) /\
    osb rt' = write32 (osb rt) (u64 (osb_base_addr m + (addr - base_addr m - 4))) (bid_slot rt).
Proof using.
  intros Hs Hnew Hf. unfold reg_icj_sym. cbn [deref mbind res_bind].
  destruct (in_module addr m) eqn:Hin; [|done]. cbn [negb]. rewrite (intern_known s p) by done.
  cbn [mbind res_bind]. unfold icj_slot. rewrite Hnew. cbn [alloc_bid_slot]. intros H.
  apply bind_Ok_inv in H as ([[rt1 m1] b] & H1 & H). injection H as <-.
  apply bind_Ok_inv in H1 as (slots & _ & H1). apply bind_Ok_inv in H1 as (f' & Hf' & H1).
  assert (f' = f) as ->.
  { change (found (dict_find (icj_target rt) p) = Ok f') in Hf'. rewrite Hf in Hf'. by injection Hf'. }
  injection H1 as <- <- <-. split; [done|]. eexists. split_and!; [reflexivity|by split|exact Hs|reflexivity..].
Qed.

Lemma reg_rai_found s addr rt rt' p orig :
  sp_find (stringpool rt) s = Some p -> dict_find (icj_target_ret rt) p = Some orig ->
  reg_rai (Some (i, m)) s addr rt = Ok rt' ->
  in_module addr m = true /\ addr mod 8 = 0 /\ osb rt' = osb rt /\
  exists m', modules rt' = <[i := m']> (modules rt) /\ rai m' = rai m ++ [mkSymbol p (addr - base_addr m)] /\
  let t := write64 (table rt) addr (read64 (table rt) orig) in
  table rt' = write64 t addr (Z.lor (read64 t addr) 1).
Proof using.
  intros Hs Ho. unfold reg_rai. rewrite (intern_known s p) by done. cbn [deref mbind res_bind].
  destruct (in_module addr m) eqn:Hin; [|done].
  destruct (Z.eqb_spec (addr mod 8) 0) as [Ha|]; [|done]. cbn [negb orb]. intros H.
  apply bind_Ok_inv in H as (orig' & Ho' & H).
  assert (orig' = orig) as ->.
  { change (found (dict_find (icj_target_ret rt) p) = Ok orig') in Ho'. rewrite Ho in Ho'. by injection Ho'. }
  injection H as <-. split_and!; [done|done|reflexivity|]. eexists. split_and!; reflexivity.
Qed.

(** The module of the handle, where a registration finds it. *)
Lemma reg_module h type md s extra rt rt' m' : h = Some i -> modules rt !! i = Some m' ->
  reg_cfg_metadata h type md s extra rt = Ok rt' ->
  code_heap m' = true /\
  let rt1 := (alloc_bid_slot rt).1 in
  (type = ROCK_ICJ -> reg_icj (Some (i, m')) s extra rt1 = Ok rt') /\
  (type = ROCK_ICJ_SYM -> reg_icj_sym (Some (i, m')) s extra rt1 = Ok rt') /\
  (type = ROCK_RAI -> reg_rai (Some (i, m')) s extra rt1 = Ok rt').
Proof using.
  intros -> Hi. unfold reg_cfg_metadata, get_code_heap. rewrite Hi.
  destruct (code_heap m') eqn:Hh; [|done]. cbn [mbind res_bind alloc_bid_slot fst]. intros H. split; [done|].
  split_and!; intros ->; exact H.
Qed.
End branch.

(** The queries do not see the change of a module's branches. *)
Lemma find_rad_same name ms i m m' : ms !! i = Some m -> rad m' = rad m -> base_addr m' = base_addr m ->
  find_rad name (<[i := m']> ms) = find_rad name ms.
Proof using.
  intros Hi Hr Hb. revert i Hi. induction ms as [|m0 ms IH]; intros [|i] Hi; cbn; [done..| |].
  - injection Hi as ->. by rewrite Hr, Hb.
  - by rewrite IH.
Qed.

Lemma find_rad_in name ms a : find_rad name ms = Some a ->
  exists m r, m ∈ ms /\ r ∈ rad m /\ a = u64 (s_offset r + base_addr m).
Proof using.
  induction ms as [|m0 ms IH]; cbn; [done|]. destruct (List.find _ (rad m0)) as [r|] eqn:H.
  - intros [= <-]. apply List.find_some in H as [H _]. exists m0, r.
    split_and!; [left|by apply list_elem_of_In|done].
  - intros Ha. destruct (IH Ha) as (m & r & Hm & ? & ?). exists m, r. split_and!; [by right|done..].
Qed.

Lemma heap_ok_same m m' v : same_heap m m' -> heap_ok m v -> heap_ok m' v.
Proof using.
  intros [Hb Ho Hs Hc Hv _ _ _] [H1 H2 H3 H4 H5 H6 H7]. unfold in_sandbox in *.
  split; unfold in_sandbox; by rewrite ?Hb, ?Ho, ?Hs, ?Hc, ?Hv.
Qed.

(** The slots are below the code. *)
Definition slots_below (bound : Z) (ms : list code_module) : Prop :=
  forall m r, m ∈ ms -> r ∈ rad m -> bound <= s_offset r + base_addr m < 2 ^ 64.

Lemma query_rad_above bound name ms a : 0 <= bound -> slots_below bound ms -> query_rad name ms = Ok a -> bound <= a.
Proof using.
  intros H0 H. unfold query_rad. destruct (find_rad name ms) as [b|] eqn:E; [|done]. intros [= <-].
  apply find_rad_in in E as (m & r & Hm & Hr & ->). specialize (H m r Hm Hr). rewrite u64_small; lia.
Qed.

(** The word of a return address, and the others. *)
Lemma table_rai t ra orig : mem_ok t ->
  let t1 := write64 t ra (read64 t orig) in
  let t2 := write64 t1 ra (Z.lor (read64 t1 ra) 1) in
  read64 t2 ra = Z.lor (read64 t orig) 1 /\ forall x, apart x 8 ra 8 -> read64 t2 x = read64 t x.
Proof using.
  intros Ht t1 t2. pose proof (read64_range t orig Ht) as Hr. split.
  - subst t2 t1. rewrite (read64_same t) by done. by rewrite read64_same by by apply lor_one_range.
  - intros x Hx. subst t2 t1. by rewrite !read64_apart.
Qed.

Section protocol.
Context `{MS : !MallocSpec M}.
Context (i : nat) (m : code_module) (v : verifier) (Hok : heap_ok m v) (Hosb : 4 <= osb_base_addr m).

(** The three registrations, as changes of the two memories. *)
Lemma reg_branch_run id f addr ra md1 md2 md3 rt rt1 rt2 rt3 sp p slot :
  modules rt !! i = Some m -> pool_ok (stringpool rt) -> sp_intern_string (stringpool rt) id = Ok (sp, p) ->
  dict_find (icfs m) p = None -> dict_find (bid_slot_in_codeheap m) p = None ->
  slot = u32 (u32 (bid_slot rt + 8) + 8) ->
  reg_cfg_metadata (Some i) ROCK_ICJ md1 id f rt = Ok rt1 ->
  reg_cfg_metadata (Some i) ROCK_ICJ_SYM md2 id addr rt1 = Ok rt2 ->
  reg_cfg_metadata (Some i) ROCK_RAI md3 id ra rt2 = Ok rt3 ->
  let name := query_function_name f (modules rt) in
  name <> 0 /\ in_module ra m = true /\ exists orig, query_rad name (modules rt) = Ok orig /\
    table rt2 = write64 (table rt) slot (read64 (table rt) f) /\
    osb rt3 = write32 (osb rt) (slot_place m addr) slot /\
    let t := write64 (table rt2) ra (read64 (table rt2) orig) in
    table rt3 = write64 t ra (Z.lor (read64 t ra) 1).
Proof using MS Hok Hosb.
  intros Hi Hpool Hs Hnew Hnoslot -> H1 H2 H3 name.
  apply (reg_module i (Some i) _ _ _ _ _ _ m eq_refl Hi) in H1 as [_ [H1 _]]. specialize (H1 eq_refl).
  apply (reg_icj_found i m _ _ _ _ sp p) in H1 as
    (m1 & orig & Hp & Hms1 & Hm1 & Hbs1 & Hf & Ho & Hname & Hq & Ht1 & Ho1 & Hb1); [|done..].
  assert (Hi1 : modules rt1 !! i = Some m1).
  { rewrite Hms1. apply list_lookup_insert_eq. by eapply lookup_lt_Some. }
  apply (reg_module i (Some i) _ _ _ _ _ _ m1 eq_refl Hi1) in H2 as [_ [_ [H2 _]]]. specialize (H2 eq_refl).
  apply (reg_icj_sym_found i m1 _ _ _ _ p f) in H2 as (Hin & m2 & Hms2 & Hm2 & Hp2 & Hr2 & Ht2 & Ho2);
    [|exact Hp|by rewrite Hbs1|exact Hf].
  assert (Hi2 : modules rt2 !! i = Some m2).
  { rewrite Hms2. apply list_lookup_insert_eq. by eapply lookup_lt_Some. }
  apply (reg_module i (Some i) _ _ _ _ _ _ m2 eq_refl Hi2) in H3 as [_ [_ [_ H3]]]. specialize (H3 eq_refl).
  apply (reg_rai_found i m2 _ _ _ _ p orig) in H3 as (Hra & Ha8 & Ho3 & _ & _ & _ & Ht3);
    [|exact Hp2|change (dict_find (icj_target_ret rt2) p = Some orig); rewrite Hr2; exact Ho].
  unfold in_module in Hin, Hra. rewrite (same_base _ _ Hm2), (same_sz _ _ Hm2) in Hra.
  rewrite (same_base _ _ Hm1), (same_sz _ _ Hm1) in Hin, Hra.
  rewrite (same_base _ _ Hm1), (same_osb _ _ Hm1), (slot_place_u64 _ _ v) in Ho2 by done.
  change (bid_slot (alloc_bid_slot rt1).1) with (u32 (bid_slot rt1 + 8)) in *. rewrite Hb1 in *.
  split; [done|]. split; [done|]. exists orig. split_and!.
  - rewrite Hms1 in Hq. unfold query_rad in *. by rewrite (find_rad_same _ _ _ m m1 Hi) in Hq by apply Hm1.
  - rewrite Ht2. change (table (alloc_bid_slot rt1).1) with (table rt1). by rewrite Ht1.
  - rewrite Ho3. change (osb (alloc_bid_slot rt2).1) with (osb rt2). rewrite Ho2.
    change (osb (alloc_bid_slot rt1).1) with (osb rt1). by rewrite Ho1.
  - exact Ht3.
Qed.

(** Copying a branch: once the copy of a call to the function at [f],
    the slot of its site and its return address have been registered, under
    a name new to the heap, the slot before the site holds the identifier of
    [f], so that the copy may go where the original goes, and the word of
    the return address the identifier of the original's, made valid. *)
Theorem reg_branch_correct id f addr ra md1 md2 md3 rt rt1 rt2 rt3 sp p :
  modules rt !! i = Some m -> mem_ok (table rt) -> pool_ok (stringpool rt) ->
  sp_intern_string (stringpool rt) id = Ok (sp, p) ->
  dict_find (icfs m) p = None -> dict_find (bid_slot_in_codeheap m) p = None ->
  0 <= bid_slot rt -> bid_slot rt + 24 <= base_addr m -> slots_below (bid_slot rt + 24) (modules rt) ->
  reg_cfg_metadata (Some i) ROCK_ICJ md1 id f rt = Ok rt1 ->
  reg_cfg_metadata (Some i) ROCK_ICJ_SYM md2 id addr rt1 = Ok rt2 ->
  reg_cfg_metadata (Some i) ROCK_RAI md3 id ra rt2 = Ok rt3 ->
  let slot := bid_slot rt + 16 in
  let name := query_function_name f (modules rt) in
  name <> 0 /\ exists orig, query_rad name (modules rt) = Ok orig /\
    read32 (osb rt3) (slot_place m addr) = slot /\
    read64 (table rt3) slot = read64 (table rt) f /\
    read64 (table rt3) ra = Z.lor (read64 (table rt) orig) 1.
Proof using MS Hok Hosb.
  intros Hi Hmem Hpool Hs Hnew Hnoslot Hb0 Hb Hrads H1 H2 H3 slot name.
  pose proof (hok_in _ _ Hok) as (_ & _ & Hin4). change FourGB with (2 ^ 32) in Hin4.
  destruct (reg_branch_run id f addr ra md1 md2 md3 rt rt1 rt2 rt3 sp p _ Hi Hpool Hs Hnew Hnoslot eq_refl H1 H2 H3)
    as (Hname & Hra & orig & Hq & Ht2 & Ho3 & Ht3).
  apply (in_module_range _ _ v Hok) in Hra.
  rewrite (u32_small (bid_slot rt + 8)), u32_small in Ht2, Ho3 by lia.
  replace (bid_slot rt + 8 + 8) with slot in * by lia.
  pose proof (query_rad_above (bid_slot rt + 24) _ _ _ ltac:(lia) Hrads Hq) as Horig.
  split; [done|]. exists orig. split; [exact Hq|].
  assert (Hmem2 : mem_ok (table rt2)) by (rewrite Ht2; by apply write_le_ok).
  destruct (table_rai (table rt2) ra orig Hmem2) as [Hra2 Hother]. rewrite <- Ht3 in Hra2, Hother.
  split_and!.
  - rewrite Ho3. apply read_write_same. lia.
  - rewrite Hother by (unfold apart; lia). rewrite Ht2. apply read64_same. by apply read64_range.
  - rewrite Hra2, Ht2. by rewrite read64_apart by (unfold apart; lia).
Qed.
End protocol.
End facts.

(** ** Examples *)
Definition jit_heap : code_module := sample_heap {{ base_addr := 0x20000 }}.

(** A program with a function at 0x30010, called at 0x30020. *)
Definition jit_program : code_module := alloc_code_module {{ base_addr := 0x30000 }} {{ sz := 0x1000 }}
  {{ funcsyms := [mkSymbol 0x5000 0x10] }} {{ functions := [mkFunction 0x5000 0 0 0x6000 [0x7000] [] []] }}
  {{ rad := [mkSymbol 0x5000 0x20] }} {{ icfsyms := [mkSymbol 0x7000 0x11080] }}.

Definition jit_table : mem := fun x => if x =? 0x30010 then 9 else if x =? 0x30020 then 12 else 0.

Lemma jit_table_ok : mem_ok jit_table.
Proof. intros a. unfold jit_table. destruct (a =? 0x30010), (a =? 0x30020); lia. Qed.

Definition jit_state : runtime :=
  sample_runtime {{ modules := [jit_program; jit_heap] }} {{ table := jit_table }}.

Lemma jit_heap_ok : heap_ok jit_heap sample_verifier.
Proof. by split; [split_and!; vm_compute|..]. Qed.

(** The slot of a return is registered at the start of the heap, and written
    before it. *)
Lemma reg_cfg_metadata_witness : exists rt',
  reg_cfg_metadata (Some 1%nat) ROCK_RET 0x20000 [] 0x30010 jit_state = Ok rt' /\
  osb rt' (osb_base_addr jit_heap - 4) <> osb jit_state (osb_base_addr jit_heap - 4) /\
  confined 1 jit_heap 0x11008 (alloc_bid_slot jit_state).1 rt'.
Proof.
  destruct (reg_cfg_metadata (Some 1%nat) ROCK_RET 0x20000 [] 0x30010 jit_state) as [rt'| | |] eqn:Hrun;
    [|vm_compute in Hrun; discriminate..].
  exists rt'. split; [reflexivity|]. split; [vm_compute in Hrun; injection Hrun as <-; vm_compute; discriminate|].
  apply (reg_cfg_metadata_confined 1 jit_heap sample_verifier jit_heap_ok eq_refl ltac:(by vm_compute)
    (Some 1%nat) ROCK_RET 0x20000 [] 0x30010 jit_state rt' eq_refl eq_refl Hrun).
Defined.

Definition jit_run : res runtime :=
  rt1 ← reg_cfg_metadata (Some 1%nat) ROCK_ICJ 0 [97] 0x30010 jit_state;
  rt2 ← reg_cfg_metadata (Some 1%nat) ROCK_ICJ_SYM 0 [97] 0x20040 rt1;
  reg_cfg_metadata (Some 1%nat) ROCK_RAI 0 [97] 0x20048 rt2.

Lemma reg_branch_witness : exists rt3, jit_run = Ok rt3 /\
  read32 (osb rt3) (slot_place jit_heap 0x20040) = 0x11010 /\
  read64 (table rt3) 0x11010 = 9 /\ read64 (table rt3) 0x20048 = 13.
Proof.
  assert (Hok : match jit_run with Ok _ => true | _ => false end = true) by (vm_compute; reflexivity).
  unfold jit_run in *.
  destruct (reg_cfg_metadata _ ROCK_ICJ 0 [97] 0x30010 jit_state) as [rt1| | |] eqn:H1; [|discriminate..].
  rewrite !bind_Ok in Hok |- *.
  destruct (reg_cfg_metadata _ ROCK_ICJ_SYM 0 [97] 0x20040 rt1) as [rt2| | |] eqn:H2; [|discriminate..].
  rewrite !bind_Ok in Hok |- *.
  destruct (reg_cfg_metadata _ ROCK_RAI 0 [97] 0x20048 rt2) as [rt3| | |] eqn:H3; [|discriminate..].
  exists rt3. split; [reflexivity|].
  destruct (reg_branch_correct 1 jit_heap sample_verifier jit_heap_ok ltac:(by vm_compute) [97] 0x30010 0x20040 0x20048
    0 0 0 jit_state rt1 rt2 rt3 [([97], 0x1040)] 0x1040) as (_ & orig & Hq & Hslot & Hf & Hra);
    [reflexivity|exact jit_table_ok|exact pool_ok_nil|reflexivity..
    |by vm_compute|by vm_compute| |exact H1|exact H2|exact H3|].
  - intros m' r [->|[->|Hm]%elem_of_cons]%elem_of_cons Hr; cbn in Hr.
    + apply list_elem_of_singleton in Hr as ->. split; vm_compute; [discriminate|reflexivity].
    + by apply not_elem_of_nil in Hr.
    + by apply not_elem_of_nil in Hm.
  - vm_compute in Hq. injection Hq as <-. split; [exact Hslot|].
    split; [etrans; [exact Hf|]|etrans; [exact Hra|]]; vm_compute; reflexivity.
Defined.
