(* ===== verification/Stack.v ===== *)
(** * The initial stack of the program ([main.c], [extract_elf_load_data],
    [build_stack])

    The runtime copies the arguments, the environment and the auxiliary
    vector from the stack the kernel made to the one in the sandbox.  The
    arguments and the environment are the lists of their strings, and the
    auxiliary vector the list of its entries before [AT_NULL]; what the
    kernel put behind the pointers of the auxiliary vector is a parameter.
    The kernel bounds the sizes, which are far below 2^64. *)

From S2P Require Import Prelude StringPool Table.

Definition AT_BASE : Z := 7.
Definition AT_PLATFORM : Z := 15.
Definition AT_HWCAP : Z := 16.
Definition AT_RANDOM : Z := 25.
Definition AT_EXECFN : Z := 31.
Definition AT_SYSINFO_EHDR : Z := 33.

Definition AUX_CNT : nat := 38.

(** An entry of the auxiliary vector; the value may be a pointer. *)
Record auxv_t : Type := mkAux { a_type : Z; a_val : Z }.

(** ["MCFI_SDK"] and ["HOME"]. *)
Definition MCFI_SDK_NAME : cstring := [77; 67; 70; 73; 95; 83; 68; 75].
Definition HOME_NAME : cstring := [72; 79; 77; 69].

(** The load-time data; [MCFI_SDK] and [HOME] point into a string of the
    environment, at an offset. *)
Record load_data : Type := mkLoad {
  lt_argv : list cstring;
  lt_envp : list cstring;
  lt_auxv : list auxv_t;
  lt_stack_size : Z;
  lt_array_area_size : Z;
  MCFI_SDK : option (nat * Z);
  HOME : option (nat * Z);
  aux : list Z;
}.
Definition lt_argc (d : load_data) : Z := Z.of_nat (length (lt_argv d)).
Definition lt_envc (d : load_data) : Z := Z.of_nat (length (lt_envp d)).
Definition lt_auxc (d : load_data) : Z := Z.of_nat (length (lt_auxv d)).

Section stack.
Variable string_at : Z -> cstring.
Variable word_at : Z -> Z.
Variable libc_base : Z.

(** ** Collecting *)
Definition strings_size (l : list cstring) : Z := foldl (fun n s => n + (strlen s + 1)) 0 l.

(** The two variables the runtime looks for. *)
Definition find_env (st : nat * option (nat * Z) * option (nat * Z)) (s : cstring)
    : nat * option (nat * Z) * option (nat * Z) :=
  let '(i, sdk, home) := st in
  if strncmp s MCFI_SDK_NAME (Z.to_nat (strlen MCFI_SDK_NAME)) =? 0
  then (S i, Some (i, strlen MCFI_SDK_NAME + 1), home)
  else if strncmp s HOME_NAME 4 =? 0 then (S i, sdk, Some (i, 5))
  else (S i, sdk, home).

(** One entry: its value is kept by its type, and what it points to counted. *)
Definition collect_aux (st : list Z * Z) (e : auxv_t) : res (list Z * Z) :=
  let '(aux, size) := st in
  aux ← store aux (Z.to_nat (a_type e)) (a_val e);
  Ok (aux,
      if (a_type e =? AT_PLATFORM) || (a_type e =? AT_EXECFN) then size + (strlen (string_at (a_val e)) + 1)
      else if a_type e =? AT_RANDOM then size + 16
      else size).

Definition extract_elf_load_data (argv envp : list cstring) (auxv : list auxv_t) : res load_data :=
  let argc := Z.of_nat (length argv) in
  let envc := Z.of_nat (length envp) in
  let auxc := Z.of_nat (length auxv) in
  let '(_, sdk, home) := foldl find_env (O, None, None) envp in
  '(aux, pointed) ← foldM collect_aux auxv (replicate AUX_CNT 0, 0);
  let stack_size := 8 + strings_size argv + (argc + 1) * 8 + strings_size envp + (envc + 1) * 8 + pointed
                    + (auxc + 1) * 16 in
  let array_area_size := 8 + (argc + 1) * 8 + (envc + 1) * 8 + (auxc + 1) * 16 in
  Ok (mkLoad argv envp auxv stack_size array_area_size sdk home aux).

(** ** Writing

    The state is the memory, [top] and [pool]. *)
Definition writeval (v : Z) (st : mem * Z * Z) : mem * Z * Z :=
  let '(m, top, pool) := st in (write64 m top v, top + 8, pool).

Definition copystr (s : cstring) (st : mem * Z * Z) : mem * Z * Z :=
  let '(m, top, pool) := st in
  let len := strlen s in
  (put_bytes m pool (take (Z.to_nat len) (s ++ [0])), top, pool + (len + 1)).

Definition write_string (st : mem * Z * Z) (s : cstring) : mem * Z * Z := copystr s (writeval st.2 st).

Definition write_random (p : Z) (st : mem * Z * Z) : mem * Z * Z :=
  let '(m, top, pool) := st in
  (write64 (write64 m pool (word_at p)) (pool + 8) (word_at (p + 8)), top, pool + 16).

Definition write_aux (st : mem * Z * Z) (e : auxv_t) : mem * Z * Z :=
  if (a_type e =? AT_SYSINFO_EHDR) || (a_type e =? AT_HWCAP) then st
  else if a_type e =? AT_BASE then writeval libc_base (writeval (a_type e) st)
  else if a_type e =? AT_RANDOM then write_random (a_val e) (writeval st.2 (writeval (a_type e) st))
  else if (a_type e =? AT_PLATFORM) || (a_type e =? AT_EXECFN)
  then write_string (writeval (a_type e) st) (string_at (a_val e))
  else writeval (a_val e) (writeval (a_type e) st).

(** The memory and the stack pointer. *)
Definition build_stack (d : load_data) (stack_top : Z) (m : mem) : mem * Z :=
  let top := stack_top - lt_stack_size d in
  let rv := Z.ldiff top 15 in
  let st := (mem_set m rv 0 (lt_stack_size d), rv, rv + lt_array_area_size d) in
  let st := writeval (lt_argc d) st in
  let st := foldl write_string st (lt_argv d) in
  let st := writeval 0 st in
  let st := foldl write_string st (lt_envp d) in
  let st := writeval 0 st in
  let st := foldl write_aux st (lt_auxv d) in
  (st.1.1, rv).

(** ** The stack as a list of items

    An item is a word, and what it points to in the pool. *)
Inductive item : Type :=
  | Word (v : Z)
  | Str (s : cstring)
  | Rnd (w0 w1 : Z).

Definition item_size (it : item) : Z :=
  match it with
  | Word _ => 0
  | Str s => strlen s + 1
  | Rnd _ _ => 16
  end.

Fixpoint items_size (l : list item) : Z :=
  match l with
  | [] => 0
  | it :: l' => item_size it + items_size l'
  end.

Definition write_item (st : mem * Z * Z) (it : item) : mem * Z * Z :=
  match it with
  | Word v => writeval v st
  | Str s => write_string st s
  | Rnd w0 w1 =>
    let '(m, top, pool) := writeval st.2 st in
    (write64 (write64 m pool w0) (pool + 8) w1, top, pool + 16)
  end.

(** What the word of an item is, and what it points to. *)
Definition item_at (m : mem) (a : Z) (it : item) : Prop :=
  match it with
  | Word v => read64 m a = v
  | Str s => bytes_at m (read64 m a) (S (length s)) = s ++ [0]
  | Rnd w0 w1 => read64 m (read64 m a) = w0 /\ read64 m (read64 m a + 8) = w1
  end.

Definition skipped (e : auxv_t) : bool := (a_type e =? AT_SYSINFO_EHDR) || (a_type e =? AT_HWCAP).

Definition aux_item (e : auxv_t) : item :=
  if a_type e =? AT_BASE then Word libc_base
  else if a_type e =? AT_RANDOM then Rnd (word_at (a_val e)) (word_at (a_val e + 8))
  else if (a_type e =? AT_PLATFORM) || (a_type e =? AT_EXECFN) then Str (string_at (a_val e))
  else Word (a_val e).

Definition aux_items (e : auxv_t) : list item := if skipped e then [] else [Word (a_type e); aux_item e].

Definition stack_items (d : load_data) : list item :=
  Word (lt_argc d) :: (Str <$> lt_argv d) ++ Word 0 :: (Str <$> lt_envp d) ++ Word 0 ::
  concat (aux_items <$> lt_auxv d).
End stack.
