(* ===== verification/StackFacts.v ===== *)
(** * The initial stack holds what the kernel gave

    The words are where the ABI wants them, they point to copies of the
    strings, and nothing outside of the stack is written. *)

From S2P Require Import Prelude StringPool Table Stack.

(** The words of an item fit. *)
Definition item_fits (it : item) : Prop :=
  match it with
  | Word v => 0 <= v < 2 ^ 64
  | Str _ => True
  | Rnd w0 w1 => 0 <= w0 < 2 ^ 64 /\ 0 <= w1 < 2 ^ 64
  end.

(** The item is at [a], and what it points to between [lo] and [hi]. *)
Definition item_in (lo hi : Z) (m : mem) (a : Z) (it : item) : Prop :=
  item_at m a it /\
  match it with
  | Word _ => True
  | _ => lo <= read64 m a /\ read64 m a + item_size it <= hi
  end.

Lemma item_size_nonneg it : 0 <= item_size it.
Proof. destruct it; cbn; unfold strlen; lia. Qed.

Lemma items_size_nonneg l : 0 <= items_size l.
Proof. induction l as [|it l IH]; cbn; [lia|]. pose proof (item_size_nonneg it). lia. Qed.

Lemma items_size_app l1 l2 : items_size (l1 ++ l2) = items_size l1 + items_size l2.
Proof. induction l1 as [|it l1 IH]; cbn; [done|]. rewrite IH. lia. Qed.

Lemma read64_ext m m' a : (forall x, a <= x < a + 8 -> m' x = m x) -> read64 m' a = read64 m a.
Proof. intros H. apply read_le_ext. intros x Hx. apply H. lia. Qed.

Lemma item_in_ext lo hi m m' a it : item_in lo hi m a it ->
  (forall x, a <= x < a + 8 -> m' x = m x) -> (forall x, lo <= x < hi -> m' x = m x) -> item_in lo hi m' a it.
Proof.
  intros [Hat Hin] Ha Hp. unfold item_in, item_at in *. rewrite (read64_ext m m' a Ha) in *.
  destruct it as [v|s|w0 w1]; cbn [item_size] in *; [done|..]; (split; [|done]).
  - rewrite <- Hat. unfold bytes_at, strlen in *. apply list_fmap_ext. intros k x Hx.
    apply lookup_seqZ in Hx as [-> Hk]. apply Hp. lia.
  - destruct Hat as [<- <-]. split; apply read64_ext; intros x Hx; apply Hp; lia.
Qed.

Lemma item_in_widen lo hi lo' hi' m a it : lo' <= lo -> hi <= hi' -> item_in lo hi m a it -> item_in lo' hi' m a it.
Proof. intros ?? [Hat Hin]. split; [done|]. destruct it; [done|lia..]. Qed.

(** Writing one item. *)
Lemma write_item_spec m top pool it : item_fits it -> top + 8 <= pool -> 0 <= pool -> pool + item_size it < 2 ^ 64 ->
  exists m', write_item (m, top, pool) it = (m', top + 8, pool + item_size it) /\
    item_in pool (pool + item_size it) m' top it /\
    forall x, ~ (top <= x < top + 8) -> ~ (pool <= x < pool + item_size it) -> m' x = m x.
Proof.
  intros Hfit Htop Hpool Hend. destruct it as [v|s|w0 w1]; cbn [write_item item_size] in *.
  - eexists. split; [cbn; f_equal; lia|]. split.
    + split; [by apply read64_same|done].
    + intros x Hx _. apply write_le_out. lia.
  - eexists. split; [reflexivity|]. unfold write_string, writeval, copystr, strlen in *. cbn [fst snd] in *.
    rewrite take_ge by (rewrite length_app; cbn; lia).
    assert (Hr : read64 (put_bytes (write64 m top pool) pool (s ++ [0])) top = pool).
    { etrans; [apply read64_ext|apply (read64_same m top pool); lia]. intros x Hx. apply put_bytes_out. lia. }
    split.
    + split; cbn [item_at item_size]; rewrite Hr; [|unfold strlen; lia].
      apply bytes_at_put. rewrite length_app. cbn. lia.
    + intros x Hx1 Hx2. rewrite put_bytes_out by (rewrite length_app; cbn; lia). apply write_le_out. lia.
  - cbn [writeval fst snd]. eexists. split; [reflexivity|]. destruct Hfit as [H0 H1].
    assert (Hr : read64 (write64 (write64 (write64 m top pool) pool w0) (pool + 8) w1) top = pool).
    { rewrite !read64_apart by (unfold apart; lia). apply read64_same. lia. }
    split.
    + split; cbn [item_at item_size]; rewrite Hr; [|lia]. split; [|by apply read64_same].
      rewrite read64_apart by (unfold apart; lia). by apply read64_same.
    + intros x Hx1 Hx2. rewrite !(fun t a v => write_le_out 8 t a v x) by lia. done.
Qed.

Lemma write_items_spec l : Forall item_fits l -> forall m top pool,
  top + 8 * Z.of_nat (length l) <= pool -> 0 <= pool -> pool + items_size l < 2 ^ 64 ->
  exists m', foldl write_item (m, top, pool) l = (m', top + 8 * Z.of_nat (length l), pool + items_size l) /\
    (forall k it, l !! k = Some it -> item_in pool (pool + items_size l) m' (top + 8 * Z.of_nat k) it) /\
    forall x, ~ (top <= x < top + 8 * Z.of_nat (length l)) -> ~ (pool <= x < pool + items_size l) -> m' x = m x.
Proof.
  induction 1 as [|it l Hit Hl IH]; intros m top pool Htop Hpool Hend; cbn [foldl length items_size] in *.
  { exists m. split; [f_equal; [f_equal|]; lia|]. split; [done|]. by intros. }
  pose proof (items_size_nonneg l) as Hn. pose proof (item_size_nonneg it) as Hn'.
  destruct (write_item_spec m top pool it) as (m1 & -> & Hin1 & Hout1); [done|lia..|].
  destruct (IH m1 (top + 8) (pool + item_size it)) as (m2 & -> & Hin2 & Hout2); [lia..|].
  exists m2. split; [f_equal; [f_equal|]; lia|]. split.
  - intros [|k] it' Hk; cbn in Hk.
    + injection Hk as <-. replace (top + 8 * Z.of_nat 0) with top by lia.
      apply (item_in_widen pool (pool + item_size it)); [lia|lia|]. eapply item_in_ext; [exact Hin1|..].
      * intros x Hx. apply Hout2; lia.
      * intros x Hx. apply Hout2; lia.
    + replace (top + 8 * Z.of_nat (S k)) with (top + 8 + 8 * Z.of_nat k) by lia.
      eapply item_in_widen; [..|by apply Hin2]; lia.
  - intros x Hx1 Hx2. rewrite Hout2 by lia. apply Hout1; lia.
Qed.

(** ** The code, as a list of items *)
Section facts.
Variable string_at : Z -> cstring.
Variable word_at : Z -> Z.
Variable libc_base : Z.

Lemma write_strings st l : foldl write_string st l = foldl write_item st (Str <$> l).
Proof. revert st. induction l as [|s l IH]; intros st; cbn; [done|]. apply IH. Qed.

Lemma write_aux_items st e :
  write_aux string_at word_at libc_base st e = foldl write_item st (aux_items string_at word_at libc_base e).
Proof.
  destruct st as [[m top] pool]. unfold write_aux, aux_items, skipped.
  destruct ((a_type e =? AT_SYSINFO_EHDR) || (a_type e =? AT_HWCAP)); [done|]. cbn [foldl]. unfold aux_item.
  destruct (a_type e =? AT_BASE); [done|]. destruct (a_type e =? AT_RANDOM); [done|].
  by destruct ((a_type e =? AT_PLATFORM) || (a_type e =? AT_EXECFN)).
Qed.

Lemma write_auxv st l :
  foldl (write_aux string_at word_at libc_base) st l =
  foldl write_item st (concat (aux_items string_at word_at libc_base <$> l)).
Proof.
  revert st. induction l as [|e l IH]; intros st; cbn [fmap list_fmap concat foldl]; [done|].
  by rewrite foldl_app, <- write_aux_items, IH.
Qed.

Lemma build_stack_items d stack_top m :
  build_stack string_at word_at libc_base d stack_top m =
  let rv := Z.ldiff (stack_top - lt_stack_size d) 15 in
  ((foldl write_item (mem_set m rv 0 (lt_stack_size d), rv, rv + lt_array_area_size d)
      (stack_items string_at word_at libc_base d)).1.1, rv).
Proof.
  unfold build_stack, stack_items. cbv zeta. f_equal. cbn [foldl write_item].
  rewrite foldl_app. cbn [foldl write_item]. rewrite foldl_app. cbn [foldl write_item].
  by rewrite <- write_auxv, <- !write_strings.
Qed.

(** ** The sizes *)
Lemma strings_size_items l : strings_size l = items_size (Str <$> l).
Proof.
  unfold strings_size. enough (H : forall n, foldl (fun n s => n + (strlen s + 1)) n l = n + items_size (Str <$> l)) by by rewrite H.
  induction l as [|s l IH]; intros n; cbn; [lia|]. rewrite IH. lia.
Qed.

Lemma collect_aux_run l st size : length st = AUX_CNT -> Forall (fun e => 0 <= a_type e < 38) l ->
  exists st', foldM (collect_aux string_at) l (st, size) =
    Ok (st', size + items_size (concat (aux_items string_at word_at libc_base <$> l))) /\ length st' = AUX_CNT.
Proof.
  intros Hst Hl. revert st size Hst. induction Hl as [|e l He Hl IH]; intros st size Hst.
  { exists st. cbn. split; [do 2 f_equal; lia|done]. }
  cbn [foldM fmap list_fmap concat].
  assert (Hs : store st (Z.to_nat (a_type e)) (a_val e) = Ok (<[Z.to_nat (a_type e) := a_val e]> st)).
  { apply store_Ok. rewrite Hst. unfold AUX_CNT. split; [lia|done]. }
  change (collect_aux string_at (st, size) e) with
    (aux ← store st (Z.to_nat (a_type e)) (a_val e);
     Ok (aux, if (a_type e =? AT_PLATFORM) || (a_type e =? AT_EXECFN) then size + (strlen (string_at (a_val e)) + 1)
              else if a_type e =? AT_RANDOM then size + 16 else size)). rewrite Hs.
  cbn [mbind res_bind]. edestruct IH as (st' & -> & Hst'); [by rewrite length_insert|].
  exists st'. split; [|done]. do 2 f_equal. rewrite items_size_app. unfold aux_items, aux_item, skipped.
  destruct (Z.eqb_spec (a_type e) AT_PLATFORM) as [->|]; [cbn; lia|].
  destruct (Z.eqb_spec (a_type e) AT_EXECFN) as [->|]; [cbn; lia|].
  destruct (Z.eqb_spec (a_type e) AT_RANDOM) as [->|]; [cbn; lia|]. cbn [orb].
  destruct (_ || _); [cbn; lia|]. destruct (_ =? AT_BASE); cbn; lia.
Qed.

Lemma aux_items_kept l : concat (aux_items string_at word_at libc_base <$> l) =
  concat ((fun e => [Word (a_type e); aux_item string_at word_at libc_base e]) <$> List.filter (fun e => negb (skipped e)) l).
Proof.
  induction l as [|e l IH]; [done|]. cbn. unfold aux_items at 1. destruct (skipped e); cbn; by rewrite IH.
Qed.

Lemma length_aux_items l : Z.of_nat (length (concat (aux_items string_at word_at libc_base <$> l))) =
  2 * Z.of_nat (length (List.filter (fun e => negb (skipped e)) l)).
Proof.
  rewrite aux_items_kept. induction (List.filter _ l) as [|e l' IH]; cbn; [done|]. cbn in IH. lia.
Qed.

(** What the code collects is what the items take. *)
Lemma extract_elf_load_data_sizes argv envp auxv : Forall (fun e => 0 <= a_type e < 38) auxv ->
  exists d, extract_elf_load_data string_at argv envp auxv = Ok d /\
    lt_argv d = argv /\ lt_envp d = envp /\ lt_auxv d = auxv /\
    lt_stack_size d = lt_array_area_size d + items_size (stack_items string_at word_at libc_base d) /\
    8 * Z.of_nat (length (stack_items string_at word_at libc_base d)) + 16 <= lt_array_area_size d.
Proof.
  intros Haux. unfold extract_elf_load_data. destruct (foldl find_env _ envp) as [[n sdk] home].
  destruct (collect_aux_run auxv (replicate AUX_CNT 0) 0) as (st & -> & Hst); [apply length_replicate|done|].
  cbn [mbind res_bind]. eexists. split; [reflexivity|]. split_and!; [done|done|done|..];
    unfold stack_items; cbn [lt_argv lt_envp lt_auxv lt_stack_size lt_array_area_size lt_argc].
  - cbn [items_size item_size]. rewrite !items_size_app. cbn [items_size item_size]. rewrite items_size_app.
    cbn [items_size item_size]. rewrite <- !strings_size_items. lia.
  - cbn [length]. rewrite length_app, length_fmap. cbn [length]. rewrite length_app, length_fmap. cbn [length].
    pose proof (length_aux_items auxv) as Ha.
    pose proof (List.filter_length_le (fun e => negb (skipped e)) auxv). lia.
Qed.

(** ** The layout *)
Lemma lookup_pairs {A} (f g : A -> item) l i e : l !! i = Some e ->
  concat ((fun e => [f e; g e]) <$> l) !! (2 * i)%nat = Some (f e) /\
  concat ((fun e => [f e; g e]) <$> l) !! (2 * i + 1)%nat = Some (g e).
Proof.
  revert i. induction l as [|e' l IH]; intros [|i] Hi; cbn in Hi; [done..|by injection Hi as ->|].
  replace (2 * S i)%nat with (S (S (2 * i))) by lia. cbn [fmap list_fmap concat app Nat.add lookup list_lookup].
  by apply IH.
Qed.

Lemma lookup_past {A} (l1 l2 : list A) n k : length l1 = n -> (l1 ++ l2) !! (n + k)%nat = l2 !! k.
Proof using. intros <-. rewrite lookup_app_r by lia. f_equal. lia. Qed.

Lemma lookup_inside {A} (f : A -> item) l l2 i a : l !! i = Some a -> ((f <$> l) ++ l2) !! i = Some (f a).
Proof using.
  intros Hi. rewrite lookup_app_l by (rewrite length_fmap; by eapply lookup_lt_Some). by rewrite list_lookup_fmap, Hi.
Qed.

Lemma lookup_next {A} (x : A) l k : (x :: l) !! S k = l !! k.
Proof using. done. Qed.

Lemma stack_items_lookup d : let items := stack_items string_at word_at libc_base d in
  let argc := length (lt_argv d) in let envc := length (lt_envp d) in
  let kept := List.filter (fun e => negb (skipped e)) (lt_auxv d) in
  items !! 0%nat = Some (Word (lt_argc d)) /\
  (forall i s, lt_argv d !! i = Some s -> items !! (1 + i)%nat = Some (Str s)) /\
  items !! (1 + argc)%nat = Some (Word 0) /\
  (forall i s, lt_envp d !! i = Some s -> items !! (2 + argc + i)%nat = Some (Str s)) /\
  items !! (2 + argc + envc)%nat = Some (Word 0) /\
  (forall i e, kept !! i = Some e -> items !! (3 + argc + envc + 2 * i)%nat = Some (Word (a_type e)) /\
    items !! (3 + argc + envc + 2 * i + 1)%nat = Some (aux_item string_at word_at libc_base e)) /\
  length items = (3 + argc + envc + 2 * length kept)%nat.
Proof.
  intros items argc envc kept. subst items. unfold stack_items.
  assert (Hargv : length (Str <$> lt_argv d) = argc) by apply length_fmap.
  assert (Henvp : length (Str <$> lt_envp d) = envc) by apply length_fmap.
  split; [done|]. split; [intros i s Hi; rewrite lookup_next; by apply lookup_inside|].
  split; [change (1 + argc)%nat with (S argc); rewrite <- (Nat.add_0_r argc), lookup_next, lookup_past by done; done|].
  split.
  { intros i s Hi. replace (2 + argc + i)%nat with (S (argc + S i)) by lia.
    rewrite lookup_next, lookup_past, lookup_next by done. by apply lookup_inside. }
  split.
  { replace (2 + argc + envc)%nat with (S (argc + S (envc + 0))) by lia.
    by rewrite lookup_next, lookup_past, lookup_next, lookup_past by done. }
  split.
  - intros i e Hi.
    assert (Hk : forall k, stack_items string_at word_at libc_base d !! (3 + argc + envc + k)%nat =
      concat (aux_items string_at word_at libc_base <$> lt_auxv d) !! k).
    { intros k. replace (3 + argc + envc + k)%nat with (S (argc + S (envc + S k))) by lia. unfold stack_items.
      by rewrite lookup_next, lookup_past, lookup_next, lookup_past, lookup_next. }
    replace (3 + argc + envc + 2 * i + 1)%nat with (3 + argc + envc + (2 * i + 1))%nat by lia.
    unfold stack_items in Hk. rewrite !Hk, aux_items_kept.
    by apply (lookup_pairs (fun e => Word (a_type e)) (aux_item string_at word_at libc_base)).
  - cbn [length]. rewrite length_app, Hargv. cbn [length]. rewrite length_app, Henvp. cbn [length].
    pose proof (length_aux_items (lt_auxv d)) as Ha. fold kept in Ha. lia.
Qed.

Lemma ldiff_fifteen x : Z.ldiff x 15 = x / 16 * 16.
Proof using. change 15 with (Z.ones 4). by rewrite Z.ldiff_ones_r, Z.shiftl_mul_pow2, Z.shiftr_div_pow2 by lia. Qed.

(** A string of the new stack, at the word at [a]. *)
Definition string_in (lo hi : Z) (m : mem) (a : Z) (s : cstring) : Prop := item_in lo hi m a (Str s).

(** The entry of the auxiliary vector at [a]. *)
Definition aux_in (lo hi : Z) (m : mem) (a : Z) (e : auxv_t) : Prop :=
  read64 m a = a_type e /\ item_in lo hi m (a + 8) (aux_item string_at word_at libc_base e).

Definition entry_fits (e : auxv_t) : Prop := 0 <= a_type e < 38 /\ item_fits (aux_item string_at word_at libc_base e).

Lemma stack_items_fit d : lt_argc d < 2 ^ 64 -> Forall entry_fits (lt_auxv d) ->
  Forall item_fits (stack_items string_at word_at libc_base d).
Proof using.
  intros Hargc Haux. unfold stack_items.
  assert (Hstr : forall l, Forall item_fits (Str <$> l)) by (intros l; induction l; constructor; done).
  apply Forall_cons. split; [unfold lt_argc in *; cbn; lia|]. apply Forall_app. split; [apply Hstr|].
  apply Forall_cons. split; [cbn; lia|]. apply Forall_app. split; [apply Hstr|].
  apply Forall_cons. split; [cbn; lia|].
  induction Haux as [|e l He Hl IH]; [constructor|]. cbn. apply Forall_app. split; [|done].
  unfold aux_items. destruct (skipped e); [constructor|]. destruct He.
  apply Forall_cons. split; [cbn; lia|]. by apply Forall_singleton.
Qed.

(** What the run of the items leaves. *)
Lemma build_stack_items_spec argv envp auxv stack_top m : Forall entry_fits auxv ->
  Z.of_nat (length argv) < 2 ^ 64 -> stack_top < 2 ^ 64 ->
  exists d, extract_elf_load_data string_at argv envp auxv = Ok d /\
    lt_argv d = argv /\ lt_envp d = envp /\ lt_auxv d = auxv /\
    (lt_stack_size d + 16 <= stack_top ->
     let items := stack_items string_at word_at libc_base d in
     let rv := Z.ldiff (stack_top - lt_stack_size d) 15 in
     exists m', build_stack string_at word_at libc_base d stack_top m = (m', rv) /\
       rv mod 16 = 0 /\ 0 < rv /\ rv + lt_stack_size d <= stack_top /\
       (forall x, ~ (rv <= x < rv + lt_stack_size d) -> m' x = m x) /\
       (forall k it, items !! k = Some it -> item_in rv stack_top m' (rv + 8 * Z.of_nat k) it) /\
       read64 m' (rv + 8 * Z.of_nat (length items)) = 0).
Proof using.
  intros Haux Hargc Htop.
  destruct (extract_elf_load_data_sizes argv envp auxv) as (d & Hd & Ha & He & Hx & Hsize & Harea).
  { eapply Forall_impl; [exact Haux|]. by intros e []. }
  exists d. split_and!; [done..|]. intros Hfit items rv. fold items in Hsize, Harea.
  pose proof (items_size_nonneg items) as Hn.
  assert (Hrv : rv mod 16 = 0 /\ stack_top - lt_stack_size d - 16 < rv <= stack_top - lt_stack_size d).
  { subst rv. rewrite ldiff_fifteen. div_lia. }
  destruct (write_items_spec items) with (m := mem_set m rv 0 (lt_stack_size d)) (top := rv)
    (pool := rv + lt_array_area_size d) as (m' & Hrun & Hin & Hout); [|lia..|].
  { apply stack_items_fit; [unfold lt_argc; by rewrite Ha|by rewrite Hx]. }
  exists m'. split; [by rewrite build_stack_items; cbv zeta; fold rv items; rewrite Hrun|].
  split_and!; [lia..| | |].
  - intros x Hx'. rewrite Hout by lia. unfold mem_set.
    destruct (Z.leb_spec rv x), (Z.ltb_spec x (rv + lt_stack_size d)); [lia|done..].
  - intros k it Hk. eapply item_in_widen; [..|by apply Hin]; lia.
  - etrans; [apply (read64_ext (fun _ => 0))|done]. intros x Hx'. rewrite Hout by lia. unfold mem_set.
    destruct (Z.leb_spec rv x), (Z.ltb_spec x (rv + lt_stack_size d)); done || lia.
Qed.

Lemma build_stack_layout argv envp auxv stack_top m : Forall entry_fits auxv ->
  Z.of_nat (length argv) < 2 ^ 64 -> stack_top < 2 ^ 64 ->
  exists d, extract_elf_load_data string_at argv envp auxv = Ok d /\
    (lt_stack_size d + 16 <= stack_top ->
     exists m' rv, build_stack string_at word_at libc_base d stack_top m = (m', rv) /\
       rv mod 16 = 0 /\ 0 < rv /\ rv + lt_stack_size d <= stack_top /\
       (forall x, ~ (rv <= x < rv + lt_stack_size d) -> m' x = m x) /\
       let kept := List.filter (fun e => negb (skipped e)) auxv in
       let a_argv := rv + 8 in
       let a_envp := a_argv + 8 * Z.of_nat (length argv) + 8 in
       let a_auxv := a_envp + 8 * Z.of_nat (length envp) + 8 in
       read64 m' rv = Z.of_nat (length argv) /\
       (forall i s, argv !! i = Some s -> string_in rv stack_top m' (a_argv + 8 * Z.of_nat i) s) /\
       read64 m' (a_envp - 8) = 0 /\
       (forall i s, envp !! i = Some s -> string_in rv stack_top m' (a_envp + 8 * Z.of_nat i) s) /\
       read64 m' (a_auxv - 8) = 0 /\
       (forall i e, kept !! i = Some e -> aux_in rv stack_top m' (a_auxv + 16 * Z.of_nat i) e) /\
       read64 m' (a_auxv + 16 * Z.of_nat (length kept)) = 0).
Proof using.
  intros Haux Hargc Htop.
  destruct (build_stack_items_spec argv envp auxv stack_top m Haux Hargc Htop) as (d & Hd & Ha & He & Hx & H).
  exists d. split; [done|]. intros Hfit. destruct (H Hfit) as (m' & Hrun & Hal & Hpos & Hend & Hout & Hin & H0).
  set (rv := Z.ldiff (stack_top - lt_stack_size d) 15) in *. exists m', rv. split_and!; [done..|]. intros kept a_argv a_envp a_auxv.
  destruct (stack_items_lookup d) as (I0 & I1 & I2 & I3 & I4 & I5 & I6).
  rewrite Ha, He, Hx in *. fold kept in I5, I6.
  assert (Hat : forall k it a, stack_items string_at word_at libc_base d !! k = Some it -> a = rv + 8 * Z.of_nat k ->
    item_in rv stack_top m' a it) by (intros k it a Hk ->; by apply Hin).
  split_and!.
  - destruct (Hat _ _ rv I0) as [Hw _]; [lia|]. cbn in Hw. rewrite Hw. unfold lt_argc. by rewrite Ha.
  - intros i s Hi. eapply Hat; [by apply I1|lia].
  - apply (Hat _ _ (a_envp - 8) I2). lia.
  - intros i s Hi. eapply Hat; [by apply I3|lia].
  - apply (Hat _ _ (a_auxv - 8) I4). lia.
  - intros i e Hi. destruct (I5 i e Hi) as [J1 J2]. split; [apply (Hat _ _ _ J1); lia|apply (Hat _ _ _ J2); lia].
  - rewrite <- H0. f_equal. rewrite I6. lia.
Qed.

(** C36.  The stack made for the program is what its start-up code expects.
    It is aligned to 16 bytes, and nothing outside of it is written.  It
    holds the number of arguments, pointers to copies of the arguments, NULL,
    pointers to copies of the environment, NULL, and the auxiliary vector
    without the vDSO and the capabilities, with the base of libc and copies
    of what the kernel's entries point to, ended by [AT_NULL]; all the copies
    are in the stack. *)
Theorem build_stack_correct argv envp auxv stack_top m : Forall entry_fits auxv ->
  Z.of_nat (length argv) < 2 ^ 64 -> stack_top < 2 ^ 64 ->
  exists d, extract_elf_load_data string_at argv envp auxv = Ok d /\
    (lt_stack_size d + 16 <= stack_top ->
     exists m' rv, build_stack string_at word_at libc_base d stack_top m = (m', rv) /\
       rv mod 16 = 0 /\ 0 < rv /\ rv + lt_stack_size d <= stack_top /\
       (forall x, ~ (rv <= x < rv + lt_stack_size d) -> m' x = m x) /\
       let kept := List.filter (fun e => negb (skipped e)) auxv in
       let a_argv := rv + 8 in
       let a_envp := a_argv + 8 * Z.of_nat (length argv) + 8 in
       let a_auxv := a_envp + 8 * Z.of_nat (length envp) + 8 in
       read64 m' rv = Z.of_nat (length argv) /\
       (forall i s, argv !! i = Some s -> string_in rv stack_top m' (a_argv + 8 * Z.of_nat i) s) /\
       read64 m' (a_envp - 8) = 0 /\
       (forall i s, envp !! i = Some s -> string_in rv stack_top m' (a_envp + 8 * Z.of_nat i) s) /\
       read64 m' (a_auxv - 8) = 0 /\
       (forall i e, kept !! i = Some e -> aux_in rv stack_top m' (a_auxv + 16 * Z.of_nat i) e) /\
       read64 m' (a_auxv + 16 * Z.of_nat (length kept)) = 0).
Proof using. apply build_stack_layout. Qed.

(** An entry with a type that [aux] has no place for is written past its end. *)
Lemma collect_aux_overflow l st size : length st = AUX_CNT -> Exists (fun e => 38 <= a_type e) l ->
  foldM (collect_aux string_at) l (st, size) = Fault.
Proof using.
  intros Hst Hl. revert st size Hst. induction Hl as [e l He|e l Hl IH]; intros st size Hst; cbn [foldM].
  - change (collect_aux string_at (st, size) e) with
      (store st (Z.to_nat (a_type e)) (a_val e) ≫= fun aux => Ok (aux, if (a_type e =? AT_PLATFORM) || (a_type e =? AT_EXECFN)
         then size + (strlen (string_at (a_val e)) + 1) else if a_type e =? AT_RANDOM then size + 16 else size)).
    unfold store. rewrite (proj2 (Nat.ltb_ge _ _)); [done|]. rewrite Hst. unfold AUX_CNT. lia.
  - destruct (collect_aux string_at (st, size) e) as [[st' size']| | |] eqn:H; cbn [mbind res_bind].
    + apply IH. cbn in H. apply bind_Ok_inv in H as (a & Ha & H). injection H as <- <-.
      apply store_Ok in Ha as [_ ->]. by rewrite length_insert.
    + cbn in H. unfold store in H. by destruct (_ <? _)%nat.
    + done.
    + cbn in H. unfold store in H. by destruct (_ <? _)%nat.
Qed.
End facts.

(** [strlen] counting the NUL, the name is compared with its NUL, and the
    variable is never found when it has a value. *)
Lemma MCFI_SDK_ignored i home value :
  find_env (i, None, home) (MCFI_SDK_NAME ++ 61 :: value) = (S i, None, home).
Proof. reflexivity. Qed.

(** ** An example: [a b], with [HOME=/], a platform and a random value. *)
Definition sample_string_at (p : Z) : cstring := if p =? 0x7000 then [120; 56; 54] else [].
Definition sample_auxv : list auxv_t :=
  [mkAux 33 0x7FFF0000; mkAux 6 4096; mkAux AT_BASE 0; mkAux AT_PLATFORM 0x7000; mkAux AT_RANDOM 0x7100].

Lemma build_stack_witness :
  exists d m' rv, extract_elf_load_data sample_string_at [[97]; [98]] [HOME_NAME ++ [61; 47]] sample_auxv = Ok d /\
    build_stack sample_string_at (fun p => p) 0x400000 d 0xFFFFFFF8 (fun _ => 7) = (m', rv) /\
    read64 m' rv = 2 /\ string_in rv 0xFFFFFFF8 m' (rv + 16) [98].
Proof.
  destruct (build_stack_correct sample_string_at (fun p => p) 0x400000 [[97]; [98]] [HOME_NAME ++ [61; 47]] sample_auxv
    0xFFFFFFF8 (fun _ => 7)) as (d & Hd & H).
  - unfold sample_auxv. do 5 (apply Forall_cons; split; [split; vm_compute; repeat split; discriminate|]). apply Forall_nil_2.
  - cbn. lia.
  - lia.
  - exists d. destruct H as (m' & rv & Hrun & _ & _ & _ & _ & Hargc & Hargv & _).
    { vm_compute in Hd. injection Hd as <-. vm_compute. discriminate. }
    exists m', rv. split; [exact Hd|]. split; [exact Hrun|]. split; [exact Hargc|].
    replace (rv + 16) with (rv + 8 + 8 * Z.of_nat 1) by lia. apply Hargv. reflexivity.
Defined.
