(* ===== verification/Loader.v ===== *)
(** * Loading the metadata of an ELF file ([main.c], [load_mcfi_metadata])

    The file is the list of its bytes, mapped privately and rewritten in
    place; an access out of it is a fault.  The parsers of the sections see
    the bytes of their section.  The build with online patching; the sizes
    that only [PROFILING] prints are left out. *)

From S2P Require Import Prelude Dict Graph Module StringPool MetaParse Cfg Table Runtime CodeMeta.

Definition X64ABIBASE : Z := 0x400000.

(** The bytes of a string constant. *)
Definition of_string (s : string) : cstring :=
  (fun c => Z.of_N (Ascii.N_of_ascii c)) <$> String.list_ascii_of_string s.

(** ** Reading the file *)
Definition load16 (elf : list Z) (a : Z) : res Z := load_le 2 elf a.

Fixpoint cstr_from (l : list Z) : res cstring :=
  match l with
  | [] => Fault
  | b :: l' => if b =? 0 then Ok [] else s ← cstr_from l'; Ok (b :: s)
  end.
Definition cstr_at (elf : list Z) (a : Z) : res cstring :=
  if 0 <=? a then cstr_from (drop (Z.to_nat a) elf) else Fault.

(** A string of a table, which may be missing. *)
Definition cstr_in (elf : list Z) (strtab : option Z) (name : Z) : res cstring :=
  t ← deref (Some strtab); cstr_at elf (t + name).

Definition content_at (elf : list Z) (offset size : Z) : res (list Z) :=
  if (0 <=? offset) && (0 <=? size) && (offset + size <=? Z.of_nat (length elf))
  then Ok (take (Z.to_nat size) (drop (Z.to_nat offset) elf)) else Fault.

Definition starts_with (s prefix : cstring) : bool := strncmp s prefix (length prefix) =? 0.

(** A hexadecimal number and an underscore. *)
Fixpoint eat_hex (c : cstring) : cstring :=
  match c with
  | b :: c' => if isalnum b then eat_hex c' else c
  | [] => []
  end.
Definition eat_hex_and_udscore (c : cstring) : cstring :=
  match eat_hex c with
  | 95 :: c' => c'
  | c => c
  end.

(** ** The sections *)
Record sections : Type := mkSections {
  sc_sym : option Z;
  sc_numsym : Z;
  sc_strtab : option Z;
  sc_relaplt : option Z;
  sc_numrelaplt : Z;
  sc_plt_offset : Z;
  sc_dynsym : option Z;
  sc_numdynsym : Z;
  sc_dynstr : option Z;
  sc_icfs : dict icf;
  sc_functions : list function;
  sc_ctor : dict Z;
  sc_classes : dict (dict Z);
  sc_cha : graph;
  sc_aliases : graph;
  sc_fats_in_data : dict unit;
  sc_fats_in_code : dict unit;
  sc_vtable : dict (list Z);
  sc_instrumented : bool;
  sc_gotplt : Z;
  sc_gotpltsz : Z;
  sc_pool : pool;
}.

Section load.
Context `{M : Malloc}.

Definition scan_section (elf : list Z) (shoff shstrpool shstrndx : Z) (st : sections) (cnt : Z) : res sections :=
  if cnt =? shstrndx then Ok st
  else
    let sh := shoff + cnt * 64 in
    sh_name ← load32 elf sh;
    sh_addr ← load64 elf (sh + 16);
    sh_offset ← load64 elf (sh + 24);
    sh_size ← load64 elf (sh + 32);
    shname ← cstr_at elf (shstrpool + sh_name);
    let named name := strcmp shname (of_string name) =? 0 in
    let sp := sc_pool st in
    let st' := st {{ sc_instrumented := true }} in
    if named ".symtab" then Ok (st {{ sc_sym := Some sh_offset }} {{ sc_numsym := sh_size / 24 }})
    else if named ".strtab" then Ok (st {{ sc_strtab := Some sh_offset }})
    else if named ".MCFIIndirectCalls" then
      content ← content_at elf sh_offset sh_size;
      '(icfs, sp) ← parse_icfs content (sc_icfs st) sp;
      Ok (st' {{ sc_icfs := icfs }} {{ sc_pool := sp }})
    else if named ".MCFIFuncInfo" then
      content ← content_at elf sh_offset sh_size;
      '(functions, ctor, sp) ← parse_functions content (sc_functions st) (sc_ctor st) sp;
      Ok (st' {{ sc_functions := functions }} {{ sc_ctor := ctor }} {{ sc_pool := sp }})
    else if named ".MCFICHA" then
      content ← content_at elf sh_offset sh_size;
      '(classes, cha, sp) ← parse_cha content (sc_classes st) (sc_cha st) sp;
      Ok (st' {{ sc_classes := classes }} {{ sc_cha := cha }} {{ sc_pool := sp }})
    else if named ".MCFIAliases" then
      content ← content_at elf sh_offset sh_size;
      '(aliases, sp) ← parse_aliases content (sc_aliases st) sp;
      Ok (st' {{ sc_aliases := aliases }} {{ sc_pool := sp }})
    else if named ".MCFIAddrTaken" then
      content ← content_at elf sh_offset sh_size;
      '(fats, sp) ← parse_fats content (sc_fats_in_data st) sp;
      Ok (st' {{ sc_fats_in_data := fats }} {{ sc_pool := sp }})
    else if named ".MCFIAddrTakenInCode" then
      content ← content_at elf sh_offset sh_size;
      '(fats, sp) ← parse_fats content (sc_fats_in_code st) sp;
      Ok (st' {{ sc_fats_in_code := fats }} {{ sc_pool := sp }})
    else if named ".MCFIVtable" then
      content ← content_at elf sh_offset sh_size;
      '(vtable, sp) ← parse_vtable content (sc_vtable st) sp;
      Ok (st' {{ sc_vtable := vtable }} {{ sc_pool := sp }})
    else if named ".MCFIDtorCxaAtExit" || named ".MCFIDtorCxaThrow" then Ok st'
    else if named ".rela.plt" then Ok (st {{ sc_relaplt := Some sh_offset }} {{ sc_numrelaplt := sh_size / 24 }})
    else if named ".plt" then Ok (st {{ sc_plt_offset := sh_offset }})
    else if named ".dynsym" then Ok (st {{ sc_dynsym := Some sh_offset }} {{ sc_numdynsym := sh_size / 24 }})
    else if named ".dynstr" then Ok (st {{ sc_dynstr := Some sh_offset }})
    else if named ".got.plt" then Ok (st {{ sc_gotplt := sh_addr }} {{ sc_gotpltsz := RoundToPage sh_size }})
    else Ok st.

Definition scan_sections (elf : list Z) (sp : pool) : res sections :=
  shoff ← load64 elf 40;
  shnum ← load16 elf 60;
  shstrndx ← load16 elf 62;
  shstrpool ← load64 elf (shoff + shstrndx * 64 + 24);
  foldM (scan_section elf shoff shstrpool shstrndx) (seqZ 0 shnum)
    (mkSections None 0 None None 0 0 None 0 None [] [] [] [] [] [] [] [] [] false 0 0 sp).

(** ** The fake functions of the executable *)
Variable personality_literal : Z.   (* the address of the string constant *)

Definition fake_function (name type : Z) : function := mkFunction name 0 0 type [] [] [].

Definition add_exe_entry (elf : list Z) (sc : sections) (cm : code_module) (rt : runtime)
    : res (sections * code_module * runtime) :=
  let cm := cm {{ base_addr := X64ABIBASE }} in
  e_entry ← load64 elf 24;
  '(rt, name) ← intern (of_string "__exe_elf_entry") rt;
  '(rt, type) ← intern (of_string "ExeElfEntry") rt;
  let sc := sc {{ sc_functions := sc_functions sc ++ [fake_function name type] }} in
  fats ← dict_add (sc_fats_in_data sc) name tt;
  let cm := cm {{ funcsyms := funcsyms cm ++ [mkSymbol name (u64 (e_entry - base_addr cm))] }} in
  '(rt, name) ← intern (of_string "__gxx_personality_v0") rt;
  '(rt, type) ← intern
     (of_string "i32!i32@i32@i64@%struct._Unwind_Exception*@%struct._Unwind_Context*@") rt;
  let sc := sc {{ sc_functions := sc_functions sc ++ [fake_function name type] }} in
  fats ← dict_add fats personality_literal tt;
  Ok (sc {{ sc_fats_in_data := fats }}, cm, rt).

(** ** The symbols *)
Record loading : Type := mkLoading {
  ld_elf : list Z;
  ld_cm : code_module;
  ld_rt : runtime;
  ld_flp : graph;
  ld_patch_call : Z;
  ld_patch_entry : Z;
}.

(** A return address: the symbol, and the eight bytes before it. *)
Definition ra_symbol (symname : cstring) (st_value : Z) (st : loading) : res (runtime * symbol * Z) :=
  '(rt, name) ← intern (eat_hex_and_udscore (drop 11 symname)) (ld_rt st);
  let offset := u64 (st_value - base_addr (ld_cm st)) in
  orig ← load64 (ld_elf st) (offset - 8);
  Ok (rt, mkSymbol name offset, orig).

Definition dcj_symbol (symname : cstring) (st_value : Z) (st : loading) : res loading :=
  '(rt, s, orig) ← ra_symbol symname st_value st;
  let cm := ld_cm st in
  origs ← dict_add (ra_orig cm) (s_offset s) orig;
  Ok (st {{ ld_rt := rt }} {{ ld_cm := cm {{ rad := rad cm ++ [s] }} {{ ra_orig := origs }} }}).

(** The key of the new entry is marked in place. *)
Definition icj_symbol (symname : cstring) (st_value : Z) (st : loading) : res loading :=
  '(rt, s, orig) ← ra_symbol symname st_value st;
  let cm := ld_cm st in
  _ ← dict_add (ra_orig cm) (s_offset s) orig;
  let origs := dict_put (ra_orig cm) (mark_ra_ic (s_offset s)) orig in
  Ok (st {{ ld_rt := rt }} {{ ld_cm := cm {{ rai := rai cm ++ [s] }} {{ ra_orig := origs }} }}).

Definition at_symbol (symname : cstring) (st_value : Z) (st : loading) : res loading :=
  let cm := ld_cm st in
  let offset := u64 (st_value - base_addr cm) in
  '(rt, name) ← intern (eat_hex_and_udscore (drop 10 symname)) (ld_rt st);
  ats ← dict_add (at_func cm) offset name;
  Ok (st {{ ld_rt := rt }} {{ ld_cm := cm {{ at_func := ats }} }}).

Definition lp_symbol (symname : cstring) (st_value : Z) (st : loading) : res loading :=
  let cm := ld_cm st in
  let offset := u64 (st_value - base_addr cm) in
  '(rt, name) ← intern (eat_hex_and_udscore (drop 10 symname)) (ld_rt st);
  Ok (st {{ ld_rt := rt }} {{ ld_cm := cm {{ lp := lp cm ++ [mkSymbol 0 offset] }} }}
         {{ ld_flp := g_add_directed_edge (ld_flp st) name offset }}).

(** The slot of a branch is written into the four bytes before the symbol. *)
Definition bary_symbol (symname : cstring) (st_value : Z) (st : loading) : res loading :=
  let cm := ld_cm st in
  '(rt, name) ← intern (drop 12 symname) (ld_rt st);
  let '(rt, bid_slot) := alloc_bid_slot rt in
  elf ← store32 (ld_elf st) (st_value - base_addr cm - 4) bid_slot;
  Ok (st {{ ld_rt := rt }} {{ ld_elf := elf }}
         {{ ld_cm := cm {{ icfsyms := icfsyms cm ++ [mkSymbol name bid_slot] }} }}).

(** A constructor of a class whose vtable is not taken yet is patched at its
    entry. *)
Definition ctor_symbol (ctors : dict Z) (vtables : dict (list Z)) (s : symbol) (st : loading) : res code_module :=
  let cm := ld_cm st in
  match dict_find ctors (s_name s) with
  | Some class_name =>
    if negb (dict_in (vtabletaken (ld_rt st)) class_name) && dict_in vtables class_name then
      orig ← load64 (ld_elf st) (s_offset s);
      origs ← dict_add (func_orig cm) (s_offset s) orig;
      cs ← dict_add (Module.ctor cm) (s_offset s) class_name;
      let defined := if dict_in (defined_ctors cm) class_name then defined_ctors cm
                     else dict_put (defined_ctors cm) class_name tt in
      Ok (cm {{ func_orig := origs }} {{ Module.ctor := cs }} {{ defined_ctors := defined }})
    else Ok cm
  | None => Ok cm
  end.

Definition func_symbol (ctors : dict Z) (vtables : dict (list Z)) (patch_call : Z) (symname : cstring)
    (st_value st_info : Z) (st : loading) : res loading :=
  '(rt, name) ← intern symname (ld_rt st);
  let cm := ld_cm st in
  let s := mkSymbol name (u64 (st_value - base_addr cm)) in
  let st := st {{ ld_rt := rt }} {{ ld_cm := cm {{ funcsyms := funcsyms cm ++ [s] }} }} in
  cm ← ctor_symbol ctors vtables s st;
  let st := if name =? patch_call then st {{ ld_patch_call := u32 (s_offset s) }} else st in
  let cm := if Z.shiftr st_info 4 =? 2   (* STB_WEAK *)
            then cm {{ weakfuncs := g_add_directed_edge (weakfuncs cm) (s_offset s) name }} else cm in
  Ok (st {{ ld_cm := cm }}).

Definition load_symbol (sym : Z) (strtab : option Z) (ctors : dict Z) (vtables : dict (list Z)) (patch_call : Z)
    (st : loading) (cnt : Z) : res loading :=
  let elf := ld_elf st in
  let p := sym + cnt * 24 in
  st_name ← load32 elf p;
  st_info ← load8 elf (p + 4);
  st_shndx ← load16 elf (p + 6);
  st_value ← load64 elf (p + 8);
  symname ← cstr_in elf strtab st_name;
  let named prefix := starts_with symname (of_string prefix) in
  if named "__mcfi_dcj_" then dcj_symbol symname st_value st
  else if named "__mcfi_icj_" then icj_symbol symname st_value st
  else if named "__mcfi_at_" then at_symbol symname st_value st
  else if named "__mcfi_lp_" then lp_symbol symname st_value st
  else if named "__mcfi_bary_" then bary_symbol symname st_value st
  else if (Z.land st_info 0xf =? 2)   (* STT_FUNC *) && negb (st_shndx =? 0)   (* SHN_UNDEF *)
  then func_symbol ctors vtables patch_call symname st_value st_info st
  else Ok st.

(** The functions with landing pads, which are patched at their entry too. *)
Definition register_pads (flps : graph) (elf : list Z) (cm : code_module) (f : symbol) : res code_module :=
  match dict_find flps (s_name f) with
  | None => Ok cm
  | Some pads =>
    let cm := cm {{ flp := foldl (fun g (v : Z * unit) => g_add_edge g (s_offset f) v.1) (flp cm) pads }} in
    if dict_in (func_orig cm) (s_offset f) then Ok cm
    else
      orig ← load64 elf (s_offset f);
      origs ← dict_add (func_orig cm) (s_offset f) orig;
      Ok (cm {{ func_orig := origs }})
  end.

(** A function of the dynamic symbol table, with its aliases. *)
Definition dyn_symbol (elf : list Z) (dynsym : Z) (dynstr : option Z) (aliases_tc : dict (dict unit))
    (st : code_module * runtime) (cnt : Z) : res (code_module * runtime) :=
  let '(cm, rt) := st in
  let p := dynsym + cnt * 24 in
  st_name ← load32 elf p;
  st_info ← load8 elf (p + 4);
  st_shndx ← load16 elf (p + 6);
  st_value ← load64 elf (p + 8);
  if (Z.shiftr st_info 4 =? 1)   (* STB_GLOBAL *) && (Z.land st_info 0xf =? 2) && negb (st_shndx =? 0) then
    name ← cstr_in elf dynstr st_name;
    '(rt, fname) ← intern name rt;
    let addr := u64 (st_value - base_addr cm) in
    let names := match dict_find aliases_tc fname with
                 | None => [(fname, tt)]
                 | Some cc => cc
                 end in
    Ok (cm {{ dynfuncs := foldl (fun g (v : Z * unit) => g_add_directed_edge g addr v.1) (dynfuncs cm) names }}, rt)
  else Ok (cm, rt).

(** An entry of the PLT. *)
Definition plt_symbol (sc : sections) (relaplt : Z) (patch_call patch_entry : Z) (st : loading) (cnt : Z)
    : res loading :=
  let elf := ld_elf st in
  let cm := ld_cm st in
  r_offset ← load64 elf (relaplt + cnt * 24);
  r_info ← load64 elf (relaplt + cnt * 24 + 8);
  dynsym ← deref (Some (sc_dynsym sc));
  st_name ← load32 elf (dynsym + Z.shiftr r_info 32 * 24);
  symname ← cstr_in elf (sc_dynstr sc) st_name;
  '(rt, name) ← intern symname (ld_rt st);
  let plt_ent_size := if instrumented cm then 32 else 16 in
  let offset := u64 (sc_plt_offset sc + (cnt + 1) * plt_ent_size) in
  gps ← dict_add (gpfuncs cm) (u64 (r_offset - gotplt cm)) name;
  let st := st {{ ld_rt := rt }}
               {{ ld_cm := cm {{ funcsyms := funcsyms cm ++ [mkSymbol name offset] }} {{ gpfuncs := gps }} }} in
  Ok (if name =? patch_call then st {{ ld_patch_call := u32 offset }}
      else if name =? patch_entry then st {{ ld_patch_entry := u32 offset }}
      else st).

(** ** Online patching

    Every call whose return address has a symbol is made to call the patch
    stub, and the functions registered are made to call the other one. *)
Definition NO_OFFSET : Z := 0xFFFFFFFF.

(** [call rel32] to [target], written so that it ends at [stop]. *)
Definition store_rel32 (elf : list Z) (stop target : Z) : res (list Z) :=
  store32 elf (stop - 4) (u32 (target - stop)).

(** One return address; the mark of an indirect call is taken off its key. *)
Definition patch_ra (target : Z) (st : list Z * dict Z) (kv : Z * Z) : res (list Z * dict Z) :=
  let '(elf, origs) := st in
  if is_marked_ra_ic kv.1 then
    let key := unmark_ptr kv.1 in
    let p := u32 key - 8 in
    b ← load8 elf (p + 5);
    let five_byte_nop_offset := if negb (b =? 0) then 0 else 1 in
    let callsite_offset := u32 (u32 key - (if negb (b =? 0) then 3 else 2)) in
    elf ← store8 elf (p + five_byte_nop_offset) 0xe8;
    elf ← store32 elf (p + five_byte_nop_offset + 1) (u32 (target - callsite_offset));
    Ok (elf, origs ++ [(key, kv.2)])
  else
    let callsite_offset := u32 kv.1 in
    elf ← store_rel32 elf callsite_offset target;
    Ok (elf, origs ++ [kv]).

Definition patch_calls (target : Z) (elf : list Z) (origs : dict Z) : res (list Z * dict Z) :=
  if target =? NO_OFFSET then Ok (elf, origs)
  else foldM (patch_ra target) origs (elf, []).

(** A place that is patched twice: its bytes are those after the first time. *)
Definition order_patches (elf : list Z) (ra_orig : dict Z) (origs : dict Z) (kv : Z * Z) : res (dict Z) :=
  if dict_in ra_orig (u64 (kv.1 + 8)) then
    v ← load64 elf kv.1;
    Ok (origs ++ [(kv.1, v)])
  else Ok (origs ++ [kv]).

Definition patch_func (target : Z) (elf : list Z) (kv : Z * Z) : res (list Z) :=
  let callsite := u32 kv.1 in
  elf ← store8 elf callsite 0xe8;
  store32 elf (callsite + 1) (u32 (target - (callsite + 5))).

Definition patch_entries (target : Z) (elf : list Z) (origs : dict Z) : res (list Z) :=
  if target =? NO_OFFSET then Ok elf else foldM (patch_func target) origs elf.

Definition online_patching (patch_call_offset patch_entry_offset : Z) (elf : list Z) (cm : code_module)
    : res (list Z * code_module) :=
  '(elf, ras) ← patch_calls patch_call_offset elf (ra_orig cm);
  funcs ← foldM (order_patches elf ras) (func_orig cm) [];
  elf ← patch_entries patch_entry_offset elf funcs;
  Ok (elf, cm {{ ra_orig := ras }} {{ func_orig := funcs }}).

(** ** The whole *)
(** The parts of the module that the sections give. *)
Definition module_of_sections (sc : sections) (sz : Z) (cm : code_module) : code_module :=
  cm {{ icfs := sc_icfs sc }} {{ functions := sc_functions sc }} {{ classes := sc_classes sc }}
     {{ cha := sc_cha sc }} {{ aliases := sc_aliases sc }}
     {{ fats_in_code := (fun kv : Z * unit => (kv.1, [])) <$> sc_fats_in_code sc }}
     {{ fats_in_data := sc_fats_in_data sc }}
     {{ fats := merge_dicts (merge_dicts [] (sc_fats_in_code sc)) (sc_fats_in_data sc) }}
     {{ vtable := sc_vtable sc }} {{ Module.sz := sz }}.

Definition load_mcfi_metadata (elf : list Z) (sz : Z) (rt : runtime) : res (list Z * code_module * runtime) :=
  sc ← scan_sections elf (stringpool rt);
  let rt := rt {{ stringpool := sc_pool sc }} in
  let cm := alloc_code_module {{ instrumented := sc_instrumented sc }} {{ gotplt := sc_gotplt sc }}
              {{ gotpltsz := sc_gotpltsz sc }} in
  e_type ← load16 elf 16;
  '(sc, cm, rt) ← (if e_type =? 2 (* ET_EXEC *) then add_exe_entry elf sc cm rt else Ok (sc, cm, rt));
  let cm := module_of_sections sc sz cm in
  aliases_tc ← g_transitive_closure (sc_aliases sc);
  '(rt, patch_call) ← intern (of_string "__patch_call") rt;
  '(rt, patch_entry) ← intern (of_string "__patch_entry") rt;
  st ← foldM (load_symbol (default 0 (sc_sym sc)) (sc_strtab sc) (sc_ctor sc) (sc_vtable sc) patch_call)
         (seqZ 0 (sc_numsym sc)) (mkLoading elf cm rt [] NO_OFFSET NO_OFFSET);
  cm ← foldM (register_pads (ld_flp st) (ld_elf st)) (funcsyms (ld_cm st)) (ld_cm st);
  '(cm, rt) ← foldM (dyn_symbol (ld_elf st) (default 0 (sc_dynsym sc)) (sc_dynstr sc) aliases_tc)
                (seqZ 0 (sc_numdynsym sc)) (cm, ld_rt st);
  st ← foldM (plt_symbol sc (default 0 (sc_relaplt sc)) patch_call patch_entry)
         (seqZ 0 (sc_numrelaplt sc)) (st {{ ld_cm := cm }} {{ ld_rt := rt }});
  '(elf, cm) ← online_patching (ld_patch_call st) (ld_patch_entry st) (ld_elf st) (ld_cm st);
  Ok (elf, cm, ld_rt st).
End load.
