(* ===== verification/LoaderFacts.v ===== *)
(** * Online patching is undone

    Every call the loader patches calls the stub, and ends where the runtime
    looks for it; the first time it is executed, the runtime puts back the
    bytes of the file. *)

From S2P Require Import Prelude Dict Graph Module StringPool Table Runtime Threads Patch Loader.

(** The bytes of a file as a memory. *)
Definition mem_of (elf : list Z) : mem := fun x => default 0 (elf !! Z.to_nat x).

Lemma load8_mem elf a : 0 <= a < Z.of_nat (length elf) -> load8 elf a = Ok (mem_of elf a).
Proof.
  intros [H0 H1]. unfold load8, fetch, mem_of. rewrite (proj2 (Z.leb_le 0 a)) by done.
  by destruct (lookup_lt_is_Some_2 elf (Z.to_nat a)) as [b ->]; [lia|].
Qed.

Lemma store8_mem elf a v : 0 <= a < Z.of_nat (length elf) -> exists elf', store8 elf a v = Ok elf' /\
  length elf' = length elf /\ forall x, 0 <= x -> mem_of elf' x = write8 (mem_of elf) a v x.
Proof.
  intros [H0 H1]. exists (<[Z.to_nat a := u8 v]> elf). split; [|split; [apply length_insert|]].
  - unfold store8. rewrite (proj2 (Z.leb_le 0 a)) by done. apply store_Ok. split; [lia|done].
  - intros x Hx. unfold mem_of, write8. destruct (Z.eqb_spec x a) as [->|Hne].
    + by rewrite list_lookup_insert_eq by lia.
    + by rewrite list_lookup_insert_ne by lia.
Qed.

Lemma load_le_mem n elf a : 0 <= a -> a + Z.of_nat n <= Z.of_nat (length elf) ->
  load_le n elf a = Ok (read_le n (mem_of elf) a).
Proof.
  revert a. induction n as [|n IH]; intros a H0 H1; cbn [load_le read_le]; [done|].
  rewrite load8_mem by lia. cbn [mbind res_bind]. by rewrite IH by lia.
Qed.

Lemma write_le_ext n m m' a v : 0 <= a -> (forall x, 0 <= x -> m x = m' x) ->
  forall x, 0 <= x -> write_le n m a v x = write_le n m' a v x.
Proof.
  revert m m' a v. induction n as [|n IH]; intros m m' a v Ha H x Hx; cbn [write_le]; [by apply H|].
  apply IH; [lia| |done]. intros y Hy. unfold write8. by rewrite H.
Qed.

Lemma store_le_mem n elf a v : 0 <= a -> a + Z.of_nat n <= Z.of_nat (length elf) -> exists elf',
  store_le n elf a v = Ok elf' /\ length elf' = length elf /\
  forall x, 0 <= x -> mem_of elf' x = write_le n (mem_of elf) a v x.
Proof.
  revert elf a v. induction n as [|n IH]; intros elf a v H0 H1; cbn [store_le write_le]; [by exists elf|].
  destruct (store8_mem elf a v) as (elf1 & -> & Hl1 & H2); [lia|]. cbn [mbind res_bind].
  destruct (IH elf1 (a + 1) (v / 256)) as (elf' & -> & Hl & H); [lia|lia|].
  exists elf'. split; [done|]. split; [congruence|]. intros x Hx. rewrite H by done.
  by apply write_le_ext; [lia|..].
Qed.

(** ** Call sites *)
(** The offset of the return address a key stands for. *)
Definition site (k : Z) : Z := if is_marked_ra_ic k then unmark_ptr k else k.

(** Where the planted call ends: an indirect call of two or three bytes comes
    after it, at the return address. *)
Definition planted_end (elf : list Z) (k : Z) : Z :=
  if is_marked_ra_ic k then site k - (if mem_of elf (site k - 3) =? 0 then 2 else 3) else site k.

(** The instruction that ends there is [call target]. *)
Definition planted (elf elf' : list Z) (target k : Z) : Prop :=
  let stop := planted_end elf k in
  read32 (mem_of elf') (stop - 4) = u32 (target - stop) /\
  (is_marked_ra_ic k = true -> mem_of elf' (stop - 5) = 0xe8).

Definition in_file (elf : list Z) (kv : Z * Z) : Prop :=
  8 <= site kv.1 < 2 ^ 32 /\ site kv.1 <= Z.of_nat (length elf).

Definition sites_apart (kv kv' : Z * Z) : Prop := site kv.1 + 8 <= site kv'.1 \/ site kv'.1 + 8 <= site kv.1.

(** Writing the instruction whose opcode is at [a]. *)
Lemma store_call elf a target stop : 0 <= a -> a + 5 <= Z.of_nat (length elf) -> stop = a + 5 -> exists elf',
  (elf ← store8 elf a 0xe8; store32 elf (a + 1) (u32 (target - stop))) = Ok elf' /\ length elf' = length elf /\
  (forall x, 0 <= x -> ~ (a <= x < a + 5) -> mem_of elf' x = mem_of elf x) /\
  read32 (mem_of elf') (stop - 4) = u32 (target - stop) /\ mem_of elf' (stop - 5) = 0xe8.
Proof.
  intros H0 H1 ->. destruct (store8_mem elf a 0xe8) as (elf1 & -> & Hl1 & H2); [lia|]. cbn [mbind res_bind].
  destruct (store_le_mem 4 elf1 (a + 1) (u32 (target - (a + 5)))) as (elf' & Hst & Hl & H); [lia|lia|].
  exists elf'. split; [exact Hst|]. split; [congruence|]. split_and!.
  - intros x Hx Hout. rewrite H, write_le_out, H2 by lia. unfold write8. by rewrite (proj2 (Z.eqb_neq x a)) by lia.
  - replace (a + 5 - 4) with (a + 1) by lia. pose proof (u32_range (target - (a + 5))) as Hr.
    etrans; [|apply (read_write_same 4 (mem_of elf1) (a + 1)); cbn; lia].
    apply read_le_ext. intros x Hx. apply H. lia.
  - replace (a + 5 - 5) with a by lia. rewrite H, write_le_out, H2 by lia. unfold write8. by rewrite Z.eqb_refl.
Qed.

Lemma patch_ra_spec target elf acc kv : in_file elf kv -> exists elf',
  patch_ra target (elf, acc) kv = Ok (elf', acc ++ [(site kv.1, kv.2)]) /\ length elf' = length elf /\
  (forall x, 0 <= x -> ~ (site kv.1 - 8 <= x < site kv.1) -> mem_of elf' x = mem_of elf x) /\
  planted elf elf' target kv.1.
Proof.
  intros [Hs Hl]. unfold planted, planted_end, patch_ra. destruct kv as [k v]. cbn [fst snd] in *.
  destruct (is_marked_ra_ic k) eqn:Hk.
  - assert (Hsite : unmark_ptr k = site k) by (unfold site; by rewrite Hk). rewrite Hsite.
    rewrite (u32_small (site k)) by lia. replace (site k - 8 + 5) with (site k - 3) by lia.
    rewrite load8_mem by lia. cbn [mbind res_bind].
    set (n := if mem_of elf (site k - 3) =? 0 then 2 else 3).
    assert (Hn : (if negb (mem_of elf (site k - 3) =? 0) then 3 else 2) = n) by (unfold n; by destruct (_ =? 0)).
    assert (Hf : (if negb (mem_of elf (site k - 3) =? 0) then 0 else 1) = 3 - n) by (unfold n; by destruct (_ =? 0)).
    assert (Hn23 : n = 2 \/ n = 3) by (unfold n; destruct (_ =? 0); auto). rewrite Hn, Hf, (u32_small (site k - n)) by lia.
    destruct (store_call elf (site k - 8 + (3 - n)) target (site k - n)) as (elf' & Hst & Hlen & Hout & Hr & Ho); [lia..|].
    exists elf'. rewrite <- bind_assoc, Hst. cbn [mbind res_bind]. split; [done|]. split; [done|].
    split; [|by split]. intros x Hx Hx'. apply Hout; [done|lia].
  - assert (Hsite : site k = k) by (unfold site; by rewrite Hk). rewrite Hsite in *. rewrite (u32_small k) by lia.
    unfold store_rel32. destruct (store_le_mem 4 elf (k - 4) (u32 (target - k))) as (elf' & Hst & Hlen & Hw); [lia..|].
    exists elf'. change (store_le 4) with store32 in Hst. rewrite Hst. cbn [mbind res_bind].
    split; [done|]. split; [done|]. split; [|split; [|done]].
    + intros x Hx Hx'. rewrite Hw, write_le_out by lia. done.
    + pose proof (u32_range (target - k)) as Hr. etrans; [|apply (read_write_same 4 (mem_of elf) (k - 4)); cbn; lia].
      apply read_le_ext. intros x Hx. apply Hw. lia.
Qed.

Lemma planted_ext elf elf1 elf' elf'' target k : 8 <= site k ->
  (forall x, site k - 8 <= x < site k -> mem_of elf1 x = mem_of elf x) ->
  (forall x, site k - 8 <= x < site k -> mem_of elf'' x = mem_of elf' x) ->
  planted elf1 elf' target k -> planted elf elf'' target k.
Proof.
  intros Hs H1 H2. unfold planted. assert (Hend : planted_end elf1 k = planted_end elf k).
  { unfold planted_end. destruct (is_marked_ra_ic k); [|done]. by rewrite H1 by lia. }
  rewrite Hend. assert (Hk : site k - 3 <= planted_end elf k <= site k).
  { unfold planted_end. destruct (is_marked_ra_ic k); [|lia]. destruct (_ =? 0); lia. }
  intros [Hr Ho]. split.
  - rewrite <- Hr. apply read_le_ext. intros x Hx. apply H2. lia.
  - intros Hm. rewrite <- (Ho Hm). apply H2. lia.
Qed.

Lemma patch_calls_run target l : forall elf acc, Forall (in_file elf) l -> List.ForallOrdPairs sites_apart l ->
  exists elf', foldM (patch_ra target) l (elf, acc) = Ok (elf', acc ++ ((fun kv => (site kv.1, kv.2)) <$> l)) /\
    length elf' = length elf /\
    (forall x, 0 <= x -> (forall kv, kv ∈ l -> ~ (site kv.1 - 8 <= x < site kv.1)) -> mem_of elf' x = mem_of elf x) /\
    forall kv, kv ∈ l -> planted elf elf' target kv.1.
Proof.
  induction l as [|kv l IH]; intros elf acc Hin Hap.
  { exists elf. cbn. rewrite app_nil_r. split_and!; [done..|]. by intros kv Hkv%not_elem_of_nil. }
  apply Forall_cons in Hin as [Hkv Hin]. inversion Hap as [|? ? Hfirst Hap']. subst.
  destruct (patch_ra_spec target elf acc kv Hkv) as (elf1 & H1 & Hl1 & Hout1 & Hp1). rewrite foldM_cons, H1.
  destruct (IH elf1 (acc ++ [(site kv.1, kv.2)])) as (elf' & Hrun & Hl & Hout & Hp); [|done|].
  { eapply Forall_impl; [exact Hin|]. intros kv' [? ?]. split; [done|by rewrite Hl1]. }
  exists elf'. rewrite <- app_assoc in Hrun. split; [exact Hrun|]. split; [congruence|].
  rewrite List.Forall_forall in Hfirst. split.
  - intros x Hx Hno. rewrite Hout, Hout1; [done|done|apply Hno; left|done|]. intros kv' Hkv'. apply Hno. by right.
  - intros kv' [->|Hkv']%elem_of_cons.
    + destruct Hkv as [Hk8 _]. apply (planted_ext elf elf elf1 elf'); [lia|done| |done].
      intros x Hx. apply Hout; [lia|]. intros kv' Hkv' Hbad. apply list_elem_of_In, Hfirst in Hkv'.
      unfold sites_apart in Hkv'. lia.
    + assert (Hk8 : 8 <= site kv'.1) by (rewrite Forall_forall in Hin; by apply Hin).
      apply (planted_ext elf elf1 elf' elf'); [lia| |done|by apply Hp]. intros x Hx. apply Hout1; [lia|].
      apply list_elem_of_In, Hfirst in Hkv'. unfold sites_apart in Hkv'. lia.
Qed.

(** ** The runtime's side *)
(** Writing a word read elsewhere copies its bytes. *)
Lemma write_read_bytes n m m' a b k : (forall x, 0 <= m' x < 256) -> (k < n)%nat ->
  write_le n m a (read_le n m' b) (a + Z.of_nat k) = m' (b + Z.of_nat k).
Proof.
  intros Hm. revert m a b k. induction n as [|n IH]; intros m a b k Hk; [lia|]. cbn [write_le read_le].
  pose proof (Hm b) as Hb.
  replace ((m' b + 256 * read_le n m' (b + 1)) / 256) with (read_le n m' (b + 1)) by div_lia.
  destruct k as [|k].
  - rewrite !Z.add_0_r, write_le_out by lia. unfold write8. rewrite Z.eqb_refl. unfold u8, wrap. change (2 ^ 8) with 256. div_lia.
  - rewrite Nat2Z.inj_succ. replace (a + Z.succ (Z.of_nat k)) with (a + 1 + Z.of_nat k) by lia.
    rewrite IH by lia. f_equal. lia.
Qed.

Lemma mem_of_bytes elf x : Forall (fun b => 0 <= b < 256) elf -> 0 <= mem_of elf x < 256.
Proof.
  intros He. unfold mem_of. destruct (elf !! Z.to_nat x) as [b|] eqn:H; cbn; [|lia].
  rewrite Forall_forall in He. apply He. by eapply list_elem_of_lookup_2.
Qed.

Lemma find_site l kv : List.ForallOrdPairs sites_apart l -> kv ∈ l ->
  dict_find ((fun kv : Z * Z => (site kv.1, kv.2)) <$> l) (site kv.1) = Some kv.2.
Proof.
  intros Hap. revert kv. induction Hap as [|kv0 l Hfirst Hap IH]; intros kv Hkv; [by apply not_elem_of_nil in Hkv|].
  cbn. apply elem_of_cons in Hkv as [->|Hkv]; [by rewrite Z.eqb_refl|].
  rewrite (proj2 (Z.eqb_neq _ _)); [by apply IH|]. rewrite List.Forall_forall in Hfirst.
  apply list_elem_of_In, Hfirst in Hkv. unfold sites_apart in Hkv. lia.
Qed.

Lemma planted_end_range elf k : site k - 3 <= planted_end elf k <= site k /\ planted_end elf k <> site k - 1.
Proof. unfold planted_end. destruct (is_marked_ra_ic k); [|lia]. destruct (_ =? 0); lia. Qed.

(** What the runtime does when the planted call is executed. *)
Lemma patch_call_undoes elf k v rt i m : let pp := base_addr m + planted_end elf k in
  find_module pp (modules rt) = Some (i, m) -> dict_find (ra_orig m) (site k) = Some v ->
  site k mod 8 = 0 -> base_addr m mod 8 = 0 -> 0 <= base_addr m -> 8 <= site k -> base_addr m + site k + 8 < 2 ^ 64 ->
  0 <= osb_base_addr m -> osb_base_addr m + site k < 2 ^ 64 -> dict_in (patched_ra rt) pp = false ->
  rt_cfggened rt = true \/ base_addr m + site k ∉ keys (patch_compensate rt) ->
  exists rt', patch_call pp rt = Ok rt' /\ osb rt' = write64 (osb rt) (osb_base_addr m + site k - 8) v.
Proof.
  intros pp Hm Hv Hs8 Hb8 Hb0 Hs Hend Ho0 Ho Hnew Hready. pose proof (planted_end_range elf k) as [Hr Hne].
  unfold patch_call. rewrite Hm.
  assert (Hck : ((pp mod 8 =? 0) || (u64 (pp + 3) mod 8 =? 0) || (u64 (pp + 2) mod 8 =? 0)) = true).
  { rewrite (u64_small (pp + 3)), (u64_small (pp + 2)) by lia. rewrite !orb_true_iff, !Z.eqb_eq.
    subst pp. assert (planted_end elf k = site k \/ planted_end elf k = site k - 2 \/ planted_end elf k = site k - 3)
      as [->|[->| ->]] by lia; div_lia. }
  rewrite Hck, Hnew. cbn [CHECK mbind res_bind].
  rewrite (u64_small (pp + 7)) by lia.
  assert (Hround : (pp + 7) / 8 * 8 = base_addr m + site k) by (subst pp; div_lia).
  rewrite Hround, (u64_small (base_addr m + site k)) by lia.
  replace (base_addr m + site k - base_addr m) with (site k) by lia. rewrite (u64_small (site k)), Hv by lia.
  rewrite (u64_small (base_addr m + site k)), (u64_small (osb_base_addr m + site k - 8)) by lia.
  change (rt_cfggened (rt {{ patched_ra := _ }})) with (rt_cfggened rt).
  change (patch_compensate (rt {{ patched_ra := _ }})) with (patch_compensate rt).
  destruct (rt_cfggened rt).
  - eexists. split; reflexivity.
  - destruct Hready as [|Hready]; [done|].
    assert (Hadd : dict_add (patch_compensate rt) (base_addr m + site k) tt =
      Ok (dict_put (patch_compensate rt) (base_addr m + site k) tt)) by by apply dict_add_Ok. rewrite Hadd.
    eexists. split; reflexivity.
Qed.

(** C37.  Patching the calls of a module, when it is loaded, makes each of
    them call the stub [target] and nothing else happens to the file.  The
    first time such a call is executed, [patch_call] accepts its return
    address, and the code has again the bytes of the file there. *)
Theorem online_patching_undone target elf origs :
  target <> NO_OFFSET -> Forall (fun b => 0 <= b < 256) elf -> Forall (in_file elf) origs ->
  List.ForallOrdPairs sites_apart origs ->
  (forall kv, kv ∈ origs -> load64 elf (site kv.1 - 8) = Ok kv.2) ->
  exists elf' ras, patch_calls target elf origs = Ok (elf', ras) /\ length elf' = length elf /\
    (forall x, 0 <= x -> (forall kv, kv ∈ origs -> ~ (site kv.1 - 8 <= x < site kv.1)) -> mem_of elf' x = mem_of elf x) /\
    forall kv, kv ∈ origs -> planted elf elf' target kv.1 /\
      forall rt i m, let pp := base_addr m + planted_end elf kv.1 in
        find_module pp (modules rt) = Some (i, m) -> ra_orig m = ras -> site kv.1 mod 8 = 0 ->
        base_addr m mod 8 = 0 -> 0 <= base_addr m -> base_addr m + site kv.1 + 8 < 2 ^ 64 ->
        0 <= osb_base_addr m -> osb_base_addr m + site kv.1 < 2 ^ 64 -> dict_in (patched_ra rt) pp = false ->
        rt_cfggened rt = true \/ base_addr m + site kv.1 ∉ keys (patch_compensate rt) ->
        exists rt', patch_call pp rt = Ok rt' /\
          (forall x, site kv.1 - 8 <= x < site kv.1 -> osb rt' (osb_base_addr m + x) = mem_of elf x) /\
          (forall y, ~ (osb_base_addr m + site kv.1 - 8 <= y < osb_base_addr m + site kv.1) -> osb rt' y = osb rt y).
Proof.
  intros Ht Hbytes Hin Hap Horig. unfold patch_calls. rewrite (proj2 (Z.eqb_neq target NO_OFFSET)) by done.
  destruct (patch_calls_run target origs elf [] Hin Hap) as (elf' & Hrun & Hl & Hout & Hp).
  exists elf', ((fun kv => (site kv.1, kv.2)) <$> origs). split; [exact Hrun|]. split; [done|]. split; [done|].
  intros kv Hkv. split; [by apply Hp|]. intros rt i m Hm Hras Hs8 Hb8 Hb0 Hend Ho0 Ho Hnew Hready.
  assert (Hsite : 8 <= site kv.1 /\ site kv.1 <= Z.of_nat (length elf)).
  { rewrite Forall_forall in Hin. by destruct (Hin kv Hkv) as [[? _] ?]. }
  destruct (patch_call_undoes elf kv.1 kv.2 rt i m) as (rt' & Hcall & Hosb); [done|by rewrite Hras; apply find_site|done..|lia|done|done|done|done|done|].
  exists rt'. split; [done|]. rewrite Hosb. split; [|intros y Hy; apply write_le_out; lia].
  specialize (Horig kv Hkv). unfold load64 in Horig. rewrite load_le_mem in Horig by lia. injection Horig as <-.
  intros x Hx. pose proof (write_read_bytes 8 (osb rt) (mem_of elf) (osb_base_addr m + site kv.1 - 8) (site kv.1 - 8)
    (Z.to_nat (x - (site kv.1 - 8)))) as Hw.
  replace (osb_base_addr m + x) with (osb_base_addr m + site kv.1 - 8 + Z.of_nat (Z.to_nat (x - (site kv.1 - 8)))) by lia.
  etrans; [apply Hw; [intros y; by apply mem_of_bytes|lia]|]. f_equal. lia.
Qed.

(** ** An example: an indirect call through [%r8] and a direct one. *)
Definition sample_elf : list Z :=
  [0; 0; 0; 0; 0; 0; 0; 0; 0x0f; 0x1f; 0x44; 0; 0; 0x41; 0xff; 0xd0; 0x90; 0x90; 0x90; 0xe8; 1; 2; 3; 4].
Definition sample_sites : dict Z := [(mark_ra_ic 16, 0xd0ff410000441f0f); (24, 0x04030201e8909090)].
Definition loaded_module : code_module :=
  alloc_code_module {{ base_addr := 0x400000 }} {{ sz := 4096 }} {{ osb_base_addr := 0x70000000 }}
    {{ ra_orig := [(16, 0xd0ff410000441f0f); (24, 0x04030201e8909090)] }}.
Definition loaded_state : runtime := sample_runtime {{ modules := [loaded_module] }}.

Lemma online_patching_witness : exists elf' ras rt',
  patch_calls 0x40 sample_elf sample_sites = Ok (elf', ras) /\ elf' !! 8%nat = Some 0xe8 /\
  patch_call 0x40000d loaded_state = Ok rt' /\ osb rt' 0x70000008 = 0x0f.
Proof.
  destruct (online_patching_undone 0x40 sample_elf sample_sites) as (elf' & ras & Hrun & _ & _ & H).
  - discriminate.
  - apply (bool_decide_unpack _). vm_compute. exact I.
  - repeat (apply Forall_cons; split; [repeat split; vm_compute; (discriminate || reflexivity)|]). apply Forall_nil_2.
  - constructor; [|constructor; [|constructor]]; constructor; [|constructor]. left. vm_compute. discriminate.
  - intros kv Hkv. repeat (apply elem_of_cons in Hkv as [->|Hkv]; [vm_compute; reflexivity|]). by apply not_elem_of_nil in Hkv.
  - exists elf', ras. assert (Hrun' := Hrun). vm_compute in Hrun. injection Hrun as Helf Hras.
    destruct (H (mark_ra_ic 16, 0xd0ff410000441f0f) ltac:(left)) as [_ Hcall].
    destruct (Hcall loaded_state 0%nat loaded_module) as (rt' & Hrt & Hosb & _);
      [vm_compute; reflexivity|by rewrite <- Hras|reflexivity..|by vm_compute|by vm_compute|by vm_compute|by vm_compute
      |reflexivity|right; apply not_elem_of_nil|].
    exists rt'. split; [exact Hrun'|]. split; [by rewrite <- Helf|]. split; [exact Hrt|].
    apply (Hosb 8). vm_compute. by split.
Defined.
