(* ===== verification/ElfLoad.v ===== *)
(** * Loading an ELF file into the sandbox ([main.c], [alloc_sandbox],
    [load_elf], [populate_vtabletaken])

    The system calls are parameters: [opened k], [ftruncate], [mmap k] and
    [munmap] are what they answer when the [k]-th segment is mapped, the
    [.got.plt] coming after the last.  Memory allocation does not fail. *)

From S2P Require Import Prelude Utils Pager Dict Graph Module StringPool Table Runtime MemCalls CodeHeap CodeMeta Loader.

Definition PF_X : Z := 1.
Definition PF_W : Z := 2.
Definition PF_R : Z := 4.
Definition PT_LOAD : Z := 1.

Definition prot_of (x : Z) : Z :=
  let prot := PROT_NONE in
  let prot := if has x PF_X then Z.lor prot PROT_EXEC else prot in
  let prot := if has x PF_W then Z.lor prot PROT_WRITE else prot in
  if has x PF_R then Z.lor prot PROT_READ else prot.

(** ** The empty sandbox *)
Section sandbox.
Context `{Q : Qsort} (mem : bool).
Variable mmap : Z -> Z -> Z -> Z -> Z -> Z -> Z.

Definition MAP_ANON_FIXED : Z := Z.lor (Z.lor MAP_ANONYMOUS MAP_FIXED) MAP_PRIVATE.

(** The page table with the pages below the program and the stack, and the
    stack pointer. *)
Definition alloc_sandbox (VM : Vmmap) : res (Vmmap * Z) :=
  if negb (mmap FourGB FourGB PROT_NONE MAP_ANON_FIXED (-1) 0 =? FourGB) then Exit
  else
    VM ← VmmapAdd mem VM 0 (Z.shiftr X64ABIBASE PAGESHIFT) PROT_NONE PROT_NONE VMMAP_ENTRY_ANONYMOUS;
    let start := FourGB - SixtyFourKB * 128 in
    let stop := FourGB in
    let rw := Z.lor PROT_READ PROT_WRITE in
    if negb (mmap start (stop - start) rw MAP_ANON_FIXED (-1) 0 =? start) then Exit
    else
      VM ← VmmapAdd mem VM (Z.shiftr start PAGESHIFT) (Z.shiftr (stop - start) PAGESHIFT) rw rw
             VMMAP_ENTRY_ANONYMOUS;
      Ok (VM, stop - 8).
End sandbox.

(** ** Program headers *)
Record phdr : Type := mkPhdr {
  p_type : Z;
  p_flags : Z;
  p_offset : Z;
  p_vaddr : Z;
  p_filesz : Z;
  p_memsz : Z;
}.

#[export] Instance phdr_eq_dec : EqDecision phdr.
Proof. solve_decision. Defined.

Definition read_phdr (elf : list Z) (phoff : Z) (cnt : Z) : res phdr :=
  let p := phoff + cnt * 56 in
  ty ← load32 elf p;
  flags ← load32 elf (p + 4);
  offset ← load64 elf (p + 8);
  vaddr ← load64 elf (p + 16);
  filesz ← load64 elf (p + 32);
  memsz ← load64 elf (p + 40);
  Ok (mkPhdr ty flags offset vaddr filesz memsz).

Definition read_phdrs (elf : list Z) : res (list phdr) :=
  phoff ← load64 elf 32;
  phnum ← load16 elf 56;
  foldM (fun l cnt => ph ← read_phdr elf phoff cnt; Ok (l ++ [ph])) (seqZ 0 phnum) [].

Definition is_load (ph : phdr) : bool := p_type ph =? PT_LOAD.

(** Where the last segment ends, rounded to a page. *)
Definition vaddr_end (phs : list phdr) : Z :=
  RoundToPage (foldl (fun stop ph =>
    if is_load ph then (if stop <? u64 (p_vaddr ph + p_memsz ph) then u64 (p_vaddr ph + p_memsz ph) else stop)
    else stop) 0 phs).

Definition VADDR (vaddr : Z) (is_exe : bool) : Z := if is_exe then u64 (vaddr - X64ABIBASE) else vaddr.

Section load.
Context `{Q : Qsort} `{M : Malloc} (mem : bool).
Variable personality_literal : Z.
Variable opened : nat -> list (Z * Z).
Variable ftruncate : Z -> Z -> Z.
Variable mmap : nat -> Z -> Z -> Z -> Z -> Z -> Z -> Z.
Variable munmap : Z -> Z -> Z.

(** ** One segment *)
(** Where the content goes: code has a parallel mapping. *)
Definition map_segment (k : nat) (base curpage size : Z) (prot : Z) (cm : code_module) : res (Z * code_module) :=
  if has prot PROT_EXEC then
    content ← create_parallel_mapping (opened k) ftruncate (mmap k) base size PROT_EXEC;
    Ok (content, cm {{ osb_base_addr := content }} {{ sz := size }})
  else
    let content := mmap k curpage size (Z.lor PROT_READ PROT_WRITE) MAP_ANON_FIXED (-1) 0 in
    if negb (content =? curpage) then Exit else Ok (content, cm).

Definition load_segment (elf : list Z) (is_exe : bool) (base : Z) (st : nat * code_module * runtime) (ph : phdr)
    : res (nat * code_module * runtime) :=
  let '(k, cm, rt) := st in
  if is_load ph then
    let start := u64 (base + VADDR (p_vaddr ph) is_exe) in
    let curpage := CurPage start in
    let size := u64 (RoundToPage (u64 (start + p_memsz ph)) - curpage) in
    let prot := prot_of (p_flags ph) in
    '(content, cm) ← map_segment k base curpage size prot cm;
    bytes ← content_at elf (p_offset ph) (p_filesz ph);
    vm ← VmmapAdd mem (VM rt) (Z.shiftr curpage PAGESHIFT) (Z.shiftr size PAGESHIFT) prot prot VMMAP_ENTRY_ANONYMOUS;
    Ok (S k, cm, rt {{ osb := put_bytes (osb rt) (content + Z.land (p_vaddr ph) (PAGE_SIZE - 1)) bytes }} {{ VM := vm }})
  else Ok (S k, cm, rt).

(** The [.got.plt] gets a parallel mapping; inside, it is read-only. *)
Definition remap_gotplt (k : nat) (is_exe : bool) (base : Z) (cm : code_module) (rt : runtime)
    : res (code_module * runtime) :=
  let gp := u64 (base + VADDR (gotplt cm) is_exe) in
  let bytes := bytes_at (osb rt) gp (Z.to_nat (gotpltsz cm)) in
  if negb (munmap gp (gotpltsz cm) =? 0) then Exit
  else
    osb_gp ← create_parallel_mapping (opened k) ftruncate (mmap k) gp (gotpltsz cm) PROT_READ;
    Ok (cm {{ gotplt := gp }} {{ osb_gotplt := osb_gp }}, rt {{ osb := put_bytes (osb rt) osb_gp bytes }}).

(** ** Types of the trampolines *)
Definition trampoline_names : list string :=
  ["trampoline_mmap"; "trampoline_mremap"; "trampoline_mprotect"; "trampoline_munmap"; "trampoline_brk";
   "trampoline_set_tcb"; "trampoline_allocset_tcb"; "trampoline_free_tcb"; "trampoline_load_native_code";
   "trampoline_gen_cfg"]%string.

(** [tramps] is the static set, filled the first time. *)
Definition remove_trampoline_type (tramps : dict unit) (m : code_module) (rt : runtime)
    : res (dict unit * code_module * runtime) :=
  '(tramps, rt) ←
    match tramps with
    | [] => foldM (fun (st : dict unit * runtime) s =>
              '(rt, p) ← intern (of_string s) st.2; Ok (g_add_vertex st.1 p, rt)) trampoline_names ([], rt)
    | _ => Ok (tramps, rt)
    end;
  Ok (tramps,
      m {{ functions := (fun f => if g_in tramps (f_name f) then f {{ f_type := 0 }} else f) <$> functions m }}, rt).

(** ** The file *)
(** The base address: the topmost place that is large enough, unless it is
    the executable. *)
Definition place (is_exe : bool) (phs : list phdr) (rt : runtime) : res (runtime * Z) :=
  if is_exe then Ok (rt, X64ABIBASE)
  else
    '(vm, pa) ← VmmapFindSpace (VM rt) (Z.shiftr (vaddr_end phs) PAGESHIFT);
    if pa =? 0 then Exit else Ok (rt {{ VM := vm }}, u64 (Z.shiftl pa PAGESHIFT)).

(** The state, the base and the entry point. *)
Definition load_elf (elf : list Z) (is_exe : bool) (tramps : dict unit) (rt : runtime)
    : res (dict unit * runtime * Z * Z) :=
  '(elf, cm, rt) ← load_mcfi_metadata personality_literal elf (Z.of_nat (length elf)) rt;
  let rt := if instrumented cm then rt else rt {{ COMPAT_MODE := true }} in
  '(tramps, cm, rt) ← remove_trampoline_type tramps cm rt;
  phs ← read_phdrs elf;
  '(rt, base) ← place is_exe phs rt;
  '(k, cm, rt) ← foldM (load_segment elf is_exe base) phs (O, cm, rt);
  '(cm, rt) ← (if instrumented cm then remap_gotplt k is_exe base cm rt
               else Ok (cm {{ gotplt := u64 (base + VADDR (gotplt cm) is_exe) }}, rt));
  e_entry ← load64 elf 24;
  Ok (tramps, rt {{ modules := modules rt ++ [cm {{ base_addr := base }}] }}, base, u64 (base + e_entry)).

(** ** The classes whose virtual tables the runtime of C++ takes *)
Definition abi_classes : list string :=
  ["__cxxabiv1::__shim_type_info"; "__cxxabiv1::__fundamental_type_info"; "__cxxabiv1::__array_type_info";
   "__cxxabiv1::__function_type_info"; "__cxxabiv1::__enum_type_info"; "__cxxabiv1::__class_type_info";
   "__cxxabiv1::__si_class_type_info"; "__cxxabiv1::__vmi_class_type_info"; "__cxxabiv1::__pbase_type_info";
   "__cxxabiv1::__pointer_type_info"; "__cxxabiv1::__pointer_to_member_type_info"]%string.

Definition populate_vtabletaken (rt : runtime) : res runtime :=
  foldM (fun rt s =>
    '(rt, p) ← intern (of_string s) rt;
    vtt ← dict_add (vtabletaken rt) p tt;
    Ok (rt {{ vtabletaken := vtt }})) abi_classes rt.
End load.
