(* ===== verification/ElfFacts.v ===== *)
(** * What loading leaves in the page table

    The empty sandbox is a well-formed page table, and loading a file adds
    the pages of its segments, with their protections, and nothing else. *)

From S2P Require Import Prelude Utils Smoothsort SmoothsortSpec Pager PagerFacts PagerSpec Dict Graph Module StringPool Table Runtime MemCalls MemFacts CodeHeap CodeMeta Loader ElfLoad.

(** ** What the metadata do not change *)
Record kept (rt rt' : runtime) : Prop := {
  kept_VM : VM rt' = VM rt;
  kept_modules : modules rt' = modules rt;
  kept_table : table rt' = table rt;
  kept_osb : osb rt' = osb rt;
}.

#[export] Instance kept_preorder : PreOrder kept.
Proof. split; [by intros rt|]. intros a b c [? ? ? ?] [? ? ? ?]. split; congruence. Qed.

Section facts.
Context `{M : Malloc} (lit : Z).

Lemma intern_kept s rt rt' p : intern s rt = Ok (rt', p) -> kept rt rt'.
Proof using.
  unfold intern. destruct (sp_intern_string _ _) as [[sp q]| | |]; [|done..]. cbn. by intros [= <- <-].
Qed.

Lemma alloc_bid_slot_kept rt : kept rt (alloc_bid_slot rt).1.
Proof using. done. Qed.

(** Runs a successful computation backwards, keeping what interning and slots
    do to the state. *)
Ltac split_pairs := repeat match goal with x : (_ * _)%type |- _ => destruct x end.
Ltac run H :=
  repeat (let Hx := fresh "Hx" in apply bind_Ok_inv in H as (? & Hx & H); split_pairs; cbn beta iota in H, Hx).
Ltac kept_done :=
  repeat match goal with
  | E : intern _ _ = Ok (_, _) |- _ => apply intern_kept in E
  | E : kept ?a ?b |- kept ?a _ => etrans; [exact E|]; clear E
  end; try reflexivity; try done.

Lemma ra_symbol_kept n v st rt s o : ra_symbol n v st = Ok (rt, s, o) -> kept (ld_rt st) rt.
Proof using. unfold ra_symbol. intros H. run H. injection H as <- <- <-. kept_done. Qed.

Lemma symbol_kept n v st st' :
  dcj_symbol n v st = Ok st' \/ icj_symbol n v st = Ok st' \/ at_symbol n v st = Ok st' \/
  lp_symbol n v st = Ok st' \/ bary_symbol n v st = Ok st' -> kept (ld_rt st) (ld_rt st').
Proof using.
  intros [H|[H|[H|[H|H]]]].
  - unfold dcj_symbol in H. run H. apply ra_symbol_kept in Hx. injection H as <-. exact Hx.
  - unfold icj_symbol in H. run H. apply ra_symbol_kept in Hx. injection H as <-. exact Hx.
  - unfold at_symbol in H. run H. apply intern_kept in Hx. injection H as <-. exact Hx.
  - unfold lp_symbol in H. run H. apply intern_kept in Hx. injection H as <-. exact Hx.
  - unfold bary_symbol in H. run H. apply intern_kept in Hx. injection H as <-.
    etrans; [exact Hx|apply alloc_bid_slot_kept].
Qed.

Lemma func_symbol_kept cs vs pc n v info st st' :
  func_symbol cs vs pc n v info st = Ok st' -> kept (ld_rt st) (ld_rt st').
Proof using.
  unfold func_symbol. intros H. run H. apply intern_kept in Hx. injection H as <-.
  destruct (_ =? pc); exact Hx.
Qed.

(** A step of the loop over the symbols keeps the rest of the state. *)
Lemma load_symbol_kept sym strtab ctors vtables pc st cnt st' :
  load_symbol sym strtab ctors vtables pc st cnt = Ok st' -> kept (ld_rt st) (ld_rt st').
Proof using.
  unfold load_symbol. intros H. run H. cbv zeta in H. repeat case_if;
    first [by eapply symbol_kept; eauto 6 | by eapply func_symbol_kept | by injection H as <-].
Qed.

Lemma dyn_symbol_kept elf dynsym dynstr tc cm rt cnt cm' rt' :
  dyn_symbol elf dynsym dynstr tc (cm, rt) cnt = Ok (cm', rt') -> kept rt rt'.
Proof using.
  unfold dyn_symbol. intros H. run H. case_if; [|by injection H as <- <-]. run H. injection H as _ <-. kept_done.
Qed.

Lemma plt_symbol_kept sc relaplt pc pe st cnt st' :
  plt_symbol sc relaplt pc pe st cnt = Ok st' -> kept (ld_rt st) (ld_rt st').
Proof using.
  unfold plt_symbol. intros H. run H. injection H as <-.
  match goal with E : intern _ _ = _ |- _ => apply intern_kept in E end. by repeat case_if.
Qed.

Lemma add_exe_entry_kept elf sc cm rt sc' cm' rt' :
  add_exe_entry lit elf sc cm rt = Ok (sc', cm', rt') -> kept rt rt'.
Proof using. unfold add_exe_entry. intros H. run H. injection H as _ _ <-. kept_done. Qed.

Lemma foldM_kept {A S} (rt_of : S -> runtime) (step : S -> A -> res S) l s s' :
  (forall s1 a s2, step s1 a = Ok s2 -> kept (rt_of s1) (rt_of s2)) ->
  foldM step l s = Ok s' -> kept (rt_of s) (rt_of s').
Proof using.
  intros Hstep. apply (foldM_invariant (fun x => kept (rt_of s) (rt_of x))); [|reflexivity].
  intros s1 a s2 _ H1 H2. etrans; [exact H1|by eapply Hstep].
Qed.

Lemma load_mcfi_metadata_kept elf n rt elf' cm rt' :
  load_mcfi_metadata lit elf n rt = Ok (elf', cm, rt') -> kept rt rt'.
Proof using.
  unfold load_mcfi_metadata. intros H.
  apply bind_Ok_inv in H as (sc & _ & H). apply bind_Ok_inv in H as (e_type & _ & H).
  apply bind_Ok_inv in H as ([[sc1 cm1] rt1] & H1 & H). apply bind_Ok_inv in H as (tc & _ & H).
  apply bind_Ok_inv in H as ([rt2 pc] & H2 & H). apply bind_Ok_inv in H as ([rt3 pe] & H3 & H).
  apply bind_Ok_inv in H as (st & H4 & H). apply bind_Ok_inv in H as (cm5 & _ & H).
  apply bind_Ok_inv in H as ([cm6 rt6] & H6 & H). apply bind_Ok_inv in H as (st7 & H7 & H).
  apply bind_Ok_inv in H as ([elf8 cm8] & _ & H). injection H as _ _ <-.
  apply intern_kept in H2, H3.
  apply (foldM_kept ld_rt) in H4; [|by intros; eapply load_symbol_kept].
  apply (foldM_kept snd) in H6; [|intros [] ? []; apply dyn_symbol_kept].
  apply (foldM_kept ld_rt) in H7; [|by intros; eapply plt_symbol_kept].
  assert (H0 : kept rt (rt {{ stringpool := sc_pool sc }})) by done. etrans; [exact H0|].
  assert (H1' : kept (rt {{ stringpool := sc_pool sc }}) rt1).
  { destruct (e_type =? 2); [by apply add_exe_entry_kept in H1|by injection H1 as _ _ <-]. }
  etrans; [exact H1'|]. etrans; [exact H2|]. etrans; [exact H3|]. etrans; [exact H4|]. etrans; [exact H6|exact H7].
Qed.

Lemma remove_trampoline_type_kept tramps m rt tramps' m' rt' :
  remove_trampoline_type tramps m rt = Ok (tramps', m', rt') -> kept rt rt'.
Proof using.
  unfold remove_trampoline_type. intros H. apply bind_Ok_inv in H as ([t rt1] & H1 & H). injection H as _ _ <-.
  destruct tramps; [|by injection H1 as _ <-]. apply (foldM_kept snd) in H1; [exact H1|].
  intros [t1 r1] s [t2 r2] Hs. run Hs. injection Hs as _ <-. kept_done.
Qed.
End facts.

(** ** Segments *)
(** The pages of a segment. *)
Definition seg_lo (is_exe : bool) (base : Z) (ph : phdr) : Z := (base + VADDR (p_vaddr ph) is_exe) / 4096.
Definition seg_hi (is_exe : bool) (base : Z) (ph : phdr) : Z :=
  (base + VADDR (p_vaddr ph) is_exe + p_memsz ph + 4095) / 4096.

Definition seg_fits (is_exe : bool) (base : Z) (ph : phdr) : Prop :=
  0 < p_memsz ph /\ 0 <= VADDR (p_vaddr ph) is_exe /\ base + VADDR (p_vaddr ph) is_exe + p_memsz ph <= 2 ^ 32.

(** The segment a page belongs to. *)
Definition seg_at (is_exe : bool) (base : Z) (phs : list phdr) (p : Z) : option phdr :=
  List.find (fun ph => is_load ph && in_region (seg_lo is_exe base ph) (seg_hi is_exe base ph) p) phs.

Definition seg_attrs (ph : phdr) : Z * Z * VmmapEntryType :=
  (prot_of (p_flags ph), prot_of (p_flags ph), VMMAP_ENTRY_ANONYMOUS).

Definition segs_apart (is_exe : bool) (base : Z) (ph ph' : phdr) : Prop :=
  is_load ph = true -> is_load ph' = true ->
  seg_hi is_exe base ph <= seg_lo is_exe base ph' \/ seg_hi is_exe base ph' <= seg_lo is_exe base ph.

(** The segments fit, on pages of their own that are free. *)
Record segments_ok (is_exe : bool) (base : Z) (phs : list phdr) (m : Vmmap) : Prop := {
  segs_fit : Forall (fun ph => is_load ph = true -> seg_fits is_exe base ph) phs;
  segs_disjoint : List.ForallOrdPairs (segs_apart is_exe base) phs;
  segs_free : forall p, seg_at is_exe base phs p <> None -> page_lookup m p = None;
}.

Section segments.
Variable opened : nat -> list (Z * Z).
Variable ftruncate : Z -> Z -> Z.
Variable mmap : nat -> Z -> Z -> Z -> Z -> Z -> Z -> Z.
Context (elf : list Z) (is_exe : bool) (base : Z) (Hbase : 0 <= base).

Lemma load_segment_pages k cm rt ph k' cm' rt' : wf_map (VM rt) ->
  load_segment true opened ftruncate mmap elf is_exe base (k, cm, rt) ph = Ok (k', cm', rt') ->
  (is_load ph = true -> seg_fits is_exe base ph /\
    free (VM rt) (seg_lo is_exe base ph) (seg_hi is_exe base ph - seg_lo is_exe base ph)) ->
  modules rt' = modules rt /\ wf_map (VM rt') /\ forall p, page_lookup (VM rt') p =
    if is_load ph && in_region (seg_lo is_exe base ph) (seg_hi is_exe base ph) p then Some (seg_attrs ph)
    else page_lookup (VM rt) p.
Proof using Hbase.
  intros Hwf H Hload. unfold load_segment in H. destruct (is_load ph) eqn:Hl; [|by injection H as _ _ <-].
  destruct (Hload eq_refl) as [(Hm0 & Hv0 & Hend) Hfree]. clear Hload.
  apply bind_Ok_inv in H as ([content cm1] & _ & H). apply bind_Ok_inv in H as (bytes & _ & H).
  apply bind_Ok_inv in H as (vm & Hadd & H). injection H as _ _ <-. change (VM (_ {{ VM := vm }})) with vm.
  split; [reflexivity|]. set (start := base + VADDR (p_vaddr ph) is_exe) in *.
  rewrite (u64_small start) in Hadd by lia. rewrite (u64_small (start + p_memsz ph)) in Hadd by lia.
  rewrite CurPage_pages, (proj1 (RoundToPage_pages (start + p_memsz ph) ltac:(lia))) in Hadd by lia. unfold seg_lo, seg_hi in *. fold start in Hfree |- *.
  assert (Hpages : 0 <= start / 4096 /\ start / 4096 < (start + p_memsz ph + 4095) / 4096 /\
    (start + p_memsz ph + 4095) / 4096 <= 2 ^ 20) by div_lia.
  set (lo := start / 4096) in *. set (hi := (start + p_memsz ph + 4095) / 4096) in *.
  replace (hi * 4096 - lo * 4096) with ((hi - lo) * 4096) in Hadd by lia.
  rewrite (u64_small ((hi - lo) * 4096)), !Z.shiftr_div_pow2 in Hadd by (unfold PAGESHIFT; lia).
  change (2 ^ PAGESHIFT) with 4096 in Hadd. rewrite !Z.div_mul in Hadd by lia.
  destruct (VmmapAdd_spec (VM rt) lo (hi - lo) (prot_of (p_flags ph)) (prot_of (p_flags ph)) VMMAP_ENTRY_ANONYMOUS Hwf)
    as (vm2 & Hadd2 & Hwf2 & Hlk2); [lia|lia|unfold PAGES; lia|done|].
  change (VmmapAdd true (VM rt) lo (hi - lo) (prot_of (p_flags ph)) (prot_of (p_flags ph)) VMMAP_ENTRY_ANONYMOUS = Ok vm) in Hadd.
  rewrite Hadd2 in Hadd. injection Hadd as <-. split; [done|]. intros p. rewrite Hlk2.
  by replace (lo + (hi - lo)) with hi by lia.
Qed.

Lemma load_segments_modules phs k cm rt k' cm' rt' :
  foldM (load_segment true opened ftruncate mmap elf is_exe base) phs (k, cm, rt) = Ok (k', cm', rt') ->
  modules rt' = modules rt /\ table rt' = table rt.
Proof using.
  intros H. apply (foldM_invariant (fun st => modules st.2 = modules rt /\ table st.2 = table rt)) in H; [exact H| |done].
  intros [[k1 cm1] rt1] ph [[k2 cm2] rt2] _ H1 H2. unfold load_segment in H2.
  destruct (is_load ph); [|by injection H2 as _ _ <-].
  apply bind_Ok_inv in H2 as ([? ?] & _ & H2). apply bind_Ok_inv in H2 as (? & _ & H2).
  apply bind_Ok_inv in H2 as (vm & _ & H2). by injection H2 as _ _ <-.
Qed.

Lemma load_segments_pages phs : forall k cm rt k' cm' rt', wf_map (VM rt) ->
  segments_ok is_exe base phs (VM rt) ->
  foldM (load_segment true opened ftruncate mmap elf is_exe base) phs (k, cm, rt) = Ok (k', cm', rt') ->
  modules rt' = modules rt /\ wf_map (VM rt') /\ forall p, page_lookup (VM rt') p =
    match seg_at is_exe base phs p with
    | Some ph => Some (seg_attrs ph)
    | None => page_lookup (VM rt) p
    end.
Proof using Hbase.
  induction phs as [|ph phs IH]; intros k cm rt k' cm' rt' Hwf [Hfit Hdis Hfree] H.
  { cbn in H. by injection H as _ _ <-. }
  rewrite foldM_cons in H. apply bind_Ok_inv in H as ([[k1 cm1] rt1] & H1 & H).
  apply Forall_cons in Hfit as [Hph Hfit]. inversion Hdis as [|? ? Hfirst Hdis']. subst.
  rewrite List.Forall_forall in Hfirst. unfold seg_at in *. cbn [List.find] in *.
  apply load_segment_pages in H1 as (Hms1 & Hwf1 & Hlk1); [|done|].
  2: { intros Hl. split; [by apply Hph|]. intros p Hp. apply Hfree. rewrite Hl. cbn [andb].
       unfold in_region. by rewrite (proj2 (Z.leb_le _ _)), (proj2 (Z.ltb_lt _ _)) by lia. }
  assert (Hnone : forall p, is_load ph && in_region (seg_lo is_exe base ph) (seg_hi is_exe base ph) p = true ->
    seg_at is_exe base phs p = None).
  { intros p [Hl Hin]%andb_true_iff. destruct (seg_at is_exe base phs p) as [ph'|] eqn:Hf; [|done]. exfalso.
    apply List.find_some in Hf as [Hph' [Hl' Hin']%andb_true_iff]. specialize (Hfirst ph' Hph' Hl Hl').
    unfold in_region in *. bool_lia. }
  unfold seg_at in *. destruct (IH k1 cm1 rt1 k' cm' rt' Hwf1) as (Hms & Hwf' & Hlk); [|done|].
  - split; [done|done|]. intros p Hp. unfold seg_at in Hp. rewrite Hlk1.
    destruct (is_load ph && _) eqn:Hin; [by rewrite (Hnone p Hin) in Hp|]. apply Hfree. by rewrite Hin.
  - split; [congruence|]. split; [done|]. intros p. rewrite Hlk, Hlk1.
    destruct (is_load ph && _) eqn:Hin; [by rewrite (Hnone p Hin)|done].
Qed.
End segments.

(** ** The place of a shared library *)
(** The segments of a file fit, on pages of their own; those of the executable
    are free. *)
Record image_ok (is_exe : bool) (base : Z) (phs : list phdr) (m : Vmmap) : Prop := {
  img_some : exists ph, ph ∈ phs /\ is_load ph = true;
  img_fit : Forall (fun ph => is_load ph = true -> seg_fits is_exe base ph) phs;
  img_disjoint : List.ForallOrdPairs (segs_apart is_exe base) phs;
  img_free : is_exe = true -> forall p, seg_at is_exe base phs p <> None -> page_lookup m p = None;
}.

Lemma vaddr_end_covers phs : Forall (fun ph => is_load ph = true -> seg_fits false 0 ph) phs ->
  (forall ph, ph ∈ phs -> is_load ph = true -> p_vaddr ph + p_memsz ph <= vaddr_end phs) /\
  vaddr_end phs mod 4096 = 0 /\ 0 <= vaddr_end phs <= 2 ^ 32.
Proof.
  intros Hfit. unfold vaddr_end. set (step := fun stop ph => _).
  assert (H : forall s0, 0 <= s0 <= 2 ^ 32 -> s0 <= foldl step s0 phs <= 2 ^ 32 /\
    forall ph, ph ∈ phs -> is_load ph = true -> p_vaddr ph + p_memsz ph <= foldl step s0 phs).
  { induction Hfit as [|ph phs Hph Hfit IH]; intros s0 Hs0; cbn [foldl].
    { split; [lia|]. by intros ph Hph%not_elem_of_nil. }
    assert (Hst : s0 <= step s0 ph <= 2 ^ 32 /\ (is_load ph = true -> p_vaddr ph + p_memsz ph <= step s0 ph)).
    { unfold step. destruct (is_load ph); [|split; [lia|done]]. destruct (Hph eq_refl) as (? & ? & ?).
      unfold VADDR in *. rewrite u64_small by lia. destruct (Z.ltb_spec s0 (p_vaddr ph + p_memsz ph)); split; lia. }
    destruct Hst as [Hr Hc]. destruct (IH (step s0 ph)) as [Hr' Hc']; [lia|]. split; [lia|].
    intros ph' [->|Hph']%elem_of_cons Hl; [specialize (Hc Hl); lia|by apply Hc']. }
  destruct (H 0) as [Hr Hc]; [lia|]. rewrite (proj1 (RoundToPage_pages (foldl step 0 phs) ltac:(lia))).
  split; [intros ph Hph Hl; specialize (Hc ph Hph Hl); div_lia|div_lia].
Qed.

Section elf.
Context `{Q : Qsort} `{QS : !QsortSpec Q} `{M : Malloc}.

Lemma place_spec is_exe phs rt rt' base : wf_map (VM rt) ->
  (forall p, page_lookup (VM rt) p <> None -> 0 <= p < 2 ^ 20) ->
  place is_exe phs rt = Ok (rt', base) ->
  modules rt' = modules rt /\ table rt' = table rt /\ (0 <= base /\ (is_exe = true -> base = X64ABIBASE)) /\
  (image_ok is_exe base phs (VM rt) ->
   wf_map (VM rt') /\ (forall p, page_lookup (VM rt') p = page_lookup (VM rt) p) /\
   segments_ok is_exe base phs (VM rt')).
Proof using QS.
  intros Hwf Hpages H. unfold place in H. destruct is_exe.
  { injection H as <- <-. split; [done|]. split; [done|]. split; [done|]. intros [_ H1 H2 H3]. split; [done|]. split; [done|].
    split; [done|done|by apply H3]. }
  apply bind_Ok_inv in H as ([vm pa] & Hfs & H). destruct (Z.eqb_spec pa 0) as [|Hpa]; [done|].
  injection H as <- Hb. split; [reflexivity|]. split; [reflexivity|]. split; [split; [rewrite <- Hb; apply u64_range|done]|].
  intros [(ph0 & Hph0 & Hl0) Hfit Hdis _].
  assert (Hfit0 : Forall (fun ph => is_load ph = true -> seg_fits false 0 ph) phs).
  { eapply Forall_impl; [exact Hfit|]. intros ph Hph Hl. destruct (Hph Hl) as (? & ? & ?).
    pose proof (u64_range (Z.shiftl pa PAGESHIFT)). split_and!; lia. }
  destruct (vaddr_end_covers phs Hfit0) as (Hcov & Hmod & Hve).
  assert (Hpos : 0 < vaddr_end phs).
  { specialize (Hcov ph0 Hph0 Hl0). rewrite Forall_forall in Hfit0. destruct (Hfit0 ph0 Hph0 Hl0) as (? & ? & _).
    unfold VADDR in *. lia. }
  rewrite Z.shiftr_div_pow2 in Hfs by (unfold PAGESHIFT; lia). change (2 ^ PAGESHIFT) with 4096 in Hfs.
  set (n := vaddr_end phs / 4096) in *. assert (Hn : 0 < n <= 2 ^ 20) by (unfold n; div_lia).
  destruct (find_space (VM rt) n Hwf) as (vm1 & r & Hrun & Hwf1 & Hlk1 & Htop); [lia|].
  change (VmmapFindSpace (VM rt) n = Ok (vm1, r)) in Hrun. rewrite Hrun in Hfs. injection Hfs as <- <-.
  destruct Htop as [[-> _]|(Hr0 & (Hfree & _ & (q & Hq & Hql)) & _)]; [done|].
  apply Hpages in Hql.
  assert (Hbase : base = r * 4096).
  { rewrite <- Hb, Z.shiftl_mul_pow2 by (unfold PAGESHIFT; lia). change (2 ^ PAGESHIFT) with 4096. apply u64_small. lia. }
  split; [done|]. split; [done|]. split; [done|done|]. intros p Hp. change (page_lookup vm1 p = None).
  rewrite Hlk1. apply Hfree. unfold seg_at in Hp. destruct (List.find _ phs) as [ph|] eqn:Hf; [|done].
  apply List.find_some in Hf as [Hph [Hl Hin]%andb_true_iff]. apply list_elem_of_In in Hph. specialize (Hcov ph Hph Hl).
  rewrite Forall_forall in Hfit0. destruct (Hfit0 ph Hph Hl) as (_ & Hv & _).
  unfold in_region, seg_lo, seg_hi, VADDR in *. apply andb_true_iff in Hin as [H1%Z.leb_le H2%Z.ltb_lt].
  assert (Hve' : vaddr_end phs = n * 4096) by (unfold n; div_lia). clearbody n. subst base. div_lia.
Qed.

Variable lit : Z.
Variable opened : nat -> list (Z * Z).
Variable ftruncate : Z -> Z -> Z.
Variable mmap : nat -> Z -> Z -> Z -> Z -> Z -> Z -> Z.
Variable munmap : Z -> Z -> Z.

Lemma load_elf_pages elf is_exe tramps rt tramps' rt' base entry :
  wf_map (VM rt) -> (forall p, page_lookup (VM rt) p <> None -> 0 <= p < 2 ^ 20) ->
  load_elf true lit opened ftruncate mmap munmap elf is_exe tramps rt = Ok (tramps', rt', base, entry) ->
  exists elf' cm rt1 phs m,
    load_mcfi_metadata lit elf (Z.of_nat (length elf)) rt = Ok (elf', cm, rt1) /\
    read_phdrs elf' = Ok phs /\ table rt' = table rt /\ (0 <= base /\ (is_exe = true -> base = X64ABIBASE)) /\ modules rt' = modules rt ++ [m] /\ base_addr m = base /\
    (image_ok is_exe base phs (VM rt) ->
     wf_map (VM rt') /\
     (forall p, seg_at is_exe base phs p <> None -> page_lookup (VM rt) p = None) /\
     forall p, page_lookup (VM rt') p =
       match seg_at is_exe base phs p with
       | Some ph => Some (seg_attrs ph)
       | None => page_lookup (VM rt) p
       end).
Proof using QS.
  intros Hwf Hpages H. unfold load_elf in H.
  apply bind_Ok_inv in H as ([[elf' cm] rt1] & Hmeta & H).
  apply bind_Ok_inv in H as ([[tr2 cm2] rt2] & Htr & H).
  apply bind_Ok_inv in H as (phs & Hphs & H). apply bind_Ok_inv in H as ([rt3 base3] & Hpl & H).
  apply bind_Ok_inv in H as ([[k cm4] rt4] & Hseg & H). apply bind_Ok_inv in H as ([cm5 rt5] & Hgot & H).
  apply bind_Ok_inv in H as (e & _ & H). injection H as _ <- <- _.
  assert (K : kept rt rt2).
  { etrans; [by eapply load_mcfi_metadata_kept|]. apply remove_trampoline_type_kept in Htr.
    etrans; [|exact Htr]. by destruct (instrumented cm). }
  destruct K as [KV Km Kt _]. rewrite <- KV in Hwf, Hpages. rewrite <- KV, <- Km, <- Kt.
  destruct (place_spec is_exe phs rt2 rt3 base3 Hwf Hpages Hpl) as (Hms3 & Ht3 & (Hb3 & Hexe) & Himg).
  assert (H5 : modules rt5 = modules rt4 /\ table rt5 = table rt4 /\ VM rt5 = VM rt4).
  { destruct (instrumented cm4); [|by injection Hgot as _ <-]. unfold remap_gotplt in Hgot.
    destruct (negb _); [done|]. apply bind_Ok_inv in Hgot as (? & _ & Hgot). by injection Hgot as _ <-. }
  destruct H5 as (Hms5 & Ht5 & HV5). exists elf', cm, rt1, phs, (cm5 {{ base_addr := base3 }}).
  split; [done|]. split; [done|].
  assert (Hms4 : modules rt4 = modules rt3 /\ table rt4 = table rt3) by by eapply load_segments_modules.
  destruct Hms4 as [Hms4 Ht4]. split; [change (table rt5 = table rt2); congruence|]. split; [done|].
  change (modules (rt5 {{ modules := _ }})) with (modules rt5 ++ [cm5 {{ base_addr := base3 }}]).
  split; [by rewrite Hms5, Hms4, Hms3|]. split; [reflexivity|]. intros Himg'. destruct (Himg Himg') as (Hwf3 & Hlk3 & Hsegs).
  destruct (load_segments_pages opened ftruncate mmap elf' is_exe base3 Hb3 phs 0 cm2 rt3 k cm4 rt4 Hwf3 Hsegs Hseg)
    as (_ & Hwf4 & Hlk4).
  enough (G : wf_map (VM rt5) /\ (forall p, seg_at is_exe base3 phs p <> None -> page_lookup (VM rt2) p = None) /\
    forall p, page_lookup (VM rt5) p = match seg_at is_exe base3 phs p with
                                       | Some ph => Some (seg_attrs ph)
                                       | None => page_lookup (VM rt2) p
                                       end) by exact G.
  rewrite HV5. split; [done|]. split.
  - intros p Hp. rewrite <- Hlk3. by apply (segs_free _ _ _ _ Hsegs).
  - intros p. by rewrite Hlk4, Hlk3.
Qed.

(** C38.  Loading a file appends its module, at the address it returns, and
    when the segments of the file fit and are on pages of their own, the page
    table gets the pages of the segments, with the protections the file asks
    for, and no other page changes: a library goes where no page was mapped. *)
Theorem load_elf_maps elf is_exe tramps rt tramps' rt' base entry :
  wf_map (VM rt) -> (forall p, page_lookup (VM rt) p <> None -> 0 <= p < 2 ^ 20) ->
  load_elf true lit opened ftruncate mmap munmap elf is_exe tramps rt = Ok (tramps', rt', base, entry) ->
  exists elf' cm rt1 phs m,
    load_mcfi_metadata lit elf (Z.of_nat (length elf)) rt = Ok (elf', cm, rt1) /\
    read_phdrs elf' = Ok phs /\ modules rt' = modules rt ++ [m] /\ base_addr m = base /\
    (image_ok is_exe base phs (VM rt) ->
     wf_map (VM rt') /\
     (forall p, seg_at is_exe base phs p <> None -> page_lookup (VM rt) p = None) /\
     forall p, page_lookup (VM rt') p =
       match seg_at is_exe base phs p with
       | Some ph => Some (seg_attrs ph)
       | None => page_lookup (VM rt) p
       end).
Proof using QS.
  intros Hwf Hpages H. destruct (load_elf_pages _ _ _ _ _ _ _ _ Hwf Hpages H) as (elf' & cm & rt1 & phs & m & ?).
  exists elf', cm, rt1, phs, m. naive_solver.
Qed.
End elf.

Lemma empty_map_wf : wf_map (mkVmmap (replicate START_ENTRIES None) 0 START_ENTRIES true).
Proof.
  unfold START_ENTRIES. constructor; cbn; [constructor; cbn; [done|lia|done|done]|constructor| |constructor].
  constructor; [apply Forall_nil_2|intros p; vm_compute; lia].
Qed.

(** A kernel that maps what it is asked for gives the runtime a
    well-formed page table: the pages below the program, not accessible, and
    the stack at the top of the sandbox, to read and write.  These are the
    two ends the searches for space need, and all pages are below 4 GB. *)
Theorem alloc_sandbox_correct mmap vm0 :
  VmmapCtor true = Some vm0 -> mmap FourGB FourGB PROT_NONE MAP_ANON_FIXED (-1) 0 = FourGB ->
  let stack := FourGB - 0x800000 in
  mmap stack 0x800000 (Z.lor PROT_READ PROT_WRITE) MAP_ANON_FIXED (-1) 0 = stack ->
  exists vm, alloc_sandbox true mmap vm0 = Ok (vm, FourGB - 8) /\ wf_map vm /\
    (forall p, page_lookup vm p =
       if in_region 0xff800 0x100000 p then Some (3, 3, VMMAP_ENTRY_ANONYMOUS)
       else if in_region 0 0x400 p then Some (PROT_NONE, PROT_NONE, VMMAP_ENTRY_ANONYMOUS)
       else None) /\
    (forall p, page_lookup vm p <> None -> 0 <= p < 2 ^ 20).
Proof.
  intros Hctor Hguard stack Hstack.
  assert (vm0 = mkVmmap (replicate START_ENTRIES None) 0 START_ENTRIES true) as -> by (by injection Hctor).
  unfold alloc_sandbox. rewrite Hguard.
  change (negb (FourGB =? FourGB)) with false. cbv beta iota zeta.
  destruct (VmmapAdd_spec _ 0 0x400 PROT_NONE PROT_NONE VMMAP_ENTRY_ANONYMOUS empty_map_wf)
    as (vm1 & H1 & Hwf1 & Hlk1); [lia|lia|unfold PAGES; lia|intros p _; reflexivity|].
  change (Z.shiftr X64ABIBASE PAGESHIFT) with 0x400. rewrite H1. cbn [mbind res_bind].
  change (FourGB - SixtyFourKB * 128) with stack. change (FourGB - stack) with 0x800000.
  rewrite Hstack, Z.eqb_refl. cbn [negb]. change (Z.shiftr stack PAGESHIFT) with 0xff800.
  change (Z.shiftr 0x800000 PAGESHIFT) with 0x800.
  destruct (VmmapAdd_spec vm1 0xff800 0x800 3 3 VMMAP_ENTRY_ANONYMOUS Hwf1)
    as (vm2 & H2 & Hwf2 & Hlk2); [lia|lia|unfold PAGES; lia| |].
  { intros p Hp. rewrite Hlk1. unfold in_region.
    destruct (Z.leb_spec 0 p), (Z.ltb_spec p (0 + 0x400)); cbn; done || lia. }
  change (Z.lor PROT_READ PROT_WRITE) with 3. rewrite H2. cbn [mbind res_bind].
  exists vm2. split; [done|]. split; [done|].
  assert (Hlk : forall p, page_lookup vm2 p =
    if in_region 0xff800 0x100000 p then Some (3, 3, VMMAP_ENTRY_ANONYMOUS)
    else if in_region 0 0x400 p then Some (PROT_NONE, PROT_NONE, VMMAP_ENTRY_ANONYMOUS) else None).
  { intros p. rewrite Hlk2, Hlk1. done. }
  split; [done|]. intros p. rewrite Hlk. unfold in_region.
  destruct (Z.leb_spec 0xff800 p), (Z.ltb_spec p 0x100000), (Z.leb_spec 0 p), (Z.ltb_spec p 0x400); cbn; done || lia.
Qed.

(** ** Examples *)
(** The kernel that maps where it is asked. *)
Definition as_asked (a len prot flags fd off : Z) : Z := a.

Lemma alloc_sandbox_witness : exists vm0 vm, VmmapCtor true = Some vm0 /\
  alloc_sandbox true as_asked vm0 = Ok (vm, FourGB - 8) /\ wf_map vm /\ page_lookup vm 0x400 = None.
Proof.
  destruct (alloc_sandbox_correct as_asked (mkVmmap (replicate START_ENTRIES None) 0 START_ENTRIES true)
    eq_refl eq_refl eq_refl) as (vm & H & Hwf & Hlk & _).
  eexists _, vm. split; [reflexivity|]. split; [exact H|]. split; [exact Hwf|]. rewrite Hlk. reflexivity.
Defined.

(** A file with a header and one segment of a page, to read and write. *)
Fixpoint le_bytes (n : nat) (v : Z) : list Z :=
  match n with
  | O => []
  | S n' => v mod 256 :: le_bytes n' (v / 256)
  end.
Definition sample_file : list Z :=
  replicate 16 0 ++ le_bytes 2 3 ++ le_bytes 2 62 ++ le_bytes 4 1 ++ le_bytes 8 0 ++ le_bytes 8 64 ++ le_bytes 8 0 ++
  le_bytes 4 0 ++ le_bytes 2 64 ++ le_bytes 2 56 ++ le_bytes 2 1 ++ le_bytes 2 64 ++ le_bytes 2 0 ++ le_bytes 2 0 ++
  le_bytes 4 1 ++ le_bytes 4 6 ++ le_bytes 8 0 ++ le_bytes 8 0 ++ le_bytes 8 0 ++ le_bytes 8 16 ++ le_bytes 8 4096 ++
  le_bytes 8 4096.

#[local] Existing Instance utils_qsort.

Definition sample_load : res (dict unit * runtime * Z * Z) :=
  load_elf true 0 (fun _ => []) (fun _ _ => 0) (fun _ => as_asked) (fun _ _ => 0) sample_file false [] mem_state.
Definition sample_phdrs : list phdr := [mkPhdr 1 6 0 0 16 4096].

Lemma mem_state_pages p : page_lookup (VM mem_state) p <> None -> 0 <= p < 2 ^ 20.
Proof.
  intros Hp. destruct (decide (0 <= p < 2 ^ 20)) as [|Hn]; [done|]. exfalso. apply Hp.
  apply page_lookup_None. unfold mem_state. change (VM _) with sample_map.
  unfold sample_map, entries. cbn [take nvalid vmentry omap list_omap id].
  rewrite !attrs_at_cons. unfold cov, covers, end_page. cbn.
  destruct (decide (p < 0)).
  - by rewrite !(proj2 (Z.leb_gt _ p)) by lia.
  - by rewrite !(proj2 (Z.ltb_ge p _)), !andb_false_r by lia.
Qed.

Lemma load_elf_witness : exists tramps rt' base entry, sample_load = Ok (tramps, rt', base, entry) /\
  page_lookup (VM rt') 31 = Some (3, 3, VMMAP_ENTRY_ANONYMOUS) /\ page_lookup (VM rt') 30 = None.
Proof.
  assert (Hok : match sample_load with Ok (_, _, base, _) => base =? 31 * 4096 | _ => false end = true)
    by (vm_compute; reflexivity).
  assert (Hfile : match load_mcfi_metadata 0 sample_file (Z.of_nat (length sample_file)) mem_state with
                  | Ok (elf', _, _) => bool_decide (read_phdrs elf' = Ok sample_phdrs)
                  | _ => false
                  end = true) by (vm_compute; reflexivity).
  destruct sample_load as [[[[tramps rt'] base] entry]| | |] eqn:Hrun; [|discriminate Hok..].
  apply Z.eqb_eq in Hok. exists tramps, rt', base, entry. split; [reflexivity|].
  destruct (load_elf_maps 0 (fun _ => []) (fun _ _ => 0) (fun _ => as_asked) (fun _ _ => 0) sample_file false [] mem_state
    tramps rt' base entry sample_map_wf mem_state_pages Hrun) as (elf' & cm & rt1 & phs & m & Hm & Hphs & _ & _ & H).
  rewrite Hm in Hfile. apply bool_decide_eq_true_1 in Hfile. rewrite Hfile in Hphs. injection Hphs as <-.
  destruct H as (_ & _ & H).
  - subst base. split.
    + exists (mkPhdr 1 6 0 0 16 4096). split; [left|reflexivity].
    + apply Forall_singleton. intros _. split_and!; vm_compute; (reflexivity || discriminate).
    + repeat constructor.
    + discriminate.
  - subst base. rewrite !H. split; vm_compute; reflexivity.
Defined.
