(* ===== verification/Start.v ===== *)
(** * The start of the runtime ([main.c], [runtime_init] and what it calls; [tcb.c])

    The table region and its page of trampolines, the control block of the
    first thread, and the sequence of [runtime_init]: the empty sandbox, libc,
    the program and its stack.  The answers of the kernel are one record; the
    addresses of the entry points, which are labels of the assembly, are
    parameters.  The constants through which libc calls the runtime
    ([lib/musl-1.0.4/arch/x86_64/trampolines.h], [mcfi.s]) are here too. *)

From S2P Require Import Prelude Utils Pager Dict Graph Module StringPool Table Runtime MemCalls Loader Stack ElfLoad Vsprintf VsprintfText.

(** ** Trampolines *)

(** The fields of [struct trampolines]. *)
Inductive trampoline : Set :=
  | t_mmap | t_mprotect | t_munmap | t_brk | t_sigaction | t_readv | t_mremap | t_shmat | t_clone | t_execve
  | t_shmdt | t_remap_file_pages | t_preadv | t_process_vm_readv | t_set_tcb | t_allocset_tcb | t_free_tcb
  | t_load_native_code | t_gen_cfg | t_unload_native_code | t_create_code_heap | t_code_heap_fill
  | t_dyncode_modify | t_dyncode_delete | t_report_cfi_violation | t_patch_call | t_take_addr_and_gen_cfg
  | t_set_gotplt | t_fork | t_collect_stat | t_reg_cfg_metadata | t_delete_code | t_move_code | t_patch_at
  | t_patch_entry.

#[export] Instance trampoline_eq_dec : EqDecision trampoline.
Proof. solve_decision. Defined.

Definition fields : list trampoline :=
  [t_mmap; t_mprotect; t_munmap; t_brk; t_sigaction; t_readv; t_mremap; t_shmat; t_clone; t_execve;
   t_shmdt; t_remap_file_pages; t_preadv; t_process_vm_readv; t_set_tcb; t_allocset_tcb; t_free_tcb;
   t_load_native_code; t_gen_cfg; t_unload_native_code; t_create_code_heap; t_code_heap_fill;
   t_dyncode_modify; t_dyncode_delete; t_report_cfi_violation; t_patch_call; t_take_addr_and_gen_cfg;
   t_set_gotplt; t_fork; t_collect_stat; t_reg_cfg_metadata; t_delete_code; t_move_code; t_patch_at;
   t_patch_entry].

(** Each is a pointer. *)
Definition offset_of (t : trampoline) : Z :=
  8 * Z.of_nat (default (length fields) (fst <$> list_find (fun t' => t' = t) fields)).

(** The entry points, [runtime_interface.S]. *)
Inductive entry_point : Set :=
  | runtime_rock_mmap | runtime_rock_mprotect | runtime_rock_munmap | runtime_rock_mremap | runtime_rock_brk
  | runtime_set_tcb | runtime_allocset_tcb | runtime_free_tcb | runtime_load_native_code | runtime_gen_cfg
  | runtime_unload_native_code | runtime_create_code_heap | runtime_code_heap_fill | runtime_dyncode_modify
  | runtime_dyncode_delete | runtime_report_cfi_violation | runtime_patch_call | runtime_patch_at
  | runtime_patch_entry | runtime_take_addr_and_gen_cfg | runtime_set_gotplt | runtime_rock_fork
  | runtime_collect_stat | runtime_reg_cfg_metadata | runtime_delete_code | runtime_move_code.

#[export] Instance entry_point_eq_dec : EqDecision entry_point.
Proof. solve_decision. Defined.

Class Entries : Type := entry : entry_point -> Z.

(** The assignments, in their order. *)
Definition assignments : list (trampoline * entry_point) :=
  [(t_mmap, runtime_rock_mmap); (t_mprotect, runtime_rock_mprotect); (t_munmap, runtime_rock_munmap);
   (t_mremap, runtime_rock_mremap); (t_brk, runtime_rock_brk); (t_set_tcb, runtime_set_tcb);
   (t_allocset_tcb, runtime_allocset_tcb); (t_free_tcb, runtime_free_tcb);
   (t_load_native_code, runtime_load_native_code); (t_gen_cfg, runtime_gen_cfg);
   (t_unload_native_code, runtime_unload_native_code); (t_create_code_heap, runtime_create_code_heap);
   (t_code_heap_fill, runtime_code_heap_fill); (t_dyncode_modify, runtime_dyncode_modify);
   (t_dyncode_delete, runtime_dyncode_delete); (t_report_cfi_violation, runtime_report_cfi_violation);
   (t_patch_call, runtime_patch_call); (t_take_addr_and_gen_cfg, runtime_take_addr_and_gen_cfg);
   (t_set_gotplt, runtime_set_gotplt); (t_fork, runtime_rock_fork); (t_collect_stat, runtime_collect_stat);
   (t_create_code_heap, runtime_create_code_heap); (t_reg_cfg_metadata, runtime_reg_cfg_metadata);
   (t_delete_code, runtime_delete_code); (t_move_code, runtime_move_code); (t_patch_at, runtime_patch_at);
   (t_patch_entry, runtime_patch_entry)].

(** The first 64 KB catch the dereferences of NULL. *)
Definition TRAMP_PAGE : Z := 0x10000.

(** ** The constants of libc *)
Definition ROCK_MMAP : Z := 0.
Definition ROCK_MPROTECT : Z := 0x8.
Definition ROCK_MUNMAP : Z := 0x10.
Definition ROCK_BRK : Z := 0x18.
Definition ROCK_MREMAP : Z := 0x30.
Definition ROCK_SET_TCB : Z := 0x70.
Definition ROCK_ALLOCSET_TCB : Z := 0x78.
Definition ROCK_FREE_TCB : Z := 0x80.
Definition ROCK_LOAD_NATIVE_CODE : Z := 0x88.
Definition ROCK_GEN_CFG : Z := 0x90.
Definition ROCK_CREATE_CODE_HEAP : Z := 0xA0.
Definition ROCK_CODE_HEAP_FILL : Z := 0xA8.
Definition ROCK_TAKE_ADDR_AND_GEN_CFG : Z := 0xD0.
Definition ROCK_SET_GOTPLT : Z := 0xD8.
Definition ROCK_FORK : Z := 0xE0.
Definition ROCK_COLLECT_STAT : Z := 0xE8.
Definition ROCK_REG_CFG_METADATA : Z := 0xF0.
Definition ROCK_DELETE_CODE : Z := 0xF8.
Definition ROCK_MOVE_CODE : Z := 0x100.

(** The slot that each function [trampoline_x], and each stub of [mcfi.s],
    jumps through, and the function of the runtime it is for. *)
Definition libc_calls : list (Z * entry_point) :=
  [(ROCK_MMAP, runtime_rock_mmap); (ROCK_MREMAP, runtime_rock_mremap); (ROCK_MPROTECT, runtime_rock_mprotect);
   (ROCK_MUNMAP, runtime_rock_munmap); (ROCK_BRK, runtime_rock_brk); (ROCK_SET_TCB, runtime_set_tcb);
   (ROCK_ALLOCSET_TCB, runtime_allocset_tcb); (ROCK_FREE_TCB, runtime_free_tcb);
   (ROCK_LOAD_NATIVE_CODE, runtime_load_native_code); (ROCK_GEN_CFG, runtime_gen_cfg);
   (ROCK_TAKE_ADDR_AND_GEN_CFG, runtime_take_addr_and_gen_cfg); (ROCK_SET_GOTPLT, runtime_set_gotplt);
   (ROCK_FORK, runtime_rock_fork); (ROCK_COLLECT_STAT, runtime_collect_stat);
   (ROCK_CREATE_CODE_HEAP, runtime_create_code_heap); (ROCK_CODE_HEAP_FILL, runtime_code_heap_fill);
   (ROCK_REG_CFG_METADATA, runtime_reg_cfg_metadata); (ROCK_DELETE_CODE, runtime_delete_code);
   (ROCK_MOVE_CODE, runtime_move_code);
   (0xc8, runtime_patch_call); (0x108, runtime_patch_at); (0x110, runtime_patch_entry);
   (0xc0, runtime_report_cfi_violation)].

(** ** The kernel and the files *)
Record answers : Type := Answers {
  k_mmap : Z -> Z -> Z -> Z -> Z -> Z -> Z;
  k_munmap : Z -> Z -> Z;
  k_madvise : Z -> Z -> Z;
  k_arch_prctl : Z -> Z -> Z;
  k_open : option cstring -> Z;
  (** [fstat] and the mapping of the file: its bytes, when both succeed *)
  k_file : Z -> option (list Z);
  (** what the system calls of [load_elf] answer, by descriptor *)
  k_opened : Z -> nat -> list (Z * Z);
  k_ftruncate : Z -> Z -> Z;
  k_segment : Z -> nat -> Z -> Z -> Z -> Z -> Z -> Z -> Z;
}.

Definition ARCH_SET_GS : Z := 0x1001.
Definition ARCH_SET_FS : Z := 0x1002.
Definition MAP_PRIVATE_ANON : Z := Z.lor MAP_ANONYMOUS MAP_PRIVATE.
Definition STACK_SIZE : Z := 0x10000.
Definition MAX_PATH : Z := 256.

Section start.
Context `{Q : Qsort} `{M : Malloc} `{E : Entries}.
Variable k : answers.
Variable personality_literal : Z.
Variable string_at : Z -> cstring.
Variable word_at : Z -> Z.
(** where a string of the environment lies *)
Variable env_addr : nat -> Z.

(** The address of the region, and its bytes. *)
Definition reserve_table_region : res (Z * mem) :=
  let table := k_mmap k 0 FourGB PROT_WRITE MAP_PRIVATE_ANON (-1) 0 in
  if s64 table <? 0 then Exit
  else if negb (k_madvise k table FourGB =? 0) then Exit
  else if negb (k_arch_prctl k ARCH_SET_GS table =? 0) then Exit
  else Ok (table, fun _ => 0).

Definition install_trampolines (table : mem) : mem :=
  foldl (fun m te => write64 m (TRAMP_PAGE + offset_of te.1) (entry te.2)) table assignments.

(** The block, zero but for its own address, and the guard page after it. *)
Definition alloc_tcb : res TCB :=
  let tcb := k_mmap k 0 STACK_SIZE PROT_WRITE MAP_PRIVATE_ANON (-1) 0 in
  if tcb =? u64 (-1) then Exit
  else if negb (k_munmap k (tcb + PAGE_SIZE) PAGE_SIZE =? 0) then Exit
  else Ok (mkTCB tcb 0 0 0 false).

(** [report_error] ends the process. *)
Definition set_tcb_pointer (p : Z) : res unit :=
  if negb (k_arch_prctl k ARCH_SET_FS p =? 0) then Exit else Ok tt.

(** ** Files *)

(** The file, and zeros up to the end of its last page. *)
Definition load_elf_content (fd : Z) : res (list Z) :=
  match k_file k fd with
  | None => Exit
  | Some bytes =>
    let size := Z.of_nat (length bytes) in
    let elf_size := (size + PAGE_SIZE - 1) / PAGE_SIZE * PAGE_SIZE in
    Ok (bytes ++ replicate (Z.to_nat (elf_size - size)) 0)
  end.

Definition load_elf_name (name : option cstring) (is_exe : bool) (tramps : dict unit) (rt : runtime)
    : res (dict unit * runtime * Z * Z) :=
  let fd := k_open k name in
  if fd =? -1 then Exit
  else
    elf ← load_elf_content fd;
    load_elf true personality_literal (k_opened k fd) (k_ftruncate k) (k_segment k fd) (k_munmap k) elf is_exe tramps rt.

(** A pointer into a string of the environment. *)
Definition env_string (d : load_data) (p : nat * Z) : res va :=
  match lt_envp d !! p.1 with
  | Some s => if p.2 <=? Z.of_nat (length s) then Ok (VStr (env_addr p.1 + p.2) (drop (Z.to_nat p.2) s)) else Fault
  | None => Fault
  end.

Fixpoint cstring_at (n : nat) (m : mem) (a : Z) : cstring :=
  match n with
  | O => []
  | S n' => if m a =? 0 then [] else m a :: cstring_at n' m (a + 1)
  end.

(** [libc_path], at [buf] on the stack. *)
Definition libc_path (d : load_data) (m : mem) (buf : Z) : res cstring :=
  let m := write8 m (buf + (MAX_PATH - 1)) 0 in
  '(m, _) ←
    match MCFI_SDK d with
    | Some p => a ← env_string d p; snprintf exact m buf (MAX_PATH - 1) (bytes_of "%s/lib/libc.so") [a]
    | None =>
      a ← match HOME d with Some p => env_string d p | None => Ok (VInt 0) end;
      snprintf exact m buf (MAX_PATH - 1) (bytes_of "%s/MCFI/toolchain/lib/libc.so") [a]
    end;
  Ok (cstring_at (Z.to_nat MAX_PATH) m buf).

Definition load_libc (d : load_data) (m : mem) (buf : Z) (tramps : dict unit) (rt : runtime)
    : res (dict unit * runtime * Z * Z) :=
  path ← libc_path d m buf;
  load_elf_name (Some path) false tramps rt.

(** ** [runtime_init] *)

(** The global variables before it. *)
Definition globals : runtime :=
  mkRuntime 0 0 [] [] false [] [] [] (fun _ => 0) (fun _ => 0) (mkVmmap [] 0 0 true) [] [] [] false 1 0
    BID_SLOT_START [] [] [] [] [].

(** The state, the stack pointer, the block of the thread, and the base and
    entry of libc. *)
Definition runtime_init (argv envp : list cstring) (auxv : list auxv_t) (m : mem) (buf : Z)
    : res (runtime * Z * TCB * Z * Z) :=
  d ← extract_elf_load_data string_at argv envp auxv;
  vm ← match VmmapCtor true with Some vm => Ok vm | None => Exit end;
  '(vm, stack) ← alloc_sandbox true (k_mmap k) vm;
  '(_, tbl) ← reserve_table_region;
  let rt := globals {{ VM := vm }} {{ table := install_trampolines tbl }} {{ osb := m }} in
  tcb ← alloc_tcb;
  _ ← set_tcb_pointer (self tcb);
  '(tramps, rt, libc_base, libc_entry) ← load_libc d m buf [] rt;
  rt ← populate_vtabletaken rt;
  '(_, rt, _, _) ← load_elf_name (argv !! O) true tramps rt;
  let '(m, stack) := build_stack string_at word_at libc_base d stack (osb rt) in
  Ok (rt {{ osb := m }}, stack, tcb, libc_base, libc_entry).
End start.
