(* ===== verification/StartFacts.v ===== *)
(** * What the start leaves

    Every slot libc jumps through holds the entry point of the function it is
    for; the path of libc is the one the environment gives, cut to the
    buffer; and [runtime_init] ends with libc and the program loaded on pages
    of their own, the trampolines in place and the stack built. *)

From S2P Require Import Prelude Utils Smoothsort SmoothsortSpec Pager PagerFacts PagerSpec Dict Graph Module StringPool Table Runtime MemCalls MemFacts CodeHeap CodeMeta Loader Stack StackFacts ElfLoad ElfFacts Vsprintf VsprintfText VsprintfFacts VsprintfSpec Start.

(** ** The trampolines *)

(** The last assignment to the slot at [c]. *)
Definition slot_entry (c : Z) (l : list (trampoline * entry_point)) : option entry_point :=
  foldl (fun o te => if offset_of te.1 =? c then Some te.2 else o) None l.

Section trampolines.
Context `{E : Entries} (Hentry : forall e, 0 <= entry e < 2 ^ 64).

Lemma install_slot m c l : c mod 8 = 0 ->
  read64 (foldl (fun m te => write64 m (TRAMP_PAGE + offset_of te.1) (entry te.2)) m l) (TRAMP_PAGE + c) =
    match slot_entry c l with Some e => entry e | None => read64 m (TRAMP_PAGE + c) end.
Proof using Hentry.
  intros Hc. unfold slot_entry. induction l as [|[t e] l IH] using rev_ind; [done|].
  rewrite !foldl_app. cbn [foldl fst snd]. destruct (Z.eqb_spec (offset_of t) c) as [<-|Hne]; [by rewrite read64_same|].
  rewrite read64_apart; [exact IH|]. unfold Table.apart, offset_of in *. div_lia.
Qed.

Lemma install_trampolines_slots m : Forall (fun ce => read64 (install_trampolines m) (TRAMP_PAGE + ce.1) = entry ce.2) libc_calls.
Proof using Hentry.
  assert (H : Forall (fun ce => ce.1 mod 8 = 0 /\ slot_entry ce.1 assignments = Some ce.2) libc_calls) by (repeat constructor).
  eapply Forall_impl; [exact H|]. intros [c e] [Hc He]. cbn [fst snd] in *. unfold install_trampolines. by rewrite install_slot, He.
Qed.

Lemma install_outside m x : x < TRAMP_PAGE \/ TRAMP_PAGE + 280 <= x -> install_trampolines m x = m x.
Proof using.
  intros Hx. unfold install_trampolines. assert (Hb : Forall (fun te => 0 <= offset_of te.1 <= 272) assignments).
  { unfold assignments. do 27 (apply Forall_cons; split; [split; vm_compute; discriminate|]). apply Forall_nil_2. }
  revert m. induction Hb as [|[t e] l Ht Hl IH]; intros m; cbn [foldl]; [done|]. rewrite IH. cbn [fst snd] in *.
  apply write_le_out. lia.
Qed.
End trampolines.

(** ** The path of libc *)
Definition spec_s : printf_spec := mkSpec FORMAT_TYPE_STR 0 10 255 (-1) (-1).
Definition spec_end : printf_spec := mkSpec FORMAT_TYPE_NONE 0 10 255 (-1) (-1).

(** The text of a string and what follows it in the format. *)
Lemma render_s fmt lit a s : cur fmt =? 0 = false -> (length fmt <> 0)%nat -> format_decode fmt spec0 = (lit, spec_s) ->
  cur lit =? 0 = false -> format_decode lit spec_s = ([], spec_end) ->
  PAGE_SIZE <= a -> Z.of_nat (length s) < 2 ^ 31 -> render fmt [VStr a s] = Ok (s ++ lit).
Proof.
  intros Hc Hl Hd Hc' Hd' Ha Hs. unfold render. replace (2 * length fmt + 2)%nat with (S (S (S (2 * length fmt - 1)))) by lia.
  rewrite render_loop_S by done. rewrite Hd. unfold item_text at 1. change (type spec_s) with FORMAT_TYPE_STR.
  cbn [next_arg mbind res_bind]. unfold va_string, va_word. rewrite (proj2 (Z.ltb_ge a PAGE_SIZE)) by done. cbn [mbind res_bind].
  rewrite render_loop_S by done. rewrite Hd'. unfold item_text at 1. change (type spec_end) with FORMAT_TYPE_NONE.
  cbn [mbind res_bind length]. rewrite Nat.sub_0_r, take_ge by lia. cbn [render_loop cur default]. change (cur [] =? 0) with true.
  cbn [mbind res_bind]. rewrite app_nil_r. f_equal. f_equal. unfold string_text. change (u64 (precision spec_s)) with (2 ^ 64 - 1).
  unfold strnlen. rewrite Z.min_l by lia. unfold s32. rewrite swrap_small by lia.
  change (has (flags spec_s) LEFT) with false. change (field_width spec_s) with (-1). cbn [negb]. unfold fill, space_end.
  rewrite (proj2 (Z.ltb_ge (Z.of_nat (length s)) (-1))) by lia. change (s16 (-1 - 1)) with (-2).
  replace (Z.to_nat (-1 - Z.of_nat (length s))) with O by lia.
  replace (Z.to_nat (-2 - Z.of_nat (length s))) with O by lia. cbn [replicate app]. rewrite app_nil_r.
  apply take_ge. lia.
Qed.

(** Reading back a string in memory. *)
Lemma cstring_at_holds n m a s : holds_text m a s -> Forall (fun c => 0 < c < 256) s -> (length s < n)%nat -> cstring_at n m a = s.
Proof.
  revert n a. induction s as [|c s IH]; intros n a [Hs H0] Hc Hn; (destruct n as [|n]; [cbn in Hn; lia|]); cbn [cstring_at].
  - cbn [length] in H0. replace (a + Z.of_nat 0) with a in H0 by lia. by rewrite H0.
  - apply Forall_cons in Hc as [Hc Hc']. pose proof (Hs O c eq_refl) as Ha. replace (a + Z.of_nat 0) with a in Ha by lia.
    rewrite Ha. unfold u8. rewrite wrap_small by lia. rewrite (proj2 (Z.eqb_neq c 0)) by lia. f_equal. apply IH; [|done|cbn in Hn; lia].
    split.
    + intros i d Hi. replace (a + 1 + Z.of_nat i) with (a + Z.of_nat (S i)) by lia. by apply Hs.
    + cbn [length] in H0. by replace (a + 1 + Z.of_nat (length s)) with (a + Z.of_nat (S (length s))) by lia.
Qed.

Lemma path_printed fmt lit a s m buf : cur fmt =? 0 = false -> (length fmt <> 0)%nat -> format_decode fmt spec0 = (lit, spec_s) ->
  cur lit =? 0 = false -> format_decode lit spec_s = ([], spec_end) -> Z.of_nat (length lit) < 256 -> Forall (fun c => 0 < c < 256) (s ++ lit) ->
  PAGE_SIZE <= a < 2 ^ 64 -> Z.of_nat (length s) < 2 ^ 30 -> 0 <= buf -> buf + 255 < 2 ^ 64 ->
  exists m' n, snprintf exact m buf (MAX_PATH - 1) fmt [VStr a s] = Ok (m', n) /\
    cstring_at (Z.to_nat MAX_PATH) m' buf = take 254 (s ++ lit).
Proof.
  intros Hc Hl Hd Hc' Hd' Hll Hb Ha Hs Hbuf Hend. pose proof (render_s fmt lit a s Hc Hl Hd Hc' Hd' ltac:(lia) ltac:(lia)) as Hr.
  unfold snprintf, MAX_PATH. destruct (vsnprintf_text m buf 255 fmt [VStr a s] (s ++ lit)) as (m' & Hrun & Hh & _); try done; try lia.
  { apply Forall_singleton. unfold arg_ok, va_word, PAGE_SIZE in *. lia. }
  { rewrite length_app. lia. }
  exists m', (Z.of_nat (length (s ++ lit))). split; [done|]. specialize (Hh ltac:(lia)). apply cstring_at_holds; [exact Hh| |].
  - by apply Forall_take.
  - rewrite length_take. lia.
Qed.

Definition lib_path : list Z := bytes_of "/MCFI/toolchain/lib/libc.so".

Lemma null_path_bytes : Forall (fun c => 0 < c < 256) (bytes_of "(null)" ++ lib_path).
Proof.
  assert (H : bool_decide (Forall (fun c => 0 < c < 256) (bytes_of "(null)" ++ lib_path)) = true) by (by vm_compute).
  by apply bool_decide_eq_true_1 in H.
Qed.

Section path.
Variable env_addr : nat -> Z.
Context (d : load_data) (m : mem) (buf : Z) (Hsdk : MCFI_SDK d = None) (Hbuf : 0 <= buf) (Hend : buf + 255 < 2 ^ 64).

Lemma libc_path_home i off s : HOME d = Some (i, off) -> lt_envp d !! i = Some s -> 0 <= off <= Z.of_nat (length s) ->
  Forall (fun c => 0 < c < 256) s -> Z.of_nat (length s) < 2 ^ 30 -> PAGE_SIZE <= env_addr i + off < 2 ^ 64 ->
  libc_path env_addr d m buf = Ok (take 254 (drop (Z.to_nat off) s ++ lib_path)).
Proof using Hsdk Hbuf Hend.
  intros Hh Hs Ho Hc Hl Ha. unfold libc_path. rewrite Hsdk, Hh. unfold env_string. cbn [fst snd]. rewrite Hs.
  rewrite (proj2 (Z.leb_le off _)) by lia. cbn [mbind res_bind].
  destruct (path_printed (bytes_of "%s/MCFI/toolchain/lib/libc.so") lib_path (env_addr i + off) (drop (Z.to_nat off) s)
    (write8 m (buf + (MAX_PATH - 1)) 0) buf) as (m' & n & -> & Hp); try done.
  - apply Forall_app. split; [by apply Forall_drop|]. unfold lib_path. repeat constructor.
  - rewrite length_drop. lia.
  - cbn [mbind res_bind]. by rewrite Hp.
Qed.

(** Without [HOME] the path is relative to the working directory. *)
Lemma libc_path_null : HOME d = None -> libc_path env_addr d m buf = Ok (bytes_of "(null)" ++ lib_path).
Proof using Hsdk Hbuf Hend.
  intros Hh. unfold libc_path. rewrite Hsdk, Hh. cbn [mbind res_bind].
  destruct (vsnprintf_text (write8 m (buf + 255) 0) buf 255 (bytes_of "%s/MCFI/toolchain/lib/libc.so") [VInt 0]
    (bytes_of "(null)" ++ lib_path)) as (m' & Hrun & Hh' & _); try done; try lia.
  { apply Forall_singleton. split; [cbn; lia|done]. }
  unfold snprintf. change (MAX_PATH - 1) with 255. rewrite Hrun. cbn [mbind res_bind]. f_equal.
  apply (cstring_at_holds _ _ _ (bytes_of "(null)" ++ lib_path)); [by apply Hh'|exact null_path_bytes|vm_compute; lia].
Qed.
End path.

(** Only the first letters of a variable are compared: one whose name begins
    with [HOME] and comes later takes the place of [HOME]. *)
Lemma home_prefix : match extract_elf_load_data (fun _ => []) [] [bytes_of "HOME=/h"; bytes_of "HOMEDRIVE=/d"] [] with
  | Ok d => HOME d = Some (1%nat, 5) | _ => False end.
Proof. reflexivity. Qed.

(** ** The whole start *)
Section start.
Context `{Q : Qsort} `{QS : !QsortSpec Q} `{M : Malloc} `{E : Entries}.
Variable k : answers.
Variable lit : Z.

(** The pages of the empty sandbox. *)
Definition sandbox_page (p : Z) : option (Z * Z * VmmapEntryType) :=
  if in_region 0xff800 0x100000 p then Some (3, 3, VMMAP_ENTRY_ANONYMOUS)
  else if in_region 0 0x400 p then Some (PROT_NONE, PROT_NONE, VMMAP_ENTRY_ANONYMOUS)
  else None.

(** The pages after a file with the segments [phs] is loaded. *)
Definition with_image (is_exe : bool) (base : Z) (phs : list phdr) (pages : Z -> option (Z * Z * VmmapEntryType)) (p : Z)
    : option (Z * Z * VmmapEntryType) :=
  match seg_at is_exe base phs p with
  | Some ph => Some (seg_attrs ph)
  | None => pages p
  end.

Lemma sandbox_pages vm vm0 stack : match VmmapCtor true with Some vm => Ok vm | None => Exit end = Ok vm ->
  alloc_sandbox true (k_mmap k) vm = Ok (vm0, stack) ->
  stack = FourGB - 8 /\ wf_map vm0 /\ (forall p, page_lookup vm0 p = sandbox_page p) /\ forall p, page_lookup vm0 p <> None -> 0 <= p < 2 ^ 20.
Proof using.
  intros Hctor Hbox. destruct (VmmapCtor true) as [vm'|] eqn:Hc; [injection Hctor as ->|done].
  pose proof Hbox as Hbox'. unfold alloc_sandbox in Hbox'. destruct (Z.eqb_spec (k_mmap k FourGB FourGB PROT_NONE MAP_ANON_FIXED (-1) 0) FourGB) as [E1|]; [|done].
  cbn [negb] in Hbox'. apply bind_Ok_inv in Hbox' as (vm1 & _ & Hbox').
  change (FourGB - (FourGB - SixtyFourKB * 128)) with 0x800000 in Hbox'. change (FourGB - SixtyFourKB * 128) with (FourGB - 0x800000) in Hbox'.
  destruct (Z.eqb_spec (k_mmap k (FourGB - 0x800000) 0x800000 (Z.lor PROT_READ PROT_WRITE) MAP_ANON_FIXED (-1) 0) (FourGB - 0x800000)) as [E2|]; [|done].
  destruct (alloc_sandbox_correct (k_mmap k) vm Hc E1 E2) as (vm2 & Hrun & Hwf & Hlk & Hb). rewrite Hbox in Hrun. injection Hrun as -> ->. done.
Qed.

Definition pages_below (vm : Vmmap) : Prop := forall p, page_lookup vm p <> None -> 0 <= p < 2 ^ 20.

Lemma with_image_below is_exe base phs vm vm' : 0 <= base -> pages_below vm -> image_ok is_exe base phs vm ->
  (forall p, page_lookup vm' p = with_image is_exe base phs (page_lookup vm) p) -> pages_below vm'.
Proof using.
  intros Hb Hvm Himg Hlk p. rewrite Hlk. unfold with_image. destruct (seg_at is_exe base phs p) as [ph|] eqn:Hs; [intros _|apply Hvm].
  unfold seg_at in Hs. apply List.find_some in Hs as [Hph [Hl Hin]%andb_true_iff]. apply list_elem_of_In in Hph.
  pose proof (img_fit _ _ _ _ Himg) as Hfit. rewrite Forall_forall in Hfit. destruct (Hfit ph Hph Hl) as (H1 & H2 & H3).
  unfold in_region, seg_lo, seg_hi in Hin. apply andb_true_iff in Hin as [G1%Z.leb_le G2%Z.ltb_lt]. div_lia.
Qed.

(** The program headers of a file, as they are when its segments are mapped. *)
Definition file_segments (name : option cstring) (phs : list phdr) : Prop :=
  exists elf elf' rt cm rt', load_elf_content k (k_open k name) = Ok elf /\
    load_mcfi_metadata lit elf (Z.of_nat (length elf)) rt = Ok (elf', cm, rt') /\ read_phdrs elf' = Ok phs.

Lemma load_elf_name_maps name is_exe tramps rt tramps' rt' base entry0 : wf_map (VM rt) -> pages_below (VM rt) ->
  load_elf_name k lit name is_exe tramps rt = Ok (tramps', rt', base, entry0) ->
  exists phs mo, file_segments name phs /\ table rt' = table rt /\ (0 <= base /\ (is_exe = true -> base = X64ABIBASE)) /\ modules rt' = modules rt ++ [mo] /\ base_addr mo = base /\
    (image_ok is_exe base phs (VM rt) -> wf_map (VM rt') /\
     forall p, page_lookup (VM rt') p = with_image is_exe base phs (page_lookup (VM rt)) p).
Proof using QS.
  intros Hwf Hb H. unfold load_elf_name in H. destruct (_ =? -1); [done|]. apply bind_Ok_inv in H as (elf & Helf & H).
  destruct (load_elf_pages _ _ _ _ _ _ _ _ _ _ _ _ _ Hwf Hb H) as (elf' & cm & rt1 & phs & mo & Hmeta & Hphs & Ht & Hbase & Hm & Hba & Himg).
  exists phs, mo. split; [by exists elf, elf', rt, cm, rt1|]. do 4 (split; [done|]). intros Hok. by destruct (Himg Hok) as (H1 & _ & H2).
Qed.

Lemma populate_vtabletaken_kept rt rt' : populate_vtabletaken rt = Ok rt' -> kept rt rt'.
Proof using.
  unfold populate_vtabletaken. intros H. apply (foldM_kept id) in H; [exact H|]. intros rt1 s rt2 H1.
  apply bind_Ok_inv in H1 as ([rt3 p] & Hi & H1). apply bind_Ok_inv in H1 as (vtt & _ & H1). injection H1 as <-.
  apply intern_kept in Hi. etrans; [exact Hi|]. done.
Qed.

Variable string_at : Z -> cstring.
Variable word_at : Z -> Z.
Variable env_addr : nat -> Z.

(** What the program's start-up code finds at the stack pointer. *)
Definition stack_ready (argv envp : list cstring) (auxv : list auxv_t) (libc_base : Z) (d : load_data) (m : mem) (sp : Z) : Prop :=
  let stop := FourGB - 8 in
  let kept := List.filter (fun e => negb (skipped e)) auxv in
  let a_envp := sp + 8 + 8 * Z.of_nat (length argv) + 8 in
  let a_auxv := a_envp + 8 * Z.of_nat (length envp) + 8 in
  sp mod 16 = 0 /\ 0 < sp /\ sp + lt_stack_size d <= stop /\
  read64 m sp = Z.of_nat (length argv) /\
  (forall i s, argv !! i = Some s -> string_in sp stop m (sp + 8 + 8 * Z.of_nat i) s) /\
  (forall i s, envp !! i = Some s -> string_in sp stop m (a_envp + 8 * Z.of_nat i) s) /\
  (forall i e, kept !! i = Some e -> aux_in string_at word_at libc_base sp stop m (a_auxv + 16 * Z.of_nat i) e).

Lemma start_stack_ready argv envp auxv libc_base d m m' sp : Forall (entry_fits string_at word_at libc_base) auxv ->
  Z.of_nat (length argv) < 2 ^ 64 -> extract_elf_load_data string_at argv envp auxv = Ok d -> lt_stack_size d + 16 <= FourGB - 8 ->
  build_stack string_at word_at libc_base d (FourGB - 8) m = (m', sp) -> stack_ready argv envp auxv libc_base d m' sp.
Proof using.
  intros Haux Hargc Hd Hfit Hrun.
  destruct (build_stack_layout string_at word_at libc_base argv envp auxv (FourGB - 8) m Haux Hargc) as (d' & Hd' & H); [done|].
  rewrite Hd in Hd'. injection Hd' as <-. destruct (H Hfit) as (m2 & sp2 & Hrun2 & H1 & H2 & H3 & _ & H4 & H5 & _ & H6 & _ & H7 & _).
  rewrite Hrun in Hrun2. injection Hrun2 as <- <-. done.
Qed.

(** C40.  When [runtime_init] returns, and the segments of libc and of the
    program fit on pages of their own, the runtime has the two modules, the
    program at its fixed address; the page table is that of the empty sandbox
    with the segments of both files, at their protections, and is well formed;
    every slot that libc jumps through holds the entry point of the function
    it is for; and the stack is what the start-up code expects. *)
Theorem runtime_init_correct argv envp auxv m buf rt sp tcb libc_base libc_entry :
  (forall e, 0 <= entry e < 2 ^ 64) -> Forall (entry_fits string_at word_at libc_base) auxv -> Z.of_nat (length argv) < 2 ^ 64 ->
  runtime_init k lit string_at word_at env_addr argv envp auxv m buf = Ok (rt, sp, tcb, libc_base, libc_entry) ->
  exists d path vm0 phs1, extract_elf_load_data string_at argv envp auxv = Ok d /\
    libc_path env_addr d m buf = Ok path /\ file_segments (Some path) phs1 /\
    (forall p, page_lookup vm0 p = sandbox_page p) /\
    (lt_stack_size d + 16 <= FourGB - 8 -> stack_ready argv envp auxv libc_base d (osb rt) sp) /\
    (image_ok false libc_base phs1 vm0 ->
     exists vm1 phs2 m1 m2, file_segments (argv !! O) phs2 /\ modules rt = [m1; m2] /\ base_addr m1 = libc_base /\ base_addr m2 = X64ABIBASE /\
       (forall p, page_lookup vm1 p = with_image false libc_base phs1 sandbox_page p) /\
       Forall (fun ce => read64 (table rt) (TRAMP_PAGE + ce.1) = entry ce.2) libc_calls /\
       (image_ok true X64ABIBASE phs2 vm1 -> wf_map (VM rt) /\
        forall p, page_lookup (VM rt) p = with_image true X64ABIBASE phs2 (with_image false libc_base phs1 sandbox_page) p)).
Proof using QS.
  intros He Haux Hargc H. unfold runtime_init in H.
  apply bind_Ok_inv in H as (d & Hd & H). apply bind_Ok_inv in H as (vm & Hctor & H).
  apply bind_Ok_inv in H as ([vm0 stack] & Hbox & H). apply bind_Ok_inv in H as ([tb tbl] & _ & H).
  apply bind_Ok_inv in H as (tcb' & _ & H). apply bind_Ok_inv in H as ([] & _ & H).
  apply bind_Ok_inv in H as ([[[tr1 rt1] lb] le] & Hlibc & H). apply bind_Ok_inv in H as (rt2 & Hvt & H).
  apply bind_Ok_inv in H as ([[[tr2 rt3] eb] ee] & Hexe & H).
  destruct (build_stack string_at word_at lb d stack (osb rt3)) as [m' sp'] eqn:Hst. injection H as <- -> -> -> ->.
  destruct (sandbox_pages vm vm0 stack Hctor Hbox) as (-> & Hwf0 & Hlk0 & Hb0).
  unfold load_libc in Hlibc. apply bind_Ok_inv in Hlibc as (path & Hpath & Hlibc).
  set (rt0 := globals {{ VM := vm0 }} {{ table := install_trampolines tbl }} {{ osb := m }}) in *.
  assert (Hwf0' : wf_map (VM rt0)) by exact Hwf0. assert (Hb0' : pages_below (VM rt0)) by exact Hb0.
  destruct (load_elf_name_maps _ _ _ _ _ _ _ _ Hwf0' Hb0' Hlibc) as (phs1 & m1 & Hf1 & Ht1 & [Hlb _] & Hm1 & Hba1 & Himg1).
  exists d, path, vm0, phs1. do 3 (split; [done|]). split; [exact Hlk0|]. split.
  { intros Hfit. eapply start_stack_ready; try done. }
  intros Hok1. destruct (Himg1 Hok1) as [Hwf1 Hlk1]. destruct (populate_vtabletaken_kept _ _ Hvt) as [KV Km Kt _].
  pose proof (with_image_below _ _ _ _ _ Hlb Hb0' Hok1 Hlk1) as Hb1. rewrite <- KV in Hwf1, Hb1.
  destruct (load_elf_name_maps _ _ _ _ _ _ _ _ Hwf1 Hb1 Hexe) as (phs2 & m2 & Hf2 & Ht2 & [_ Heb] & Hm2 & Hba2 & Himg2).
  assert (Hlk1' : forall p, page_lookup (VM rt1) p = with_image false libc_base phs1 sandbox_page p).
  { intros p. rewrite Hlk1. unfold with_image. destruct (seg_at _ _ _ p); [done|]. apply Hlk0. }
  exists (VM rt1), phs2, m1, m2. specialize (Heb eq_refl). subst eb. split; [done|]. split_and!.
  - change (modules rt3 = [m1; m2]). by rewrite Hm2, Km, Hm1.
  - done.
  - by rewrite Hba2.
  - done.
  - assert (Htbl : table rt3 = install_trampolines tbl) by (rewrite Ht2, Kt, Ht1; reflexivity).
    change (Forall (fun ce => read64 (table rt3) (TRAMP_PAGE + ce.1) = entry ce.2) libc_calls). rewrite Htbl. by apply install_trampolines_slots.
  - intros Hok2. rewrite <- KV in Hok2. destruct (Himg2 Hok2) as [Hwf2 Hlk2]. split; [exact Hwf2|].
    intros p. etrans; [apply Hlk2|]. unfold with_image at 1 2. destruct (seg_at _ _ phs2 p); [done|]. by rewrite KV.
Qed.
End start.

(** ** The theorems on a small system *)

(** A program with one segment at its fixed address; the library is
    [sample_file]. *)
Definition exe_file : list Z :=
  replicate 16 0 ++ le_bytes 2 3 ++ le_bytes 2 62 ++ le_bytes 4 1 ++ le_bytes 8 0 ++ le_bytes 8 64 ++ le_bytes 8 0 ++
  le_bytes 4 0 ++ le_bytes 2 64 ++ le_bytes 2 56 ++ le_bytes 2 1 ++ le_bytes 2 64 ++ le_bytes 2 0 ++ le_bytes 2 0 ++
  le_bytes 4 1 ++ le_bytes 4 6 ++ le_bytes 8 0 ++ le_bytes 8 0x400000 ++ le_bytes 8 0 ++ le_bytes 8 16 ++ le_bytes 8 4096 ++
  le_bytes 8 4096.

Definition small_system : answers := {|
  k_mmap a _ _ _ _ _ := if a =? 0 then 0x7f0000000000 else a;
  k_munmap _ _ := 0; k_madvise _ _ := 0; k_arch_prctl _ _ := 0;
  k_open name := if bool_decide (name = Some (bytes_of "/h/MCFI/toolchain/lib/libc.so")) then 3 else 4;
  k_file fd := Some (if fd =? 3 then sample_file else exe_file);
  k_opened _ _ := []; k_ftruncate _ _ := 0; k_segment _ _ := as_asked |}.

#[local] Instance entries : Entries := fun _ => 0x500000.
#[local] Existing Instance utils_qsort.

Definition sample_start : res (runtime * Z * TCB * Z * Z) :=
  runtime_init small_system 0 (fun _ => []) (fun p => p) (fun _ => 0x7ff000) [bytes_of "/bin/x"] [bytes_of "HOME=/h"] []
    (fun _ => 7) 0x1000.

Lemma runtime_init_witness : exists rt sp tcb libc_base libc_entry, sample_start = Ok (rt, sp, tcb, libc_base, libc_entry) /\
  sp mod 16 = 0 /\ read64 (osb rt) sp = 1.
Proof.
  assert (Hok : match sample_start with Ok _ => true | _ => false end = true) by (vm_compute; reflexivity).
  destruct sample_start as [[[[[rt sp] tcb] lb] le]| | |] eqn:Hrun; [|discriminate Hok..].
  exists rt, sp, tcb, lb, le. split; [reflexivity|].
  destruct (runtime_init_correct small_system 0 (fun _ => []) (fun p => p) (fun _ => 0x7ff000) [bytes_of "/bin/x"] [bytes_of "HOME=/h"] []
    (fun _ => 7) 0x1000 rt sp tcb lb le) as (d & path & vm0 & phs1 & Hd & _ & _ & _ & Hst & _).
  - intros e. unfold entry, entries. lia.
  - constructor.
  - cbn. lia.
  - exact Hrun.
  - destruct Hst as (H1 & _ & _ & H2 & _); [|split; [exact H1|exact H2]].
    vm_compute in Hd. injection Hd as <-. vm_compute. discriminate.
Defined.
