(* ===== verification/Entry.v ===== *)
(** * Entry and exit of the runtime ([runtime_interface.S]; [mcfi.s] and [trampolines.h] of libc)

    The assembly between the sandbox and the C code: a thread leaves the
    sandbox through a stub or a trampoline, its context is saved in its
    control block, it switches to the stack of the runtime, takes the lock and
    calls the C function; then all is undone and the thread goes on at the
    address of [continuation].  The system has any number of threads, whose
    steps come in any order: a step is one instruction, or a step of the C code
    ([CCode], what the rest of this library models as one transition), or
    whatever the sandboxed code does.  The control block is the memory at the
    base of [%fs], which is the thread's own. *)

From S2P Require Import Prelude Table Start.

(** ** The processor *)
Inductive reg : Set :=
  | RAX | RBX | RCX | RDX | RDI | RSI | RBP | RSP | R8 | R9 | R10 | R11 | R12 | R13 | R14 | R15.

#[export] Instance reg_eq_dec : EqDecision reg.
Proof. solve_decision. Defined.

(** A vector register is its two halves. *)
Record cpu : Type := Cpu {
  gpr : reg -> Z;
  xmm : Z -> Z * Z;
  mxcsr : Z;
  fcw : Z;
  zf : bool;
}.

Definition set_gpr (c : cpu) (r : reg) (v : Z) : cpu :=
  Cpu (fun q => if decide (q = r) then v else gpr c q) (xmm c) (mxcsr c) (fcw c) (zf c).

Definition set_xmm (c : cpu) (i v : Z) : cpu :=
  Cpu (gpr c) (fun k => if k =? i then (v, 0) else xmm c k) (mxcsr c) (fcw c) (zf c).

Definition set_mxcsr (c : cpu) (v : Z) : cpu := Cpu (gpr c) (xmm c) v (fcw c) (zf c).
Definition set_fcw (c : cpu) (v : Z) : cpu := Cpu (gpr c) (xmm c) (mxcsr c) v (zf c).
Definition set_zf (c : cpu) (b : bool) : cpu := Cpu (gpr c) (xmm c) (mxcsr c) (fcw c) b.

(** ** The control block *)
Definition SELF : Z := 0x08.
Definition THREAD_ESCAPES : Z := 0x10.
Definition IN_SYSCALL : Z := 0x18.
Definition CONTINUATION : Z := 0x20.
Definition USER_CTX : Z := 0x30.
Definition FCW : Z := 0x80.
Definition MXCSR : Z := 0x88.

(** ** Instructions, with memory operands at [%fs] unless they say otherwise *)
Inductive instr : Set :=
  | movq_store (r : reg) (off : Z)        (* movq %r, %fs:off *)
  | movq_load (off : Z) (r : reg)
  | movx_store (i off : Z)                (* movq %xmm_i, %fs:off *)
  | movx_load (off i : Z)
  | stmxcsr (off : Z)
  | ldmxcsr (off : Z)
  | fnstcw (off : Z)
  | fldcw (off : Z)
  | movb_store (v off : Z)                (* movb $v, %fs:off *)
  | movq_imm (v : Z) (r : reg)            (* leaq 1f(%rip), %r *)
  | movq (src dst : reg)
  | addq (v : Z) (r : reg)
  | subl (v : Z) (r : reg)
  | subl_mem (v off : Z)                  (* subl $v, %fs:off *)
  | popq (r : reg)
  | movb (v : Z) (r : reg)                (* movb $v, the low byte of %r *)
  | xchgb (r : reg)                       (* lock xchgb, the low byte of %r, locked(%rip) *)
  | testb (r : reg)
  | jnz (back : nat)                      (* to the instruction this far before *)
  | callq                                 (* the C function *)
  | jmpq_gs (e : entry_point)             (* through the slot of the trampoline *)
  | jmpq_fs (off : Z).

(** ** The code *)
Definition spin_lock : list instr := [movb 1 R11; xchgb R11; testb R11; jnz 3].
Definition spin_unlock : list instr := [movb 0 R11; xchgb R11].
Definition switch_runtime_stack : list instr := [movq_load SELF RSP; addq 0xffc0 RSP].
Definition atomic_incr_thread_escapes : list instr :=
  [movq_load THREAD_ESCAPES RAX; addq 1 RAX; movq_store RAX THREAD_ESCAPES].

Definition save_regs : list instr :=
  [movq_store RAX USER_CTX; movq_store RCX (USER_CTX + 0x10); movq_store RDX (USER_CTX + 0x18);
   movq_store RDI (USER_CTX + 0x20); movq_store RSI (USER_CTX + 0x28); movq_store RSP (USER_CTX + 0x38);
   movq_store R8 (USER_CTX + 0x40); movq_store R9 (USER_CTX + 0x48); movq_store R10 (USER_CTX + 0x50)].

Definition save_xmms : list instr :=
  [movx_store 0 (USER_CTX + 0x90); movx_store 1 (USER_CTX + 0x98); movx_store 2 (USER_CTX + 0xa0);
   movx_store 3 (USER_CTX + 0xa8); movx_store 4 (USER_CTX + 0xb0); movx_store 5 (USER_CTX + 0xb8);
   movx_store 6 (USER_CTX + 0xc0); movx_store 7 (USER_CTX + 0xc8)].

Definition restore_regs : list instr :=
  [movq_load USER_CTX RAX; movq_load (USER_CTX + 0x10) RCX; movq_load (USER_CTX + 0x18) RDX;
   movq_load (USER_CTX + 0x20) RDI; movq_load (USER_CTX + 0x28) RSI; movq_load (USER_CTX + 0x38) RSP;
   movq_load (USER_CTX + 0x40) R8; movq_load (USER_CTX + 0x48) R9; movq_load (USER_CTX + 0x50) R10;
   movq_load (USER_CTX + 0x58) R11].

Definition restore_xmms : list instr :=
  [movx_load (USER_CTX + 0x90) 0; movx_load (USER_CTX + 0x98) 1; movx_load (USER_CTX + 0xa0) 2;
   movx_load (USER_CTX + 0xa8) 3; movx_load (USER_CTX + 0xb0) 4; movx_load (USER_CTX + 0xb8) 5;
   movx_load (USER_CTX + 0xc0) 6; movx_load (USER_CTX + 0xc8) 7].

(** The parts of a macro before the lock and after the release. *)
Definition before_patch : list instr :=
  [movb_store 1 IN_SYSCALL] ++ save_regs ++ save_xmms ++ [stmxcsr (USER_CTX + MXCSR); fnstcw (USER_CTX + FCW)] ++
  atomic_incr_thread_escapes ++ switch_runtime_stack ++ [movq R11 RDI].

Definition after_patch : list instr :=
  restore_regs ++ restore_xmms ++ [fldcw (USER_CTX + FCW); ldmxcsr (USER_CTX + MXCSR); movb_store 0 IN_SYSCALL].

Definition save_context : list instr := [movq_store RSP (USER_CTX + 0x38)].
Definition restore_context : list instr := [movq_load (USER_CTX + 0x38) RSP].

Definition before_function : list instr :=
  [movb_store 1 IN_SYSCALL] ++ save_context ++ atomic_incr_thread_escapes ++ switch_runtime_stack.

Definition after_function : list instr := restore_context ++ [movb_store 0 IN_SYSCALL].

Definition online_patched (e : entry_point) : bool :=
  match e with runtime_patch_call | runtime_patch_entry => true | _ => false end.

Definition before (e : entry_point) : list instr := if online_patched e then before_patch else before_function.
Definition after (e : entry_point) : list instr := if online_patched e then after_patch else after_function.

(** [online_patch] and [runtime_function]. *)
Definition runtime_code (e : entry_point) : list instr :=
  before e ++ spin_lock ++ [callq] ++ spin_unlock ++ after e ++ [jmpq_fs CONTINUATION].

(** The stubs of libc; the trampoline of an entry, with the address after it. *)
Inductive stub : Set := __patch_call | __patch_at | __patch_entry | TRAMP_CALL (e : entry_point) (label : Z).

Definition stub_code (s : stub) : list instr :=
  match s with
  | __patch_call =>
    [movq_store R11 0x88; popq R11; movq_store R11 0x20; subl_mem 5 0x20; jmpq_gs runtime_patch_call]
  | __patch_at => [popq RDI; movq_store RDI 0x20; jmpq_gs runtime_patch_at]
  | __patch_entry => [popq R11; subl 5 R11; movq_store R11 0x20; jmpq_gs runtime_patch_entry]
  | TRAMP_CALL e label => [movq_imm label R11; movq_store R11 0x20; jmpq_gs e]
  end.

(** ** Threads *)

(** The processor, the control block, the thread's stack in the sandbox. *)
Record context : Type := Context_ { ctx_cpu : cpu; tcb : mem; stack : mem }.

(** An instruction that neither jumps nor calls; the lock before and after. *)
Definition exec (i : instr) (lock : Z) (x : context) : Z * context :=
  let '(Context_ c t s) := x in
  match i with
  | movq_store r off => (lock, Context_ c (write_le 8 t off (gpr c r)) s)
  | movq_load off r => (lock, Context_ (set_gpr c r (read_le 8 t off)) t s)
  | movx_store k off => (lock, Context_ c (write_le 8 t off (xmm c k).1) s)
  | movx_load off k => (lock, Context_ (set_xmm c k (read_le 8 t off)) t s)
  | stmxcsr off => (lock, Context_ c (write_le 4 t off (mxcsr c)) s)
  | ldmxcsr off => (lock, Context_ (set_mxcsr c (read_le 4 t off)) t s)
  | fnstcw off => (lock, Context_ c (write_le 2 t off (fcw c)) s)
  | fldcw off => (lock, Context_ (set_fcw c (read_le 2 t off)) t s)
  | movb_store v off => (lock, Context_ c (write_le 1 t off v) s)
  | movq_imm v r => (lock, Context_ (set_gpr c r v) t s)
  | movq src dst => (lock, Context_ (set_gpr c dst (gpr c src)) t s)
  | addq v r => (lock, Context_ (set_gpr c r (u64 (gpr c r + v))) t s)
  | subl v r => (lock, Context_ (set_gpr c r (u32 (gpr c r - v))) t s)
  | subl_mem v off => (lock, Context_ c (write_le 4 t off (u32 (read_le 4 t off - v))) s)
  | popq r => (lock, Context_ (set_gpr (set_gpr c RSP (u64 (gpr c RSP + 8))) r (read_le 8 s (gpr c RSP))) t s)
  | movb v r => (lock, Context_ (set_gpr c r (gpr c r / 256 * 256 + v)) t s)
  | xchgb r => (gpr c r mod 256, Context_ (set_gpr c r (gpr c r / 256 * 256 + lock)) t s)
  | testb r => (lock, Context_ (set_zf c (gpr c r mod 256 =? 0)) t s)
  | jnz _ | callq | jmpq_gs _ | jmpq_fs _ => (lock, x)
  end.

(** The first instructions of the program: [runtime_init] is called on the
    stack of the kernel and returns the stack of the sandbox. *)
Definition _start (runtime_init : Z -> Z -> cpu -> cpu * Z) (stk : mem) (c : cpu) : cpu * Z :=
  let c := set_gpr c RBP 0 in
  let c := set_gpr c RDI (read_le 8 stk (gpr c RSP)) in
  let c := set_gpr c RSI (u64 (gpr c RSP + 8)) in
  let '(c, libc_entry) := runtime_init (gpr c RDI) (gpr c RSI) c in
  let c := set_gpr c RSP (u32 (gpr c RAX)) in
  let c := set_gpr c RAX 0 in
  let c := set_gpr c RDI 0 in
  let c := set_gpr c RDI 0 in
  (c, libc_entry).

(** ** The system *)

(** The C code: its state, what is inside a call, the answer, and whether the
    call has ended the program ([quit], or a fault). *)
Class CCode : Type := {
  shared : Type;
  local : Type;
  enter : entry_point -> (reg -> Z) -> local;
  cstep : local -> shared -> local -> shared -> Prop;
  answer : local -> option Z;
  ended : local -> bool;
}.

Section system.
Context `{C : CCode}.

Inductive location : Type :=
  | Sandbox (rip : Z)
  | Stub (s : stub) (pc : nat)
  | Runtime (e : entry_point) (pc : nat)
  | InC (e : entry_point) (args : reg -> Z) (l : local).

Record thread : Type := Thread { loc : location; ctx : context }.

Record system : Type := System { threads : list thread; locked : Z; state : shared }.

(** What the compiler of the runtime promises of a C function: the registers
    that a function keeps, and the control block but for the word that the
    program owns. *)
Definition kept (r : reg) : bool :=
  match r with RBX | RBP | RSP | R12 | R13 | R14 | R15 => true | _ => false end.

Definition returned (rv : Z) (x x' : context) : Prop :=
  gpr (ctx_cpu x') RAX = rv /\ (forall r, kept r = true -> gpr (ctx_cpu x') r = gpr (ctx_cpu x) r) /\
  mxcsr (ctx_cpu x') = mxcsr (ctx_cpu x) /\ fcw (ctx_cpu x') = fcw (ctx_cpu x) /\
  (forall a, 8 <= a < 0x100 -> tcb x' a = tcb x a) /\ mem_ok (tcb x') /\ stack x' = stack x.

(** A thread in the sandbox does anything, and leaves by a stub. *)
Definition left_sandbox (l : location) : Prop :=
  match l with Sandbox _ => True | Stub _ pc => pc = O | _ => False end.

(** One step of one thread; the label is the call that returns, if one does. *)
Inductive thread_step : thread -> Z -> shared -> option (entry_point * (reg -> Z) * Z) -> thread -> Z -> shared -> Prop :=
  | step_user rip x l x' k s : left_sandbox l -> mem_ok (tcb x') ->
      thread_step (Thread (Sandbox rip) x) k s None (Thread l x') k s
  | step_stub b pc i x k x' s : stub_code b !! pc = Some i ->
      match i with jmpq_gs _ => False | _ => exec i k x = (k, x') end ->
      thread_step (Thread (Stub b pc) x) k s None (Thread (Stub b (S pc)) x') k s
  | step_jump b pc e x k s : stub_code b !! pc = Some (jmpq_gs e) ->
      thread_step (Thread (Stub b pc) x) k s None (Thread (Runtime e 0) x) k s
  | step_instr e pc i x k k' x' s : runtime_code e !! pc = Some i ->
      match i with callq | jnz _ | jmpq_fs _ => False | _ => exec i k x = (k', x') end ->
      thread_step (Thread (Runtime e pc) x) k s None (Thread (Runtime e (S pc)) x') k' s
  | step_jnz e pc back x k s : runtime_code e !! pc = Some (jnz back) ->
      thread_step (Thread (Runtime e pc) x) k s None
        (Thread (Runtime e (if zf (ctx_cpu x) then S pc else pc - back)) x) k s
  | step_callq e pc x k s : runtime_code e !! pc = Some callq ->
      thread_step (Thread (Runtime e pc) x) k s None
        (Thread (InC e (gpr (ctx_cpu x)) (enter e (gpr (ctx_cpu x)))) x) k s
  | step_c e args l l' x k s s' : answer l = None -> cstep l s l' s' ->
      thread_step (Thread (InC e args l) x) k s None (Thread (InC e args l') x) k s'
  | step_ret e args l rv x x' pc k s : answer l = Some rv -> returned rv x x' -> runtime_code e !! pc = Some callq ->
      thread_step (Thread (InC e args l) x) k s (Some (e, args, rv)) (Thread (Runtime e (S pc)) x') k s
  | step_exit e pc off x k s : runtime_code e !! pc = Some (jmpq_fs off) ->
      thread_step (Thread (Runtime e pc) x) k s None (Thread (Sandbox (read_le 8 (tcb x) off)) x) k s.

Inductive step : system -> option (entry_point * (reg -> Z) * Z) -> system -> Prop :=
  | step_thread i ts th th' k k' s s' lab : ts !! i = Some th -> thread_step th k s lab th' k' s' ->
      step (System ts k s) lab (System (<[i := th']> ts) k' s').

(** A run, with the calls in the order in which they return. *)
Inductive runs (c : system) : list (entry_point * (reg -> Z) * Z) -> system -> Prop :=
  | runs_none : runs c [] c
  | runs_step log c1 lab c2 : runs c log c1 -> step c1 lab c2 -> runs c (log ++ option_list lab) c2.

(** ** The specification: one whole call after another *)
Inductive inside : local -> shared -> local -> shared -> Prop :=
  | inside_here l s : inside l s l s
  | inside_step l s l1 s1 l2 s2 : inside l s l1 s1 -> answer l1 = None -> cstep l1 s1 l2 s2 -> inside l s l2 s2.

Inductive serial (s : shared) : list (entry_point * (reg -> Z) * Z) -> shared -> Prop :=
  | serial_none : serial s [] s
  | serial_call log s1 e args rv l s2 : serial s log s1 -> inside (enter e args) s1 l s2 -> answer l = Some rv ->
      serial s (log ++ [(e, args, rv)]) s2.
End system.
