(* ===== verification/EntryFacts.v ===== *)
(** * The lock of the runtime

    The lock serialises the C functions: on the state of the runtime every run
    of the threads is whole calls one after another, but for the one in
    progress.  The steps of one thread by itself, and a small runtime. *)

From S2P Require Import Prelude Table Start Entry.

(** ** The code around the lock *)
Definition critical : list instr := spin_lock ++ [callq] ++ spin_unlock.

Definition is_xchgb (i : instr) : bool := match i with xchgb _ => true | _ => false end.
Definition is_plain (i : instr) : bool :=
  match i with xchgb _ | callq | jnz _ | jmpq_gs _ | jmpq_fs _ => false | _ => true end.

(** The place of the lock. *)
Definition lock_pc (e : entry_point) : nat := length (before e).

Lemma before_plain e i : i ∈ before e -> is_plain i = true.
Proof.
  assert (H : forallb is_plain (before e) = true) by (unfold before; by destruct (online_patched e)).
  intros Hi. rewrite forallb_forall in H. apply H. by apply list_elem_of_In.
Qed.

Lemma after_plain e i : i ∈ after e -> is_plain i = true.
Proof.
  assert (H : forallb is_plain (after e) = true) by (unfold after; by destruct (online_patched e)).
  intros Hi. rewrite forallb_forall in H. apply H. by apply list_elem_of_In.
Qed.

Lemma runtime_code_split e : runtime_code e = before e ++ critical ++ after e ++ [jmpq_fs CONTINUATION].
Proof. unfold runtime_code, critical. by rewrite <- !app_assoc. Qed.

Inductive code_case (e : entry_point) (pc : nat) (i : instr) : Prop :=
  | case_before : before e !! pc = Some i -> (pc < lock_pc e)%nat -> code_case e pc i
  | case_critical k : (pc = lock_pc e + k)%nat -> (k < 7)%nat -> critical !! k = Some i -> code_case e pc i
  | case_after k : (pc = lock_pc e + 7 + k)%nat -> after e !! k = Some i -> code_case e pc i
  | case_end : (pc = lock_pc e + 7 + length (after e))%nat -> i = jmpq_fs CONTINUATION -> code_case e pc i.

Lemma code_cases e pc i : runtime_code e !! pc = Some i -> code_case e pc i.
Proof.
  rewrite runtime_code_split. intros H. apply lookup_app_Some in H as [H|[Hl H]].
  { apply (case_before e pc i H). by apply lookup_lt_Some in H. }
  fold (lock_pc e) in *. apply lookup_app_Some in H as [H|[Hl' H]].
  { apply (case_critical e pc i (pc - lock_pc e)); [lia| |done]. by apply lookup_lt_Some in H. }
  change (length critical) with 7%nat in *. apply lookup_app_Some in H as [H|[Hl2 H]].
  { apply (case_after e pc i (pc - lock_pc e - 7)); [lia|done]. }
  apply list_lookup_singleton_Some in H as [H <-]. apply case_end; [lia|done].
Qed.

Lemma exec_plain i k x : is_plain i = true -> exec i k x = (k, (exec i 0 x).2).
Proof. by destruct i, x. Qed.

Section exclusion.
Context `{C : CCode}.

(** ** Who has the lock *)
Definition low (x : context) : Z := gpr (ctx_cpu x) R11 mod 256.

(** How far the thread is past the lock. *)
Definition offset (e : entry_point) (pc : nat) : option nat :=
  if (lock_pc e <=? pc)%nat then Some (pc - lock_pc e)%nat else None.

Definition holds (th : thread) : bool :=
  match loc th with
  | Runtime e pc =>
    match offset e pc with
    | Some 2%nat => low (ctx th) =? 0
    | Some 3%nat => zf (ctx_cpu (ctx th))
    | Some 4%nat | Some 5%nat | Some 6%nat => true
    | _ => false
    end
  | InC _ _ _ => true
  | _ => false
  end.

(** What the exchanged byte is before an exchange. *)
Definition ready_byte (th : thread) : Prop :=
  match loc th with
  | Runtime e pc =>
    match offset e pc with
    | Some 1%nat => low (ctx th) = 1
    | Some 6%nat => low (ctx th) = 0
    | _ => True
    end
  | _ => True
  end.

Lemma offset_at e k : offset e (lock_pc e + k) = Some k.
Proof. unfold offset. rewrite (proj2 (Nat.leb_le _ _)) by lia. f_equal. lia. Qed.

Lemma offset_before e pc : (pc < lock_pc e)%nat -> offset e pc = None.
Proof. intros H. unfold offset. by rewrite (proj2 (Nat.leb_gt _ _)). Qed.

Lemma offset_far e k : (7 <= k)%nat ->
  (forall x, holds (Thread (Runtime e (lock_pc e + k)) x) = false) /\
  (forall x, ready_byte (Thread (Runtime e (lock_pc e + k)) x)).
Proof.
  intros Hk. unfold holds, ready_byte. cbn [loc]. rewrite offset_at.
  do 7 (destruct k as [|k]; [exfalso; lia|]). done.
Qed.

Lemma offset_start e x : holds (Thread (Runtime e 0) x) = false /\ ready_byte (Thread (Runtime e 0) x).
Proof.
  assert (H : offset e 0 = None \/ offset e 0 = Some 0%nat).
  { unfold offset. destruct (lock_pc e); [by right|by left]. }
  unfold holds, ready_byte. cbn [loc]. by destruct H as [-> | ->].
Qed.

Lemma low_set r v : 0 <= v < 256 -> (r / 256 * 256 + v) mod 256 = v.
Proof. intros. div_lia. Qed.

(** One instruction of the code around the lock. *)
Lemma critical_instr e j i k x k' x' : critical !! j = Some i ->
  match i with callq | jnz _ | jmpq_fs _ => False | _ => exec i k x = (k', x') end -> 0 <= k <= 1 ->
  let th := Thread (Runtime e (lock_pc e + j)) x in let th' := Thread (Runtime e (lock_pc e + S j)) x' in
  ready_byte th -> (holds th = true -> k = 1) ->
  0 <= k' <= 1 /\ ready_byte th' /\ k' - Z.b2z (holds th') = k - Z.b2z (holds th).
Proof.
  intros Hi Hx Hk th th'. unfold th, th', ready_byte, holds. cbn [loc ctx]. rewrite !offset_at. destruct x as [c t s].
  destruct j as [|[|[|[|[|[|[|j]]]]]]]; cbn in Hi; try discriminate; injection Hi as <-;
    try done; cbn [exec] in Hx; injection Hx as <- <-;
    unfold low; cbn [ctx_cpu set_gpr set_zf gpr zf]; rewrite ?decide_True by done; intros Hb Hh.
  - rewrite low_set by lia. done.
  - rewrite low_set by lia. rewrite Hb. split; [lia|]. split; [done|].
    destruct (Z.eqb_spec k 0); cbn; lia.
  - done.
  - rewrite low_set by lia. done.
  - specialize (Hh eq_refl). rewrite Hb. subst. done.
Qed.

Lemma thread_step_lock th k s lab th' k' s' : thread_step th k s lab th' k' s' -> 0 <= k <= 1 -> ready_byte th ->
  (holds th = true -> k = 1) ->
  0 <= k' <= 1 /\ ready_byte th' /\ k' - Z.b2z (holds th') = k - Z.b2z (holds th).
Proof.
  intros H. destruct H as [rip x l x' k s Hl Hm|b pc i x k x' s Hi Hx|b pc e x k s Hi|e pc i x k k' x' s Hi Hx|e pc back x k s Hi|
    e pc x k s Hi|e args l l' x k s s' Ha Hc|e args l rv x x' pc k s Ha Hr Hi|e pc off x k s Hi]; intros Hk Hb Hh.
  - split; [done|]. by destruct l.
  - by split.
  - destruct (offset_start e x) as [E1 E2]. rewrite E1. by split.
  - apply code_cases in Hi as [Hi Hp|j -> Hj Hi|j -> Hi| -> ->].
    + assert (Hpl : is_plain i = true) by (apply (before_plain e); by apply list_elem_of_lookup_2 in Hi).
      assert (k' = k) as ->.
      { rewrite (exec_plain i k x Hpl) in Hx. destruct i; try done; congruence. }
      split; [done|]. unfold ready_byte, holds. cbn [loc]. rewrite (offset_before e pc Hp).
      assert (Ho : offset e (S pc) = None \/ offset e (S pc) = Some 0%nat).
      { unfold offset. destruct (Nat.leb_spec (lock_pc e) (S pc)); [right; f_equal; lia|by left]. }
      by destruct Ho as [-> | ->].
    + replace (S (lock_pc e + j)) with (lock_pc e + S j)%nat in * by lia.
      by apply (critical_instr e j i k x k' x').
    + assert (Hpl : is_plain i = true) by (apply (after_plain e); by apply list_elem_of_lookup_2 in Hi).
      assert (k' = k) as ->.
      { rewrite (exec_plain i k x Hpl) in Hx. destruct i; try done; congruence. }
      replace (lock_pc e + 7 + j)%nat with (lock_pc e + (7 + j))%nat by lia.
      replace (S (lock_pc e + (7 + j))) with (lock_pc e + (8 + j))%nat by lia.
      destruct (offset_far e (7 + j)) as [E1 _]; [lia|]. destruct (offset_far e (8 + j)) as [E2 E3]; [lia|].
      by rewrite E1, E2.
    + done.
  - apply code_cases in Hi as [Hi Hp|j -> Hj Hi|j -> Hi| -> E]; [..|done].
    + apply list_elem_of_lookup_2 in Hi. by apply before_plain in Hi.
    + destruct j as [|[|[|[|[|[|[|j]]]]]]]; cbn in Hi; try discriminate. injection Hi as <-.
      unfold ready_byte, holds. cbn [loc ctx]. rewrite offset_at. destruct (zf (ctx_cpu x)).
      * replace (S (lock_pc e + 3)) with (lock_pc e + 4)%nat by lia. by rewrite offset_at.
      * replace (lock_pc e + 3 - 3)%nat with (lock_pc e + 0)%nat by lia. by rewrite offset_at.
    + apply list_elem_of_lookup_2 in Hi. by apply after_plain in Hi.
  - apply code_cases in Hi as [Hi Hp|j -> Hj Hi|j -> Hi| -> E]; [..|done].
    + apply list_elem_of_lookup_2 in Hi. by apply before_plain in Hi.
    + destruct j as [|[|[|[|[|[|[|j]]]]]]]; cbn in Hi; try discriminate. split; [done|]. split; [done|].
      unfold holds. cbn [loc]. by rewrite offset_at.
    + apply list_elem_of_lookup_2 in Hi. by apply after_plain in Hi.
  - by split.
  - apply code_cases in Hi as [Hi Hp|j -> Hj Hi|j -> Hi| -> E]; [..|done].
    + apply list_elem_of_lookup_2 in Hi. by apply before_plain in Hi.
    + destruct j as [|[|[|[|[|[|[|j]]]]]]]; cbn in Hi; try discriminate.
      replace (S (lock_pc e + 4)) with (lock_pc e + 5)%nat by lia. unfold ready_byte, holds. cbn [loc].
      by rewrite offset_at.
    + apply list_elem_of_lookup_2 in Hi. by apply after_plain in Hi.
  - split; [done|]. split; [done|]. apply code_cases in Hi as [Hi Hp|j -> Hj Hi|j -> Hi| -> E].
    + apply list_elem_of_lookup_2 in Hi. by apply before_plain in Hi.
    + destruct j as [|[|[|[|[|[|[|j]]]]]]]; cbn in Hi; discriminate.
    + apply list_elem_of_lookup_2 in Hi. by apply after_plain in Hi.
    + replace (lock_pc e + 7 + length (after e))%nat with (lock_pc e + (7 + length (after e)))%nat by lia.
      destruct (offset_far e (7 + length (after e))) as [E1 _]; [lia|]. by rewrite E1.
Qed.

(** ** One at a time *)
Fixpoint holders (ts : list thread) : Z :=
  match ts with
  | [] => 0
  | th :: ts' => Z.b2z (holds th) + holders ts'
  end.

Lemma holders_insert ts i th th' : ts !! i = Some th ->
  holders (<[i := th']> ts) = holders ts - Z.b2z (holds th) + Z.b2z (holds th').
Proof.
  revert i. induction ts as [|t ts IH]; intros [|i] H; [done|done| |].
  - injection H as ->. cbn [insert list_insert holders]. lia.
  - change (<[S i := th']> (t :: ts)) with (t :: <[i := th']> ts). cbn [holders]. rewrite (IH i H). lia.
Qed.

Lemma holders_nonneg ts : 0 <= holders ts.
Proof. induction ts as [|t ts IH]; cbn [holders]; [done|]. destruct (holds t); cbn [Z.b2z]; lia. Qed.

Lemma holders_in ts i th : ts !! i = Some th -> holds th = true -> 1 <= holders ts.
Proof.
  revert i. induction ts as [|t ts IH]; intros [|i] H Hh; [done|done| |]; cbn [holders].
  - injection H as ->. rewrite Hh. pose proof (holders_nonneg ts). cbn [Z.b2z]. lia.
  - specialize (IH i H Hh). destruct (holds t); cbn [Z.b2z]; lia.
Qed.

Lemma holders_one ts i j th th' : ts !! i = Some th -> ts !! j = Some th' -> holds th = true -> holds th' = true ->
  holders ts <= 1 -> i = j.
Proof.
  intros Hi Hj Hh Hh' H1. destruct (decide (i = j)) as [|Hn]; [done|]. exfalso.
  set (idle := Thread (Sandbox 0) (ctx th)).
  assert (H : 1 <= holders (<[i := idle]> ts)).
  { apply (holders_in _ j th'); [by rewrite list_lookup_insert_ne|done]. }
  rewrite (holders_insert ts i th idle Hi), Hh in H. cbn in H. lia.
Qed.

Definition lock_ok (c : system) : Prop :=
  0 <= locked c <= 1 /\ holders (threads c) = locked c /\ forall th, th ∈ threads c -> ready_byte th.

Lemma step_lock c lab c' : step c lab c' -> lock_ok c -> lock_ok c'.
Proof.
  intros [i ts th th' k k' s s' lab' Hi Ht] (Hk & Hn & Hb). cbn [locked threads] in *.
  destruct (thread_step_lock _ _ _ _ _ _ _ Ht Hk) as (Hk' & Hb' & Hd).
  { apply Hb. by apply list_elem_of_lookup_2 in Hi. }
  { intros Hh. pose proof (holders_in ts i th Hi Hh). lia. }
  split; [done|]. cbn [locked threads]. split.
  - rewrite (holders_insert ts i th th' Hi). lia.
  - intros t Ht'. apply list_elem_of_lookup in Ht' as [j Hj]. destruct (decide (i = j)) as [<-|Hij].
    + rewrite list_lookup_insert_eq in Hj by (by apply lookup_lt_Some in Hi). by injection Hj as <-.
    + rewrite list_lookup_insert_ne in Hj by done. apply Hb. by apply list_elem_of_lookup_2 in Hj.
Qed.

(** ** Whole calls *)
Definition in_call (c : system) (i : nat) (e : entry_point) (args : reg -> Z) (l : local) : Prop :=
  exists x, threads c !! i = Some (Thread (InC e args l) x).

(** The runtime is as the calls of [log] left it, but for what the call in
    progress, if there is one, has done. *)
Definition between_calls (s0 : shared) (log : list (entry_point * (reg -> Z) * Z)) (c : system) : Prop :=
  exists s, serial s0 log s /\
    (forall i e args l, in_call c i e args l -> inside (enter e args) s l (state c)) /\
    ((forall i e args l, ~ in_call c i e args l) -> state c = s).

Lemma in_call_holds c i e args l : in_call c i e args l ->
  exists th, threads c !! i = Some th /\ holds th = true.
Proof. intros [x H]. by eexists. Qed.

Lemma in_call_one c i j e e' args args' l l' : lock_ok c -> in_call c i e args l -> in_call c j e' args' l' -> i = j.
Proof.
  intros (Hk & Hn & _) H H'. apply in_call_holds in H as (th & Hi & Hh). apply in_call_holds in H' as (th' & Hj & Hh').
  apply (holders_one (threads c) i j th th'); [done..|lia].
Qed.

(** A step of a thread that is in no call, before or after. *)
Lemma outside_step ts i th th' k k' s s0 log : ts !! i = Some th ->
  (forall e args l x, th <> Thread (InC e args l) x) -> (forall e args l x, th' <> Thread (InC e args l) x) ->
  between_calls s0 log (System ts k s) -> between_calls s0 log (System (<[i := th']> ts) k' s).
Proof.
  intros Hi Hth Hth' (sa & Hs & Hin & Hno). cbn [state] in *. exists sa. split; [done|].
  assert (Hsame : forall j e args l, in_call (System (<[i := th']> ts) k' s) j e args l <-> in_call (System ts k s) j e args l).
  { intros j e args l. unfold in_call. cbn [threads]. destruct (decide (i = j)) as [<-|Hij].
    - rewrite list_lookup_insert_eq by (by apply lookup_lt_Some in Hi). split; intros [x [= E]]; exfalso.
      + by apply (Hth' e args l x).
      + apply (Hth e args l x). congruence.
    - by rewrite list_lookup_insert_ne. }
  cbn [state]. split.
  - intros j e args l H. apply Hsame in H. by apply (Hin j).
  - intros H. apply Hno. intros j e args l Hj. apply (H j e args l). by apply Hsame.
Qed.

Lemma callq_holds e pc x : runtime_code e !! pc = Some callq -> holds (Thread (Runtime e pc) x) = true.
Proof.
  intros Hi. apply code_cases in Hi as [Hi Hp|j -> Hj Hi|j -> Hi| -> E]; [..|done].
  - apply list_elem_of_lookup_2 in Hi. by apply before_plain in Hi.
  - destruct j as [|[|[|[|[|[|[|j]]]]]]]; cbn in Hi; try discriminate. unfold holds. cbn [loc]. by rewrite offset_at.
  - apply list_elem_of_lookup_2 in Hi. by apply after_plain in Hi.
Qed.

(** A thread that has the lock is the only one that can be in a call. *)
Lemma in_call_holder ts k s i th j e args l : lock_ok (System ts k s) -> ts !! i = Some th -> holds th = true ->
  in_call (System ts k s) j e args l -> j = i.
Proof.
  intros (Hk & Hn & _) Hi Hh H. apply in_call_holds in H as (th' & Hj & Hh'). cbn in *.
  apply (holders_one ts j i th' th); [done..|lia].
Qed.

Lemma in_call_insert ts k s i th j e args l : (i < length ts)%nat -> in_call (System (<[i := th]> ts) k s) j e args l ->
  (j = i /\ exists x, th = Thread (InC e args l) x) \/ (j <> i /\ in_call (System ts k s) j e args l).
Proof.
  intros Hi [x H]. cbn [threads] in H. destruct (decide (i = j)) as [<-|Hij].
  - rewrite list_lookup_insert_eq in H by done. injection H as ->. left. by eauto.
  - rewrite list_lookup_insert_ne in H by done. right. split; [done|]. by exists x.
Qed.

Lemma call_step c lab c' s0 log : step c lab c' -> lock_ok c -> between_calls s0 log c ->
  between_calls s0 (log ++ option_list lab) c'.
Proof.
  intros [i ts th th' k k' s s' lab' Hi Ht] Hl B. pose proof (lookup_lt_Some _ _ _ Hi) as Hlt.
  destruct Ht as [rip x l x' k s Hls Hmem|b pc ins x k x' s Hc Hx|b pc e x k s Hc|e pc ins x k k' x' s Hc Hx|e pc back x k s Hc|
    e pc x k s Hc|e args l l' x k s s' Ha Hc|e args l rv x x' pc k s Ha Hr Hc|e pc off x k s Hc];
    cbn [option_list]; rewrite ?app_nil_r.
  - apply (outside_step ts i _ _ k k s s0 log Hi); [done| |done]. intros e args l' y E. injection E as E _.
    rewrite E in Hls. done.
  - by apply (outside_step ts i _ _ k k s s0 log Hi).
  - by apply (outside_step ts i _ _ k k s s0 log Hi).
  - by apply (outside_step ts i _ _ k k' s s0 log Hi).
  - by apply (outside_step ts i _ _ k k s s0 log Hi).
  - destruct B as (sa & Hs & _ & Hno). assert (s = sa) as ->.
    { apply Hno. intros j e' args' l' H. pose proof H as [y Hy]. apply (in_call_holder _ _ _ _ _ _ _ _ _ Hl Hi) in H;
        [|by apply callq_holds]. subst. cbn in Hy. congruence. }
    exists sa. split; [done|]. cbn [state]. split; [|intros H; exfalso].
    + intros j e' args' l' H. apply in_call_insert in H as [(-> & y & E)|[Hj H]]; [| |done].
      * injection E as <- <- <- _. constructor.
      * exfalso. apply Hj. apply (in_call_holder _ _ _ _ _ _ _ _ _ Hl Hi) in H; [done|by apply callq_holds].
    + eapply (H i). exists x. cbn. by rewrite list_lookup_insert_eq.
  - destruct B as (sa & Hs & Hin & Hno). exists sa. split; [done|]. cbn [state] in *. split; [|intros H; exfalso].
    + intros j e' args' l0 H. apply in_call_insert in H as [(-> & y & E)|[Hj H]]; [| |done].
      * injection E as <- <- <- _. apply (inside_step _ _ l s); [|done|done]. apply (Hin i). by exists x.
      * exfalso. apply Hj. by apply (in_call_holder _ _ _ _ _ _ _ _ _ Hl Hi) in H.
    + eapply (H i). exists x. cbn. by rewrite list_lookup_insert_eq.
  - destruct B as (sa & Hs & Hin & Hno). exists s. split; [|split].
    + apply (serial_call s0 log sa e args rv l s Hs); [|done]. apply (Hin i). by exists x.
    + intros j e' args' l0 H. apply in_call_insert in H as [(-> & y & E)|[Hj H]]; [done| |done].
      exfalso. apply Hj. by apply (in_call_holder _ _ _ _ _ _ _ _ _ Hl Hi) in H.
    + done.
  - by apply (outside_step ts i _ _ k k s s0 log Hi).
Qed.

(** Threads in the sandbox, and the lock free. *)
Definition at_rest (c : system) : Prop := locked c = 0 /\ forall th, th ∈ threads c -> exists rip, loc th = Sandbox rip.

Lemma at_rest_ok c : at_rest c -> lock_ok c /\ between_calls (state c) [] c.
Proof.
  intros [Hk Ht]. split.
  - split; [by rewrite Hk|]. rewrite Hk. split.
    + induction (threads c) as [|th ts IH]; [done|]. cbn [holders]. rewrite IH.
      * destruct (Ht th (list_elem_of_here _ _)) as [rip E]. unfold holds. by rewrite E.
      * intros t H. apply Ht. by apply list_elem_of_further.
    + intros th H. destruct (Ht th H) as [rip E]. unfold ready_byte. by rewrite E.
  - exists (state c). split; [constructor|]. split; [|done]. intros i e args l [x H].
    apply list_elem_of_lookup_2 in H. by destruct (Ht _ H).
Qed.

Lemma runs_ok c log c' : at_rest c -> runs c log c' -> lock_ok c' /\ between_calls (state c) log c'.
Proof.
  intros H0 H. induction H as [|log c1 lab c2 H IH Hs]; [by apply at_rest_ok|]. destruct IH as [Hl B].
  split; [by apply (step_lock c1 lab)|]. by apply (call_step c1).
Qed.

End exclusion.

(** ** A thread by itself

    The steps of one thread, with the lock and the state of the runtime that it
    sees. *)

Lemma exec_mem_ok i k x : mem_ok (tcb x) -> mem_ok (tcb (exec i k x).2).
Proof. intros H. destruct x as [c t s]. destruct i; cbn [exec snd tcb] in *; try exact H; by apply write_le_ok. Qed.

Definition straight (i : instr) : bool :=
  match i with callq | jnz _ | jmpq_gs _ | jmpq_fs _ => false | _ => true end.

Definition stub_body (b : stub) : list instr := take (length (stub_code b) - 1) (stub_code b).
Definition stub_target (b : stub) : entry_point :=
  match b with
  | __patch_call => runtime_patch_call
  | __patch_at => runtime_patch_at
  | __patch_entry => runtime_patch_entry
  | TRAMP_CALL e _ => e
  end.

Lemma stub_code_split b : stub_code b = stub_body b ++ [jmpq_gs (stub_target b)].
Proof. by destruct b. Qed.

Lemma stub_body_plain b i : i ∈ stub_body b -> is_plain i = true.
Proof.
  assert (H : forallb is_plain (stub_body b) = true) by (by destruct b).
  intros Hi. rewrite forallb_forall in H. apply H. by apply list_elem_of_In.
Qed.

Lemma callq_at e : runtime_code e !! (lock_pc e + 4)%nat = Some callq.
Proof.
  rewrite runtime_code_split, lookup_app_r by (unfold lock_pc; lia). unfold lock_pc.
  by replace (length (before e) + 4 - length (before e))%nat with 4%nat by lia.
Qed.

Section alone.
Context `{C : CCode}.

Record view : Type := View { vthread : thread; vlock : Z; vstate : shared }.

Definition moves (p q : view) : Prop :=
  exists lab, thread_step (vthread p) (vlock p) (vstate p) lab (vthread q) (vlock q) (vstate q).

Definition view_mem_ok (p : view) : Prop := mem_ok (tcb (ctx (vthread p))).

Lemma move_instr e pc i x k s : runtime_code e !! pc = Some i -> straight i = true ->
  moves (View (Thread (Runtime e pc) x) k s) (View (Thread (Runtime e (S pc)) (exec i k x).2) (exec i k x).1 s).
Proof.
  intros Hi Hs. exists None. apply (step_instr e pc i); [done|]. destruct i; try done; apply surjective_pairing.
Qed.

Lemma move_stub b pc i x k s : stub_code b !! pc = Some i -> is_plain i = true ->
  moves (View (Thread (Stub b pc) x) k s) (View (Thread (Stub b (S pc)) (exec i 0 x).2) k s).
Proof.
  intros Hi Hp. exists None. apply (step_stub b pc i); [done|]. pose proof (exec_plain i k x Hp). by destruct i.
Qed.

(** Steps of one thread are a run of the system. *)
Lemma runs_trans c l1 c1 l2 c2 : runs c l1 c1 -> runs c1 l2 c2 -> runs c (l1 ++ l2) c2.
Proof.
  intros H1 H2. induction H2 as [|l2 c2 lab c3 _ IH Hs]; [by rewrite app_nil_r|].
  rewrite app_assoc. by apply (runs_step _ _ c2).
Qed.

Lemma alone_runs p q : rtc moves p q -> forall ts i, ts !! i = Some (vthread p) ->
  exists log, runs (System ts (vlock p) (vstate p)) log (System (<[i := vthread q]> ts) (vlock q) (vstate q)).
Proof.
  intros H. induction H as [p|p p1 q [lab Hm] _ IH]; intros ts i Hi.
  - exists []. rewrite list_insert_id by done. constructor.
  - destruct (IH (<[i := vthread p1]> ts) i) as [log Hl]; [rewrite list_lookup_insert_eq; [done|by apply lookup_lt_Some in Hi]|].
    rewrite list_insert_insert_eq in Hl. exists (option_list lab ++ log).
    apply (runs_trans _ _ (System (<[i := vthread p1]> ts) (vlock p1) (vstate p1)) _ _); [|exact Hl]. apply (runs_step _ [] (System ts (vlock p) (vstate p)) lab); [constructor|].
    by apply (step_thread i ts (vthread p)).
Qed.
End alone.

(** ** A small system: the C code adds its argument to a counter *)
#[local] Instance counter : CCode := {|
  shared := Z;
  local := Z * bool;
  enter _ args := (args RDI, false);
  cstep l s l' s' := l = (l.1, false) /\ l' = (l.1, true) /\ s' = s + l.1;
  answer l := if l.2 then Some l.1 else None;
  ended _ := false;
|}.

(** The C code as a function, where it is one. *)
Class CRun (C : CCode) : Type := {
  crun : local -> shared -> option (local * shared);
  crun_ok l s l' s' : crun l s = Some (l', s') -> answer l = None /\ cstep l s l' s';
}.

#[local] Instance counter_run : CRun counter.
Proof.
  refine {| crun l s := if l.2 then None else Some ((l.1, true), s + l.1) |}.
  intros [v [|]] s l' s' H; [discriminate|]. by injection H as <- <-.
Defined.

Section alone.
Context {C : CCode} {R : CRun C}.

(** A thread out of the sandbox steps in one way. *)
Definition advance (p : view) : option view :=
  let '(View (Thread l x) k s) := p in
  match l with
  | Sandbox _ => None
  | Stub b pc =>
    match stub_code b !! pc with
    | Some (jmpq_gs e) => Some (View (Thread (Runtime e 0) x) k s)
    | Some i => Some (View (Thread (Stub b (S pc)) (exec i 0 x).2) k s)
    | None => None
    end
  | Runtime e pc =>
    match runtime_code e !! pc with
    | Some callq => Some (View (Thread (InC e (gpr (ctx_cpu x)) (enter e (gpr (ctx_cpu x)))) x) k s)
    | Some (jnz back) => Some (View (Thread (Runtime e (if zf (ctx_cpu x) then S pc else pc - back)) x) k s)
    | Some (jmpq_fs off) => Some (View (Thread (Sandbox (read_le 8 (tcb x) off)) x) k s)
    | Some (jmpq_gs _) | None => None
    | Some i => Some (View (Thread (Runtime e (S pc)) (exec i k x).2) (exec i k x).1 s)
    end
  | InC e args l =>
    match answer l with
    | Some rv =>
      Some (View (Thread (Runtime e (S (lock_pc e + 4))) (Context_ (set_gpr (ctx_cpu x) RAX rv) (tcb x) (stack x))) k s)
    | None =>
      match crun l s with Some (l', s') => Some (View (Thread (InC e args l') x) k s') | None => None end
    end
  end.

Fixpoint advances (n : nat) (p : view) : option view :=
  match n with
  | O => Some p
  | S n' => match advance p with Some q => advances n' q | None => None end
  end.

Lemma advance_ok p q : view_mem_ok p -> advance p = Some q ->
  (forall rip, loc (vthread p) <> Sandbox rip) /\ moves p q /\ view_mem_ok q.
Proof.
  destruct p as [[l x] k s]. unfold view_mem_ok. cbn [vthread ctx loc]. intros Hok H. unfold advance in H.
  destruct l as [rip|b pc|e pc|e args l]; [done| | |]; (split; [done|]).
  - destruct (stub_code b !! pc) as [i|] eqn:Hi; [|done]. pose proof Hi as Hj. rewrite stub_code_split in Hj.
    apply lookup_app_Some in Hj as [Hj|[_ Hj]].
    + apply list_elem_of_lookup_2, stub_body_plain in Hj.
      assert (q = View (Thread (Stub b (S pc)) (exec i 0 x).2) k s) as -> by (destruct i; try discriminate; by injection H as <-).
      split; [by apply move_stub|by apply exec_mem_ok].
    + apply list_lookup_singleton_Some in Hj as [_ <-]. injection H as <-. split; [|done]. exists None. by apply step_jump.
  - destruct (runtime_code e !! pc) as [i|] eqn:Hi; [|done]. destruct (straight i) eqn:Hst.
    + assert (q = View (Thread (Runtime e (S pc)) (exec i k x).2) (exec i k x).1 s) as -> by (destruct i; try discriminate; by injection H as <-).
      split; [by apply move_instr|by apply exec_mem_ok].
    + destruct i; try done; injection H as <-; (split; [|done]); exists None; [by apply step_jnz|exact (step_callq e pc x k s Hi)|by apply step_exit].
  - destruct (answer l) as [rv|] eqn:Ea.
    + injection H as <-. split; [|done]. exists (Some (e, args, rv)). apply step_ret with (rv := rv); [done| |apply callq_at].
      split; [done|]. split; [|done]. intros r Hr. cbn. by destruct r.
    + destruct (crun l s) as [[l' s']|] eqn:Ec; [|done]. injection H as <-. split; [|done]. exists None.
      apply step_c; [done|]. by apply (crun_ok l s l' s').
Qed.

Lemma advances_ok n : forall p q, view_mem_ok p -> advances n p = Some q -> rtc moves p q.
Proof.
  induction n as [|n IH]; intros p q Hok H; cbn in H; [by injection H as <-|].
  destruct (advance p) as [p1|] eqn:E; [|done]. destruct (advance_ok p p1 Hok E) as (_ & Hm & Hok').
  apply (rtc_l _ _ p1); [done|]. by apply IH.
Qed.

(** As far as a thread gets in [n] steps. *)
Definition after_steps (n : nat) (p : view) : view := default p (advances n p).

Lemma after_steps_ok n p : view_mem_ok p -> rtc moves p (after_steps n p).
Proof.
  intros Hok. unfold after_steps. destruct (advances n p) as [q|] eqn:E; [|done]. by apply (advances_ok n).
Qed.
End alone.

(** A thread that leaves the sandbox with the context [x] at the lock; the
    bytes of its stack and of its registers do not matter. *)
Definition small_context : context :=
  Context_ (Cpu (fun r => if decide (r = RSP) then 0x7000 else 0x1234) (fun k => (k mod 256, 1)) 0x1f80 0x37f false)
    (fun a => 0) (fun a => 0).
