(* ===== verification/EntryTheorems.v ===== *)
(** * The runtime as one object that many threads call

    Every run of the threads is, on the state of the runtime, one whole call
    after another; and no run is stuck: when every C function returns or ends
    the program, the calls under way can be brought back to the sandbox or to
    that end.  The C code is given by [CCode]; [runtime_calls] is its instance
    for the functions of [runtime.c] whose models need no answer of the kernel. *)

From S2P Require Import Prelude Dict Graph Module Table Pager Runtime Threads Patch Start Entry EntryFacts.

(** ** A thread that has the lock, or finds it free, comes back *)
Lemma runtime_last e : runtime_code e !! (length (runtime_code e) - 1)%nat = Some (jmpq_fs CONTINUATION).
Proof. unfold runtime_code, after, before. by destruct (online_patched e). Qed.

Lemma runtime_length e : length (runtime_code e) = (lock_pc e + 8 + length (after e))%nat.
Proof.
  rewrite runtime_code_split, !length_app. unfold lock_pc. change (length critical) with 7%nat.
  cbn [length]. lia.
Qed.

Lemma next_in_code e pc i : runtime_code e !! pc = Some i -> (forall off, i <> jmpq_fs off) ->
  (S pc < length (runtime_code e))%nat.
Proof.
  intros Hi Hn. pose proof (lookup_lt_Some _ _ _ Hi). destruct (decide (S pc = length (runtime_code e))) as [E|]; [|lia].
  pose proof (runtime_last e) as Hl. rewrite <- E in Hl. replace (S pc - 1)%nat with pc in Hl by lia.
  rewrite Hi in Hl. injection Hl as ->. by destruct (Hn CONTINUATION).
Qed.

Lemma critical_at e j : (j < 7)%nat -> runtime_code e !! (lock_pc e + j)%nat = critical !! j.
Proof.
  intros Hj. rewrite runtime_code_split, lookup_app_r by (unfold lock_pc; lia). unfold lock_pc.
  replace (length (before e) + j - length (before e))%nat with j by lia. by rewrite lookup_app_l.
Qed.

Definition straight_at (e : entry_point) (pc : nat) : Prop := exists i, runtime_code e !! pc = Some i /\ straight i = true.

Lemma plain_straight i : is_plain i = true -> straight i = true.
Proof. by destruct i. Qed.

Lemma straight_before e pc : (pc < lock_pc e)%nat -> straight_at e pc.
Proof.
  intros Hp. destruct (lookup_lt_is_Some_2 (before e) pc Hp) as [i Hi]. exists i. split.
  - unfold runtime_code. by rewrite lookup_app_l.
  - by eapply plain_straight, before_plain, list_elem_of_lookup_2.
Qed.

Lemma straight_after e pc : (lock_pc e + 5 <= pc)%nat -> (S pc < length (runtime_code e))%nat -> straight_at e pc.
Proof.
  intros Hp Hl. rewrite runtime_length in Hl. destruct (decide (pc < lock_pc e + 7)%nat) as [Hc|Hc].
  - assert (pc = lock_pc e + 5 \/ pc = lock_pc e + 6)%nat as [-> | ->] by lia; eexists; (rewrite critical_at by lia); by split.
  - assert (Hk : (pc - lock_pc e - 7 < length (after e))%nat) by lia.
    destruct (lookup_lt_is_Some_2 (after e) _ Hk) as [i Hi]. exists i. split.
    + rewrite runtime_code_split, lookup_app_r by (unfold lock_pc in *; lia). fold (lock_pc e).
      rewrite lookup_app_r by (change (length critical) with 7%nat; lia). change (length critical) with 7%nat.
      by rewrite lookup_app_l.
    + by eapply plain_straight, after_plain, list_elem_of_lookup_2.
Qed.

Section home.
Context `{C : CCode}.

(** No other thread has the lock. *)
Definition lone (p : view) : Prop := ready_byte (vthread p) /\ vlock p = Z.b2z (holds (vthread p)).

Lemma lone_moves p q : moves p q -> lone p -> lone q.
Proof.
  intros [lab H] [Hb Hk]. destruct (thread_step_lock _ _ _ _ _ _ _ H) as (_ & Hb' & Hd); [|done| |].
  - rewrite Hk. by destruct (holds _).
  - intros Hh. by rewrite Hk, Hh.
  - split; [done|lia].
Qed.

Lemma lone_rtc p q : rtc moves p q -> lone p -> lone q.
Proof. induction 1 as [|p p1 q H _ IH]; [done|]. intros Hl. apply IH. by apply (lone_moves p). Qed.

(** The thread is in the sandbox, or its call has ended the program. *)
Definition stopped (th : thread) : Prop :=
  match loc th with Sandbox _ => True | InC _ _ l => ended l = true | _ => False end.

Definition comes_back (p : view) : Prop := exists q, rtc moves p q /\ stopped (vthread q).

Lemma back_after p q : rtc moves p q -> comes_back q -> comes_back p.
Proof. intros H (v & Hv & Hs). exists v. split; [by transitivity q|done]. Qed.

Lemma back_next p q : moves p q -> comes_back q -> comes_back p.
Proof. intros H. apply back_after. by apply rtc_once. Qed.

Lemma straight_line e n : forall pc x k s, mem_ok (tcb x) -> (forall j, (pc <= j < pc + n)%nat -> straight_at e j) ->
  exists x' k', rtc moves (View (Thread (Runtime e pc) x) k s) (View (Thread (Runtime e (pc + n)) x') k' s) /\ mem_ok (tcb x').
Proof.
  induction n as [|n IH]; intros pc x k s Hm H.
  - exists x, k. rewrite Nat.add_0_r. by split.
  - destruct (H pc) as (i & Hi & Hs); [lia|].
    destruct (IH (S pc) (exec i k x).2 (exec i k x).1 s) as (x' & k' & Hr & Hm').
    + by apply exec_mem_ok.
    + intros j Hj. apply H. lia.
    + exists x', k'. split; [|done]. apply (rtc_l _ _ _ _ (move_instr e pc i x k s Hi Hs)).
      by replace (pc + S n)%nat with (S pc + n)%nat by lia.
Qed.

Lemma back_released e pc x k s : mem_ok (tcb x) -> (lock_pc e + 5 <= pc)%nat -> (pc < length (runtime_code e))%nat ->
  comes_back (View (Thread (Runtime e pc) x) k s).
Proof.
  intros Hm Hp Hl. destruct (straight_line e (length (runtime_code e) - 1 - pc) pc x k s Hm) as (x' & k' & Hr & _).
  - intros j Hj. apply straight_after; lia.
  - apply (back_after _ _ Hr). replace (pc + _)%nat with (length (runtime_code e) - 1)%nat by lia.
    eexists (View (Thread (Sandbox (read_le 8 (tcb x') CONTINUATION)) x') k' s). split; [|done].
    apply rtc_once. exists None. apply step_exit. apply runtime_last.
Qed.

(** From a good state every call returns or ends the program. *)
Definition calls_end (good : shared -> Prop) : Prop := forall e args s l s', good s -> inside (enter e args) s l s' ->
  exists l' s'', inside l s' l' s'' /\ (is_Some (answer l') \/ ended l' = true).

Lemma inside_moves e args l s l' s' x k : inside l s l' s' ->
  rtc moves (View (Thread (InC e args l) x) k s) (View (Thread (InC e args l') x) k s').
Proof.
  induction 1 as [|l s l1 s1 l2 s2 _ IH Ha Hc]; [done|]. apply (rtc_r _ _ _ IH). exists None. by apply step_c.
Qed.

Lemma back_in_c e args l x k s l' s' : mem_ok (tcb x) -> inside l s l' s' -> is_Some (answer l') \/ ended l' = true ->
  comes_back (View (Thread (InC e args l) x) k s).
Proof.
  intros Hm Hin Ha. apply (back_after _ _ (inside_moves e args l s l' s' x k Hin)). destruct Ha as [[rv Ha]|He].
  2: by exists (View (Thread (InC e args l') x) k s').
  apply (back_next _ (View (Thread (Runtime e (S (lock_pc e + 4))) (Context_ (set_gpr (ctx_cpu x) RAX rv) (tcb x) (stack x))) k s')).
  - exists (Some (e, args, rv)). apply step_ret with (rv := rv); [done| |apply callq_at].
    split; [done|]. split; [|done]. intros r Hr. cbn. by destruct r.
  - apply back_released; [done|lia|]. rewrite runtime_length. lia.
Qed.

Context (good : shared -> Prop).
Hypothesis Hc : calls_end good.

Lemma back_call e x k s : good s -> mem_ok (tcb x) -> comes_back (View (Thread (Runtime e (lock_pc e + 4)) x) k s).
Proof using Hc.
  intros Hg Hm. destruct (Hc e (gpr (ctx_cpu x)) s (enter e (gpr (ctx_cpu x))) s Hg) as (l & s' & Hin & Ha); [constructor|].
  apply (back_next _ (View (Thread (InC e (gpr (ctx_cpu x)) (enter e (gpr (ctx_cpu x)))) x) k s)).
  - exists None. exact (step_callq e _ x k s (callq_at e)).
  - by apply (back_in_c e _ _ x k s l s').
Qed.

(** The instruction at [j] past the lock. *)
Lemma move_critical e j i x k s : critical !! j = Some i -> straight i = true ->
  moves (View (Thread (Runtime e (lock_pc e + j)) x) k s)
    (View (Thread (Runtime e (lock_pc e + S j)) (exec i k x).2) (exec i k x).1 s).
Proof.
  intros Hi Hs. replace (lock_pc e + S j)%nat with (S (lock_pc e + j)) by lia. apply move_instr; [|done].
  rewrite critical_at; [done|]. by apply lookup_lt_Some in Hi.
Qed.

Lemma move_jnz e x k s :
  moves (View (Thread (Runtime e (lock_pc e + 3)) x) k s)
    (View (Thread (Runtime e (if zf (ctx_cpu x) then lock_pc e + 4 else lock_pc e)%nat) x) k s).
Proof.
  exists None. pose proof (step_jnz e (lock_pc e + 3) 3 x k s) as H. rewrite critical_at in H by lia. specialize (H eq_refl).
  replace (S (lock_pc e + 3)) with (lock_pc e + 4)%nat in H by lia. by rewrite Nat.add_sub in H.
Qed.

Lemma back_jnz e x k s : good s -> mem_ok (tcb x) -> zf (ctx_cpu x) = true ->
  comes_back (View (Thread (Runtime e (lock_pc e + 3)) x) k s).
Proof.
  intros Hg Hm Hz. apply (back_next _ _ (move_jnz e x k s)). rewrite Hz. by apply back_call.
Qed.

Lemma back_test e x k s : good s -> mem_ok (tcb x) -> low x = 0 -> comes_back (View (Thread (Runtime e (lock_pc e + 2)) x) k s).
Proof.
  intros Hg Hm Hlow. apply (back_next _ _ (move_critical e 2 (testb R11) x k s eq_refl eq_refl)).
  apply back_jnz; [done|by apply exec_mem_ok|]. destruct x as [c t st]. unfold low in Hlow. cbn in *. by rewrite Hlow.
Qed.

Lemma back_exchange e x s : good s -> mem_ok (tcb x) -> comes_back (View (Thread (Runtime e (lock_pc e + 1)) x) 0 s).
Proof.
  intros Hg Hm. apply (back_next _ _ (move_critical e 1 (xchgb R11) x 0 s eq_refl eq_refl)).
  apply back_test; [done|by apply exec_mem_ok|]. destruct x as [c t st]. unfold low. cbn. by apply low_set.
Qed.

Lemma back_lock e x s : good s -> mem_ok (tcb x) -> comes_back (View (Thread (Runtime e (lock_pc e)) x) 0 s).
Proof.
  intros Hg Hm. replace (lock_pc e) with (lock_pc e + 0)%nat by lia.
  apply (back_next _ _ (move_critical e 0 (movb 1 R11) x 0 s eq_refl eq_refl)). cbn [fst exec].
  destruct x as [c t st]. by apply back_exchange.
Qed.

(** The lock was not free when the thread last looked, and now it is. *)
Lemma back_again e x s : good s -> mem_ok (tcb x) -> zf (ctx_cpu x) = false ->
  comes_back (View (Thread (Runtime e (lock_pc e + 3)) x) 0 s).
Proof.
  intros Hg Hm Hz. apply (back_next _ _ (move_jnz e x 0 s)). rewrite Hz. by apply back_lock.
Qed.

Lemma back_approach e pc x k s : good s -> mem_ok (tcb x) -> (pc <= lock_pc e)%nat ->
  lone (View (Thread (Runtime e pc) x) k s) -> comes_back (View (Thread (Runtime e pc) x) k s).
Proof.
  intros Hg Hm Hp Hl. destruct (straight_line e (lock_pc e - pc) pc x k s Hm) as (x' & k' & Hr & Hm').
  - intros j Hj. apply straight_before. lia.
  - apply (back_after _ _ Hr). destruct (lone_rtc _ _ Hr Hl) as [_ Hk]. cbn [vlock vthread] in Hk.
    replace (pc + (lock_pc e - pc))%nat with (lock_pc e + 0)%nat in * by lia.
    unfold holds in Hk. cbn [loc] in Hk. rewrite offset_at in Hk. cbn in Hk. subst k'. rewrite Nat.add_0_r. by apply back_lock.
Qed.

Lemma back_runtime e pc x k s : good s -> mem_ok (tcb x) -> (pc < length (runtime_code e))%nat ->
  lone (View (Thread (Runtime e pc) x) k s) -> comes_back (View (Thread (Runtime e pc) x) k s).
Proof.
  intros Hg Hm Hp Hl. destruct (decide (pc <= lock_pc e)%nat) as [H1|H1]; [by apply back_approach|].
  destruct (decide (lock_pc e + 5 <= pc)%nat) as [H2|H2]; [by apply back_released|].
  destruct Hl as [_ Hk]. unfold holds in Hk. cbn [vlock vthread loc ctx] in Hk.
  assert (pc = lock_pc e + 1 \/ pc = lock_pc e + 2 \/ pc = lock_pc e + 3 \/ pc = lock_pc e + 4)%nat
    as [-> |[-> |[-> | ->]]] by lia; rewrite offset_at in Hk; cbn in Hk.
  - subst k. by apply back_exchange.
  - destruct (Z.eqb_spec (low x) 0) as [E|E]; [by apply back_test|]. cbn in Hk. subst k.
    apply (back_next _ _ (move_critical e 2 (testb R11) x 0 s eq_refl eq_refl)). destruct x as [c t st].
    apply back_again; [done|done|]. cbn. by apply Z.eqb_neq.
  - destruct (zf (ctx_cpu x)) eqn:Hz; [by apply back_jnz|]. cbn in Hk. subst k. by apply back_again.
  - by apply back_call.
Qed.

(** A thread is inside its code. *)
Definition placed (th : thread) : Prop :=
  match loc th with
  | Stub b pc => (pc < length (stub_code b))%nat
  | Runtime e pc => (pc < length (runtime_code e))%nat
  | _ => True
  end.

Lemma back_stub b : forall n pc x k s, good s -> mem_ok (tcb x) -> (pc + n = length (stub_body b))%nat ->
  lone (View (Thread (Stub b pc) x) k s) -> comes_back (View (Thread (Stub b pc) x) k s).
Proof.
  induction n as [|n IH]; intros pc x k s Hg Hm Hn Hl.
  - assert (Hj : moves (View (Thread (Stub b pc) x) k s) (View (Thread (Runtime (stub_target b) 0) x) k s)).
    { exists None. apply step_jump. rewrite stub_code_split, lookup_app_r by lia.
      by replace (pc - length (stub_body b))%nat with 0%nat by lia. }
    apply (back_next _ _ Hj). apply back_runtime; [done|done|rewrite runtime_length; lia|by apply (lone_moves _ _ Hj)].
  - assert (Hp : (pc < length (stub_body b))%nat) by lia. destruct (lookup_lt_is_Some_2 _ _ Hp) as [i Hi].
    assert (Hj : moves (View (Thread (Stub b pc) x) k s) (View (Thread (Stub b (S pc)) (exec i 0 x).2) k s)).
    { apply move_stub; [by rewrite stub_code_split, lookup_app_l|]. by eapply stub_body_plain, list_elem_of_lookup_2. }
    apply (back_next _ _ Hj). apply IH; [done|by apply exec_mem_ok|lia|by apply (lone_moves _ _ Hj)].
Qed.

(** What the C functions have done so far is part of a call. *)
Definition in_a_call (p : view) : Prop :=
  match loc (vthread p) with
  | InC e args l => exists s, good s /\ inside (enter e args) s l (vstate p)
  | _ => good (vstate p)
  end.

Lemma back_home p : view_mem_ok p -> placed (vthread p) -> in_a_call p -> lone p -> comes_back p.
Proof.
  destruct p as [[l x] k s]. unfold view_mem_ok, placed, in_a_call. cbn [vthread loc ctx vstate].
  intros Hm Hp Hi Hl. destruct l as [rip|b pc|e pc|e args l].
  - by exists (View (Thread (Sandbox rip) x) k s).
  - rewrite stub_code_split, length_app in Hp. cbn [length] in Hp.
    by apply (back_stub b (length (stub_body b) - pc)); [| |lia|].
  - by apply back_runtime.
  - destruct Hi as (s0 & Hg & Hi). destruct (Hc e args s0 l s Hg Hi) as (l' & s' & Hin & Ha).
    by apply (back_in_c e args l x k s l' s').
Qed.
End home.

(** ** The system *)
Section system.
Context `{C : CCode}.

Definition thread_ok (th : thread) : Prop := placed th /\ mem_ok (tcb (ctx th)).

Lemma thread_stays_ok th k s lab th' k' s' : thread_step th k s lab th' k' s' -> thread_ok th -> thread_ok th'.
Proof.
  intros H [_ Hok].
  destruct H as [rip x l x' k s Hl Hm|b pc i x k x' s Hi Hx|b pc e x k s Hi|e pc i x k k' x' s Hi Hx|e pc back x k s Hi|
    e pc x k s Hi|e args l l' x k s s' Ha Hc|e args l rv x x' pc k s Ha Hr Hi|e pc off x k s Hi];
    unfold thread_ok, placed; cbn [loc ctx] in *.
  - split; [|done]. destruct l as [rip'|b pc|e pc|e args l]; [done|cbn in Hl; subst pc; destruct b; cbn; lia|done..].
  - pose proof (lookup_lt_Some _ _ _ Hi) as Hp. split.
    + destruct (decide (S pc = length (stub_code b))) as [E|]; [|lia]. exfalso. rewrite stub_code_split, length_app in E.
      rewrite stub_code_split, lookup_app_r in Hi by (cbn in E; lia). cbn in E.
      replace (pc - length (stub_body b))%nat with 0%nat in Hi by lia. by injection Hi as <-.
    + pose proof (exec_mem_ok i k x Hok). destruct i; try done; by rewrite Hx in *.
  - split; [rewrite runtime_length; lia|done].
  - split; [apply (next_in_code e pc i Hi); intros off ->; done|]. pose proof (exec_mem_ok i k x Hok).
    destruct i; try done; by rewrite Hx in *.
  - split; [|done]. pose proof (lookup_lt_Some _ _ _ Hi). destruct (zf _); [|lia]. by apply (next_in_code e pc _ Hi).
  - by split.
  - by split.
  - destruct Hr as (_ & _ & _ & _ & _ & Hm & _). split; [|done]. by apply (next_in_code e pc _ Hi).
  - by split.
Qed.

Definition sound (s0 : shared) (log : list (entry_point * (reg -> Z) * Z)) (c : system) : Prop :=
  lock_ok c /\ between_calls s0 log c /\ forall i th, threads c !! i = Some th -> thread_ok th.

Lemma sound_step s0 log c lab c' : sound s0 log c -> step c lab c' -> sound s0 (log ++ option_list lab) c'.
Proof.
  intros (Hl & Hb & Ho) H. split; [by apply (step_lock c lab)|]. split; [by apply (call_step c)|].
  destruct H as [i ts th th' k k' s s' lab Hi Ht]. cbn [threads] in *. intros j t Hj.
  destruct (decide (i = j)) as [<-|Hij].
  - rewrite list_lookup_insert_eq in Hj by (by apply lookup_lt_Some in Hi). injection Hj as <-.
    apply (thread_stays_ok _ _ _ _ _ _ _ Ht). by apply (Ho i).
  - rewrite list_lookup_insert_ne in Hj by done. by apply (Ho j).
Qed.

Lemma sound_runs s0 log c log' c' : sound s0 log c -> runs c log' c' -> sound s0 (log ++ log') c'.
Proof.
  intros H. induction 1 as [|log' c1 lab c2 _ IH Hs]; [by rewrite app_nil_r|].
  rewrite app_assoc. by apply (sound_step s0 _ c1).
Qed.

(** What the thread is doing is part of a call from [sa], or there is no call. *)
Lemma call_under_way ts k s i th sa (good : shared -> Prop) : lock_ok (System ts k s) -> ts !! i = Some th ->
  k = Z.b2z (holds th) -> good sa ->
  (forall j e args l, in_call (System ts k s) j e args l -> inside (enter e args) sa l s) ->
  ((forall j e args l, ~ in_call (System ts k s) j e args l) -> s = sa) -> in_a_call good (View th k s).
Proof.
  intros Hl Hi Hk Hg Hin Hno. unfold in_a_call. cbn [vthread vstate].
  assert (Hcall : (exists e args l, loc th = InC e args l) \/ s = sa).
  { destruct th as [[rip|b pc|e pc|e args l] x]; [right..|left; by exists e, args, l];
      (apply Hno; intros j e' args' l' Hj; destruct (in_call_holds _ _ _ _ _ Hj) as (th' & Hj' & Hh');
       cbn [threads] in Hj'; destruct (decide (i = j)) as [<-|Hij];
       [destruct Hj as [y Hj]; cbn [threads] in Hj; congruence|]; apply Hij;
       destruct Hl as (_ & Hn & _); cbn [threads locked] in Hn; pose proof (holders_in ts j th' Hj' Hh'));
      match type of Hk with k = Z.b2z (holds ?t) => destruct (holds t) eqn:E; cbn in Hk;
        [by apply (holders_one ts i j t th'); [..|lia]|lia] end. }
  destruct th as [[rip|b pc|e pc|e args l] x]; cbn [loc] in *.
  1-3: by destruct Hcall as [(? & ? & ? & ?)| ->].
  exists sa. split; [done|]. apply (Hin i). by exists x.
Qed.

Definition home (c : system) (i : nat) : Prop := exists rip x, threads c !! i = Some (Thread (Sandbox rip) x).

(** The C code has ended the program. *)
Definition program_ended (c : system) : Prop := exists i e args l, in_call c i e args l /\ ended l = true.

(** The threads that are in the sandbox are not touched. *)
Definition undisturbed (c c' : system) : Prop := length (threads c') = length (threads c) /\
  forall i rip x, threads c !! i = Some (Thread (Sandbox rip) x) -> threads c' !! i = Some (Thread (Sandbox rip) x).

#[local] Instance undisturbed_preorder : PreOrder undisturbed.
Proof.
  split; [by intros c|]. intros c1 c2 c3 [L1 H1] [L2 H2]. split; [congruence|]. intros i rip x H. by apply H2, H1.
Qed.

Context (s0 : shared).
Hypothesis Hc : calls_end (fun s => exists log, serial s0 log s).

(** What can be reached by the calls under way alone. *)
Definition settles (log : list (entry_point * (reg -> Z) * Z)) (c : system) (goal : system -> Prop) : Prop :=
  exists log' c', runs c log' c' /\ sound s0 (log ++ log') c' /\ undisturbed c c' /\ (goal c' \/ program_ended c').

Lemma settles_now log c (goal : system -> Prop) : sound s0 log c -> goal c -> settles log c goal.
Proof. intros Hs Hg. exists [], c. rewrite app_nil_r. split; [constructor|]. split; [done|]. split; [done|by left]. Qed.

Lemma settles_then log c (g1 g2 : system -> Prop) : settles log c g1 ->
  (forall log' c', sound s0 log' c' -> undisturbed c c' -> g1 c' -> settles log' c' g2) -> settles log c g2.
Proof.
  intros (l1 & c1 & R1 & S1 & U1 & [G1|E1]) H; [|exists l1, c1; auto].
  destruct (H (log ++ l1) c1 S1 U1 G1) as (l2 & c2 & R2 & S2 & U2 & G2). exists (l1 ++ l2), c2.
  split; [by apply (runs_trans _ _ c1)|]. rewrite app_assoc. split; [done|]. split; [by etrans|done].
Qed.

(** A thread goes home, when it has the lock or the lock is free; the others stay. *)
Lemma bring_home log c i th : sound s0 log c -> threads c !! i = Some th -> holds th = true \/ locked c = 0 ->
  settles log c (fun c' => locked c' = 0 /\ home c' i /\ forall j, j <> i -> threads c' !! j = threads c !! j).
Proof using Hc.
  intros Hs Hi Hf.
  assert (Hcase : (exists rip x, th = Thread (Sandbox rip) x) \/ ~ exists rip, loc th = Sandbox rip).
  { destruct th as [[rip|b pc|e pc|e args l] x]; [left; by exists rip, x|right; by intros [? [=]]..]. }
  destruct Hcase as [(rip & x & ->)|Hout].
  { apply settles_now; [done|]. destruct Hf as [Hf|Hf]; [done|]. split; [done|]. split; [by exists rip, x|done]. }
  destruct c as [ts k s]. pose proof Hs as ((Hk & Hn & Hb) & (sa & Hser & Hin & Hno) & Ho). cbn [threads locked state] in *.
  assert (Hkh : k = Z.b2z (holds th)).
  { destruct Hf as [Hf| ->].
    - pose proof (holders_in ts i th Hi Hf). rewrite Hf. cbn. lia.
    - destruct (holds th) eqn:E; [|done]. pose proof (holders_in ts i th Hi E). lia. }
  destruct (back_home _ Hc (View th k s)) as ([th' k' s'] & Hr & Hst).
  - by apply (Ho i).
  - by apply (Ho i).
  - apply (call_under_way ts k s i th sa); [done|done|done|by exists log|done|done].
  - split; [|done]. apply Hb. by apply list_elem_of_lookup_2 in Hi.
  - destruct (alone_runs _ _ Hr ts i Hi) as [log' Hruns]. cbn [vthread vlock vstate] in Hruns, Hst.
    pose proof (sound_runs _ _ _ _ _ Hs Hruns) as Hs'. pose proof (lookup_lt_Some _ _ _ Hi) as Hlt.
    exists log', (System (<[i := th']> ts) k' s'). split; [done|]. split; [done|]. split.
    { split; [apply length_insert|]. cbn [threads]. intros j rip x Hj. destruct (decide (i = j)) as [<-|Hij].
      - exfalso. apply Hout. rewrite Hj in Hi. injection Hi as <-. by exists rip.
      - by rewrite list_lookup_insert_ne. }
    destruct th' as [[rip| | |e args l] x]; cbn [stopped loc] in Hst; try done; [left|right].
    + split; [|split]; cbn [threads locked].
      * destruct Hs' as ((_ & Hn' & _) & _). cbn [threads locked] in Hn'.
        rewrite (holders_insert ts i th _ Hi) in Hn'. cbn in Hn'. lia.
      * exists rip, x. cbn. by rewrite list_lookup_insert_eq.
      * intros j Hj. by rewrite list_lookup_insert_ne.
    + exists i, e, args, l. split; [|done]. exists x. cbn. by rewrite list_lookup_insert_eq.
Qed.

Lemma lock_free log c : sound s0 log c -> settles log c (fun c' => locked c' = 0).
Proof using Hc.
  intros Hs. pose proof Hs as ((Hk & Hn & _) & _). destruct (decide (locked c = 0)) as [E|E]; [by apply settles_now|].
  assert (H : exists i th, threads c !! i = Some th /\ holds th = true).
  { assert (Hp : 0 < holders (threads c)) by lia. clear -Hp. induction (threads c) as [|th ts IH]; [done|].
    cbn [holders] in Hp. destruct (holds th) eqn:E; [by exists 0%nat, th|].
    destruct IH as (i & t & Hi & Ht); [cbn in Hp; lia|]. by exists (S i), t. }
  destruct H as (i & th & Hi & Hh). apply (settles_then _ _ _ _ (bring_home log c i th Hs Hi (or_introl Hh))).
  intros log' c' Hs' _ [H0 _]. by apply settles_now.
Qed.

Lemma bring_all n : forall log c, sound s0 log c -> locked c = 0 -> (n <= length (threads c))%nat ->
  settles log c (fun c' => locked c' = 0 /\ forall i, (i < n)%nat -> home c' i).
Proof using Hc.
  induction n as [|n IH]; intros log c Hs H0 Hn; [apply settles_now; [done|]; split; [done|lia]|].
  apply (settles_then _ _ _ _ (IH log c Hs H0 ltac:(lia))). intros l1 c1 S1 [L1 _] [Z1 H1].
  destruct (lookup_lt_is_Some_2 (threads c1) n) as [th Hth]; [lia|].
  apply (settles_then _ _ _ _ (bring_home l1 c1 n th S1 Hth (or_intror Z1))). intros l2 c2 S2 _ (Z2 & H2 & O2).
  apply settles_now; [done|]. split; [done|]. intros i Hi. destruct (decide (i = n)) as [->|Hin]; [done|].
  destruct (H1 i) as (rip & x & E); [lia|]. exists rip, x. by rewrite O2.
Qed.

Lemma sound_start c : at_rest c -> (forall th, th ∈ threads c -> mem_ok (tcb (ctx th))) -> sound (state c) [] c.
Proof.
  intros H Hm. destruct (at_rest_ok c H) as [Hl Hb]. split; [done|]. split; [done|]. intros i th Hi.
  apply list_elem_of_lookup_2 in Hi. split; [|by apply Hm]. destruct H as [_ H]. destruct (H th Hi) as [rip E].
  unfold placed. by rewrite E.
Qed.
End system.

Section theorems.
Context `{C : CCode}.

(** C25.  Let the threads start in the sandbox with the lock free, and take their
    steps in any order.  Then at most one thread is inside the C code, and the
    state of the runtime is that which the calls that have returned produce one
    after another, in the order of their returns, but for what the call in
    progress, if there is one, has done so far. *)
Theorem runtime_serializable c log c' : at_rest c -> runs c log c' ->
  (forall i j e e' args args' l l', in_call c' i e args l -> in_call c' j e' args' l' -> i = j) /\
  between_calls (state c) log c'.
Proof.
  intros H0 H. destruct (runs_ok c log c' H0 H) as [Hl B]. split; [|done].
  intros i j e e' args args' l l'. by apply in_call_one.
Qed.

(** C26.  No interleaving leaves a thread outside the sandbox for good.  Suppose
    that, from the states that whole calls lead to, every call of a C function
    returns or ends the program (as [report_cfi_violation] and the failed
    checks do).  Then every state that the threads can reach has a
    continuation, made of the calls under way alone, while the threads that are
    in the sandbox stay there, in which either all threads are back in the
    sandbox, with the lock free and the state of the runtime that of whole
    calls, or one of the calls that were under way has ended the program. *)
Theorem runtime_comes_to_rest c log c' : calls_end (fun s => exists log, serial (state c) log s) ->
  at_rest c -> (forall th, th ∈ threads c -> mem_ok (tcb (ctx th))) -> runs c log c' ->
  exists log' c'', runs c' log' c'' /\ undisturbed c' c'' /\
    (at_rest c'' /\ serial (state c) (log ++ log') (state c'') \/
     program_ended c'' /\ between_calls (state c) (log ++ log') c'').
Proof.
  intros Hc H0 Hm H. pose proof (sound_runs _ _ _ _ _ (sound_start c H0 Hm) H) as Hs. cbn [app] in Hs.
  destruct (settles_then _ _ _ _ (fun c'' => locked c'' = 0 /\ forall i, (i < length (threads c''))%nat -> home c'' i)
    (lock_free _ Hc log c' Hs)) as (log' & c'' & Hr & S2 & U & G).
  { intros l1 c1 S1 _ Z1. destruct (bring_all _ Hc (length (threads c1)) l1 c1 S1 Z1) as (l2 & c2 & R2 & S2 & U2 & G2); [lia|].
    exists l2, c2. do 3 (split; [done|]). destruct U2 as [-> _]. exact G2. }
  exists log', c''. split; [done|]. split; [done|]. destruct S2 as (_ & B & _). destruct G as [[Z2 H2]|He]; [left|by right].
  assert (Hrest : forall th, th ∈ threads c'' -> exists rip, loc th = Sandbox rip).
  { intros th Hth. apply list_elem_of_lookup in Hth as [i Hi]. pose proof (lookup_lt_Some _ _ _ Hi).
    destruct (H2 i) as (rip & x & E); [lia|]. rewrite Hi in E. injection E as ->. by exists rip. }
  split; [by split|]. destruct B as (s & Hser & _ & Hno). rewrite Hno; [done|].
  intros i e args l [x Hi]. by destruct (Hrest _ (list_elem_of_lookup_2 _ _ _ Hi)).
Qed.
End theorems.

(** ** The functions of the runtime

    The C code when a function is one step.  The threads and the patching are
    as in [Threads] and [Patch]; a violation is reported and ends the program
    ([error.c], [report_cfi_violation], then [report_error] and [quit]).
    [new_tcb] is the block that [alloc_tcb] finds; the entries that need
    answers of the kernel, or look at the other threads, are [others]. *)
Section runtime_calls.
Variable new_tcb : runtime -> TCB.
Variable others : entry_point -> (reg -> Z) -> runtime -> res (runtime * Z).

(** The runtime after the call, and what it returns if it returns something. *)
Definition c_function (e : entry_point) (args : reg -> Z) (rt : runtime) : res (runtime * option Z) :=
  let void (r : res runtime) := rt ← r; Ok (rt, None) in
  match e with
  | runtime_allocset_tcb =>
    let tcb := new_tcb rt in
    rt ← allocset_tcb tcb (args RDI) rt; Ok (rt, Some (self tcb))
  | runtime_free_tcb => void (free_tcb (args RDI) rt)
  | runtime_patch_call => void (patch_call (args RDI) rt)
  | runtime_patch_at => void (patch_at (args RDI) rt)
  | runtime_patch_entry => void (patch_entry (args RDI) rt)
  | runtime_report_cfi_violation => Exit
  | _ => '(rt, rv) ← others e args rt; Ok (rt, Some rv)
  end.

Inductive c_local : Type :=
  | Calling (e : entry_point) (args : reg -> Z)
  | Returned (rv : Z)
  | Ended.

(** A function that returns nothing leaves anything in [%rax]. *)
Definition c_step (l : c_local) (rt : runtime) (l' : c_local) (rt' : runtime) : Prop :=
  match l with
  | Calling e args =>
    match c_function e args rt with
    | Ok (rt1, rv) => rt' = rt1 /\ exists v, l' = Returned v /\ (rv = None \/ rv = Some v)
    | Exit | Fault => rt' = rt /\ l' = Ended
    | NoFuel => False
    end
  | Returned _ | Ended => False
  end.

Definition runtime_calls : CCode := {|
  shared := runtime;
  local := c_local;
  enter := Calling;
  cstep := c_step;
  answer l := match l with Returned rv => Some rv | _ => None end;
  ended l := match l with Ended => true | _ => false end;
|}.

Lemma c_function_ends e args rt : (forall e args rt, others e args rt <> NoFuel) -> c_function e args rt <> NoFuel.
Proof.
  intros Ho. specialize (Ho e args rt).
  destruct e; cbn [c_function]; try (destruct (others _ _ _) as [[? ?]| | |]; done).
  all: unfold allocset_tcb, free_tcb, remove_tcb_marked, dict_add, patch_call, patch_at, patch_entry, CHECK, dict_add;
    repeat (done || case_match || cbn [mbind res_bind] || unfold CHECK).
Qed.

(** Every call returns or ends the program, from any state. *)
Lemma runtime_calls_end good : (forall e args rt, others e args rt <> NoFuel) -> calls_end (C := runtime_calls) good.
Proof.
  intros Ho e args s l s' _ H.
  assert (Hl : l = Calling e args /\ s' = s \/ is_Some (answer (CCode := runtime_calls) l) \/ ended (CCode := runtime_calls) l = true).
  { remember (enter e args) as l0 eqn:El0 in H. induction H as [|l s l1 s1 l2 s2 _ IH Ha Hs]; [by left|right].
    cbn in Hs. unfold c_step in Hs.
    destruct l1 as [e' args'|rv|]; [|by destruct Hs..].
    destruct (c_function e' args' s1) as [[rt1 rv]| | |].
    - destruct Hs as (_ & v & -> & _). left. by exists v.
    - destruct Hs as [_ ->]. by right.
    - destruct Hs as [_ ->]. by right.
    - by destruct Hs. }
  destruct Hl as [[-> ->]|Hl]; [|by exists l, s'; split; [constructor|]].
  pose proof (c_function_ends e args s Ho) as Hf.
  assert (Hin : forall l' s'', c_step (Calling e args) s l' s'' ->
    inside (C := runtime_calls) (Calling e args) s l' s'') by (intros l' s'' Hs; eapply inside_step; [constructor|done|exact Hs]).
  destruct (c_function e args s) as [[rt1 rv]| | |] eqn:E; [..|done].
  - exists (Returned (default 0 rv)), rt1. split; [|left; by eexists]. apply Hin. unfold c_step. rewrite E.
    split; [done|]. exists (default 0 rv). split; [done|]. destruct rv; auto.
  - exists Ended, s. split; [|by right]. apply Hin. unfold c_step. by rewrite E.
  - exists Ended, s. split; [|by right]. apply Hin. unfold c_step. by rewrite E.
Qed.
End runtime_calls.

(** ** Two threads *)
Section two.
Context {C : CCode} {R : CRun C} (e1 e2 : entry_point) (s : shared).

Lemma one_then_other p p' : rtc moves p p' -> forall th q, rtc moves (View th (vlock p') (vstate p')) q ->
  exists log, runs (System [vthread p; th] (vlock p) (vstate p)) log (System [vthread p'; vthread q] (vlock q) (vstate q)).
Proof.
  intros Hp th q Hq. destruct (alone_runs _ _ Hp [vthread p; th] 0 eq_refl) as [l1 H1].
  destruct (alone_runs _ _ Hq [vthread p'; th] 1 eq_refl) as [l2 H2]. exists (l1 ++ l2). exact (runs_trans _ _ _ _ _ H1 H2).
Qed.

Definition two : system :=
  System [Thread (Sandbox 0x400) small_context; Thread (Sandbox 0x800) small_context] 0 s.

(** One is in the C function [e1]; the other waits for the lock before [e2]. *)
Definition first_view : view :=
  after_steps 15 (View (Thread (Stub (TRAMP_CALL e1 0x500) 0) small_context) 0 s).
Definition second_view : view :=
  after_steps 60 (View (Thread (Stub (TRAMP_CALL e2 0x900) 0) small_context) (vlock first_view) (vstate first_view)).
Definition two_away : system :=
  System [vthread first_view; vthread second_view] (vlock second_view) (vstate second_view).

Lemma two_at_rest : at_rest two.
Proof.
  split; [done|]. intros th H. apply list_elem_of_lookup in H as [[|[|i]] H]; [| |done]; injection H as <-; by eexists.
Qed.

Lemma small_mem_ok : mem_ok (tcb small_context).
Proof. intros a. cbn. lia. Qed.

Lemma two_mem_ok th : th ∈ threads two -> mem_ok (tcb (ctx th)).
Proof.
  intros Hth. apply list_elem_of_lookup in Hth as [[|[|i]] Hi]; [| |done]; injection Hi as <-; apply small_mem_ok.
Qed.

Lemma leaves rip e label k s' n : rtc moves (View (Thread (Sandbox rip) small_context) k s')
  (after_steps n (View (Thread (Stub (TRAMP_CALL e label) 0) small_context) k s')).
Proof.
  apply (rtc_l _ _ (View (Thread (Stub (TRAMP_CALL e label) 0) small_context) k s')).
  - exists None. by apply step_user; [|apply small_mem_ok].
  - apply after_steps_ok. apply small_mem_ok.
Qed.

Lemma first_moves : rtc moves (View (Thread (Sandbox 0x400) small_context) 0 s) first_view.
Proof. unfold first_view. apply leaves. Qed.

Lemma second_moves :
  rtc moves (View (Thread (Sandbox 0x800) small_context) (vlock first_view) (vstate first_view)) second_view.
Proof. unfold second_view. apply leaves. Qed.

Lemma two_runs : exists log, runs two log two_away.
Proof. unfold two, two_away. exact (one_then_other _ first_view first_moves _ second_view second_moves). Qed.

Definition away_places : Prop :=
  match loc (vthread first_view), loc (vthread second_view) with
  | InC _ _ _, Runtime e pc => (lock_pc e <= pc <= lock_pc e + 3)%nat
  | _, _ => False
  end.
End two.

#[local] Existing Instances counter counter_run.

Definition counter_two : @system counter := @two counter 10.
Definition counter_away : @system counter := @two_away counter counter_run runtime_rock_mmap runtime_rock_brk 10.

Lemma counter_places : @away_places counter counter_run runtime_rock_mmap runtime_rock_brk 10.
Proof. vm_compute. lia. Qed.

Lemma runtime_serializable_witness : @away_places counter counter_run runtime_rock_mmap runtime_rock_brk 10 /\
  exists log, runs counter_two log counter_away /\ between_calls (C := counter) 10 log counter_away.
Proof.
  split; [exact counter_places|]. destruct (@two_runs counter counter_run runtime_rock_mmap runtime_rock_brk 10) as [log H].
  exists log. split; [exact H|]. apply (runtime_serializable counter_two log counter_away (@two_at_rest counter 10) H).
Defined.

(** The functions of the runtime: one thread starts another, which reports a
    violation. *)
Definition small_tcb (rt : runtime) : TCB := sample_tcb 0x2000 0 0.
Definition no_others (e : entry_point) (args : reg -> Z) (rt : runtime) : res (runtime * Z) := Exit.
Definition small_runtime : CCode := runtime_calls small_tcb no_others.

Definition small_runtime_run : CRun small_runtime.
Proof.
  refine {| crun (l : local (CCode := small_runtime)) (rt : shared (CCode := small_runtime)) :=
    match l with
    | Calling e args =>
      match c_function small_tcb no_others e args rt with
      | Ok (rt1, rv) => Some (Returned (default 0 rv), rt1)
      | Exit | Fault => Some (Ended, rt)
      | NoFuel => None
      end
    | _ => None
    end |}.
  intros [e args|rv|] rt l' rt' H; [|discriminate..]. split; [done|]. cbn. unfold c_step.
  destruct (c_function small_tcb no_others e args rt) as [[rt1 rv]| | |]; [..|discriminate]; injection H as <- <-; [|done..].
  split; [done|]. exists (default 0 rv). split; [done|]. destruct rv; auto.
Defined.

Definition small_two : @system small_runtime := @two small_runtime sample_runtime.
Definition small_away : @system small_runtime :=
  @two_away small_runtime small_runtime_run runtime_allocset_tcb runtime_report_cfi_violation sample_runtime.

Lemma small_places :
  @away_places small_runtime small_runtime_run runtime_allocset_tcb runtime_report_cfi_violation sample_runtime.
Proof. vm_compute. lia. Qed.

Lemma runtime_comes_to_rest_witness :
  @away_places small_runtime small_runtime_run runtime_allocset_tcb runtime_report_cfi_violation sample_runtime /\
  exists log c'', runs small_away log c'' /\ undisturbed small_away c'' /\ (at_rest c'' \/ program_ended c'').
Proof.
  split; [exact small_places|].
  destruct (@two_runs small_runtime small_runtime_run runtime_allocset_tcb runtime_report_cfi_violation sample_runtime) as [log H].
  destruct (@runtime_comes_to_rest small_runtime small_two log small_away) as (log' & c'' & H1 & H2 & H3).
  - apply runtime_calls_end. intros e args rt. discriminate.
  - exact (@two_at_rest small_runtime sample_runtime).
  - exact (@two_mem_ok small_runtime sample_runtime).
  - exact H.
  - exists log', c''. split; [exact H1|]. split; [exact H2|]. destruct H3 as [[H3 _]|[H3 _]]; [left|right]; exact H3.
Defined.
