(* ===== verification/EntryExit.v ===== *)
(** * What a thread comes back with

    Through however many turns of the lock and whatever the C function does
    within its calling convention, a thread is back in the sandbox at the
    address of its continuation, on its own stack, with the registers that a
    function keeps; and after an online patch with every register that may
    carry an argument. *)

From S2P Require Import Prelude Table Start Entry EntryFacts.

Definition run (l : list instr) (x : context) : context := foldl (fun x i => (exec i 0 x).2) x l.

Lemma run_take_S l k i x : l !! k = Some i -> run (take (S k) l) x = (exec i 0 (run (take k l) x)).2.
Proof. intros H. unfold run. rewrite (take_S_r l k i H), foldl_app. done. Qed.

(** Only the register of the exchange and the flags differ. *)
Record spun (x y : context) : Prop := {
  spun_gpr r : r <> R11 -> gpr (ctx_cpu y) r = gpr (ctx_cpu x) r;
  spun_xmm k : xmm (ctx_cpu y) k = xmm (ctx_cpu x) k;
  spun_mxcsr : mxcsr (ctx_cpu y) = mxcsr (ctx_cpu x);
  spun_fcw : fcw (ctx_cpu y) = fcw (ctx_cpu x);
  spun_tcb : tcb y = tcb x;
  spun_stack : stack y = stack x;
}.

#[export] Instance spun_refl : Reflexive spun.
Proof. by constructor. Qed.

#[export] Instance spun_trans : Transitive spun.
Proof.
  intros x y z [A1 A2 A3 A4 A5 A6] [B1 B2 B3 B4 B5 B6].
  constructor; [intros r Hr; rewrite B1, A1 by done; done|intros k; by rewrite B2| | | |]; congruence.
Qed.

Lemma spun_critical i k x k' x' : i ∈ critical ->
  match i with callq | jnz _ | jmpq_fs _ => False | _ => exec i k x = (k', x') end -> spun x x'.
Proof.
  intros Hi Hx. destruct x as [c t s]. unfold critical, spin_lock, spin_unlock in Hi. cbn in Hi.
  repeat (apply elem_of_cons in Hi as [->|Hi]); [..|by apply not_elem_of_nil in Hi]; try done;
    cbn in Hx; injection Hx as <- <-; constructor; try done; intros r Hr; cbn; by rewrite decide_False.
Qed.

Section exit.
Context `{C : CCode}.

(** ** A thread between its entry and its exit *)
Variable (e : entry_point) (x0 : context).

Definition at_call : context := run (before e) x0.

(** The context when the C function has returned. *)
Definition called (xc : context) : Prop := exists rv xs, spun at_call xs /\ returned rv xs xc.

Definition on_the_way (th : thread) : Prop :=
  match loc th with
  | Sandbox rip => exists xc xd, called xc /\ spun xc xd /\ ctx th = run (after e) xd /\
      rip = read_le 8 (tcb (ctx th)) CONTINUATION
  | Stub _ _ => False
  | InC e' _ _ => e' = e /\ spun at_call (ctx th)
  | Runtime e' pc =>
    e' = e /\
    (((pc <= lock_pc e)%nat /\ ctx th = run (take pc (before e)) x0) \/
     ((lock_pc e <= pc <= lock_pc e + 4)%nat /\ spun at_call (ctx th)) \/
     ((lock_pc e + 5 <= pc <= lock_pc e + 7)%nat /\ exists xc, called xc /\ spun xc (ctx th)) \/
     exists k xc xd, (pc = lock_pc e + 7 + k)%nat /\ called xc /\ spun xc xd /\ ctx th = run (take k (after e)) xd)
  end.

(** The steps of a thread while it is out of the sandbox. *)
Definition away_step (th th' : thread) : Prop :=
  (forall rip, loc th <> Sandbox rip) /\ exists k s lab k' s', thread_step th k s lab th' k' s'.

Lemma plain_exec i k x k' x' : is_plain i = true ->
  match i with callq | jnz _ | jmpq_fs _ => False | _ => exec i k x = (k', x') end -> x' = (exec i 0 x).2.
Proof. intros Hp Hx. rewrite (exec_plain i k x Hp) in Hx. destruct i; try done; congruence. Qed.

Lemma on_the_way_critical pc j i : runtime_code e !! pc = Some i -> (pc = lock_pc e + j)%nat -> (j < 7)%nat ->
  critical !! j = Some i.
Proof.
  intros H -> Hj. rewrite runtime_code_split, lookup_app_r in H by (unfold lock_pc; lia).
  unfold lock_pc in H. replace (length (before e) + j - length (before e))%nat with j in H by lia.
  by rewrite lookup_app_l in H.
Qed.

Lemma away_on_the_way th th' : away_step th th' -> on_the_way th -> on_the_way th'.
Proof.
  intros [Hout (k & s & lab & k' & s' & H)] J.
  destruct H as [rip x l x' k s Hl Hm|b pc i x k x' s Hi Hx|b pc e' x k s Hi|e' pc i x k k' x' s Hi Hx|e' pc back x k s Hi|
    e' pc x k s Hi|e' args l l' x k s s' Ha Hc|e' args l rv x x' pc k s Ha Hr Hi|e' pc off x k s Hi].
  - by destruct (Hout rip).
  - done.
  - done.
  - destruct J as [-> J]. split; [done|]. cbn [ctx] in *.
    apply code_cases in Hi as [Hi Hp|j -> Hj Hi|j -> Hi| -> ->]; [| | |done].
    + left. destruct J as [[_ J]|[[[? ?] _]|[[[? ?] _]|(? & ? & ? & ? & _)]]]; [|lia..].
      split; [lia|]. rewrite (run_take_S _ _ _ _ Hi), <- J. apply (plain_exec i k x k'); [|done].
      apply (before_plain e). by apply list_elem_of_lookup_2 in Hi.
    + pose proof (spun_critical i k x k' x' (list_elem_of_lookup_2 _ _ _ Hi) Hx) as S. right.
      destruct (decide (j < 4)%nat) as [Hj4|Hj4].
      * left. split; [lia|]. transitivity x; [|done].
        destruct J as [[Hle J]|[[_ J]|[[[? ?] _]|(? & ? & ? & ? & _)]]]; [|done|lia..].
        replace (lock_pc e + j)%nat with (lock_pc e) in J by lia. unfold lock_pc in J.
        rewrite take_ge in J by lia. by rewrite J.
      * right. left. split; [lia|]. assert (j <> 4)%nat by (intros ->; by injection Hi as <-).
        destruct J as [[Hle J]|[[[? ?] J]|[[_ (xc & Hc & J)]|(q & ? & ? & ? & _)]]]; [lia|lia| |lia].
        exists xc. split; [done|]. by transitivity x.
    + right. right. right. exists (S j).
      assert (Hx' : x' = (exec i 0 x).2).
      { apply (plain_exec i k x k'); [|done]. apply (after_plain e). by apply list_elem_of_lookup_2 in Hi. }
      destruct J as [[Hle J]|[[[? ?] J]|[[[? ?] (xc & Hc & J)]|(q & xc & xd & Hq & Hc & Hs & J)]]]; [lia|lia| |].
      * exists xc, x. split; [lia|]. split; [done|]. split; [done|]. assert (j = 0)%nat as -> by lia.
        rewrite (run_take_S _ _ _ _ Hi), Hx'. done.
      * exists xc, xd. split; [lia|]. split; [done|]. split; [done|]. assert (q = j) as -> by lia.
        rewrite (run_take_S _ _ _ _ Hi), Hx', J. done.
  - destruct J as [-> J]. split; [done|]. cbn [ctx] in *.
    apply code_cases in Hi as [Hi Hp|j -> Hj Hi|j -> Hi| -> E]; [| | |done].
    + apply list_elem_of_lookup_2, before_plain in Hi. done.
    + destruct j as [|[|[|[|[|[|[|j]]]]]]]; cbn in Hi; try discriminate. injection Hi as <-. right. left.
      split; [destruct (zf _); lia|]. destruct J as [[? _]|[[_ J]|[[[? ?] _]|(? & ? & ? & ? & _)]]]; [lia|done|lia|lia].
    + apply list_elem_of_lookup_2, after_plain in Hi. done.
  - destruct J as [-> J]. split; [done|]. cbn [ctx] in *.
    apply code_cases in Hi as [Hi Hp|j -> Hj Hi|j -> Hi| -> E]; [| | |done].
    + apply list_elem_of_lookup_2, before_plain in Hi. done.
    + destruct j as [|[|[|[|[|[|[|j]]]]]]]; cbn in Hi; try discriminate.
      destruct J as [[? _]|[[_ J]|[[[? ?] _]|(? & ? & ? & ? & _)]]]; [lia|done|lia|lia].
    + apply list_elem_of_lookup_2, after_plain in Hi. done.
  - done.
  - destruct J as [-> J]. split; [done|]. cbn [ctx] in *.
    apply code_cases in Hi as [Hi Hp|j -> Hj Hi|j -> Hi| -> E]; [| | |done].
    + apply list_elem_of_lookup_2, before_plain in Hi. done.
    + destruct j as [|[|[|[|[|[|[|j]]]]]]]; cbn in Hi; try discriminate. right. right. left.
      split; [lia|]. exists x'. split; [|done]. by exists rv, x.
    + apply list_elem_of_lookup_2, after_plain in Hi. done.
  - destruct J as [-> J]. cbn [ctx loc] in *.
    apply code_cases in Hi as [Hi Hp|j -> Hj Hi|j -> Hi| -> E].
    + apply list_elem_of_lookup_2, before_plain in Hi. done.
    + destruct j as [|[|[|[|[|[|[|j]]]]]]]; cbn in Hi; discriminate.
    + apply list_elem_of_lookup_2, after_plain in Hi. done.
    + injection E as ->. unfold on_the_way. cbn [loc ctx].
      destruct J as [[? _]|[[[? ?] _]|[[[? ?] (xc & Hc & J)]|(q & xc & xd & Hq & Hc & Hs & J)]]]; [lia|lia| |].
      * exfalso. assert (length (after e) = 0)%nat by lia. unfold after in *. by destruct (online_patched e).
      * exists xc, xd. split; [done|]. split; [done|]. split; [|done]. assert (q = length (after e)) as -> by lia.
        by rewrite take_ge in J.
Qed.

Lemma arrives th th' : loc th = Runtime e 0 -> ctx th = x0 -> rtc away_step th th' -> on_the_way th'.
Proof.
  intros Hl Hx H. assert (J : on_the_way th).
  { unfold on_the_way. rewrite Hl. split; [done|]. left. by split; [lia|]. }
  clear Hl Hx. induction H as [th|th th1 th' H _ IH]; [done|]. apply IH. by apply (away_on_the_way th).
Qed.
End exit.

(** ** Reading back *)
Definition context_ok (x : context) : Prop :=
  (forall r, 0 <= gpr (ctx_cpu x) r < 2 ^ 64) /\ (forall k, 0 <= (xmm (ctx_cpu x) k).1 < 2 ^ 64) /\
  0 <= mxcsr (ctx_cpu x) < 2 ^ 32 /\ 0 <= fcw (ctx_cpu x) < 2 ^ 16 /\ mem_ok (tcb x).

Lemma read_same n t a v : 0 <= v < 2 ^ (8 * Z.of_nat n) -> read_le n (write_le n t a v) a = v.
Proof.
  intros H. apply read_write_same. replace 256 with (2 ^ 8) by done. rewrite <- Z.pow_mul_r by lia. exact H.
Qed.

Lemma write_le_app n k : forall m a v, 0 <= v ->
  write_le (n + k) m a v = write_le k (write_le n m a v) (a + Z.of_nat n) (v / 256 ^ Z.of_nat n).
Proof.
  induction n as [|n IH]; intros m a v Hv.
  - cbn [Nat.add write_le Z.of_nat]. by rewrite Z.div_1_r, Z.add_0_r.
  - cbn [Nat.add write_le]. rewrite IH by (apply Z.div_pos; lia). rewrite Nat2Z.inj_succ, Z.pow_succ_r by lia.
    rewrite Z.div_div by lia. f_equal. lia.
Qed.

Lemma read_le_app n k : forall m a,
  read_le (n + k) m a = read_le n m a + 256 ^ Z.of_nat n * read_le k m (a + Z.of_nat n).
Proof.
  induction n as [|n IH]; intros m a.
  - cbn [Nat.add read_le Z.of_nat]. rewrite Z.add_0_r. lia.
  - cbn [Nat.add read_le]. rewrite IH, Nat2Z.inj_succ, Z.pow_succ_r by lia.
    replace (a + 1 + Z.of_nat n) with (a + Z.succ (Z.of_nat n)) by lia. lia.
Qed.

(** The low half of a word replaced, when the high half is zero. *)
Lemma write_low_half t off v w : 0 <= v < 2 ^ 32 -> 0 <= w < 2 ^ 32 ->
  read_le 4 (write_le 8 t off v) off = v /\
  read_le 8 (write_le 4 (write_le 8 t off v) off w) off = w.
Proof.
  intros Hv Hw. change 8%nat with (4 + 4)%nat. rewrite (write_le_app 4 4) by lia. rewrite read_le_app.
  change (256 ^ Z.of_nat 4) with (2 ^ 32). change (Z.of_nat 4) with 4. rewrite Z.div_small by lia.
  assert (Hap : apart off 4 (off + 4) 4 /\ apart (off + 4) 4 off 4) by (unfold apart; lia). destruct Hap as [Hap1 Hap2].
  split; [rewrite read_write_apart by done; apply read_same; cbn; lia|].
  rewrite (read_same 4 _ off w) by (cbn; lia). rewrite read_write_apart by done.
  rewrite (read_same 4 _ (off + 4) 0) by (cbn; lia). lia.
Qed.

Lemma read_agree n t t' a : (forall x, 8 <= x < 0x100 -> t' x = t x) -> 8 <= a -> a + Z.of_nat n <= 0x100 ->
  read_le n t' a = read_le n t a.
Proof. intros H Ha Hn. apply read_le_ext. intros x Hx. apply H. lia. Qed.

Ltac rd :=
  unfold USER_CTX, CONTINUATION, THREAD_ESCAPES, IN_SYSCALL, SELF, FCW, MXCSR in *;
  repeat first
    [ rewrite read_same by (cbn [Z.of_nat Pos.of_succ_nat Z.mul Pos.mul Pos.add Pos.succ]; solve [auto | lia])
    | rewrite read_write_apart by (unfold apart; lia) ].

Ltac steps := cbn [run foldl app exec snd ctx_cpu tcb stack gpr xmm mxcsr fcw zf set_gpr set_xmm set_mxcsr set_fcw].

(** The words that an online patch saves. *)
Definition saved_words : list (reg * Z) :=
  [(RAX, 0x30); (RCX, 0x40); (RDX, 0x48); (RDI, 0x50); (RSI, 0x58); (RSP, 0x68); (R8, 0x70); (R9, 0x78); (R10, 0x80)].

Definition saved_halves : list (Z * Z) :=
  [(0, 0xc0); (1, 0xc8); (2, 0xd0); (3, 0xd8); (4, 0xe0); (5, 0xe8); (6, 0xf0); (7, 0xf8)].

Record saved_by_patch (x : context) (t : mem) : Prop := {
  sp_words : Forall (fun '(r, off) => read_le 8 t off = gpr (ctx_cpu x) r) saved_words;
  sp_halves : Forall (fun '(k, off) => read_le 8 t off = (xmm (ctx_cpu x) k).1) saved_halves;
  sp_mxcsr : read_le 4 t 0xb8 = mxcsr (ctx_cpu x);
  sp_fcw : read_le 2 t 0xb0 = fcw (ctx_cpu x);
  sp_r11 : read_le 8 t 0x88 = read_le 8 (tcb x) 0x88;
}.

Record at_call_ok (x y : context) : Prop := {
  ac_kept r : kept r = true -> r <> RSP -> gpr (ctx_cpu y) r = gpr (ctx_cpu x) r;
  ac_mxcsr : mxcsr (ctx_cpu y) = mxcsr (ctx_cpu x);
  ac_fcw : fcw (ctx_cpu y) = fcw (ctx_cpu x);
  ac_stack : stack y = stack x;
  ac_rsp : read_le 8 (tcb y) 0x68 = gpr (ctx_cpu x) RSP;
  ac_continuation : read_le 8 (tcb y) CONTINUATION = read_le 8 (tcb x) CONTINUATION;
  ac_escapes : read_le 8 (tcb y) THREAD_ESCAPES = u64 (read_le 8 (tcb x) THREAD_ESCAPES + 1);
}.

Lemma before_patch_ok x : context_ok x -> at_call_ok x (run before_patch x) /\ saved_by_patch x (tcb (run before_patch x)).
Proof.
  destruct x as [c t s]. intros (Hg & Hx & Hm & Hf & Ht). cbn [ctx_cpu tcb] in *.
  unfold before_patch, save_regs, save_xmms, atomic_incr_thread_escapes, switch_runtime_stack. steps.
  split; constructor; steps.
  - intros r Hr Hn. by destruct r.
  - done.
  - done.
  - done.
  - by rd.
  - by rd.
  - rewrite decide_True by done. rd. pose proof u64_range. by rd.
  - unfold saved_words. repeat (apply Forall_cons; split; [by rd|]). by apply Forall_nil.
  - unfold saved_halves. repeat (apply Forall_cons; split; [by rd|]). by apply Forall_nil.
  - by rd.
  - by rd.
  - by rd.
Qed.

Lemma before_function_ok x : context_ok x -> at_call_ok x (run before_function x).
Proof.
  destruct x as [c t s]. intros (Hg & Hx & Hm & Hf & Ht). cbn [ctx_cpu tcb] in *.
  unfold before_function, save_context, atomic_incr_thread_escapes, switch_runtime_stack. steps.
  constructor; steps.
  - intros r Hr Hn. by destruct r.
  - done.
  - done.
  - done.
  - by rd.
  - by rd.
  - rewrite decide_True by done. rd. pose proof u64_range. by rd.
Qed.

Lemma at_call_spec e x : context_ok x -> at_call_ok x (at_call e x).
Proof.
  intros H. unfold at_call, before. destruct (online_patched e); [by apply before_patch_ok|by apply before_function_ok].
Qed.

(** What the code after the call leaves, from the words of the control block. *)
Record restored (x x' : context) : Prop := {
  rs_tcb : tcb x' = write_le 1 (tcb x) IN_SYSCALL 0;
  rs_stack : stack x' = stack x;
  rs_rsp : gpr (ctx_cpu x') RSP = read_le 8 (tcb x) 0x68;
  rs_kept r : kept r = true -> r <> RSP -> gpr (ctx_cpu x') r = gpr (ctx_cpu x) r;
}.

Lemma after_function_ok x : restored x (run after_function x) /\
  mxcsr (ctx_cpu (run after_function x)) = mxcsr (ctx_cpu x) /\ fcw (ctx_cpu (run after_function x)) = fcw (ctx_cpu x).
Proof.
  destruct x as [c t s]. unfold after_function, restore_context. steps. split; [|done].
  constructor; steps; [done|done|done|]. intros r Hr Hn. by destruct r.
Qed.

Lemma after_patch_ok x : let x' := run after_patch x in
  restored x x' /\ mxcsr (ctx_cpu x') = read_le 4 (tcb x) 0xb8 /\ fcw (ctx_cpu x') = read_le 2 (tcb x) 0xb0 /\
  Forall (fun '(r, off) => gpr (ctx_cpu x') r = read_le 8 (tcb x) off) ((R11, 0x88) :: saved_words) /\
  Forall (fun '(k, off) => xmm (ctx_cpu x') k = (read_le 8 (tcb x) off, 0)) saved_halves.
Proof.
  destruct x as [c t s]. unfold after_patch, restore_regs, restore_xmms. steps. split; [|split; [|split; [|split]]].
  - constructor; steps; [done|done|done|]. intros r Hr Hn. by destruct r.
  - done.
  - done.
  - unfold saved_words. repeat (apply Forall_cons; split; [done|]). by apply Forall_nil.
  - unfold saved_halves. repeat (apply Forall_cons; split; [done|]). by apply Forall_nil.
Qed.

(** ** The whole way *)
Record exited (e : entry_point) (x : context) (rip : Z) (x' : context) : Prop := {
  ex_rip : rip = read_le 8 (tcb x) CONTINUATION;
  ex_kept r : kept r = true -> gpr (ctx_cpu x') r = gpr (ctx_cpu x) r;
  ex_stack : stack x' = stack x;
  ex_control : mxcsr (ctx_cpu x') = mxcsr (ctx_cpu x) /\ fcw (ctx_cpu x') = fcw (ctx_cpu x);
  ex_in_syscall : read_le 1 (tcb x') IN_SYSCALL = 0;
  ex_escapes : read_le 8 (tcb x') THREAD_ESCAPES = u64 (read_le 8 (tcb x) THREAD_ESCAPES + 1);
  ex_patch : online_patched e = true ->
    (forall r, r <> R11 -> gpr (ctx_cpu x') r = gpr (ctx_cpu x) r) /\
    gpr (ctx_cpu x') R11 = read_le 8 (tcb x) 0x88 /\
    forall k, 0 <= k < 8 -> xmm (ctx_cpu x') k = ((xmm (ctx_cpu x) k).1, 0);
}.

Section whole.
Context `{C : CCode}.
Variable (e : entry_point) (x : context).

(** The control block and the registers when the code after the call starts. *)
Lemma called_at_call xc xd : called e x xc -> spun xc xd -> 
  (forall a, 8 <= a < 0x100 -> tcb xd a = tcb (at_call e x) a) /\ stack xd = stack (at_call e x) /\
  (forall r, kept r = true -> gpr (ctx_cpu xd) r = gpr (ctx_cpu (at_call e x)) r) /\
  mxcsr (ctx_cpu xd) = mxcsr (ctx_cpu (at_call e x)) /\ fcw (ctx_cpu xd) = fcw (ctx_cpu (at_call e x)).
Proof.
  intros (rv & xs & [A1 A2 A3 A4 A5 A6] & (_ & R1 & R2 & R3 & R4 & _ & R5)) [B1 B2 B3 B4 B5 B6].
  split; [|split; [|split; [|split]]].
  - intros a Ha. by rewrite B5, R4, A5.
  - congruence.
  - intros r Hr. assert (r <> R11) by (by intros ->). by rewrite B1, R1, A1.
  - congruence.
  - congruence.
Qed.

Lemma whole_way xc xd : context_ok x -> called e x xc -> spun xc xd -> let x' := run (after e) xd in
  exited e x (read_le 8 (tcb x') CONTINUATION) x'.
Proof.
  intros Hok Hc Hs x'. destruct (called_at_call xc xd Hc Hs) as (D1 & D2 & D3 & D4 & D5).
  destruct (at_call_spec e x Hok) as [A1 A2 A3 A4 A5 A6 A7].
  assert (Hread : forall n off, 8 <= off -> off + Z.of_nat n <= 0x100 ->
    read_le n (tcb xd) off = read_le n (tcb (at_call e x)) off) by (intros; by apply read_agree).
  assert (Hr : restored xd x').
  { unfold x', after. destruct (online_patched e); [apply after_patch_ok|apply after_function_ok]. }
  destruct Hr as [R1 R2 R3 R4].
  assert (Hkept : forall r, kept r = true -> gpr (ctx_cpu x') r = gpr (ctx_cpu x) r).
  { intros r Hr. destruct (decide (r = RSP)) as [->|Hn]; [by rewrite R3, Hread, A5|]. by rewrite R4, D3, A1. }
  constructor.
  - rewrite R1. rd. rewrite Hread by lia. exact A6.
  - exact Hkept.
  - by rewrite R2, D2, A4.
  - unfold x', after. destruct (online_patched e) eqn:E.
    + destruct (after_patch_ok xd) as (_ & -> & -> & _). rewrite !Hread by lia.
      unfold at_call, before. rewrite E. by destruct (before_patch_ok x Hok) as [_ [_ _ -> -> _]].
    + destruct (after_function_ok xd) as (_ & -> & ->). by rewrite D4, D5, A2, A3.
  - rewrite R1. by rd.
  - rewrite R1. rd. rewrite Hread by lia. exact A7.
  - intros E. unfold at_call, before in Hread. rewrite E in Hread.
    destruct (before_patch_ok x Hok) as [_ [S1 S2 _ _ S5]].
    assert (Hx' : x' = run after_patch xd) by (unfold x', after; by rewrite E).
    destruct (after_patch_ok xd) as (_ & _ & _ & P1 & P2). rewrite <- Hx' in P1, P2.
    apply Forall_cons in P1 as [P0 P1]. rewrite Forall_forall in S1. rewrite Forall_forall in S2.
    rewrite Forall_forall in P1. rewrite Forall_forall in P2.
    split; [|split].
    + intros r Hr. destruct (kept r) eqn:Hk; [by apply Hkept|].
      assert (Hin : exists off, (r, off) ∈ saved_words /\ 8 <= off /\ off + 8 <= 0x100).
      { unfold saved_words. destruct r; try done; eexists; (split; [repeat first [apply list_elem_of_here|apply list_elem_of_further]|lia]). }
      destruct Hin as (off & Hin & Ho1 & Ho2). specialize (P1 _ Hin). specialize (S1 _ Hin). cbv beta iota in P1, S1.
      rewrite P1, Hread by (cbn; lia). exact S1.
    + rewrite P0, Hread by (cbn; lia). exact S5.
    + intros k Hk. assert (Hin : exists off, (k, off) ∈ saved_halves /\ 8 <= off /\ off + 8 <= 0x100).
      { exists (0xc0 + 8 * k). split; [|lia]. unfold saved_halves.
        assert (k = 0 \/ k = 1 \/ k = 2 \/ k = 3 \/ k = 4 \/ k = 5 \/ k = 6 \/ k = 7) as Hcases by lia.
        destruct Hcases as [->|[->|[->|[->|[->|[->|[->| ->]]]]]]];
          repeat first [apply list_elem_of_here|apply list_elem_of_further]. }
      destruct Hin as (off & Hin & Ho1 & Ho2). specialize (P2 _ Hin). specialize (S2 _ Hin). cbv beta iota in P2, S2.
      rewrite P2, Hread by (cbn; lia). by rewrite S2.
Qed.
End whole.

(** ** From the sandbox and back *)
Section stubs.
Context `{C : CCode}.

(** A stub without its jump, and where the jump goes. *)
Definition from_stub (b : stub) (x : context) (th : thread) : Prop :=
  match loc th with
  | Stub b' pc => b' = b /\ (pc <= length (stub_body b))%nat /\ ctx th = run (take pc (stub_body b)) x
  | _ => on_the_way (stub_target b) (run (stub_body b) x) th
  end.

Lemma away_from_stub b x th th' : away_step th th' -> from_stub b x th -> from_stub b x th'.
Proof.
  intros A J. destruct (loc th) as [rip|b' pc|e pc|e args l] eqn:El.
  - destruct A as [A _]. by destruct (A rip).
  - unfold from_stub in J. rewrite El in J. destruct J as (-> & Hpc & J). destruct A as [_ (k & s & lab & k' & s' & H)].
    destruct H as [| b' pc' i y k y' s Hi Hx|b' pc' e y k s Hi| | | | | |]; cbn in El; try discriminate;
      injection El as <- <-; rewrite stub_code_split in Hi; apply lookup_app_Some in Hi as [Hi|[Hl Hi]]; cbn [ctx] in J.
    + assert (Hp : is_plain i = true) by (apply (stub_body_plain b'); by apply list_elem_of_lookup_2 in Hi).
      pose proof (lookup_lt_Some _ _ _ Hi) as Hlt. split; [done|]. split; [lia|]. cbn [ctx].
      rewrite (run_take_S _ _ _ _ Hi), <- J. rewrite (exec_plain i k y Hp) in Hx. destruct i; try done; congruence.
    + apply list_lookup_singleton_Some in Hi as [_ <-]. done.
    + apply list_elem_of_lookup_2, stub_body_plain in Hi. done.
    + apply list_lookup_singleton_Some in Hi as [Hi [= <-]]. unfold from_stub. cbn [loc].
      unfold on_the_way. cbn [loc ctx]. split; [done|]. left. split; [lia|]. rewrite take_ge in J by lia. by rewrite J.
  - assert (J' : on_the_way (stub_target b) (run (stub_body b) x) th) by (unfold from_stub in J; by rewrite El in J).
    apply (away_on_the_way _ _ th th' A) in J'. unfold from_stub. unfold on_the_way in J' |- *. by destruct (loc th').
  - assert (J' : on_the_way (stub_target b) (run (stub_body b) x) th) by (unfold from_stub in J; by rewrite El in J).
    apply (away_on_the_way _ _ th th' A) in J'. unfold from_stub. unfold on_the_way in J' |- *. by destruct (loc th').
Qed.

Lemma stub_exit b th th' rip : loc th = Stub b 0 -> rtc away_step th th' -> loc th' = Sandbox rip ->
  context_ok (run (stub_body b) (ctx th)) ->
  exited (stub_target b) (run (stub_body b) (ctx th)) rip (ctx th').
Proof.
  intros Hl H Hr Hok. assert (J : from_stub b (ctx th) th).
  { unfold from_stub. rewrite Hl. split; [done|]. split; [lia|done]. }
  assert (J' : from_stub b (ctx th) th').
  { clear Hl Hr Hok. revert J. generalize (ctx th). intros x J. induction H as [th|th th1 th' A _ IH]; [done|].
    apply IH. by apply (away_from_stub b x th). }
  unfold from_stub, on_the_way in J'. rewrite Hr in J'. destruct J' as (xc & xd & Hc & Hs & -> & ->).
  by apply (whole_way (stub_target b) _ xc xd).
Qed.

(** The call of a stub from the address [a]: five bytes, and the return
    address on the stack. *)
Definition call_stub (a : Z) (x : context) : context :=
  Context_ (set_gpr (ctx_cpu x) RSP (u64 (gpr (ctx_cpu x) RSP - 8))) (tcb x)
    (write_le 8 (stack x) (u64 (gpr (ctx_cpu x) RSP - 8)) (a + 5)).

(** The processor before and after are the same to the program: the high
    halves of the vector registers and the flags are not. *)
Record same_to_program (x x' : context) : Prop := {
  sm_gpr r : gpr (ctx_cpu x') r = gpr (ctx_cpu x) r;
  sm_xmm k : 0 <= k < 8 -> xmm (ctx_cpu x') k = ((xmm (ctx_cpu x) k).1, 0);
  sm_mxcsr : mxcsr (ctx_cpu x') = mxcsr (ctx_cpu x);
  sm_fcw : fcw (ctx_cpu x') = fcw (ctx_cpu x);
  sm_stack a : a < gpr (ctx_cpu x) RSP - 8 \/ gpr (ctx_cpu x) RSP <= a -> stack x' a = stack x a;
}.

Lemma patch_call_stub_ok a x : context_ok x -> 0 <= a -> a + 5 < 2 ^ 32 -> 8 <= gpr (ctx_cpu x) RSP ->
  let y := run (stub_body __patch_call) (call_stub a x) in
  context_ok y /\ read_le 8 (tcb y) CONTINUATION = a /\ read_le 8 (tcb y) 0x88 = gpr (ctx_cpu x) R11 /\
  (forall r, r <> R11 -> gpr (ctx_cpu y) r = gpr (ctx_cpu x) r) /\ gpr (ctx_cpu y) R11 = a + 5 /\
  xmm (ctx_cpu y) = xmm (ctx_cpu x) /\ mxcsr (ctx_cpu y) = mxcsr (ctx_cpu x) /\ fcw (ctx_cpu y) = fcw (ctx_cpu x) /\
  forall b, b < gpr (ctx_cpu x) RSP - 8 \/ gpr (ctx_cpu x) RSP <= b -> stack y b = stack x b.
Proof.
  destruct x as [c t s]. intros (Hg & Hx & Hm & Hf & Ht) Ha Ha' Hsp. cbn [ctx_cpu tcb stack] in *.
  unfold stub_body, call_stub. cbn [stub_code length Nat.sub take]. steps.
  set (sp := gpr c RSP) in *. assert (Hsp' : 0 <= sp < 2 ^ 64) by apply Hg.
  rewrite !decide_True, !decide_False by done. rewrite (u64_small (sp - 8)) by lia. rewrite (u64_small (sp - 8 + 8)) by lia.
  assert (Hra : read_le 8 (write_le 8 s (sp - 8) (a + 5)) (sp - 8) = a + 5) by (apply read_same; cbn; lia).
  rewrite Hra. replace (sp - 8 + 8) with sp by lia.
  destruct (write_low_half (write_le 8 t 136 (gpr c R11)) 32 (a + 5) a) as [Hlow Hcont]; [lia|lia|].
  rewrite !(decide_True (P := R11 = R11)) by done. rewrite Hlow. replace (a + 5 - 5) with a by lia. unfold u32, wrap. rewrite (Z.mod_small a) by lia.
  split; [|split; [|split; [|split; [|split; [|split; [|split; [|split]]]]]]].
  - split; [|split; [|split; [|split]]]; cbn [ctx_cpu tcb set_gpr gpr xmm mxcsr fcw]; [|done|done|done|].
    + intros r. destruct (decide (r = R11)); [lia|]. destruct (decide (r = RSP)) as [->|]; [exact Hsp'|]. apply Hg.
    + by repeat apply write_le_ok.
  - exact Hcont.
  - rewrite !read_write_apart by (unfold apart; lia). apply read_same. apply Hg.
  - intros r Hr. rewrite decide_False by done. destruct (decide (r = RSP)) as [->|]; done.
  - done.
  - done.
  - done.
  - done.
  - intros b Hb. apply write_le_out. lia.
Qed.

(** C27.  A direct call of [__patch_call] at the address [a] comes back to [a]
    itself, where the call has been patched: every general register, the
    control words, the low halves of the vector registers that carry arguments
    and the stack (but for the word of the return address) are as before the
    call, however long the thread spun and whatever the C function did within
    its calling convention.  The high halves of the vector registers are lost. *)
Theorem patch_call_transparent a x th th' rip : context_ok x -> 0 <= a -> a + 5 < 2 ^ 32 -> 8 <= gpr (ctx_cpu x) RSP ->
  loc th = Stub __patch_call 0 -> ctx th = call_stub a x -> rtc away_step th th' -> loc th' = Sandbox rip ->
  rip = a /\ same_to_program x (ctx th').
Proof.
  intros Hok Ha Ha' Hsp Hl Hx H Hr. destruct (patch_call_stub_ok a x Hok Ha Ha' Hsp) as (Y1 & Y2 & Y3 & Y4 & Y5 & Y6 & Y7 & Y8 & Y9).
  rewrite <- Hx in *. destruct (stub_exit __patch_call th th' rip Hl H Hr Y1) as [E1 E2 E3 [E4 E5] E6 E7 E8].
  destruct (E8 eq_refl) as (P1 & P2 & P3). split; [congruence|]. constructor.
  - intros r. destruct (decide (r = R11)) as [->|Hr11]; [congruence|]. by rewrite P1, Y4.
  - intros k Hk. by rewrite P3, Y6.
  - congruence.
  - congruence.
  - intros b Hb. by rewrite E3, Y9.
Qed.

(** A trampoline of libc comes back behind its jump, on the stack it left,
    with the registers that a function keeps. *)
Theorem trampoline_returns e label th th' rip : context_ok (ctx th) -> 0 <= label < 2 ^ 64 ->
  loc th = Stub (TRAMP_CALL e label) 0 -> rtc away_step th th' -> loc th' = Sandbox rip ->
  rip = label /\ stack (ctx th') = stack (ctx th) /\
  (forall r, kept r = true -> gpr (ctx_cpu (ctx th')) r = gpr (ctx_cpu (ctx th)) r).
Proof.
  intros Hok Hlab Hl H Hr.
  assert (Y : let y := run (stub_body (TRAMP_CALL e label)) (ctx th) in
    context_ok y /\ read_le 8 (tcb y) CONTINUATION = label /\ stack y = stack (ctx th) /\
    forall r, r <> R11 -> gpr (ctx_cpu y) r = gpr (ctx_cpu (ctx th)) r).
  { destruct (ctx th) as [c t s]. destruct Hok as (Hg & Hx & Hm & Hf & Ht). cbn [ctx_cpu tcb] in *.
    unfold stub_body. cbn [stub_code length Nat.sub take]. steps. rewrite decide_True by done.
    split; [|split; [|split]].
    - split; [|split; [|split; [|split]]]; cbn [ctx_cpu tcb set_gpr gpr xmm mxcsr fcw]; [|done|done|done|].
      + intros r. destruct (decide (r = R11)); [lia|apply Hg].
      + by apply write_le_ok.
    - apply read_same. cbn. lia.
    - done.
    - intros r Hr11. by rewrite decide_False. }
  destruct Y as (Y1 & Y2 & Y3 & Y4). destruct (stub_exit _ th th' rip Hl H Hr Y1) as [E1 E2 E3 _ _ _ _].
  split; [congruence|]. split; [congruence|]. intros r Hk. rewrite E2 by done. apply Y4. by intros ->.
Qed.
End stubs.

(** ** The first entry *)

(** The program starts on the stack that [runtime_init] built; but for three
    registers it is given what the runtime left in them. *)
Lemma start_registers runtime_init stk c : let '(c', entry) := _start runtime_init stk c in
  let '(ci, libc_entry) := runtime_init (read_le 8 stk (gpr c RSP)) (u64 (gpr c RSP + 8))
    (set_gpr (set_gpr (set_gpr c RBP 0) RDI (read_le 8 stk (gpr c RSP))) RSI (u64 (gpr c RSP + 8))) in
  entry = libc_entry /\ gpr c' RSP = u32 (gpr ci RAX) /\ gpr c' RAX = 0 /\ gpr c' RDI = 0 /\
  forall r, r <> RSP -> r <> RAX -> r <> RDI -> gpr c' r = gpr ci r.
Proof.
  unfold _start. cbn [set_gpr gpr]. repeat (rewrite decide_True by done). repeat (rewrite decide_False by done).
  destruct (runtime_init _ _ _) as [ci e]. cbn [set_gpr gpr].
  split; [done|]. split; [by repeat (first [rewrite decide_True by done | rewrite decide_False by done])|].
  split; [by repeat (first [rewrite decide_True by done | rewrite decide_False by done])|].
  split; [by rewrite decide_True|]. intros r H1 H2 H3. by rewrite !decide_False.
Qed.

(** ** A call in the small system *)
#[local] Existing Instances counter counter_run.

Lemma advances_away n : forall p q, view_mem_ok p -> advances n p = Some q -> rtc away_step (vthread p) (vthread q).
Proof.
  induction n as [|n IH]; intros p q Hok H; cbn in H; [by injection H as <-|].
  destruct (advance p) as [p1|] eqn:E; [|done]. destruct (advance_ok p p1 Hok E) as (Hout & [lab Hm] & Hok').
  apply (rtc_l _ _ (vthread p1)); [|by apply IH]. split; [done|]. by eexists _, _, _, _, _.
Qed.

Lemma after_steps_away n p : view_mem_ok p -> rtc away_step (vthread p) (vthread (after_steps n p)).
Proof.
  intros Hok. unfold after_steps. destruct (advances n p) as [q|] eqn:E; [|done]. by apply (advances_away n).
Qed.

Lemma small_context_ok : context_ok small_context.
Proof.
  split; [|split; [|split; [|split]]]; cbn [small_context ctx_cpu gpr xmm mxcsr fcw tcb fst]; [|intros k|lia|lia|intros a; lia].
  - intros r. destruct (decide (r = RSP)); lia.
  - div_lia.
Qed.

Definition small_call : view := View (Thread (Stub __patch_call 0) (call_stub 0x400 small_context)) 0 0.

Lemma patch_call_transparent_witness :
  loc (vthread (after_steps 62 small_call)) = Sandbox 0x400 /\
  0x400 = 0x400 /\ same_to_program small_context (ctx (vthread (after_steps 62 small_call))).
Proof.
  assert (H : loc (vthread (after_steps 62 small_call)) = Sandbox 0x400) by (vm_compute; reflexivity).
  split; [exact H|].
  apply (patch_call_transparent 0x400 small_context (vthread small_call) (vthread (after_steps 62 small_call)) 0x400);
    [exact small_context_ok|lia|lia|vm_compute; discriminate|reflexivity|reflexivity| |exact H].
  apply after_steps_away. exact (proj2 (proj2 (proj2 (proj2 small_context_ok)))).
Defined.
