(* ===== verification/Fork.v ===== *)
(** * Fork ([runtime.c], [rock_fork] and what it calls)

    The code and the [.got.plt] of a module are shared mappings, which [fork]
    would leave shared between the two processes.  So their contents are
    copied to private memory and the mappings removed before the system call;
    after it, each process makes mappings of its own and copies the contents
    back, both at the same time and with one file name between them.

    The code of one process is a sequence of system calls, of loads and of
    stores; a step of the system is one of them, of either process.  What the
    kernel does is a parameter, with its documented behaviour as laws: the
    memory of a process is pages of memory objects, and a file of shared
    memory is an object. *)

From S2P Require Import Prelude Dict Graph Module Pager MemCalls CodeHeap.

(** ** The memory of the two processes *)

(** Memory objects are told apart by a number. *)
Definition object : Type := Z.

(** [false] is the process that calls [fork], [true] its child. *)
Record view : Type := View {
  page : bool -> Z -> option (object * Z * Z);   (* the object, the page of it, the protection *)
  cell : object -> Z -> Z;
  fsize : object -> Z;
  shared : object -> bool;
  named : option object;                         (* the file /dev/shm/mcfi *)
  handle : bool -> Z -> option object;
}.

Definition locate (v : view) (p : bool) (a : Z) : option (object * Z * Z) :=
  match page v p (a / PAGE_SIZE) with
  | Some (o, i, prot) =>
    let off := i * PAGE_SIZE + a mod PAGE_SIZE in
    if off <? fsize v o then Some (o, off, prot) else None
  | None => None
  end.

(** A page that can be executed or written can be read, on this processor. *)
Definition load (v : view) (p : bool) (a : Z) : option Z :=
  match locate v p a with
  | Some (o, off, prot) => if prot =? PROT_NONE then None else Some (cell v o off)
  | None => None
  end.

Definition writable (v : view) (p : bool) (a : Z) : option (object * Z) :=
  match locate v p a with
  | Some (o, off, prot) => if has prot PROT_WRITE then Some (o, off) else None
  | None => None
  end.

(** ** System calls *)
Inductive call : Set :=
  | MmapAnon (len prot : Z)             (* mmap(0, len, prot, MAP_ANONYMOUS | MAP_PRIVATE, -1, 0) *)
  | MmapShared (a len prot fd : Z)      (* mmap(a, len, prot, MAP_SHARED | MAP_FIXED, fd, 0) *)
  | Munmap (a len : Z)
  | ShmOpen                             (* shm_open(shmname, O_RDWR | O_CREAT | O_EXCL, 0744) *)
  | Ftruncate (fd size : Z)
  | Close (fd : Z)
  | ShmUnlink.

(** The answer is the result and [errn]. *)
Class Kernel : Type := {
  kernel : Type;
  view_of : kernel -> view;
  sys : kernel -> bool -> call -> kernel * (Z * Z);
  poke : kernel -> object -> Z -> Z -> kernel;
  sys_fork : kernel -> kernel * Z;
}.

(** ** The code of a process *)
Inductive prog (A : Type) : Type :=
  | Ret (a : A)
  | Quit                                            (* quit(-1) *)
  | Crash                                           (* an access that faults *)
  | Sys (c : call) (f : Z * Z -> prog A)
  | Again (c : call) (f : Z * Z -> option (prog A)) (* a call made over and over *)
  | Load (a : Z) (f : Z -> prog A)
  | Store (a b : Z) (f : prog A)
  | Fork (f : Z -> prog A).

#[global] Arguments Ret {A} _.
#[global] Arguments Quit {A}.
#[global] Arguments Crash {A}.
#[global] Arguments Sys {A} _ _.
#[global] Arguments Again {A} _ _.
#[global] Arguments Load {A} _ _.
#[global] Arguments Store {A} _ _ _.
#[global] Arguments Fork {A} _.

Fixpoint prog_then {A B} (pr : prog A) (g : A -> prog B) : prog B :=
  match pr with
  | Ret a => g a
  | Quit => Quit
  | Crash => Crash
  | Sys c f => Sys c (fun r => prog_then (f r) g)
  | Again c f => Again c (fun r => match f r with Some pr' => Some (prog_then pr' g) | None => None end)
  | Load a f => Load a (fun b => prog_then (f b) g)
  | Store a b f => Store a b (prog_then f g)
  | Fork f => Fork (fun rv => prog_then (f rv) g)
  end.

#[export] Instance prog_bind : MBind prog := fun A B g pr => prog_then pr g.
#[export] Instance prog_ret : MRet prog := fun A a => Ret a.

Definition call_of (c : call) : prog (Z * Z) := Sys c Ret.

(** [memcpy], byte by byte. *)
Fixpoint memcpy (n : nat) (dst src : Z) : prog unit :=
  match n with
  | O => Ret tt
  | S n' => Load src (fun b => Store dst b (memcpy n' (dst + 1) (src + 1)))
  end.

(** The loop around [shm_open]. *)
Definition open_new : prog Z :=
  Again ShmOpen (fun '(fd, e) =>
    if 0 <=? fd then Some (Ret fd)
    else if (fd =? -1) && (e =? EEXIST) then None
    else Some Quit).

Definition restore_parallel_mapping (base osb_base size prot : Z) : prog unit :=
  fd ← open_new;
  '(r, _) ← call_of (Ftruncate fd size);
  if negb (r =? 0) then Quit
  else if negb (size mod PAGE_SIZE =? 0) then Quit
  else
    '(new_base, _) ← call_of (MmapShared base size prot fd);
    if negb (base =? new_base) then Quit
    else
      '(new_osb_base, _) ← call_of (MmapShared osb_base size PROT_WRITE fd);
      if negb (osb_base =? new_osb_base) then Quit
      else
        _ ← call_of (Close fd);
        _ ← call_of ShmUnlink;
        Ret tt.

(** A module with the fields [code] and [gotpltcontent]. *)
Record saved : Type := mkSaved { s_module : code_module; s_code : Z; s_gotpltcontent : Z }.

Definition has_gotplt (m : code_module) : bool := instrumented m && (0 <? gotpltsz m).

(** The copy of a range in private memory. *)
Definition save_range (a size : Z) : prog Z :=
  '(code, _) ← call_of (MmapAnon size (Z.lor PROT_WRITE PROT_READ));
  if code =? u64 (-1) then Quit
  else
    _ ← memcpy (Z.to_nat size) code a;
    Ret code.

Fixpoint save_copies (ms : list code_module) : prog (list saved) :=
  match ms with
  | [] => Ret []
  | m :: ms' =>
    code ← save_range (base_addr m) (sz m);
    content ← (if has_gotplt m then save_range (gotplt m) (gotpltsz m) else Ret 0);
    rest ← save_copies ms';
    Ret (mkSaved m code content :: rest)
  end.

Fixpoint unmap_modules (ms : list code_module) : prog unit :=
  match ms with
  | [] => Ret tt
  | m :: ms' =>
    _ ← call_of (Munmap (base_addr m) (sz m));
    _ ← call_of (Munmap (osb_base_addr m) (sz m));
    _ ← (if has_gotplt m then
           _ ← call_of (Munmap (gotplt m) (gotpltsz m));
           _ ← call_of (Munmap (osb_gotplt m) (gotpltsz m));
           Ret tt
         else Ret tt);
    unmap_modules ms'
  end.

Definition save_content (ms : list code_module) : prog (list saved) :=
  l ← save_copies ms;
  _ ← unmap_modules ms;
  Ret l.

(** The copy back. *)
Definition restore_range (base osb_base size prot copy : Z) : prog unit :=
  _ ← restore_parallel_mapping base osb_base size prot;
  _ ← memcpy (Z.to_nat size) osb_base copy;
  _ ← call_of (Munmap copy size);
  Ret tt.

Fixpoint restore_content (l : list saved) : prog unit :=
  match l with
  | [] => Ret tt
  | s :: l' =>
    let m := s_module s in
    _ ← restore_range (base_addr m) (osb_base_addr m) (sz m) PROT_EXEC (s_code s);
    _ ← (if has_gotplt m then
           restore_range (gotplt m) (osb_gotplt m) (gotpltsz m) PROT_READ (s_gotpltcontent s)
         else Ret tt);
    restore_content l'
  end.

Definition rock_fork (ms : list code_module) : prog Z :=
  l ← save_content ms;
  rv ← Fork Ret;
  _ ← restore_content l;
  Ret rv.

(** ** The two processes *)
Section machine.
Context `{K : Kernel}.

Record machine : Type := Machine {
  ker : kernel;
  parent : prog Z;
  child : option (prog Z);
}.

(** One step of the code of a process. *)
Definition exec {A} (p : bool) (k : kernel) (pr : prog A) : kernel * prog A :=
  match pr with
  | Sys c f => let '(k, r) := sys k p c in (k, f r)
  | Again c f => let '(k, r) := sys k p c in (k, default pr (f r))
  | Load a f => (k, match load (view_of k) p a with Some b => f b | None => Crash end)
  | Store a b f => match writable (view_of k) p a with Some (o, off) => (poke k o off b, f) | None => (k, Crash) end
  | _ => (k, pr)
  end.

Definition turn (c : machine) (p : bool) : machine :=
  if p then
    match child c with
    | Some pr => let '(k, pr) := exec true (ker c) pr in Machine k (parent c) (Some pr)
    | None => c
    end
  else
    match parent c with
    | Fork f =>
      let '(k, rv) := sys_fork (ker c) in
      Machine k (f rv) (if 0 <? rv then Some (f 0) else child c)
    | pr => let '(k, pr) := exec false (ker c) pr in Machine k pr (child c)
    end.

(** A schedule says whose step is next. *)
Definition run (s : list bool) (c : machine) : machine := foldl turn c s.

Definition start_fork (k : kernel) (ms : list code_module) : machine := Machine k (rock_fork ms) None.
End machine.
