(* ===== verification/ForkKernel.v ===== *)
(** * What the kernel does for [fork]

    The documented behaviour of the system calls, as a relation between the
    memory before and after, and the laws of a kernel that follows it; and a
    small kernel that does.  A law says nothing of a call that the code does
    not make, such as the truncation of a file that is not open. *)

From S2P Require Import Prelude Dict Graph Module Pager MemCalls CodeHeap Fork.

(** A process maps or has opened an object. *)
Definition uses (v : view) (p : bool) (o : object) : Prop :=
  (exists n i prot, page v p n = Some (o, i, prot)) \/ (exists fd, handle v p fd = Some o).

Definition fresh (v : view) (o : object) : Prop := named v <> Some o /\ forall p, ~ uses v p o.

(** ** Changes *)
Definition in_range (first count n : Z) : bool := (first <=? n) && (n <? first + count).

Definition set_pages (v : view) (p : bool) (first count : Z) (f : Z -> option (object * Z * Z)) : view :=
  View (fun q n => if Bool.eqb q p && in_range first count n then f n else page v q n)
    (cell v) (fsize v) (shared v) (named v) (handle v).

Definition map_pages (v : view) (p : bool) (first count : Z) (o : object) (prot : Z) : view :=
  set_pages v p first count (fun n => Some (o, n - first, prot)).

Definition unmap_pages (v : view) (p : bool) (first count : Z) : view := set_pages v p first count (fun _ => None).

(** A new object, of zeros. *)
Definition new_object (v : view) (o : object) (size : Z) (sh : bool) : view :=
  View (page v)
    (fun o' i => if o' =? o then 0 else cell v o' i)
    (fun o' => if o' =? o then size else fsize v o')
    (fun o' => if o' =? o then sh else shared v o')
    (named v) (handle v).

Definition set_handle (v : view) (p : bool) (fd : Z) (h : option object) : view :=
  View (page v) (cell v) (fsize v) (shared v) (named v)
    (fun q d => if Bool.eqb q p && (d =? fd) then h else handle v q d).

Definition set_name (v : view) (n : option object) : view :=
  View (page v) (cell v) (fsize v) (shared v) n (handle v).

Definition set_size (v : view) (o : object) (size : Z) : view :=
  View (page v)
    (fun o' i => if (o' =? o) && (fsize v o <=? i) then 0 else cell v o' i)
    (fun o' => if o' =? o then size else fsize v o')
    (shared v) (named v) (handle v).

Definition set_cell (v : view) (o : object) (off b : Z) : view :=
  View (page v) (fun o' i => if (o' =? o) && (i =? off) then b else cell v o' i)
    (fsize v) (shared v) (named v) (handle v).

(** ** System calls *)
Definition paged (len : Z) : Prop := 0 < len /\ len mod PAGE_SIZE = 0.

(** The calls that the laws are about. *)
Definition call_ok (v : view) (p : bool) (c : call) : Prop :=
  match c with
  | MmapAnon len _ => paged len
  | MmapShared a len _ fd => a mod PAGE_SIZE = 0 /\ paged len /\ handle v p fd <> None
  | Munmap a len => a mod PAGE_SIZE = 0 /\ paged len
  | ShmOpen => True
  | Ftruncate fd size => handle v p fd <> None /\ 0 < size
  | Close fd => handle v p fd <> None
  | ShmUnlink => named v <> None
  end.

(** What a refused call returns. *)
Definition failure (c : call) : Z :=
  match c with MmapAnon _ _ | MmapShared _ _ _ _ => u64 (-1) | _ => -1 end.

Definition may_fail (c : call) : bool :=
  match c with MmapAnon _ _ | MmapShared _ _ _ _ | ShmOpen | Ftruncate _ _ => true | _ => false end.

(** [refuse] says whether a call may fail for want of resources. *)
Inductive outcome (refuse : Prop) (v : view) (p : bool) : call -> Z * Z -> view -> Prop :=
  | did_anon len prot a o e : a mod PAGE_SIZE = 0 -> 0 < a ->
      (forall n, in_range (a / PAGE_SIZE) (len / PAGE_SIZE) n = true -> page v p n = None) -> fresh v o ->
      outcome refuse v p (MmapAnon len prot) (a, e)
        (map_pages (new_object v o len false) p (a / PAGE_SIZE) (len / PAGE_SIZE) o prot)
  | did_shared a len prot fd o e : handle v p fd = Some o ->
      outcome refuse v p (MmapShared a len prot fd) (a, e)
        (map_pages v p (a / PAGE_SIZE) (len / PAGE_SIZE) o prot)
  | did_munmap a len e :
      outcome refuse v p (Munmap a len) (0, e) (unmap_pages v p (a / PAGE_SIZE) (len / PAGE_SIZE))
  | did_open fd o e : named v = None -> 0 <= fd -> handle v p fd = None -> fresh v o ->
      outcome refuse v p ShmOpen (fd, e) (set_name (set_handle (new_object v o 0 true) p fd (Some o)) (Some o))
  | did_not_open : named v <> None -> outcome refuse v p ShmOpen (-1, EEXIST) v
  | did_truncate fd size o e : handle v p fd = Some o ->
      outcome refuse v p (Ftruncate fd size) (0, e) (set_size v o size)
  | did_close fd e : outcome refuse v p (Close fd) (0, e) (set_handle v p fd None)
  | did_unlink e : outcome refuse v p ShmUnlink (0, e) (set_name v None)
  | did_refuse c e : refuse -> may_fail c = true -> (c = ShmOpen -> e <> EEXIST) ->
      outcome refuse v p c (failure c, e) v.

(** ** [fork] *)
Definition no_child (v : view) : Prop := (forall n, page v true n = None) /\ forall fd, handle v true fd = None.

(** The child has the same mappings, with copies of the private objects. *)
Record forked (v v' : view) (dup : object -> object) : Prop := {
  fork_fresh : forall o, uses v false o -> fresh v (dup o);
  fork_inj : forall o o', uses v false o -> uses v false o' -> dup o = dup o' -> o = o';
  fork_parent : forall n, page v' false n = page v false n;
  fork_child : forall n, page v' true n =
    (fun '(o, i, prot) => (if shared v o then o else dup o, i, prot)) <$> page v false n;
  fork_handle : forall fd, handle v' false fd = handle v false fd /\ handle v' true fd = handle v false fd;
  fork_named : named v' = named v;
  fork_kept : forall o, uses v false o ->
    (forall i, cell v' o i = cell v o i) /\ fsize v' o = fsize v o /\ shared v' o = shared v o;
  fork_copied : forall o, uses v false o ->
    (forall i, cell v' (dup o) i = cell v o i) /\ fsize v' (dup o) = fsize v o /\ shared v' (dup o) = shared v o;
}.

(** ** The laws *)
Class KernelLaws `{Kernel} (refuse : Prop) : Type := {
  kok : kernel -> Prop;
  sys_law k p c k' r : kok k -> call_ok (view_of k) p c -> sys k p c = (k', r) ->
    kok k' /\ outcome refuse (view_of k) p c r (view_of k');
  poke_law k o off b : kok k -> kok (poke k o off b) /\ view_of (poke k o off b) = set_cell (view_of k) o off b;
  fork_law k k' rv : kok k -> no_child (view_of k) -> sys_fork k = (k', rv) -> kok k' /\
    ((refuse /\ rv < 0 /\ view_of k' = view_of k) \/
     0 < rv /\ exists dup, forked (view_of k) (view_of k') dup);
}.

(** ** A small kernel

    Objects, pages and descriptors are taken from counters and never used
    again. *)
Record small_kernel : Type := SmallKernel {
  k_view : view;
  next_object : Z;
  next_page : Z;
  next_fd : Z;
}.

Definition small_sys (k : small_kernel) (p : bool) (c : call) : small_kernel * (Z * Z) :=
  let v := k_view k in
  let o := next_object k in
  match c with
  | MmapAnon len prot =>
    let first := next_page k in
    (SmallKernel (map_pages (new_object v o len false) p first (len / PAGE_SIZE) o prot) (o + 1)
       (first + len / PAGE_SIZE) (next_fd k), (first * PAGE_SIZE, 0))
  | MmapShared a len prot fd =>
    match handle v p fd with
    | Some o' =>
      (k {{ k_view := map_pages v p (a / PAGE_SIZE) (len / PAGE_SIZE) o' prot }}
         {{ next_page := Z.max (next_page k) (a / PAGE_SIZE + len / PAGE_SIZE) }}, (a, 0))
    | None => (k, (u64 (-1), 9))
    end
  | Munmap a len => (k {{ k_view := unmap_pages v p (a / PAGE_SIZE) (len / PAGE_SIZE) }}, (0, 0))
  | ShmOpen =>
    match named v with
    | Some _ => (k, (-1, EEXIST))
    | None =>
      (SmallKernel (set_name (set_handle (new_object v o 0 true) p (next_fd k) (Some o)) (Some o)) (o + 1)
         (next_page k) (next_fd k + 1), (next_fd k, 0))
    end
  | Ftruncate fd size =>
    match handle v p fd with
    | Some o' => (k {{ k_view := set_size v o' size }}, (0, 0))
    | None => (k, (-1, 9))
    end
  | Close fd => (k {{ k_view := set_handle v p fd None }}, (0, 0))
  | ShmUnlink => (k {{ k_view := set_name v None }}, (0, 0))
  end.

Definition small_fork (k : small_kernel) : small_kernel * Z :=
  let v := k_view k in
  let m := next_object k in
  (SmallKernel
    (View (fun p n => if p then (fun '(o, i, prot) => (if shared v o then o else o + m, i, prot)) <$> page v false n
                      else page v false n)
       (fun o i => if o <? m then cell v o i else cell v (o - m) i)
       (fun o => if o <? m then fsize v o else fsize v (o - m))
       (fun o => if o <? m then shared v o else shared v (o - m))
       (named v) (fun _ fd => handle v false fd))
    (2 * m) (next_page k) (next_fd k), 1).

#[export] Instance small : Kernel := {|
  kernel := small_kernel;
  view_of := k_view;
  sys := small_sys;
  poke k o off b := k {{ k_view := set_cell (k_view k) o off b }};
  sys_fork := small_fork;
|}.

(** Whatever is in use is below the counters. *)
Record small_ok (k : small_kernel) : Prop := {
  ok_objects : forall p o, uses (k_view k) p o -> 0 <= o < next_object k;
  ok_named : forall o, named (k_view k) = Some o -> 0 <= o < next_object k;
  ok_pages : forall p n, page (k_view k) p n <> None -> n < next_page k;
  ok_fds : forall p fd, handle (k_view k) p fd <> None -> fd < next_fd k;
  ok_counters : 0 < next_object k /\ 0 < next_page k /\ 0 <= next_fd k;
}.

Lemma page_set_pages v p first count f q n :
  page (set_pages v p first count f) q n = if Bool.eqb q p && in_range first count n then f n else page v q n.
Proof. by destruct v. Qed.

Lemma handle_set_handle v p fd h q d :
  handle (set_handle v p fd h) q d = if Bool.eqb q p && (d =? fd) then h else handle v q d.
Proof. by destruct v. Qed.

Lemma uses_set_pages v p first count f q o : uses (set_pages v p first count f) q o ->
  uses v q o \/ (q = p /\ exists n i prot, in_range first count n = true /\ f n = Some (o, i, prot)).
Proof.
  intros [(n & i & prot & H)|(fd & H)]; [|left; right; by exists fd]. rewrite page_set_pages in H.
  destruct (Bool.eqb q p) eqn:Hq; cbn [andb] in H; [|left; left; eauto].
  destruct (in_range first count n) eqn:Hn; [|left; left; eauto].
  right. split; [by apply eqb_prop|eauto].
Qed.

Lemma uses_new_object v o size sh q o' : uses (new_object v o size sh) q o' <-> uses v q o'.
Proof. done. Qed.

Lemma uses_set_handle v p fd h q o : uses (set_handle v p fd h) q o -> uses v q o \/ (q = p /\ h = Some o).
Proof.
  intros [H|(d & H)]; [left; by left|]. rewrite handle_set_handle in H.
  destruct (Bool.eqb q p) eqn:Hq; cbn [andb] in H; [|left; right; eauto].
  destruct (d =? fd); [|left; right; eauto]. right. split; [by apply eqb_prop|done].
Qed.

Lemma small_fresh k : small_ok k -> fresh (k_view k) (next_object k).
Proof.
  intros [H1 H2 _ _ _]. split.
  - intros H. apply H2 in H. lia.
  - intros p H. apply H1 in H. lia.
Qed.

Lemma small_anon_ok k p o len prot count : small_ok k -> o = next_object k -> 0 < count ->
  small_ok (SmallKernel (map_pages (new_object (k_view k) o len false) p (next_page k) count o prot) (o + 1)
    (next_page k + count) (next_fd k)).
Proof.
  intros [H1 H2 H3 H4 H5] -> Hc. constructor; cbn [k_view next_object next_page next_fd].
  - intros q o' H. apply uses_set_pages in H as [H|(-> & n & i & prot' & _ & E)]; [apply H1 in H; lia|].
    injection E as <- _ _. lia.
  - intros o' H. apply H2 in H. lia.
  - intros q n. unfold map_pages. rewrite page_set_pages. case_match eqn:E; intros H; [|apply H3 in H; lia].
    unfold in_range in E. bool_lia.
  - exact H4.
  - lia.
Qed.

Lemma small_pages_ok k p first count o prot next : small_ok k -> uses (k_view k) p o ->
  next_page k <= next -> first + count <= next ->
  small_ok (SmallKernel (map_pages (k_view k) p first count o prot) (next_object k) next (next_fd k)).
Proof.
  intros [H1 H2 H3 H4 H5] Ho Hn Hn'. constructor; cbn [k_view next_object next_page next_fd constant].
  - intros q o' H. apply uses_set_pages in H as [H|(-> & n & i & prot' & _ & E)]; [by apply H1 in H|].
    injection E as <- _ _. by apply H1 in Ho.
  - exact H2.
  - intros q n. unfold map_pages. rewrite page_set_pages. case_match eqn:E; intros H; [|apply H3 in H; lia].
    unfold in_range in E. bool_lia.
  - exact H4.
  - lia.
Qed.

Lemma small_same_ok k v : small_ok k -> (forall p o, uses v p o -> uses (k_view k) p o) ->
  (forall o, named v = Some o -> named (k_view k) = Some o) ->
  (forall p n, page v p n <> None -> page (k_view k) p n <> None) ->
  (forall p fd, handle v p fd <> None -> handle (k_view k) p fd <> None) ->
  small_ok (SmallKernel v (next_object k) (next_page k) (next_fd k)).
Proof. intros [H1 H2 H3 H4 H5] A B C D. constructor; cbn; eauto. Qed.

Lemma small_open_ok k p o : small_ok k -> o = next_object k ->
  small_ok (SmallKernel (set_name (set_handle (new_object (k_view k) o 0 true) p (next_fd k) (Some o)) (Some o)) (o + 1)
    (next_page k) (next_fd k + 1)).
Proof.
  intros [H1 H2 H3 H4 H5] ->. constructor; cbn [k_view next_object next_page next_fd].
  - intros q o' H. change (uses (set_handle (new_object (k_view k) (next_object k) 0 true) p (next_fd k)
      (Some (next_object k))) q o') in H.
    apply uses_set_handle in H as [H|[-> [= <-]]]; [apply uses_new_object, H1 in H; lia|lia].
  - intros o' [= <-]. lia.
  - exact H3.
  - intros q fd. change (handle (set_handle (new_object (k_view k) (next_object k) 0 true) p (next_fd k)
      (Some (next_object k))) q fd <> None -> fd < next_fd k + 1).
    rewrite handle_set_handle. case_match eqn:E; intros H; [bool_lia|apply H4 in H; lia].
  - lia.
Qed.

Lemma paged_pages len : paged len -> 0 < len / PAGE_SIZE /\ len = len / PAGE_SIZE * PAGE_SIZE.
Proof. unfold paged, PAGE_SIZE. intros [H1 H2]. div_lia. Qed.

Lemma small_sys_law k p c k' r : small_ok k -> call_ok (k_view k) p c -> small_sys k p c = (k', r) ->
  small_ok k' /\ outcome False (k_view k) p c r (k_view k').
Proof.
  intros Hok Hc Hrun. pose proof (small_fresh k Hok) as Hf. pose proof (ok_counters _ Hok) as Hcnt.
  destruct c as [len prot|a len prot fd|a len| |fd size|fd|]; cbn [small_sys call_ok] in *.
  - injection Hrun as <- <-. destruct (paged_pages len Hc) as [Hp Hl]. split; [by apply small_anon_ok|]. cbn [k_view].
    replace (next_page k) with (next_page k * PAGE_SIZE / PAGE_SIZE) at 2 by (by rewrite Z.div_mul).
    apply did_anon; [by apply Z.mod_mul|unfold PAGE_SIZE; lia| |done]. rewrite Z.div_mul by done.
    intros n Hn. destruct (page (k_view k) p n) eqn:E; [|done].
    assert (H : n < next_page k) by (apply (ok_pages _ Hok p); by rewrite E). unfold in_range in Hn. bool_lia.
  - destruct Hc as (Ha & Hl & Hh). destruct (handle (k_view k) p fd) as [o|] eqn:E; [|done]. injection Hrun as <- <-.
    split; [|by apply (did_shared _ _ _ _ _ _ fd)].
    apply (small_pages_ok k p); [done|right; by exists fd|apply Z.le_max_l|apply Z.le_max_r].
  - injection Hrun as <- <-. split; [|apply did_munmap].
    apply (small_same_ok k (unmap_pages (k_view k) p (a / PAGE_SIZE) (len / PAGE_SIZE))); [done|..].
    + intros q o H. by apply uses_set_pages in H as [H|(-> & n & i & pr & _ & E)].
    + done.
    + intros q n. unfold unmap_pages. rewrite page_set_pages. by case_match.
    + done.
  - destruct (named (k_view k)) as [o|] eqn:E; injection Hrun as <- <-.
    + split; [done|]. apply did_not_open. by rewrite E.
    + split; [by apply small_open_ok|]. apply did_open; [done|lia| |done].
      destruct (handle (k_view k) p (next_fd k)) eqn:E'; [|done].
      assert (H : next_fd k < next_fd k) by (apply (ok_fds _ Hok p); by rewrite E'). lia.
  - destruct Hc as [Hh Hs]. destruct (handle (k_view k) p fd) as [o|] eqn:E; [|done]. injection Hrun as <- <-.
    split; [|by apply did_truncate]. by apply (small_same_ok k (set_size (k_view k) o size)).
  - injection Hrun as <- <-. split; [|apply did_close].
    apply (small_same_ok k (set_handle (k_view k) p fd None)); [done|..].
    + intros q o H. by apply uses_set_handle in H as [H|[_ ?]].
    + done.
    + done.
    + intros q d. rewrite handle_set_handle. by case_match.
  - injection Hrun as <- <-. split; [|apply did_unlink]. by apply (small_same_ok k (set_name (k_view k) None)).
Qed.

Lemma small_fork_law k k' rv : small_ok k -> no_child (k_view k) -> small_fork k = (k', rv) -> small_ok k' /\
  ((False /\ rv < 0 /\ k_view k' = k_view k) \/ 0 < rv /\ exists dup, forked (k_view k) (k_view k') dup).
Proof.
  intros Hok [Hnp Hnh] [= <- <-]. pose proof Hok as [H1 H2 H3 H4 H5].
  assert (Hu : forall o, uses (k_view k) false o -> 0 <= o < next_object k) by (intros o; apply H1).
  split.
  - constructor; cbn [k_view next_object next_page next_fd].
    + intros p o [(n & i & prot & H)|(fd & H)]; cbn in H.
      * destruct p.
        -- destruct (page (k_view k) false n) as [[[o0 i0] pr0]|] eqn:E; [|done]. cbn in H. injection H as <- _ _.
           assert (0 <= o0 < next_object k) by (apply Hu; left; eauto). destruct (shared (k_view k) o0); lia.
        -- assert (0 <= o < next_object k) by (apply Hu; left; eauto). lia.
      * assert (0 <= o < next_object k) by (apply Hu; right; eauto). lia.
    + intros o H. apply H2 in H. lia.
    + intros p n H. cbn in H. apply (H3 false). destruct p; [|done].
      destruct (page (k_view k) false n); [done|]. by cbn in H.
    + intros p fd H. by apply (H4 false).
    + lia.
  - right. split; [lia|]. exists (fun o => o + next_object k). constructor; cbn; try done.
    + intros o Ho. apply Hu in Ho. split; [intros H; apply H2 in H; lia|]. intros p H. apply H1 in H. lia.
    + intros; lia.
    + intros o Ho. apply Hu in Ho. rewrite (proj2 (Z.ltb_lt _ _)) by lia. done.
    + intros o Ho. apply Hu in Ho. rewrite (proj2 (Z.ltb_ge _ _)) by lia. by rewrite Z.add_simpl_r.
Qed.

#[export] Instance small_laws : KernelLaws False := {|
  kok := small_ok;
  sys_law := small_sys_law;
  poke_law k o off b Hk := conj (small_same_ok k (set_cell (k_view k) o off b) Hk
    (fun _ _ H => H) (fun _ H => H) (fun _ _ H => H) (fun _ _ H => H)) eq_refl;
  fork_law := small_fork_law;
|}.
