(* ===== verification/ForkLogic.v ===== *)
(** * Reasoning about the two processes of [fork]

    A process is verified by itself, under what the other one may do
    meanwhile ([rely]) and with a proof that its own steps stay within that
    ([guar]).  [wp] runs the code of a process through every answer of the
    kernel and every interference; [within] bounds its steps, the retries
    apart.  A system of two processes that are each verified is safe, and when
    the kernel refuses nothing it ends under every fair schedule. *)

From S2P Require Import Prelude Dict Graph Module Pager MemCalls CodeHeap Fork ForkKernel.

(** ** Induction over the code *)
Section prog_induction.
Context {A : Type} (P : prog A -> Prop).
Hypothesis p_ret : forall a, P (Ret a).
Hypothesis p_quit : P Quit.
Hypothesis p_crash : P Crash.
Hypothesis p_sys : forall c f, (forall r, P (f r)) -> P (Sys c f).
Hypothesis p_again : forall c f, (forall r pr, f r = Some pr -> P pr) -> P (Again c f).
Hypothesis p_load : forall a f, (forall b, P (f b)) -> P (Load a f).
Hypothesis p_store : forall a b f, P f -> P (Store a b f).
Hypothesis p_fork : forall f, (forall rv, P (f rv)) -> P (Fork f).

Fixpoint prog_induction (pr : prog A) : P pr.
Proof using All.
  destruct pr as [a| | |c f|c f|a f|a b f|f].
  - apply p_ret.
  - exact p_quit.
  - exact p_crash.
  - apply p_sys. intros r. apply prog_induction.
  - apply p_again. intros r pr. destruct (f r) as [pr0|]; [|discriminate].
    intros E. injection E as <-. apply prog_induction.
  - apply p_load. intros b. apply prog_induction.
  - apply p_store. apply prog_induction.
  - apply p_fork. intros rv. apply prog_induction.
Qed.
End prog_induction.

(** ** Interference *)

(** The objects of one process only. *)
Definition mine (v : view) (p : bool) (o : object) : Prop := uses v p o /\ ~ uses v (negb p) o.

(** What process [p] can rely on while the other one runs. *)
Record rely (p : bool) (v v' : view) : Prop := {
  rely_page n : page v' p n = page v p n;
  rely_handle fd : handle v' p fd = handle v p fd;
  rely_other o : mine v p o -> ~ uses v' (negb p) o;
  rely_cell o i : mine v p o -> cell v' o i = cell v o i;
  rely_size o : mine v p o -> fsize v' o = fsize v o;
  rely_shared o : mine v p o -> shared v' o = shared v o;
  rely_name o : mine v p o -> named v = Some o -> named v' = Some o;
  rely_no_name o : uses v p o -> named v' = Some o -> named v = Some o;
}.

(** The file that has the name is open or mapped in one of the processes. *)
Definition named_owned (v : view) : Prop := forall o, named v = Some o -> exists q, uses v q o.

Definition guar (p : bool) (v v' : view) : Prop := rely (negb p) v v' /\ (named_owned v -> named_owned v').

Definition env (j p : bool) (v v' : view) : Prop := if j then rely p v v' else v' = v.

Definition not_holding (v : view) (p : bool) : Prop := forall o, named v = Some o -> ~ uses v p o.

Lemma rely_uses p v v' o : rely p v v' -> uses v' p o <-> uses v p o.
Proof.
  intros R. split.
  - intros [(n & i & prot & H)|(fd & H)]; [left; exists n, i, prot; by rewrite <- (rely_page _ _ _ R)|].
    right. exists fd. by rewrite <- (rely_handle _ _ _ R).
  - intros [(n & i & prot & H)|(fd & H)]; [left; exists n, i, prot; by rewrite (rely_page _ _ _ R)|].
    right. exists fd. by rewrite (rely_handle _ _ _ R).
Qed.

Lemma rely_mine p v v' o : rely p v v' -> mine v p o -> mine v' p o.
Proof. intros R H. split; [apply (rely_uses p v v' o R); apply H|by apply (rely_other _ _ _ R)]. Qed.

#[export] Instance rely_refl p : Reflexive (rely p).
Proof. intros v. constructor; try done. intros o H. apply H. Qed.

#[export] Instance rely_trans p : Transitive (rely p).
Proof.
  intros v1 v2 v3 R S. constructor.
  - intros n. by rewrite (rely_page _ _ _ S), (rely_page _ _ _ R).
  - intros fd. by rewrite (rely_handle _ _ _ S), (rely_handle _ _ _ R).
  - intros o H. apply (rely_other _ _ _ S). by apply (rely_mine p v1).
  - intros o i H. rewrite (rely_cell _ _ _ S) by (by apply (rely_mine p v1)). by apply (rely_cell _ _ _ R).
  - intros o H. rewrite (rely_size _ _ _ S) by (by apply (rely_mine p v1)). by apply (rely_size _ _ _ R).
  - intros o H. rewrite (rely_shared _ _ _ S) by (by apply (rely_mine p v1)). by apply (rely_shared _ _ _ R).
  - intros o H E. apply (rely_name _ _ _ S); [by apply (rely_mine p v1)|]. by apply (rely_name _ _ _ R).
  - intros o H E. apply (rely_no_name _ _ _ R); [done|]. apply (rely_no_name _ _ _ S); [|done].
    by apply (rely_uses p v1 v2).
Qed.

Lemma guar_refl p v : guar p v v.
Proof. by split. Qed.

Lemma env_refl j p v : env j p v v.
Proof. by destruct j. Qed.

Lemma env_rely j p v v' : env j p v v' -> rely p v v'.
Proof. destruct j; [done|]. by intros ->. Qed.

Lemma env_trans j p v1 v2 v3 : env j p v1 v2 -> env j p v2 v3 -> env j p v1 v3.
Proof. destruct j; cbn; [apply rely_trans|]. by intros -> ->. Qed.

Lemma rely_not_holding p v v' : rely p v v' -> not_holding v p -> not_holding v' p.
Proof.
  intros R H o E U. apply (rely_uses p v v' o R) in U. by apply (H o); [apply (rely_no_name _ _ _ R)|].
Qed.

Lemma guar_no_child v v' : guar false v v' -> no_child v -> no_child v'.
Proof.
  intros [R _] [H1 H2]. split; [intros n; rewrite (rely_page _ _ _ R); apply H1|].
  intros fd. rewrite (rely_handle _ _ _ R). apply H2.
Qed.

(** ** Weakest preconditions *)
Section wp.
Context (refuse : Prop).

Fixpoint wp {A} (Q : bool -> bool -> A -> view -> Prop) (j p : bool) (pr : prog A) (v : view) : Prop :=
  match pr with
  | Ret a => Q j p a v
  | Quit => refuse
  | Crash => False
  | Sys c f =>
    call_ok v p c /\
    forall r v', outcome refuse v p c r v' ->
      guar p v v' /\ forall v'', env j p v' v'' -> wp Q j p (f r) v''
  | Again c f =>
    call_ok v p c /\ not_holding v p /\
    forall r v', outcome refuse v p c r v' ->
      guar p v v' /\ forall v'', env j p v' v'' ->
        match f r with Some pr' => wp Q j p pr' v'' | None => v' = v /\ named v <> None end
  | Load a f => exists b, load v p a = Some b /\ forall v'', env j p v v'' -> wp Q j p (f b) v''
  | Store a b f =>
    exists o off, writable v p a = Some (o, off) /\ guar p v (set_cell v o off b) /\
      forall v'', env j p (set_cell v o off b) v'' -> wp Q j p f v''
  | Fork f =>
    j = false /\ p = false /\ no_child v /\
    (refuse -> forall rv, rv < 0 -> wp Q false false (f rv) v) /\
    forall rv v' dup, 0 < rv -> forked v v' dup ->
      (forall v'', rely false v' v'' -> wp Q true false (f rv) v'') /\
      (forall v'', rely true v' v'' -> wp Q true true (f 0) v'')
  end.

Lemma wp_bind {A B} (g : A -> prog B) Q Q' (pr : prog A) :
  (forall j p a v, Q j p a v -> wp Q' j p (g a) v) -> forall j p v, wp Q j p pr v -> wp Q' j p (pr ≫= g) v.
Proof.
  intros HQ. induction pr as [a| | |c f IH|c f IH|a f IH|a b f IH|f IH] using prog_induction; intros j p v; cbn.
  - apply HQ.
  - done.
  - done.
  - intros [Hc H]. split; [done|]. intros r v' Hr. destruct (H r v' Hr) as [G H']. split; [done|].
    intros v'' E. apply IH. by apply H'.
  - intros (Hc & Hh & H). split; [done|]. split; [done|]. intros r v' Hr. destruct (H r v' Hr) as [G H'].
    split; [done|]. intros v'' E. specialize (H' v'' E). destruct (f r) as [pr'|] eqn:Ef; [|done]. by apply (IH r).
  - intros (b & Hb & H). exists b. split; [done|]. intros v'' E. apply IH. by apply H.
  - intros (o & off & Hw & G & H). exists o, off. split; [done|]. split; [done|]. intros v'' E. apply IH. by apply H.
  - intros (Hj & Hp & Hn & Hfail & H). split; [done|]. split; [done|]. split; [done|]. split.
    + intros Hr rv Hrv. apply IH. by apply Hfail.
    + intros rv v' dup Hrv Hf. destruct (H rv v' dup Hrv Hf) as [H1 H2].
      split; intros v'' E; apply IH; [by apply H1|by apply H2].
Qed.


Lemma wp_seq {A B} (g : A -> prog B) Q (pr : prog A) j p v :
  wp (fun j p a v => wp Q j p (g a) v) j p pr v -> wp Q j p (pr ≫= g) v.
Proof. by apply wp_bind. Qed.

(** Before [fork], a process is alone and stays so. *)
Lemma wp_alone {A} Q (pr : prog A) : forall j p v, (j = false -> p = false /\ no_child v) -> wp Q j p pr v ->
  wp (fun j p a v => Q j p a v /\ (j = false -> no_child v)) j p pr v.
Proof.
  assert (Hstep : forall j p v v' v'', (j = false -> p = false /\ no_child v) -> guar p v v' -> env j p v' v'' ->
    j = false -> p = false /\ no_child v'').
  { intros j p v v' v'' H G E ->. destruct (H eq_refl) as [-> Hn]. cbn in E. subst. split; [done|].
    by apply (guar_no_child v). }
  induction pr as [a| | |c f IH|c f IH|a f IH|a b f IH|f IH] using prog_induction; intros j p v Hj; cbn.
  - intros H. split; [done|]. intros E. by apply Hj.
  - done.
  - done.
  - intros [Hc H]. split; [done|]. intros r v' Hr. destruct (H r v' Hr) as [G H']. split; [done|].
    intros v'' E. apply IH; [by apply (Hstep j p v v')|]. by apply H'.
  - intros (Hc & Hh & H). split; [done|]. split; [done|]. intros r v' Hr. destruct (H r v' Hr) as [G H'].
    split; [done|]. intros v'' E. specialize (H' v'' E). destruct (f r) as [pr'|] eqn:Ef; [|done].
    apply (IH r); [done|by apply (Hstep j p v v')|done].
  - intros (b & Hb & H). exists b. split; [done|]. intros v'' E.
    apply IH; [by apply (Hstep j p v v); [..|apply guar_refl|]|]. by apply H.
  - intros (o & off & Hw & G & H). exists o, off. split; [done|]. split; [done|]. intros v'' E.
    apply IH; [by apply (Hstep j p v (set_cell v o off b))|]. by apply H.
  - intros (-> & -> & Hn & Hfail & H). split; [done|]. split; [done|]. split; [done|]. split.
    + intros Hr rv Hrv. apply IH; [by intros _|]. by apply Hfail.
    + intros rv v' dup Hrv Hf. destruct (H rv v' dup Hrv Hf) as [H1 H2].
      split; intros v'' E; apply IH; [done|by apply H1|done|by apply H2].
Qed.
End wp.

(** ** A bound on the steps *)

(** [n] steps at most, the retries apart; [j] says whether the process has
    been forked already. *)
Fixpoint within {A} (j : bool) (P : A -> Prop) (n : nat) (pr : prog A) : Prop :=
  match pr with
  | Ret a => P a
  | Quit | Crash => True
  | Sys c f => exists m, (m < n)%nat /\ forall r, within j P m (f r)
  | Again c f =>
    exists m, (m < n)%nat /\ forall r, match f r with Some pr' => within j P m pr' | None => True end
  | Load a f => exists m, (m < n)%nat /\ forall b, within j P m (f b)
  | Store a b f => exists m, (m < n)%nat /\ within j P m f
  | Fork f => j = false /\ exists m, (m + m < n)%nat /\ forall rv, within true P m (f rv)
  end.

Lemma within_mono {A} j (P : A -> Prop) pr : forall n m, within j P n pr -> (n <= m)%nat -> within j P m pr.
Proof.
  destruct pr as [a| | |c f|c f|a f|a b f|f]; intros n m; cbn; try done.
  - intros (l & Hl & H) Hm. exists l. split; [lia|done].
  - intros (l & Hl & H) Hm. exists l. split; [lia|done].
  - intros (l & Hl & H) Hm. exists l. split; [lia|done].
  - intros (l & Hl & H) Hm. exists l. split; [lia|done].
  - intros (Hj & l & Hl & H) Hm. split; [done|]. exists l. split; [lia|done].
Qed.

Lemma within_bind {A B} j (P : A -> Prop) (P' : B -> Prop) (g : A -> prog B) (pr : prog A) b : forall a,
  within true P a pr -> (forall x, P x -> within j P' b (g x)) -> within j P' (a + b) (pr ≫= g).
Proof.
  induction pr as [x| | |c f IH|c f IH|x f IH|x y f IH|f IH] using prog_induction; intros a Ha Hg; cbn in *.
  - apply (within_mono _ _ _ b); [by apply Hg|lia].
  - done.
  - done.
  - destruct Ha as (m & Hm & H). exists (m + b)%nat. split; [lia|]. intros r. by apply IH.
  - destruct Ha as (m & Hm & H). exists (m + b)%nat. split; [lia|]. intros r. specialize (H r).
    destruct (f r) as [pr'|] eqn:Ef; [|done]. by apply (IH r).
  - destruct Ha as (m & Hm & H). exists (m + b)%nat. split; [lia|]. intros y. by apply IH.
  - destruct Ha as (m & Hm & H). exists (m + b)%nat. split; [lia|]. by apply IH.
  - by destruct Ha.
Qed.

(** ** The system *)
Section system.
Context `{K : Kernel} {refuse : Prop} {laws : KernelLaws refuse}.
Context (Q : bool -> bool -> Z -> view -> Prop).

#[local] Abbreviation here c := (view_of (ker c)).

Definition sound (c : machine) : Prop :=
  kok (ker c) /\
  match child c with
  | None => no_child (here c) /\ wp refuse Q false false (parent c) (here c)
  | Some ch =>
    (forall v', rely false (here c) v' -> wp refuse Q true false (parent c) v') /\
    (forall v', rely true (here c) v' -> wp refuse Q true true ch v')
  end.

Lemma exec_sound j p k (pr : prog Z) k' pr' : kok k ->
  (forall v', env j p (view_of k) v' -> wp refuse Q j p pr v') -> exec p k pr = (k', pr') ->
  kok k' /\ guar p (view_of k) (view_of k') /\
  (forall v', env j p (view_of k') v' -> wp refuse Q j p pr' v').
Proof.
  intros Hk Hw. pose proof (Hw _ (env_refl j p (view_of k))) as Hnow.
  destruct pr as [a| | |c f|c f|a f|a b f|f]; cbn [exec]; cbn [wp] in Hnow.
  - intros [= <- <-]. by split; [|split; [apply guar_refl|]].
  - intros [= <- <-]. by split; [|split; [apply guar_refl|]].
  - intros [= <- <-]. by split; [|split; [apply guar_refl|]].
  - destruct Hnow as [Hc H]. destruct (sys k p c) as [k1 r] eqn:E. intros [= <- <-].
    destruct (sys_law k p c k1 r Hk Hc E) as [Hk1 Ho]. split; [done|]. by apply H.
  - destruct Hnow as (Hc & Hh & H). destruct (sys k p c) as [k1 r] eqn:E. intros [= <- <-].
    destruct (sys_law k p c k1 r Hk Hc E) as [Hk1 Ho]. split; [done|]. destruct (H _ _ Ho) as [G H1].
    split; [done|]. intros v' E'. pose proof (H1 _ (env_refl j p (view_of k1))) as Hr. specialize (H1 v' E').
    destruct (f r) as [pr'|] eqn:Ef; cbn [default]; [done|]. apply Hw. destruct Hr as [Hv _]. by rewrite <- Hv.
  - destruct Hnow as (b & Hb & H). rewrite Hb. intros [= <- <-]. by split; [|split; [apply guar_refl|]].
  - destruct Hnow as (o & off & Hwr & G & H). rewrite Hwr. intros [= <- <-].
    destruct (poke_law k o off b Hk) as [Hk1 ->]. by split.
  - intros [= <- <-]. by split; [|split; [apply guar_refl|]].
Qed.

Lemma forked_no_child v v' dup : no_child v -> forked v v' dup -> named_owned v -> named_owned v'.
Proof.
  intros [Hp Hh] F H o Ho. rewrite (fork_named _ _ _ F) in Ho. destruct (H o Ho) as [q U]. exists false.
  destruct q; [destruct U as [(n & i & prot & U)|(fd & U)]; [by rewrite Hp in U|by rewrite Hh in U]|].
  destruct U as [(n & i & prot & U)|(fd & U)]; [left; exists n, i, prot; by rewrite (fork_parent _ _ _ F)|].
  right. exists fd. by rewrite (proj1 (fork_handle _ _ _ F fd)).
Qed.

Lemma turn_sound c p : sound c ->
  sound (turn c p) /\ (named_owned (here c) -> named_owned (here (turn c p))).
Proof.
  intros [Hk Hs]. unfold turn. destruct p.
  - destruct (child c) as [ch|] eqn:Ec; [|unfold sound; by rewrite Ec]. destruct Hs as [Hp Hc].
    destruct (exec true (ker c) ch) as [k' ch'] eqn:E.
    destruct (exec_sound true true _ _ _ _ Hk Hc E) as (Hk' & [G N] & Hc'). split; [|exact N].
    split; [exact Hk'|]. split; [|exact Hc']. cbn [parent ker]. intros v' R. apply Hp. by etrans.
  - assert (Hx : forall pr, parent c = pr ->
      let r := exec false (ker c) pr in let c' := Machine (fst r) (snd r) (child c) in
      sound c' /\ (named_owned (here c) -> named_owned (here c'))).
    { intros pr Hpr. destruct (exec false (ker c) pr) as [k' pr'] eqn:E. cbn [fst snd ker].
      destruct (child c) as [ch|] eqn:Ec.
      - destruct Hs as [Hp Hc]. rewrite Hpr in Hp.
        destruct (exec_sound true false _ _ _ _ Hk Hp E) as (Hk' & [G N] & Hp'). split; [|exact N].
        split; [exact Hk'|]. split; [exact Hp'|]. cbn [ker]. intros v' R. apply Hc. by etrans.
      - destruct Hs as [Hn Hp]. rewrite Hpr in Hp.
        destruct (exec_sound false false (ker c) pr k' pr' Hk) as (Hk' & G & Hp');
          [intros v' ->; exact Hp|exact E|]. split; [|apply G].
        split; [exact Hk'|]. split; [by apply (guar_no_child _ _ G)|]. by apply Hp'. }
    destruct (parent c) as [a| | |cl f|cl f|a f|a b f|f] eqn:Ep; specialize (Hx _ eq_refl);
      [by destruct (exec _ _ _)..|]. clear Hx.
    destruct (sys_fork (ker c)) as [k' rv] eqn:E.
    destruct (child c) as [ch|] eqn:Ec.
    { destruct Hs as [Hp _]. by destruct (Hp _ (rely_refl false (here c))) as [? _]. }
    destruct Hs as [Hn Hw]. destruct Hw as (_ & _ & _ & Hfail & Hok).
    destruct (fork_law (ker c) k' rv Hk Hn E) as [Hk' [(Hr & Hrv & Hv)|(Hrv & dup & F)]].
    + replace (0 <? rv) with false by (by symmetry; apply Z.ltb_ge; lia). unfold sound. cbn [ker parent child].
      rewrite Hv. split; [|done]. split; [done|]. split; [done|]. by apply Hfail.
    + replace (0 <? rv) with true by (by symmetry; apply Z.ltb_lt; lia). unfold sound. cbn [ker parent child].
      split; [|by apply (forked_no_child _ _ dup)]. split; [done|]. by apply (Hok rv _ dup).
Qed.

Lemma run_sound s : forall c, sound c ->
  sound (run s c) /\ (named_owned (here c) -> named_owned (here (run s c))).
Proof.
  induction s as [|p s IH]; intros c H; [done|]. destruct (turn_sound c p H) as [H1 N1].
  destruct (IH _ H1) as [H2 N2]. split; [done|]. intros N. by apply N2, N1.
Qed.
(** ** Liveness *)
Definition finished (c : machine) : Prop := exists rv rv', parent c = Ret rv /\ child c = Some (Ret rv').

Definition bounded (n : nat) (c : machine) : Prop :=
  match child c with
  | None => within false (fun _ => True) n (parent c)
  | Some ch =>
    exists a b, (a + b <= n)%nat /\ within true (fun _ => True) a (parent c) /\ within true (fun _ => True) b ch
  end.

(** A process whose next step is not a retry. *)
Definition active (v : view) (pr : prog Z) : Prop :=
  match pr with
  | Sys _ _ | Load _ _ | Store _ _ _ | Fork _ => True
  | Again _ _ => named v = None
  | _ => False
  end.

Definition turn_active (c : machine) (p : bool) : Prop :=
  if p then match child c with Some ch => active (here c) ch | None => False end else active (here c) (parent c).

Definition same (c c' : machine) : Prop := parent c' = parent c /\ child c' = child c /\ here c' = here c.

Definition round (s : list bool) : Prop := true ∈ s /\ false ∈ s.

#[local] Instance same_trans : Transitive same.
Proof. intros c1 c2 c3 (A & B & C) (D & E & F). repeat split; congruence. Qed.

Lemma same_active c c' p : same c c' -> turn_active c' p <-> turn_active c p.
Proof. intros (A & B & C). unfold turn_active. rewrite A, B, C. done. Qed.

Lemma exec_progress j j' p k (pr : prog Z) n k' pr' : kok k -> wp refuse Q j p pr (view_of k) ->
  match pr with Fork _ => False | _ => True end -> within j' (fun _ => True) n pr -> exec p k pr = (k', pr') ->
  (exists m, (m < n)%nat /\ within j' (fun _ => True) m pr') \/
  (pr' = pr /\ view_of k' = view_of k /\ ~ active (view_of k) pr).
Proof.
  intros Hk Hw Hf Hn. destruct pr as [a| | |c f|c f|a f|a b f|f]; cbn [exec]; cbn [wp] in Hw; cbn [within] in Hn.
  - intros [= <- <-]. right. split; [done|]. split; [done|]. by intros [].
  - intros [= <- <-]. right. split; [done|]. split; [done|]. by intros [].
  - done.
  - destruct Hn as (m & Hm & H). destruct (sys k p c) as [k1 r]. intros [= <- <-]. left. by exists m.
  - destruct Hn as (m & Hm & H). destruct Hw as (Hc & Hh & Hw). destruct (sys k p c) as [k1 r] eqn:E.
    intros [= <- <-]. destruct (sys_law k p c k1 r Hk Hc E) as [Hk1 Ho]. destruct (Hw _ _ Ho) as [_ H1].
    specialize (H1 _ (env_refl j p (view_of k1))). specialize (H r).
    destruct (f r) as [pr'|] eqn:Ef; cbn [default]; [left; by exists m|]. right.
    destruct H1 as [Hv Hx]. split; [done|]. split; [done|]. intros Ha. by apply Hx.
  - destruct Hn as (m & Hm & H). destruct Hw as (b & Hb & _). rewrite Hb. intros [= <- <-]. left. by exists m.
  - destruct Hn as (m & Hm & H). destruct Hw as (o & off & Hwr & _). rewrite Hwr. intros [= <- <-]. left. by exists m.
  - done.
Qed.

Lemma turn_progress c p n : sound c -> bounded n c ->
  (exists m, (m < n)%nat /\ bounded m (turn c p)) \/ (same c (turn c p) /\ ~ turn_active c p).
Proof.
  intros [Hk Hs] Hb. unfold turn, bounded, turn_active in *. destruct p.
  - destruct (child c) as [ch|] eqn:Ec; [|right; split; [by unfold same|intros []]]. destruct Hs as [_ Hc].
    specialize (Hc _ (rely_refl _ _)). destruct (exec true (ker c) ch) as [k' ch'] eqn:E.
    destruct Hb as (a & b & Hab & Ha & Hb).
    assert (Hf : match ch with Fork _ => False | _ => True end) by (destruct ch; try done; by destruct Hb).
    destruct (exec_progress _ _ _ _ _ _ _ _ Hk Hc Hf Hb E) as [(m & Hm & H)|(-> & Hv & H)].
    + left. exists (a + m)%nat. split; [lia|]. exists a, m. by split; [lia|].
    + right. split; [|done]. unfold same. by rewrite Ec.
  - assert (Hx : forall pr, parent c = pr -> match pr with Fork _ => False | _ => True end ->
      let r := exec false (ker c) pr in let c' := Machine (fst r) (snd r) (child c) in
      (exists m, (m < n)%nat /\ bounded m c') \/ (same c c' /\ ~ active (here c) pr)).
    { intros pr Hpr Hf. destruct (exec false (ker c) pr) as [k' pr'] eqn:E. cbn [fst snd].
      unfold bounded, same. cbn [parent child ker]. destruct (child c) as [ch|] eqn:Ec.
      - destruct Hs as [Hp _]. specialize (Hp _ (rely_refl _ _)). destruct Hb as (a & b & Hab & Ha & Hb).
        rewrite Hpr in Hp, Ha |- *.
        destruct (exec_progress _ _ _ _ _ _ _ _ Hk Hp Hf Ha E) as [(m & Hm & H)|(-> & Hv & H)]; [|by right].
        left. exists (m + b)%nat. split; [lia|]. exists m, b. by split; [lia|].
      - destruct Hs as [_ Hp]. rewrite Hpr in Hp, Hb |- *.
        destruct (exec_progress _ _ _ _ _ _ _ _ Hk Hp Hf Hb E) as [(m & Hm & H)|(-> & Hv & H)]; [|by right].
        left. by exists m. }
    destruct (parent c) as [a| | |cl f|cl f|a f|a b f|f] eqn:Ep; specialize (Hx _ eq_refl);
      [specialize (Hx I); by destruct (exec _ _ _)..|]. clear Hx.
    left. destruct (child c) as [ch|] eqn:Ec; [destruct Hb as (a & b & _ & [Hj _] & _); done|].
    destruct (sys_fork (ker c)) as [k' rv]. destruct Hb as (_ & m & Hm & H). exists (m + m)%nat.
    split; [lia|]. cbn [child parent]. destruct (0 <? rv); [by exists m, m|].
    apply (within_mono _ _ _ m); [|lia]. specialize (H rv). clear -H.
    revert m H. generalize (f rv). clear f. intros pr.
    induction pr as [x| | |d f IH|d f IH|x f IH|x y f IH|f IH] using prog_induction; intros m; cbn; try done.
    + intros (l & Hl & H). exists l. split; [done|]. intros r. by apply IH.
    + intros (l & Hl & H). exists l. split; [done|]. intros r. specialize (H r).
      destruct (f r) as [pr'|] eqn:Ef; [|done]. by apply (IH r).
    + intros (l & Hl & H). exists l. split; [done|]. intros r. by apply IH.
    + intros (l & Hl & H). exists l. split; [done|]. by apply IH.
    + by intros [? _].
Qed.

Lemma same_bounded c c' n : same c c' -> bounded n c -> bounded n c'.
Proof. intros (A & B & _). unfold bounded. by rewrite A, B. Qed.

(** A round brings the end closer, or none of its turns could. *)
Lemma round_progress s : forall c n, sound c -> bounded n c ->
  (exists m, (m < n)%nat /\ bounded m (run s c)) \/
  (same c (run s c) /\ bounded n (run s c) /\ forall p, p ∈ s -> ~ turn_active c p).
Proof.
  induction s as [|p s IH]; intros c n Hs Hb.
  { right. split; [done|]. split; [done|]. intros p Hp. by apply not_elem_of_nil in Hp. }
  destruct (turn_sound c p Hs) as [Hs' _]. destruct (turn_progress c p n Hs Hb) as [(m & Hm & H)|[He Ha]].
  - left. destruct (IH _ _ Hs' H) as [(l & Hl & H')|(_ & H' & _)]; [exists l; split; [lia|done]|by exists m].
  - destruct (IH _ n Hs') as [?|(He' & Hb' & Hn)]; [by apply (same_bounded c)|by left|].
    right. split; [by etrans|]. split; [done|]. intros q Hq.
    apply elem_of_cons in Hq as [->|Hq]; [done|]. rewrite <- (same_active c _ q He). by apply Hn.
Qed.

Context (no_refusal : ~ refuse).
Context (Q_done : forall j p a v, Q j p a v -> j = true /\ not_holding v p).

Lemma wp_runs p (pr : prog Z) v : wp refuse Q true p pr v ->
  (exists a, pr = Ret a) \/ active v pr \/ (named v <> None /\ not_holding v p).
Proof using no_refusal.
  intros H. destruct pr as [a| | |c f|c f|a f|a b f|f]; cbn in *; [by left; exists a|done|done|by right; left| |
    by right; left|by right; left|by right; left].
  right. destruct H as (_ & H & _). destruct (named v); [by right|by left].
Qed.

Lemma someone_moves c : sound c -> named_owned (here c) -> ~ finished c -> exists p, turn_active c p.
Proof using no_refusal Q_done.
  intros [Hk Hs] Hn Hf. unfold turn_active, finished in *. destruct (child c) as [ch|].
  - destruct Hs as [Hp Hc]. specialize (Hp _ (rely_refl _ _)). specialize (Hc _ (rely_refl _ _)).
    assert (Hh : forall p pr, wp refuse Q true p pr (here c) ->
      active (here c) pr \/ (not_holding (here c) p /\ ((exists a, pr = Ret a) \/ named (here c) <> None))).
    { intros p pr H. destruct (wp_runs p pr _ H) as [(a & ->)|[?|[? ?]]]; [|by left|by right; split; [|right]].
      right. split; [by apply (Q_done true p a)|]. left. by exists a. }
    destruct (Hh _ _ Hp) as [?|[N1 H1]]; [by exists false|].
    destruct (Hh _ _ Hc) as [?|[N2 H2]]; [by exists true|]. exfalso.
    destruct (named (here c)) as [o|] eqn:E.
    + destruct (Hn o E) as [[] U]; [by apply (N2 o)|by apply (N1 o)].
    + destruct H1 as [[a Ea]|?]; [|done]. destruct H2 as [[b ->]|?]; [|done]. apply Hf. by exists a, b.
  - destruct Hs as [[Hpg Hfd] Hp]. exists false.
    destruct (parent c) as [a| | |cl f|cl f|a f|a b f|f]; cbn in Hp |- *; try done.
    + by destruct (Q_done _ _ _ _ Hp).
    + destruct Hp as (_ & H & _). destruct (named (here c)) as [o|] eqn:E; [|done].
      destruct (Hn o E) as [[] U]; [|by destruct (H o E)].
      destruct U as [(n & i & prot & U)|(fd & U)]; [by rewrite Hpg in U|by rewrite Hfd in U].
Qed.

Lemma finished_dec c : finished c \/ ~ finished c.
Proof.
  unfold finished. destruct (parent c) as [a| | | | | | |]; try (right; intros (? & ? & ? & _); discriminate).
  destruct (child c) as [[b| | | | | | |]|]; try (right; intros (? & ? & _ & ?); discriminate). left. by exists a, b.
Qed.

Lemma finished_run s : forall c, finished c -> finished (run s c).
Proof.
  induction s as [|p s IH]; intros c H; [done|]. apply IH. destruct H as (rv & rv' & Hp & Hc).
  unfold turn, finished. destruct p; [rewrite Hc|rewrite Hp]; cbn; [by exists rv, rv'|]. by exists rv, rv'.
Qed.

Lemma rounds_finish n : forall c rounds, sound c -> named_owned (here c) -> bounded n c ->
  (n < length rounds)%nat -> Forall round rounds -> finished (run (concat rounds) c).
Proof using no_refusal Q_done.
  induction n as [n IH] using lt_wf_ind. intros c rounds Hs Hn Hb Hl Hr.
  destruct rounds as [|s rounds]; [cbn in Hl; lia|]. apply Forall_cons in Hr as [Hr Hrs].
  cbn [concat]. unfold run. rewrite foldl_app. fold (run s c). fold (run (concat rounds) (run s c)).
  destruct (run_sound s c Hs) as [Hs' Hn'].
  destruct (round_progress s c n Hs Hb) as [(m & Hm & H)|(_ & _ & Ha)].
  - apply (IH m); [done..|by apply Hn'|done| |done]. cbn in Hl. lia.
  - apply finished_run, finished_run. destruct (finished_dec c) as [Hf|Hf]; [done|]. exfalso.
    destruct (someone_moves c Hs Hn Hf) as [p Hp]. apply (Ha p); [|done]. destruct Hr. by destruct p.
Qed.
End system.
