(* ===== verification/ForkState.v ===== *)
(** * The memory of a process during [fork]

    Blocks of memory with their bytes and the places where they are mapped;
    the pages of the process are those of its blocks and, elsewhere, as they
    were at the start.  Each system call and each store is a rule that says
    how the blocks change, what the other process does meanwhile being
    covered by [state_rely]. *)

From S2P Require Import Prelude Dict Graph Module Pager MemCalls CodeHeap Fork ForkKernel ForkLogic.

(** ** One step of one's own *)

(** [v'] is [v] but for the pages and descriptors of [p] and for the object [o]. *)
Record own_step (p : bool) (v v' : view) (o : object) : Prop := {
  own_page n : page v' (negb p) n = page v (negb p) n;
  own_handle fd : handle v' (negb p) fd = handle v (negb p) fd;
  own_cell o' i : o' <> o -> cell v' o' i = cell v o' i;
  own_size o' : o' <> o -> fsize v' o' = fsize v o';
  own_shared o' : o' <> o -> shared v' o' = shared v o';
  own_uses o' : o' <> o -> uses v' p o' <-> uses v p o';
  own_other : ~ uses v (negb p) o;
  own_named : named v' = named v \/ (named v = None /\ named v' = Some o) \/ (named v = Some o /\ named v' = None);
  own_named_use : named v' = Some o -> uses v' p o;
}.

Lemma own_other_uses p v v' o o' : own_step p v v' o -> uses v' (negb p) o' <-> uses v (negb p) o'.
Proof.
  intros S. split.
  - intros [(n & i & prot & H)|(fd & H)]; [left; exists n, i, prot; by rewrite <- (own_page _ _ _ _ S)|].
    right. exists fd. by rewrite <- (own_handle _ _ _ _ S).
  - intros [(n & i & prot & H)|(fd & H)]; [left; exists n, i, prot; by rewrite (own_page _ _ _ _ S)|].
    right. exists fd. by rewrite (own_handle _ _ _ _ S).
Qed.

Lemma own_guar p v v' o : own_step p v v' o -> guar p v v'.
Proof.
  intros S. assert (Hm : forall o', mine v (negb p) o' -> o' <> o).
  { intros o' [H _] ->. by apply (own_other _ _ _ _ S). }
  split.
  - constructor.
    + apply S.
    + apply S.
    + intros o' H. rewrite Bool.negb_involutive, (own_uses _ _ _ _ S) by auto.
      destruct H as [_ H]. by rewrite Bool.negb_involutive in H.
    + intros o' i H. apply S. auto.
    + intros o' H. apply S. auto.
    + intros o' H. apply S. auto.
    + intros o' H E. apply Hm in H. destruct (own_named _ _ _ _ S) as [->|[[? _]|[? _]]]; [done|congruence|congruence].
    + intros o' H E. destruct (own_named _ _ _ _ S) as [<-|[[_ F]|[_ F]]]; [done| |congruence].
      exfalso. apply (own_other _ _ _ _ S). congruence.
  - intros N o' E. destruct (decide (o' = o)) as [->|Ho]; [exists p; by apply (own_named_use _ _ _ _ S)|].
    assert (E' : named v = Some o').
    { destruct (own_named _ _ _ _ S) as [<-|[[_ F]|[_ F]]]; [done|congruence|congruence]. }
    destruct (N o' E') as [q U]. exists q. destruct (decide (q = p)) as [->|Hq]; [by apply (own_uses _ _ _ _ S)|].
    replace q with (negb p) in * by (by destruct q, p). by apply (own_other_uses p v v' o).
Qed.

(** ** Blocks *)
Record block : Type := Block {
  b_obj : object;
  b_count : Z;                       (* pages *)
  b_shared : bool;
  b_bytes : Z -> Z;
  b_places : list (Z * (Z -> Z));    (* the first page and the protections *)
}.

Definition at_place (b : block) (n : Z) : Prop :=
  exists f pr, (f, pr) ∈ b_places b /\ in_range f (b_count b) n = true.

Record block_ok (p : bool) (v : view) (b : block) : Prop := {
  bk_page f pr i : (f, pr) ∈ b_places b -> 0 <= i < b_count b -> page v p (f + i) = Some (b_obj b, i, pr i);
  bk_mine : mine v p (b_obj b);
  bk_size : fsize v (b_obj b) = b_count b * PAGE_SIZE;
  bk_shared : shared v (b_obj b) = b_shared b;
  bk_cell i : 0 <= i < b_count b * PAGE_SIZE -> cell v (b_obj b) i = b_bytes b i;
}.

Record state (p : bool) (base : Z -> option (object * Z * Z)) (hnd : Z -> option object) (held : option object)
    (bs : list block) (v : view) : Prop := {
  st_blocks b : b ∈ bs -> block_ok p v b;
  st_rest n : page v p n = base n \/ exists b, b ∈ bs /\ at_place b n;
  st_base b n : b ∈ bs -> at_place b n -> base n = None;
  st_handle fd : handle v p fd = hnd fd;
  st_held : match held with
            | Some o => named v = Some o /\ o ∈ (b_obj <$> bs)
            | None => not_holding v p
            end;
  st_objects : NoDup (b_obj <$> bs);
}.

#[export] Instance state_proper p base hnd held : Proper ((≡ₚ) ==> (=) ==> iff) (state p base hnd held).
Proof.
  assert (H : forall bs bs' v, bs ≡ₚ bs' -> state p base hnd held bs v -> state p base hnd held bs' v).
  { intros bs bs' v E [H1 H2 H3 H4 H5 H6]. constructor.
    - intros b Hb. apply H1. by rewrite E.
    - intros n. destruct (H2 n) as [?|(b & Hb & ?)]; [by left|]. right. exists b. by rewrite <- E.
    - intros b n Hb. apply H3. by rewrite E.
    - exact H4.
    - destruct held; [by rewrite <- E|done].
    - by rewrite <- E. }
  intros bs bs' E v ? <-. by split; apply H.
Qed.

Lemma block_rely p v v' b : rely p v v' -> block_ok p v b -> block_ok p v' b.
Proof.
  intros R [H1 H2 H3 H4 H5]. constructor.
  - intros f pr i Hf Hi. rewrite (rely_page _ _ _ R). auto.
  - by apply (rely_mine p v).
  - by rewrite (rely_size _ _ _ R).
  - by rewrite (rely_shared _ _ _ R).
  - intros i Hi. rewrite (rely_cell _ _ _ R) by done. auto.
Qed.

Lemma state_rely p base hnd held bs v v' : rely p v v' ->
  state p base hnd held bs v -> state p base hnd held bs v'.
Proof.
  intros R [H1 H2 H3 H4 H5 H6]. constructor; [..|done].
  - intros b Hb. apply (block_rely p v); auto.
  - intros n. rewrite (rely_page _ _ _ R). auto.
  - done.
  - intros fd. rewrite (rely_handle _ _ _ R). auto.
  - destruct held as [o|]; [|by apply (rely_not_holding p v)]. destruct H5 as [H5 Ho]. split; [|done].
    apply list_elem_of_fmap in Ho as (b & -> & Hb). apply (rely_name _ _ _ R); [|done]. by apply H1.
Qed.

(** A block that the step does not touch. *)
Lemma own_block p v v' o b : own_step p v v' o -> b_obj b <> o ->
  (forall n, at_place b n -> page v' p n = page v p n) -> block_ok p v b -> block_ok p v' b.
Proof.
  intros S Ho Hp [H1 [H2 H2'] H3 H4 H5]. constructor.
  - intros f pr i Hf Hi. rewrite Hp; [auto|]. exists f, pr. split; [done|]. unfold in_range. bool_lia.
  - split; [by apply (own_uses _ _ _ _ S)|]. by rewrite (own_other_uses p v v' o).
  - by rewrite (own_size _ _ _ _ S).
  - by rewrite (own_shared _ _ _ _ S).
  - intros i Hi. rewrite (own_cell _ _ _ _ S) by done. auto.
Qed.

(** Different blocks are at different places. *)
Lemma block_page p v b n : block_ok p v b -> at_place b n -> exists i prot, page v p n = Some (b_obj b, i, prot).
Proof.
  intros H (f & pr & Hf & Hn). unfold in_range in Hn. exists (n - f), (pr (n - f)).
  replace n with (f + (n - f)) at 1 by lia. apply (bk_page _ _ _ H); [done|bool_lia].
Qed.

Lemma tail_object b bs b' : NoDup (b_obj <$> b :: bs) -> b' ∈ bs -> b_obj b' <> b_obj b.
Proof.
  cbn. intros H%NoDup_cons Hb E. destruct H as [H _]. apply H. rewrite <- E. by apply list_elem_of_fmap_2.
Qed.

Lemma not_holding_own p v v' o : own_step p v v' o -> named v' <> Some o -> not_holding v p -> not_holding v' p.
Proof.
  intros S Hn H o' E U. assert (o' <> o) by congruence. apply (own_uses _ _ _ _ S) in U; [|done].
  apply (H o'); [|done]. destruct (own_named _ _ _ _ S) as [<-|[[_ F]|[_ F]]]; [done|congruence|congruence].
Qed.

(** The state after a step that is about the first block. *)
Lemma own_state p base hnd held b bs v v' : own_step p v v' (b_obj b) ->
  (forall b', b' ∈ bs -> block_ok p v b' /\ b_obj b' <> b_obj b) -> NoDup (b_obj <$> bs) ->
  (forall b' n, b' ∈ bs -> at_place b' n -> page v' p n = page v p n) -> block_ok p v' b ->
  (forall n, page v' p n = base n \/ at_place b n \/ exists b', b' ∈ bs /\ at_place b' n) ->
  (forall b' n, b' ∈ bs -> at_place b' n -> base n = None) -> (forall n, at_place b n -> base n = None) ->
  (forall fd, handle v' p fd = hnd fd) ->
  match held with Some o => named v' = Some o /\ o ∈ (b_obj <$> b :: bs) | None => not_holding v' p end ->
  state p base hnd held (b :: bs) v'.
Proof.
  intros S Hbs Hnd Hpg Hb Hrest Hbase Hbase' Hhnd Hheld. constructor; try done.
  - intros b' H. apply elem_of_cons in H as [->|H]; [done|]. destruct (Hbs b' H) as [H1 H2].
    apply (own_block p v v' (b_obj b)); eauto.
  - intros n. destruct (Hrest n) as [?|[?|(b' & ? & ?)]]; [by left| |].
    + right. exists b. split; [apply list_elem_of_here|done].
    + right. exists b'. split; [by apply list_elem_of_further|done].
  - intros b' n H. apply elem_of_cons in H as [->|H]; [apply Hbase'|by apply Hbase].
  - cbn. apply NoDup_cons. split; [|done]. intros H. apply list_elem_of_fmap in H as (b' & E & H).
    by destruct (Hbs b' H).
Qed.

Lemma state_tail p base hnd held b bs v : state p base hnd held (b :: bs) v ->
  (forall b', b' ∈ bs -> block_ok p v b' /\ b_obj b' <> b_obj b) /\ NoDup (b_obj <$> bs) /\
  (forall b' n, b' ∈ bs -> at_place b' n -> base n = None) /\ block_ok p v b /\ b ∈ b :: bs.
Proof.
  intros [H1 H2 H3 H4 H5 H6]. split; [|split; [|split; [|split]]].
  - intros b' H. split; [apply H1; by apply list_elem_of_further|by apply (tail_object b bs)].
  - cbn in H6. by apply NoDup_cons in H6 as [_ ?].
  - intros b' n H. apply H3. by apply list_elem_of_further.
  - apply H1, list_elem_of_here.
  - apply list_elem_of_here.
Qed.

(** ** The steps *)
Lemma page_map_pages v p f c o prot q n :
  page (map_pages v p f c o prot) q n =
  if Bool.eqb q p && in_range f c n then Some (o, n - f, prot) else page v q n.
Proof. apply page_set_pages. Qed.

Lemma uses_map_pages v p f c o prot o' : (forall n, in_range f c n = true -> page v p n = None) -> o' <> o ->
  uses (map_pages v p f c o prot) p o' <-> uses v p o'.
Proof.
  intros Hf Ho. split.
  - intros H. apply uses_set_pages in H as [H|(_ & n & i & pr & _ & E)]; [done|congruence].
  - intros [(n & i & pr & H)|(fd & H)]; [|by right; exists fd]. left. exists n, i, pr. rewrite page_map_pages.
    destruct (in_range f c n) eqn:E; [by rewrite Hf in H|]. by rewrite andb_false_r.
Qed.

Lemma eqb_negb p : Bool.eqb (negb p) p = false.
Proof. by destruct p. Qed.

Lemma own_map_pages v p f c o prot : (forall n, in_range f c n = true -> page v p n = None) ->
  ~ uses v (negb p) o -> (named v = Some o -> exists fd, handle v p fd = Some o) ->
  own_step p v (map_pages v p f c o prot) o.
Proof.
  intros Hf Ho Hn. constructor; try done.
  - intros n. by rewrite page_map_pages, eqb_negb.
  - intros o' H. by apply uses_map_pages.
  - by left.
  - intros H. right. by apply Hn.
Qed.

Lemma own_new_object v p o size sh : fresh v o -> own_step p v (new_object v o size sh) o.
Proof.
  intros [H1 H2]. constructor; try done.
  - intros o' i H. cbn. by rewrite (proj2 (Z.eqb_neq o' o)).
  - intros o' H. cbn. by rewrite (proj2 (Z.eqb_neq o' o)).
  - intros o' H. cbn. by rewrite (proj2 (Z.eqb_neq o' o)).
  - by left.
Qed.

Lemma own_trans p v1 v2 v3 o : own_step p v1 v2 o -> own_step p v2 v3 o ->
  named v1 = named v2 \/ named v2 = named v3 -> own_step p v1 v3 o.
Proof.
  intros S T Hn. constructor.
  - intros n. by rewrite (own_page _ _ _ _ T), (own_page _ _ _ _ S).
  - intros n. by rewrite (own_handle _ _ _ _ T), (own_handle _ _ _ _ S).
  - intros o' i H. by rewrite (own_cell _ _ _ _ T), (own_cell _ _ _ _ S).
  - intros o' H. by rewrite (own_size _ _ _ _ T), (own_size _ _ _ _ S).
  - intros o' H. by rewrite (own_shared _ _ _ _ T), (own_shared _ _ _ _ S).
  - intros o' H. by rewrite (own_uses _ _ _ _ T), (own_uses _ _ _ _ S).
  - apply S.
  - destruct Hn as [->|<-]; [apply T|apply S].
  - apply T.
Qed.

Lemma own_unmap v p f c o : (forall n o' i prot, in_range f c n = true -> page v p n = Some (o', i, prot) -> o' = o) ->
  ~ uses v (negb p) o -> named v <> Some o -> own_step p v (unmap_pages v p f c) o.
Proof.
  intros Hf Ho Hn. constructor; try done.
  - intros n. unfold unmap_pages. by rewrite page_set_pages, eqb_negb.
  - intros o' H. split.
    + intros U. by apply uses_set_pages in U as [U|(_ & n & i & pr & _ & E)].
    + intros [(n & i & pr & U)|(fd & U)]; [|by right; exists fd]. left. exists n, i, pr. unfold unmap_pages.
      rewrite page_set_pages. destruct (in_range f c n) eqn:E; [by apply Hf in U|]. by rewrite andb_false_r.
  - by left.
Qed.

Lemma own_set_handle v p fd h o : ~ uses v (negb p) o -> (h = None \/ h = Some o) ->
  (handle v p fd = None \/ handle v p fd = Some o) -> (named v = Some o -> uses (set_handle v p fd h) p o) ->
  own_step p v (set_handle v p fd h) o.
Proof.
  intros Ho Hh Hv Hn. constructor; try done.
  - intros d. by rewrite handle_set_handle, eqb_negb.
  - intros o' H. split.
    + intros U. apply uses_set_handle in U as [U|[_ U]]; [done|]. destruct Hh; congruence.
    + intros [U|(d & U)]; [by left|]. right. exists d. rewrite handle_set_handle.
      destruct (d =? fd) eqn:E; [|by rewrite andb_false_r]. apply Z.eqb_eq in E as ->. destruct Hv; congruence.
  - by left.
Qed.

Lemma own_set_name v p n o : ~ uses v (negb p) o ->
  (named v = None /\ n = Some o /\ uses v p o) \/ (named v = Some o /\ n = None) -> own_step p v (set_name v n) o.
Proof.
  intros Ho Hn. constructor; try done.
  - right. destruct Hn as [(? & ? & _)|[? ?]]; [by left|by right].
  - cbn. destruct Hn as [(_ & _ & H)|[_ ->]]; [|done]. intros _. by destruct H as [H|H]; [left|right].
Qed.

Lemma own_set_size v p o size : mine v p o -> own_step p v (set_size v o size) o.
Proof.
  intros [Hu Ho]. constructor; try done.
  - intros o' i H. cbn. by rewrite (proj2 (Z.eqb_neq o' o)).
  - intros o' H. cbn. by rewrite (proj2 (Z.eqb_neq o' o)).
  - by left.
Qed.

Lemma own_set_cell v p o off b : mine v p o -> own_step p v (set_cell v o off b) o.
Proof.
  intros [Hu Ho]. constructor; try done.
  - intros o' i H. cbn. by rewrite (proj2 (Z.eqb_neq o' o)).
  - by left.
Qed.
