(* ===== verification/ForkRules.v ===== *)
(** * The rules of the steps of [fork]

    For each system call and each access that the code makes: what it does to
    the blocks of the process ([mem]), its guarantee to the other process
    included. *)

From S2P Require Import Prelude Dict Graph Module Pager MemCalls CodeHeap Fork ForkKernel ForkLogic ForkState.

(** Ranges of pages with nothing mapped. *)
Definition vacant (p : bool) (hs : list (Z * Z)) (v : view) : Prop :=
  forall f c n, (f, c) ∈ hs -> in_range f c n = true -> page v p n = None.

Definition mem (p : bool) (base : Z -> option (object * Z * Z)) (hnd : Z -> option object) (held : option object)
    (hs : list (Z * Z)) (bs : list block) (v : view) : Prop :=
  state p base hnd held bs v /\ vacant p hs v.

Definition hset (hnd : Z -> option object) (fd : Z) (h : option object) : Z -> option object :=
  fun d => if d =? fd then h else hnd d.

Definition add_place (b : block) (f : Z) (pr : Z -> Z) : block :=
  Block (b_obj b) (b_count b) (b_shared b) (b_bytes b) ((f, pr) :: b_places b).

Definition put_byte (b : block) (i x : Z) : block :=
  Block (b_obj b) (b_count b) (b_shared b) (fun k => if k =? i then x else b_bytes b k) (b_places b).

Lemma mem_env j p base hnd held hs bs v v' : env j p v v' ->
  mem p base hnd held hs bs v -> mem p base hnd held hs bs v'.
Proof.
  intros R%env_rely [H1 H2]. split; [by apply (state_rely p _ _ _ _ v)|].
  intros f c n Hf Hn. rewrite (rely_page _ _ _ R). by apply (H2 f c).
Qed.

#[export] Instance mem_proper p base hnd held hs : Proper ((≡ₚ) ==> (=) ==> iff) (mem p base hnd held hs).
Proof. intros bs bs' E v ? <-. unfold mem. by rewrite E. Qed.

(** Two places of one page are one block's. *)
Lemma page_unique p v b b' n : block_ok p v b -> block_ok p v b' -> at_place b n -> at_place b' n -> b_obj b' = b_obj b.
Proof.
  intros H H' (i & pr & E)%(block_page p v b n H) (i' & pr' & E')%(block_page p v b' n H'). congruence.
Qed.

Lemma vacant_outside p v v' hs : (forall n, page v p n = None -> page v' p n = None) -> vacant p hs v -> vacant p hs v'.
Proof. intros H V f c n Hf Hn. apply H. by apply (V f c). Qed.

Lemma block_not_vacant p v b f c n : (forall n, in_range f c n = true -> page v p n = None) -> block_ok p v b ->
  at_place b n -> in_range f c n = false.
Proof.
  intros Hv H Hn. destruct (in_range f c n) eqn:E; [|done]. apply Hv in E.
  destruct (block_page p v b n H Hn) as (i & pr & Ep). congruence.
Qed.

Lemma in_range_spec f c n : in_range f c n = true <-> f <= n < f + c.
Proof. unfold in_range. rewrite andb_true_iff, Z.leb_le, Z.ltb_lt. lia. Qed.

Section rules.
Context (refuse : Prop).

Lemma wp_anon {A} Q j p base hnd bs len prot v (f : Z * Z -> prog A) : mem p base hnd None [] bs v -> paged len ->
  (forall a e o v', a mod PAGE_SIZE = 0 -> 0 < a -> (forall fd, hnd fd <> Some o) ->
    mem p base hnd None [] (Block o (len / PAGE_SIZE) false (fun _ => 0) [(a / PAGE_SIZE, fun _ => prot)] :: bs) v' ->
    wp refuse Q j p (f (a, e)) v') ->
  (refuse -> forall e v', mem p base hnd None [] bs v' -> wp refuse Q j p (f (u64 (-1), e)) v') ->
  wp refuse Q j p (Sys (MmapAnon len prot) f) v.
Proof.
  intros [M _] Hl Hok Hno. split; [exact Hl|]. intros r v' Ho. inversion Ho as [len0 prot0 a o e Ha Ha' Hpg Hf| | | | | | | |
    c e Hr Hm He]; subst.
  - destruct Hf as [Hf1 Hf2]. set (v1 := new_object v o len false).
    assert (S1 : own_step p v v1 o) by (by apply own_new_object).
    assert (S : own_step p v (map_pages v1 p (a / PAGE_SIZE) (len / PAGE_SIZE) o prot) o).
    { apply (own_trans p v v1); [done| |by left]. apply own_map_pages; [done|apply Hf2|]. intros E. by destruct Hf1. }
    split; [by apply (own_guar p v _ o)|]. intros v'' E. apply (Hok a e o).
    + done.
    + done.
    + intros fd E'. apply (Hf2 p). right. exists fd. by rewrite (st_handle _ _ _ _ _ _ M).
    + apply (mem_env _ _ _ _ _ _ _ _ _ E). split; [|by intros f0 c0 n H%not_elem_of_nil].
      destruct (paged_pages len Hl) as [Hl1 Hl2]. pose proof M as [H1 H2 H3 H4 H5 H6].
      assert (Hin : forall b' n, b' ∈ bs -> at_place b' n -> in_range (a / PAGE_SIZE) (len / PAGE_SIZE) n = false).
      { intros b' n Hb' Hn. apply (block_not_vacant p v b'); auto. }
      apply (own_state p base hnd None _ bs v); [exact S|..].
      * intros b' Hb'. split; [by apply H1|]. cbn. intros Eo. apply (Hf2 p). rewrite <- Eo. by apply (H1 b' Hb').
      * exact H6.
      * intros b' n Hb' Hn. rewrite page_map_pages, (Hin b' n Hb' Hn). by rewrite andb_false_r.
      * constructor; cbn [b_obj b_count b_shared b_bytes b_places].
        -- intros g pr i Hg Hi. apply list_elem_of_singleton in Hg. injection Hg as -> ->. rewrite page_map_pages.
           rewrite Bool.eqb_reflx. rewrite (proj2 (in_range_spec _ _ _)) by lia. cbn.
           by rewrite Z.add_simpl_l.
        -- split.
           ++ left. exists (a / PAGE_SIZE), 0, prot. rewrite page_map_pages, Bool.eqb_reflx.
              rewrite (proj2 (in_range_spec _ _ _)) by lia. cbn. by rewrite Z.sub_diag.
           ++ rewrite (own_other_uses p v _ o o S). apply Hf2.
        -- cbn. rewrite Z.eqb_refl. lia.
        -- cbn. by rewrite Z.eqb_refl.
        -- intros i _. cbn. by rewrite Z.eqb_refl.
      * intros n. rewrite page_map_pages, Bool.eqb_reflx. destruct (in_range _ _ n) eqn:Er; cbn [andb].
        -- right. left. exists (a / PAGE_SIZE), (fun _ => prot). split; [by apply list_elem_of_singleton|done].
        -- destruct (H2 n) as [?|?]; [by left|by right; right].
      * exact H3.
      * intros n (g & pr & Hg & Hn). apply list_elem_of_singleton in Hg. injection Hg as -> ->. cbn in Hn.
        pose proof (Hpg n Hn) as Ep. destruct (H2 n) as [Eb|(b' & Hb' & Hn')]; [congruence|].
        by rewrite (Hin b' n Hb' Hn') in Hn.
      * exact H4.
      * apply (not_holding_own p v _ o S); [exact Hf1|exact H5].
  - split; [apply guar_refl|]. intros v'' E. cbn [failure]. apply Hno; [done|]. apply (mem_env _ _ _ _ _ _ _ _ _ E).
    split; [done|by intros f0 c0 n H%not_elem_of_nil].
Qed.

(** A file mapped at a vacant range. *)
Lemma wp_map {A} Q j p base hnd held hs b bs a len prot fd v (f : Z * Z -> prog A) :
  mem p base hnd held ((a / PAGE_SIZE, len / PAGE_SIZE) :: hs) (b :: bs) v ->
  a mod PAGE_SIZE = 0 -> paged len -> len / PAGE_SIZE = b_count b -> hnd fd = Some (b_obj b) ->
  Forall (fun h => forall n, in_range h.1 h.2 n = true -> in_range (a / PAGE_SIZE) (len / PAGE_SIZE) n = false) hs ->
  (forall e v', mem p base hnd held hs (add_place b (a / PAGE_SIZE) (fun _ => prot) :: bs) v' ->
    wp refuse Q j p (f (a, e)) v') ->
  (refuse -> forall e v', mem p base hnd held hs (b :: bs) v' -> wp refuse Q j p (f (u64 (-1), e)) v') ->
  wp refuse Q j p (Sys (MmapShared a len prot fd) f) v.
Proof.
  intros [M V] Ha Hl Hc Hfd Hap Hok Hno.
  destruct (state_tail _ _ _ _ _ _ _ M) as (Hbs & Hnd & Hbase & Hb & Hin).
  assert (Hpg : forall n, in_range (a / PAGE_SIZE) (len / PAGE_SIZE) n = true -> page v p n = None).
  { intros n. apply V, list_elem_of_here. }
  assert (Hfd' : handle v p fd = Some (b_obj b)) by (by rewrite (st_handle _ _ _ _ _ _ M)).
  split; [split; [done|split; [done|by rewrite Hfd']]|]. intros r v' Ho.
  inversion Ho as [|a0 len0 prot0 fd0 o e Hh| | | | | | |c e Hr Hm He]; subst.
  - assert (o = b_obj b) as -> by congruence.
    assert (S : own_step p v (map_pages v p (a / PAGE_SIZE) (len / PAGE_SIZE) (b_obj b) prot) (b_obj b)).
    { apply own_map_pages; [done|by apply Hb|by exists fd]. }
    split; [by apply (own_guar p v _ (b_obj b))|]. intros v'' E. apply Hok.
    apply (mem_env _ _ _ _ _ _ _ _ _ E). split.
    + apply (own_state p base hnd held (add_place b _ _) bs v); [exact S|exact Hbs|exact Hnd|..].
      * intros b' n Hb' Hn. rewrite page_map_pages, (block_not_vacant p v b'); [by rewrite andb_false_r|done| |done].
        by apply Hbs.
      * destruct Hb as [B1 [B2 B2'] B3 B4 B5]. constructor; cbn [add_place b_obj b_count b_shared b_bytes b_places].
        -- intros g pr i Hg Hi. rewrite page_map_pages, Bool.eqb_reflx. cbn [andb].
           apply elem_of_cons in Hg as [[= -> ->]|Hg].
           ++ rewrite (proj2 (in_range_spec _ _ _)) by lia. by rewrite Z.add_simpl_l.
           ++ rewrite (block_not_vacant p v b); [by apply B1|done|by constructor|].
              exists g, pr. split; [done|]. apply in_range_spec. lia.
        -- split; [right; by exists fd|]. by rewrite (own_other_uses p v _ (b_obj b) (b_obj b) S).
        -- exact B3.
        -- exact B4.
        -- exact B5.
      * intros n. rewrite page_map_pages, Bool.eqb_reflx. cbn [andb]. destruct (in_range _ _ n) eqn:Er.
        -- right. left. exists (a / PAGE_SIZE), (fun _ => prot). cbn. rewrite <- Hc.
           split; [apply list_elem_of_here|done].
        -- destruct (st_rest _ _ _ _ _ _ M n) as [?|(b' & Hb' & Hn)]; [by left|right].
           apply elem_of_cons in Hb' as [->|Hb']; [left|right; by exists b'].
           destruct Hn as (g & pr & Hg & Hn). exists g, pr. split; [by apply list_elem_of_further|done].
      * exact Hbase.
      * intros n (g & pr & Hg & Hn). apply elem_of_cons in Hg as [[= -> ->]|Hg].
        -- cbn in Hn. rewrite <- Hc in Hn.
           destruct (st_rest _ _ _ _ _ _ M n) as [<-|(b' & Hb' & Hn')]; [by apply Hpg|].
           rewrite (block_not_vacant p v b') in Hn; [done|done|by apply M|done].
        -- apply (st_base _ _ _ _ _ _ M b); [done|]. by exists g, pr.
      * apply M.
      * pose proof (st_held _ _ _ _ _ _ M) as Hh'. destruct held as [o|]; [exact Hh'|].
        apply (not_holding_own p v _ (b_obj b) S); [|done]. intros En. by apply (Hh' _ En), Hb.
    + intros g c n Hg Hn. rewrite page_map_pages. rewrite Forall_forall in Hap.
      rewrite (Hap _ Hg) by done. rewrite andb_false_r. apply (V g c); [by apply list_elem_of_further|done].
  - split; [apply guar_refl|]. intros v'' E. cbn [failure]. apply Hno; [done|]. apply (mem_env _ _ _ _ _ _ _ _ _ E).
    split; [done|]. intros g c n Hg. apply V. by apply list_elem_of_further.
Qed.

(** ** Loads and stores *)
Lemma block_locate p v b f pr i : block_ok p v b -> (f, pr) ∈ b_places b -> 0 <= i < b_count b * PAGE_SIZE ->
  locate v p (f * PAGE_SIZE + i) = Some (b_obj b, i, pr (i / PAGE_SIZE)).
Proof.
  intros Hb Hf Hi. unfold locate.
  replace ((f * PAGE_SIZE + i) / PAGE_SIZE) with (f + i / PAGE_SIZE) by (unfold PAGE_SIZE in *; div_lia).
  rewrite (bk_page _ _ _ Hb f pr (i / PAGE_SIZE)) by (done || (unfold PAGE_SIZE in *; div_lia)).
  replace (i / PAGE_SIZE * PAGE_SIZE + (f * PAGE_SIZE + i) mod PAGE_SIZE) with i by (unfold PAGE_SIZE in *; div_lia).
  rewrite (bk_size _ _ _ Hb). by rewrite (proj2 (Z.ltb_lt _ _)) by lia.
Qed.

Lemma wp_load {A} Q j p base hnd held hs b bs f pr i a v (g : Z -> prog A) :
  mem p base hnd held hs bs v -> b ∈ bs -> (f, pr) ∈ b_places b -> 0 <= i < b_count b * PAGE_SIZE ->
  a = f * PAGE_SIZE + i -> pr (i / PAGE_SIZE) <> PROT_NONE ->
  (forall v', mem p base hnd held hs bs v' -> wp refuse Q j p (g (b_bytes b i)) v') ->
  wp refuse Q j p (Load a g) v.
Proof.
  intros [M V] Hb Hf Hi -> Hpr Hok. pose proof (st_blocks _ _ _ _ _ _ M b Hb) as B. exists (b_bytes b i). split.
  - unfold load. rewrite (block_locate p v b f pr i B Hf Hi). rewrite (proj2 (Z.eqb_neq _ _) Hpr).
    by rewrite (bk_cell _ _ _ B).
  - intros v' E. apply Hok. by apply (mem_env _ _ _ _ _ _ _ _ _ E).
Qed.

Lemma wp_store {A} Q j p base hnd held hs b bs f pr i a x v (g : prog A) :
  mem p base hnd held hs (b :: bs) v -> (f, pr) ∈ b_places b -> 0 <= i < b_count b * PAGE_SIZE ->
  a = f * PAGE_SIZE + i -> has (pr (i / PAGE_SIZE)) PROT_WRITE = true ->
  (forall v', mem p base hnd held hs (put_byte b i x :: bs) v' -> wp refuse Q j p g v') ->
  wp refuse Q j p (Store a x g) v.
Proof.
  intros [M V] Hf Hi -> Hpr Hok. destruct (state_tail _ _ _ _ _ _ _ M) as (Hbs & Hnd & Hbase & Hb & Hin).
  assert (S : own_step p v (set_cell v (b_obj b) i x) (b_obj b)) by (apply own_set_cell, Hb).
  exists (b_obj b), i. split; [|split; [by apply (own_guar p v _ (b_obj b))|]].
  - unfold writable. rewrite (block_locate p v b f pr i Hb Hf Hi). by rewrite Hpr.
  - intros v' E. apply Hok. apply (mem_env _ _ _ _ _ _ _ _ _ E). split; [|exact V].
    apply (own_state p base hnd held (put_byte b i x) bs v); [exact S|exact Hbs|exact Hnd|done|..].
    + destruct Hb as [B1 B2 B3 B4 B5]. constructor; cbn [put_byte b_obj b_count b_shared b_bytes b_places]; try done.
      intros k Hk. cbn. rewrite Z.eqb_refl. cbn [andb]. destruct (k =? i); [done|by apply B5].
    + intros n. destruct (st_rest _ _ _ _ _ _ M n) as [?|(b' & Hb' & Hn)]; [by left|right].
      apply elem_of_cons in Hb' as [->|Hb']; [by left|right; by exists b'].
    + exact Hbase.
    + intros n Hn. by apply (st_base _ _ _ _ _ _ M b).
    + apply M.
    + pose proof (st_held _ _ _ _ _ _ M) as Hh'. by destruct held.
Qed.

(** ** Pages given back *)
Definition set_places (b : block) (pls : list (Z * (Z -> Z))) : block :=
  Block (b_obj b) (b_count b) (b_shared b) (b_bytes b) pls.

Lemma unmapped p base hnd hs b bs f pr pls v : mem p base hnd None hs (b :: bs) v -> b_places b = (f, pr) :: pls ->
  let v' := unmap_pages v p f (b_count b) in
  own_step p v v' (b_obj b) /\
  (forall b' n, b' ∈ bs -> at_place b' n -> page v' p n = page v p n) /\
  (forall n, page v' p n = base n \/ at_place (set_places b pls) n \/ exists b', b' ∈ bs /\ at_place b' n) /\
  not_holding v' p /\ vacant p ((f, b_count b) :: hs) v'.
Proof.
  intros [M V] Hp v'. destruct (state_tail _ _ _ _ _ _ _ M) as (Hbs & Hnd & Hbase & Hb & Hin).
  assert (Hat : forall n, in_range f (b_count b) n = true -> at_place b n).
  { intros n Hn. exists f, pr. rewrite Hp. split; [apply list_elem_of_here|done]. }
  assert (Hn : named v <> Some (b_obj b)).
  { intros En. apply (st_held _ _ _ _ _ _ M _ En), Hb. }
  assert (S : own_step p v v' (b_obj b)).
  { apply own_unmap; [|apply Hb|exact Hn]. intros n o' i prot Hr E.
    destruct (block_page p v b n Hb (Hat n Hr)) as (i' & prot' & E'). congruence. }
  split; [exact S|]. split; [|split; [|split]].
  - intros b' n Hb' Hat'. unfold v', unmap_pages. rewrite page_set_pages, Bool.eqb_reflx. cbn [andb].
    destruct (in_range f (b_count b) n) eqn:E; [|done]. exfalso. destruct (Hbs b' Hb') as [B' Ho].
    apply Ho, (page_unique p v b b' n Hb B'); auto.
  - intros n. unfold v', unmap_pages. rewrite page_set_pages, Bool.eqb_reflx. cbn [andb].
    destruct (in_range f (b_count b) n) eqn:E.
    + left. symmetry. apply (st_base _ _ _ _ _ _ M b); auto.
    + destruct (st_rest _ _ _ _ _ _ M n) as [?|(b' & Hb' & Hn')]; [by left|right].
      apply elem_of_cons in Hb' as [->|Hb']; [left|right; by exists b'].
      destruct Hn' as (g & pr' & Hg & Hn'). exists g, pr'. split; [|done]. rewrite Hp in Hg.
      apply elem_of_cons in Hg as [[= -> ->]|Hg]; [by rewrite Hn' in E|done].
  - apply (not_holding_own p v v' (b_obj b) S); [exact Hn|apply M].
  - intros g c n Hg Hr. unfold v', unmap_pages. rewrite page_set_pages, Bool.eqb_reflx. cbn [andb].
    apply elem_of_cons in Hg as [[= -> ->]|Hg]; [by rewrite Hr|]. case_match; [done|]. by apply (V g c).
Qed.

Lemma wp_unmap_more {A} Q j p base hnd hs b bs a len pr pls v (f : Z * Z -> prog A) :
  mem p base hnd None hs (b :: bs) v -> a mod PAGE_SIZE = 0 -> paged len -> len / PAGE_SIZE = b_count b ->
  b_places b = (a / PAGE_SIZE, pr) :: pls -> pls <> [] -> Forall (fun pl => pl.1 <> a / PAGE_SIZE) pls ->
  (forall e v', mem p base hnd None ((a / PAGE_SIZE, len / PAGE_SIZE) :: hs) (set_places b pls :: bs) v' ->
    wp refuse Q j p (f (0, e)) v') ->
  wp refuse Q j p (Sys (Munmap a len) f) v.
Proof.
  intros M Ha Hl Hc Hp Hne Hd Hok. split; [done|]. intros r v' Ho.
  inversion Ho as [| |a0 len0 e| | | | | |c e Hr Hm He]; subst; [|done]. rewrite Hc in *.
  destruct (unmapped p base hnd hs b bs _ pr pls v M Hp) as (S & Hpg & Hrest & Hnh & Hv).
  destruct M as [M V]. destruct (state_tail _ _ _ _ _ _ _ M) as (Hbs & Hnd & Hbase & Hb & Hin).
  split; [by apply (own_guar p v _ (b_obj b))|]. intros v'' E. apply Hok.
  apply (mem_env _ _ _ _ _ _ _ _ _ E). split; [|exact Hv].
  assert (Hpos : 0 < b_count b) by (destruct (paged_pages len Hl); lia).
  assert (Hkeep : forall g pr' i, (g, pr') ∈ pls -> 0 <= i < b_count b ->
    page (unmap_pages v p (a / PAGE_SIZE) (b_count b)) p (g + i) = Some (b_obj b, i, pr' i)).
  { intros g pr' i Hg Hi. assert (Hg' : (g, pr') ∈ b_places b) by (rewrite Hp; by apply list_elem_of_further).
    pose proof (bk_page _ _ _ Hb g pr' i Hg' Hi) as E1. unfold unmap_pages.
    rewrite page_set_pages, Bool.eqb_reflx. cbn [andb]. destruct (in_range _ _ (g + i)) eqn:Er; [|done]. exfalso.
    apply in_range_spec in Er. rewrite Forall_forall in Hd. apply (Hd _ Hg). cbn.
    assert (Hf : (a / PAGE_SIZE, pr) ∈ b_places b) by (rewrite Hp; apply list_elem_of_here).
    pose proof (bk_page _ _ _ Hb _ pr (g + i - a / PAGE_SIZE) Hf) as E2.
    replace (a / PAGE_SIZE + (g + i - a / PAGE_SIZE)) with (g + i) in E2 by lia.
    rewrite E1 in E2. assert (i = g + i - a / PAGE_SIZE) by (specialize (E2 ltac:(lia)); congruence). lia. }
  apply (own_state p base hnd None (set_places b pls) bs v); [exact S|exact Hbs|exact Hnd|exact Hpg| |exact Hrest|
    exact Hbase| |apply M|exact Hnh].
  - destruct Hb as [B1 [B2 B2'] B3 B4 B5]. constructor; cbn [set_places b_obj b_count b_shared b_bytes b_places];
      [exact Hkeep| |exact B3|exact B4|exact B5].
    split; [|by rewrite (own_other_uses p v _ (b_obj b) (b_obj b) S)].
    destruct pls as [|[g pr'] pls']; [done|]. left. exists (g + 0), 0, (pr' 0).
    apply Hkeep; [apply list_elem_of_here|lia].
  - intros n (g & pr' & Hg & Hn). apply (st_base _ _ _ _ _ _ M b); [done|]. exists g, pr'.
    split; [rewrite Hp; by apply list_elem_of_further|done].
Qed.

Lemma wp_unmap_last {A} Q j p base hnd hs b bs a len pr v (f : Z * Z -> prog A) :
  mem p base hnd None hs (b :: bs) v -> a mod PAGE_SIZE = 0 -> paged len -> len / PAGE_SIZE = b_count b ->
  b_places b = [(a / PAGE_SIZE, pr)] ->
  (forall e v', mem p base hnd None ((a / PAGE_SIZE, len / PAGE_SIZE) :: hs) bs v' -> wp refuse Q j p (f (0, e)) v') ->
  wp refuse Q j p (Sys (Munmap a len) f) v.
Proof.
  intros M Ha Hl Hc Hp Hok. split; [done|]. intros r v' Ho.
  inversion Ho as [| |a0 len0 e| | | | | |c e Hr Hm He]; subst; [|done]. rewrite Hc in *.
  destruct (unmapped p base hnd hs b bs _ pr [] v M Hp) as (S & Hpg & Hrest & Hnh & Hv).
  destruct M as [M V]. destruct (state_tail _ _ _ _ _ _ _ M) as (Hbs & Hnd & Hbase & Hb & Hin).
  split; [by apply (own_guar p v _ (b_obj b))|]. intros v'' E. apply Hok.
  apply (mem_env _ _ _ _ _ _ _ _ _ E). split; [|exact Hv]. constructor.
  - intros b' Hb'. destruct (Hbs b' Hb') as [B' Ho']. apply (own_block p v _ (b_obj b)); eauto.
  - intros n. destruct (Hrest n) as [?|[(g & pr' & Hg & _)|?]]; [by left|by apply not_elem_of_nil in Hg|by right].
  - exact Hbase.
  - apply M.
  - exact Hnh.
  - exact Hnd.
Qed.

(** ** The file of shared memory *)
Definition new_file (o : object) (count : Z) : block := Block o count true (fun _ => 0) [].

Lemma mem_hnd p base hnd hnd' held hs bs v : (forall fd, hnd fd = hnd' fd) ->
  mem p base hnd held hs bs v -> mem p base hnd' held hs bs v.
Proof.
  intros H [[H1 H2 H3 H4 H5 H6] V]. split; [|done]. constructor; try done. intros fd. by rewrite <- H.
Qed.

Lemma no_place o count n : ~ at_place (new_file o count) n.
Proof. intros (f & pr & H & _). by apply not_elem_of_nil in H. Qed.

Lemma wp_open_new Q j p base hnd hs bs v : mem p base hnd None hs bs v ->
  (forall fd o v', hnd fd = None -> mem p base (hset hnd fd (Some o)) (Some o) hs (new_file o 0 :: bs) v' ->
    Q j p fd v') ->
  wp refuse Q j p open_new v.
Proof.
  intros [M V] Hok. split; [done|]. split; [apply M|]. intros r v' Ho.
  inversion Ho as [| | |fd o e Hn Hfd Hh Hf|Hn| | | |c e Hr Hm He]; subst.
  - destruct Hf as [Hf1 Hf2]. pose proof M as [H1 H2 H3 H4 H5 H6].
    set (v1 := new_object v o 0 true). set (v2 := set_handle v1 p fd (Some o)).
    assert (S1 : own_step p v v1 o) by (by apply own_new_object).
    assert (Hu : uses v2 p o).
    { right. exists fd. unfold v2. by rewrite handle_set_handle, Bool.eqb_reflx, Z.eqb_refl. }
    assert (S2 : own_step p v1 v2 o).
    { apply own_set_handle; [apply Hf2|by right|by left|done]. }
    assert (S3 : own_step p v2 (set_name v2 (Some o)) o).
    { apply own_set_name; [rewrite (own_other_uses p v1 v2 o o S2); apply Hf2|by left]. }
    assert (S : own_step p v (set_name v2 (Some o)) o).
    { apply (own_trans p v v2); [|done|by left]. by apply (own_trans p v v1); [..|left]. }
    split; [by apply (own_guar p v _ o)|]. intros v'' E. rewrite (proj2 (Z.leb_le 0 fd)) by done.
    apply (Hok fd o); [by rewrite <- H4|]. apply (mem_env _ _ _ _ _ _ _ _ _ E). split; [|exact V].
    apply (own_state p base _ (Some o) (new_file o 0) bs v); [exact S|..].
    + intros b' Hb'. split; [by apply H1|]. cbn. intros Eo. apply (Hf2 p). rewrite <- Eo. by apply (H1 b' Hb').
    + exact H6.
    + done.
    + constructor; cbn [new_file b_obj b_count b_shared b_bytes b_places].
      * intros f pr i Hg. by apply not_elem_of_nil in Hg.
      * split; [exact Hu|]. rewrite (own_other_uses p v _ o o S). apply Hf2.
      * cbn. by rewrite Z.eqb_refl.
      * cbn. by rewrite Z.eqb_refl.
      * intros i Hi. lia.
    + intros n. destruct (H2 n) as [?|?]; [by left|by right; right].
    + exact H3.
    + intros n Hn'. by apply no_place in Hn'.
    + intros d. change (handle v2 p d = hset hnd fd (Some o) d). unfold v2, hset.
      rewrite handle_set_handle, Bool.eqb_reflx. cbn [andb]. destruct (d =? fd); [done|apply H4].
    + split; [done|]. apply list_elem_of_here.
  - split; [apply guar_refl|]. intros v'' _. by split.
  - split; [apply guar_refl|]. intros v'' _. cbn [failure]. specialize (He eq_refl). cbn.
    rewrite (proj2 (Z.eqb_neq _ _) He). exact Hr.
Qed.

Lemma wp_truncate {A} Q j p base hnd held hs o bs fd size v (f : Z * Z -> prog A) :
  mem p base hnd held hs (new_file o 0 :: bs) v -> hnd fd = Some o -> paged size ->
  (forall e v', mem p base hnd held hs (new_file o (size / PAGE_SIZE) :: bs) v' -> wp refuse Q j p (f (0, e)) v') ->
  (refuse -> forall e v', mem p base hnd held hs (new_file o 0 :: bs) v' -> wp refuse Q j p (f (-1, e)) v') ->
  wp refuse Q j p (Sys (Ftruncate fd size) f) v.
Proof.
  intros [M V] Hfd Hs Hok Hno. destruct (state_tail _ _ _ _ _ _ _ M) as (Hbs & Hnd & Hbase & Hb & Hin).
  assert (Hfd' : handle v p fd = Some o) by (by rewrite (st_handle _ _ _ _ _ _ M)).
  split; [split; [by rewrite Hfd'|apply Hs]|]. intros r v' Ho.
  inversion Ho as [| | | | |fd0 size0 o0 e Hh| | |c e Hr Hm He]; subst.
  - assert (o0 = o) as -> by congruence.
    assert (S : own_step p v (set_size v o size) o) by (apply own_set_size, Hb).
    split; [by apply (own_guar p v _ o)|]. intros v'' E. apply Hok. apply (mem_env _ _ _ _ _ _ _ _ _ E).
    split; [|exact V]. destruct (paged_pages size Hs) as [Hs1 Hs2].
    apply (own_state p base hnd held (new_file o (size / PAGE_SIZE)) bs v); [exact S|exact Hbs|exact Hnd|done|..].
    + destruct Hb as [B1 B2 B3 B4 B5]. cbn [new_file b_obj b_count] in *.
      constructor; cbn [new_file b_obj b_count b_shared b_bytes b_places].
      * intros g pr i Hg. by apply not_elem_of_nil in Hg.
      * exact B2.
      * cbn. rewrite Z.eqb_refl. lia.
      * exact B4.
      * intros i Hi. cbn. rewrite Z.eqb_refl, B3. cbn [andb]. by rewrite (proj2 (Z.leb_le _ _)) by lia.
    + intros n. destruct (st_rest _ _ _ _ _ _ M n) as [?|(b' & Hb' & Hn)]; [by left|right].
      apply elem_of_cons in Hb' as [->|Hb']; [by apply no_place in Hn|right; by exists b'].
    + exact Hbase.
    + intros n Hn. by apply no_place in Hn.
    + apply M.
    + pose proof (st_held _ _ _ _ _ _ M) as Hh'. by destruct held.
  - split; [apply guar_refl|]. intros v'' E. cbn [failure]. apply Hno; [done|]. by apply (mem_env _ _ _ _ _ _ _ _ _ E).
Qed.

Lemma wp_close {A} Q j p base hnd hs b bs fd v (f : Z * Z -> prog A) :
  mem p base hnd (Some (b_obj b)) hs (b :: bs) v -> hnd fd = Some (b_obj b) -> b_places b <> [] -> 0 < b_count b ->
  (forall e v', mem p base (hset hnd fd None) (Some (b_obj b)) hs (b :: bs) v' -> wp refuse Q j p (f (0, e)) v') ->
  wp refuse Q j p (Sys (Close fd) f) v.
Proof.
  intros [M V] Hfd Hp Hc Hok. destruct (state_tail _ _ _ _ _ _ _ M) as (Hbs & Hnd & Hbase & Hb & Hin).
  assert (Hfd' : handle v p fd = Some (b_obj b)) by (by rewrite (st_handle _ _ _ _ _ _ M)).
  split; [cbn; by rewrite Hfd'|]. intros r v' Ho.
  inversion Ho as [| | | | | |fd0 e| |c e Hr Hm He]; subst; [|done].
  assert (Hu : uses (set_handle v p fd None) p (b_obj b)).
  { destruct (b_places b) as [|[g pr] pls] eqn:E; [done|]. left. exists (g + 0), 0, (pr 0).
    change (page v p (g + 0) = Some (b_obj b, 0, pr 0)). apply (bk_page _ _ _ Hb); [|lia]. rewrite E.
    apply list_elem_of_here. }
  assert (S : own_step p v (set_handle v p fd None) (b_obj b)).
  { apply own_set_handle; [apply Hb|by left|by right|done]. }
  split; [by apply (own_guar p v _ (b_obj b))|]. intros v'' E. apply Hok. apply (mem_env _ _ _ _ _ _ _ _ _ E).
  split; [|exact V]. apply (own_state p base _ (Some (b_obj b)) b bs v); [exact S|exact Hbs|exact Hnd|done|..].
  - destruct Hb as [B1 B2 B3 B4 B5]. constructor; try done. split; [exact Hu|].
    rewrite (own_other_uses p v _ _ (b_obj b) S). apply B2.
  - intros n. destruct (st_rest _ _ _ _ _ _ M n) as [?|(b' & Hb' & Hn)]; [by left|right].
    apply elem_of_cons in Hb' as [->|Hb']; [by left|right; by exists b'].
  - exact Hbase.
  - intros n Hn. by apply (st_base _ _ _ _ _ _ M b).
  - intros d. rewrite handle_set_handle, Bool.eqb_reflx. unfold hset. cbn [andb].
    destruct (d =? fd); [done|apply M].
  - exact (st_held _ _ _ _ _ _ M).
Qed.

Lemma wp_unlink {A} Q j p base hnd hs b bs v (f : Z * Z -> prog A) :
  mem p base hnd (Some (b_obj b)) hs (b :: bs) v ->
  (forall e v', mem p base hnd None hs (b :: bs) v' -> wp refuse Q j p (f (0, e)) v') ->
  wp refuse Q j p (Sys ShmUnlink f) v.
Proof.
  intros [M V] Hok. destruct (state_tail _ _ _ _ _ _ _ M) as (Hbs & Hnd & Hbase & Hb & Hin).
  destruct (st_held _ _ _ _ _ _ M) as [Hn _]. split; [cbn; by rewrite Hn|]. intros r v' Ho.
  inversion Ho as [| | | | | | |e|c e Hr Hm He]; subst; [|done].
  assert (S : own_step p v (set_name v None) (b_obj b)) by (apply own_set_name; [apply Hb|by right]).
  split; [by apply (own_guar p v _ (b_obj b))|]. intros v'' E. apply Hok. apply (mem_env _ _ _ _ _ _ _ _ _ E).
  split; [|exact V]. apply (own_state p base _ None b bs v); [exact S|exact Hbs|exact Hnd|done|..].
  - by destruct Hb as [B1 B2 B3 B4 B5].
  - intros n. destruct (st_rest _ _ _ _ _ _ M n) as [?|(b' & Hb' & Hn')]; [by left|right].
    apply elem_of_cons in Hb' as [->|Hb']; [by left|right; by exists b'].
  - exact Hbase.
  - intros n Hn'. by apply (st_base _ _ _ _ _ _ M b).
  - apply M.
  - done.
Qed.
End rules.
