(* ===== verification/ForkFacts.v ===== *)
(** * The operations of [fork]

    What each function of [rock_fork] does to the blocks of its process, and
    a bound on its steps. *)

From S2P Require Import Prelude Dict Graph Module Pager MemCalls CodeHeap Fork ForkKernel ForkLogic ForkState ForkRules.

(** ** What is saved and restored *)

(** A mapping of a module with its shadow in the sandbox's own memory. *)
Record part : Type := Part { pt_base : Z; pt_osb : Z; pt_size : Z; pt_prot : Z }.

Definition code_part (m : code_module) : part := Part (base_addr m) (osb_base_addr m) (sz m) PROT_EXEC.
Definition gotplt_part (m : code_module) : part := Part (gotplt m) (osb_gotplt m) (gotpltsz m) PROT_READ.

Definition parts (m : code_module) : list part :=
  code_part m :: if has_gotplt m then [gotplt_part m] else [].

Definition copies (s : saved) : list (part * Z) :=
  (code_part (s_module s), s_code s) ::
  if has_gotplt (s_module s) then [(gotplt_part (s_module s), s_gotpltcontent s)] else [].

(** The ranges of pages of a part. *)
Definition base_pages (t : part) : Z * Z := (pt_base t / PAGE_SIZE, pt_size t / PAGE_SIZE).
Definition osb_pages (t : part) : Z * Z := (pt_osb t / PAGE_SIZE, pt_size t / PAGE_SIZE).
Definition part_pages (t : part) : list (Z * Z) := [base_pages t; osb_pages t].

Record part_ok (t : part) : Prop := {
  pk_base : pt_base t mod PAGE_SIZE = 0;
  pk_osb : pt_osb t mod PAGE_SIZE = 0;
  pk_size : paged (pt_size t);
}.

Definition apart (x y : Z * Z) : Prop := x.1 + x.2 <= y.1 \/ y.1 + y.2 <= x.1.

Fixpoint all_apart (l : list (Z * Z)) : Prop :=
  match l with
  | [] => True
  | x :: l' => Forall (apart x) l' /\ all_apart l'
  end.

(** The blocks: of a copy, of a part before and of a part after. *)
Record copy_of (text : Z -> Z) (hnd : Z -> option object) (x : part * Z) (c : block) : Prop := {
  cp_aligned : x.2 mod PAGE_SIZE = 0;
  cp_count : b_count c = pt_size x.1 / PAGE_SIZE;
  cp_places : b_places c = [(x.2 / PAGE_SIZE, fun _ => Z.lor PROT_WRITE PROT_READ)];
  cp_private : b_shared c = false;
  cp_closed fd : hnd fd <> Some (b_obj c);
  cp_bytes i : 0 <= i < pt_size x.1 -> b_bytes c i = text (pt_base x.1 + i);
}.

Record mapped_at (text : Z -> Z) (t : part) (b : block) : Prop := {
  mp_count : b_count b = pt_size t / PAGE_SIZE;
  mp_places : exists pr pr', b_places b = [((base_pages t).1, pr); ((osb_pages t).1, pr')] /\
    forall i, 0 <= i < b_count b -> pr i <> PROT_NONE;
  mp_bytes i : 0 <= i < pt_size t -> b_bytes b i = text (pt_base t + i);
}.

Record restored_at (text : Z -> Z) (t : part) (b : block) : Prop := {
  rs_count : b_count b = pt_size t / PAGE_SIZE;
  rs_places : b_places b = [((osb_pages t).1, fun _ => PROT_WRITE); ((base_pages t).1, fun _ => pt_prot t)];
  rs_bytes i : 0 <= i < pt_size t -> b_bytes b i = text (pt_base t + i);
}.

(** ** Shared lemmas *)
Definition set_bytes (b : block) (bytes : Z -> Z) : block :=
  Block (b_obj b) (b_count b) (b_shared b) bytes (b_places b).

Lemma mem_bytes p base hnd held hs b bytes bs v :
  (forall i, 0 <= i < b_count b * PAGE_SIZE -> bytes i = b_bytes b i) ->
  mem p base hnd held hs (b :: bs) v -> mem p base hnd held hs (set_bytes b bytes :: bs) v.
Proof.
  intros H [[H1 H2 H3 H4 H5 H6] V]. split; [|exact V]. constructor; try done.
  - intros b' Hb'. apply elem_of_cons in Hb' as [->|Hb']; [|apply H1; by apply list_elem_of_further].
    destruct (H1 b (list_elem_of_here _ _)) as [B1 B2 B3 B4 B5]. constructor; try done.
    intros i Hi. cbn in *. rewrite H by done. by apply B5.
  - intros n. destruct (H2 n) as [?|(b' & Hb' & Hn)]; [by left|right].
    apply elem_of_cons in Hb' as [->|Hb']; [exists (set_bytes b bytes)|exists b'].
    + split; [apply list_elem_of_here|exact Hn].
    + split; [by apply list_elem_of_further|done].
  - intros b' n Hb'. apply elem_of_cons in Hb' as [->|Hb']; [apply (H3 b), list_elem_of_here|].
    apply H3. by apply list_elem_of_further.
Qed.

Lemma mem_holes p base hnd held hs hs' bs v : hs' ⊆ hs -> mem p base hnd held hs bs v -> mem p base hnd held hs' bs v.
Proof. intros H [M V]. split; [done|]. intros f c n Hf. apply V. by apply H. Qed.

Lemma prots_differ : Z.lor PROT_WRITE PROT_READ <> PROT_NONE /\ has (Z.lor PROT_WRITE PROT_READ) PROT_WRITE = true /\
  has PROT_WRITE PROT_WRITE = true.
Proof. done. Qed.

Lemma page_round a : a mod PAGE_SIZE = 0 -> a / PAGE_SIZE * PAGE_SIZE = a.
Proof. unfold PAGE_SIZE. intros. div_lia. Qed.

Lemma apart_in_range x y n : apart x y -> in_range y.1 y.2 n = true -> in_range x.1 x.2 n = false.
Proof.
  intros H Hn%in_range_spec. apply not_true_is_false. intros Hn'%in_range_spec. destruct H; lia.
Qed.

Section operations.
Context (refuse : Prop).

(** ** [memcpy] *)
Lemma wp_memcpy Q j p base hnd held hs (bs : list block) s sf spr : s ∈ bs -> (sf, spr) ∈ b_places s ->
  (forall i, 0 <= i < b_count s -> spr i <> PROT_NONE) -> forall n k d df dpr v,
  mem p base hnd held hs (d :: bs) v -> (df, dpr) ∈ b_places d ->
  (forall i, 0 <= i < b_count d -> has (dpr i) PROT_WRITE = true) ->
  0 <= k -> k + Z.of_nat n = b_count d * PAGE_SIZE -> b_count d = b_count s ->
  (forall v', mem p base hnd held hs
     (set_bytes d (fun i => if k <=? i then b_bytes s i else b_bytes d i) :: bs) v' -> Q j p tt v') ->
  wp refuse Q j p (memcpy n (df * PAGE_SIZE + k) (sf * PAGE_SIZE + k)) v.
Proof.
  intros Hs Hsf Hspr. induction n as [|n IH]; intros k d df dpr v M Hdf Hdpr Hk Hn Hc Hok; cbn [memcpy].
  - apply Hok. apply (mem_bytes _ _ _ _ _ d); [|done]. intros i Hi. by rewrite (proj2 (Z.leb_gt _ _)) by lia.
  - assert (Hin : 0 <= k / PAGE_SIZE < b_count d) by (unfold PAGE_SIZE in *; div_lia).
    apply (wp_load refuse Q j p base hnd held hs s (d :: bs) sf spr k); [done|by apply list_elem_of_further|done|lia|
      done|apply Hspr; lia|]. intros v1 M1.
    apply (wp_store refuse Q j p base hnd held hs d bs df dpr k); [done|done|lia|done|by apply Hdpr|]. intros v2 M2.
    replace (df * PAGE_SIZE + k + 1) with (df * PAGE_SIZE + (k + 1)) by lia.
    replace (sf * PAGE_SIZE + k + 1) with (sf * PAGE_SIZE + (k + 1)) by lia.
    apply (IH (k + 1) (put_byte d k (b_bytes s k)) df dpr v2); [done|done|done|lia|cbn; lia|done|].
    intros v3 M3. apply Hok. refine (mem_bytes p base hnd held hs (set_bytes (put_byte d k (b_bytes s k)) _)
      (fun i => if k <=? i then b_bytes s i else b_bytes d i) bs v3 _ M3).
    intros i Hi. cbn. destruct (Z.leb_spec k i), (Z.leb_spec (k + 1) i), (Z.eqb_spec i k); subst; try done; lia.
Qed.

Lemma wp_memcpy_all Q j p base hnd held hs bs s spr d dpr dst src size v :
  mem p base hnd held hs (d :: bs) v -> s ∈ bs -> (src / PAGE_SIZE, spr) ∈ b_places s ->
  (dst / PAGE_SIZE, dpr) ∈ b_places d -> (forall i, 0 <= i < b_count s -> spr i <> PROT_NONE) ->
  (forall i, 0 <= i < b_count d -> has (dpr i) PROT_WRITE = true) ->
  dst mod PAGE_SIZE = 0 -> src mod PAGE_SIZE = 0 -> paged size ->
  b_count d = size / PAGE_SIZE -> b_count s = size / PAGE_SIZE ->
  (forall v', mem p base hnd held hs (set_bytes d (b_bytes s) :: bs) v' -> Q j p tt v') ->
  wp refuse Q j p (memcpy (Z.to_nat size) dst src) v.
Proof.
  intros M Hs Hsf Hdf Hspr Hdpr Hdst Hsrc Hsize Hd Hc Hok. destruct (paged_pages _ Hsize) as [S1 S2].
  replace dst with (dst / PAGE_SIZE * PAGE_SIZE + 0) by (rewrite page_round by done; lia).
  replace src with (src / PAGE_SIZE * PAGE_SIZE + 0) by (rewrite page_round by done; lia).
  apply (wp_memcpy Q j p base hnd held hs bs s (src / PAGE_SIZE) spr Hs Hsf Hspr (Z.to_nat size) 0 d
    (dst / PAGE_SIZE) dpr v M Hdf Hdpr); [lia| |congruence|].
  { rewrite Hd, <- S2. destruct Hsize. lia. }
  intros v' M'. apply Hok. refine (mem_bytes p base hnd held hs (set_bytes d _) (b_bytes s) bs v' _ M').
  intros i Hi. cbn. by rewrite (proj2 (Z.leb_le 0 i)) by lia.
Qed.

(** ** [restore_parallel_mapping] *)
Lemma wp_restore_parallel_mapping Q j p base hnd hs bs t v : part_ok t ->
  mem p base hnd None (base_pages t :: osb_pages t :: hs) bs v -> apart (base_pages t) (osb_pages t) ->
  Forall (apart (base_pages t)) hs -> Forall (apart (osb_pages t)) hs ->
  (forall o v', mem p base hnd None hs
    (Block o (pt_size t / PAGE_SIZE) true (fun _ => 0)
       [((osb_pages t).1, fun _ => PROT_WRITE); ((base_pages t).1, fun _ => pt_prot t)] :: bs) v' -> Q j p tt v') ->
  wp refuse Q j p (restore_parallel_mapping (pt_base t) (pt_osb t) (pt_size t) (pt_prot t)) v.
Proof.
  intros [Hb Ho Hs] M Hap Hap1 Hap2 Hok. unfold restore_parallel_mapping.
  assert (Hodd : forall a, a mod PAGE_SIZE = 0 -> (a =? u64 (-1)) = false).
  { intros a Ha. apply Z.eqb_neq. intros ->. by vm_compute in Ha. }
  assert (Hsz : negb (pt_size t mod PAGE_SIZE =? 0) = false) by (by rewrite (proj2 Hs)).
  apply wp_seq, (wp_open_new refuse _ j p base hnd (base_pages t :: osb_pages t :: hs) bs); [exact M|].
  clear v M. intros fd o v Hfd M.
  assert (Hfd' : hset hnd fd (Some o) fd = Some o) by (unfold hset; by rewrite Z.eqb_refl).
  eapply wp_truncate; [exact M|exact Hfd'|exact Hs| |by intros Hr e v1 _].
  clear v M. intros e v M. cbn [Z.eqb negb]. rewrite Hsz.
  eapply wp_map; [exact M|exact Hb|exact Hs|done|
    exact Hfd'| | |].
  { constructor; [|]; [intros n; by apply (apart_in_range (base_pages t))|].
    eapply Forall_impl; [exact Hap1|]. intros h Hh n. by apply (apart_in_range (base_pages t)). }
  2: { intros Hr _ v1 _. by rewrite (Hodd _ Hb). }
  clear v e M. intros e v M. rewrite Z.eqb_refl. cbn [negb].
  eapply wp_map; [exact M|exact Ho|exact Hs|done|
    exact Hfd'| | |].
  { eapply Forall_impl; [exact Hap2|]. intros h Hh n. by apply (apart_in_range (osb_pages t)). }
  2: { intros Hr _ v1 _. by rewrite (Hodd _ Ho). }
  clear v e M. intros e v M. rewrite Z.eqb_refl. cbn [negb].
  set (b := (add_place (add_place (new_file o (pt_size t / PAGE_SIZE)) (pt_base t / PAGE_SIZE) (fun _ => pt_prot t))
    (pt_osb t / PAGE_SIZE) (fun _ => PROT_WRITE))) in M.
  eapply (wp_close refuse Q j p base _ _ b bs); [exact M|exact Hfd'|done|cbn; by apply paged_pages|].
  clear v e M. intros e v M.
  eapply (wp_unlink refuse Q j p base _ _ b bs); [exact M|].
  clear v e M. intros e v M. apply (Hok o). revert M. apply mem_hnd. intros d. unfold hset.
  destruct (d =? fd) eqn:E; [|done]. apply Z.eqb_eq in E as ->. done.
Qed.

(** ** The copy back *)
Lemma wp_restore_range Q j p base text hnd hs c bs t a v : part_ok t -> copy_of text hnd (t, a) c ->
  mem p base hnd None (base_pages t :: osb_pages t :: hs) (c :: bs) v -> apart (base_pages t) (osb_pages t) ->
  Forall (apart (base_pages t)) hs -> Forall (apart (osb_pages t)) hs ->
  (forall b v', restored_at text t b -> mem p base hnd None hs (b :: bs) v' -> Q j p tt v') ->
  wp refuse Q j p (restore_range (pt_base t) (pt_osb t) (pt_size t) (pt_prot t) a) v.
Proof.
  intros Ht [Ca Cc Cp Cs Ch Cb] M Hap Hap1 Hap2 Hok. cbn [fst snd] in *.
  destruct prots_differ as (P1 & P2 & P3). destruct (paged_pages _ (pk_size t Ht)) as [S1 S2].
  apply wp_seq, (wp_restore_parallel_mapping _ j p base hnd hs (c :: bs) t); [done..|].
  clear v M. intros o v M. set (d := Block o _ _ _ _) in M.
  apply wp_seq, (wp_memcpy_all _ j p base hnd None hs (c :: bs) c (fun _ => Z.lor PROT_WRITE PROT_READ) d
    (fun _ => PROT_WRITE)); [exact M|apply list_elem_of_here|rewrite Cp; apply list_elem_of_here|
    apply list_elem_of_here|done|done|apply Ht|done|apply Ht|done|done|].
  clear v M. intros v M.
  rewrite (Permutation_swap c) in M.
  eapply wp_unmap_last; [exact M|done|apply Ht|by rewrite Cc|by rewrite Cp|].
  clear v M. intros e v M. apply (Hok (set_bytes d (b_bytes c))); [by constructor|].
  revert M. apply mem_holes. set_solver.
Qed.

(** The holes and the copies of the parts that remain, and the blocks restored. *)
Lemma wp_restore_one Q j p base text hnd hs c C R t a v : part_ok t -> copy_of text hnd (t, a) c ->
  all_apart (part_pages t ++ hs) -> mem p base hnd None (part_pages t ++ hs) ((c :: C) ++ R) v ->
  (forall b v', restored_at text t b -> mem p base hnd None hs (C ++ b :: R) v' -> Q j p tt v') ->
  wp refuse Q j p (restore_range (pt_base t) (pt_osb t) (pt_size t) (pt_prot t) a) v.
Proof.
  intros Ht Hc (Ha1 & Ha2 & _) M Hok. apply Forall_cons in Ha1 as [Ha Ha1].
  apply (wp_restore_range Q j p base text hnd hs c (C ++ R) t a); [done..|].
  intros b v' Hb M'. apply (Hok b); [done|]. by rewrite <- Permutation_middle.
Qed.

Lemma all_apart_app l l' : all_apart (l ++ l') -> all_apart l'.
Proof. induction l as [|x l IH]; [done|]. intros [_ H]. by apply IH. Qed.

Definition all_pages (ts : list part) : list (Z * Z) := flat_map part_pages ts.

Lemma wp_restore_content j p base text hnd l : forall Q C R v,
  let ts := flat_map parts (s_module <$> l) in
  Forall part_ok ts -> all_apart (all_pages ts) -> Forall2 (copy_of text hnd) (flat_map copies l) C ->
  mem p base hnd None (all_pages ts) (C ++ R) v ->
  (forall R' v', Forall2 (restored_at text) ts R' -> mem p base hnd None [] (R' ++ R) v' -> Q j p tt v') ->
  wp refuse Q j p (restore_content l) v.
Proof.
  induction l as [|s l IH]; intros Q C R v ts Hok Hap HC M HQ.
  { apply Forall2_nil_inv_l in HC as ->. by apply (HQ []). }
  unfold ts in *. clear ts. cbn [restore_content]. cbn [fmap list_fmap flat_map] in *.
  unfold parts at 1 in Hok. unfold parts at 1 in Hap. unfold parts at 1 in M. unfold parts at 1 in HQ.
  unfold copies at 1 in HC. cbn [app] in *.
  apply Forall_cons in Hok as [Hm Hok]. apply Forall2_cons_inv_l in HC as (c & C1 & Hc & HC & ->).
  set (m := s_module s) in *. set (ts := flat_map parts _) in *.
  apply wp_seq, (wp_restore_one _ j p base text hnd (all_pages ((if has_gotplt m then [gotplt_part m] else []) ++ ts)) c C1 R (code_part m)); [done|done|exact Hap|exact M|].
  clear v M. intros b v Hb M. apply (all_apart_app (part_pages (code_part m))) in Hap.
  destruct (has_gotplt m); cbn [app] in *.
  - apply Forall_cons in Hok as [Hm' Hok]. apply Forall2_cons_inv_l in HC as (c' & C2 & Hc' & HC & ->).
    apply wp_seq, (wp_restore_one _ j p base text hnd (all_pages ts) c' C2 (b :: R) (gotplt_part m)); [done|done|exact Hap|exact M|].
    clear v M. intros b' v Hb' M. apply (all_apart_app (part_pages (gotplt_part m))) in Hap.
    apply (IH Q C2 (b' :: b :: R) v); [done..|]. intros R' v' HR M'. apply (HQ (b :: b' :: R')); [by do 2 (constructor; [done|])|].
    revert M'. cbn [app]. by rewrite (Permutation_swap b), <- !Permutation_middle.
  - apply (IH Q C1 (b :: R) v); [done..|]. intros R' v' HR M'. apply (HQ (b :: R')); [by constructor|].
    revert M'. cbn [app]. by rewrite <- !Permutation_middle.
Qed.

(** ** The copies *)
Lemma wp_save_range Q j p base text hnd t bs s v : part_ok t -> s ∈ bs -> mapped_at text t s ->
  mem p base hnd None [] bs v ->
  (forall a c v', copy_of text hnd (t, a) c -> mem p base hnd None [] (c :: bs) v' -> Q j p a v') ->
  wp refuse Q j p (save_range (pt_base t) (pt_size t)) v.
Proof.
  intros Ht Hs [Mc (pr & pr' & Mp & Mr) Mb] M Hok. destruct prots_differ as (P1 & P2 & P3).
  destruct (paged_pages _ (pk_size t Ht)) as [S1 S2].
  apply (wp_anon refuse Q j p base hnd bs); [exact M|apply Ht| |].
  2: { intros Hr e v1 _. cbn [prog_then]. rewrite Z.eqb_refl. exact Hr. }
  clear v M. intros a e o v Ha Ha' Ho M. cbn [prog_then].
  replace (a =? u64 (-1)) with false by (symmetry; apply Z.eqb_neq; intros ->; by vm_compute in Ha).
  apply wp_seq, (wp_memcpy_all _ j p base hnd None [] bs s pr _ (fun _ => Z.lor PROT_WRITE PROT_READ) _ _ (pt_size t) v M);
    [done|rewrite Mp; apply list_elem_of_here|apply list_elem_of_here|exact Mr|done|done|apply Ht|apply Ht|done|done|].
  intros v' M'. eapply Hok; [|exact M']. by constructor.
Qed.

Lemma wp_save_copies j p base text hnd ms : forall Q bs v,
  Forall part_ok (flat_map parts ms) -> Forall (fun t => exists s, s ∈ bs /\ mapped_at text t s) (flat_map parts ms) ->
  mem p base hnd None [] bs v ->
  (forall l C v', s_module <$> l = ms -> Forall2 (copy_of text hnd) (flat_map copies l) C ->
    mem p base hnd None [] (C ++ bs) v' -> Q j p l v') ->
  wp refuse Q j p (save_copies ms) v.
Proof.
  assert (Hmore : forall ts bs c, Forall (fun t => exists s, s ∈ bs /\ mapped_at text t s) ts ->
    Forall (fun t => exists s, s ∈ c :: bs /\ mapped_at text t s) ts).
  { intros ts bs c H. eapply Forall_impl; [exact H|]. intros t (s & Hs & Ht). exists s.
    split; [by apply list_elem_of_further|done]. }
  induction ms as [|m ms IH]; intros Q bs v Hok Hm M HQ; cbn [save_copies flat_map] in *.
  { by apply (HQ [] []). }
  unfold parts at 1 in Hok. unfold parts at 1 in Hm. cbn [app] in *.
  apply Forall_cons in Hok as [Hok1 Hok]. apply Forall_cons in Hm as [(s & Hs & Hm1) Hm].
  apply wp_seq, (wp_save_range _ j p base text hnd (code_part m) bs s); [done..|].
  clear v M. intros a c v Hc M. apply (Hmore _ _ c) in Hm.
  destruct (has_gotplt m) eqn:Hg; cbn [app] in *.
  - apply Forall_cons in Hok as [Hok2 Hok]. apply Forall_cons in Hm as [(s' & Hs' & Hm2) Hm].
    apply wp_seq, (wp_save_range _ j p base text hnd (gotplt_part m) (c :: bs) s'); [done..|].
    clear v M. intros a' c' v Hc' M. apply (Hmore _ _ c') in Hm.
    apply wp_seq, (IH _ (c' :: c :: bs) v); [done..|]. clear v M. intros l C v <- HC M.
    apply (HQ (mkSaved m a a' :: l) (c :: c' :: C)); [done| |].
    + cbn [flat_map]. unfold copies at 1. cbn [s_module s_code s_gotpltcontent]. rewrite Hg.
      by do 2 (constructor; [done|]).
    + revert M. cbn [app]. by rewrite (Permutation_swap c), <- !Permutation_middle.
  - apply (wp_seq refuse _ Q (Ret 0)). apply wp_seq, (IH _ (c :: bs) v); [done..|]. clear v M. intros l C v <- HC M.
    apply (HQ (mkSaved m a 0 :: l) (c :: C)); [done| |].
    + cbn [flat_map]. unfold copies at 1. cbn [s_module s_code s_gotpltcontent]. rewrite Hg. by constructor.
    + revert M. cbn [app]. by rewrite <- Permutation_middle.
Qed.

(** ** The mappings removed *)
Lemma wp_unmap_part {A} Q j p base text hnd hs t b bs v (g : prog A) : part_ok t -> mapped_at text t b ->
  apart (base_pages t) (osb_pages t) -> mem p base hnd None hs (b :: bs) v ->
  (forall v', mem p base hnd None (part_pages t ++ hs) bs v' -> wp refuse Q j p g v') ->
  wp refuse Q j p (Sys (Munmap (pt_base t) (pt_size t)) (fun _ => Sys (Munmap (pt_osb t) (pt_size t)) (fun _ => g))) v.
Proof.
  intros Ht [Mc (pr & pr' & Mp & Mr) Mb] Hap M Hok. destruct (paged_pages _ (pk_size t Ht)) as [S1 S2].
  apply (wp_unmap_more refuse Q j p base hnd hs b bs _ _ pr [((osb_pages t).1, pr')]); [done|apply Ht|apply Ht|done|
    done|done| |].
  { apply Forall_singleton. cbn. intros E. destruct Hap as [H|H]; cbn in H; lia. }
  clear v M. intros _ v M. eapply wp_unmap_last; [exact M|apply Ht|apply Ht|done|done|].
  clear v M. intros _ v M. apply Hok. revert M. apply mem_holes. cbn. set_solver.
Qed.

Lemma wp_unmap_modules j p base text hnd ms : forall Q hs M C v,
  Forall part_ok (flat_map parts ms) -> Forall (fun t => apart (base_pages t) (osb_pages t)) (flat_map parts ms) ->
  Forall2 (mapped_at text) (flat_map parts ms) M -> mem p base hnd None hs (M ++ C) v ->
  (forall v', mem p base hnd None (all_pages (flat_map parts ms) ++ hs) C v' -> Q j p tt v') ->
  wp refuse Q j p (unmap_modules ms) v.
Proof.
  induction ms as [|m ms IH]; intros Q hs M C v Hok Hap HM HC HQ; cbn [unmap_modules flat_map] in *.
  { apply Forall2_nil_inv_l in HM as ->. by apply HQ. }
  unfold parts at 1 in Hok. unfold parts at 1 in Hap. unfold parts at 1 in HM. unfold parts at 1 in HQ. cbn [app] in *.
  apply Forall_cons in Hok as [Hok1 Hok]. apply Forall_cons in Hap as [Hap1 Hap].
  apply Forall2_cons_inv_l in HM as (b & M1 & Hb & HM & ->).
  apply (wp_unmap_part Q j p base text hnd hs (code_part m) b (M1 ++ C)); [done..|].
  clear v HC. intros v HC. destruct (has_gotplt m) eqn:Hg; cbn [app] in *.
  - apply Forall_cons in Hok as [Hok2 Hok]. apply Forall_cons in Hap as [Hap2 Hap].
    apply Forall2_cons_inv_l in HM as (b' & M2 & Hb' & HM & ->).
    apply (wp_unmap_part Q j p base text hnd _ (gotplt_part m) b' (M2 ++ C) v _ Hok2 Hb' Hap2 HC).
    clear v HC. intros v HC. eapply IH; [done|done|exact HM|exact HC|]. intros v' H. apply HQ. revert H. apply mem_holes.
    cbn. set_solver.
  - eapply IH; [done|done|exact HM|exact HC|]. intros v' H. apply HQ. revert H. apply mem_holes. cbn. set_solver.
Qed.
End operations.

(** ** The system call itself *)
Definition child_block (dup : object -> object) (b : block) : block :=
  Block (dup (b_obj b)) (b_count b) (b_shared b) (b_bytes b) (b_places b).

Definition child_page (f : object -> object) (x : option (object * Z * Z)) : option (object * Z * Z) :=
  (fun '(o, i, prot) => (f o, i, prot)) <$> x.

Section system_call.
Context (v v' : view) (dup : object -> object).
Context (base : Z -> option (object * Z * Z)) (hnd : Z -> option object) (hs : list (Z * Z)) (C : list block).
Context (M : mem false base hnd None hs C v) (F : forked v v' dup).
Context (private : forall c, c ∈ C -> b_shared c = false /\ forall fd, hnd fd <> Some (b_obj c)).

Definition child_of (o : object) : object := if shared v o then o else dup o.

Lemma fork_uses o : uses v' false o <-> uses v false o.
Proof using F.
  split.
  - intros [(n & i & prot & U)|(fd & U)]; [left; exists n, i, prot; by rewrite <- (fork_parent _ _ _ F)|].
    right. exists fd. by rewrite <- (proj1 (fork_handle _ _ _ F fd)).
  - intros [(n & i & prot & U)|(fd & U)]; [left; exists n, i, prot; by rewrite (fork_parent _ _ _ F)|].
    right. exists fd. by rewrite (proj1 (fork_handle _ _ _ F fd)).
Qed.

Lemma fork_child_page n : page v' true n = child_page child_of (page v false n).
Proof using F. by rewrite (fork_child _ _ _ F). Qed.

Lemma fork_child_uses o : uses v' true o ->
  (exists o', uses v false o' /\ shared v o' = false /\ o = dup o') \/ (uses v false o /\ shared v o = true) \/
  exists fd, hnd fd = Some o.
Proof using F M.
  intros [(n & i & prot & U)|(fd & U)].
  - rewrite fork_child_page in U. destruct (page v false n) as [[[o' i'] prot']|] eqn:E; [|done].
    cbn in U. injection U as U _ _. unfold child_of in U. destruct (shared v o') eqn:Es.
    + right. left. subst. split; [left; by exists n, i', prot'|done].
    + left. exists o'. split; [left; by exists n, i', prot'|done].
  - right. right. exists fd. rewrite (proj2 (fork_handle _ _ _ F fd)) in U. destruct M as [M' _].
    by rewrite <- (st_handle _ _ _ _ _ _ M').
Qed.

Lemma block_used c : c ∈ C -> uses v false (b_obj c) /\ shared v (b_obj c) = false.
Proof using M private.
  intros Hc. destruct M as [M' _]. pose proof (st_blocks _ _ _ _ _ _ M' c Hc) as B. split; [apply B|].
  rewrite (bk_shared _ _ _ B). by apply private.
Qed.

Lemma fork_parent_mem : mem false base hnd None hs C v'.
Proof using All.
  pose proof M as [[H1 H2 H3 H4 H5 H6] V]. split; [constructor|].
  - intros c Hc. destruct (H1 c Hc) as [B1 [B2 B2'] B3 B4 B5]. destruct (block_used c Hc) as [Hu Hs].
    destruct (fork_kept _ _ _ F _ Hu) as (K1 & K2 & K3). constructor.
    + intros f pr i Hf Hi. rewrite (fork_parent _ _ _ F). by apply B1.
    + split; [by apply fork_uses|]. intros U. apply fork_child_uses in U as [(o' & U & _ & E)|[[_ E]|(fd & E)]].
      * apply (fork_fresh _ _ _ F o' U) with false. by rewrite <- E.
      * congruence.
      * by apply (private c Hc) in E.
    + by rewrite K2.
    + by rewrite K3.
    + intros i Hi. rewrite K1. by apply B5.
  - intros n. rewrite (fork_parent _ _ _ F). apply H2.
  - exact H3.
  - intros fd. rewrite (proj1 (fork_handle _ _ _ F fd)). apply H4.
  - intros o E U. rewrite (fork_named _ _ _ F) in E. apply fork_uses in U. by apply (H5 o).
  - exact H6.
  - intros f c n Hf Hn. rewrite (fork_parent _ _ _ F). by apply (V f c).
Qed.

Lemma fork_child_mem : mem true (fun n => child_page child_of (base n)) hnd None hs (child_block dup <$> C) v'.
Proof using All.
  pose proof M as [[H1 H2 H3 H4 H5 H6] V]. split; [constructor|].
  - intros b Hb. apply list_elem_of_fmap in Hb as (c & -> & Hc). destruct (H1 c Hc) as [B1 B2 B3 B4 B5].
    destruct (block_used c Hc) as [Hu Hs]. destruct (fork_copied _ _ _ F _ Hu) as (K1 & K2 & K3).
    assert (Hp : forall n i prot, page v false n = Some (b_obj c, i, prot) ->
      page v' true n = Some (dup (b_obj c), i, prot)).
    { intros n i prot E. rewrite fork_child_page, E. cbn. unfold child_of. by rewrite Hs. }
    constructor; cbn [child_block b_obj b_count b_shared b_bytes b_places].
    + intros f pr i Hf Hi. apply Hp. by apply B1.
    + split.
      * destruct Hu as [(n & i & prot & U)|(fd & U)]; [left; exists n, i, prot; by apply Hp|].
        rewrite H4 in U. by apply (private c Hc) in U.
      * intros U. apply fork_uses in U. by apply (fork_fresh _ _ _ F _ Hu) in U.
    + by rewrite K2.
    + by rewrite K3.
    + intros i Hi. rewrite K1. by apply B5.
  - intros n. rewrite fork_child_page. destruct (H2 n) as [->|(c & Hc & Hn)]; [by left|right].
    exists (child_block dup c). split; [by apply list_elem_of_fmap_2|exact Hn].
  - intros b n Hb Hn. apply list_elem_of_fmap in Hb as (c & -> & Hc). by rewrite (H3 c n Hc Hn).
  - intros fd. rewrite (proj2 (fork_handle _ _ _ F fd)). apply H4.
  - intros o E U. rewrite (fork_named _ _ _ F) in E.
    apply fork_child_uses in U as [(o' & U & _ & Eo)|[[U _]|(fd & Ef)]].
    + apply (fork_fresh _ _ _ F o' U). by rewrite <- Eo.
    + by apply (H5 o).
    + apply (H5 o E). right. exists fd. by rewrite H4.
  - rewrite <- list_fmap_compose. apply NoDup_fmap_2_strong; [|by apply (NoDup_fmap_1 b_obj)].
    intros c c' Hc Hc' E. destruct (block_used c Hc) as [Hu _]. destruct (block_used c' Hc') as [Hu' _].
    assert (Eo : b_obj c = b_obj c') by (by apply (fork_inj _ _ _ F)).
    apply list_elem_of_lookup in Hc as [i Hi]. apply list_elem_of_lookup in Hc' as [i' Hi'].
    assert (i = i') as ->; [|congruence]. apply (NoDup_lookup _ _ _ (b_obj c) H6); rewrite list_lookup_fmap;
      [by rewrite Hi|rewrite Hi'; cbn; congruence].
  - intros f c n Hf Hn. rewrite fork_child_page. by rewrite (V f c).
Qed.

Lemma fork_child_closed c fd : c ∈ C -> hnd fd <> Some (dup (b_obj c)).
Proof using All.
  intros Hc E. destruct (block_used c Hc) as [Hu _]. apply (fork_fresh _ _ _ F _ Hu) with false.
  right. exists fd. destruct M as [M' _]. by rewrite (st_handle _ _ _ _ _ _ M').
Qed.

Lemma fork_child_copies text xs : Forall2 (copy_of text hnd) xs C -> Forall2 (copy_of text hnd) xs (child_block dup <$> C).
Proof using All.
  intros H. assert (Hcl : forall c fd, c ∈ C -> hnd fd <> Some (dup (b_obj c))) by apply fork_child_closed.
  clear -H Hcl. induction H as [|x c xs C Hc H IH]; [constructor|]. cbn. constructor.
  - destruct Hc as [C1 C2 C3 C4 C5 C6]. constructor; try done. intros fd. apply Hcl, list_elem_of_here.
  - apply IH. intros c' fd Hc'. apply Hcl. by apply list_elem_of_further.
Qed.
End system_call.

(** ** A bound on the steps *)
Section bounds.
Local Notation any := (fun _ => True).

Lemma within_call {A} (P : A -> Prop) n c (f : Z * Z -> prog A) : (forall r, within true P n (f r)) ->
  within true P (S n) (Sys c f).
Proof. intros H. exists n. by split; [lia|]. Qed.

Lemma within_memcpy n : forall d s, within true any (2 * n) (memcpy n d s).
Proof.
  induction n as [|n IH]; intros d s; cbn [memcpy]; [done|]. exists (S (2 * n)). split; [lia|]. intros b.
  exists (2 * n)%nat. split; [lia|apply IH].
Qed.

Lemma within_restore_parallel_mapping b o n pr : within true any 7 (restore_parallel_mapping b o n pr).
Proof.
  exists 5%nat. split; [lia|]. intros [fd e]. destruct (0 <=? fd); [|by destruct (_ && _)]. cbn.
  exists 4%nat. split; [lia|]. intros [r e1]. destruct (negb (r =? 0)); [done|]. destruct (negb _); [done|].
  exists 3%nat. split; [lia|]. intros [r2 e2]. destruct (negb _); [done|].
  exists 2%nat. split; [lia|]. intros [r3 e3]. destruct (negb _); [done|].
  exists 1%nat. split; [lia|]. intros r4. exists 0%nat. by split; [lia|].
Qed.

Lemma within_restore_range b o n pr a : within true any (8 + 2 * Z.to_nat n) (restore_range b o n pr a).
Proof.
  replace (8 + 2 * Z.to_nat n)%nat with (7 + (2 * Z.to_nat n + 1))%nat by lia.
  apply (within_bind _ any); [apply within_restore_parallel_mapping|]. intros _ _.
  apply (within_bind _ any); [apply within_memcpy|]. intros _ _. by apply within_call.
Qed.

Lemma within_save_range a n : within true any (2 + 2 * Z.to_nat n) (save_range a n).
Proof.
  exists (1 + 2 * Z.to_nat n)%nat. split; [lia|]. intros [code e]. unfold mbind, prog_bind. cbn [prog_then].
  destruct (code =? u64 (-1)); [done|].
  apply (within_mono _ _ _ (2 * Z.to_nat n + 0)); [|lia]. by apply (within_bind _ any (any) (fun _ => Ret code)); [apply within_memcpy|].
Qed.

Lemma within_save_copies ms : exists n, within true (fun l => s_module <$> l = ms) n (save_copies ms).
Proof.
  induction ms as [|m ms [n IH]]; [by exists 0%nat|].
  exists ((2 + 2 * Z.to_nat (sz m)) + ((2 + 2 * Z.to_nat (gotpltsz m)) + (n + 0)))%nat. cbn [save_copies].
  apply (within_bind _ any); [apply within_save_range|]. intros code _.
  apply (within_bind _ any).
  { destruct (has_gotplt m); [apply within_save_range|]. done. }
  intros content _. apply (within_bind _ (fun l => s_module <$> l = ms)); [exact IH|]. intros l <-. done.
Qed.

Lemma within_unmap_modules ms : within true any (4 * length ms) (unmap_modules ms).
Proof.
  induction ms as [|m ms IH]; [done|]. cbn [length]. replace (4 * S (length ms))%nat with (S (S (S (S (4 * length ms))))) by lia.
  apply within_call. intros _. apply within_call. intros _. destruct (has_gotplt m).
  - apply within_call. intros _. apply within_call. intros _. exact IH.
  - apply (within_mono _ _ _ (4 * length ms)); [exact IH|lia].
Qed.

Lemma within_restore_content ms : exists n, forall l, s_module <$> l = ms -> within true any n (restore_content l).
Proof.
  induction ms as [|m ms [n IH]].
  { exists 0%nat. intros l Hl. by destruct l. }
  exists ((8 + 2 * Z.to_nat (sz m)) + ((8 + 2 * Z.to_nat (gotpltsz m)) + n))%nat. intros [|s l]; [done|].
  intros [= <- Hl]. cbn [restore_content].
  apply (within_bind _ any); [apply within_restore_range|]. intros _ _.
  apply (within_bind _ any); [|intros _ _; by apply IH].
  destruct (has_gotplt _); [apply within_restore_range|]. done.
Qed.

Lemma within_rock_fork ms : exists n, within false any n (rock_fork ms).
Proof.
  destruct (within_save_copies ms) as [n1 H1]. destruct (within_restore_content ms) as [n2 H2].
  exists ((n1 + (4 * length ms + 0)) + S (n2 + 0 + (n2 + 0)))%nat. unfold rock_fork.
  apply (within_bind _ (fun l => s_module <$> l = ms)).
  - apply (within_bind _ (fun l => s_module <$> l = ms)); [exact H1|]. intros l Hl.
    by apply (within_bind _ any); [apply within_unmap_modules|].
  - intros l Hl. split; [done|]. exists (n2 + 0)%nat. split; [lia|]. intros rv.
    by apply (within_bind true any any (fun _ => Ret rv)); [apply H2|].
Qed.
End bounds.
