(* ===== verification/ForkTheorems.v ===== *)
(** * [fork]: what the two processes end with

    From modules whose pages are mapped twice, under every schedule and every
    answer of the kernel: neither process faults, and one that returns has its
    modules back in files of its own, with the bytes of before the call; and
    when the kernel refuses nothing both return, however unfair the race for
    the file name. *)

From S2P Require Import Prelude Dict Graph Module Pager MemCalls CodeHeap.
From S2P Require Import Fork ForkKernel ForkLogic ForkState ForkRules ForkFacts.

(** ** Before and after *)
Definition all_parts (ms : list code_module) : list part := flat_map parts ms.

(** A part as [create_parallel_mapping] makes it, its pages readable. *)
Definition parallel (v : view) (o : object) (t : part) : Prop :=
  fsize v o = pt_size t /\
  forall i, 0 <= i < pt_size t / PAGE_SIZE ->
    (exists prot, page v false ((base_pages t).1 + i) = Some (o, i, prot) /\ prot <> PROT_NONE) /\
    exists prot, page v false ((osb_pages t).1 + i) = Some (o, i, prot).

Record ready (v : view) (ms : list code_module) (objs : list object) : Prop := {
  rd_alone : no_child v;
  rd_named : named v = None;
  rd_parts : Forall part_ok (all_parts ms);
  rd_apart : all_apart (all_pages (all_parts ms));
  rd_objects : NoDup objs;
  rd_parallel : Forall2 (parallel v) objs (all_parts ms);
}.

(** A part is mapped again, twice, in a file that is the process's alone and
    that has the bytes of before. *)
Definition restored (v0 v : view) (p : bool) (t : part) : Prop :=
  exists o, ~ uses v (negb p) o /\
    forall i, 0 <= i < pt_size t ->
      locate v p (pt_base t + i) = Some (o, i, pt_prot t) /\
      locate v p (pt_osb t + i) = Some (o, i, PROT_WRITE) /\
      load v0 false (pt_base t + i) = Some (cell v o i).

Definition outside (ms : list code_module) (n : Z) : Prop :=
  forall h, h ∈ all_pages (all_parts ms) -> in_range h.1 h.2 n = false.

Record resumed (ms : list code_module) (v0 v : view) (p : bool) : Prop := {
  re_parts : Forall (restored v0 v p) (all_parts ms);
  re_elsewhere : exists f, (p = false -> forall o, f o = o) /\
    forall n, outside ms n -> page v p n = child_page f (page v0 false n);
  re_handles fd : handle v p fd = handle v0 false fd;
  re_name : not_holding v p;
}.

(** The process [p] is running, or has left in one of the ways it may;
    [j] says that there is a child. *)
Definition outcome_ok (refuse : Prop) (ms : list code_module) (v0 v : view) (j p : bool) (pr : prog Z) : Prop :=
  match pr with
  | Crash => False
  | Quit => refuse
  | Ret rv => (if p then rv = 0 else if j then 0 < rv else rv < 0 /\ refuse) /\ resumed ms v0 v p
  | _ => True
  end.

(** ** The blocks at the start *)
Section start.
Context (v : view) (ms : list code_module) (objs : list object) (R : ready v ms objs).

Definition text (a : Z) : Z := default 0 (load v false a).

Definition prot_at (n : Z) : Z := match page v false n with Some (_, _, prot) => prot | None => 0 end.

Definition start_block (o : object) (t : part) : block :=
  Block o (pt_size t / PAGE_SIZE) (shared v o) (fun i => text (pt_base t + i))
    [((base_pages t).1, fun i => prot_at ((base_pages t).1 + i));
     ((osb_pages t).1, fun i => prot_at ((osb_pages t).1 + i))].

Definition start_base (n : Z) : option (object * Z * Z) :=
  if existsb (fun h => in_range h.1 h.2 n) (all_pages (all_parts ms)) then None else page v false n.

Lemma start_block_place o t n : at_place (start_block o t) n <-> exists h, h ∈ part_pages t /\ in_range h.1 h.2 n = true.
Proof.
  unfold at_place, start_block, part_pages. cbn [b_places b_count]. split.
  - intros (f & pr & Hf & Hn). apply elem_of_cons in Hf as [[= -> _]|Hf].
    + exists (base_pages t). split; [apply list_elem_of_here|done].
    + apply list_elem_of_singleton in Hf as [= -> _]. exists (osb_pages t).
      split; [apply list_elem_of_further, list_elem_of_here|done].
  - intros (h & Hh & Hn). apply elem_of_cons in Hh as [->|Hh].
    + eexists _, _. split; [apply list_elem_of_here|done].
    + apply list_elem_of_singleton in Hh as ->. eexists _, _.
      split; [apply list_elem_of_further, list_elem_of_here|done].
Qed.

Lemma start_block_ok o t : part_ok t -> parallel v o t -> block_ok false v (start_block o t).
Proof using R.
  intros Ht [Hs Hp]. destruct (paged_pages _ (pk_size t Ht)) as [S1 S2].
  assert (Hpage : forall h i, h ∈ part_pages t -> 0 <= i < pt_size t / PAGE_SIZE ->
    page v false (h.1 + i) = Some (o, i, prot_at (h.1 + i))).
  { intros h i Hh Hi. unfold prot_at. destruct (Hp i Hi) as [(prot & E & _) (prot' & E')].
    apply elem_of_cons in Hh as [->|Hh]; [by rewrite E|]. apply list_elem_of_singleton in Hh as ->. by rewrite E'. }
  destruct (rd_alone _ _ _ R) as [A1 A2].
  assert (Hno : forall o', ~ uses v true o').
  { intros o' [(n & i & prot & U)|(fd & U)]; [by rewrite A1 in U|by rewrite A2 in U]. }
  constructor; cbn [start_block b_obj b_count b_shared b_bytes b_places].
  - intros f pr i Hf Hi. apply elem_of_cons in Hf as [[= -> ->]|Hf].
    + apply (Hpage (base_pages t)); [apply list_elem_of_here|done].
    + apply list_elem_of_singleton in Hf as [= -> ->]. apply (Hpage (osb_pages t)); [|done].
      apply list_elem_of_further, list_elem_of_here.
  - split; [|apply Hno]. left. eexists _, _, _. apply (Hpage (base_pages t) 0); [apply list_elem_of_here|lia].
  - by rewrite Hs.
  - done.
  - intros i Hi. unfold text, load, locate. pose proof (pk_base t Ht) as Hb.
    replace ((pt_base t + i) / PAGE_SIZE) with (pt_base t / PAGE_SIZE + i / PAGE_SIZE)
      by (unfold PAGE_SIZE in *; div_lia).
    destruct (Hp (i / PAGE_SIZE)) as [(prot & E & Hprot) _]; [unfold PAGE_SIZE in *; div_lia|].
    cbn in E. rewrite E.
    replace (i / PAGE_SIZE * PAGE_SIZE + (pt_base t + i) mod PAGE_SIZE) with i by (unfold PAGE_SIZE in *; div_lia).
    rewrite Hs, (proj2 (Z.ltb_lt _ _)) by lia. by rewrite (proj2 (Z.eqb_neq _ _) Hprot).
Qed.

Lemma start_mapped o t : part_ok t -> parallel v o t -> mapped_at text t (start_block o t).
Proof.
  intros Ht [Hs Hp]. constructor; cbn [start_block b_count b_bytes b_places]; [done| |done].
  eexists _, _. split; [done|]. intros i Hi. unfold prot_at. destruct (Hp i Hi) as [(prot & E & Hprot) _].
  by rewrite E.
Qed.

Definition start_blocks : list block := zip_with start_block objs (all_parts ms).

Lemma start_blocks_elem b : b ∈ start_blocks ->
  exists o t, b = start_block o t /\ t ∈ all_parts ms /\ part_ok t /\ parallel v o t.
Proof using R.
  intros Hb. apply list_elem_of_lookup in Hb as [i Hi]. apply lookup_zip_with_Some in Hi as (o & t & -> & Ho & Ht).
  exists o, t. split; [done|]. split; [by apply list_elem_of_lookup_2 in Ht|]. split.
  - pose proof (rd_parts _ _ _ R) as H. rewrite Forall_lookup in H. by apply (H i).
  - by apply (Forall2_lookup_lr _ _ _ i _ _ (rd_parallel _ _ _ R)).
Qed.

Lemma all_pages_elem h ts : h ∈ all_pages ts <-> exists t, t ∈ ts /\ h ∈ part_pages t.
Proof.
  unfold all_pages. rewrite list_elem_of_In, in_flat_map. split; intros (t & Ht & Hh); exists t;
    by rewrite ?list_elem_of_In in *; rewrite <- ?list_elem_of_In in *.
Qed.

Lemma start_place n : (exists b, b ∈ start_blocks /\ at_place b n) <->
  existsb (fun h => in_range h.1 h.2 n) (all_pages (all_parts ms)) = true.
Proof using R.
  rewrite existsb_exists. split.
  - intros (b & Hb & Hn). destruct (start_blocks_elem b Hb) as (o & t & -> & Ht & _).
    apply start_block_place in Hn as (h & Hh & Hn). exists h. split; [|done].
    apply list_elem_of_In, all_pages_elem. by exists t.
  - intros (h & Hh & Hn). apply list_elem_of_In, all_pages_elem in Hh as (t & Ht & Hh).
    apply list_elem_of_lookup in Ht as [i Hi].
    destruct (Forall2_lookup_r _ _ _ i _ (rd_parallel _ _ _ R) Hi) as (o & Ho & _).
    exists (start_block o t). split; [|apply start_block_place; by exists h].
    apply (list_elem_of_lookup_2 _ i). unfold start_blocks. apply lookup_zip_with_Some. by exists o, t.
Qed.

Lemma start_mem : mem false start_base (handle v false) None [] start_blocks v.
Proof using R.
  split; [|intros f c n H; by apply not_elem_of_nil in H]. constructor.
  - intros b Hb. destruct (start_blocks_elem b Hb) as (o & t & -> & _ & Ht & Hp). by apply start_block_ok.
  - intros n. destruct (existsb (fun h => in_range h.1 h.2 n) (all_pages (all_parts ms))) eqn:E.
    + right. by apply start_place.
    + left. unfold start_base. by rewrite E.
  - intros b n Hb Hn. unfold start_base.
    by rewrite (proj1 (start_place n) (ex_intro _ b (conj Hb Hn))).
  - done.
  - intros o E. by rewrite (rd_named _ _ _ R) in E.
  - replace (b_obj <$> start_blocks) with objs; [apply R|]. unfold start_blocks.
    rewrite fmap_zip_with_l; [done|done|]. rewrite (Forall2_length _ _ _ (rd_parallel _ _ _ R)). lia.
Qed.
End start.

(** ** The end of one process *)
Section finish.
Context (v0 : view) (ms : list code_module) (objs : list object) (R : ready v0 ms objs).

Lemma start_load t i : t ∈ all_parts ms -> 0 <= i < pt_size t ->
  load v0 false (pt_base t + i) = Some (text v0 (pt_base t + i)).
Proof using R.
  intros Ht Hi. apply list_elem_of_lookup in Ht as [k Hk].
  destruct (Forall2_lookup_r _ _ _ k _ (rd_parallel _ _ _ R) Hk) as (o & Ho & Hp).
  assert (Hok : part_ok t) by (pose proof (rd_parts _ _ _ R) as H; rewrite Forall_lookup in H; by apply (H k)).
  pose proof (start_block_ok v0 ms objs R o t Hok Hp) as B. destruct (paged_pages _ (pk_size t Hok)) as [S1 S2].
  pose proof (block_locate false v0 _ (base_pages t).1 _ i B (list_elem_of_here _ _)) as L.
  cbn [start_block b_obj b_count] in L. rewrite <- S2 in L. specialize (L Hi).
  unfold base_pages in L. cbn [fst] in L. rewrite (page_round _ (pk_base t Hok)) in L.
  unfold text, load. rewrite L. destruct (proj2 Hp (i / PAGE_SIZE)) as [(prot & E & Hprot) _];
    [unfold PAGE_SIZE in *; div_lia|].
  unfold prot_at. cbn [base_pages fst] in E. rewrite E. by rewrite (proj2 (Z.eqb_neq _ _) Hprot).
Qed.

Lemma finished_resumed p base f bs v : Forall2 (restored_at (text v0)) (all_parts ms) bs ->
  mem p base (handle v0 false) None [] bs v -> (p = false -> forall o, f o = o) ->
  (forall n, base n = child_page f (start_base v0 ms n)) -> resumed ms v0 v p.
Proof using R.
  intros HR [M _] Hf Hbase. constructor.
  - apply Forall_lookup. intros k t Hk. destruct (Forall2_lookup_l _ _ _ k _ HR Hk) as (b & Hb & [Rc Rp Rb]).
    assert (Hok : part_ok t) by (pose proof (rd_parts _ _ _ R) as H; rewrite Forall_lookup in H; by apply (H k)).
    destruct (paged_pages _ (pk_size t Hok)) as [S1 S2].
    pose proof (st_blocks _ _ _ _ _ _ M b (list_elem_of_lookup_2 _ _ _ Hb)) as B. exists (b_obj b).
    split; [apply B|]. intros i Hi. assert (Hi' : 0 <= i < b_count b * PAGE_SIZE) by (rewrite Rc, <- S2; done).
    split; [|split].
    + rewrite <- (page_round (pt_base t)) at 1 by apply Hok.
      apply (block_locate p v b (pt_base t / PAGE_SIZE) (fun _ => pt_prot t) i); [done| |done].
      rewrite Rp. apply list_elem_of_further, list_elem_of_here.
    + rewrite <- (page_round (pt_osb t)) at 1 by apply Hok.
      apply (block_locate p v b (pt_osb t / PAGE_SIZE) (fun _ => PROT_WRITE) i); [done| |done].
      rewrite Rp. apply list_elem_of_here.
    + rewrite (start_load t) by (done || by apply list_elem_of_lookup_2 in Hk).
      by rewrite (bk_cell _ _ _ B), Rb.
  - exists f. split; [done|]. intros n Hn. destruct (st_rest _ _ _ _ _ _ M n) as [->|(b & Hb & g & pr & Hg & Hr)].
    + rewrite Hbase. unfold start_base. destruct (existsb _ _) eqn:E; [|done]. exfalso.
      apply existsb_exists in E as (h & Hh & E). apply list_elem_of_In, Hn in Hh. congruence.
    + exfalso. apply list_elem_of_lookup in Hb as [k Hk].
      destruct (Forall2_lookup_r _ _ _ k _ HR Hk) as (t & Ht & [Rc Rp _]). rewrite Rc in Hr.
      assert (Hh : forall h, h ∈ part_pages t -> in_range h.1 h.2 n = false).
      { intros h Hh. apply Hn, all_pages_elem. exists t. split; [by apply list_elem_of_lookup_2 in Ht|done]. }
      rewrite Rp in Hg. apply elem_of_cons in Hg as [[= -> _]|Hg].
      * specialize (Hh (osb_pages t) (list_elem_of_further _ _ _ (list_elem_of_here _ _))). cbn in Hh, Hr. congruence.
      * apply list_elem_of_singleton in Hg as [= -> _].
        specialize (Hh (base_pages t) (list_elem_of_here _ _)). cbn in Hh, Hr. congruence.
  - apply M.
  - apply M.
Qed.

Definition ends_with (refuse : Prop) (j p : bool) (rv : Z) (v : view) : Prop :=
  (if p then j = true /\ rv = 0 else if j then 0 < rv else rv < 0 /\ refuse) /\ resumed ms v0 v p.

Lemma wp_restore refuse j p base f (l : list saved) C rv v : s_module <$> l = ms ->
  Forall2 (copy_of (text v0) (handle v0 false)) (flat_map copies l) C ->
  mem p base (handle v0 false) None (all_pages (all_parts ms)) C v -> (p = false -> forall o, f o = o) ->
  (forall n, base n = child_page f (start_base v0 ms n)) ->
  (if p then j = true /\ rv = 0 else if j then 0 < rv else rv < 0 /\ refuse) ->
  wp refuse (ends_with refuse) j p (restore_content l ≫= fun _ => Ret rv) v.
Proof using R.
  intros Hl HC M Hf Hbase Hrv. apply wp_seq.
  pose proof (wp_restore_content refuse j p base (text v0) (handle v0 false) l) as W. cbv zeta in W. rewrite Hl in W.
  apply (W _ C []); [apply R|apply R|done|by rewrite app_nil_r|].
  intros bs v' HR M'. rewrite app_nil_r in M'. split; [done|]. by apply (finished_resumed p base f bs).
Qed.

Definition saved_with (j p : bool) (l : list saved) (v : view) : Prop :=
  j = false /\ p = false /\ s_module <$> l = ms /\
  exists C, Forall2 (copy_of (text v0) (handle v0 false)) (flat_map copies l) C /\
    mem false (start_base v0 ms) (handle v0 false) None (all_pages (all_parts ms)) C v.

Lemma apart_pairs ts : all_apart (all_pages ts) -> Forall (fun t => apart (base_pages t) (osb_pages t)) ts.
Proof.
  induction ts as [|t ts IH]; [done|]. intros (H1 & _ & H3). apply Forall_cons in H1 as [H1 _].
  constructor; [done|]. by apply IH.
Qed.

Lemma wp_save_content refuse : wp refuse saved_with false false (save_content ms) v0.
Proof using R.
  unfold save_content. apply wp_seq.
  apply (wp_save_copies refuse false false (start_base v0 ms) (text v0) (handle v0 false) ms _
    (start_blocks v0 ms objs)); [apply R| |by apply start_mem|].
  { apply Forall_lookup. intros k t Hk. destruct (Forall2_lookup_r _ _ _ k _ (rd_parallel _ _ _ R) Hk) as (o & Ho & Hp).
    exists (start_block v0 o t). split.
    - apply (list_elem_of_lookup_2 _ k), lookup_zip_with_Some. by exists o, t.
    - apply start_mapped; [|done]. pose proof (rd_parts _ _ _ R) as H. rewrite Forall_lookup in H. by apply (H k). }
  intros l C v Hl HC M. rewrite (Permutation_app_comm C) in M.
  apply wp_seq, (wp_unmap_modules refuse false false (start_base v0 ms) (text v0) (handle v0 false) ms _ []
    (start_blocks v0 ms objs) C); [apply R|apply apart_pairs, R| |done|].
  - apply Forall2_same_length_lookup. split.
    + unfold start_blocks. rewrite length_zip_with, (Forall2_length _ _ _ (rd_parallel _ _ _ R)). unfold all_parts. lia.
    + intros k t b Hk Hb. apply lookup_zip_with_Some in Hb as (o & t' & -> & Ho & Ht').
      assert (t' = t) as -> by (unfold all_parts in Ht'; congruence).
      apply start_mapped; [pose proof (rd_parts _ _ _ R) as H; rewrite Forall_lookup in H; by apply (H k)|].
      by apply (Forall2_lookup_lr _ _ _ k _ _ (rd_parallel _ _ _ R)).
  - intros v' M'. rewrite app_nil_r in M'. split; [done|]. split; [done|]. split; [done|]. by exists C.
Qed.

Lemma wp_rock_fork refuse : wp refuse (ends_with refuse) false false (rock_fork ms) v0.
Proof using R.
  unfold rock_fork. eapply wp_bind; [|apply wp_alone; [by intros _; split; [|apply R]|apply wp_save_content]].
  cbn beta. intros j p l v [(-> & -> & Hl & C & HC & M) Hn]. specialize (Hn eq_refl).
  assert (Hpriv : forall c, c ∈ C -> b_shared c = false /\ forall fd, handle v0 false fd <> Some (b_obj c)).
  { intros c Hc. apply list_elem_of_lookup in Hc as [k Hk].
    destruct (Forall2_lookup_r _ _ _ k _ HC Hk) as (x & _ & Hx). split; [apply Hx|apply Hx]. }
  split; [done|]. split; [done|]. split; [done|]. split.
  - intros Hr rv Hrv. apply (wp_restore refuse false false (start_base v0 ms) (fun o => o) l C); try done.
    intros n. by destruct (start_base v0 ms n) as [[[o i] prot]|].
  - intros rv v' dup Hrv F. split; intros v'' E.
    + apply (wp_restore refuse true false (start_base v0 ms) (fun o => o) l C); try done.
      * apply (mem_env true _ _ _ _ _ _ _ _ E). by apply (fork_parent_mem v v' dup).
      * intros n. by destruct (start_base v0 ms n) as [[[o i] prot]|].
    + apply (wp_restore refuse true true (fun n => child_page (child_of v dup) (start_base v0 ms n)) (child_of v dup) l
        (child_block dup <$> C)); try done.
      * by apply (fork_child_copies v v' dup (start_base v0 ms) _ (all_pages (all_parts ms))).
      * apply (mem_env true _ _ _ _ _ _ _ _ E). by apply fork_child_mem.
Qed.
End finish.

(** ** The theorems *)
Section theorems.
Context `{K : Kernel} {refuse : Prop} {laws : KernelLaws refuse}.

Lemma start_sound k ms objs : kok k -> ready (view_of k) ms objs ->
  sound (ends_with (view_of k) ms refuse) (start_fork k ms).
Proof. intros Hk R. split; [done|]. split; [apply R|]. by apply (wp_rock_fork _ ms objs R). Qed.

Lemma ended_ok ms v0 j p pr v : wp refuse (ends_with v0 ms refuse) j p pr v -> outcome_ok refuse ms v0 v j p pr.
Proof. destruct pr; try done. intros [H1 H2]. split; [|done]. destruct p; [apply H1|done]. Qed.

Lemma start_owned k ms objs : ready (view_of k) ms objs -> named_owned (view_of k).
Proof. intros R o E. by rewrite (rd_named _ _ _ R) in E. Qed.

(** C23.  [rock_fork], of modules whose mappings are in order and readable,
    under any schedule of the two processes and any answers of the kernel that
    its laws allow.  At every moment neither process has faulted, and [quit] is
    reached only if the kernel refuses a call; a process that returns, with 0
    in the child and the identifier of the child in the parent, has every
    module mapped again at its two places with the protections of a loaded
    module, in a file that the other process does not have, with the bytes that
    were there before the call; its other pages and its descriptors are as they
    were, the objects of the child being its own copies. *)
Theorem rock_fork_safe k ms objs s : kok k -> ready (view_of k) ms objs ->
  let c := run s (start_fork k ms) in
  let forked := match child c with Some _ => true | None => false end in
  outcome_ok refuse ms (view_of k) (view_of (ker c)) forked false (parent c) /\
  forall ch, child c = Some ch -> outcome_ok refuse ms (view_of k) (view_of (ker c)) true true ch.
Proof.
  intros Hk R c j. destruct (run_sound _ s _ (start_sound k ms objs Hk R)) as [[_ H] _]. fold c in H. unfold j.
  destruct (child c) as [ch|].
  - destruct H as [Hp Hc]. split; [by apply ended_ok, Hp|]. intros ? [= <-]. by apply ended_ok, Hc.
  - destruct H as [_ Hp]. split; [by apply ended_ok|done].
Qed.

(** C24.  When the kernel refuses nothing, [rock_fork] returns in both
    processes: there is a number of rounds, the same for all runs, after which
    both have returned, a round being any schedule with a step of each.  The
    loop for the file name never keeps both waiting. *)
Theorem rock_fork_finishes ms : ~ refuse -> exists N, forall k objs rounds, kok k -> ready (view_of k) ms objs ->
  (N <= length rounds)%nat -> Forall round rounds -> finished (run (concat rounds) (start_fork k ms)).
Proof.
  intros Hr. destruct (within_rock_fork ms) as [n Hn]. exists (S n). intros k objs rounds Hk R Hl Hf.
  apply (rounds_finish (ends_with (view_of k) ms refuse) Hr) with n; [|by apply (start_sound k ms objs)|
    by apply (start_owned k ms objs)|exact Hn|lia|done].
  intros j p rv v [Hrv Hre]. split; [|apply Hre]. destruct p; [apply Hrv|]. destruct j; [done|]. by destruct Hrv.
Qed.
End theorems.

(** ** A small system *)
Definition small_module : code_module :=
  alloc_code_module {{ base_addr := 0x1000 }} {{ osb_base_addr := 0x2000 }} {{ sz := 0x1000 }} {{ instrumented := true }}
    {{ gotplt := 0x4000 }} {{ osb_gotplt := 0x5000 }} {{ gotpltsz := 0x1000 }}.

(** The protection of the code is an argument. *)
Definition small_view (prot : Z) : view :=
  View (fun p n => if p then None else
          if n =? 1 then Some (0, 0, prot) else if n =? 2 then Some (0, 0, PROT_WRITE) else
          if n =? 4 then Some (1, 0, PROT_READ) else if n =? 5 then Some (1, 0, PROT_WRITE) else None)
    (fun o i => (7 * o + i) mod 256) (fun _ => 0x1000) (fun _ => true) None (fun _ _ => None).

Definition small_start (prot : Z) : small_kernel := SmallKernel (small_view prot) 2 6 3.

Lemma small_start_ok prot : small_ok (small_start prot).
Proof.
  constructor; cbn [small_start k_view next_object next_page next_fd]; try lia; try done.
  - intros p o [(n & i & pr & H)|(fd & H)]; [|done]. cbn in H. destruct p; [done|].
    repeat case_match; simplify_eq; lia.
  - intros p n H. cbn in H. destruct p; [done|].
    destruct (Z.eqb_spec n 1), (Z.eqb_spec n 2), (Z.eqb_spec n 4), (Z.eqb_spec n 5); subst; try lia; done.
Qed.

Lemma small_ready : ready (small_view PROT_EXEC) [small_module] [0; 1].
Proof.
  constructor; try done.
  - change (all_parts [small_module]) with [code_part small_module; gotplt_part small_module].
    by repeat apply List.Forall_cons; try apply List.Forall_nil; constructor.
  - vm_compute all_pages. cbn [all_apart]. unfold apart. cbn [fst snd].
    repeat (split || apply List.Forall_cons || apply List.Forall_nil); cbn; lia.
  - apply NoDup_cons. split; [set_solver|apply NoDup_singleton].
  - assert (Hone : forall i, 0 <= i < 0x1000 / PAGE_SIZE -> i = 0) by (unfold PAGE_SIZE; intros; div_lia).
    change (all_parts [small_module]) with [code_part small_module; gotplt_part small_module].
    do 2 (apply List.Forall2_cons; [split; [done|]; intros i Hi%Hone; subst; split; by eexists|]). constructor.
Qed.

Lemma rock_fork_safe_witness :
  ready (small_view PROT_EXEC) [small_module] [0; 1] /\
  let c := run (concat (repeat [false; true] 1000)) (start_fork (K := small) (small_start PROT_EXEC) [small_module]) in
  let forked := match child c with Some _ => true | None => false end in
  outcome_ok False [small_module] (small_view PROT_EXEC) (view_of (ker c)) forked false (parent c) /\
  forall ch, child c = Some ch ->
    outcome_ok False [small_module] (small_view PROT_EXEC) (view_of (ker c)) true true ch.
Proof.
  split; [exact small_ready|].
  exact (rock_fork_safe (laws := small_laws) (small_start PROT_EXEC) [small_module] [0; 1] _
    (small_start_ok PROT_EXEC) small_ready).
Defined.

Lemma rock_fork_finishes_witness : exists N, forall n, (N <= n)%nat ->
  finished (run (concat (repeat [true; false] n)) (start_fork (K := small) (small_start PROT_EXEC) [small_module])).
Proof.
  destruct (rock_fork_finishes (laws := small_laws) [small_module] (fun H => H)) as [N H]. exists N. intros n Hn.
  apply (H (small_start PROT_EXEC) [0; 1]); [exact (small_start_ok PROT_EXEC)|exact small_ready| |].
  - by rewrite repeat_length.
  - apply List.Forall_forall. intros s ->%repeat_spec. split; [apply list_elem_of_here|].
    apply list_elem_of_further, list_elem_of_here.
Defined.

(** A code heap is made of pages that cannot be accessed until the program
    maps them: [save_content] reads them all. *)
Example fork_of_reserved_pages :
  parent (run [false; false] (start_fork (K := small) (small_start PROT_NONE) [small_module])) = Crash.
Proof. vm_compute. reflexivity. Qed.
